(* ===== verification/_CoqProject ===== *)
-Q . S2P
Prelude.v
Memory.v
Machine.v
Kalloc.v
Swap.v
SwapInv.v
Scfifo.v
Aging.v
Paging.v
AdvQueue.v
Vm.v
Proc.v
Frame.v
Sched.v
SchedInv.v
Disk.v
Bio.v
Log.v
LogCrash.v
Txn.v
Fs.v
Inode.v
Bmap.v
Rdwr.v
Op.v
File.v
SwapFile.v
FileProps.v
Path.v
Mkfs.v
MkfsProps.v
MkfsImage.v
Boot.v
Ring.v
Pipe.v
Grep.v
Sh.v
Spinlock.v
Console.v
SwapName.v
Umalloc.v
Uheap.v
Kbd.v
Trap.v
Sbrk.v
Exec.v
ExecStack.v
Sysfile.v
FileRefs.v
SysfileProps.v
Mp.v
Ata.v
Bootmain.v
Ide.v
Memide.v
Unix.v
ShRun.v
Apic.v
Rtc.v
Uart.v
Sleeplock.v
Segments.v
Consdev.v
Startup.v
UnixText.v
