(* ===== verification/Prelude.v ===== *)
(** * OS3: a verified model of an xv6 kernel with page swapping

    OS3 is the xv6 teaching kernel for the x86, extended with swapping of user
    pages to a file per process under one of the page-replacement policies
    SCFIFO (the default), AQ, NFUA and LAPA, chosen when it is built, or none.
    This library translates the C sources into Rocq functions and proves what
    makes them correct.

    ** The program and its models

    - memory: [src/string.c] in [Memory] (byte memory, module [Kstring]); the
      structures and macros of [proc.h], [mmu.h], [param.h], [memlayout.h] and
      the state [kst] of the kernel in [Machine]; the page allocator
      [src/kalloc.c], [src/pagealloc.c] in [Kalloc]; page tables, growing,
      shrinking, copying and faults of address spaces, [src/vm.c], in [Vm].
    - swapping, [src/swap.c]: the operations in [Swap], their bookkeeping
      invariant in [SwapInv], the ring of SCFIFO in [Scfifo], the counters of
      NFUA and LAPA in [Aging], the queue of AQ in [AdvQueue], and paging
      against any policy that keeps the promises of the class [ReplPolicy] in
      [Paging].  The file system is the class [FileSys], with the laws
      [SwapLaws] that swapping relies on, in [Machine]; [SwapFile] proves them
      of the file system on disk.
    - processes, [src/proc.c]: the functions in [Proc], cut at the context
      switch; the machine that interleaves their parts, and what each part does
      to the table of processes, in [Sched]; its invariant in [SchedInv].
    - what a function leaves alone of the state of the kernel: [Frame].
    - traps and system calls, [src/trap.c], [src/syscall.c],
      [src/sysproc.c]: [Trap]; segments, gates and the task state, of
      [src/mmu.h], [src/vm.c] and [src/trap.c], as the processor reads them in
      memory: [Segments].
    - [exec], [src/exec.c]: [Exec]; the stack it builds, in [ExecStack].
    - locks on several processors: [src/spinlock.c] in [Spinlock], with
      processes that sleep [src/sleeplock.c] in [Sleeplock].
    - the file system: the state, the disk [src/ide.c] and the buffer cache
      [src/bio.c] in [Disk], what the cache promises in [Bio]; the log
      [src/log.c] in [Log], crashes in [LogCrash]; inodes, directories and
      paths, [src/fs.c] and part of [src/sysfile.c], in [Fs]; open files, pipes
      and swap files, [src/file.c], [src/pipe.c], in [File], which also makes
      the file system an instance of [FileSys]; pipes as queues in [Pipe]; the
      names of swap files in [SwapName]; the system calls on files
      [src/sysfile.c] in [Sysfile], their reference counts in [FileRefs] and
      [SysfileProps]; path lookup in [Path].
    - the image builder [src/mkfs.c]: [Mkfs], what it writes in [MkfsProps] and
      [MkfsImage]; the kernel started on such an image, in [Boot].
    - devices, each behind a class that states what its manual says of its
      registers: ATA disks in [Ata], the driver [src/ide.c] on its ports in
      [Ide], the disk in memory [src/memide.c] in [Memide]; the interrupt
      controllers [src/ioapic.c], [src/lapic.c] in [Apic]; the clock, of
      [src/lapic.c], in [Rtc]; the serial port [src/uart.c] and
      [src/picirq.c] in [Uart].
    - starting: the boot loader [src/bootmain.c] in [Bootmain]; the table of
      processors [src/mp.c] in [Mp]; the start of the other processors,
      [src/main.c], in [Startup].
    - the contents of files, layer by layer: the blocks a transaction sees and
      the space it has in the log in [Txn]; the bitmap, the blocks of an inode
      and the allocation of blocks in [Inode]; [bmap] and [iupdate] in [Bmap];
      [readi] and [writei] in [Rdwr]; the begin and the end of a transaction,
      and the locks of inodes, in [Op]; [filewrite] and [fileread] of swap files
      in [SwapFile]; what this gives to callers in [FileProps].
    - the console [src/console.c] and [src/printf.c]: formats, screen and line
      input in [Console], its output to screen and serial port in [Consdev];
      the keyboard [src/kbd.c] in [Kbd]; both rings, of pipes and of the
      console, rest on [Ring].
    - user programs as interaction trees over the system calls: the library's
      input and output, [src/cat.c], [src/echo.c], [src/init.c], [src/kill.c],
      [src/ln.c], [src/ls.c], [src/mkdir.c], [src/rm.c], [src/zombie.c] in
      [Unix]; the shell's parser [src/sh.c] in [Sh], the rest of it in [ShRun];
      [src/grep.c], [src/wc.c] and string functions of [src/ulib.c] in [Grep],
      as processes in [UnixText]; the allocator [src/umalloc.c] in [Umalloc]
      (blocks and the free list) and [Uheap] (the heap and its clients), the
      kernel's answers to its [sbrk] in [Sbrk].

    ** How the code is translated

    A function of the kernel is a term of the monad [M St A] below: it returns
    ([Ok]) or it panics, sleeps ([Blocked]), waits for ever for a lock its own
    processor holds ([Spins]), does what C leaves undefined, a null
    dereference or an access out of an array ([UB]), or runs out of fuel.  The
    state is one record per subsystem: [kst] for memory and processes, [fsys]
    for the file system, [smp] for locks on several processors, and small
    records for the console, the keyboard and the user's heap; [hw X D] pairs a
    program's state with a device.  Where processors or processes interleave
    ([Sched], [Spinlock], [Sleeplock], [Startup]) the steps are a relation.  Names are
    those of the source; an [#ifdef] on the policy is a match on [SELECTION].
    Integers are [Z], wrapped by [u32], [s32] and [u8] where the C type wraps;
    pointers to kernel memory are addresses, pointers into tables are indices.
    A loop is structural where it can be; otherwise it has fuel, a bound given
    next to it: the number of pages of the range for [mappages] and
    [deallocuvm], one turn more than the table for the search of SCFIFO, the
    length of the input for the shell's parser, the polls a disk or clock needs
    for the loops that wait for one.  Theorems of total correctness
    ([wp]) show that the fuel is enough; those on [malloc] and [free] hold for
    all fuel above a bound.

    ** What is proved

    - paging, under SCFIFO, NFUA and LAPA: any run of the four operations, in
      which additions succeed, keeps the metadata, the swap slots, the counters
      and the policy's structure consistent ([paging_refines]); a page that is
      swapped out comes back with its contents ([swap_out_saves],
      [swap_in_restores]); the victims are those of the policy
      ([scfifo_second_chance], [nfua_victim], [lapa_victim], [aq_fifo]).
    - the allocators: pages are free or held by one client
      ([allocator_partition]); the blocks of [malloc] do not overlap and none
      is lost, for requests below 2 GB ([umalloc_partition]); both return; the
      kernel answers [sbrk] as [malloc] relies on ([sbrk_answers]).
    - the log: a transaction is installed as a whole or not at all, wherever
      the machine crashes ([commit_atomic]), also during recovery
      ([recovery_restartable]).
    - files: an inode is a byte array for [writei] and [readi]
      ([writei_splices], [readi_slices]); the swap files on disk are a map of
      pages, as long as the disk has the blocks for them to grow
      ([swap_space_on_disk]), which is what the theorems about paging assume of
      them; the image that [mkfs] writes is a consistent file system ([mkfs_image]), on which the
      kernel starts and finds the files ([mkfs_boots], [namei_resolves]), also
      after a crash ([boot_recovers]); descriptors are counted on every path of
      the system calls ([descriptors_counted]); the driver that programs the
      disk's ports implements the block device, for writes on disks that do not
      insist on asking for the data ([iderw_refines]).
    - programs: [exec] gives a program its arguments ([exec_args]), and changes
      a process as a whole or not at all ([exec_all_or_nothing]).
    - processes: the scheduler's invariant over all interleavings
      ([sched_safe]); locks exclude each other's holders and a free lock is
      taken ([spinlock_mutex], [spinlock_progress]); no process sleeps on a
      sleep lock that is free ([sleeplock_safe]).
    - the machine: the boot loader loads the kernel ([bootmain_loads]); every
      processor starts on a stack of its own ([startothers_safe]); traps of user
      code enter the kernel at their vectors, on the kernel stack, and user code
      can raise no others ([traps_enter_kernel]); interrupts go to the processor
      they are enabled for ([ioapic_routes]); the date is not torn
      ([cmostime_reads]).
    - pipes deliver in order what was written ([pipe_fifo]); the console
      is a line editor ([console_refines_editor]); the keyboard types bytes
      into it ([kbdintr_types]).
    - the shell accepts the lines of its grammar and no others
      ([sh_parse_correct]), always returns ([sh_parse_returns]), and runs a line
      with the descriptors it says ([sh_runs_line]); grep matches what its
      patterns mean ([match_correct]) and prints the matching lines
      ([grep_prints_matching]).
    - arguments of system calls are read below the size of the process only
      ([syscall_args_checked], under the policies other than AQ, whose panic
      prints the queue).
    - what the code does not do as it means to: a counter that drifts
      ([free_counter_drifts]), pages the AQ queue loses ([aq_loses_page]),
      processes born killed ([kill_zero_born_killed]), panics on swapped-out
      arguments ([paged_out_argument_panics]), blocks of 2 GB that overlap
      others ([malloc_2gb]), exceptions that do not end a
      program ([exception_retries]), lines grep loses ([grep_short_read]), a
      table of processors that hangs the kernel ([mpinit_hangs]), a hole at the
      end of the root directory ([mkfs_root_hole]).

    ** What is not modelled

    Assembly code ([bootasm.S], [entry.S], [entryother.S], [initcode.S],
    [swtch.S], [trapasm.S], [usys.S], the vectors): it has no C semantics; the
    models start where it calls C and say what it hands over.  [main] itself,
    which only calls the parts in order.  The test programs [usertests.c],
    [myMemTest.c], [forktest.c] and [stressfs.c].  The copying functions of
    [src/ulib.c], which the programs' models replace by operations on lists.
    The order in which several processors see each other's writes is
    sequential in [Spinlock]; the compiler's and the processor's reordering,
    which [__sync_synchronize] restrains, is not modelled.

    ** This file

    - machine integers: [u8], [u16], [u32] wrap an integer to its width the
      way C's unsigned conversions do, [s32] is the conversion to [int];
    - [outcome] and [M]: the state monad in which the kernel's functions are
      written, with the ways a C function of the kernel can fail to return;
    - [wp]: total-correctness weakest preconditions for [M];
    - counted and fuelled loops with early exit;
    - record update [r <| field := v |>] for the state records;
    - the list lemmas and the tactics the components share. *)

From stdpp Require Export base strings numbers gmap list.
From stdpp Require Import options.

#[global] Open Scope Z_scope.

(** ** Machine integers *)

Definition u8 (z : Z) : Z := z mod 2 ^ 8.
Definition u16 (z : Z) : Z := z mod 2 ^ 16.
Definition u32 (z : Z) : Z := z mod 2 ^ 32.

(** Conversion to a 32-bit [int] (two's complement). *)
Definition s32 (z : Z) : Z :=
  let w := u32 z in if w <? 2 ^ 31 then w else w - 2 ^ 32.

Lemma u32_range z : 0 ≤ u32 z < 2 ^ 32.
Proof. apply Z.mod_pos_bound. lia. Qed.

Lemma u32_id z : 0 ≤ z < 2 ^ 32 → u32 z = z.
Proof. apply Z.mod_small. Qed.

Lemma u32_u32 z : u32 (u32 z) = u32 z.
Proof. apply u32_id, u32_range. Qed.

Lemma u8_range z : 0 ≤ u8 z < 256.
Proof. apply Z.mod_pos_bound. lia. Qed.

Lemma u8_id z : 0 ≤ z < 256 → u8 z = z.
Proof. apply Z.mod_small. Qed.

Lemma s32_range z : - 2 ^ 31 ≤ s32 z < 2 ^ 31.
Proof. unfold s32. pose proof (u32_range z). destruct (Z.ltb_spec (u32 z) (2 ^ 31)); lia. Qed.

Lemma s32_id z : - 2 ^ 31 ≤ z < 2 ^ 31 → s32 z = z.
Proof.
  intros Hz. unfold s32, u32. destruct (decide (0 ≤ z)).
  - rewrite (Z.mod_small z) by lia. case_match; lia.
  - replace (z mod 2 ^ 32) with (z + 2 ^ 32).
    + case_match; lia.
    + rewrite <-(Z.mod_small (z + 2 ^ 32) (2 ^ 32)) by lia.
      by rewrite Z.add_mod, Z_mod_same_full, Z.add_0_r, Z.mod_mod by lia.
Qed.

(** Clearing the low bits of a 32-bit integer. *)
Lemma land_high k z : 0 ≤ k ≤ 32 → 0 ≤ z < 2 ^ 32 → Z.land z (Z.shiftl (Z.ones (32 - k)) k) = z / 2 ^ k * 2 ^ k.
Proof.
  intros Hk Hz. rewrite <-Z.shiftr_div_pow2, <-Z.shiftl_mul_pow2 by lia. apply Z.bits_inj'. intros i Hi. rewrite Z.land_spec.
  destruct (decide (i < k)).
  - rewrite !Z.shiftl_spec_low by lia. by rewrite andb_false_r.
  - rewrite !Z.shiftl_spec_high, Z.shiftr_spec by lia. replace (i - k + k) with i by lia. destruct (decide (i < 32)).
    + rewrite Z.ones_spec_low by lia. by rewrite andb_true_r.
    + rewrite Z.ones_spec_high by lia. rewrite andb_false_r, Z.testbit_eqb, Z.div_small; [done| |lia].
      split; [lia|]. apply Z.lt_le_trans with (2 ^ 32); [lia|]. apply Z.pow_le_mono_r; lia.
Qed.

(** ** Outcomes and the kernel monad

    A kernel function either returns a value in a new state, panics (the
    kernel prints the message and stops), blocks the calling thread in
    [sleep(chan, _)], spins for ever on a lock held elsewhere, or does
    something C gives no meaning to (a null or out-of-range access).  [Fuel]
    is returned by a fuelled loop whose fuel did not suffice. *)
Inductive outcome (St A : Type) : Type :=
  | Ok (a : A) (s : St)
  | Panic (msg : string)
  | Blocked (chan : Z) (s : St)
  | Spins
  | UB (what : string)
  | Fuel.
Arguments Ok {St A} a s.
Arguments Panic {St A} msg.
Arguments Blocked {St A} chan s.
Arguments Spins {St A}.
Arguments UB {St A} what.
Arguments Fuel {St A}.

Definition M (St A : Type) : Type := St → outcome St A.

Definition obind {St A B} (r : outcome St A) (k : A → M St B) : outcome St B :=
  match r with
  | Ok a s => k a s
  | Panic msg => Panic msg
  | Blocked c s => Blocked c s
  | Spins => Spins
  | UB w => UB w
  | Fuel => Fuel
  end.

Definition ret {St A} (a : A) : M St A := λ s, Ok a s.
Definition bind {St A B} (m : M St A) (k : A → M St B) : M St B := λ s, obind (m s) k.

Declare Scope M_scope.
Delimit Scope M_scope with M.
Notation "x <- m ;; k" := (bind m (λ x, k))
  (at level 100, m at next level, k at level 200, right associativity) : M_scope.
Notation "m ;; k" := (bind m (λ _, k))
  (at level 100, k at level 200, right associativity) : M_scope.
#[global] Open Scope M_scope.

Definition get {St} : M St St := λ s, Ok s s.
Definition gets {St A} (f : St → A) : M St A := λ s, Ok (f s) s.
Definition modify {St} (f : St → St) : M St unit := λ s, Ok tt (f s).
Definition panic {St A} (msg : string) : M St A := λ _, Panic msg.
Definition undef {St A} (what : string) : M St A := λ _, UB what.
Definition block {St A} (chan : Z) : M St A := λ s, Blocked chan s.
Definition spin {St A} : M St A := λ _, Spins.
Definition nofuel {St A} : M St A := λ _, Fuel.
Definition skip {St} : M St unit := ret tt.

(** Dereference of a pointer or index that must be valid. *)
Definition of_option {St A} (what : string) (o : option A) : M St A :=
  match o with Some a => ret a | None => undef what end.

(** [for(i = i0; i < i0 + n; i++) body], where [body i] may return from the
    enclosing function ([Some r]). *)
Fixpoint for_up {St R} (n : nat) (i : Z) (body : Z → M St (option R)) : M St (option R) :=
  match n with
  | O => ret None
  | S n => r <- body i;;
           match r with
           | Some r => ret (Some r)
           | None => for_up n (i + 1) body
           end
  end.

(** A loop that never leaves early. *)
Fixpoint for_all {St} (n : nat) (i : Z) (body : Z → M St unit) : M St unit :=
  match n with
  | O => ret tt
  | S n => body i ;; for_all n (i + 1) body
  end.

(** [for(;;) body] on a loop variable: [inl x] goes round again with [x],
    [inr r] leaves the loop with [r]. *)
Fixpoint loop {St X R} (fuel : nat) (body : X → M St (X + R)) (x : X) : M St R :=
  match fuel with
  | O => nofuel
  | S fuel => y <- body x;;
              match y with
              | inl x' => loop fuel body x'
              | inr r => ret r
              end
  end.

(** ** Total-correctness weakest preconditions *)

Definition wp {St A} (m : M St A) (Q : A → St → Prop) (s : St) : Prop :=
  match m s with Ok a s' => Q a s' | _ => False end.

Section wp.
Context {St : Type}.
Implicit Types s : St.

Lemma wp_ok {A} (m : M St A) Q s : wp m Q s ↔ ∃ a s', m s = Ok a s' ∧ Q a s'.
Proof.
  unfold wp. split.
  - destruct (m s) as [a s'| | | | |]; [|done..]. eauto.
  - intros (a & s' & -> & HQ). done.
Qed.

Lemma wp_ret {A} (a : A) (Q : A → St → Prop) s : Q a s → wp (ret a) Q s.
Proof. done. Qed.

Lemma wp_bind {A B} (m : M St A) (k : A → M St B) Q s :
  wp m (λ a, wp (k a) Q) s → wp (bind m k) Q s.
Proof. unfold wp, bind. by destruct (m s). Qed.

Lemma wp_bind_inv {A B} (m : M St A) (k : A → M St B) Q s :
  wp (bind m k) Q s → wp m (λ a, wp (k a) Q) s.
Proof. unfold wp, bind. by destruct (m s). Qed.

Lemma wp_mono {A} (m : M St A) (Q Q' : A → St → Prop) s :
  wp m Q s → (∀ a s', Q a s' → Q' a s') → wp m Q' s.
Proof. unfold wp. destruct (m s); naive_solver. Qed.

Lemma wp_ok_inv {A} (m : M St A) (Q : A → St → Prop) s a s' : wp m Q s → m s = Ok a s' → Q a s'.
Proof. unfold wp. intros H E. by rewrite E in H. Qed.

Lemma wp_eq {A} (m : M St A) (Q : A → St → Prop) s a s' :
  m s = Ok a s' → Q a s' → wp m Q s.
Proof. unfold wp. by intros ->. Qed.

Lemma wp_get (Q : St → St → Prop) s : Q s s → wp get Q s.
Proof. done. Qed.

Lemma wp_gets {A} (f : St → A) (Q : A → St → Prop) s : Q (f s) s → wp (gets f) Q s.
Proof. done. Qed.

Lemma wp_modify (f : St → St) (Q : unit → St → Prop) s : Q tt (f s) → wp (modify f) Q s.
Proof. done. Qed.

Lemma wp_of_option {A} w (o : option A) (a : A) (Q : A → St → Prop) s :
  o = Some a → Q a s → wp (of_option w o) Q s.
Proof. by intros ->. Qed.

(** Invariant rule for a loop without early exit. *)
Lemma wp_for_all (I : Z → St → Prop) n i body s :
  I i s →
  (∀ j s', i ≤ j < i + Z.of_nat n → I j s' → wp (body j) (λ _, I (j + 1)) s') →
  wp (for_all n i body) (λ _, I (i + Z.of_nat n)) s.
Proof.
  revert i s. induction n as [|n IH]; intros i s HI Hb.
  - apply wp_ret. by replace (i + Z.of_nat 0) with i by lia.
  - simpl. apply wp_bind. eapply wp_mono; [apply Hb; [lia|done]|].
    intros ? s' HI'. replace (i + Z.of_nat (S n)) with (i + 1 + Z.of_nat n) by lia.
    apply IH; [done|]. intros j s'' Hj. apply Hb. lia.
Qed.

(** Invariant rule for a loop with early exit. *)
Lemma wp_for_up {R} (I : Z → St → Prop) (Q : option R → St → Prop) n i body s :
  I i s →
  (∀ s', I (i + Z.of_nat n) s' → Q None s') →
  (∀ j s', i ≤ j < i + Z.of_nat n → I j s' →
     wp (body j) (λ r s'', match r with Some _ => Q r s'' | None => I (j + 1) s'' end) s') →
  wp (for_up n i body) Q s.
Proof.
  revert i s. induction n as [|n IH]; intros i s HI HQ Hb.
  - apply wp_ret, HQ. by replace (i + Z.of_nat 0) with i by lia.
  - simpl. apply wp_bind. eapply wp_mono; [apply Hb; [lia|done]|].
    intros [r|] s' Hr; [by apply wp_ret|].
    apply IH; [done| |].
    + intros s'' Hs. apply HQ. by replace (i + Z.of_nat (S n)) with (i + 1 + Z.of_nat n) by lia.
    + intros j s'' Hj. apply Hb. lia.
Qed.

(** Invariant rule for [loop], with a measure [m] that the fuel exceeds. *)
Lemma wp_loop {X R} (I : X → St → Prop) (m : X → nat) (Q : R → St → Prop) fuel (body : X → M St (X + R)) (x : X) s :
  I x s → (m x < fuel)%nat →
  (∀ x s, I x s → wp (body x) (λ y s', match y with inl x' => I x' s' ∧ (m x' < m x)%nat | inr r => Q r s' end) s) →
  wp (loop fuel body x) Q s.
Proof.
  revert x s. induction fuel as [|fuel IH]; intros x s HI Hf Hb; [lia|]. simpl.
  apply wp_bind. eapply wp_mono; [by apply Hb|]. intros [x'|r] s' H'; [|done]. destruct H'. apply IH; [done|lia|done].
Qed.
End wp.

(** ** Partial correctness: whenever the function returns *)

Definition wlp {St A} (m : M St A) (Q : A → St → Prop) (s : St) : Prop :=
  match m s with Ok a s' => Q a s' | _ => True end.

Section wlp.
Context {St : Type}.
Implicit Types s : St.

Lemma wlp_ok {A} (m : M St A) (Q : A → St → Prop) s :
  wlp m Q s ↔ ∀ a s', m s = Ok a s' → Q a s'.
Proof. unfold wlp. destruct (m s); naive_solver. Qed.

Lemma wp_wlp {A} (m : M St A) (Q : A → St → Prop) s : wp m Q s → wlp m Q s.
Proof. unfold wp, wlp. by destruct (m s). Qed.

(** A total and a partial specification combine. *)
Lemma wp_and_wlp {A} (m : M St A) (Q Q' : A → St → Prop) s :
  wp m Q s → wlp m Q' s → wp m (λ a s', Q a s' ∧ Q' a s') s.
Proof. unfold wp, wlp. by destruct (m s). Qed.

Lemma wlp_ret {A} (a : A) (Q : A → St → Prop) s : Q a s → wlp (ret a) Q s.
Proof. done. Qed.

Lemma wlp_bind {A B} (m : M St A) (k : A → M St B) Q s :
  wlp m (λ a, wlp (k a) Q) s → wlp (bind m k) Q s.
Proof. unfold wlp, bind. by destruct (m s). Qed.

Lemma wlp_bind_inv {A B} (m : M St A) (k : A → M St B) Q s :
  wlp (bind m k) Q s → wlp m (λ a s', wlp (k a) Q s') s.
Proof. unfold wlp, bind. by destruct (m s). Qed.
Lemma wlp_mono {A} (m : M St A) (Q Q' : A → St → Prop) s :
  wlp m Q s → (∀ a s', Q a s' → Q' a s') → wlp m Q' s.
Proof. unfold wlp. destruct (m s); naive_solver. Qed.

Lemma wlp_get (Q : St → St → Prop) s : Q s s → wlp get Q s.
Proof. done. Qed.

Lemma wlp_gets {A} (f : St → A) (Q : A → St → Prop) s : Q (f s) s → wlp (gets f) Q s.
Proof. done. Qed.

Lemma wlp_modify (f : St → St) (Q : unit → St → Prop) s : Q tt (f s) → wlp (modify f) Q s.
Proof. done. Qed.

Lemma wlp_of_option {A} w (o : option A) (Q : A → St → Prop) s :
  (∀ a, o = Some a → Q a s) → wlp (of_option w o) Q s.
Proof. unfold wlp. destruct o; simpl; naive_solver. Qed.

Lemma wlp_panic {A} msg (Q : A → St → Prop) s : wlp (panic msg) Q s.
Proof. done. Qed.

Lemma wlp_for_all (I : Z → St → Prop) n i body s :
  I i s →
  (∀ j s', i ≤ j < i + Z.of_nat n → I j s' → wlp (body j) (λ _, I (j + 1)) s') →
  wlp (for_all n i body) (λ _, I (i + Z.of_nat n)) s.
Proof.
  revert i s. induction n as [|n IH]; intros i s HI Hb.
  - apply wlp_ret. by replace (i + Z.of_nat 0) with i by lia.
  - simpl. apply wlp_bind. eapply wlp_mono; [apply Hb; [lia|done]|].
    intros ? s' HI'. replace (i + Z.of_nat (S n)) with (i + 1 + Z.of_nat n) by lia.
    apply IH; [done|]. intros j s'' Hj. apply Hb. lia.
Qed.

Lemma wlp_loop {X R} (I : X → St → Prop) (Q : R → St → Prop) fuel body (x : X) s :
  I x s →
  (∀ x s, I x s → wlp (body x) (λ y s', match y with inl x' => I x' s' | inr r => Q r s' end) s) →
  wlp (loop fuel body x) Q s.
Proof.
  revert x s. induction fuel as [|fuel IH]; intros x s HI Hb; [done|]. simpl.
  apply wlp_bind. eapply wlp_mono; [by apply Hb|]. intros [x'|r] s' H'; [by apply IH|done].
Qed.
End wlp.

(** Monad laws, pointwise in the state. *)
Lemma bind_ok {St A B} (m : M St A) (k : A → M St B) s a s' :
  m s = Ok a s' → (bind m k) s = k a s'.
Proof. unfold bind. by intros ->. Qed.

Lemma bind_panic {St A B} (m : M St A) (k : A → M St B) s msg :
  m s = Panic msg → (bind m k) s = Panic msg.
Proof. unfold bind. by intros ->. Qed.

Lemma bind_inv {St A B} (m : M St A) (k : A → M St B) s b s' :
  (bind m k) s = Ok b s' → ∃ a s1, m s = Ok a s1 ∧ k a s1 = Ok b s'.
Proof. unfold bind. destruct (m s); naive_solver. Qed.

(** ** Strings *)

(** The bytes of a literal. *)
Definition bytes_of (s : string) : list Z := (λ c, Z.of_N (Ascii.N_of_ascii c)) <$> String.list_ascii_of_string s.

(** ** Record update *)

(** [Eta R] is the eta-expansion of a record, from which the update function
    of any field is computed. *)
Class Eta (R : Type) := eta : R → R.
Class Upd {R T : Type} (proj : R → T) := upd : (T → T) → R → R.
Arguments upd {R T} proj {_} f r.

Ltac solve_upd :=
  lazymatch goal with
  | |- @Upd ?R ?T ?proj =>
      let f := fresh "f" in let r := fresh "r" in
      intros f r; hnf;
      let e := eval hnf in (@eta R _ r) in
      lazymatch eval pattern (proj r) in e with
      | ?g _ => let b := eval cbv beta in (g (f (proj r))) in exact b
      end
  end.
#[global] Hint Extern 0 (Upd _) => solve_upd : typeclass_instances.

Declare Scope upd_scope.
Delimit Scope upd_scope with upd.
Notation "r <| proj := v |>" := (upd proj (λ _, v) r)
  (at level 1, left associativity, format "r  <| proj  :=  v |>") : upd_scope.
Notation "r <| proj ::= f |>" := (upd proj f r)
  (at level 1, left associativity, format "r  <| proj  ::=  f |>") : upd_scope.
#[global] Open Scope upd_scope.

(** ** Arrays indexed by [Z] *)

Section arr.
Context {A : Type}.
Implicit Types (l : list A) (i j : Z).

(** [l[i]], if [i] is in range. *)
Definition aget l i : option A := if i <? 0 then None else l !! Z.to_nat i.
Definition aset l i (x : A) : list A := if i <? 0 then l else <[Z.to_nat i := x]> l.

Lemma aget_nat l (n : nat) : aget l (Z.of_nat n) = l !! n.
Proof. unfold aget. destruct (Z.ltb_spec (Z.of_nat n) 0); [lia|]. by rewrite Nat2Z.id. Qed.

Lemma aget_Some_range l i x : aget l i = Some x → 0 ≤ i < Z.of_nat (length l).
Proof. unfold aget. destruct (Z.ltb_spec i 0); [done|]. intros ?%lookup_lt_Some. lia. Qed.

Lemma aget_is_Some l i : 0 ≤ i < Z.of_nat (length l) → is_Some (aget l i).
Proof. intros Hi. unfold aget. destruct (Z.ltb_spec i 0); [lia|]. apply lookup_lt_is_Some. lia. Qed.

Lemma length_aset l i x : length (aset l i x) = length l.
Proof. unfold aset. destruct (i <? 0); [done|]. apply length_insert. Qed.

Lemma aget_aset_eq l i x : 0 ≤ i < Z.of_nat (length l) → aget (aset l i x) i = Some x.
Proof.
  intros Hi. unfold aget, aset. destruct (Z.ltb_spec i 0); [lia|].
  apply list_lookup_insert_eq. lia.
Qed.

Lemma aget_aset_ne l i j x : i ≠ j → aget (aset l i x) j = aget l j.
Proof.
  intros Hij. unfold aget, aset. destruct (Z.ltb_spec j 0); [done|].
  destruct (Z.ltb_spec i 0); [done|]. apply list_lookup_insert_ne. lia.
Qed.

Lemma aget_aset l i j x :
  0 ≤ i < Z.of_nat (length l) →
  aget (aset l i x) j = if decide (i = j) then Some x else aget l j.
Proof.
  intros Hi. case_decide as Hij; [subst; by apply aget_aset_eq|by apply aget_aset_ne].
Qed.

(** An update splits the array at the index. *)
Lemma aset_split l i x :
  aget l i = Some x →
  ∃ l1 l2, l = l1 ++ x :: l2 ∧ Z.of_nat (length l1) = i ∧ ∀ y, aset l i y = l1 ++ y :: l2.
Proof.
  unfold aget, aset. destruct (Z.ltb_spec i 0); [done|]. intros Hx.
  exists (take (Z.to_nat i) l), (drop (S (Z.to_nat i)) l). split_and!.
  - by rewrite take_drop_middle.
  - apply lookup_lt_Some in Hx. rewrite length_take. lia.
  - intros y. rewrite insert_take_drop; [done|]. by eapply lookup_lt_Some.
Qed.

Lemma aset_aset l i x y : aset (aset l i x) i y = aset l i y.
Proof. unfold aset. destruct (i <? 0); [done|]. apply list_insert_insert_eq. Qed.

Lemma aset_id l i x : aget l i = Some x → aset l i x = l.
Proof. unfold aget, aset. destruct (i <? 0); [done|]. apply list_insert_id. Qed.

(** [f] applied to the element at an index. *)
Definition amod l j (f : A → A) : list A :=
  match aget l j with Some x => aset l j (f x) | None => l end.

Lemma aget_amod l j f i :
  aget (amod l j f) i = (if decide (i = j) then f else id) <$> aget l i.
Proof.
  unfold amod. case_decide as Hij; [subst|].
  - destruct (aget l j) as [x|] eqn:Hx; [|by rewrite Hx].
    rewrite aget_aset_eq; [done|]. by eapply aget_Some_range.
  - rewrite option_fmap_id. destruct (aget l j); [|done]. apply aget_aset_ne. congruence.
Qed.

Lemma aget_amod_eq l j f : aget (amod l j f) j = f <$> aget l j.
Proof. rewrite aget_amod. by rewrite decide_True. Qed.

Lemma aget_amod_ne l j f i : i ≠ j → aget (amod l j f) i = aget l i.
Proof. intros. rewrite aget_amod, decide_False by done. apply option_fmap_id. Qed.

Lemma length_amod l j f : length (amod l j f) = length l.
Proof. unfold amod. destruct (aget l j); [apply length_aset|done]. Qed.

Lemma amod_aset l j f x : aget l j = Some x → amod l j f = aset l j (f x).
Proof. unfold amod. by intros ->. Qed.
End arr.

(** ** Counting *)

Section count.
Context {A : Type}.
Implicit Types (f : A → bool) (l : list A).

Fixpoint cnt f l : Z :=
  match l with [] => 0 | x :: l => (if f x then 1 else 0) + cnt f l end.

Lemma cnt_app f l1 l2 : cnt f (l1 ++ l2) = cnt f l1 + cnt f l2.
Proof. induction l1 as [|x l1 IH]; simpl; [done|]. lia. Qed.

Lemma cnt_range f l : 0 ≤ cnt f l ≤ Z.of_nat (length l).
Proof. induction l as [|x l IH]; simpl; [lia|]. destruct (f x); lia. Qed.

Lemma cnt_zero f l : cnt f l = 0 ↔ Forall (λ x, f x = false) l.
Proof.
  induction l as [|x l IH]; simpl; [done|]. rewrite Forall_cons.
  pose proof (cnt_range f l). destruct (f x).
  - split; [lia|]. by intros [? _].
  - rewrite <-IH. split; [intros; split; [done|lia]|]. intros [_ ?]. lia.
Qed.

Lemma cnt_full f l : cnt f l = Z.of_nat (length l) ↔ Forall (λ x, f x = true) l.
Proof.
  induction l as [|x l IH]; simpl; [done|]. rewrite Forall_cons.
  pose proof (cnt_range f l). destruct (f x).
  - rewrite <-IH. split; [intros; split; [done|lia]|]. intros [_ ?]. lia.
  - split; [lia|]. by intros [? _].
Qed.

(** Changing one element changes the count by that element. *)
Lemma cnt_aset f l i x y :
  aget l i = Some x →
  cnt f (aset l i y) = cnt f l - (if f x then 1 else 0) + (if f y then 1 else 0).
Proof.
  intros Hx. destruct (aset_split l i x Hx) as (l1 & l2 & -> & _ & ->).
  rewrite !cnt_app. simpl. lia.
Qed.
End count.

(** ** Sums *)

Fixpoint zsum {A} (f : A → Z) (l : list A) : Z := match l with [] => 0 | a :: l => f a + zsum f l end.

Lemma zsum_change {A} (f f' : A → Z) (l l' : list A) (g : nat) a a' :
  length l = length l' → l !! g = Some a → l' !! g = Some a' →
  (∀ h b b', h ≠ g → l !! h = Some b → l' !! h = Some b' → f' b' = f b) → zsum f l = zsum f' l' + f a - f' a'.
Proof.
  revert l' g. induction l as [|b l IH]; intros [|b' l'] g Hlen Ha Ha' Hrest; simpl in *; try done. destruct g as [|g]; simpl in *.
  - simplify_eq. enough (zsum f l = zsum f' l') by lia.
    assert (∀ h b b', l !! h = Some b → l' !! h = Some b' → f' b' = f b) as H by (intros h b b'; apply (Hrest (S h)); done).
    clear -Hlen H. revert l' Hlen H. induction l as [|b l IH]; intros [|b' l'] Hlen H; simpl in *; try done.
    rewrite (IH l') by (try lia; intros h; apply (H (S h))). rewrite (H O b b') by done. lia.
  - rewrite (IH l' g) by (try lia; try done; intros h c c' Hh; apply (Hrest (S h)); lia). rewrite (Hrest O b b') by done. lia.
Qed.

Lemma zsum_ge {A} (f : A → Z) (l : list A) (g : nat) a :
  l !! g = Some a → (∀ h b, l !! h = Some b → 0 ≤ f b) → f a ≤ zsum f l.
Proof.
  intros Ha Hpos. assert (∀ l : list A, (∀ h b, l !! h = Some b → 0 ≤ f b) → 0 ≤ zsum f l) as Hz.
  { clear. induction l as [|b l IH]; intros H; simpl; [lia|]. pose proof (H O b ltac:(done)). pose proof (IH ltac:(intros h; apply (H (S h)))). lia. }
  revert g Ha Hpos. induction l as [|b l IH]; intros [|g] Ha Hpos; simpl in *; try done.
  - simplify_eq. pose proof (Hz l ltac:(intros h; apply (Hpos (S h)))). lia.
  - pose proof (IH g Ha ltac:(intros h; apply (Hpos (S h)))). pose proof (Hpos O b ltac:(done)). lia.
Qed.

Lemma zsum_app {A} (f : A → Z) l l' : zsum f (l ++ l') = zsum f l + zsum f l'.
Proof. induction l as [|x l IH]; simpl; lia. Qed.

Lemma zsum_insert {A} (f : A → Z) (l : list A) i a a' : l !! i = Some a → zsum f (<[i := a']> l) = zsum f l + f a' - f a.
Proof.
  intros Ha. pose proof (lookup_lt_Some _ _ _ Ha). rewrite (zsum_change f f l (<[i := a']> l) i a a'); [lia|by rewrite length_insert|done|by apply list_lookup_insert_eq|].
  intros h b b' Hne Hb Hb'. rewrite list_lookup_insert_ne in Hb' by done. congruence.
Qed.

(** ** Tactics and hints *)

Create HintDb os3.
Create Rewrite HintDb os3.
#[export] Hint Resolve u32_range u8_range : os3.
#[export] Hint Rewrite @length_aset u32_u32 : os3.

(** Turn the boolean tests of the code into propositions. *)
Ltac breflect :=
  repeat match goal with
  | H : (_ && _) = true |- _ => apply andb_prop in H; destruct H
  | H : (_ || _) = false |- _ => apply orb_false_elim in H; destruct H
  | H : negb _ = true |- _ => apply negb_true_iff in H
  | H : negb _ = false |- _ => apply negb_false_iff in H
  | H : (_ <? _) = true |- _ => apply Z.ltb_lt in H
  | H : (_ <? _) = false |- _ => apply Z.ltb_ge in H
  | H : (_ <=? _) = true |- _ => apply Z.leb_le in H
  | H : (_ <=? _) = false |- _ => apply Z.leb_gt in H
  | H : (_ =? _) = true |- _ => apply Z.eqb_eq in H
  | H : (_ =? _) = false |- _ => apply Z.eqb_neq in H
  end.

(** One step of symbolic execution under [wp]. *)
Ltac wp_step :=
  lazymatch goal with
  | |- wp (bind _ _) _ _ => apply wp_bind
  | |- wp (ret _) _ _ => apply wp_ret
  | |- wp get _ _ => apply wp_get
  | |- wp (gets _) _ _ => apply wp_gets
  | |- wp (modify _) _ _ => apply wp_modify
  | |- wp skip _ _ => apply wp_ret
  | |- wp (of_option _ _) _ _ => eapply wp_of_option
  end.
Ltac wp_steps := repeat (wp_step; simpl).

Ltac wlp_step :=
  lazymatch goal with
  | |- wlp (bind _ _) _ _ => apply wlp_bind
  | |- wlp (ret _) _ _ => apply wlp_ret
  | |- wlp get _ _ => apply wlp_get
  | |- wlp (gets _) _ _ => apply wlp_gets
  | |- wlp (modify _) _ _ => apply wlp_modify
  | |- wlp skip _ _ => apply wlp_ret
  | |- wlp (panic _) _ _ => exact I
  | |- wlp (of_option _ _) _ _ => apply wlp_of_option; intros ? ?
  | |- wlp (match ?b with _ => _ end) _ _ => destruct b eqn:?
  end.
Ltac wlp_steps := repeat (wlp_step; simpl).

(** ** Functions that preserve a relation

    [pres R m]: whenever [m] returns, its states are related by the preorder
    [R].  The lemmas are collected in the hint database [pres], which proves
    such facts by following the structure of the function. *)
Definition pres {St A} (R : relation St) (m : M St A) : Prop := ∀ s, wlp m (λ _ s', R s s') s.

Section pres.
Context {St : Type} (R : relation St) `{!PreOrder R}.
#[local] Set Default Proof Using "Type*".

Lemma pres_ret {A} (a : A) : pres R (ret a).
Proof. intros s. by apply wlp_ret. Qed.

Lemma pres_ext {A} (m m' : M St A) : (∀ s, m s = m' s) → pres R m' → pres R m.
Proof using. intros E H s. specialize (H s). unfold wlp in *. by rewrite E. Qed.
Lemma pres_bind {A B} (m : M St A) (k : A → M St B) : pres R m → (∀ a, pres R (k a)) → pres R (bind m k).
Proof.
  intros Hm Hk s. apply wlp_bind. eapply wlp_mono; [apply Hm|]. intros a s' H. eapply wlp_mono; [apply Hk|].
  intros b s'' H'. by transitivity s'.
Qed.

Lemma pres_get : pres R get.
Proof. intros s. by apply wlp_get. Qed.
Lemma pres_gets {A} (f : St → A) : pres R (gets f).
Proof. intros s. by apply wlp_gets. Qed.
Lemma pres_modify f : (∀ s, R s (f s)) → pres R (modify f).
Proof. intros H s. by apply wlp_modify. Qed.
Lemma pres_of_option {A} w (o : option A) : pres R (of_option w o).
Proof. intros s. apply wlp_of_option. intros a _. reflexivity. Qed.
Lemma pres_panic {A} msg : pres R (panic (A := A) msg).
Proof. by intros s. Qed.
Lemma pres_undef {A} msg : pres R (undef (A := A) msg).
Proof. by intros s. Qed.

Lemma pres_for_all n i body : (∀ j, pres R (body j)) → pres R (for_all n i body).
Proof.
  intros Hb. revert i. induction n as [|n IH]; intros i; simpl; [apply pres_ret|]. by apply pres_bind.
Qed.

Lemma pres_for_up {Y} n i (body : Z → M St (option Y)) : (∀ j, pres R (body j)) → pres R (for_up n i body).
Proof.
  intros Hb. revert i. induction n as [|n IH]; intros i; simpl; [apply pres_ret|]. apply pres_bind; [done|]. intros [r|]; [apply pres_ret|apply IH].
Qed.
Lemma pres_block {A} c : pres R (block (A := A) c).
Proof. by intros s. Qed.

Lemma pres_loop {X Y} fuel (body : X → M St (X + Y)) x : (∀ x, pres R (body x)) → pres R (loop fuel body x).
Proof.
  intros Hb. revert x. induction fuel as [|fuel IH]; intros x; [by intros s|]. simpl.
  apply pres_bind; [done|]. intros [x'|y]; [apply IH|apply pres_ret].
Qed.
End pres.

Create HintDb pres.

(** Follows the structure of the function; the leaves are for the database. *)
Ltac pres_step :=
  lazymatch goal with
  | |- pres _ (bind _ _) => apply pres_bind; [apply _| |intros]
  | |- pres _ (ret _) => apply pres_ret; apply _
  | |- pres _ skip => apply pres_ret; apply _
  | |- pres _ get => apply pres_get; apply _
  | |- pres _ (gets _) => apply pres_gets; apply _
  | |- pres _ (of_option _ _) => apply pres_of_option; apply _
  | |- pres _ (panic _) => apply pres_panic; apply _
  | |- pres _ (undef _) => apply pres_undef; apply _
  | |- pres _ (for_all _ _ _) => apply pres_for_all; [apply _|intros]
  | |- pres _ (for_up _ _ _) => apply pres_for_up; [apply _|intros]
  | |- pres _ (block _) => apply pres_block; apply _
  | |- pres _ (loop _ _ _) => apply pres_loop; [apply _|intros]
  | |- pres _ (match ?x with _ => _ end) => destruct x
  | |- pres _ (let '(_, _) := ?x in _) => destruct x
  | |- pres _ _ => solve [auto 2 with pres]
  end.
Ltac pres_auto := repeat pres_step.
