(* ===== verification/Memory.v ===== *)
(** Byte-addressed memory, and the string routines of [src/string.c] on it.

    [memory] maps an address to a byte; a byte that was never written reads
    as 0.  [load32]/[store32] are the little-endian 32-bit accesses the kernel
    makes through [uint*].  Module [Kstring] models every function of
    string.c: the block operations work in place and so observe overlap. *)

From S2P Require Import Prelude.
From stdpp Require Import options.

Abbreviation memory := (gmap Z Z).

Definition load8 (m : memory) (a : Z) : Z := u8 (default 0 (m !! a)).
Definition store8 (m : memory) (a v : Z) : memory := <[a := u8 v]> m.

Definition load16 (m : memory) (a : Z) : Z := load8 m a + 2 ^ 8 * load8 m (a + 1).
Definition load32 (m : memory) (a : Z) : Z :=
  load8 m a + 2 ^ 8 * load8 m (a + 1) + 2 ^ 16 * load8 m (a + 2) + 2 ^ 24 * load8 m (a + 3).

Definition store32 (m : memory) (a v : Z) : memory :=
  store8 (store8 (store8 (store8 m a v) (a + 1) (v / 2 ^ 8)) (a + 2) (v / 2 ^ 16)) (a + 3) (v / 2 ^ 24).

Lemma load8_range m a : 0 ≤ load8 m a < 256.
Proof. apply u8_range. Qed.

Lemma load8_store8 m a v b : load8 (store8 m a v) b = if decide (a = b) then u8 v else load8 m b.
Proof.
  unfold load8, store8. rewrite lookup_insert. case_decide; [|done].
  simpl. unfold u8. by rewrite Z.mod_mod by lia.
Qed.

Lemma load8_store8_eq m a v : load8 (store8 m a v) a = u8 v.
Proof. rewrite load8_store8. by case_decide. Qed.

Lemma load8_store8_ne m a b v : a ≠ b → load8 (store8 m a v) b = load8 m b.
Proof. intros. rewrite load8_store8. by case_decide. Qed.

Lemma load32_range m a : 0 ≤ load32 m a < 2 ^ 32.
Proof.
  unfold load32. pose proof (load8_range m a). pose proof (load8_range m (a + 1)).
  pose proof (load8_range m (a + 2)). pose proof (load8_range m (a + 3)). lia.
Qed.

(** A 32-bit word is the sum of its four bytes. *)
Lemma u32_bytes v :
  u8 v + 2 ^ 8 * u8 (v / 2 ^ 8) + 2 ^ 16 * u8 (v / 2 ^ 16) + 2 ^ 24 * u8 (v / 2 ^ 24) = u32 v.
Proof. unfold u8, u32. Z.div_mod_to_equations. lia. Qed.

Lemma load8_store32 m a v b :
  load8 (store32 m a v) b =
    if decide (b = a) then u8 v
    else if decide (b = a + 1) then u8 (v / 2 ^ 8)
    else if decide (b = a + 2) then u8 (v / 2 ^ 16)
    else if decide (b = a + 3) then u8 (v / 2 ^ 24)
    else load8 m b.
Proof.
  unfold store32. rewrite !load8_store8.
  repeat case_decide; subst; try lia; done.
Qed.

Lemma load8_store32_out m a v b : b < a ∨ a + 4 ≤ b → load8 (store32 m a v) b = load8 m b.
Proof. intros. rewrite load8_store32. repeat case_decide; try lia; done. Qed.

Lemma load32_store32_eq m a v : load32 (store32 m a v) a = u32 v.
Proof.
  unfold load32. rewrite !load8_store32, <-u32_bytes.
  repeat case_decide; try lia; done.
Qed.

Lemma load32_store32_ne m a b v :
  a + 4 ≤ b ∨ b + 4 ≤ a → load32 (store32 m a v) b = load32 m b.
Proof. intros. unfold load32. rewrite !load8_store32_out by lia. done. Qed.

(** Words at 4-aligned addresses never overlap partially. *)
Lemma load32_store32_aligned m a b v :
  a mod 4 = 0 → b mod 4 = 0 →
  load32 (store32 m a v) b = if decide (a = b) then u32 v else load32 m b.
Proof.
  intros Ha Hb. case_decide as Hab; [subst; apply load32_store32_eq|].
  apply load32_store32_ne. Z.div_mod_to_equations. lia.
Qed.

Lemma load32_ext m m' a :
  (∀ i, a ≤ i < a + 4 → load8 m i = load8 m' i) → load32 m a = load32 m' a.
Proof. intros H. unfold load32. rewrite !H by lia. done. Qed.

(** Memories that agree on what every load returns. *)
Definition mem_eq (m m' : memory) : Prop := ∀ a, load8 m a = load8 m' a.

#[global] Instance mem_eq_equiv : Equivalence mem_eq.
Proof. split; [done|by intros ?? H a|]. intros x y z H1 H2 a. by rewrite H1, H2. Qed.

#[global] Instance load8_proper : Proper (mem_eq ==> eq ==> eq) load8.
Proof. intros m m' Hm a ? <-. apply Hm. Qed.

#[global] Instance load32_proper : Proper (mem_eq ==> eq ==> eq) load32.
Proof. intros m m' Hm a ? <-. apply load32_ext. intros i _. apply Hm. Qed.

#[global] Instance store8_proper : Proper (mem_eq ==> eq ==> eq ==> mem_eq) store8.
Proof. intros m m' Hm a ? <- v ? <- b. rewrite !load8_store8. by case_decide. Qed.

(** The bytes [a, a + n) as a list. *)
Fixpoint bytes_at (m : memory) (a : Z) (n : nat) : list Z :=
  match n with O => [] | S n => load8 m a :: bytes_at m (a + 1) n end.

Lemma length_bytes_at m a n : length (bytes_at m a n) = n.
Proof. revert a. induction n as [|n IH]; intros a; simpl; [done|]. by rewrite IH. Qed.

Lemma bytes_at_lookup m a n (i : nat) :
  (i < n)%nat → bytes_at m a n !! i = Some (load8 m (a + Z.of_nat i)).
Proof.
  revert a i. induction n as [|n IH]; intros a i Hi; [lia|].
  destruct i as [|i]; simpl; [by rewrite Z.add_0_r|].
  rewrite IH by lia. do 2 f_equal. lia.
Qed.

Lemma bytes_at_ext m m' a n :
  (∀ b, a ≤ b < a + Z.of_nat n → load8 m b = load8 m' b) → bytes_at m a n = bytes_at m' a n.
Proof.
  intros H. apply list_eq_same_length with n; rewrite ?length_bytes_at; [done..|].
  intros i x y Hi. rewrite !bytes_at_lookup by done. rewrite H by lia. congruence.
Qed.

(** Writing a list of bytes, in order. *)
Fixpoint store_bytes (m : memory) (a : Z) (bs : list Z) : memory :=
  match bs with [] => m | b :: bs => store_bytes (store8 m a b) (a + 1) bs end.

Lemma load8_store_bytes_out m a bs b :
  b < a ∨ a + Z.of_nat (length bs) ≤ b → load8 (store_bytes m a bs) b = load8 m b.
Proof.
  revert m a. induction bs as [|x bs IH]; intros m a Hb; simpl in *; [done|].
  rewrite IH by lia. apply load8_store8_ne. lia.
Qed.

Lemma load8_store_bytes_in m a bs (i : nat) x :
  bs !! i = Some x → load8 (store_bytes m a bs) (a + Z.of_nat i) = u8 x.
Proof.
  revert m a i. induction bs as [|y bs IH]; intros m a i Hi; [done|].
  destruct i as [|i]; simplify_eq/=.
  - rewrite load8_store_bytes_out by lia. rewrite Z.add_0_r. apply load8_store8_eq.
  - replace (a + Z.of_nat (S i)) with (a + 1 + Z.of_nat i) by lia. eauto.
Qed.

Lemma bytes_at_store_bytes m a bs :
  Forall (λ b, 0 ≤ b < 256) bs → bytes_at (store_bytes m a bs) a (length bs) = bs.
Proof.
  intros Hb. apply list_eq_same_length with (length bs); rewrite ?length_bytes_at; [done..|].
  intros i x y Hi. rewrite bytes_at_lookup by done. intros [= <-] Hy.
  rewrite (load8_store_bytes_in _ _ _ _ y) by done. rewrite Forall_lookup in Hb. apply u8_id. eauto.
Qed.

Lemma bytes_at_bytes m a n : Forall (λ b, 0 ≤ b < 256) (bytes_at m a n).
Proof. revert a. induction n as [|n IH]; intros a; simpl; constructor; [apply load8_range|done]. Qed.

(** ** src/string.c *)

Module Kstring.

(** [stosb(addr, data, cnt)] of x86.h: [cnt] bytes, ascending. *)
Fixpoint stosb (m : memory) (addr data : Z) (cnt : nat) : memory :=
  match cnt with O => m | S cnt => stosb (store8 m addr data) (addr + 1) data cnt end.

(** [stosl(addr, data, cnt)] of x86.h: [cnt] 32-bit words, ascending. *)
Fixpoint stosl (m : memory) (addr data : Z) (cnt : nat) : memory :=
  match cnt with O => m | S cnt => stosl (store32 m addr data) (addr + 4) data cnt end.

Definition memset (m : memory) (dst c n : Z) : memory :=
  if (s32 dst `rem` 4 =? 0) && (n mod 4 =? 0) then
    let c := Z.land c 0xFF in
    stosl m dst (Z.lor (Z.lor (Z.lor (Z.shiftl c 24) (Z.shiftl c 16)) (Z.shiftl c 8)) c)
      (Z.to_nat (n / 4))
  else stosb m dst c (Z.to_nat n).

Fixpoint memcmp (m : memory) (s1 s2 : Z) (n : nat) : Z :=
  match n with
  | O => 0
  | S n => if load8 m s1 =? load8 m s2 then memcmp m (s1 + 1) (s2 + 1) n
           else load8 m s1 - load8 m s2
  end.

(** The ascending copy loop of [memmove]. *)
Fixpoint copy_up (m : memory) (d s : Z) (n : nat) : memory :=
  match n with O => m | S n => copy_up (store8 m d (load8 m s)) (d + 1) (s + 1) n end.

(** The descending copy loop of [memmove]; [d], [s] are the ends of the blocks. *)
Fixpoint copy_down (m : memory) (d s : Z) (n : nat) : memory :=
  match n with
  | O => m
  | S n => copy_down (store8 m (d - 1) (load8 m (s - 1))) (d - 1) (s - 1) n
  end.

Definition memmove (m : memory) (dst src n : Z) : memory :=
  if (src <? dst) && (dst <? u32 (src + n)) then copy_down m (dst + n) (src + n) (Z.to_nat n)
  else copy_up m dst src (Z.to_nat n).

Definition memcpy (m : memory) (dst src n : Z) : memory := memmove m dst src n.

Fixpoint strncmp (m : memory) (p q : Z) (n : nat) : Z :=
  match n with
  | O => 0
  | S n => if negb (load8 m p =? 0) && (load8 m p =? load8 m q)
           then strncmp m (p + 1) (q + 1) n
           else load8 m p - load8 m q
  end.

(** The first loop copies until a NUL has been copied, the second pads. *)
Fixpoint strncpy (m : memory) (s t : Z) (n : nat) : memory :=
  match n with
  | O => m
  | S n => let c := load8 m t in
           let m' := store8 m s c in
           if c =? 0 then stosb m' (s + 1) 0 n else strncpy m' (s + 1) (t + 1) n
  end.

(** The copy loop of [safestrcpy] and the final NUL, with [n] the number of
    bytes that may still be copied before it. *)
Fixpoint safecpy (m : memory) (s t : Z) (n : nat) : memory :=
  match n with
  | O => store8 m s 0
  | S n => let c := load8 m t in
           let m' := store8 m s c in
           if c =? 0 then store8 m' (s + 1) 0 else safecpy m' (s + 1) (t + 1) n
  end.

Definition safestrcpy (m : memory) (s t n : Z) : memory :=
  if n <=? 0 then m else safecpy m s t (Z.to_nat (n - 1)).

Fixpoint strlen_from (fuel : nat) (m : memory) (s n : Z) : option Z :=
  match fuel with
  | O => None
  | S fuel => if load8 m (s + n) =? 0 then Some n else strlen_from fuel m s (n + 1)
  end.

Definition strlen (fuel : nat) (m : memory) (s : Z) : option Z := strlen_from fuel m s 0.

(** *** Block operations *)

Lemma load8_stosb m a v n b :
  load8 (stosb m a v n) b = if decide (a ≤ b < a + Z.of_nat n) then u8 v else load8 m b.
Proof.
  revert m a. induction n as [|n IH]; intros m a; simpl.
  - case_decide; [lia|done].
  - rewrite IH, load8_store8. repeat case_decide; try lia; done.
Qed.

Lemma load8_stosl m a v n b :
  u8 v = u8 (v / 2 ^ 8) → u8 v = u8 (v / 2 ^ 16) → u8 v = u8 (v / 2 ^ 24) →
  load8 (stosl m a v n) b = if decide (a ≤ b < a + 4 * Z.of_nat n) then u8 v else load8 m b.
Proof.
  intros H1 H2 H3. revert m a. induction n as [|n IH]; intros m a; simpl.
  - case_decide; [lia|done].
  - rewrite IH, load8_store32, <-H1, <-H2, <-H3. repeat case_decide; try lia; done.
Qed.

(** The word [memset] stores: four copies of a byte. *)
Definition splat (c : Z) : Z :=
  Z.lor (Z.lor (Z.lor (Z.shiftl c 24) (Z.shiftl c 16)) (Z.shiftl c 8)) c.

Lemma splat_byte c k :
  0 ≤ c < 256 → 0 ≤ k < 4 → u8 (splat c / 2 ^ (8 * k)) = c.
Proof.
  intros Hc Hk.
  assert (Hall : forallb (λ n, forallb (λ j, u8 (splat (Z.of_nat n) / 2 ^ (8 * Z.of_nat j)) =? Z.of_nat n)
                                (seq 0 4)) (seq 0 256) = true) by (vm_compute; reflexivity).
  rewrite forallb_forall in Hall. specialize (Hall (Z.to_nat c)).
  rewrite in_seq, forallb_forall in Hall. specialize (Hall ltac:(lia) (Z.to_nat k)).
  rewrite in_seq in Hall. specialize (Hall ltac:(lia)). rewrite !Z2Nat.id in Hall by lia. lia.
Qed.

(** Both paths of [memset] fill exactly the [n] bytes with the low byte of [c]. *)
Lemma load8_memset m dst c n b :
  0 ≤ n →
  load8 (memset m dst c n) b = if decide (dst ≤ b < dst + n) then u8 c else load8 m b.
Proof.
  intros Hn. unfold memset. case_match eqn:Hal.
  - breflect. fold (splat (Z.land c 0xFF)).
    assert (Hc : Z.land c 0xFF = u8 c) by (apply (Z.land_ones c 8); lia).
    rewrite Hc. pose proof (u8_range c) as Hr.
    pose proof (splat_byte (u8 c) 0 Hr ltac:(lia)) as Hs0.
    pose proof (splat_byte (u8 c) 1 Hr ltac:(lia)) as Hs1.
    pose proof (splat_byte (u8 c) 2 Hr ltac:(lia)) as Hs2.
    pose proof (splat_byte (u8 c) 3 Hr ltac:(lia)) as Hs3.
    rewrite Z.mul_0_r, Z.pow_0_r, Z.div_1_r in Hs0.
    rewrite load8_stosl by (rewrite Hs0; symmetry; assumption). rewrite Hs0.
    replace (4 * Z.of_nat (Z.to_nat (n / 4))) with n; [done|].
    rewrite Z2Nat.id by (apply Z.div_pos; lia). Z.div_mod_to_equations. lia.
  - rewrite load8_stosb. by rewrite Z2Nat.id by lia.
Qed.

Lemma load8_copy_up m d s n b :
  d ≤ s ∨ s + Z.of_nat n ≤ d →
  load8 (copy_up m d s n) b =
    if decide (d ≤ b < d + Z.of_nat n) then load8 m (s + (b - d)) else load8 m b.
Proof.
  revert m d s. induction n as [|n IH]; intros m d s Hds; simpl.
  - case_decide; [lia|done].
  - rewrite IH by lia. rewrite !load8_store8.
    repeat case_decide; subst; rewrite ?u8_id by apply load8_range;
      first [done | lia | f_equal; lia].
Qed.

Lemma load8_copy_down m d s n b :
  s < d →
  load8 (copy_down m (d + Z.of_nat n) (s + Z.of_nat n) n) b =
    if decide (d ≤ b < d + Z.of_nat n) then load8 m (s + (b - d)) else load8 m b.
Proof.
  revert m. induction n as [|n IH]; intros m Hsd; simpl.
  - case_decide; [lia|done].
  - replace (d + Z.of_nat (S n) - 1) with (d + Z.of_nat n) by lia.
    replace (s + Z.of_nat (S n) - 1) with (s + Z.of_nat n) by lia.
    rewrite IH by done. rewrite !load8_store8.
    repeat case_decide; subst; rewrite ?u8_id by apply load8_range;
      first [done | lia | f_equal; lia].
Qed.

(** [memmove] copies the block as it was, whether or not the blocks overlap. *)
Lemma load8_memmove m dst src n b :
  0 ≤ n → 0 ≤ src → src + n < 2 ^ 32 →
  load8 (memmove m dst src n) b =
    if decide (dst ≤ b < dst + n) then load8 m (src + (b - dst)) else load8 m b.
Proof.
  intros Hn Hs Hw. unfold memmove. rewrite (u32_id (src + n)) by lia.
  case_match eqn:Hov.
  - breflect. pose proof (load8_copy_down m dst src (Z.to_nat n) b) as Hc.
    rewrite Z2Nat.id in Hc by lia. by apply Hc.
  - rewrite load8_copy_up, Z2Nat.id; [done|lia|].
    rewrite Z2Nat.id by lia. apply andb_false_iff in Hov as [?|?]; breflect; lia.
Qed.

(** *** C strings *)

(** [cstr m a l]: the NUL-terminated string at [a] has the characters [l]. *)
Definition cstr (m : memory) (a : Z) (l : list Z) : Prop :=
  (∀ i x, l !! i = Some x → load8 m (a + Z.of_nat i) = x ∧ x ≠ 0) ∧
  load8 m (a + Z.of_nat (length l)) = 0.

Lemma cstr_cons m a x l : cstr m a (x :: l) ↔ load8 m a = x ∧ x ≠ 0 ∧ cstr m (a + 1) l.
Proof.
  unfold cstr. split.
  - intros [H H0]. destruct (H 0%nat x) as [Hx Hx0]; [done|].
    rewrite Z.add_0_r in Hx. split_and!; try done.
    + intros i y Hy. destruct (H (S i) y) as [<- ?]; [done|]. split; [f_equal; lia|done].
    + simpl in H0. rewrite <-H0. f_equal. lia.
  - intros (Hx & Hx0 & H & H0). split.
    + intros [|i] y Hy; simplify_eq/=.
      * by rewrite Z.add_0_r.
      * destruct (H i y) as [<- ?]; [done|]. split; [f_equal; lia|done].
    + simpl. rewrite <-H0. f_equal. lia.
Qed.

Lemma cstr_nil m a : cstr m a [] ↔ load8 m a = 0.
Proof.
  unfold cstr. simpl. rewrite Z.add_0_r. split; [by intros []|]. intros H. split; [|done].
  intros i x Hi. done.
Qed.

(** [strncmp] returns 0 exactly when the strings agree on their first [n]
    characters, the terminator counting as one. *)
Lemma strncmp_eq m p q l1 l2 n :
  cstr m p l1 → cstr m q l2 →
  strncmp m p q n = 0 ↔ take n (l1 ++ [0]) = take n (l2 ++ [0]).
Proof.
  revert p q l1 l2. induction n as [|n IH]; intros p q l1 l2 H1 H2; simpl; [done|].
  destruct l1 as [|x l1], l2 as [|y l2]; rewrite ?cstr_nil, ?cstr_cons in *; simpl.
  - rewrite H1, H2. simpl. split; [|done]. by rewrite !take_nil.
  - destruct H2 as (Hy & Hy0 & _). rewrite H1, Hy. simpl. split; [lia|by intros [= <-]].
  - destruct H1 as (Hx & Hx0 & _). rewrite H2, Hx. rewrite (proj2 (Z.eqb_neq x 0) Hx0). simpl.
    split; [lia|by intros [= ->]].
  - destruct H1 as (Hx & Hx0 & H1), H2 as (Hy & Hy0 & H2). rewrite Hx, Hy.
    rewrite (proj2 (Z.eqb_neq x 0) Hx0). simpl. destruct (Z.eqb_spec x y) as [->|Hxy].
    + rewrite (IH _ _ _ _ H1 H2). split; [by intros ->|by intros [= ->]].
    + split; [lia|by intros [= ->]].
Qed.

Lemma strlen_from_ok m s l fuel k :
  cstr m (s + k) l → (length l < fuel)%nat →
  strlen_from fuel m s k = Some (k + Z.of_nat (length l)).
Proof.
  revert fuel k. induction l as [|x l IH]; intros [|fuel] k Hl Hf; simpl in *; try lia.
  - apply cstr_nil in Hl. rewrite Hl. simpl. f_equal. lia.
  - apply cstr_cons in Hl as (Hx & Hx0 & Hl). rewrite Hx, (proj2 (Z.eqb_neq x 0) Hx0).
    rewrite IH; [f_equal; lia| |lia]. by rewrite Z.add_assoc.
Qed.

Lemma strlen_ok m s l fuel :
  cstr m s l → (length l < fuel)%nat → strlen fuel m s = Some (Z.of_nat (length l)).
Proof.
  intros Hl Hf. unfold strlen. rewrite (strlen_from_ok m s l); rewrite ?Z.add_0_r; done.
Qed.

(** [safecpy] touches only the [n + 1] bytes it is given. *)
Lemma safecpy_out m s t n b :
  b < s ∨ s + Z.of_nat n < b → load8 (safecpy m s t n) b = load8 m b.
Proof.
  revert m s t. induction n as [|n IH]; intros m s t Hb; simpl.
  - apply load8_store8_ne. lia.
  - case_match.
    + rewrite !load8_store8_ne by lia. done.
    + rewrite IH by lia. apply load8_store8_ne. lia.
Qed.

(** With source and destination apart, [safecpy] copies the longest prefix
    that fits and terminates it. *)
Lemma safecpy_cstr m s t n l :
  cstr m t l → s + Z.of_nat n < t ∨ t + Z.of_nat (length l) < s →
  Forall (λ x, 0 ≤ x < 256) l →
  cstr (safecpy m s t n) s (take n l).
Proof.
  revert m s t l. induction n as [|n IH]; intros m s t l Hl Hd Hb; simpl.
  - apply cstr_nil. by rewrite load8_store8_eq.
  - destruct l as [|x l]; simpl.
    + apply cstr_nil in Hl. rewrite Hl. simpl.
      apply cstr_nil. rewrite load8_store8_ne by lia. by rewrite load8_store8_eq.
    + apply cstr_cons in Hl as (Hx & Hx0 & Hl). apply Forall_cons in Hb as [Hxb Hb].
      rewrite Hx, (proj2 (Z.eqb_neq x 0) Hx0). apply cstr_cons. split_and!; [|done|].
      * rewrite safecpy_out by lia. rewrite load8_store8_eq. by apply u8_id.
      * apply IH; [|simpl in *; lia|done]. destruct Hl as [H1 H2]. split.
        -- intros i y Hi. destruct (H1 i y Hi) as [<- ?]. split; [|done].
           apply lookup_lt_Some in Hi. rewrite load8_store8_ne; [done|]. simpl in *. lia.
        -- rewrite load8_store8_ne; [done|]. simpl in *. lia.
Qed.

End Kstring.
