(* ===== verification/Machine.v ===== *)
(** Constants, process data and kernel state shared by the memory-management
    and process components.

    - the macros of param.h, memlayout.h and mmu.h, with the bit arithmetic
      written out;
    - [policy]: the page-replacement policy the Makefile selects with
      [-D $(SELECTION)], so that an [#ifdef] of the source is a match on it;
    - [page_meta], [pageQueue], [proc]: the structures of proc.h;
    - [kst]: the kernel state the functions of kalloc.c, swap.c, vm.c and
      proc.c read and write, over an abstract file system [F];
    - [FileSys]: what those functions call of the file system, and
      [SwapLaws]: what they rely on when they page in and out. *)

From S2P Require Import Prelude Memory.
From stdpp Require Import options.

(** ** param.h, memlayout.h, mmu.h *)

Definition NPROC := 64.
Definition KSTACKSIZE := 4096.
Definition NOFILE := 16.
Definition MAXARG := 32.
Definition MAX_PHYS_PAGES := 16.
Definition MAX_TOTAL_PAGES := 32.
Definition MAX_SWAP_FILE_SZ := MAX_TOTAL_PAGES - MAX_PHYS_PAGES + 1.

Definition EXTMEM := 0x100000.
Definition PHYSTOP := 0xE000000.
Definition DEVSPACE := 0xFE000000.
Definition KERNBASE := 0x80000000.
Definition KERNLINK := KERNBASE + EXTMEM.
Definition V2P (a : Z) : Z := u32 (a - KERNBASE).
Definition P2V (a : Z) : Z := u32 (a + KERNBASE).

Definition NPDENTRIES := 1024.
Definition PGSIZE := 4096.
Definition PTXSHIFT := 12.
Definition PDXSHIFT := 22.

Definition PDX (va : Z) : Z := Z.land (Z.shiftr va PDXSHIFT) 0x3FF.
Definition PTX (va : Z) : Z := Z.land (Z.shiftr va PTXSHIFT) 0x3FF.
Definition PGADDR (d t o : Z) : Z :=
  u32 (Z.lor (Z.lor (Z.shiftl d PDXSHIFT) (Z.shiftl t PTXSHIFT)) o).
Definition PGROUNDUP (sz : Z) : Z := Z.land (u32 (sz + PGSIZE - 1)) (u32 (Z.lnot (PGSIZE - 1))).
Definition PGROUNDDOWN (a : Z) : Z := Z.land a (u32 (Z.lnot (PGSIZE - 1))).

Definition PTE_P := 0x001.
Definition PTE_W := 0x002.
Definition PTE_U := 0x004.
Definition PTE_A := 0x020.
Definition PTE_PG := 0x200.
Definition PTE_ADDR (pte : Z) : Z := Z.land pte (u32 (Z.lnot 0xFFF)).
Definition PTE_FLAGS (pte : Z) : Z := Z.land pte 0xFFF.

(** [pte & f] as a condition; [pte |= f]; [pte &= ~f]. *)
Definition pte_has (pte f : Z) : bool := negb (Z.land pte f =? 0).
Definition pte_set (pte f : Z) : Z := Z.lor pte f.
Definition pte_clr (pte f : Z) : Z := Z.land pte (u32 (Z.lnot f)).

Lemma u32_ones z : u32 z = Z.land z (Z.ones 32).
Proof. unfold u32. by rewrite Z.land_ones by lia. Qed.

Lemma u32_testbit z n : 0 ≤ n → Z.testbit (u32 z) n = (n <? 32) && Z.testbit z n.
Proof.
  intros Hn. rewrite u32_ones, Z.land_spec, Z.testbit_ones by lia.
  destruct (Z.leb_spec 0 n), (Z.ltb_spec n 32); simpl; try lia; by rewrite ?andb_true_r, ?andb_false_r.
Qed.

(** A word is in range if it is its own truncation. *)
Lemma u32_fix z : u32 z = z ↔ 0 ≤ z < 2 ^ 32.
Proof. split; [intros <-; apply u32_range|apply u32_id]. Qed.

Lemma land_u32 x y : 0 ≤ x < 2 ^ 32 → 0 ≤ Z.land x y < 2 ^ 32.
Proof.
  intros Hx. apply u32_fix. rewrite u32_ones, <-Z.land_assoc, (Z.land_comm y), Z.land_assoc.
  rewrite <-u32_ones. by rewrite u32_id.
Qed.

Lemma lor_u32 x y : 0 ≤ x < 2 ^ 32 → 0 ≤ y < 2 ^ 32 → 0 ≤ Z.lor x y < 2 ^ 32.
Proof.
  intros Hx Hy. apply u32_fix. rewrite u32_ones, Z.land_lor_distr_l, <-!u32_ones.
  by rewrite !u32_id.
Qed.

Lemma pte_clr_range pte f : 0 ≤ pte < 2 ^ 32 → 0 ≤ pte_clr pte f < 2 ^ 32.
Proof. apply land_u32. Qed.
Lemma pte_set_range pte f : 0 ≤ pte < 2 ^ 32 → 0 ≤ f < 2 ^ 32 → 0 ≤ pte_set pte f < 2 ^ 32.
Proof. apply lor_u32. Qed.

(** Flags at a single bit [k]. *)
Lemma pte_has_bit pte k : 0 ≤ k → pte_has pte (2 ^ k) = Z.testbit pte k.
Proof.
  intros Hk. unfold pte_has. destruct (Z.testbit pte k) eqn:Hb.
  - apply negb_true_iff, Z.eqb_neq. intros H0. apply (f_equal (λ z, Z.testbit z k)) in H0.
    rewrite Z.land_spec, Z.pow2_bits_true, Hb, Z.bits_0 in H0 by lia. done.
  - apply negb_false_iff, Z.eqb_eq. apply Z.bits_inj_0. intros n. rewrite Z.land_spec.
    destruct (Z.eq_dec n k) as [->|Hne]; [by rewrite Hb|]. rewrite Z.pow2_bits_false by lia. apply andb_false_r.
Qed.

Lemma pte_clr_bit pte k n :
  0 ≤ pte < 2 ^ 32 → 0 ≤ k → 0 ≤ n →
  Z.testbit (pte_clr pte (2 ^ k)) n = Z.testbit pte n && negb (n =? k).
Proof.
  intros Hp Hk Hn. unfold pte_clr. rewrite Z.land_spec, u32_testbit, Z.lnot_spec, Z.pow2_bits_eqb by lia.
  rewrite (Z.eqb_sym k n). destruct (Z.ltb_spec n 32); [done|].
  rewrite <-(u32_id pte), u32_testbit by lia. destruct (Z.ltb_spec n 32); [lia|done].
Qed.

Lemma pte_set_bit pte k n :
  0 ≤ k → 0 ≤ n → Z.testbit (pte_set pte (2 ^ k)) n = Z.testbit pte n || (n =? k).
Proof. intros Hk Hn. unfold pte_set. rewrite Z.lor_spec, Z.pow2_bits_eqb, (Z.eqb_sym k n) by lia. done. Qed.

(** Linear arithmetic with the constants of the headers unfolded. *)
Ltac unfold_consts :=
  unfold MAX_SWAP_FILE_SZ, MAX_TOTAL_PAGES, MAX_PHYS_PAGES, NPROC, NOFILE, KSTACKSIZE, KERNLINK,
    KERNBASE, EXTMEM, PHYSTOP, DEVSPACE, PGSIZE, NPDENTRIES, PTXSHIFT, PDXSHIFT in *.
Ltac klia := unfold_consts; lia.

Lemma V2P_eq v : KERNBASE ≤ v < 2 ^ 32 → V2P v = v - KERNBASE.
Proof. intros. unfold V2P. apply u32_id. klia. Qed.

Lemma P2V_eq a : 0 ≤ a < KERNBASE → P2V a = a + KERNBASE.
Proof. intros. unfold P2V. apply u32_id. klia. Qed.

Lemma P2V_V2P v : KERNBASE ≤ v < 2 ^ 32 → P2V (V2P v) = v.
Proof. intros. rewrite V2P_eq, P2V_eq by klia. lia. Qed.

(** ** proc.h *)

Inductive policy := NONE | SCFIFO | AQ | NFUA | LAPA.

#[global] Instance policy_eq_dec : EqDecision policy.
Proof. solve_decision. Defined.

Inductive procstate := UNUSED | EMBRYO | SLEEPING | RUNNABLE | RUNNING | ZOMBIE.

#[global] Instance procstate_eq_dec : EqDecision procstate.
Proof. solve_decision. Defined.

(** [struct page_meta]; every policy's fields are present. *)
Record page_meta := PageMeta {
  pm_pte : Z;              (* uint* pte: kernel address of the entry *)
  pm_va : Z;
  pm_offset : Z;
  pm_on_phys : bool;
  pm_taken : bool;
  pm_counter : Z;          (* NFUA, LAPA *)
  pm_queue_location : Z;   (* AQ *)
  pm_nextp : Z;            (* SCFIFO *)
  pm_prevp : Z;
}.
#[global] Instance eta_page_meta : Eta page_meta := λ p,
  PageMeta (pm_pte p) (pm_va p) (pm_offset p) (pm_on_phys p) (pm_taken p)
    (pm_counter p) (pm_queue_location p) (pm_nextp p) (pm_prevp p).

(** [struct pageQueue]: the array holds pointers into [pages], here indices. *)
Record pageQueue := PageQueue {
  q_arr : list (option Z);
  q_start : Z;
  q_end : Z;
  q_size : Z;
}.
#[global] Instance eta_pageQueue : Eta pageQueue := λ q,
  PageQueue (q_arr q) (q_start q) (q_end q) (q_size q).

(** [struct context]. *)
Record context := Context_ { ctx_edi : Z; ctx_esi : Z; ctx_ebx : Z; ctx_ebp : Z; ctx_eip : Z }.
#[global] Instance eta_context : Eta context := λ c,
  Context_ (ctx_edi c) (ctx_esi c) (ctx_ebx c) (ctx_ebp c) (ctx_eip c).

(** [struct trapframe] of x86.h, without the padding. *)
Record trapframe := TrapFrame {
  tf_edi : Z; tf_esi : Z; tf_ebp : Z; tf_oesp : Z; tf_ebx : Z; tf_edx : Z; tf_ecx : Z; tf_eax : Z;
  tf_gs : Z; tf_fs : Z; tf_es : Z; tf_ds : Z; tf_trapno : Z;
  tf_err : Z; tf_eip : Z; tf_cs : Z; tf_eflags : Z; tf_esp : Z; tf_ss : Z;
}.
#[global] Instance eta_trapframe : Eta trapframe := λ t,
  TrapFrame (tf_edi t) (tf_esi t) (tf_ebp t) (tf_oesp t) (tf_ebx t) (tf_edx t) (tf_ecx t) (tf_eax t)
    (tf_gs t) (tf_fs t) (tf_es t) (tf_ds t) (tf_trapno t)
    (tf_err t) (tf_eip t) (tf_cs t) (tf_eflags t) (tf_esp t) (tf_ss t).

Definition zero_context : context := Context_ 0 0 0 0 0.
Definition zero_trapframe : trapframe := TrapFrame 0 0 0 0 0 0 0 0 0 0 0 0 0 0 0 0 0 0 0.

(** [struct proc].  Pointers to processes, open files and inodes are indices;
    [None] is the null pointer.  The trap frame and the context, which the
    code keeps on the kernel stack, are fields. *)
Record proc := Proc {
  p_sz : Z;
  p_pgdir : Z;
  p_kstack : Z;
  p_state : procstate;
  p_pid : Z;
  p_parent : option nat;
  p_tf : trapframe;
  p_context : context;
  p_chan : Z;
  p_killed : bool;
  p_ofile : list (option Z);
  p_cwd : option Z;
  p_name : list Z;
  p_page_queue : pageQueue;
  p_swapFile : option Z;
  p_num_of_pages : Z;
  p_phys_pages : Z;
  p_pgflt_count : Z;
  p_pgout_count : Z;
  p_ignorePaging : bool;
  p_file_size : Z;
  p_pages : list page_meta;
  p_offsets : list Z;
  p_headp : Z;
}.
#[global] Instance eta_proc : Eta proc := λ p,
  Proc (p_sz p) (p_pgdir p) (p_kstack p) (p_state p) (p_pid p) (p_parent p) (p_tf p) (p_context p)
    (p_chan p) (p_killed p) (p_ofile p) (p_cwd p) (p_name p) (p_page_queue p) (p_swapFile p)
    (p_num_of_pages p) (p_phys_pages p) (p_pgflt_count p) (p_pgout_count p) (p_ignorePaging p)
    (p_file_size p) (p_pages p) (p_offsets p) (p_headp p).

(** ** The file system as seen from memory management and processes *)

(** Calls from kalloc/swap/vm/proc/exec into fs.c, file.c and log.c.  A read
    returns the C result and the bytes it stored in the caller's buffer. *)
Class FileSys (F : Type) := {
  fs_readi : Z → Z → Z → M F (Z * list Z);
  fs_namei : option Z → list Z → M F (option Z);   (* cwd, path *)
  fs_ilock : Z → M F unit;
  fs_iunlockput : Z → M F unit;
  fs_idup : Z → M F Z;
  fs_iput : Z → M F unit;
  fs_filedup : Z → M F Z;
  fs_fileclose : Z → M F unit;
  fs_init : M F unit;                     (* iinit(ROOTDEV); initlog(ROOTDEV) *)
  fs_begin_op : M F unit;
  fs_end_op : M F unit;
  fs_createSwapFile : Z → M F Z;          (* pid: the new file *)
  fs_removeSwapFile : Z → Z → M F Z;      (* pid, file *)
  fs_setoff : Z → Z → M F unit;           (* f->off = off *)
  fs_filewrite : Z → list Z → M F Z;
  fs_fileread : Z → Z → M F (Z * list Z);
}.

(** A page of swap space: what paging out and in relies on.  A file has no
    holes: a write may start at the end of the file, not after it. *)
Class SwapLaws (F : Type) `{!FileSys F} := {
  swap_ok : F → Z → Prop;                  (* the swap file is open *)
  swap_len : F → Z → Z;                    (* its size *)
  swap_page : F → Z → Z → option (list Z); (* its page at an offset *)
  writeSwap_ok fs f bs off :
    swap_ok fs f → length bs = Z.to_nat PGSIZE → (∃ k, 0 ≤ k < MAX_SWAP_FILE_SZ ∧ off = k * PGSIZE) →
    off ≤ swap_len fs f →
    ∃ fs', (fs_setoff f off ;; fs_filewrite f bs) fs = Ok PGSIZE fs' ∧
      (∀ g, swap_ok fs g → swap_ok fs' g) ∧
      (∀ g, swap_ok fs g → swap_len fs' g = if decide (g = f) then Z.max (swap_len fs f) (off + PGSIZE) else swap_len fs g) ∧
      (∀ g o, swap_ok fs g →
         swap_page fs' g o = if decide (g = f ∧ o = off) then Some bs else swap_page fs g o);
  readSwap_ok fs f off bs :
    swap_ok fs f → swap_page fs f off = Some bs →
    ∃ fs', (fs_setoff f off ;; fs_fileread f PGSIZE) fs = Ok (PGSIZE, bs) fs' ∧
      (∀ g, swap_ok fs g → swap_ok fs' g) ∧
      (∀ g, swap_ok fs g → swap_len fs' g = swap_len fs g) ∧
      (∀ g o, swap_ok fs g → swap_page fs' g o = swap_page fs g o);
}.

(** ** Kernel state *)

(** An argument of [cprintf]: an integer or pointer, or a string. *)
Inductive farg := AI (z : Z) | AS (l : list Z).
Definition ints : list Z → list farg := map AI.


Record kst (F : Type) := Kst {
  k_mem : memory;            (* memory, at kernel virtual addresses *)
  k_kmem_lock : bool;        (* kmem.lock held by this CPU *)
  k_use_lock : bool;         (* kmem.use_lock *)
  k_freelist : Z;            (* kmem.freelist *)
  k_pages_counted : bool;    (* kalloc.c: pages_counted *)
  k_total_pages : Z;         (* pagealloc.c *)
  k_free_pages : Z;
  k_ptable_lock : bool;      (* ptable.lock held by this CPU *)
  k_procs : list proc;       (* ptable.proc *)
  k_nextpid : Z;
  k_initproc : option nat;
  k_cur : option nat;        (* mycpu()->proc *)
  k_first : bool;            (* forkret: static int first *)
  k_cr2 : Z;
  k_cr3 : Z;
  k_kpgdir : Z;
  k_ticks : Z;               (* trap.c: ticks *)
  k_tickslock : bool;        (* tickslock held by this CPU *)
  k_out : list (string * list farg);  (* arguments of cprintf, latest call first *)
  k_fs : F;
}.
Arguments Kst {F}.
Arguments k_mem {F} _.
Arguments k_kmem_lock {F} _.
Arguments k_use_lock {F} _.
Arguments k_freelist {F} _.
Arguments k_pages_counted {F} _.
Arguments k_total_pages {F} _.
Arguments k_free_pages {F} _.
Arguments k_ptable_lock {F} _.
Arguments k_procs {F} _.
Arguments k_nextpid {F} _.
Arguments k_initproc {F} _.
Arguments k_cur {F} _.
Arguments k_first {F} _.
Arguments k_cr2 {F} _.
Arguments k_cr3 {F} _.
Arguments k_kpgdir {F} _.
Arguments k_ticks {F} _.
Arguments k_tickslock {F} _.
Arguments k_out {F} _.
Arguments k_fs {F} _.
#[global] Instance eta_kst F : Eta (kst F) := λ k,
  Kst (k_mem k) (k_kmem_lock k) (k_use_lock k) (k_freelist k) (k_pages_counted k)
    (k_total_pages k) (k_free_pages k) (k_ptable_lock k) (k_procs k) (k_nextpid k) (k_initproc k)
    (k_cur k) (k_first k) (k_cr2 k) (k_cr3 k) (k_kpgdir k) (k_ticks k) (k_tickslock k) (k_out k) (k_fs k).

(** The zero-initialized structures of the kernel's data segment. *)
Definition page_meta0 : page_meta := PageMeta 0 0 0 false false 0 0 0 0.
Definition pageQueue0 : pageQueue := PageQueue (replicate (Z.to_nat MAX_TOTAL_PAGES) None) 0 0 0.
Definition proc0 : proc :=
  Proc 0 0 0 UNUSED 0 None zero_trapframe zero_context 0 false (replicate (Z.to_nat NOFILE) None) None
    (replicate 16 0) pageQueue0 None 0 0 0 0 false 0 (replicate (Z.to_nat MAX_TOTAL_PAGES) page_meta0)
    (replicate (Z.to_nat MAX_SWAP_FILE_SZ) 0) 0.
Definition kst0 {F} (fs : F) : kst F :=
  Kst ∅ false false 0 false 0 0 false (replicate (Z.to_nat NPROC) proc0) 1 None None true 0 0 0 0 false [] fs.

(** Accesses to the arrays of a [struct proc]. *)
Definition page_at (j : Z) : M proc page_meta :=
  p <- get ;; of_option "pages[] index" (aget (p_pages p) j).
Definition mod_page (j : Z) (f : page_meta → page_meta) : M proc unit :=
  x <- page_at j ;; modify (λ p, p <| p_pages := aset (p_pages p) j (f x) |>).

Lemma page_at_ok j x p : aget (p_pages p) j = Some x → page_at j p = Ok x p.
Proof. intros H. unfold page_at, bind, get. simpl. by rewrite H. Qed.

Lemma mod_page_ok j f x p :
  aget (p_pages p) j = Some x →
  mod_page j f p = Ok tt (p <| p_pages := aset (p_pages p) j (f x) |>).
Proof. intros H. unfold mod_page. by rewrite (bind_ok _ _ _ _ _ (page_at_ok _ _ _ H)). Qed.

Lemma mod_page_amod j f p :
  is_Some (aget (p_pages p) j) →
  mod_page j f p = Ok tt (p <| p_pages := amod (p_pages p) j f |>).
Proof. intros [x Hx]. by rewrite (mod_page_ok _ _ x), (amod_aset _ _ _ x). Qed.

Lemma wp_page_at j x (Q : page_meta → proc → Prop) p :
  aget (p_pages p) j = Some x → Q x p → wp (page_at j) Q p.
Proof. intros H HQ. eapply wp_eq; [by apply page_at_ok|done]. Qed.

Lemma wp_mod_page j f x (Q : unit → proc → Prop) p :
  aget (p_pages p) j = Some x →
  Q tt (p <| p_pages := aset (p_pages p) j (f x) |>) → wp (mod_page j f) Q p.
Proof. intros H HQ. eapply wp_eq; [by apply mod_page_ok|done]. Qed.

Lemma wp_mod_amod j f (Q : unit → proc → Prop) p :
  is_Some (aget (p_pages p) j) →
  Q tt (p <| p_pages := amod (p_pages p) j f |>) → wp (mod_page j f) Q p.
Proof. intros H HQ. eapply wp_eq; [by apply mod_page_amod|done]. Qed.

Lemma wlp_page_at j (Q : page_meta → proc → Prop) p :
  (∀ x, aget (p_pages p) j = Some x → Q x p) → wlp (page_at j) Q p.
Proof. intros HQ. unfold page_at. wlp_steps. auto. Qed.

Lemma wlp_mod_page j f (Q : unit → proc → Prop) p :
  (∀ x, aget (p_pages p) j = Some x → Q tt (p <| p_pages := aset (p_pages p) j (f x) |>)) →
  wlp (mod_page j f) Q p.
Proof.
  intros HQ. unfold mod_page. apply wlp_bind, wlp_page_at. intros x Hx. by apply wlp_modify, HQ.
Qed.

(** [acquire]/[release] of a spinlock as the running CPU sees it: it is held
    by this CPU or not (spinlock.c itself is modelled in Spinlock). *)
Definition acquire {St} (lk : St → bool) {U : Upd lk} : M St unit :=
  b <- gets lk;; if b then panic "acquire" else modify (upd lk (λ _, true)).
Definition release {St} (lk : St → bool) {U : Upd lk} : M St unit :=
  b <- gets lk;; if b then modify (upd lk (λ _, false)) else panic "release".

Lemma wp_acquire {St} (lk : St → bool) {U : Upd lk} (Q : unit → St → Prop) s :
  lk s = false → Q tt (upd lk (λ _, true) s) → wp (acquire lk) Q s.
Proof. intros Hl HQ. unfold acquire. apply wp_bind, wp_gets. rewrite Hl. by apply wp_modify. Qed.
Lemma wp_release {St} (lk : St → bool) {U : Upd lk} (Q : unit → St → Prop) s :
  lk s = true → Q tt (upd lk (λ _, false) s) → wp (release lk) Q s.
Proof. intros Hl HQ. unfold release. apply wp_bind, wp_gets. rewrite Hl. by apply wp_modify. Qed.

Section access.
Context {F : Type}.
Implicit Types s : kst F.

(** Memory accesses through kernel pointers. *)
Definition ld32 (a : Z) : M (kst F) Z := gets (λ s, load32 (k_mem s) a).
Definition st32 (a v : Z) : M (kst F) unit := modify (λ s, s <| k_mem ::= λ m, store32 m a v |>).

Definition cprintf (fmt : string) (args : list farg) : M (kst F) unit :=
  modify (λ s, s <| k_out ::= cons (fmt, args) |>).
Definition lcr3 (v : Z) : M (kst F) unit := modify (λ s, s <| k_cr3 := v |>).

(** A call into the file system. *)
Definition fs_call {A} (m : M F A) : M (kst F) A := λ s,
  match m (k_fs s) with
  | Ok a f => Ok a (s <| k_fs := f |>)
  | Panic e => Panic e
  | Blocked c f => Blocked c (s <| k_fs := f |>)
  | Spins => Spins
  | UB w => UB w
  | Fuel => Fuel
  end.

(** [myproc()], when it is not null. *)
Definition myproc : M (kst F) nat := c <- gets k_cur;; of_option "myproc() is null" c.

Definition getp (i : nat) : M (kst F) proc :=
  ps <- gets k_procs;; of_option "process table index" (ps !! i).
Definition modp (i : nat) (f : proc → proc) : M (kst F) unit :=
  p <- getp i;; modify (λ s, s <| k_procs ::= <[i := f p]> |>).

(** A function that only touches the process structure [p] points to. *)
Definition on_proc {A} (i : nat) (m : M proc A) : M (kst F) A := λ s,
  match k_procs s !! i with
  | None => UB "process table index"
  | Some p =>
      match m p with
      | Ok a p' => Ok a (s <| k_procs ::= <[i := p']> |>)
      | Panic e => Panic e
      | Blocked c p' => Blocked c (s <| k_procs ::= <[i := p']> |>)
      | Spins => Spins
      | UB w => UB w
      | Fuel => Fuel
      end
  end.

Lemma getp_ok i p s : k_procs s !! i = Some p → getp i s = Ok p s.
Proof. unfold getp, bind, gets. simpl. by intros ->. Qed.

Lemma modp_ok i f p s :
  k_procs s !! i = Some p → modp i f s = Ok tt (s <| k_procs ::= <[i := f p]> |>).
Proof. intros Hp. unfold modp. by rewrite (bind_ok _ _ _ _ _ (getp_ok _ _ _ Hp)). Qed.

Lemma wp_getp i p Q s : k_procs s !! i = Some p → Q p s → wp (getp i) Q s.
Proof. intros Hp HQ. eapply wp_eq; [by apply getp_ok|done]. Qed.

Lemma wp_modp i f p (Q : unit → kst F → Prop) s :
  k_procs s !! i = Some p → Q tt (s <| k_procs ::= <[i := f p]> |>) → wp (modp i f) Q s.
Proof. intros Hp HQ. eapply wp_eq; [by apply modp_ok|done]. Qed.

Lemma on_proc_ok {A} i p (m : M proc A) a p' s :
  k_procs s !! i = Some p → m p = Ok a p' →
  on_proc i m s = Ok a (s <| k_procs ::= <[i := p']> |>).
Proof. intros Hp Hm. unfold on_proc. by rewrite Hp, Hm. Qed.

Lemma setp_id i p s : k_procs s !! i = Some p → s <| k_procs ::= <[i := p]> |> = s.
Proof. intros Hp. destruct s; simpl in *. unfold upd. simpl. by rewrite list_insert_id. Qed.

(** Reading an entry changes nothing. *)
Lemma on_proc_page_at i p j x s :
  k_procs s !! i = Some p → aget (p_pages p) j = Some x → on_proc i (page_at j) s = Ok x s.
Proof.
  intros Hp Hx. rewrite (on_proc_ok i p (page_at j) x p) by (by try apply page_at_ok).
  by rewrite setp_id.
Qed.

Lemma wp_on_proc {A} i p (m : M proc A) (Q : A → kst F → Prop) s :
  k_procs s !! i = Some p →
  wp m (λ a p', Q a (s <| k_procs ::= <[i := p']> |>)) p →
  wp (on_proc i m) Q s.
Proof. intros Hp. unfold wp, on_proc. rewrite Hp. by destruct (m p). Qed.

Lemma on_proc_inv {A} i p (m : M proc A) (Q : A → proc → Prop) a s s' :
  k_procs s !! i = Some p → wp m Q p → on_proc i m s = Ok a s' →
  ∃ p', s' = s <| k_procs ::= <[i := p']> |> ∧ Q a p'.
Proof.
  intros Hp HQ. unfold wp, on_proc in *. rewrite Hp. destruct (m p) as [b p'| | | | |]; try done.
  intros [= <- <-]. eauto.
Qed.

Lemma wp_fs_call {A} (m : M F A) a fs (Q : A → kst F → Prop) s :
  m (k_fs s) = Ok a fs → Q a (s <| k_fs := fs |>) → wp (fs_call m) Q s.
Proof. intros Hm HQ. unfold wp, fs_call. by rewrite Hm. Qed.

Lemma wp_ld32 a (Q : Z → kst F → Prop) s : Q (load32 (k_mem s) a) s → wp (ld32 a) Q s.
Proof. done. Qed.

Lemma wp_st32 a v (Q : unit → kst F → Prop) s :
  Q tt (s <| k_mem ::= λ m, store32 m a v |>) → wp (st32 a v) Q s.
Proof. done. Qed.

Lemma wp_myproc pi (Q : nat → kst F → Prop) s : k_cur s = Some pi → Q pi s → wp myproc Q s.
Proof. intros Hc HQ. unfold wp, myproc, bind, gets. simpl. by rewrite Hc. Qed.

(** What a function that works on one process, memory and the file system
    leaves alone. *)
Definition kframe (s s' : kst F) : Prop :=
  s' = s <| k_procs := k_procs s' |> <| k_mem := k_mem s' |> <| k_fs := k_fs s' |>.
End access.
