(* ===== verification/Kalloc.v ===== *)
(** The physical page allocator: [src/kalloc.c] and [src/pagealloc.c].

    Free pages form a linked list threaded through the pages themselves: the
    first word of a free page is the address of the next one.  The section
    variable [kend] is the linker symbol [end], the first address after the
    kernel image.

    [freelist_is] relates the memory to the abstract state of the allocator,
    the list of free pages; [kalloc] and [kfree] refine its pop and push. *)

From S2P Require Import Prelude Memory Machine.
From stdpp Require Import options.

(** ** Page arithmetic *)

Lemma pg_mask : u32 (Z.lnot (PGSIZE - 1)) = 2 ^ 32 - PGSIZE.
Proof. reflexivity. Qed.

(** Masking with [~(PGSIZE-1)] rounds an unsigned word down to a page. *)
Lemma land_page_mask z : 0 ≤ z < 2 ^ 32 → Z.land z (u32 (Z.lnot (PGSIZE - 1))) = z - z mod PGSIZE.
Proof.
  intros Hz. change (u32 (Z.lnot (PGSIZE - 1))) with (Z.shiftl (Z.ones (32 - 12)) 12). rewrite land_high by lia.
  change (2 ^ 12) with PGSIZE. pose proof (Z.div_mod z PGSIZE). unfold PGSIZE in *. lia.
Qed.

Lemma PGROUNDDOWN_eq z : 0 ≤ z < 2 ^ 32 → PGROUNDDOWN z = z - z mod PGSIZE.
Proof. apply land_page_mask. Qed.

Lemma PTE_ADDR_eq z : 0 ≤ z < 2 ^ 32 → PTE_ADDR z = z - z mod PGSIZE.
Proof. apply land_page_mask. Qed.

Lemma PGROUNDUP_eq z :
  0 ≤ z → z + PGSIZE - 1 < 2 ^ 32 → PGROUNDUP z = (z + PGSIZE - 1) / PGSIZE * PGSIZE.
Proof.
  intros Hz Hw. unfold PGROUNDUP. rewrite u32_id by klia.
  rewrite land_page_mask by klia. unfold PGSIZE. Z.div_mod_to_equations. lia.
Qed.

(** ** src/kalloc.c, src/pagealloc.c *)

Module Kalloc.
Section kalloc.
Context {F : Type} (kend : Z).
Implicit Types s : kst F.

(** pagealloc.c *)
Definition add_total_pages_num (num : Z) : M (kst F) unit :=
  modify (λ s, s <| k_total_pages ::= λ t, s32 (t + num) |>) ;;
  modify (λ s, s <| k_free_pages := k_total_pages s |>).

Definition count_pages (e : Z) : M (kst F) unit :=
  modify (λ s, s <| k_total_pages := 0 |>) ;;
  modify (λ s, s <| k_total_pages := s32 (PGROUNDDOWN (u32 (PHYSTOP - V2P e)) / PGSIZE) |>) ;;
  modify (λ s, s <| k_free_pages := k_total_pages s |>).

(** The counter is an [int]; it does not wrap before 2^31 calls of [kalloc] have
    failed. *)
Definition dec_free_pages : M (kst F) unit := modify (λ s, s <| k_free_pages ::= λ n, n - 1 |>).
Definition inc_free_pages : M (kst F) unit := modify (λ s, s <| k_free_pages ::= λ n, n + 1 |>).
Definition get_total_pages_num : M (kst F) Z := gets k_total_pages.
Definition get_free_pages_num : M (kst F) Z := gets k_free_pages.

(** kalloc.c *)
Definition kfree (v : Z) : M (kst F) unit :=
  if negb (v mod PGSIZE =? 0) || (v <? kend) || (PHYSTOP <=? V2P v) then panic "kfree" else
  modify (λ s, s <| k_mem ::= λ m, Kstring.memset m v 1 PGSIZE |>) ;;
  ul <- gets k_use_lock ;;
  (if ul then acquire k_kmem_lock else skip) ;;
  next <- gets k_freelist ;;
  st32 v next ;;
  modify (λ s, s <| k_freelist := v |>) ;;
  pc <- gets k_pages_counted ;;
  (if pc then inc_free_pages else skip) ;;
  (if ul then release k_kmem_lock else skip).

Definition kalloc : M (kst F) Z :=
  ul <- gets k_use_lock ;;
  (if ul then acquire k_kmem_lock else skip) ;;
  r <- gets k_freelist ;;
  (if negb (r =? 0) then next <- ld32 r ;; modify (λ s, s <| k_freelist := next |>) else skip) ;;
  dec_free_pages ;;
  (if ul then release k_kmem_lock else skip) ;;
  ret r.

(** The loop of [freerange] from page [p]. *)
Definition freerange_loop (fuel : nat) (vend p : Z) : M (kst F) unit :=
  loop fuel (λ p, if p + PGSIZE <=? vend then kfree p ;; ret (inl (p + PGSIZE)) else ret (inr tt)) p.

Definition freerange (fuel : nat) (vstart vend : Z) : M (kst F) unit :=
  freerange_loop fuel vend (PGROUNDUP vstart) ;;
  count_pages kend.

Definition kinit1 (fuel : nat) (vstart vend : Z) : M (kst F) unit :=
  modify (λ s, s <| k_kmem_lock := false |>) ;;
  modify (λ s, s <| k_use_lock := false |>) ;;
  freerange fuel vstart vend.

Definition kinit2 (fuel : nat) (vstart vend : Z) : M (kst F) unit :=
  freerange fuel vstart vend ;;
  modify (λ s, s <| k_use_lock := true |>) ;;
  modify (λ s, s <| k_pages_counted := true |>).

(** *** Abstract state *)

(** Addresses the allocator hands out. *)
Definition page_ok (v : Z) : Prop :=
  v mod PGSIZE = 0 ∧ kend ≤ v ∧ KERNBASE < v < KERNBASE + PHYSTOP.

Fixpoint chain (m : memory) (a : Z) (l : list Z) : Prop :=
  match l with
  | [] => a = 0
  | x :: l => a = x ∧ chain m (load32 m x) l
  end.

(** [l] is the list of free pages, from the head. *)
Record freelist_is s (l : list Z) : Prop := {
  fl_chain : chain (k_mem s) (k_freelist s) l;
  fl_pages : Forall page_ok l;
  fl_nodup : NoDup l;
  fl_unlocked : k_kmem_lock s = false;
}.

Lemma page_ok_check v :
  page_ok v → negb (v mod PGSIZE =? 0) || (v <? kend) || (PHYSTOP <=? V2P v) = false.
Proof.
  intros (Hm & He & Hr). rewrite Hm, V2P_eq by klia. simpl.
  rewrite orb_false_iff, Z.ltb_ge, Z.leb_gt. klia.
Qed.

Lemma page_ok_disjoint v w : page_ok v → page_ok w → v ≠ w → v + PGSIZE ≤ w ∨ w + PGSIZE ≤ v.
Proof. intros (Hv & _) (Hw & _) Hne. unfold PGSIZE in *. Z.div_mod_to_equations. lia. Qed.

Lemma page_ok_nonzero v : page_ok v → v ≠ 0.
Proof. intros (_ & _ & ?). klia. Qed.

(** The chain only depends on the first words of its pages. *)
Lemma chain_ext m m' a l :
  (∀ x, x ∈ l → load32 m x = load32 m' x) → chain m a l → chain m' a l.
Proof.
  revert a. induction l as [|x l IH]; intros a Hm; simpl; [done|].
  intros [-> Hc]. split; [done|]. rewrite <-Hm by left. apply IH; [|done].
  intros y Hy. apply Hm. by right.
Qed.

(** The memory [kfree v] leaves behind. *)
Definition freed_mem (m : memory) (v next : Z) : memory :=
  store32 (Kstring.memset m v 1 PGSIZE) v next.

Lemma freed_mem_out m v next b :
  b < v ∨ v + PGSIZE ≤ b → load8 (freed_mem m v next) b = load8 m b.
Proof.
  intros Hb. unfold freed_mem. rewrite load8_store32_out by klia.
  rewrite Kstring.load8_memset by klia. case_decide; [klia|done].
Qed.

Lemma freed_mem_next m v next : load32 (freed_mem m v next) v = u32 next.
Proof. apply load32_store32_eq. Qed.

(** [kfree v], executed: junk in the page, the page at the head of the list,
    the counter incremented once the pages have been counted. *)
Lemma kfree_run v s :
  page_ok v → k_kmem_lock s = false →
  kfree v s = Ok tt (s <| k_mem := freed_mem (k_mem s) v (k_freelist s) |> <| k_freelist := v |>
                       <| k_free_pages := if k_pages_counted s then k_free_pages s + 1
                                          else k_free_pages s |>).
Proof.
  intros Hv Hl. unfold kfree. rewrite (page_ok_check v Hv).
  destruct s as [mem kl ul fl pc]; simpl in *; subst kl.
  destruct ul, pc; reflexivity.
Qed.

(** [kalloc], executed. *)
Lemma kalloc_run s :
  k_kmem_lock s = false →
  kalloc s = Ok (k_freelist s)
    (s <| k_freelist := if k_freelist s =? 0 then k_freelist s
                        else load32 (k_mem s) (k_freelist s) |>
       <| k_free_pages := k_free_pages s - 1 |>).
Proof.
  intros Hl. destruct s as [mem kl ul fl pc]; simpl in *; subst kl.
  unfold kalloc, bind, gets. destruct ul; cbn; destruct (fl =? 0); reflexivity.
Qed.

(** [kfree] refines push. *)
Lemma kfree_push v s l :
  freelist_is s l → page_ok v → v ∉ l →
  ∃ s', kfree v s = Ok tt s' ∧ freelist_is s' (v :: l) ∧
    s' = s <| k_mem := k_mem s' |> <| k_freelist := v |> <| k_free_pages := k_free_pages s' |> ∧
    (∀ b, b < v ∨ v + PGSIZE ≤ b → load8 (k_mem s') b = load8 (k_mem s) b).
Proof.
  intros [Hc Hp Hn Hl] Hv Hvl. rewrite (kfree_run v s Hv Hl). eexists. split; [done|].
  split; [|split; [done|]].
  - split; simpl; [|by constructor|by constructor|done].
    split; [done|]. rewrite freed_mem_next, u32_id.
    + apply (chain_ext (k_mem s)); [|done]. intros x Hx. apply load32_ext. intros i Hi.
      symmetry. apply freed_mem_out. rewrite Forall_forall in Hp.
      pose proof (Hp x Hx). assert (x ≠ v) by congruence.
      destruct (page_ok_disjoint x v); try done; klia.
    + destruct l as [|y l]; simpl in Hc; [klia|]. destruct Hc as [-> _].
      apply Forall_cons in Hp as [(_ & _ & ?) _]. klia.
  - intros b Hb. apply freed_mem_out. done.
Qed.

(** [kalloc] refines pop. *)
Lemma kalloc_pop s l :
  freelist_is s l →
  ∃ s', kalloc s = Ok (hd 0 l) s' ∧ freelist_is s' (tl l) ∧
    s' = s <| k_freelist := k_freelist s' |> <| k_free_pages := k_free_pages s - 1 |>.
Proof.
  intros [Hc Hp Hn Hl]. rewrite (kalloc_run s Hl). destruct l as [|x l]; simpl in *.
  - eexists. rewrite Hc. split; [done|]. split; [|done]. split; simpl; [|done..]. done.
  - destruct Hc as [Hx Hc]. rewrite Hx. apply Forall_cons in Hp as [Hpx Hp].
    apply NoDup_cons in Hn as [_ Hn].
    rewrite (proj2 (Z.eqb_neq x 0) (page_ok_nonzero x Hpx)).
    eexists. split; [done|]. split; [|done]. split; simpl; done.
Qed.

(** *** Initialization *)

(** The [n] pages from [p], the highest first: the order [freerange] leaves. *)
Fixpoint pages_desc (p : Z) (n : nat) : list Z :=
  match n with O => [] | S n => pages_desc (p + PGSIZE) n ++ [p] end.

Lemma length_pages_desc p n : length (pages_desc p n) = n.
Proof. revert p. induction n as [|n IH]; intros p; simpl; [done|]. rewrite length_app, IH. simpl. lia. Qed.

Lemma elem_of_pages_desc p n x :
  x ∈ pages_desc p n ↔ ∃ i : Z, 0 ≤ i < Z.of_nat n ∧ x = p + i * PGSIZE.
Proof.
  revert p. induction n as [|n IH]; intros p; simpl.
  - rewrite elem_of_nil. split; [done|]. intros (i & ? & _). lia.
  - rewrite elem_of_app, IH, list_elem_of_singleton. split.
    + intros [(i & ? & ->)| ->]; [exists (i + 1)|exists 0]; lia.
    + intros (i & ? & ->). destruct (decide (i = 0)); [right; lia|left; exists (i - 1); lia].
Qed.

(** Number of whole pages from [p] up to [vend]. *)
Definition npages (p vend : Z) : nat := Z.to_nat ((vend - p) / PGSIZE).

Lemma freerange_loop_ok fuel vend p s l :
  freelist_is s l → (npages p vend < fuel)%nat →
  Forall page_ok (pages_desc p (npages p vend)) →
  (∀ x, x ∈ pages_desc p (npages p vend) → x ∉ l) →
  ∃ s', freerange_loop fuel vend p s = Ok tt s' ∧
    freelist_is s' (pages_desc p (npages p vend) ++ l) ∧
    s' = s <| k_mem := k_mem s' |> <| k_freelist := k_freelist s' |>
           <| k_free_pages := k_free_pages s' |>.
Proof.
  remember (npages p vend) as n eqn:En.
  revert p s l En fuel. induction n as [|n IH]; intros p s l En fuel Hl Hf Hok Hnew.
  - destruct fuel as [|fuel]; [lia|]. simpl. unfold freerange_loop, bind. simpl.
    replace (p + PGSIZE <=? vend) with false.
    + exists s. split; [done|]. split; [done|]. by destruct s.
    + symmetry. apply Z.leb_gt. unfold npages in En. unfold_consts.
      assert (¬ 1 ≤ (vend - p) / 4096) as Hq by lia. Z.div_mod_to_equations. lia.
  - destruct fuel as [|fuel]; [lia|].
    assert (Hle : p + PGSIZE ≤ vend).
    { unfold npages in En. unfold_consts. assert (1 ≤ (vend - p) / 4096) as Hq by lia.
      Z.div_mod_to_equations. lia. }
    assert (Hn : npages (p + PGSIZE) vend = n).
    { unfold npages in *. replace ((vend - (p + PGSIZE)) / PGSIZE) with ((vend - p) / PGSIZE - 1).
      - lia.
      - replace (vend - (p + PGSIZE)) with (vend - p + (-1) * PGSIZE) by lia.
        rewrite Z.div_add by klia. lia. }
    simpl in Hok, Hnew. rewrite Forall_app, Forall_singleton in Hok. destruct Hok as [Hok Hp].
    destruct (kfree_push p s l Hl Hp) as (s1 & Hk & Hl1 & Hs1 & _).
    { apply Hnew. apply elem_of_app. right. by apply list_elem_of_singleton. }
    destruct (IH (p + PGSIZE) s1 (p :: l) (eq_sym Hn) fuel Hl1) as (s2 & Hloop & Hl2 & Hs2); [lia|done| |].
    { intros x Hx. rewrite not_elem_of_cons. split.
      - apply elem_of_pages_desc in Hx as (i & ? & ->). klia.
      - apply Hnew. apply elem_of_app. by left. }
    exists s2. unfold freerange_loop in *. simpl. rewrite (proj2 (Z.leb_le _ _) Hle).
    unfold bind at 1. unfold bind at 1. rewrite Hk. simpl. split; [done|]. split.
    + simpl. by rewrite <-app_assoc.
    + rewrite Hs2, Hs1. reflexivity.
Qed.

(** What [freerange] counts. *)
Lemma count_pages_run e s :
  count_pages e s = Ok tt (s <| k_total_pages := s32 (PGROUNDDOWN (u32 (PHYSTOP - V2P e)) / PGSIZE) |>
    <| k_free_pages := s32 (PGROUNDDOWN (u32 (PHYSTOP - V2P e)) / PGSIZE) |>).
Proof. destruct s; reflexivity. Qed.

Lemma freerange_ok fuel vstart vend s l :
  let p := PGROUNDUP vstart in
  freelist_is s l → (npages p vend < fuel)%nat →
  Forall page_ok (pages_desc p (npages p vend)) →
  (∀ x, x ∈ pages_desc p (npages p vend) → x ∉ l) →
  ∃ s', freerange fuel vstart vend s = Ok tt s' ∧
    freelist_is s' (pages_desc p (npages p vend) ++ l) ∧
    k_free_pages s' = s32 (PGROUNDDOWN (u32 (PHYSTOP - V2P kend)) / PGSIZE) ∧
    k_total_pages s' = k_free_pages s' ∧
    s' = s <| k_mem := k_mem s' |> <| k_freelist := k_freelist s' |>
           <| k_total_pages := k_total_pages s' |> <| k_free_pages := k_free_pages s' |>.
Proof.
  intros p Hl Hf Hok Hnew. destruct (freerange_loop_ok fuel vend p s l Hl Hf Hok Hnew) as (s1 & H1 & Hl1 & Hs1).
  unfold freerange. fold p. unfold bind. rewrite H1. cbn [obind]. rewrite count_pages_run.
  eexists. split; [done|]. split; [|split; [done|split; [done|]]].
  - destruct Hl1. by split.
  - rewrite Hs1. reflexivity.
Qed.

(** *** Clients of the allocator *)

(** A run of the kernel as the allocator sees it: pages are allocated, freed
    by whoever holds them, and written by whoever holds them. *)
Inductive client_step : kst F * list Z → kst F * list Z → Prop :=
  | cs_alloc s s' used v :
      kalloc s = Ok v s' → v ≠ 0 → client_step (s, used) (s', v :: used)
  | cs_alloc_fail s s' used :
      kalloc s = Ok 0 s' → client_step (s, used) (s', used)
  | cs_free s s' used1 used2 v :
      kfree v s = Ok tt s' → client_step (s, used1 ++ v :: used2) (s', used1 ++ used2)
  | cs_write s used v b x :
      v ∈ used → v ≤ b < v + PGSIZE →
      client_step (s, used) (s <| k_mem ::= λ m, store8 m b x |>, used).

(** Every page of [pool] is either free or held by exactly one client. *)
Definition partition (pool : list Z) (c : kst F * list Z) : Prop :=
  ∃ l, freelist_is c.1 l ∧ (c.2 ++ l) ≡ₚ pool.

Lemma partition_step pool c c' :
  NoDup pool → Forall page_ok pool → partition pool c → client_step c c' → partition pool c'.
Proof.
  intros Hnd Hok (l & Hl & Hp) Hst. inversion Hst as [s s' used v Hk Hv|s s' used Hk|s s' u1 u2 v Hk|s used v b x Hv Hb]; subst; simpl in *.
  - destruct (kalloc_pop s l Hl) as (s1 & Hk1 & Hl1 & _). rewrite Hk1 in Hk. simplify_eq.
    destruct l as [|y l]; simpl in *; [done|]. exists l. split; [done|]. rewrite <-Hp. solve_Permutation.
  - destruct (kalloc_pop s l Hl) as (s1 & Hk1 & Hl1 & _). rewrite Hk1 in Hk. simplify_eq.
    destruct l as [|y l]; simpl in *; [by exists []|].
    pose proof (fl_pages _ _ Hl) as Hpg. apply Forall_cons in Hpg as [Hy _].
    by destruct (page_ok_nonzero _ Hy).
  - assert (NoDup ((u1 ++ v :: u2) ++ l)) as Hn by by rewrite Hp.
    assert (page_ok v) as Hv.
    { rewrite Forall_forall in Hok. apply Hok. rewrite <-Hp. set_solver. }
    assert (v ∉ l) as Hvl.
    { apply NoDup_app in Hn as (_ & Hd & _). apply Hd. set_solver. }
    destruct (kfree_push v s l Hl Hv Hvl) as (s1 & Hk1 & Hl1 & _). rewrite Hk1 in Hk. simplify_eq.
    exists (v :: l). split; [done|]. rewrite <-Hp. solve_Permutation.
  - exists l. split; [|done]. destruct Hl as [Hc Hpg Hn Hlk]. split; simpl; try done.
    assert (NoDup (used ++ l)) as Hnd' by by rewrite Hp.
    apply (chain_ext (k_mem s)); [|done]. intros y Hy. apply load32_ext. intros i Hi.
    rewrite load8_store8_ne; [done|]. apply NoDup_app in Hnd' as (_ & Hd & _).
    assert (v ≠ y) by (intros ->; by apply (Hd y)).
    assert (page_ok v) as Hpv.
    { rewrite Forall_forall in Hok. apply Hok. rewrite <-Hp. apply elem_of_app. by left. }
    assert (page_ok y) as Hpy by (rewrite Forall_forall in Hpg; by apply Hpg).
    destruct (page_ok_disjoint v y); try done; klia.
Qed.

Lemma pages_desc_ok p vend :
  p mod PGSIZE = 0 → kend ≤ p → KERNBASE < p → vend ≤ KERNBASE + PHYSTOP →
  Forall page_ok (pages_desc p (npages p vend)).
Proof.
  intros Hp Hk Hb Hv. apply Forall_forall. intros x (i & Hi & ->)%elem_of_pages_desc.
  unfold npages in Hi. split; [by rewrite Z.mod_add by klia|]. unfold_consts.
  assert (i * 4096 + 4096 ≤ vend - p) by (Z.div_mod_to_equations; lia). lia.
Qed.

Lemma pages_desc_bound p vend x :
  x ∈ pages_desc p (npages p vend) → p ≤ x ∧ x + PGSIZE ≤ vend.
Proof.
  intros (i & Hi & ->)%elem_of_pages_desc. unfold npages in Hi. unfold_consts.
  Z.div_mod_to_equations. lia.
Qed.

(** The first page boundary at or after the end of the kernel. *)
Lemma first_page :
  KERNBASE < kend ≤ KERNBASE + PHYSTOP →
  PGROUNDUP kend mod PGSIZE = 0 ∧ kend ≤ PGROUNDUP kend < kend + PGSIZE.
Proof.
  intros Hk. rewrite PGROUNDUP_eq by klia. split; [apply Z.mod_mul; klia|].
  unfold_consts. Z.div_mod_to_equations. lia.
Qed.

Lemma counted_pages mid :
  KERNBASE < kend → kend ≤ mid ≤ KERNBASE + PHYSTOP → mid mod PGSIZE = 0 →
  s32 (PGROUNDDOWN (u32 (PHYSTOP - V2P kend)) / PGSIZE) =
  Z.of_nat (npages (PGROUNDUP kend) mid + npages mid (KERNBASE + PHYSTOP)).
Proof.
  intros Hk Hm Ha. rewrite V2P_eq, (u32_id (PHYSTOP - _)), PGROUNDDOWN_eq, PGROUNDUP_eq by klia.
  unfold npages. unfold_consts. rewrite s32_id; Z.div_mod_to_equations; lia.
Qed.

(** C22: Allocator safety. Along any sequence of [kalloc], [kfree] of a held page and
    client writes to held pages, the free list stays well formed and every page of
    the initial pool is free or held by exactly one client: no page is handed out
    twice, and none is lost. *)
Theorem allocator_partition pool c c' :
  NoDup pool → Forall page_ok pool → partition pool c → rtc client_step c c' → partition pool c'.
Proof.
  intros Hnd Hok Hc Hr. induction Hr as [|c c1 c2 Hst Hr IH]; [done|].
  apply IH. by eapply partition_step.
Qed.

(** Freeing a page and allocating returns that page, gives back the free list as
    it was, and leaves all memory outside the page unchanged. *)
Theorem kfree_kalloc_roundtrip v s l :
  freelist_is s l → page_ok v → v ∉ l →
  ∃ s', (kfree v ;; kalloc) s = Ok v s' ∧ freelist_is s' l ∧
    ∀ b, b < v ∨ v + PGSIZE ≤ b → load8 (k_mem s') b = load8 (k_mem s) b.
Proof.
  intros Hl Hv Hvl. destruct (kfree_push v s l Hl Hv Hvl) as (s1 & H1 & Hl1 & _ & Hout).
  destruct (kalloc_pop s1 (v :: l) Hl1) as (s2 & H2 & Hl2 & Hs2).
  exists s2. unfold bind. rewrite H1. simpl. split; [done|]. split; [done|].
  rewrite Hs2. simpl. done.
Qed.

(** Boot. [kinit1] then [kinit2] put exactly the whole pages between the end of
    the kernel and the top of physical memory on the free list, and the free-page
    counter equals their number. *)
Theorem kinit_all_pages fuel s mid :
  k_freelist s = 0 →
  let lo := PGROUNDUP kend in
  let top := KERNBASE + PHYSTOP in
  KERNBASE < kend → kend ≤ mid ≤ top → mid mod PGSIZE = 0 →
  (npages lo top < fuel)%nat →
  ∃ s', (kinit1 fuel kend mid ;; kinit2 fuel mid top) s = Ok tt s' ∧
    freelist_is s' (pages_desc mid (npages mid top) ++ pages_desc lo (npages lo mid)) ∧
    k_free_pages s' = Z.of_nat (npages lo mid + npages mid top) ∧
    k_total_pages s' = k_free_pages s' ∧ k_use_lock s' = true ∧ k_pages_counted s' = true.
Proof.
  intros Hf0 lo top Hk Hm Ha Hf.
  assert (Hlo : lo mod PGSIZE = 0 ∧ kend ≤ lo < kend + PGSIZE) by (apply first_page; subst top; lia).
  assert (Hlm : lo ≤ mid) by (unfold_consts; subst top; Z.div_mod_to_equations; lia).
  assert (Hmid : PGROUNDUP mid = mid).
  { subst top. rewrite PGROUNDUP_eq by klia. unfold_consts. Z.div_mod_to_equations. lia. }
  assert (Hnl : (npages lo mid ≤ npages lo top)%nat ∧ (npages mid top ≤ npages lo top)%nat).
  { subst top. unfold npages, PGSIZE. split; apply Z2Nat.inj_le; try lia;
      first [apply Z.div_pos; klia | apply Z.div_le_mono; klia]. }
  set (s0 := s <| k_kmem_lock := false |> <| k_use_lock := false |>).
  assert (Hl0 : freelist_is s0 []) by (split; simpl; [done|constructor|constructor|done]).
  destruct (freerange_ok fuel kend mid s0 [] Hl0) as (s1 & H1 & Hl1 & Hf1 & Ht1 & Hs1);
    fold lo; [lia|apply pages_desc_ok; subst top; klia|set_solver|].
  rewrite app_nil_r in Hl1. fold lo in Hl1.
  destruct (freerange_ok fuel mid top s1 _ Hl1) as (s2 & H2 & Hl2 & Hf2 & Ht2 & Hs2); rewrite ?Hmid in *.
  - lia.
  - apply pages_desc_ok; subst top; klia.
  - intros x Hx1%pages_desc_bound Hx2%pages_desc_bound. klia.
  - exists (s2 <| k_use_lock := true |> <| k_pages_counted := true |>).
    unfold kinit1, kinit2, bind. simpl. fold s0. rewrite H1. simpl. rewrite H2. split; [done|].
    simpl. split_and!; try done; [destruct Hl2; by split|].
    rewrite Hf2. by apply counted_pages.
Qed.

(** [kalloc] called [n] times on an empty free list. *)
Fixpoint kalloc_times (n : nat) : M (kst F) unit :=
  match n with O => skip | S n => kalloc ;; kalloc_times n end.

(** Out of memory, the free-page counter drifts: each failing [kalloc] returns 0
    and still decrements it, so it ends at minus the number of failures although
    exactly zero pages are free. *)
Theorem free_counter_drifts n s :
  freelist_is s [] →
  ∃ s', kalloc_times n s = Ok tt s' ∧ freelist_is s' [] ∧
    k_free_pages s' = k_free_pages s - Z.of_nat n.
Proof.
  revert s. induction n as [|n IH]; intros s Hl; simpl.
  - exists s. split; [done|]. split; [done|]. lia.
  - destruct (kalloc_pop s [] Hl) as (s1 & H1 & Hl1 & Hs1).
    destruct (IH s1 Hl1) as (s2 & H2 & Hl2 & Hf2).
    exists s2. unfold bind. rewrite H1. simpl. split; [done|]. split; [done|].
    rewrite Hf2, Hs1. simpl. lia.
Qed.

(** [kinit2] recounts all pages as free: a page that was allocated between
    [kinit1] and [kinit2] (the kernel page table, the other CPUs' stacks) is
    counted as free although it is not on the free list. *)
Theorem kinit2_recount fuel s mid l :
  let lo := PGROUNDUP kend in
  let top := KERNBASE + PHYSTOP in
  KERNBASE < kend → kend ≤ mid ≤ top → mid mod PGSIZE = 0 → (npages mid top < fuel)%nat →
  freelist_is s l → (∀ x, x ∈ l → x < mid) →
  ∃ s' l', kinit2 fuel mid top s = Ok tt s' ∧ freelist_is s' l' ∧
    k_free_pages s' - Z.of_nat (length l') = Z.of_nat (npages lo mid) - Z.of_nat (length l).
Proof.
  intros lo top Hk Hm Ha Hf Hl Hlow.
  assert (Hmid : PGROUNDUP mid = mid).
  { subst top. rewrite PGROUNDUP_eq by klia. unfold_consts. Z.div_mod_to_equations. lia. }
  destruct (freerange_ok fuel mid top s l Hl) as (s2 & H2 & Hl2 & Hf2 & Ht2 & Hs2); rewrite ?Hmid in *.
  - lia.
  - apply pages_desc_ok; subst top; klia.
  - intros x Hx%pages_desc_bound Hx2%Hlow. klia.
  - exists (s2 <| k_use_lock := true |> <| k_pages_counted := true |>), (pages_desc mid (npages mid top) ++ l).
    unfold kinit2, bind. rewrite H2. split; [done|]. split; [destruct Hl2; by split|].
    simpl. rewrite Hf2, (counted_pages mid), length_app, length_pages_desc by done. subst lo top. lia.
Qed.
End kalloc.
End Kalloc.

(** ** Instances at concrete states *)

Module KallocExamples.
Import Kalloc.

(** Two pages at the top of memory, one linked to the other. *)
Definition pg1 := KERNBASE + PHYSTOP - 2 * PGSIZE.
Definition pg2 := KERNBASE + PHYSTOP - PGSIZE.
Definition kend_ex := pg1 - 100.
Definition s_two : kst unit :=
  (kst0 ()) <| k_mem := store32 (store32 ∅ pg2 pg1) pg1 0 |> <| k_freelist := pg2 |> <| k_free_pages := 2 |>.

Lemma page_ok_ex v : v = pg1 ∨ v = pg2 → page_ok kend_ex v.
Proof. intros [-> | ->]; (split; [reflexivity|]); unfold kend_ex, pg1, pg2; klia. Qed.

Lemma freelist_two : freelist_is kend_ex s_two [pg2; pg1].
Proof.
  split; [split; [reflexivity|]; split; reflexivity| | |reflexivity].
  - repeat constructor; apply page_ok_ex; auto.
  - apply NoDup_cons. split; [|apply NoDup_singleton]. rewrite list_elem_of_singleton. by vm_compute.
Qed.

Definition s_one : kst unit := s_two <| k_freelist := pg1 |> <| k_free_pages := 1 |>.

Lemma allocator_partition_witness :
  client_step kend_ex (s_two, []) (s_one, [pg2]) ∧ partition kend_ex [pg2; pg1] (s_one, [pg2]).
Proof.
  assert (Hst : client_step kend_ex (s_two, []) (s_one, [pg2])).
  { apply cs_alloc; [vm_compute; reflexivity|by vm_compute]. }
  split; [exact Hst|].
  apply (allocator_partition kend_ex [pg2; pg1] (s_two, [])).
  - apply (fl_nodup _ _ _ freelist_two).
  - apply (fl_pages _ _ _ freelist_two).
  - exists [pg2; pg1]. split; [apply freelist_two|reflexivity].
  - eapply rtc_once, Hst.
Defined.

Lemma kfree_kalloc_roundtrip_witness :
  ∃ s', (kfree kend_ex pg2 ;; kalloc) (s_two <| k_freelist := pg1 |>) = Ok pg2 s'.
Proof.
  destruct (kfree_kalloc_roundtrip kend_ex pg2 (s_two <| k_freelist := pg1 |>) [pg1]) as (s' & H & _).
  - split; [split; reflexivity| | |reflexivity].
    + repeat constructor; apply page_ok_ex; auto.
    + apply NoDup_singleton.
  - apply page_ok_ex. auto.
  - rewrite list_elem_of_singleton. by vm_compute.
  - exists s'. exact H.
Defined.

Lemma kinit_all_pages_witness :
  ∃ s', (kinit1 kend_ex 10 kend_ex pg2 ;; kinit2 kend_ex 10 pg2 (KERNBASE + PHYSTOP)) (kst0 ()) = Ok tt s' ∧
    k_free_pages s' = 2.
Proof.
  destruct (kinit_all_pages kend_ex 10 (kst0 ()) pg2) as (s' & H & _ & Hn & _); try reflexivity.
  - unfold kend_ex, pg1, pg2. klia.
  - apply Nat.ltb_lt. vm_compute. reflexivity.
  - exists s'. split; [exact H|]. rewrite Hn. vm_compute. reflexivity.
Defined.

Lemma free_counter_drifts_witness :
  ∃ s', kalloc_times 3 (kst0 ()) = Ok tt s' ∧ k_free_pages s' = -3.
Proof.
  destruct (free_counter_drifts kend_ex 3 (kst0 ())) as (s' & H & _ & Hn).
  - split; [reflexivity|constructor|constructor|reflexivity].
  - exists s'. split; [exact H|]. rewrite Hn. reflexivity.
Defined.

(** One page was taken from the boot-time list before [kinit2]. *)
Lemma kinit2_recount_witness :
  ∃ s' l', kinit2 kend_ex 10 pg2 (KERNBASE + PHYSTOP) (kst0 ()) = Ok tt s' ∧
    freelist_is kend_ex s' l' ∧ k_free_pages s' - Z.of_nat (length l') = 1.
Proof.
  destruct (kinit2_recount kend_ex 10 (kst0 ()) pg2 []) as (s' & l' & H & Hl & Hn); try reflexivity.
  - unfold kend_ex, pg1, pg2. klia.
  - apply Nat.ltb_lt. vm_compute. reflexivity.
  - split; [reflexivity|constructor|constructor|reflexivity].
  - intros x Hx. by apply not_elem_of_nil in Hx.
  - exists s', l'. split; [exact H|]. split; [exact Hl|]. rewrite Hn. vm_compute. reflexivity.
Defined.

End KallocExamples.
