(* ===== verification/Swap.v ===== *)
(** Paging metadata and page replacement: [src/swap.c].

    Functions that touch only the process structure are in [M proc]; those
    that also read page-table entries or the swap file are in [M (kst F)].
    An [#ifdef] on the replacement policy is a test of the section variable
    [SELECTION].  An array index out of range is [UB], a null [page_meta*]
    of the queue is [None]. *)

From S2P Require Import Prelude Memory Machine Kalloc.
From stdpp Require Import options.

Module Swap.

Definition TAKEN_OFFSET := -1.
Definition FREE_SLOT := 0.

(** [for(i = 0; i < n; ++i) if(f(a[i])) return i; return -1;] *)
Fixpoint scan_from {A} (f : A → bool) (l : list A) (i : Z) : Z :=
  match l with
  | [] => -1
  | x :: l => if f x then i else scan_from f l (i + 1)
  end.
Definition scan {A} (f : A → bool) (l : list A) : Z := scan_from f l 0.

(** The 32 characters [printbits] prints: [output[i]] for [i] from 31 down. *)
Fixpoint printbits_loop (n : nat) (bits : Z) (output : list Z) : list Z :=
  match n with
  | O => output
  | S n => printbits_loop n (bits / 2) (<[n := if bits mod 2 =? 0 then 48 else 49]> output)
  end.
Definition printbits_output (bits : Z) : list Z := printbits_loop 32 bits (replicate 32 0).

(** ** Swap-file offsets and the page table of a process *)

Definition get_offset : M proc Z :=
  p <- get ;;
  let i := scan (λ o, negb (o =? TAKEN_OFFSET)) (p_offsets p) in
  if i =? -1 then panic "swap file" else
  ans <- of_option "offsets[] index" (aget (p_offsets p) i) ;;
  modify (λ p, p <| p_offsets := aset (p_offsets p) i TAKEN_OFFSET |>) ;;
  ret ans.

Definition free_offset (offset : Z) : M proc unit :=
  p <- get ;;
  let i := scan (λ o, o =? TAKEN_OFFSET) (p_offsets p) in
  if i =? -1 then panic "swap file" else
  modify (λ p, p <| p_offsets := aset (p_offsets p) i offset |>).

Definition find_page_ind (p : proc) (page : Z) : Z :=
  scan (λ x, (pm_pte x =? page) && pm_taken x) (p_pages p).

Definition find_free_slot (p : proc) : Z := scan (λ x, negb (pm_taken x)) (p_pages p).

(** ** The advancing queue *)

Definition isEmpty (q : pageQueue) : bool := q_size q =? 0.

Definition initQueue : M proc unit :=
  modify (λ p, p <| p_page_queue := PageQueue (replicate (Z.to_nat MAX_TOTAL_PAGES) None) 0 0 0 |>).

(** Pointers into [src->pages] become pointers to the same index of [dst->pages]. *)
Definition copyQueue (src : pageQueue) : pageQueue :=
  PageQueue ((λ e, match e with None => None | Some i => Some i end) <$> q_arr src)
    (q_start src) (q_end src) (q_size src).

Definition enqueue (page : Z) : M proc Z :=
  p <- get ;;
  let q := p_page_queue p in
  if q_size q =? MAX_TOTAL_PAGES then ret (-1) else
  let next := (q_end q + 1) `rem` MAX_TOTAL_PAGES in
  let ans := q_end q in
  _ <- of_option "queue->arr[] index" (aget (q_arr q) ans) ;;
  modify (λ p, p <| p_page_queue := q <| q_arr := aset (q_arr q) ans (Some page) |> |>) ;;
  mod_page page (λ x, x <| pm_queue_location := ans |>) ;;
  modify (λ p, p <| p_page_queue ::= λ q, q <| q_end := next |> <| q_size ::= λ n, n + 1 |> |>) ;;
  ret ans.

(** [while(!ans){ start = (start+1) % MAX_TOTAL_PAGES; ans = arr[start]; }] *)
Definition dequeue_seek (fuel : nat) : M proc Z :=
  loop fuel (λ _ : unit,
    p <- get ;;
    let q := p_page_queue p in
    ans <- of_option "queue->arr[] index" (aget (q_arr q) (q_start q)) ;;
    match ans with
    | Some page => ret (inr page)
    | None =>
        modify (λ p, p <| p_page_queue ::= λ q, q <| q_start ::= λ st, (st + 1) `rem` MAX_TOTAL_PAGES |> |>) ;;
        ret (inl tt)
    end) tt.

(** One turn more than the array has slots. *)
Definition queue_fuel : nat := S (Z.to_nat MAX_TOTAL_PAGES).

Definition dequeue : M proc (option Z) :=
  p <- get ;;
  if isEmpty (p_page_queue p) then ret None else
  page <- dequeue_seek queue_fuel ;;
  modify (λ p, p <| p_page_queue ::= λ q, q <| q_arr := aset (q_arr q) (q_start q) None |>
                      <| q_start := (q_start q + 1) `rem` MAX_TOTAL_PAGES |> <| q_size ::= λ n, n - 1 |> |>) ;;
  mod_page page (λ x, x <| pm_queue_location := -1 |>) ;;
  ret (Some page).

(** The search of [advancePage] from [secInd]: the slot found, or [None] when
    the function returns from inside the loop. *)
Definition advance_seek (fuel : nat) (secInd : Z) : M proc (option Z) :=
  loop fuel (λ secInd,
    p <- get ;;
    let q := p_page_queue p in
    e <- of_option "queue->arr[] index" (aget (q_arr q) secInd) ;;
    match e with
    | Some _ => ret (inr (Some secInd))
    | None =>
        let secInd := (secInd + 1) `rem` MAX_TOTAL_PAGES in
        if secInd =? q_end q then ret (inr None) else ret (inl secInd)
    end) secInd.

Definition advancePage (page : Z) : M proc unit :=
  x <- page_at page ;;
  let ind := pm_queue_location x in
  if ind =? -1 then skip else
  r <- advance_seek queue_fuel ((ind + 1) `rem` MAX_TOTAL_PAGES) ;;
  match r with
  | None => skip
  | Some secInd =>
      p <- get ;;
      let q := p_page_queue p in
      if secInd =? q_end q then skip else
      a <- of_option "queue->arr[] index" (aget (q_arr q) ind) ;;
      e <- of_option "queue->arr[] index" (aget (q_arr q) secInd) ;;
      tmp <- of_option "tmp->queue_location" e ;;
      modify (λ p, p <| p_page_queue := q <| q_arr := aset (aset (q_arr q) secInd a) ind e |> |>) ;;
      mod_page page (λ x, x <| pm_queue_location := secInd |>) ;;
      mod_page tmp (λ x, x <| pm_queue_location := ind |>)
  end.

(** ** Aging counters *)

(** [num_of_ones]: at most 32 turns for a 32-bit word. *)
Fixpoint ones_loop (fuel : nat) (c ans : Z) : Z :=
  match fuel with
  | O => ans
  | S fuel => if c =? 0 then ans
              else ones_loop fuel (c / 2) (if c mod 2 =? 0 then ans else ans + 1)
  end.
Definition num_of_ones (c : Z) : Z := ones_loop 32 c 0.

(** The scan of [get_page_to_swap] under NFUA, with [best] and [selected]. *)
Fixpoint nfua_scan (l : list page_meta) (i best selected : Z) : Z :=
  match l with
  | [] => selected
  | x :: l =>
      if pm_taken x && pm_on_phys x then
        let curr := pm_counter x in
        if curr <? best then nfua_scan l (i + 1) curr i else nfua_scan l (i + 1) best selected
      else nfua_scan l (i + 1) best selected
  end.

(** The same under LAPA; [pages] is the whole array, for [pages[selected]]. *)
Fixpoint lapa_scan (pages l : list page_meta) (i best selected : Z) : Z :=
  match l with
  | [] => selected
  | x :: l =>
      if pm_taken x && pm_on_phys x then
        let curr := num_of_ones (pm_counter x) in
        if (curr <? best) ||
           ((curr =? best) && match aget pages selected with
                              | Some y => pm_counter x <? pm_counter y
                              | None => false
                              end)
        then lapa_scan pages l (i + 1) curr i
        else lapa_scan pages l (i + 1) best selected
      else lapa_scan pages l (i + 1) best selected
  end.

Definition UINT_MAX := 0xFFFFFFFF.

(** ** Initialization, addition and removal of pages *)

Section policy.
Context (SELECTION : policy).

Definition init_page_meta : M proc Z :=
  modify (λ p, p <| p_num_of_pages := 0 |> <| p_phys_pages := 0 |>
                 <| p_pgflt_count := 0 |> <| p_pgout_count := 0 |>) ;;
  (if decide (SELECTION = SCFIFO) then modify (λ p, p <| p_headp := -1 |>) else skip) ;;
  if decide (SELECTION = NONE) then ret 0 else
  modify (λ p, p <| p_pages ::= fmap (λ x : page_meta,
    let x := x <| pm_pte := FREE_SLOT |> <| pm_taken := false |> <| pm_offset := -1 |> <| pm_on_phys := false |> in
    match SELECTION with
    | SCFIFO => x <| pm_nextp := -1 |> <| pm_prevp := -1 |>
    | AQ => x <| pm_queue_location := -1 |>
    | _ => x
    end) |>) ;;
  modify (λ p, p <| p_offsets := (λ i, Z.of_nat i * PGSIZE) <$> seq 0 (Z.to_nat MAX_SWAP_FILE_SZ) |>) ;;
  (if decide (SELECTION = AQ) then initQueue else skip) ;;
  ret 0.

(** Insertion of [ind] before the head of the ring (SCFIFO). *)
Definition scfifo_append (ind : Z) : M proc unit :=
  p <- get ;;
  mod_page ind (λ x, x <| pm_nextp := p_headp p |>) ;;
  h <- page_at (p_headp p) ;;
  mod_page ind (λ x, x <| pm_prevp := pm_prevp h |>) ;;
  mod_page (p_headp p) (λ x, x <| pm_prevp := ind |>) ;;
  x <- page_at ind ;;
  mod_page (pm_prevp x) (λ x, x <| pm_nextp := ind |>).

(** What [add_page] does for the policy, after the entry is filled. *)
Definition add_policy (ind : Z) : M proc unit :=
  match SELECTION with
  | NFUA => mod_page ind (λ x, x <| pm_counter := 0 |>)
  | LAPA => mod_page ind (λ x, x <| pm_counter := UINT_MAX |>)
  | AQ => enqueue ind ;; skip
  | SCFIFO =>
      p <- get ;;
      if p_headp p =? -1 then
        modify (λ p, p <| p_headp := ind |>) ;;
        mod_page ind (λ x, x <| pm_prevp := ind |> <| pm_nextp := ind |>)
      else scfifo_append ind
  | NONE => skip
  end.

(** [add_page(p, page, va)] when [p] is the running process, as in every call. *)
Definition add_page (page va : Z) : M proc Z :=
  modify (λ p, p <| p_num_of_pages ::= λ n, u32 (n + 1) |> <| p_phys_pages ::= λ n, u32 (n + 1) |>) ;;
  if decide (SELECTION = NONE) then ret 1 else
  p <- get ;;
  if p_ignorePaging p then ret 1 else
  let ind := find_free_slot p in
  if ind =? -1 then ret 0 else
  mod_page ind (λ x, x <| pm_pte := page |> <| pm_taken := true |> <| pm_on_phys := true |> <| pm_va := va |>) ;;
  add_policy ind ;;
  ret 1.

(** [remove_page]: the page leaves the ring (SCFIFO). *)
Definition scfifo_remove (ind : Z) : M proc unit :=
  x <- page_at ind ;;
  (if pm_on_phys x then
     mod_page (pm_prevp x) (λ y, y <| pm_nextp := pm_nextp x |>) ;;
     x <- page_at ind ;;
     mod_page (pm_nextp x) (λ y, y <| pm_prevp := pm_prevp x |>)
   else skip) ;;
  p <- get ;;
  if p_headp p =? ind then
    x <- page_at ind ;;
    modify (λ p, p <| p_headp := if pm_nextp x =? ind then -1 else pm_nextp x |>)
  else skip.

(** [remove_page]: the page's slot of the queue is cleared (AQ). *)
Definition queue_remove (ind : Z) : M proc unit :=
  x <- page_at ind ;;
  let queue_ind := pm_queue_location x in
  if pm_on_phys x then
    mod_page ind (λ x, x <| pm_queue_location := -1 |>) ;;
    p <- get ;;
    _ <- of_option "queue->arr[] index" (aget (q_arr (p_page_queue p)) queue_ind) ;;
    modify (λ p, p <| p_page_queue ::= λ q, q <| q_arr := aset (q_arr q) queue_ind None |> <| q_size ::= λ n, n - 1 |> |>)
  else skip.

Definition remove_policy (ind : Z) : M proc unit :=
  match SELECTION with
  | SCFIFO => scfifo_remove ind
  | AQ => queue_remove ind
  | _ => skip
  end.

(** [remove_page(page)] on the running process. *)
Definition remove_page (page : Z) : M proc Z :=
  p <- get ;;
  if p_ignorePaging p then
    modify (λ p, p <| p_num_of_pages ::= λ n, u32 (n - 1) |> <| p_phys_pages ::= λ n, u32 (n - 1) |>) ;;
    ret 1
  else if decide (SELECTION = NONE) then ret 1 else
  let ind := find_page_ind p page in
  if ind =? -1 then ret 0 else
  modify (λ p, p <| p_num_of_pages ::= λ n, u32 (n - 1) |>) ;;
  x <- page_at ind ;;
  (if pm_on_phys x then modify (λ p, p <| p_phys_pages ::= λ n, u32 (n - 1) |>) else skip) ;;
  mod_page ind (λ x, x <| pm_taken := false |> <| pm_pte := 0 |>) ;;
  remove_policy ind ;;
  mod_page ind (λ x, x <| pm_on_phys := false |>) ;;
  (match SELECTION with
   | NFUA | LAPA => mod_page ind (λ x, x <| pm_counter := 0 |>)
   | _ => skip
   end) ;;
  x <- page_at ind ;;
  (if negb (pm_offset x =? -1) then
     free_offset (pm_offset x) ;;
     mod_page ind (λ x, x <| pm_offset := -1 |>)
   else skip) ;;
  ret 1.

(** ** Swapping pages out and in *)

Section kernel.
Context {F : Type} `{!FileSys F} (kend : Z).
Implicit Types s : kst F.

Definition printbits (addr : Z) : M (kst F) unit :=
  bits <- ld32 addr ;;
  cprintf "%s\n" [AS (printbits_output bits)].

Definition writeToSwapFile (pi : nat) (buffer placeOnFile size : Z) : M (kst F) Z :=
  p <- getp pi ;;
  f <- of_option "p->swapFile is null" (p_swapFile p) ;;
  bs <- gets (λ s, bytes_at (k_mem s) buffer (Z.to_nat size)) ;;
  fs_call (fs_setoff f placeOnFile ;; fs_filewrite f bs).

Definition readFromSwapFile (pi : nat) (buffer placeOnFile size : Z) : M (kst F) Z :=
  p <- getp pi ;;
  f <- of_option "p->swapFile is null" (p_swapFile p) ;;
  r <- fs_call (fs_setoff f placeOnFile ;; fs_fileread f size) ;;
  modify (λ s, s <| k_mem ::= λ m, store_bytes m buffer r.2 |>) ;;
  ret r.1.

(** The second-chance loop; it goes round the ring at most once. *)
Definition scfifo_loop (fuel : nat) (pi : nat) (headInd currInd : Z) : M (kst F) Z :=
  loop fuel (λ currInd,
    currPage <- on_proc pi (page_at currInd) ;;
    if negb (pm_on_phys currPage) then panic "page on phys" else
    pte <- ld32 (pm_pte currPage) ;;
    if pte_has pte PTE_A then
      st32 (pm_pte currPage) (pte_clr pte PTE_A) ;;
      let currInd := pm_nextp currPage in
      if currInd =? headInd then ret (inr headInd) else ret (inl currInd)
    else ret (inr currInd)) currInd.

Definition scfifo_fuel : nat := S (Z.to_nat MAX_TOTAL_PAGES).

Definition get_page_to_swap : M (kst F) Z :=
  pi <- myproc ;;
  p <- getp pi ;;
  match SELECTION with
  | NONE => ret (-1)
  | AQ => page <- on_proc pi dequeue ;; of_option "page - p->pages of a null page" page
  | NFUA => ret (nfua_scan (p_pages p) 0 UINT_MAX (-1))
  | LAPA => ret (lapa_scan (p_pages p) (p_pages p) 0 UINT_MAX (-1))
  | SCFIFO => scfifo_loop scfifo_fuel pi (p_headp p) (p_headp p)
  end.

(** One turn of [copy_swap_file] per page of the file. *)
Definition copy_swap_file (fuel : nat) (dst src : nat) : M (kst F) unit :=
  ps <- getp src ;;
  let file_size := p_file_size ps in
  buffer <- Kalloc.kalloc ;;
  loop fuel (λ i,
    if i <? file_size then
      let size := if file_size - i <? PGSIZE then file_size - i else PGSIZE in
      readFromSwapFile src buffer i size ;;
      writeToSwapFile dst buffer i size ;;
      ret (inl (i + PGSIZE))
    else ret (inr tt)) 0 ;;
  Kalloc.kfree kend buffer ;;
  modp dst (λ p, p <| p_file_size := file_size |>).

(** The metadata updates of [swap_to_file], before the entry is changed. *)
Definition swap_out_meta (ind page offset : Z) : M proc unit :=
  mod_page ind (λ x, x <| pm_pte := page |> <| pm_offset := offset |> <| pm_on_phys := false |>) ;;
  modify (λ p, if p_file_size p <? offset + PGSIZE then p <| p_file_size := offset + PGSIZE |> else p).

(** The end of [swap_to_file]: the page leaves the ring (SCFIFO). *)
Definition scfifo_unlink (ind : Z) : M proc unit :=
  x <- page_at ind ;;
  mod_page (pm_nextp x) (λ y, y <| pm_prevp := pm_prevp x |>) ;;
  x <- page_at ind ;;
  mod_page (pm_prevp x) (λ y, y <| pm_nextp := pm_nextp x |>) ;;
  p <- get ;;
  if p_headp p =? ind then
    x <- page_at ind ;;
    modify (λ p, p <| p_headp := if ind =? pm_nextp x then -1 else pm_nextp x |>) ;;
    mod_page ind (λ x, x <| pm_nextp := -1 |> <| pm_prevp := -1 |>)
  else skip.

Definition swap_to_file (page : Z) : M (kst F) Z :=
  pi <- myproc ;;
  p <- getp pi ;;
  let ind := find_page_ind p page in
  offset <- on_proc pi get_offset ;;
  pte <- ld32 page ;;
  let va := P2V (PTE_ADDR pte) in
  writeToSwapFile pi va offset PGSIZE ;;
  on_proc pi (swap_out_meta ind page offset) ;;
  pte <- ld32 page ;;
  st32 page (pte_clr pte PTE_P) ;;
  pte <- ld32 page ;;
  st32 page (pte_set pte PTE_PG) ;;
  modp pi (λ p, p <| p_phys_pages ::= λ n, u32 (n - 1) |>) ;;
  (if decide (SELECTION = SCFIFO) then on_proc pi (scfifo_unlink ind) else skip) ;;
  ret 1.

(** The end of [swap_from_file]: the page rejoins the policy's structure. *)
Definition swap_in_policy (ind : Z) : M proc unit :=
  match SELECTION with
  | NFUA => mod_page ind (λ x, x <| pm_counter := 0x80000000 |>)
  | LAPA => mod_page ind (λ x, x <| pm_counter := UINT_MAX |>)
  | SCFIFO => scfifo_append ind
  | AQ => enqueue ind ;; skip
  | NONE => skip
  end.

Definition swap_from_file (page : Z) : M (kst F) Z :=
  pi <- myproc ;;
  p <- getp pi ;;
  let ind := find_page_ind p page in
  pte <- ld32 page ;;
  let addr := PTE_ADDR pte in
  x <- on_proc pi (page_at ind) ;;
  let offset := pm_offset x in
  on_proc pi (mod_page ind (λ x, x <| pm_offset := -1 |>)) ;;
  readFromSwapFile pi (P2V addr) offset PGSIZE ;;
  on_proc pi (free_offset offset) ;;
  pte <- ld32 page ;;
  st32 page (pte_set pte PTE_P) ;;
  pte <- ld32 page ;;
  st32 page (pte_clr pte PTE_PG) ;;
  on_proc pi (mod_page ind (λ x, x <| pm_on_phys := true |>)) ;;
  on_proc pi (swap_in_policy ind) ;;
  modp pi (λ p, p <| p_phys_pages ::= λ n, u32 (n + 1) |>) ;;
  ret 1.

(** One turn of [updatePagesCounter]. *)
Definition update_page (pi : nat) (i : Z) : M (kst F) unit :=
  x <- on_proc pi (page_at i) ;;
  if pm_taken x && pm_on_phys x then
    if decide (SELECTION = AQ) then
      pte <- ld32 (pm_pte x) ;;
      if pte_has pte PTE_A then
        on_proc pi (advancePage i) ;;
        st32 (pm_pte x) (pte_clr pte PTE_A)
      else skip
    else
      on_proc pi (mod_page i (λ x, x <| pm_counter ::= λ c, Z.shiftr c 1 |>)) ;;
      pte <- ld32 (pm_pte x) ;;
      if pte_has pte PTE_A then
        on_proc pi (mod_page i (λ x, x <| pm_counter ::= λ c, Z.lor c 0x80000000 |>)) ;;
        st32 (pm_pte x) (pte_clr pte PTE_A)
      else skip
  else skip.

Definition updatePagesCounter : M (kst F) unit :=
  c <- gets k_cur ;;
  match c with
  | None => skip
  | Some pi => for_all (Z.to_nat MAX_TOTAL_PAGES) 0 (update_page pi)
  end.

(** [printQueue]: the do-while loop dereferences every slot it passes. *)
Definition printQueue (fuel : nat) (q : pageQueue) (pages : list page_meta) : M (kst F) unit :=
  cprintf "queue size:%d\nfirst:%d\nlast:%d\n" (ints [q_size q; q_start q; q_end q]) ;;
  if q_size q =? 0 then skip else
  loop fuel (λ curr,
    e <- of_option "queue->arr[] index" (aget (q_arr q) curr) ;;
    page <- of_option "queue->arr[curr]->queue_location of a null page" e ;;
    x <- of_option "pages[] index" (aget pages page) ;;
    cprintf "arr[%d] = %p \tpage ind:%d queue ind:%d\n" (ints [curr; page; page; pm_queue_location x]) ;;
    let curr := (curr + 1) `rem` MAX_TOTAL_PAGES in
    if curr =? q_end q then ret (inr tt) else ret (inl curr)) (q_start q) ;;
  cprintf "-----------------------\n" [].

End kernel.
End policy.
End Swap.
