(* ===== verification/SwapInv.v ===== *)
(** The bookkeeping invariant of the paging metadata, under every policy.

    [meta_ok p] states that the metadata array and the swap-offset pool of a
    process are consistent: a swapped-out page owns exactly one page-sized
    slot of the swap file, every slot is either owned or in the pool, and the
    two page counters count the entries.  Each operation of swap.c preserves
    it; the policy-specific fields (queue, ring, counters) do not matter for
    it ([core_same]). *)

From S2P Require Import Prelude Memory Machine Kalloc Swap.
From stdpp Require Import options.
Import Swap.

(** ** The scanning loops *)

Lemma scan_from_spec {A} (f : A → bool) l i :
  0 ≤ i →
  (scan_from f l i = -1 ∧ Forall (λ x, f x = false) l) ∨
  (∃ l1 x l2, l = l1 ++ x :: l2 ∧ Forall (λ y, f y = false) l1 ∧ f x = true ∧
     scan_from f l i = i + Z.of_nat (length l1)).
Proof.
  revert i. induction l as [|x l IH]; intros i Hi; simpl; [left; by split|].
  destruct (f x) eqn:Hx.
  - right. exists [], x, l. simpl. split_and!; try done. lia.
  - destruct (IH (i + 1) ltac:(lia)) as [[-> Hl]|(l1 & y & l2 & -> & H1 & Hy & ->)].
    + left. split; [done|]. by constructor.
    + right. exists (x :: l1), y, l2. simpl. split_and!; try done; [by constructor|lia].
Qed.

Lemma scan_neg {A} (f : A → bool) l : scan f l = -1 ↔ Forall (λ x, f x = false) l.
Proof.
  unfold scan. destruct (scan_from_spec f l 0 ltac:(lia)) as [[-> Hl]|(l1 & x & l2 & -> & H1 & Hx & ->)].
  - done.
  - split; [lia|]. rewrite Forall_app, Forall_cons. intros (_ & ? & _). congruence.
Qed.

Lemma scan_pos {A} (f : A → bool) l :
  scan f l ≠ -1 →
  ∃ x, aget l (scan f l) = Some x ∧ f x = true ∧
    ∀ j y, 0 ≤ j < scan f l → aget l j = Some y → f y = false.
Proof.
  unfold scan. destruct (scan_from_spec f l 0 ltac:(lia)) as [[-> _]|(l1 & x & l2 & -> & H1 & Hx & ->)]; [done|].
  intros _. exists x. rewrite Z.add_0_l. split_and!; [|done|].
  - rewrite aget_nat. by apply list_lookup_middle.
  - intros j y Hj Hy. unfold aget in Hy. destruct (Z.ltb_spec j 0); [lia|].
    rewrite lookup_app_l in Hy by lia. rewrite Forall_lookup in H1. eauto.
Qed.

Lemma scan_exists {A} (f : A → bool) l i x : aget l i = Some x → f x = true → scan f l ≠ -1.
Proof.
  intros Hx Hf Hs. apply scan_neg in Hs. rewrite Forall_lookup in Hs.
  unfold aget in Hx. destruct (i <? 0); [done|]. by rewrite (Hs _ _ Hx) in Hf.
Qed.

(** ** The invariant *)

Definition resident (x : page_meta) : bool := pm_taken x && pm_on_phys x.
Definition swapped (x : page_meta) : bool := pm_taken x && negb (pm_on_phys x).

(** A taken page owns a slot exactly when it is not in memory; a free entry
    owns none. *)
Definition entry_ok (x : page_meta) : Prop :=
  if pm_taken x then pm_on_phys x = true ↔ pm_offset x = -1
  else pm_on_phys x = false ∧ pm_offset x = -1.

Definition pos_offset (o : Z) : option Z := if o =? -1 then None else Some o.
Definition free_offs (offs : list Z) : list Z := omap pos_offset offs.
Definition used_offs (ps : list page_meta) : list Z := omap (λ x, pos_offset (pm_offset x)) ps.
Definition taken_ptes (ps : list page_meta) : list Z :=
  omap (λ x, if pm_taken x then Some (pm_pte x) else None) ps.

(** The slots of a swap file. *)
Definition slots : list Z := (λ i, Z.of_nat i * PGSIZE) <$> seq 0 (Z.to_nat MAX_SWAP_FILE_SZ).

Record meta_ok (p : proc) : Prop := {
  mo_len : length (p_pages p) = Z.to_nat MAX_TOTAL_PAGES;
  mo_olen : length (p_offsets p) = Z.to_nat MAX_SWAP_FILE_SZ;
  mo_entry : Forall entry_ok (p_pages p);
  mo_slots : free_offs (p_offsets p) ++ used_offs (p_pages p) ≡ₚ slots;
  mo_ptes : NoDup (taken_ptes (p_pages p));
  mo_num : p_num_of_pages p = cnt pm_taken (p_pages p);
  mo_phys : p_phys_pages p = cnt resident (p_pages p);
}.

Lemma NoDup_slots : NoDup slots.
Proof.
  apply NoDup_fmap_2, NoDup_ListNoDup, seq_NoDup. intros i j Hij. klia.
Qed.

Lemma length_slots : Z.of_nat (length slots) = MAX_SWAP_FILE_SZ.
Proof. reflexivity. Qed.

Lemma slots_elem o : o ∈ slots ↔ ∃ k, 0 ≤ k < MAX_SWAP_FILE_SZ ∧ o = k * PGSIZE.
Proof.
  unfold slots. rewrite list_elem_of_fmap. split.
  - intros (i & -> & Hi). apply elem_of_seq in Hi. exists (Z.of_nat i). klia.
  - intros (k & Hk & ->). exists (Z.to_nat k). rewrite Z2Nat.id by lia. split; [done|].
    apply elem_of_seq. klia.
Qed.

(** The fields the invariant depends on. *)
Definition core (x : page_meta) := (pm_pte x, pm_offset x, pm_on_phys x, pm_taken x).

Record core_same (p p' : proc) : Prop := {
  cs_pages : core <$> p_pages p' = core <$> p_pages p;
  cs_offs : p_offsets p' = p_offsets p;
  cs_num : p_num_of_pages p' = p_num_of_pages p;
  cs_phys : p_phys_pages p' = p_phys_pages p;
}.

#[global] Instance core_same_refl : Reflexive core_same.
Proof. by split. Qed.

#[global] Instance core_same_trans : Transitive core_same.
Proof. intros x y z [] []. split; congruence. Qed.

(** Any function of the core fields is determined by them. *)
Lemma core_fields x y :
  core x = core y →
  pm_pte x = pm_pte y ∧ pm_offset x = pm_offset y ∧ pm_on_phys x = pm_on_phys y ∧ pm_taken x = pm_taken y.
Proof. unfold core. by intros [= -> -> -> ->]. Qed.

Lemma core_omap {B} (f : page_meta → option B) (l l' : list page_meta) :
  (∀ x y, core x = core y → f x = f y) → core <$> l = core <$> l' → omap f l = omap f l'.
Proof.
  intros Hf. revert l'. induction l as [|x l IH]; intros [|y l'] He; try discriminate He; [done|].
  rewrite !fmap_cons in He. apply (inj2 cons) in He as [Hxy He]. csimpl.
  rewrite (Hf x y) by done. by rewrite (IH l' He).
Qed.

Lemma core_cnt (f : page_meta → bool) (l l' : list page_meta) :
  (∀ x y, core x = core y → f x = f y) → core <$> l = core <$> l' → cnt f l = cnt f l'.
Proof.
  intros Hf. revert l'. induction l as [|x l IH]; intros [|y l'] He; try discriminate He; [done|].
  rewrite !fmap_cons in He. apply (inj2 cons) in He as [Hxy He]. simpl.
  rewrite (Hf x y), (IH l') by done. done.
Qed.

Lemma core_Forall (P : page_meta → Prop) (l l' : list page_meta) :
  (∀ x y, core x = core y → P x → P y) → core <$> l = core <$> l' → Forall P l → Forall P l'.
Proof.
  intros Hf. revert l'. induction l as [|x l IH]; intros [|y l'] He; try discriminate He; [done|].
  rewrite !fmap_cons in He. apply (inj2 cons) in He as [Hxy He]. rewrite !Forall_cons. intros [Hx Hl].
  split; [by apply (Hf x)|by apply IH].
Qed.

Lemma meta_ok_core p p' : meta_ok p → core_same p p' → meta_ok p'.
Proof.
  intros [H1 H2 H3 H4 H5 H6 H7] [Hc Ho Hn Hp]. split.
  - rewrite <-(length_fmap core (p_pages p')), Hc, length_fmap. done.
  - by rewrite Ho.
  - eapply core_Forall; [|by symmetry|done]. intros x y (? & E1 & E2 & E3)%core_fields.
    unfold entry_ok. by rewrite E1, E2, E3.
  - rewrite Ho. rewrite <-H4. apply Permutation_app_head. unfold used_offs.
    rewrite (core_omap _ (p_pages p') (p_pages p)); [done| |done].
    by intros x y (? & -> & _)%core_fields.
  - unfold taken_ptes. rewrite (core_omap _ (p_pages p') (p_pages p)); [done| |done].
    by intros x y (-> & _ & _ & ->)%core_fields.
  - rewrite Hn, H6. apply core_cnt; [|done]. by intros x y (_ & _ & _ & ->)%core_fields.
  - rewrite Hp, H7. apply core_cnt; [|done]. unfold resident. by intros x y (_ & _ & -> & ->)%core_fields.
Qed.

Lemma core_aset l j x y :
  aget l j = Some x → core y = core x → core <$> aset l j y = core <$> l.
Proof.
  intros Hx Hy. destruct (aset_split l j x Hx) as (l1 & l2 & -> & _ & ->).
  by rewrite !fmap_app, !fmap_cons, Hy.
Qed.

(** *** Policy operations leave the core alone *)

Lemma mod_page_core j f p :
  (∀ x, core (f x) = core x) → wlp (mod_page j f) (λ _ p', core_same p p') p.
Proof.
  intros Hf. apply wlp_mod_page. intros x Hx. split; simpl; try done. by eapply core_aset.
Qed.

(** Sequencing: each step relates its result to the original state. *)
Lemma core_bind {A B} (m : M proc A) (k : A → M proc B) p0 p :
  core_same p0 p →
  wlp m (λ _ p', core_same p p') p →
  (∀ a p', core_same p0 p' → wlp (k a) (λ _ p'', core_same p0 p'') p') →
  wlp (bind m k) (λ _ p'', core_same p0 p'') p.
Proof.
  intros H0 Hm Hk. apply wlp_bind. eapply wlp_mono; [apply Hm|]. intros a p' Hp'. apply Hk.
  by transitivity p.
Qed.

Lemma modify_core f p0 p :
  core_same p0 p → core_same p (f p) → wlp (modify f) (λ _ p', core_same p0 p') p.
Proof. intros H0 Hf. apply wlp_modify. by transitivity p. Qed.

(** Steps of a policy operation. *)
Ltac core1 :=
  first
    [ apply mod_page_core; intros; reflexivity
    | apply wlp_modify; split; reflexivity
    | apply wlp_get; reflexivity
    | apply wlp_of_option; intros ? ?; reflexivity
    | apply wlp_page_at; intros ? ?; reflexivity
    | apply wlp_ret; reflexivity ].
Ltac core_tac :=
  repeat first
    [ assumption
    | lazymatch goal with
      | |- wlp (bind _ _) _ _ => eapply core_bind; [eassumption|core1|intros ? ? ?]
      | |- wlp (if _ then _ else _) _ _ => case_match
      | |- wlp (match _ with _ => _ end) _ _ => case_match
      | |- wlp (ret _) _ _ => apply wlp_ret
      | |- wlp skip _ _ => apply wlp_ret
      | |- wlp (mod_page _ _) _ _ =>
          eapply wlp_mono; [core1|simpl; intros ? ? ?; etransitivity; [|eassumption]; assumption]
      | |- wlp (modify _) _ _ => apply modify_core; [assumption|split; reflexivity]
      end ].

Lemma enqueue_core page p : wlp (enqueue page) (λ _ p', core_same p p') p.
Proof. assert (core_same p p) by reflexivity. unfold enqueue. core_tac. Qed.

Lemma scfifo_append_core ind p : wlp (scfifo_append ind) (λ _ p', core_same p p') p.
Proof. assert (core_same p p) by reflexivity. unfold scfifo_append. core_tac. Qed.

Lemma scfifo_unlink_core ind p : wlp (scfifo_unlink ind) (λ _ p', core_same p p') p.
Proof. assert (core_same p p) by reflexivity. unfold scfifo_unlink. core_tac. Qed.

Lemma dequeue_core p : wlp dequeue (λ _ p', core_same p p') p.
Proof.
  assert (core_same p p) by reflexivity. unfold dequeue.
  eapply core_bind; [done|core1|intros q p' ?]. case_match; [by apply wlp_ret|].
  eapply core_bind; [done| |intros ? ? ?; core_tac].
  unfold dequeue_seek. apply wlp_loop with (I := λ _ p'', core_same p' p''); [reflexivity|].
  intros _ p1 Hp1. wlp_steps; [done|]. transitivity p1; [done|]. by split.
Qed.

Lemma advancePage_core page p : wlp (advancePage page) (λ _ p', core_same p p') p.
Proof.
  assert (core_same p p) by reflexivity. unfold advancePage.
  eapply core_bind; [done|core1|intros x p' ?]. case_match; [by apply wlp_ret|].
  eapply core_bind; [done| |intros ? ? ?; core_tac].
  unfold advance_seek. apply wlp_loop with (I := λ _ p'', core_same p' p''); [reflexivity|].
  intros i p1 Hp1. wlp_steps; done.
Qed.

(** ** Offsets *)

Lemma pos_offset_Some o o' : pos_offset o = Some o' ↔ o = o' ∧ o ≠ -1.
Proof. unfold pos_offset. destruct (Z.eqb_spec o (-1)); intuition congruence. Qed.

Lemma free_offs_app l1 l2 : free_offs (l1 ++ l2) = free_offs l1 ++ free_offs l2.
Proof. apply omap_app. Qed.

Lemma free_offs_cons o l : free_offs (o :: l) = (if o =? -1 then [] else [o]) ++ free_offs l.
Proof. unfold free_offs, pos_offset. csimpl. by destruct (o =? -1). Qed.

Lemma free_offs_nil l : Forall (λ o, negb (o =? TAKEN_OFFSET) = false) l → free_offs l = [].
Proof.
  induction 1 as [|o l Ho _ IH]; [done|]. unfold free_offs in *. csimpl. rewrite IH.
  unfold pos_offset, TAKEN_OFFSET in *. apply negb_false_iff in Ho. by rewrite Ho.
Qed.

Lemma length_free_offs l : (length (free_offs l) ≤ length l)%nat.
Proof.
  induction l as [|o l IH]; [done|]. unfold free_offs in *. csimpl. destruct (pos_offset o); simpl; lia.
Qed.

Lemma free_offs_full l : Forall (λ o, (o =? TAKEN_OFFSET) = false) l → length (free_offs l) = length l.
Proof.
  induction 1 as [|o l Ho _ IH]; [done|]. unfold free_offs in *. csimpl.
  unfold pos_offset at 1. unfold TAKEN_OFFSET in Ho. rewrite Ho. simpl. by rewrite IH.
Qed.

(** [get_offset] takes the first free offset out of the pool, and panics when
    there is none. *)
Lemma get_offset_spec p :
  (free_offs (p_offsets p) = [] ∧ get_offset p = Panic "swap file") ∨
  (∃ o offs, get_offset p = Ok o (p <| p_offsets := offs |>) ∧
     free_offs (p_offsets p) = o :: free_offs offs ∧ length offs = length (p_offsets p)).
Proof.
  unfold get_offset, bind, get. simpl.
  destruct (Z.eqb_spec (scan (λ o, negb (o =? TAKEN_OFFSET)) (p_offsets p)) (-1)) as [Hs|Hs].
  - left. split; [|done]. by apply free_offs_nil, scan_neg.
  - right. destruct (scan_pos _ _ Hs) as (o & Ho & Hf & Hfst). rewrite Ho. simpl.
    exists o. eexists. split; [reflexivity|]. split; [|apply length_aset].
    destruct (aset_split _ _ _ Ho) as (l1 & l2 & Hl & Hi & ->). rewrite Hl.
    rewrite !free_offs_app. rewrite (free_offs_nil l1).
    + simpl. unfold free_offs. csimpl. apply negb_true_iff in Hf.
      unfold pos_offset at 1. unfold TAKEN_OFFSET in *. rewrite Hf. done.
    + apply Forall_lookup. intros j y Hj. apply (Hfst (Z.of_nat j)).
      * apply lookup_lt_Some in Hj. lia.
      * rewrite aget_nat, Hl. by apply lookup_app_l_Some.
Qed.

(** [free_offset] returns an offset to the pool, if an entry is free to hold it. *)
Lemma free_offset_spec offset p :
  offset ≠ -1 →
  (length (free_offs (p_offsets p)) = length (p_offsets p) ∧ free_offset offset p = Panic "swap file") ∨
  (∃ offs, free_offset offset p = Ok tt (p <| p_offsets := offs |>) ∧
     free_offs offs ≡ₚ offset :: free_offs (p_offsets p) ∧ length offs = length (p_offsets p)).
Proof.
  intros Hne. unfold free_offset, bind, get. simpl.
  destruct (Z.eqb_spec (scan (λ o, o =? TAKEN_OFFSET) (p_offsets p)) (-1)) as [Hs|Hs].
  - left. split; [|done]. by apply free_offs_full, scan_neg.
  - right. destruct (scan_pos _ _ Hs) as (o & Ho & Hf & _). eexists. split; [reflexivity|].
    split; [|apply length_aset].
    destruct (aset_split _ _ _ Ho) as (l1 & l2 & Hl & _ & ->). rewrite Hl, !free_offs_app, !free_offs_cons.
    unfold TAKEN_OFFSET in Hf. rewrite Hf, (proj2 (Z.eqb_neq _ _) Hne). simpl.
    symmetry. apply Permutation_middle.
Qed.

(** The pool of a swap file that has grown to [m] pages: the entries below
    [m] are taken or hold slots of the file, the others are as they were
    initialized. *)
Definition pool_ok (m : Z) (offs : list Z) : Prop :=
  0 ≤ m ∧ ∀ i o, aget offs i = Some o →
    (i < m → o = TAKEN_OFFSET ∨ o + PGSIZE ≤ m * PGSIZE) ∧ (m ≤ i → o = i * PGSIZE).

Lemma pool_ok_aset m offs i o :
  pool_ok m offs → 0 ≤ i < m → o = TAKEN_OFFSET ∨ o + PGSIZE ≤ m * PGSIZE → pool_ok m (aset offs i o).
Proof.
  intros [Hm H] Hi Ho. split; [done|]. intros j x Hx. destruct (decide (i = j)) as [->|Hne].
  - pose proof (aget_Some_range _ _ _ Hx) as Hr. rewrite length_aset in Hr. rewrite aget_aset_eq in Hx by done.
    injection Hx as <-. split; [done|lia].
  - rewrite aget_aset_ne in Hx by done. by apply H.
Qed.

(** The slot [get_offset] returns is inside the file or right at its end. *)
Lemma get_offset_pool m p o p' :
  pool_ok m (p_offsets p) → get_offset p = Ok o p' →
  o ≤ m * PGSIZE ∧ ∃ m', pool_ok m' (p_offsets p') ∧ m' * PGSIZE = Z.max (m * PGSIZE) (o + PGSIZE).
Proof.
  intros [Hm H] Hg. unfold get_offset, bind, get in Hg. simpl in Hg.
  set (i := scan _ (p_offsets p)) in *. destruct (Z.eqb_spec i (-1)) as [|Hs]; [done|].
  destruct (scan_pos _ _ Hs) as (x & Hx & Hf & Hfst). fold i in Hx, Hfst. rewrite Hx in Hg. injection Hg as -> <-. simpl.
  apply negb_true_iff, Z.eqb_neq in Hf. pose proof (aget_Some_range _ _ _ Hx) as Hr. destruct (H i o Hx) as [H1 H2].
  destruct (decide (i < m)) as [Hi|Hi].
  - destruct (H1 Hi) as [?|Ho]; [done|]. split; [klia|]. exists m. split; [|lia]. apply pool_ok_aset; [by split|lia|by left].
  - assert (i = m) as Him.
    { destruct (decide (i = m)); [done|]. exfalso. destruct (aget_is_Some (p_offsets p) m) as [y Hy]; [lia|].
      pose proof (Hfst m y ltac:(lia) Hy) as Hy'. apply negb_false_iff, Z.eqb_eq in Hy'.
      destruct (H m y Hy) as [_ E]. rewrite E in Hy' by lia. unfold TAKEN_OFFSET in Hy'. klia. }
    rewrite (H2 ltac:(lia)), Him in *. split; [lia|]. exists (m + 1). split; [|klia]. split; [lia|].
    intros j y Hy. destruct (decide (m = j)) as [<-|Hne].
    + rewrite aget_aset_eq in Hy by lia. injection Hy as <-. split; [by left|lia].
    + rewrite aget_aset_ne in Hy by done. split; [intros Hj; left|intros Hj; apply (H j y Hy); lia].
      pose proof (aget_Some_range _ _ _ Hy). pose proof (Hfst j y ltac:(lia) Hy) as E. by apply negb_false_iff, Z.eqb_eq in E.
Qed.

Lemma free_offset_pool m p o p' :
  pool_ok m (p_offsets p) → o + PGSIZE ≤ m * PGSIZE → free_offset o p = Ok tt p' → pool_ok m (p_offsets p').
Proof.
  intros Hp Ho Hg. unfold free_offset, bind, get in Hg. simpl in Hg.
  set (i := scan _ (p_offsets p)) in *. destruct (Z.eqb_spec i (-1)) as [|Hs]; [done|].
  destruct (scan_pos _ _ Hs) as (x & Hx & Hf & _). fold i in Hx. injection Hg as <-. simpl.
  pose proof (aget_Some_range _ _ _ Hx) as Hr. apply Z.eqb_eq in Hf.
  apply pool_ok_aset; [done| |by right]. destruct (decide (i < m)); [lia|]. destruct (proj2 Hp i x Hx) as [_ E].
  rewrite E in Hf by lia. unfold TAKEN_OFFSET in Hf. klia.
Qed.

(** ** One entry changes *)

Lemma taken_ptes_app l1 l2 : taken_ptes (l1 ++ l2) = taken_ptes l1 ++ taken_ptes l2.
Proof. apply omap_app. Qed.
Lemma used_offs_app l1 l2 : used_offs (l1 ++ l2) = used_offs l1 ++ used_offs l2.
Proof. apply omap_app. Qed.

Definition own (x : page_meta) : list Z := option_list (pos_offset (pm_offset x)).

Lemma used_offs_cons x l : used_offs (x :: l) = own x ++ used_offs l.
Proof. unfold used_offs, own. csimpl. by destruct (pos_offset (pm_offset x)). Qed.

(** The workhorse: an entry [x] becomes [y], the pool becomes [offs']. *)
Lemma meta_replace p p' ind x y :
  meta_ok p → aget (p_pages p) ind = Some x → entry_ok y →
  free_offs (p_offsets p') ++ own y ≡ₚ free_offs (p_offsets p) ++ own x →
  length (p_offsets p') = length (p_offsets p) →
  (pm_taken y = true → if pm_taken x then pm_pte y = pm_pte x else pm_pte y ∉ taken_ptes (p_pages p)) →
  core <$> p_pages p' = core <$> aset (p_pages p) ind y →
  p_num_of_pages p' = p_num_of_pages p - (if pm_taken x then 1 else 0) + (if pm_taken y then 1 else 0) →
  p_phys_pages p' = p_phys_pages p - (if resident x then 1 else 0) + (if resident y then 1 else 0) →
  meta_ok p'.
Proof.
  intros [H1 H2 H3 H4 H5 H6 H7] Hx Hy Hoff Hlen Hpte Hpages Hnum Hphys.
  apply (meta_ok_core (p' <| p_pages := aset (p_pages p) ind y |>)); [|split; simpl; done].
  destruct (aset_split _ _ _ Hx) as (l1 & l2 & Hl & _ & Hset).
  rewrite Hl in H3, H4, H5. split; simpl.
  - by rewrite length_aset.
  - by rewrite Hlen.
  - rewrite Hset. rewrite Forall_app, Forall_cons in *. by destruct H3 as (? & _ & ?).
  - rewrite Hset. rewrite <-H4, !used_offs_app, !used_offs_cons.
    rewrite (Permutation_app_swap_app (used_offs l1) (own y)), (Permutation_app_swap_app (used_offs l1) (own x)).
    rewrite !(app_assoc (free_offs _)), Hoff. done.
  - rewrite Hset. rewrite !taken_ptes_app in *. unfold taken_ptes in H5 |- * at 2. csimpl.
    simpl in H5. rewrite Hl, taken_ptes_app in Hpte. unfold taken_ptes in Hpte at 2. csimpl in Hpte.
    destruct (pm_taken y) eqn:Ey, (pm_taken x) eqn:Ex; simpl in *.
    + rewrite Hpte by done. done.
    + specialize (Hpte eq_refl). rewrite <-Permutation_middle. apply NoDup_cons. split; done.
    + rewrite <-Permutation_middle in H5. by apply NoDup_cons in H5 as [_ ?].
    + done.
  - rewrite (cnt_aset _ _ _ x) by done. rewrite Hnum, H6. done.
  - rewrite (cnt_aset _ _ _ x) by done. rewrite Hphys, H7. done.
Qed.

(** A slot that a page owns is inside the file. *)
Lemma used_below m p o : meta_ok p → pool_ok m (p_offsets p) → o ∈ used_offs (p_pages p) → o + PGSIZE ≤ m * PGSIZE.
Proof.
  intros Hok [Hm H] Ho. assert (o ∈ slots) as Hs by (rewrite <-(mo_slots p Hok); apply elem_of_app; by right).
  apply slots_elem in Hs as (k & Hk & ->). destruct (decide (k < m)) as [|Hkm]; [klia|]. exfalso.
  destruct (aget_is_Some (p_offsets p) k) as [y Hy]; [rewrite (mo_olen p Hok); klia|].
  destruct (H k y Hy) as [_ E]. specialize (E ltac:(lia)). subst y.
  pose proof NoDup_slots as Hnd. rewrite <-(mo_slots p Hok), NoDup_app in Hnd. destruct Hnd as (_ & Hdis & _).
  apply (Hdis (k * PGSIZE)); [|done]. unfold free_offs. apply list_elem_of_omap. exists (k * PGSIZE). split.
  - unfold aget in Hy. destruct (k <? 0); [done|]. by eapply list_elem_of_lookup_2.
  - unfold pos_offset. destruct (Z.eqb_spec (k * PGSIZE) (-1)); [klia|done].
Qed.
