(* ===== verification/Scfifo.v ===== *)
(** SCFIFO: the ring of resident pages.

    Under SCFIFO the resident pages form a circular doubly linked list through
    the [nextp]/[prevp] indices of the metadata entries; [headp] is the page
    that came in first.  [ring] states that the list is well linked; the
    insertions of [add_page] and [swap_from_file] append at the end, the
    removals of [remove_page] and [swap_to_file] take a page out, and the
    second-chance loop of [get_page_to_swap] returns the first page in ring
    order that was not accessed. *)

From S2P Require Import Prelude Memory Machine Kalloc Swap SwapInv.
From stdpp Require Import options.
Import Swap.

(** ** Rings *)

Definition nx (ps : list page_meta) (a : Z) : option Z := pm_nextp <$> aget ps a.
Definition pv (ps : list page_meta) (a : Z) : option Z := pm_prevp <$> aget ps a.

Definition link (ps : list page_meta) (a b : Z) : Prop := nx ps a = Some b ∧ pv ps b = Some a.

Definition rot (l : list Z) : list Z := match l with [] => [] | h :: t => t ++ [h] end.

(** Each page of [l] is linked to the next one, the last to the first. *)
Definition ring (ps : list page_meta) (l : list Z) : Prop := Forall2 (link ps) l (rot l).

Definition head_of (l : list Z) : Z := match l with [] => -1 | h :: _ => h end.

Lemma ring_rot1 ps a t : ring ps (a :: t) → ring ps (t ++ [a]).
Proof.
  unfold ring. simpl. destruct t as [|b t]; [done|]. simpl.
  intros [Hab Ht]%Forall2_cons. rewrite app_comm_cons. apply Forall2_app; [done|by apply Forall2_cons].
Qed.

(** Where a ring starts does not matter. *)
Lemma ring_rot ps l1 l2 : ring ps (l1 ++ l2) → ring ps (l2 ++ l1).
Proof.
  revert l2. induction l1 as [|a l1 IH]; intros l2 H; [by rewrite app_nil_r|].
  simpl in H. apply ring_rot1 in H. rewrite <-app_assoc in H. apply IH in H.
  by rewrite <-app_assoc in H.
Qed.

Lemma ring_in_range ps l i : ring ps l → i ∈ l → is_Some (aget ps i).
Proof.
  intros Hr Hi. apply list_elem_of_lookup in Hi as [k Hk].
  destruct (Forall2_lookup_l _ _ _ _ _ Hr Hk) as (b & _ & [Hn _]).
  unfold nx in Hn. apply fmap_Some in Hn as (x & -> & _). eauto.
Qed.

(** A ring is determined by the links of its members. *)
Lemma ring_ext ps ps' l :
  ring ps l → (∀ i, i ∈ l → nx ps' i = nx ps i) → (∀ i, i ∈ l → pv ps' i = pv ps i) → ring ps' l.
Proof.
  intros Hr Hn Hp. unfold ring in *.
  assert (∀ i, i ∈ rot l → i ∈ l) as Hrot by (destruct l as [|h t]; simpl; intros i; [done|]; rewrite elem_of_app, list_elem_of_singleton, elem_of_cons; tauto).
  apply Forall2_same_length_lookup. split; [by eapply Forall2_length|].
  intros k a b Ha Hb. destruct (Forall2_lookup_lr _ _ _ _ _ _ Hr Ha Hb) as [H1 H2].
  apply list_elem_of_lookup_2 in Ha, Hb. split.
  - by rewrite Hn.
  - rewrite Hp by auto. done.
Qed.

(** *** Writes to links *)

Lemma nx_amod ps j f a :
  nx (amod ps j f) a = if decide (a = j) then pm_nextp ∘ f <$> aget ps a else nx ps a.
Proof. unfold nx. rewrite aget_amod. case_decide; by destruct (aget ps a). Qed.

Lemma pv_amod ps j f a :
  pv (amod ps j f) a = if decide (a = j) then pm_prevp ∘ f <$> aget ps a else pv ps a.
Proof. unfold pv. rewrite aget_amod. case_decide; by destruct (aget ps a). Qed.

Lemma nx_amod_keep ps j f a : (∀ x, pm_nextp (f x) = pm_nextp x) → nx (amod ps j f) a = nx ps a.
Proof. intros Hf. rewrite nx_amod. case_decide; [|done]. unfold nx. destruct (aget ps a); simpl; by rewrite ?Hf. Qed.

Lemma pv_amod_keep ps j f a : (∀ x, pm_prevp (f x) = pm_prevp x) → pv (amod ps j f) a = pv ps a.
Proof. intros Hf. rewrite pv_amod. case_decide; [|done]. unfold pv. destruct (aget ps a); simpl; by rewrite ?Hf. Qed.

Lemma nx_amod_ne ps j f a : a ≠ j → nx (amod ps j f) a = nx ps a.
Proof. intros. by rewrite nx_amod, decide_False. Qed.

Lemma pv_amod_ne ps j f a : a ≠ j → pv (amod ps j f) a = pv ps a.
Proof. intros. by rewrite pv_amod, decide_False. Qed.

Lemma nx_amod_set ps j f v : (∀ x, pm_nextp (f x) = v) → is_Some (aget ps j) → nx (amod ps j f) j = Some v.
Proof. intros Hf [x Hx]. rewrite nx_amod, decide_True by done. rewrite Hx. simpl. by rewrite Hf. Qed.

Lemma pv_amod_set ps j f v : (∀ x, pm_prevp (f x) = v) → is_Some (aget ps j) → pv (amod ps j f) j = Some v.
Proof. intros Hf [x Hx]. rewrite pv_amod, decide_True by done. rewrite Hx. simpl. by rewrite Hf. Qed.

Lemma aget_amod_is_Some {A} (l : list A) j f i : is_Some (aget (amod l j f) i) ↔ is_Some (aget l i).
Proof. rewrite aget_amod. by rewrite fmap_is_Some. Qed.

(** Indices stay in range. *)
Ltac arng := simpl; rewrite ?aget_amod_is_Some; eauto.

(** Replacing the links around a gap: [ps'] differs from [ps] only in the
    [nextp] of [z] and of [i] and the [prevp] of [h] and of [i]. *)
Definition relinked (ps ps' : list page_meta) (z h i : Z) : Prop :=
  (∀ a, a ≠ z → a ≠ i → nx ps' a = nx ps a) ∧ (∀ b, b ≠ h → b ≠ i → pv ps' b = pv ps b).

Lemma relinked_segment ps ps' z h i l0 t :
  relinked ps ps' z h i → NoDup (l0 ++ [z]) → NoDup (t ++ [h]) → i ∉ l0 → i ∉ t →
  Forall2 (link ps) l0 t → Forall2 (link ps') l0 t.
Proof.
  intros [Hn Hp] Hl Ht Hi1 Hi2 Hlk. apply Forall2_same_length_lookup. split; [by eapply Forall2_length|].
  intros k a b Ha Hb. destruct (Forall2_lookup_lr _ _ _ _ _ _ Hlk Ha Hb) as [H1 H2].
  apply list_elem_of_lookup_2 in Ha, Hb. apply NoDup_app in Hl as (_ & Hl & _), Ht as (_ & Ht & _).
  split; [rewrite Hn|rewrite Hp]; set_solver.
Qed.

(** *** Insertion at the end, removal *)

Lemma ring_insert ps ps' h t z l0 i :
  ring ps (h :: t) → h :: t = l0 ++ [z] → NoDup (h :: t) → i ∉ h :: t →
  relinked ps ps' z h i → link ps' z i → link ps' i h →
  ring ps' ((h :: t) ++ [i]).
Proof.
  intros Hr He Hnd Hi Hre Hzi Hih.
  assert (length l0 = length t) as Hlen by (apply (f_equal length) in He; rewrite length_app in He; simpl in *; lia).
  assert (Forall2 (link ps) (l0 ++ [z]) (t ++ [h])) as [H1 _]%Forall2_app_inv by (by rewrite <-He); [|done].
  unfold ring. change (rot ((h :: t) ++ [i])) with ((t ++ [i]) ++ [h]). rewrite He, <-!app_assoc.
  apply Forall2_app; [|apply Forall2_cons; split; [done|by apply Forall2_cons]].
  rewrite He in Hi. apply (relinked_segment ps ps' z h i l0 t Hre); [by rewrite <-He| | | |done].
  - by rewrite Permutation_app_comm.
  - set_solver.
  - rewrite <-He in Hi. set_solver.
Qed.

Lemma ring_delete ps ps' i h t z l0 :
  ring ps (i :: h :: t) → h :: t = l0 ++ [z] → NoDup (i :: h :: t) →
  relinked ps ps' z h i → link ps' z h → ring ps' (h :: t).
Proof.
  intros Hr He [Hi Hnd]%NoDup_cons Hre Hzh.
  assert (length l0 = length t) as Hlen by (apply (f_equal length) in He; rewrite length_app in He; simpl in *; lia).
  unfold ring in Hr. simpl in Hr. apply Forall2_cons in Hr as [_ Hr].
  assert (Forall2 (link ps) (l0 ++ [z]) (t ++ [i])) as [H1 _]%Forall2_app_inv by (by rewrite <-He); [|done].
  unfold ring. simpl. rewrite He. apply Forall2_app; [|by apply Forall2_cons].
  apply (relinked_segment ps ps' z h i l0 t Hre); [by rewrite <-He| | | |done].
  - by rewrite Permutation_app_comm.
  - rewrite He in Hi. set_solver.
  - set_solver.
Qed.

(** The neighbours of a member. *)
Lemma ring_neighbours ps i h t z l0 :
  ring ps (i :: h :: t) → h :: t = l0 ++ [z] → link ps i h ∧ link ps z i.
Proof.
  intros Hr He. unfold ring in Hr. simpl in Hr. apply Forall2_cons in Hr as [Hih Hr]. split; [done|].
  assert (length l0 = length t) as Hlen by (apply (f_equal length) in He; rewrite length_app in He; simpl in *; lia).
  rewrite He in Hr. apply Forall2_app_inv in Hr as [_ Hr]; [|done]. by inversion Hr.
Qed.

(** ** The ring operations of swap.c *)

(** The list of resident pages of [p], oldest first. *)
Definition ring_of (p : proc) (l : list Z) : Prop :=
  ring (p_pages p) l ∧ NoDup l ∧ p_headp p = head_of l.

Lemma snoc_of_cons {A} (h : A) t : ∃ l0 z, h :: t = l0 ++ [z].
Proof. destruct (exists_last (l := h :: t)) as (l0 & z & He); [done|]. eauto. Qed.

Lemma scfifo_append_ring ind p h t :
  ring_of p (h :: t) → ind ∉ h :: t → is_Some (aget (p_pages p) ind) →
  wp (scfifo_append ind) (λ _ p', p' = p <| p_pages := p_pages p' |> ∧ ring_of p' ((h :: t) ++ [ind])) p.
Proof.
  intros (Hr & Hnd & Hh) Hi Hin. simpl in Hh. destruct (snoc_of_cons h t) as (l0 & z & He).
  assert (is_Some (aget (p_pages p) h)) as [xh Hxh] by (eapply ring_in_range; [done|set_solver]).
  assert (link (p_pages p) z h) as [Hzn Hzp].
  { unfold ring in Hr. simpl in Hr. rewrite He in Hr. apply Forall2_app_inv in Hr as [_ Hr].
    - by inversion Hr.
    - apply (f_equal length) in He. rewrite length_app in He. simpl in *. lia. }
  unfold pv in Hzp. rewrite Hxh in Hzp. injection Hzp as Hz.
  assert (h ≠ ind) by set_solver. assert (z ∈ h :: t) by (rewrite He; set_solver).
  assert (z ≠ ind) by set_solver.
  assert (is_Some (aget (p_pages p) z)) by (by eapply ring_in_range).
  unfold scfifo_append. wp_steps. apply wp_mod_amod; [done|]. simpl. wp_steps. rewrite Hh.
  eapply wp_page_at; [simpl; rewrite aget_amod_ne by done; exact Hxh|]. wp_steps. rewrite Hz.
  apply wp_mod_amod; [arng|]. simpl. wp_steps.
  apply wp_mod_amod; [arng|]. simpl. wp_steps.
  destruct Hin as [x Hx]. eapply wp_page_at.
  { simpl. rewrite aget_amod_ne by done. rewrite !aget_amod_eq, Hx. reflexivity. }
  simpl. apply wp_mod_amod; [arng|]. simpl.
  split; [reflexivity|]. split; [|split; [|done]].
  - eapply ring_insert; [done..| | |]; simpl.
    + split; intros a Ha Hai.
      * rewrite nx_amod_ne, nx_amod_keep, nx_amod_keep, nx_amod_ne; done.
      * rewrite pv_amod_keep, pv_amod_ne, pv_amod_ne, pv_amod_keep; done.
    + split; [apply nx_amod_set; [done|arng]|].
      rewrite pv_amod_keep, pv_amod_ne, (pv_amod_set _ _ _ z); try done; arng.
    + split.
      * rewrite nx_amod_ne, nx_amod_keep, nx_amod_keep, (nx_amod_set _ _ _ h); try done; arng.
      * rewrite pv_amod_keep by done. apply pv_amod_set; [done|]. arng.
  - rewrite app_comm_cons. apply NoDup_app. split_and!; [done| |apply NoDup_singleton]. intros y Hy ->%list_elem_of_singleton; done.
Qed.

(** A member, seen from itself: the pages after it, then those before it. *)
Lemma ring_at ps l1 i l2 : ring ps (l1 ++ i :: l2) → ring ps (i :: l2 ++ l1).
Proof. intros H%ring_rot. done. Qed.

Lemma ring_back ps l1 l2 : ring ps (l2 ++ l1) → ring ps (l1 ++ l2).
Proof. apply ring_rot. Qed.

(** Closing the gap of [i] when it is not alone. *)
Lemma ring_remove ps ps' l1 i l2 z h l0 t :
  ring ps (l1 ++ i :: l2) → NoDup (l1 ++ i :: l2) → l2 ++ l1 = h :: t → h :: t = l0 ++ [z] →
  relinked ps ps' z h i → link ps' z h → ring ps' (l1 ++ l2).
Proof.
  intros Hr Hnd Hm He Hre Hzh. apply ring_back. apply ring_at in Hr. rewrite Hm in *.
  assert (i :: h :: t ≡ₚ l1 ++ i :: l2) as Hp.
  { rewrite <-Hm, <-Permutation_middle. constructor. apply Permutation_app_comm. }
  apply (ring_delete ps ps' i h t z l0); [done..|by rewrite Hp|done|done].
Qed.

(** Removing the links of [i]: the state of the ring around it. *)
Lemma ring_member p l1 i l2 :
  ring_of p (l1 ++ i :: l2) →
  ∃ x, aget (p_pages p) i = Some x ∧ is_Some (aget (p_pages p) (pm_nextp x)) ∧
    is_Some (aget (p_pages p) (pm_prevp x)) ∧
    match l2 ++ l1 with
    | [] => pm_nextp x = i ∧ pm_prevp x = i
    | h :: t => pm_nextp x = h ∧ ∃ l0, h :: t = l0 ++ [pm_prevp x]
    end.
Proof.
  intros (Hr & Hnd & _). pose proof (ring_at _ _ _ _ Hr) as Hc.
  assert (∀ j, j ∈ i :: l2 ++ l1 → is_Some (aget (p_pages p) j)) as Hin by (intros; by eapply ring_in_range).
  destruct (Hin i) as [x Hx]; [set_solver|]. exists x. split; [done|].
  destruct (l2 ++ l1) as [|h t] eqn:Hm.
  - unfold ring in Hc. simpl in Hc. apply Forall2_cons in Hc as [[Hn Hp] _].
    unfold nx, pv in *. rewrite Hx in *. injection Hn as ->. injection Hp as ->. eauto.
  - destruct (snoc_of_cons h t) as (l0 & z & He). destruct (ring_neighbours _ _ _ _ _ _ Hc He) as [[Hn _] [_ Hp]].
    unfold nx, pv in *. rewrite Hx in *. injection Hn as ->. injection Hp as ->.
    split_and!; [apply Hin; set_solver|apply Hin; rewrite He; set_solver|done|eauto].
Qed.

Lemma head_of_member l1 i l2 :
  NoDup (l1 ++ i :: l2) → (l1 = [] ∧ head_of (l1 ++ i :: l2) = i) ∨ (head_of (l1 ++ i :: l2) ≠ i ∧ head_of (l1 ++ i :: l2) = head_of (l1 ++ l2)).
Proof. destruct l1 as [|h l1]; simpl; [by left|]. intros [Hh _]%NoDup_cons. right. set_solver. Qed.

Lemma NoDup_remove_mid {A} (l1 l2 : list A) i : NoDup (l1 ++ i :: l2) → NoDup (l1 ++ l2).
Proof. rewrite <-Permutation_middle. by intros [_ ?]%NoDup_cons. Qed.

(** The two writes that close the gap, in either order. *)
Lemma relink_gap ps i x l0 h t :
  aget ps i = Some x → pm_nextp x = h → h :: t = l0 ++ [pm_prevp x] → i ∉ h :: t →
  is_Some (aget ps h) → is_Some (aget ps (pm_prevp x)) →
  let ps1 := amod (amod ps h (λ y, y <| pm_prevp := pm_prevp x |>)) (pm_prevp x) (λ y, y <| pm_nextp := h |>) in
  let ps2 := amod (amod ps (pm_prevp x) (λ y, y <| pm_nextp := h |>)) h (λ y, y <| pm_prevp := pm_prevp x |>) in
  relinked ps ps1 (pm_prevp x) h i ∧ link ps1 (pm_prevp x) h ∧
  relinked ps ps2 (pm_prevp x) h i ∧ link ps2 (pm_prevp x) h.
Proof.
  intros Hx Hn He Hi Hh Hz. simpl. split_and!; split.
  - intros a Ha _. rewrite nx_amod_ne, nx_amod_keep; done.
  - intros a Ha _. rewrite pv_amod_keep, pv_amod_ne; done.
  - apply nx_amod_set; [done|arng].
  - rewrite pv_amod_keep by done. apply pv_amod_set; [done|arng].
  - intros a Ha _. rewrite nx_amod_keep, nx_amod_ne; done.
  - intros a Ha _. rewrite pv_amod_ne, pv_amod_keep; done.
  - rewrite nx_amod_keep by done. apply nx_amod_set; [done|arng].
  - apply pv_amod_set; [done|arng].
Qed.

(** Either write leaves the links of [i] itself as they are. *)
Lemma amod_prev_same ps i j x v :
  aget ps i = Some x → pm_prevp x = v →
  ∃ x1, aget (amod ps j (λ y, y <| pm_prevp := v |>)) i = Some x1 ∧
    pm_nextp x1 = pm_nextp x ∧ pm_prevp x1 = v ∧ pm_on_phys x1 = pm_on_phys x.
Proof. intros Hx Hv. rewrite aget_amod, Hx. case_decide; simpl; eauto. Qed.

Lemma amod_next_same ps i j x v :
  aget ps i = Some x → pm_nextp x = v →
  ∃ x1, aget (amod ps j (λ y, y <| pm_nextp := v |>)) i = Some x1 ∧
    pm_nextp x1 = v ∧ pm_prevp x1 = pm_prevp x ∧ pm_on_phys x1 = pm_on_phys x.
Proof. intros Hx Hv. rewrite aget_amod, Hx. case_decide; simpl; eauto. Qed.

Definition unlinked (p p' : proc) (l : list Z) : Prop :=
  p' = p <| p_pages := p_pages p' |> <| p_headp := p_headp p' |> ∧ ring_of p' l.

Lemma not_in_rest (l1 : list Z) i l2 m : NoDup (l1 ++ i :: l2) → l2 ++ l1 = m → i ∉ m.
Proof.
  intros Hnd <-. rewrite elem_of_app. rewrite <-Permutation_middle, NoDup_cons, elem_of_app in Hnd. tauto.
Qed.

(** The gap of [i] between its neighbours is closed in [ps']. *)
Definition closed (ps ps' : list page_meta) (l1 : list Z) (i : Z) (l2 : list Z) (x : page_meta) : Prop :=
  ∀ h t l0, l2 ++ l1 = h :: t → h = pm_nextp x → h :: t = l0 ++ [pm_prevp x] →
    relinked ps ps' (pm_prevp x) h i ∧ link ps' (pm_prevp x) h.

(** Then the rest is a ring, whose head moves on if it was [i]. *)
Lemma unlink_ring p p' l1 i l2 x :
  ring_of p (l1 ++ i :: l2) → aget (p_pages p) i = Some x → closed (p_pages p) (p_pages p') l1 i l2 x →
  p' = p <| p_pages := p_pages p' |> <| p_headp := p_headp p' |> →
  p_headp p' = (if p_headp p =? i then if pm_nextp x =? i then -1 else pm_nextp x else p_headp p) →
  unlinked p p' (l1 ++ l2).
Proof.
  intros Hring Hx Hps Hframe Hhd'. destruct (ring_member _ _ _ _ Hring) as (x' & Hx' & _ & _ & Hm).
  rewrite Hx in Hx'. injection Hx' as <-. destruct Hring as (Hr & Hnd & Hh).
  split; [done|]. unfold ring_of. rewrite Hhd'. destruct (l2 ++ l1) as [|h t] eqn:E.
  - apply app_nil in E as [-> ->]. destruct Hm as [-> _]. simpl in Hh.
    rewrite Hh, !Z.eqb_refl. split; [constructor|split; [constructor|done]].
  - destruct Hm as (Hn & l0 & He). destruct (Hps h t l0) as [H1 H2]; [done..|].
    split; [|split; [by eapply NoDup_remove_mid|]]; simpl.
    + by eapply ring_remove.
    + pose proof (not_in_rest _ _ _ _ Hnd E) as Hi.
      destruct (head_of_member l1 i l2 Hnd) as [[-> Hhd]|[Hne Hhd]]; rewrite Hh.
      * simpl in *. rewrite app_nil_r in E. subst l2. rewrite Z.eqb_refl, Hn.
        destruct (Z.eqb_spec h i) as [->|]; [|done]. destruct Hi. by left.
      * by rewrite (proj2 (Z.eqb_neq _ _) Hne).
Qed.

Lemma gap_closed p l1 i l2 x :
  ring_of p (l1 ++ i :: l2) → aget (p_pages p) i = Some x →
  let ps := p_pages p in
  closed ps (amod (amod ps (pm_nextp x) (λ y, y <| pm_prevp := pm_prevp x |>)) (pm_prevp x)
               (λ y, y <| pm_nextp := pm_nextp x |>)) l1 i l2 x ∧
  closed ps (amod (amod ps (pm_prevp x) (λ y, y <| pm_nextp := pm_nextp x |>)) (pm_nextp x)
               (λ y, y <| pm_prevp := pm_prevp x |>)) l1 i l2 x.
Proof.
  intros Hring Hx. destruct (ring_member _ _ _ _ Hring) as (x' & Hx' & Hn & Hp & _).
  rewrite Hx in Hx'. injection Hx' as <-. destruct Hring as (_ & Hnd & _).
  split; intros h t l0 E -> He;
    destruct (relink_gap (p_pages p) i x l0 (pm_nextp x) t) as (? & ? & ? & ?); try done;
    by eapply not_in_rest.
Qed.

(** Writing the links of [i] itself does no harm. *)
Lemma closed_amod ps ps' l1 i l2 x f :
  NoDup (l1 ++ i :: l2) → closed ps ps' l1 i l2 x → closed ps (amod ps' i f) l1 i l2 x.
Proof.
  intros Hnd Hps h t l0 E Hhn He. destruct (Hps h t l0 E Hhn He) as [[R1 R2] [L1 L2]].
  pose proof (not_in_rest _ _ _ _ Hnd E) as Hi.
  assert (pm_prevp x ≠ i) by (intros Heq; apply Hi; rewrite He, Heq, elem_of_app, list_elem_of_singleton; by right).
  assert (h ≠ i) by (intros ->; apply Hi; by left).
  split; split; intros; rewrite ?nx_amod_ne, ?pv_amod_ne; auto.
Qed.

(** [swap_to_file]: the page leaves the ring. *)
Lemma scfifo_unlink_ring p l1 i l2 :
  ring_of p (l1 ++ i :: l2) → wp (scfifo_unlink i) (λ _ p', unlinked p p' (l1 ++ l2)) p.
Proof.
  intros Hring. destruct (ring_member _ _ _ _ Hring) as (x & Hx & Hn & Hp & _).
  pose proof (proj1 (gap_closed _ _ _ _ _ Hring Hx)) as Hps.
  unfold scfifo_unlink. wp_steps. eapply wp_page_at; [done|]. wp_steps.
  apply wp_mod_amod; [done|]. simpl. wp_steps.
  destruct (amod_prev_same _ _ (pm_nextp x) _ _ Hx eq_refl) as (x1 & Hx1 & Hn1 & Hp1 & _).
  eapply wp_page_at; [exact Hx1|]. rewrite Hn1, Hp1. wp_steps. apply wp_mod_amod; [arng|]. simpl. wp_steps.
  destruct (amod_next_same _ _ (pm_prevp x) _ _ Hx1 Hn1) as (x2 & Hx2 & Hn2 & Hp2 & _).
  destruct (p_headp p =? i) eqn:Hh; wp_steps.
  - eapply wp_page_at; [exact Hx2|]. wp_steps. rewrite Hn2. apply wp_mod_amod; [simpl; rewrite Hx2; eauto|].
    simpl. apply (unlink_ring _ _ l1 i l2 x); [done..| |reflexivity|by rewrite Hh, Z.eqb_sym].
    apply closed_amod; [apply Hring|done].
  - apply (unlink_ring _ _ l1 i l2 x); [done..|reflexivity|by rewrite Hh].
Qed.

(** [remove_page]: the same for a resident page that is freed. *)
Lemma scfifo_remove_ring p l1 i l2 :
  ring_of p (l1 ++ i :: l2) → (∀ x, aget (p_pages p) i = Some x → pm_on_phys x = true) →
  wp (scfifo_remove i) (λ _ p', unlinked p p' (l1 ++ l2)) p.
Proof.
  intros Hring Hph. destruct (ring_member _ _ _ _ Hring) as (x & Hx & Hn & Hp & _).
  pose proof (proj2 (gap_closed _ _ _ _ _ Hring Hx)) as Hps.
  unfold scfifo_remove. wp_steps. eapply wp_page_at; [done|]. rewrite (Hph x Hx). wp_steps.
  apply wp_mod_amod; [done|]. simpl. wp_steps.
  destruct (amod_next_same _ _ (pm_prevp x) _ _ Hx eq_refl) as (x1 & Hx1 & Hn1 & Hp1 & _).
  eapply wp_page_at; [exact Hx1|]. rewrite Hn1, Hp1. wp_steps. apply wp_mod_amod; [arng|]. simpl. wp_steps.
  destruct (amod_prev_same _ _ (pm_nextp x) _ _ Hx1 Hp1) as (x2 & Hx2 & Hn2 & Hp2 & _).
  rewrite Hn1 in Hn2. destruct (p_headp p =? i) eqn:Hh; wp_steps.
  - eapply wp_page_at; [exact Hx2|]. wp_steps. rewrite Hn2.
    apply (unlink_ring _ _ l1 i l2 x); [done..|reflexivity|by rewrite Hh].
  - apply (unlink_ring _ _ l1 i l2 x); [done..|reflexivity|by rewrite Hh].
Qed.

(** A page that is swapped out is in no ring, and stays out of it. *)
Lemma scfifo_remove_swapped p l i x :
  ring_of p l → i ∉ l → 0 ≤ i → aget (p_pages p) i = Some x → pm_on_phys x = false →
  scfifo_remove i p = Ok tt p.
Proof.
  intros (_ & _ & Hh) Hi H0 Hx Hph. unfold scfifo_remove.
  rewrite (bind_ok _ _ _ _ _ (page_at_ok _ _ _ Hx)). rewrite Hph. unfold bind, get. simpl.
  destruct (Z.eqb_spec (p_headp p) i) as [He|]; [|done]. exfalso. rewrite Hh in He. destruct l; simpl in *; [lia|].
  apply Hi. rewrite He. by left.
Qed.

(** ** The second-chance scan *)

(** Address of the page-table entry of page [i]. *)
Definition pte_of (ps : list page_meta) (i : Z) : Z := default 0 (pm_pte <$> aget ps i).

Definition accessed (m : memory) (ps : list page_meta) (i : Z) : bool := pte_has (load32 m (pte_of ps i)) PTE_A.

(** [( *pte) &= ~PTE_A] for the pages of [l]. *)
Fixpoint clear_all (m : memory) (ps : list page_meta) (l : list Z) : memory :=
  match l with
  | [] => m
  | i :: l => clear_all (store32 m (pte_of ps i) (pte_clr (load32 m (pte_of ps i)) PTE_A)) ps l
  end.

(** The accessed pages at the front of [l], and the rest. *)
Fixpoint span_accessed (m : memory) (ps : list page_meta) (l : list Z) : list Z * list Z :=
  match l with
  | [] => ([], [])
  | i :: l => if accessed m ps i then let '(a, b) := span_accessed m ps l in (i :: a, b) else ([], i :: l)
  end.

Lemma span_accessed_spec m ps l a b :
  span_accessed m ps l = (a, b) →
  l = a ++ b ∧ Forall (λ i, accessed m ps i = true) a ∧ (∀ i, head b = Some i → accessed m ps i = false).
Proof.
  revert a b. induction l as [|i l IH]; intros a b; simpl; [by intros [= <- <-]|].
  destruct (accessed m ps i) eqn:Hi.
  - destruct (span_accessed m ps l) as [a' b'] eqn:E. intros [= <- <-].
    destruct (IH _ _ eq_refl) as (-> & Ha & Hb). split_and!; [done|by constructor|done].
  - intros [= <- <-]. split_and!; [done|constructor|]. by intros ? [= <-].
Qed.

(** Entries at distinct aligned addresses do not interfere. *)
Definition aligned_ptes (ps : list page_meta) (l : list Z) : Prop :=
  NoDup (pte_of ps <$> l) ∧ Forall (λ i, pte_of ps i mod 4 = 0) l.

Lemma aligned_ptes_cons ps i l :
  aligned_ptes ps (i :: l) →
  aligned_ptes ps l ∧ ∀ m v j, j ∈ l → load32 (store32 m (pte_of ps i) v) (pte_of ps j) = load32 m (pte_of ps j).
Proof.
  intros [Hnd Hal]. rewrite fmap_cons in Hnd. apply NoDup_cons in Hnd as [Hni Hnd].
  apply Forall_cons in Hal as [Hi Hal]. split; [by split|]. intros m v j Hj.
  rewrite Forall_forall in Hal. rewrite load32_store32_aligned by auto.
  rewrite decide_False; [done|]. intros He. apply Hni. rewrite He. by apply list_elem_of_fmap_2.
Qed.

Lemma span_accessed_store m ps i l v :
  aligned_ptes ps (i :: l) → span_accessed (store32 m (pte_of ps i) v) ps l = span_accessed m ps l.
Proof.
  intros [_ Hst]%aligned_ptes_cons.
  assert (∀ j, j ∈ l → accessed (store32 m (pte_of ps i) v) ps j = accessed m ps j) as H
    by (intros j Hj; unfold accessed; by rewrite Hst).
  clear Hst. induction l as [|j l IH]; [done|]. simpl. rewrite H by (by left). rewrite IH; [done|].
  intros k Hk. apply H. by right.
Qed.

(** What the cleared entries hold afterwards. *)
Lemma load32_clear_all m ps l i :
  aligned_ptes ps l → i ∈ l → load32 (clear_all m ps l) (pte_of ps i) = pte_clr (load32 m (pte_of ps i)) PTE_A.
Proof.
  revert m. induction l as [|j l IH]; intros m Hal Hi; [by apply not_elem_of_nil in Hi|]. simpl.
  pose proof (aligned_ptes_cons _ _ _ Hal) as [Hal' Hst].
  destruct (decide (i ∈ l)) as [Hin|Hni].
  - rewrite IH by done. by rewrite Hst.
  - apply elem_of_cons in Hi as [->|?]; [|done]. clear IH.
    assert (∀ m', load32 (clear_all m' ps l) (pte_of ps j) = load32 m' (pte_of ps j)) as ->.
    { destruct Hal as [Hnd Ha]. rewrite fmap_cons in Hnd. apply NoDup_cons in Hnd as [Hnj _].
      apply Forall_cons in Ha as [Hj Ha]. clear -Hnj Hj Ha.
      induction l as [|k l IH]; intros m'; [done|]. simpl. apply Forall_cons in Ha as [Hk Ha].
      rewrite fmap_cons, not_elem_of_cons in Hnj. destruct Hnj as [Hne Hnj]. rewrite IH by done.
      rewrite load32_store32_aligned, decide_False by (done || congruence). done. }
    rewrite load32_store32_eq. apply u32_id, pte_clr_range, load32_range.
Qed.

Section second_chance.
Context {F : Type} `{!FileSys F}.
Implicit Types s : kst F.

(** The loop walks the ring from [c] and stops at the first page that was not
    accessed, or back at the head. *)
Lemma scfifo_loop_ok fuel pi p s h c t :
  k_procs s !! pi = Some p →
  Forall2 (λ a b, nx (p_pages p) a = Some b) (c :: t) (t ++ [h]) → h ∉ t →
  Forall (λ i, pm_on_phys <$> aget (p_pages p) i = Some true) (c :: t) →
  aligned_ptes (p_pages p) (c :: t) → (length t < fuel)%nat →
  scfifo_loop fuel pi h c s =
    (let '(a, b) := span_accessed (k_mem s) (p_pages p) (c :: t) in
     Ok (default h (head b)) (s <| k_mem := clear_all (k_mem s) (p_pages p) a |>)).
Proof.
  revert c s t. induction fuel as [|fuel IH]; intros c s t Hp Hn Hh Hph Hal Hf; [lia|].
  apply Forall_cons in Hph as [Hc Hph]. apply fmap_Some in Hc as (x & Hx & Hon).
  assert (pte_of (p_pages p) c = pm_pte x) as Hpte by (unfold pte_of; by rewrite Hx).
  assert (pm_nextp x = match t with [] => h | d :: _ => d end) as Hnext.
  { destruct t as [|d t]; simpl in Hn; apply Forall2_cons in Hn as [Hn _]; unfold nx in Hn; rewrite Hx in Hn;
      by injection Hn. }
  unfold scfifo_loop. cbn [loop]. unfold bind at 1 2. rewrite (on_proc_page_at _ p _ x) by done.
  cbn [obind]. rewrite <-Hon. cbn. unfold accessed. rewrite Hpte.
  destruct (pte_has (load32 (k_mem s) (pm_pte x)) PTE_A) eqn:HA; cbn; [|by destruct s].
  rewrite Hnext. destruct t as [|d t].
  - rewrite Z.eqb_refl. cbn. by rewrite Hpte.
  - rewrite (proj2 (Z.eqb_neq d h)) by (intros ->; apply Hh; by left). cbn.
    simpl in Hn. apply Forall2_cons in Hn as [_ Hn].
    etransitivity; [apply (IH d _ t); cbn; try done|].
    + intros ?. apply Hh. by right.
    + by apply aligned_ptes_cons in Hal as [? _].
    + simpl in Hf. lia.
    + change (k_mem (s <| k_mem ::= ?f |>)) with (f (k_mem s)). cbv beta.
      rewrite <-Hpte, span_accessed_store by done.
      change (if accessed (k_mem s) (p_pages p) d then _ else _) with (span_accessed (k_mem s) (p_pages p) (d :: t)).
      by destruct (span_accessed (k_mem s) (p_pages p) (d :: t)) as [a b].
Qed.

Lemma clear_all_frame m ps l i :
  Forall (λ i, pte_of ps i mod 4 = 0) (i :: l) → pte_of ps i ∉ pte_of ps <$> l →
  load32 (clear_all m ps l) (pte_of ps i) = load32 m (pte_of ps i).
Proof.
  intros [Hi Hal]%Forall_cons Hni. revert m. induction l as [|k l IH]; intros m; [done|]. simpl.
  apply Forall_cons in Hal as [Hk Hal]. rewrite fmap_cons, not_elem_of_cons in Hni. destruct Hni as [Hne Hni].
  rewrite IH by done. rewrite load32_store32_aligned, decide_False by (done || congruence). done.
Qed.

Lemma accessed_clr m pte k : 0 ≤ load32 m pte < 2 ^ 32 → 0 ≤ k → pte_has (pte_clr (load32 m pte) (2 ^ k)) (2 ^ k) = false.
Proof. intros. rewrite pte_has_bit, pte_clr_bit by done. rewrite Z.eqb_refl. apply andb_false_r. Qed.

Lemma ring_length p l : ring_of p l → (length l ≤ length (p_pages p))%nat.
Proof.
  intros (Hr & Hnd & _).
  assert (l ⊆ seqZ 0 (Z.of_nat (length (p_pages p)))) as Hsub.
  { intros i Hi. destruct (ring_in_range _ _ _ Hr Hi) as [x Hx]. apply aget_Some_range in Hx.
    apply elem_of_seqZ. lia. }
  apply NoDup_submseteq, submseteq_length in Hsub; [|done]. rewrite length_seqZ in Hsub. lia.
Qed.

(** C23: Second chance. Under SCFIFO [get_page_to_swap] returns, of the ring of
    resident pages, the oldest page whose accessed bit is clear, after clearing
    the bit of every page before it; when every page was accessed it clears all
    bits and returns the oldest page. *)
Theorem scfifo_second_chance pi p s h t :
  k_cur s = Some pi → k_procs s !! pi = Some p → length (p_pages p) = Z.to_nat MAX_TOTAL_PAGES →
  ring_of p (h :: t) → Forall (λ i, pm_on_phys <$> aget (p_pages p) i = Some true) (h :: t) →
  aligned_ptes (p_pages p) (h :: t) →
  ∃ a b m', h :: t = a ++ b ∧
    get_page_to_swap SCFIFO s = Ok (default h (head b)) (s <| k_mem := m' |>) ∧
    Forall (λ i, accessed (k_mem s) (p_pages p) i = true) a ∧
    Forall (λ i, accessed m' (p_pages p) i = false) a ∧
    (∀ i, head b = Some i → accessed (k_mem s) (p_pages p) i = false) ∧
    Forall (λ i, load32 m' (pte_of (p_pages p) i) = load32 (k_mem s) (pte_of (p_pages p) i)) b.
Proof.
  intros Hc Hp Hlen Hring Hph Hal. destruct (span_accessed (k_mem s) (p_pages p) (h :: t)) as [a b] eqn:E.
  destruct (span_accessed_spec _ _ _ _ _ E) as (Hl & Ha & Hb).
  exists a, b, (clear_all (k_mem s) (p_pages p) a). split; [done|].
  pose proof Hal as [Hnd Halg]. rewrite Hl, fmap_app, NoDup_app in Hnd. destruct Hnd as (Hnda & Hdis & _).
  rewrite Hl, Forall_app in Halg. destruct Halg as [Hala Halb].
  split_and!; [|done| |done|].
  - unfold get_page_to_swap, myproc, bind, gets. simpl. rewrite Hc. simpl. rewrite (getp_ok _ p) by done. simpl.
    pose proof (ring_length _ _ Hring) as Hle. destruct Hring as (Hr & Hndl & Hh). simpl in Hh. rewrite Hh.
    rewrite (scfifo_loop_ok _ _ p _ _ _ t), E; try done.
    + eapply Forall2_impl; [exact Hr|]. by intros ? ? [? _].
    + by apply NoDup_cons in Hndl as [? _].
    + unfold scfifo_fuel. simpl in Hle. lia.
  - apply Forall_forall. intros i Hi. unfold accessed. rewrite load32_clear_all by done.
    apply (accessed_clr _ _ 5); [apply load32_range|lia].
  - apply Forall_forall. intros i Hi. rewrite Forall_forall in Halb. apply clear_all_frame; [by constructor; auto|].
    intros Hin. apply (Hdis _ Hin). by apply list_elem_of_fmap_2.
Qed.
End second_chance.
