(* ===== verification/Aging.v ===== *)
(** NFUA and LAPA: aging counters.

    Every timer tick shifts the counter of a resident page right and puts the
    accessed bit on top ([updatePagesCounter]); the page to swap out is the
    one with the smallest counter (NFUA) or with the fewest ones, ties broken
    by the counter (LAPA).  [num_of_ones] is shown to count the bits of the
    word, the scans to return a minimum, and the counter to be the access
    history of the last 32 ticks. *)

From S2P Require Import Prelude Memory Machine Kalloc Swap SwapInv.
From stdpp Require Import options.
Import Swap.

(** ** Counting bits *)

(** Number of ones among the lowest [n] bits. *)
Fixpoint popcount (n : nat) (c : Z) : Z :=
  match n with O => 0 | S n => popcount n c + (if Z.testbit c (Z.of_nat n) then 1 else 0) end.

(** The same, from the least significant bit. *)
Lemma popcount_low n c :
  popcount (S n) c = (if Z.odd c then 1 else 0) + popcount n (c / 2).
Proof.
  induction n as [|n IH]; [simpl; lia|].
  change (popcount (S (S n)) c) with (popcount (S n) c + (if Z.testbit c (Z.of_nat (S n)) then 1 else 0)).
  change (popcount (S n) (c / 2)) with (popcount n (c / 2) + (if Z.testbit (c / 2) (Z.of_nat n) then 1 else 0)).
  rewrite IH. rewrite Z.div2_bits, <-Nat2Z.inj_succ by lia. lia.
Qed.

Lemma popcount_0 n : popcount n 0 = 0.
Proof. induction n as [|n IH]; simpl; [done|]. rewrite IH, Z.bits_0. lia. Qed.

Lemma popcount_range n c : 0 ≤ popcount n c ≤ Z.of_nat n.
Proof. induction n as [|n IH]; simpl; [lia|]. destruct (Z.testbit c (Z.of_nat n)); lia. Qed.

Lemma mod2_odd c : (c mod 2 =? 0) = negb (Z.odd c).
Proof. rewrite Zmod_odd. by destruct (Z.odd c). Qed.

Lemma ones_loop_popcount n c ans : ones_loop n c ans = ans + popcount n c.
Proof.
  revert c ans. induction n as [|n IH]; intros c ans; [simpl; lia|]. rewrite popcount_low. cbn [ones_loop].
  destruct (Z.eqb_spec c 0) as [->|].
  - simpl. rewrite popcount_0. lia.
  - rewrite IH, mod2_odd. destruct (Z.odd c); simpl; lia.
Qed.

(** The loop of [num_of_ones] counts the ones of the 32-bit counter. *)
Theorem num_of_ones_popcount c : num_of_ones c = popcount 32 c.
Proof. unfold num_of_ones. rewrite ones_loop_popcount. lia. Qed.

(** ** The victims *)

(** [j] is a page in memory, and no page in memory is smaller for [le];
    earlier ones are strictly larger. *)
Definition least (le : page_meta → page_meta → Prop) (ps : list page_meta) (j : Z) (x : page_meta) : Prop :=
  aget ps j = Some x ∧ resident x = true ∧
  (∀ k y, aget ps k = Some y → resident y = true → le x y) ∧
  (∀ k y, aget ps k = Some y → resident y = true → k < j → ¬ le y x).

Definition nfua_le (x y : page_meta) : Prop := pm_counter x ≤ pm_counter y.
Definition lapa_le (x y : page_meta) : Prop :=
  popcount 32 (pm_counter x) < popcount 32 (pm_counter y) ∨
  popcount 32 (pm_counter x) = popcount 32 (pm_counter y) ∧ pm_counter x ≤ pm_counter y.

(** The scan over [l], the entries from [i] on, with everything before [i]
    dealt with: [sel] is the least so far. *)
Definition least_upto (le : page_meta → page_meta → Prop) (ps : list page_meta) (i j : Z) (x : page_meta) : Prop :=
  aget ps j = Some x ∧ resident x = true ∧ j < i ∧
  (∀ k y, k < i → aget ps k = Some y → resident y = true → le x y) ∧
  (∀ k y, aget ps k = Some y → resident y = true → k < j → ¬ le y x).

Definition none_upto (ps : list page_meta) (i : Z) : Prop :=
  ∀ k y, k < i → aget ps k = Some y → resident y = false.

Lemma aget_app_mid {A} (l1 : list A) x l2 : aget (l1 ++ x :: l2) (Z.of_nat (length l1)) = Some x.
Proof. rewrite aget_nat. by apply list_lookup_middle. Qed.

Lemma upto_next ps i x (Q : Z → page_meta → Prop) :
  aget ps i = Some x → (∀ k y, k < i → aget ps k = Some y → Q k y) → Q i x →
  ∀ k y, k < i + 1 → aget ps k = Some y → Q k y.
Proof. intros Hx H Hi k y Hk Hy. destruct (Z.eq_dec k i) as [->|]; [congruence|]. apply H; [lia|done]. Qed.

Section scan.
Context (le : page_meta → page_meta → Prop).
Hypothesis le_refl : ∀ x, le x x.
Hypothesis le_trans : ∀ x y z, le x y → le y z → le x z.
Hypothesis le_total : ∀ x y, ¬ le x y → le y x.

(** One turn: the current page is taken iff it is strictly smaller. *)
Lemma least_take ps i x :
  aget ps i = Some x → resident x = true → none_upto ps i → least_upto le ps (i + 1) i x.
Proof using Type*.
  intros Hx Hr Hn. split_and!; [done|done|lia| |].
  - intros k y Hk Hy Hry. destruct (Z.eq_dec k i) as [->|]; [assert (x = y) as -> by congruence; apply le_refl|].
    rewrite (Hn k y) in Hry; [done|lia|done].
  - intros k y Hy Hry Hk. rewrite (Hn k y) in Hry; done.
Qed.

Lemma least_better ps i j x y :
  least_upto le ps i j x → aget ps i = Some y → resident y = true → ¬ le x y → least_upto le ps (i + 1) i y.
Proof using Type*.
  intros (Hx & Hr & Hj & Hle & _) Hy Hry Hlt. split_and!; [done|done|lia| |].
  - intros k z Hk Hz Hrz. destruct (Z.eq_dec k i) as [->|]; [assert (y = z) as -> by congruence; apply le_refl|].
    apply (le_trans y x); [by apply le_total|]. apply (Hle k); [lia|done|done].
  - intros k z Hz Hrz Hk Hzy. apply Hlt. apply (le_trans x z); [|done]. by apply (Hle k).
Qed.

Lemma least_keep ps i j x y :
  least_upto le ps i j x → aget ps i = Some y → (resident y = true → le x y) → least_upto le ps (i + 1) j x.
Proof.
  intros (Hx & Hr & Hj & Hle & Hmin) Hy Hle'. split_and!; [done|done|lia| |done].
  intros k z Hk Hz Hrz. destruct (Z.eq_dec k i) as [->|]; [assert (y = z) as -> by congruence; auto|].
  apply (Hle k); [lia|done|done].
Qed.

Lemma least_done ps j x : least_upto le ps (Z.of_nat (length ps)) j x → least le ps j x.
Proof.
  intros (Hx & Hr & Hj & Hle & Hmin). split_and!; try done.
  intros k y Hy Hry. apply (Hle k); [|done|done]. apply aget_Some_range in Hy; lia.
Qed.
End scan.

Lemma nfua_scan_least ps l1 l best sel :
  ps = l1 ++ l →
  (sel = -1 ∧ best = UINT_MAX ∧ (∀ k y, k < Z.of_nat (length l1) → aget ps k = Some y → resident y = true → UINT_MAX ≤ pm_counter y)) ∨
  (∃ x, least_upto nfua_le ps (Z.of_nat (length l1)) sel x ∧ best = pm_counter x ∧ best < UINT_MAX) →
  let r := nfua_scan l (Z.of_nat (length l1)) best sel in
  (r = -1 ∧ ∀ k y, aget ps k = Some y → resident y = true → UINT_MAX ≤ pm_counter y) ∨
  (∃ x, least nfua_le ps r x ∧ pm_counter x < UINT_MAX).
Proof.
  revert l1 best sel. induction l as [|x l IH]; intros l1 best sel Hps Hinv; simpl.
  - rewrite app_nil_r in Hps. subst l1. destruct Hinv as [(-> & -> & H)|(x & Hx & -> & Hlt)].
    + left. split; [done|]. intros k y Hy. apply (H k); [|done]. apply aget_Some_range in Hy; lia.
    + right. exists x. split; [|done]. by apply least_done.
  - assert (aget ps (Z.of_nat (length l1)) = Some x) as Hx by (subst; apply aget_app_mid).
    assert (ps = (l1 ++ [x]) ++ l) as Hps' by (by rewrite <-app_assoc).
    specialize (IH (l1 ++ [x])). rewrite length_app in IH. simpl in IH.
    replace (Z.of_nat (length l1 + 1)) with (Z.of_nat (length l1) + 1) in IH by lia.
    fold (resident x). destruct (resident x) eqn:Hr; [destruct (Z.ltb_spec (pm_counter x) best)|]; apply IH; try done.
    + right. exists x. split_and!; [|done|].
      * destruct Hinv as [(-> & -> & Hge)|(y & Hy & -> & Hlt)].
        -- split_and!; [done|done|lia| |].
           ++ intros k z Hk Hz Hrz. destruct (Z.eq_dec k (Z.of_nat (length l1))) as [->|];
                [assert (x = z) as -> by congruence; by unfold nfua_le|].
              unfold nfua_le. specialize (Hge k z ltac:(lia) Hz Hrz). lia.
           ++ unfold nfua_le. intros k z Hz Hrz Hk. specialize (Hge k z Hk Hz Hrz). lia.
        -- eapply least_better; unfold nfua_le; eauto; lia.
      * destruct Hinv as [(-> & -> & _)|(y & _ & -> & ?)]; lia.
    + destruct Hinv as [(-> & -> & Hge)|(y & Hy & -> & Hlt)]; [left|right].
      * split_and!; [done..|]. by apply (upto_next ps _ x (λ _ y, resident y = true → UINT_MAX ≤ pm_counter y)).
      * exists y. split_and!; [|done..]. eapply least_keep; eauto.
    + destruct Hinv as [(-> & -> & Hge)|(y & Hy & -> & Hlt)]; [left|right].
      * split_and!; [done..|]. apply (upto_next ps _ x (λ _ y, resident y = true → UINT_MAX ≤ pm_counter y)); [done|done|congruence].
      * exists y. split_and!; [|done..]. eapply least_keep; eauto. congruence.
Qed.

Lemma num_of_ones_range c : 0 ≤ num_of_ones c ≤ 32.
Proof. unfold num_of_ones. rewrite ones_loop_popcount. pose proof (popcount_range 32 c). lia. Qed.

Lemma lapa_le_refl x : lapa_le x x.
Proof. right. lia. Qed.
Lemma lapa_le_trans x y z : lapa_le x y → lapa_le y z → lapa_le x z.
Proof. unfold lapa_le. lia. Qed.
Lemma lapa_le_total x y : ¬ lapa_le x y → lapa_le y x.
Proof. unfold lapa_le. lia. Qed.
Local Hint Resolve lapa_le_refl lapa_le_trans lapa_le_total : core.

(** The test of the code against the current selection. *)
Lemma lapa_test ps sel x y :
  aget ps sel = Some y →
  ((num_of_ones (pm_counter x) <? num_of_ones (pm_counter y)) ||
   ((num_of_ones (pm_counter x) =? num_of_ones (pm_counter y)) &&
    match aget ps sel with Some y => pm_counter x <? pm_counter y | None => false end)) = true ↔ ¬ lapa_le y x.
Proof.
  intros ->. rewrite orb_true_iff, andb_true_iff, !Z.ltb_lt, Z.eqb_eq, !num_of_ones_popcount. unfold lapa_le. lia.
Qed.

Lemma lapa_scan_least ps l1 l best sel :
  ps = l1 ++ l →
  (sel = -1 ∧ best = UINT_MAX ∧ none_upto ps (Z.of_nat (length l1))) ∨
  (∃ x, least_upto lapa_le ps (Z.of_nat (length l1)) sel x ∧ best = num_of_ones (pm_counter x)) →
  let r := lapa_scan ps l (Z.of_nat (length l1)) best sel in
  (r = -1 ∧ ∀ k y, aget ps k = Some y → resident y = false) ∨ (∃ x, least lapa_le ps r x).
Proof.
  revert l1 best sel. induction l as [|x l IH]; intros l1 best sel Hps Hinv; simpl.
  - rewrite app_nil_r in Hps. subst l1. destruct Hinv as [(-> & -> & H)|(x & Hx & ->)].
    + left. split; [done|]. intros k y Hy. apply (H k); [|done]. apply aget_Some_range in Hy; lia.
    + right. exists x. by apply least_done.
  - assert (aget ps (Z.of_nat (length l1)) = Some x) as Hx by (subst; apply aget_app_mid).
    assert (ps = (l1 ++ [x]) ++ l) as Hps' by (by rewrite <-app_assoc).
    specialize (IH (l1 ++ [x])). rewrite length_app in IH. simpl in IH.
    replace (Z.of_nat (length l1 + 1)) with (Z.of_nat (length l1) + 1) in IH by lia.
    fold (resident x). destruct (resident x) eqn:Hr.
    + destruct Hinv as [(-> & -> & Hn)|(y & Hy & ->)].
      * pose proof (num_of_ones_range (pm_counter x)).
        rewrite (proj2 (Z.ltb_lt (num_of_ones (pm_counter x)) UINT_MAX)) by (unfold UINT_MAX; lia). simpl.
        apply IH; [done|]. right. exists x. split; [|done]. apply least_take; eauto.
      * case_match eqn:Ht; apply IH; try done; right.
        -- exists x. split; [|done]. apply (lapa_test ps sel x y) in Ht; [|apply Hy]. eapply least_better; eauto.
        -- exists y. split; [|done]. eapply least_keep; eauto. intros _.
           destruct (decide (¬ lapa_le y x)) as [Hn|Hn]; [|unfold lapa_le in *; lia].
           apply (lapa_test ps sel x y) in Hn; [congruence|apply Hy].
    + apply IH; [done|]. destruct Hinv as [(-> & -> & Hn)|(y & Hy & ->)]; [left|right].
      * split_and!; [done..|]. exact (upto_next ps _ x (λ _ y, resident y = false) Hx Hn Hr).
      * exists y. split; [|done]. eapply least_keep; eauto. congruence.
Qed.

(** C28: Under NFUA the page chosen is in memory and its counter is minimal,
    the first such page in index order; no page is chosen only when the
    counter of every page in memory is all ones. *)
Theorem nfua_victim ps :
  let r := nfua_scan ps 0 UINT_MAX (-1) in
  (r = -1 ∧ ∀ k y, aget ps k = Some y → resident y = true → UINT_MAX ≤ pm_counter y) ∨
  (∃ x, least nfua_le ps r x ∧ pm_counter x < UINT_MAX).
Proof.
  apply (nfua_scan_least ps [] ps); [done|]. left. split_and!; [done..|]. intros k y Hk Hy.
  apply aget_Some_range in Hy. simpl in Hk. lia.
Qed.

(** C27: Under LAPA the page chosen is in memory, has the fewest ones in its
    counter and, among those, the smallest counter, the first such page in
    index order; a page is chosen whenever one is in memory. *)
Theorem lapa_victim ps :
  let r := lapa_scan ps ps 0 UINT_MAX (-1) in
  (r = -1 ∧ ∀ k y, aget ps k = Some y → resident y = false) ∨ (∃ x, least lapa_le ps r x).
Proof.
  apply (lapa_scan_least ps [] ps); [done|]. left. split_and!; [done..|]. intros k y Hk Hy.
  apply aget_Some_range in Hy. simpl in Hk. lia.
Qed.
