(* ===== verification/Paging.v ===== *)
(** Paging of a process, for every policy that keeps its promise.

    [ReplPolicy SEL] states what swap.c expects of a replacement policy: its
    structure holds exactly the pages in memory, the hooks of [add_page],
    [remove_page], [swap_to_file] and [swap_from_file] add and remove one page
    and touch nothing else.  SCFIFO (the ring), NFUA and LAPA (counters only)
    are instances.  The theorems about the four operations are proved against
    the interface: they keep the bookkeeping invariant, never run out of swap
    slots, and a page that is swapped out comes back with its contents. *)

From S2P Require Import Prelude Memory Machine Kalloc Swap SwapInv Scfifo.
From stdpp Require Import options.
Import Swap.

(** ** The interface *)

(** The fields a policy's structure lives in. *)
Definition pview_same (p p' : proc) : Prop :=
  p_headp p' = p_headp p ∧
  (∀ i, pm_nextp <$> aget (p_pages p') i = pm_nextp <$> aget (p_pages p) i) ∧
  (∀ i, pm_prevp <$> aget (p_pages p') i = pm_prevp <$> aget (p_pages p) i).

(** A policy hook changes only the policy's fields. *)
Definition hook_frame (p p' : proc) : Prop :=
  core_same p p' ∧
  p' = p <| p_pages := p_pages p' |> <| p_headp := p_headp p' |> <| p_page_queue := p_page_queue p' |>.

(** What paging may change of a process. *)
Definition pkeep (p p' : proc) : Prop :=
  p' = Proc (p_sz p) (p_pgdir p) (p_kstack p) (p_state p) (p_pid p) (p_parent p) (p_tf p) (p_context p)
         (p_chan p) (p_killed p) (p_ofile p) (p_cwd p) (p_name p) (p_page_queue p') (p_swapFile p)
         (p_num_of_pages p') (p_phys_pages p') (p_pgflt_count p) (p_pgout_count p) (p_ignorePaging p)
         (p_file_size p') (p_pages p') (p_offsets p') (p_headp p').

#[global] Instance pkeep_trans : Transitive pkeep.
Proof. unfold pkeep. intros p q r H1 H2. rewrite H2, H1. reflexivity. Qed.

Lemma hook_keep p p' : hook_frame p p' → pkeep p p'.
Proof.
  intros [[_ H1 H2 H3] Hf]. unfold pkeep. rewrite H1, H2, H3.
  assert (p_file_size p' = p_file_size p) as -> by (by rewrite Hf). exact Hf.
Qed.

(** [swap_to_file]'s hook. *)
Definition unlink_policy (SEL : policy) (i : Z) : M proc unit :=
  if decide (SEL = SCFIFO) then scfifo_unlink i else skip.

Class ReplPolicy (SEL : policy) := {
  rp_some : SEL ≠ NONE;
  rp_members : gset Z → proc → Prop;
  rp_view R p p' : rp_members R p → pview_same p p' → rp_members R p';
  rp_init p : (SEL = SCFIFO → p_headp p = -1) → rp_members ∅ p;
  rp_add R i p :
    rp_members R p → i ∉ R → is_Some (aget (p_pages p) i) →
    wp (add_policy SEL i) (λ _ p', hook_frame p p' ∧ rp_members ({[i]} ∪ R) p') p;
  rp_swap_in R i p :
    rp_members R p → R ≠ ∅ → i ∉ R → is_Some (aget (p_pages p) i) →
    wp (swap_in_policy SEL i) (λ _ p', hook_frame p p' ∧ rp_members ({[i]} ∪ R) p') p;
  rp_remove R i p x :
    rp_members R p → aget (p_pages p) i = Some x → pm_on_phys x = bool_decide (i ∈ R) →
    wp (remove_policy SEL i) (λ _ p', hook_frame p p' ∧ rp_members (R ∖ {[i]}) p') p;
  rp_unlink R i p :
    rp_members R p → i ∈ R →
    wp (unlink_policy SEL i) (λ _ p', hook_frame p p' ∧ rp_members (R ∖ {[i]}) p') p;
}.

(** ** Instances *)

Lemma hook_frame_refl p : hook_frame p p.
Proof. split; [reflexivity|]. by destruct p. Qed.

(** Setting the counter of one entry. *)
Lemma mod_counter_hook i c p :
  is_Some (aget (p_pages p) i) →
  wp (mod_page i (λ x, x <| pm_counter := c |>)) (λ _ p', hook_frame p p') p.
Proof.
  intros Hi. apply wp_mod_amod; [done|]. destruct Hi as [x Hx]. split; [|done].
  split; try done. simpl. rewrite (amod_aset _ _ _ x) by done. by eapply core_aset.
Qed.

#[global] Program Instance nfua_policy : ReplPolicy NFUA := { rp_members R p := True }.
Next Obligation. done. Qed.
Next Obligation. done. Qed.
Next Obligation. done. Qed.
Next Obligation. intros R i p _ _ Hi. eapply wp_mono; [by apply mod_counter_hook|]. done. Qed.
Next Obligation. intros R i p _ _ _ Hi. eapply wp_mono; [by apply mod_counter_hook|]. done. Qed.
Next Obligation. intros R i p x _ _ _. apply wp_ret. split; [apply hook_frame_refl|done]. Qed.
Next Obligation. intros R i p _ _. apply wp_ret. split; [apply hook_frame_refl|done]. Qed.

#[global] Program Instance lapa_policy : ReplPolicy LAPA := { rp_members R p := True }.
Next Obligation. done. Qed.
Next Obligation. done. Qed.
Next Obligation. done. Qed.
Next Obligation. intros R i p _ _ Hi. eapply wp_mono; [by apply mod_counter_hook|]. done. Qed.
Next Obligation. intros R i p _ _ _ Hi. eapply wp_mono; [by apply mod_counter_hook|]. done. Qed.
Next Obligation. intros R i p x _ _ _. apply wp_ret. split; [apply hook_frame_refl|done]. Qed.
Next Obligation. intros R i p _ _. apply wp_ret. split; [apply hook_frame_refl|done]. Qed.

(** The ring holds the pages of [R], in some order. *)
Definition ring_members (R : gset Z) (p : proc) : Prop := ∃ l, ring_of p l ∧ list_to_set l = R.

Lemma ring_members_split R p i :
  ring_members R p → i ∈ R →
  ∃ l1 l2, ring_of p (l1 ++ i :: l2) ∧ list_to_set (l1 ++ l2) = R ∖ {[i]}.
Proof.
  intros (l & Hl & <-) Hi. apply elem_of_list_to_set, list_elem_of_split in Hi as (l1 & l2 & ->).
  exists l1, l2. split; [done|]. destruct Hl as (_ & Hnd & _).
  pose proof (not_in_rest l1 i l2 _ Hnd eq_refl). set_solver.
Qed.

Lemma unlinked_hook p l R (m : M proc unit) :
  wlp m (λ _ p', core_same p p') p → wp m (λ _ p', unlinked p p' l) p → list_to_set l = R →
  wp m (λ _ p', hook_frame p p' ∧ ring_members R p') p.
Proof.
  intros Hc Hw Hl. eapply wp_mono; [by apply (wp_and_wlp m); [exact Hw|exact Hc]|].
  intros _ q [[Hq Hr] Hcs]. split; [split; [done|]|by exists l]. rewrite Hq. by destruct p.
Qed.

Lemma scfifo_remove_core ind p : wlp (scfifo_remove ind) (λ _ p', core_same p p') p.
Proof.
  assert (core_same p p) by reflexivity. unfold scfifo_remove.
  eapply core_bind; [done|core1|intros x p1 ?]. eapply core_bind; [done| |intros ? p2 ?; core_tac].
  destruct (pm_on_phys x); [|by apply wlp_ret]. clear H H0. assert (core_same p1 p1) by reflexivity. core_tac.
Qed.

#[global] Program Instance scfifo_policy : ReplPolicy SCFIFO := { rp_members := ring_members }.
Next Obligation. done. Qed.
Next Obligation.
  intros R p p' (l & (Hr & Hnd & Hh) & Hl) (Hhd & Hn & Hp). exists l. split; [|done]. split_and!; [|done|congruence].
  eapply ring_ext; [done|intros; apply Hn|intros; apply Hp].
Qed.
Next Obligation. intros p Hh. specialize (Hh eq_refl). exists []. split; [|done]. split; [constructor|]. by split; [constructor|]. Qed.
Next Obligation.
  intros R i p (l & Hring & <-) Hni Hi. rewrite elem_of_list_to_set in Hni. cbn [add_policy].
  apply wp_bind, wp_get. destruct Hring as (Hr & Hnd & Hh). rewrite Hh. destruct l as [|h t]; simpl.
  - apply wp_bind, wp_modify. apply wp_mod_amod; [done|]. destruct Hi as [x Hx]. split; [split|].
    + split; try done. simpl. rewrite (amod_aset _ _ _ x) by done. by eapply core_aset.
    + by destruct p.
    + exists [i]. split; [|set_solver]. split_and!; [|by apply NoDup_singleton|done].
      apply Forall2_cons. split; [|done]. split; [apply nx_amod_set|apply pv_amod_set]; eauto.
  - assert (0 ≤ h). { destruct (ring_in_range _ _ h Hr) as [y Hy%aget_Some_range]; [by left|lia]. }
    destruct (Z.eqb_spec h (-1)); [lia|].
    eapply wp_mono; [apply (wp_and_wlp _ _ _ _ (scfifo_append_ring i p h t (conj Hr (conj Hnd Hh)) Hni Hi) (scfifo_append_core i p))|].
    intros _ q [[Hq Hr'] Hc]. split; [split; [done|]|].
    + rewrite Hq. by destruct p.
    + eexists. split; [done|]. set_solver.
Qed.
Next Obligation.
  intros R i p (l & Hring & <-) Hne Hni Hi. rewrite elem_of_list_to_set in Hni. cbn [swap_in_policy].
  destruct l as [|h t]; [done|].
  eapply wp_mono; [apply (wp_and_wlp _ _ _ _ (scfifo_append_ring i p h t Hring Hni Hi) (scfifo_append_core i p))|].
  intros _ q [[Hq Hr'] Hc]. split; [split; [done|]|].
  - rewrite Hq. by destruct p.
  - eexists. split; [done|]. set_solver.
Qed.
Next Obligation.
  intros R i p x HR Hx Hph. cbn [remove_policy]. case_bool_decide as Hi.
  - destruct (ring_members_split _ _ _ HR Hi) as (l1 & l2 & Hring & Hl).
    eapply unlinked_hook; [apply scfifo_remove_core|apply scfifo_remove_ring; [done|]|done]. congruence.
  - destruct HR as (l & Hring & <-). rewrite elem_of_list_to_set in Hi.
    eapply wp_eq; [eapply scfifo_remove_swapped; try done; by apply aget_Some_range in Hx as [? _]|].
    split; [apply hook_frame_refl|]. exists l. split; [done|]. set_solver.
Qed.
Next Obligation.
  intros R i p HR Hi. unfold unlink_policy. simpl.
  destruct (ring_members_split _ _ _ HR Hi) as (l1 & l2 & Hring & Hl).
  eapply unlinked_hook; [apply scfifo_unlink_core|by apply scfifo_unlink_ring|done].
Qed.

(** ** The abstract page map

    To the rest of the kernel the metadata of a process is a finite map from
    page-table entries to places: [None] for a page in memory, [Some off] for
    a page in the slot at [off] of the swap file. *)

Definition entry (x : page_meta) : option (Z * option Z) :=
  if pm_taken x then Some (pm_pte x, if pm_on_phys x then None else Some (pm_offset x)) else None.
Definition entries (ps : list page_meta) : list (Z * option Z) := omap entry ps.
Definition pmap (p : proc) : gmap Z (option Z) := list_to_map (entries (p_pages p)).

Lemma entries_ptes ps : (entries ps).*1 = taken_ptes ps.
Proof.
  unfold entries, taken_ptes, entry. induction ps as [|x ps IH]; [done|]. csimpl.
  destruct (pm_taken x); [|done]. by rewrite fmap_cons, IH.
Qed.

Lemma entries_core ps ps' : core <$> ps = core <$> ps' → entries ps = entries ps'.
Proof. apply core_omap. unfold entry. by intros x y (-> & -> & -> & ->)%core_fields. Qed.

(** Replacing the entry of a page. *)
Definition upd_entry (e : option (Z * option Z)) (m : gmap Z (option Z)) : gmap Z (option Z) :=
  match e with Some (k, v) => <[k := v]> m | None => m end.
Definition del_entry (e : option (Z * option Z)) (m : gmap Z (option Z)) : gmap Z (option Z) :=
  match e with Some (k, _) => delete k m | None => m end.

Lemma entries_perm l1 x l2 : entries (l1 ++ x :: l2) ≡ₚ option_list (entry x) ++ entries (l1 ++ l2).
Proof.
  unfold entries. rewrite !omap_app. csimpl. destruct (entry x); simpl; [|done]. by rewrite <-Permutation_middle.
Qed.

Lemma pmap_split l1 x l2 :
  NoDup (taken_ptes (l1 ++ x :: l2)) →
  list_to_map (M := gmap Z (option Z)) (entries (l1 ++ x :: l2)) = upd_entry (entry x) (list_to_map (entries (l1 ++ l2))) ∧
  del_entry (entry x) (list_to_map (entries (l1 ++ l2))) = list_to_map (M := gmap Z (option Z)) (entries (l1 ++ l2)).
Proof.
  rewrite <-entries_ptes. intros Hnd. rewrite (list_to_map_proper _ _ Hnd (entries_perm l1 x l2)).
  rewrite entries_perm, fmap_app in Hnd. destruct (entry x) as [[k v]|]; [|done]. simpl in *. split; [done|].
  apply NoDup_cons in Hnd as [Hk _]. apply delete_id. by apply not_elem_of_list_to_map_1.
Qed.

Lemma pmap_replace p p' ind x y :
  meta_ok p → meta_ok p' → aget (p_pages p) ind = Some x →
  core <$> p_pages p' = core <$> aset (p_pages p) ind y →
  pmap p' = upd_entry (entry y) (del_entry (entry x) (pmap p)).
Proof.
  intros Hp Hp' Hx Hc. pose proof (mo_ptes p' Hp') as Hnd'. unfold pmap.
  rewrite (entries_core _ _ Hc). rewrite <-entries_ptes, (entries_core _ _ Hc), entries_ptes in Hnd'.
  pose proof (mo_ptes p Hp) as Hnd. destruct (aset_split _ _ _ Hx) as (l1 & l2 & Hl & _ & Hset).
  rewrite Hset in *. rewrite Hl in *. destruct (pmap_split _ _ _ Hnd) as [-> Hd], (pmap_split _ _ _ Hnd') as [-> _].
  f_equal. destruct (entry x) as [[k v]|]; simpl in *; [|done]. by rewrite delete_insert_eq, Hd.
Qed.

Lemma pmap_lookup p page v :
  meta_ok p →
  pmap p !! page = Some v ↔
  ∃ i x, aget (p_pages p) i = Some x ∧ pm_taken x = true ∧ pm_pte x = page ∧
    v = if pm_on_phys x then None else Some (pm_offset x).
Proof.
  intros Hp. unfold pmap. rewrite <-elem_of_list_to_map by (rewrite entries_ptes; apply mo_ptes, Hp).
  unfold entries. rewrite list_elem_of_omap. split.
  - intros (x & [k Hk]%list_elem_of_lookup & He). unfold entry in He. destruct (pm_taken x) eqn:Ht; [|done].
    exists (Z.of_nat k), x. rewrite aget_nat. by simplify_eq.
  - intros (i & x & Hx & Ht & <- & ->). exists x. split.
    + unfold aget in Hx. destruct (i <? 0); [done|]. by eapply list_elem_of_lookup_2.
    + unfold entry. by rewrite Ht.
Qed.

(** The search the code makes agrees with the map. *)
Lemma find_page_ind_map p page :
  meta_ok p →
  (pmap p !! page = None ∧ find_page_ind p page = -1) ∨
  (∃ x, aget (p_pages p) (find_page_ind p page) = Some x ∧ pm_taken x = true ∧ pm_pte x = page ∧
     find_page_ind p page ≠ -1 ∧ pmap p !! page = Some (if pm_on_phys x then None else Some (pm_offset x))).
Proof.
  intros Hp. destruct (Z.eq_dec (find_page_ind p page) (-1)) as [Hs|Hs].
  - left. split; [|done]. unfold find_page_ind in Hs. apply eq_None_not_Some. intros [v Hv].
    apply pmap_lookup in Hv as (i & x & Hx & Ht & <- & _); [|done].
    eapply scan_exists in Hs; [done|exact Hx|]. simpl. by rewrite Z.eqb_refl, Ht.
  - right. pose proof Hs as Hs'. apply scan_pos in Hs as (x & Hx & Hf & _). apply andb_prop in Hf as [Hf Ht].
    apply Z.eqb_eq in Hf. exists x. split_and!; try done. apply pmap_lookup; [done|]. eauto 10.
Qed.

(** ** The operations on the metadata *)

Definition resident_at (p : proc) (i : Z) : Prop := ∃ x, aget (p_pages p) i = Some x ∧ resident x = true.

(** The entries after one entry changed, up to the policy's fields. *)
Lemma resident_at_replace p p' ind x y i :
  aget (p_pages p) ind = Some x → core <$> p_pages p' = core <$> aset (p_pages p) ind y →
  resident_at p' i ↔ if decide (i = ind) then resident y = true else resident_at p i.
Proof.
  intros Hx Hc. pose proof (aget_Some_range _ _ _ Hx) as Hr.
  assert (∀ i : Z, (core <$> aget (p_pages p') i) = (core <$> aget (aset (p_pages p) ind y) i)) as Hc'.
  { intros j. unfold aget. destruct (j <? 0); [done|]. by rewrite <-!list_lookup_fmap, Hc. }
  specialize (Hc' i). unfold resident_at. rewrite aget_aset in Hc' by done.
  destruct (decide (i = ind)) as [->|Hi]; [rewrite decide_True in Hc' by done|rewrite decide_False in Hc' by congruence].
  - destruct (aget (p_pages p') ind) as [z|]; [|done]. simpl in Hc'. injection Hc' as _ _ E1 E2.
    unfold resident. rewrite <-E1, <-E2. split; [by intros (? & [= <-] & ?)|eauto].
  - destruct (aget (p_pages p') i) as [z|], (aget (p_pages p) i) as [w|]; try done.
    simpl in Hc'. injection Hc' as _ _ E1 E2. unfold resident.
    split; intros (? & [= <-] & ?); eexists; (split; [done|]); congruence.
Qed.

(** The policy's fields of an entry that is rewritten. *)
Lemma pview_aset p p' ind x y :
  aget (p_pages p) ind = Some x → p_pages p' = aset (p_pages p) ind y → p_headp p' = p_headp p →
  pm_nextp y = pm_nextp x → pm_prevp y = pm_prevp x → pview_same p p'.
Proof.
  intros Hx Hps Hh Hn Hp. pose proof (aget_Some_range _ _ _ Hx). split; [done|].
  split; intros i; rewrite Hps, aget_aset by done; (case_decide; [subst; rewrite Hx; simpl; congruence|done]).
Qed.

Lemma free_entry p ind x :
  meta_ok p → aget (p_pages p) ind = Some x → pm_taken x = false → pm_on_phys x = false ∧ pm_offset x = -1.
Proof.
  intros Hok Hx Ht. pose proof (mo_entry p Hok) as He. destruct (aset_split _ _ _ Hx) as (l1 & l2 & Hl & _).
  rewrite Hl, Forall_app, Forall_cons in He. destruct He as (_ & He & _). unfold entry_ok in He. by rewrite Ht in He.
Qed.

#[global] Instance pview_trans : Transitive pview_same.
Proof. intros p q r (H1 & H2 & H3) (K1 & K2 & K3). split; [congruence|]. split; intros i; [by rewrite K2|by rewrite K3]. Qed.

Lemma core_aset_list l i y : core <$> aset l i y = aset (core <$> l) i (core y).
Proof. unfold aset. destruct (i <? 0); [done|]. apply list_fmap_insert. Qed.

Lemma core_aget l i C c :
  core <$> l = aset C i c → 0 ≤ i < Z.of_nat (length C) → ∃ x, aget l i = Some x ∧ core x = c.
Proof.
  intros Hl Hi. destruct (aget_is_Some l i) as [x Hx].
  - rewrite <-(length_fmap core), Hl, length_aset. done.
  - exists x. split; [done|]. assert (aget (core <$> l) i = Some (core x)) as Hc.
    { unfold aget in *. destruct (i <? 0); [done|]. by rewrite list_lookup_fmap, Hx. }
    rewrite Hl, aget_aset_eq in Hc by done. by injection Hc.
Qed.

(** A free entry. *)
Definition blank : Z * Z * bool * bool := (0, -1, false, false).

Ltac core_eq := let x := fresh in intros x; unfold core, blank; intros [= ? ? ? ?]; simpl; congruence.

(** An entry whose core is known is changed, outside the policy's fields. *)
Lemma mod_core C ind c c' f p :
  core <$> p_pages p = aset C ind c → 0 ≤ ind < Z.of_nat (length C) →
  (∀ x, core x = c → core (f x) = c') → (∀ x, pm_nextp (f x) = pm_nextp x) → (∀ x, pm_prevp (f x) = pm_prevp x) →
  wp (mod_page ind f) (λ _ p', core <$> p_pages p' = aset C ind c' ∧ pview_same p p' ∧
     p' = p <| p_pages := p_pages p' |>) p.
Proof.
  intros Hc Hi Hf Hn Hp. destruct (core_aget _ _ _ _ Hc Hi) as (x & Hx & Hcx).
  eapply wp_mod_page; [exact Hx|]. split_and!; [|by apply (pview_aset _ _ ind x (f x))|done].
  simpl. by rewrite core_aset_list, Hc, aset_aset, (Hf x).
Qed.

Lemma hook_core C ind c p p' :
  core <$> p_pages p = aset C ind c → hook_frame p p' → core <$> p_pages p' = aset C ind c.
Proof. intros Hc [Hcs _]. by rewrite (cs_pages _ _ Hcs). Qed.

Section paging.
Context (SEL : policy) `{!ReplPolicy SEL}.

(** The metadata are consistent and the policy knows the pages in memory. *)
Definition paging_ok (p : proc) : Prop :=
  meta_ok p ∧ ∃ R, rp_members R p ∧ ∀ i, i ∈ R ↔ resident_at p i.

Lemma u32_pred n : 0 < n ≤ 32 → u32 (n - 1) = n - 1.
Proof. intros. apply u32_id. lia. Qed.
Lemma u32_succ n : 0 ≤ n ≤ 32 → u32 (n + 1) = n + 1.
Proof. intros. apply u32_id. lia. Qed.

Lemma cnt_bound {A} (f : A → bool) l : length l = Z.to_nat MAX_TOTAL_PAGES → 0 ≤ cnt f l ≤ 32.
Proof. intros Hl. pose proof (cnt_range f l). rewrite Hl in H. klia. Qed.

Lemma meta_ok_counts p : meta_ok p → 0 ≤ p_num_of_pages p ≤ 32 ∧ 0 ≤ p_phys_pages p ≤ 32.
Proof.
  intros [Hl _ _ _ _ -> ->]. split; by apply cnt_bound.
Qed.

(** A fresh page enters the map. *)
Lemma add_page_spec page va p :
  paging_ok p → p_ignorePaging p = false → pmap p !! page = None → p_num_of_pages p < MAX_TOTAL_PAGES →
  wp (add_page SEL page va) (λ r p', r = 1 ∧ paging_ok p' ∧ pmap p' = <[page := None]> (pmap p) ∧
     p_num_of_pages p' = p_num_of_pages p + 1 ∧ p_phys_pages p' = p_phys_pages p + 1 ∧ pkeep p p' ∧
     p_offsets p' = p_offsets p) p.
Proof.
  intros [Hok (R & HR & Hres)] Hig Hnew Hnum. destruct (meta_ok_counts p Hok) as [Hn1 Hn2].
  unfold add_page. wp_steps. rewrite decide_False by apply rp_some. wp_steps. rewrite Hig.
  set (p1 := p <| p_num_of_pages ::= _ |> <| p_phys_pages ::= _ |>). set (ind := find_free_slot p1).
  assert (ind ≠ -1) as Hind.
  { unfold ind, find_free_slot. intros Hs. apply scan_neg in Hs. simpl in Hs.
    assert (cnt pm_taken (p_pages p) = Z.of_nat (length (p_pages p))) as Hc.
    { apply cnt_full. eapply Forall_impl; [exact Hs|]. by intros x ?%negb_false_iff. }
    rewrite <-(mo_num p Hok), (mo_len p Hok) in Hc. klia. }
  destruct (scan_pos _ _ Hind) as (x & Hx & Hfree & _). apply negb_true_iff in Hfree. fold (find_free_slot p1) in Hx.
  fold ind in Hx. rewrite (proj2 (Z.eqb_neq _ _) Hind). apply wp_bind. eapply wp_mod_page; [exact Hx|].
  set (y := x <| pm_pte := page |> <| pm_taken := true |> <| pm_on_phys := true |> <| pm_va := va |>).
  set (p2 := p1 <| p_pages := _ |>). change (p_pages p1) with (p_pages p) in Hx.
  assert (¬ resident_at p ind) as Hnr.
  { intros (x' & Hx' & Hr). unfold resident in Hr. simplify_eq. by rewrite Hfree in Hr. }
  assert (rp_members R p2) as HR2.
  { eapply rp_view; [exact HR|]. by apply pview_aset with (ind := ind) (x := x) (y := y). }
  apply wp_bind. eapply wp_mono; [apply (rp_add R ind p2 HR2)|].
  { by rewrite Hres. }
  { change (p_pages p2) with (aset (p_pages p) ind y). rewrite aget_aset_eq; [eauto|]. by eapply aget_Some_range. }
  intros _ p' [Hh HR']. apply wp_ret. pose proof Hh as [Hcs _].
  assert (core <$> p_pages p' = core <$> aset (p_pages p) ind y) as Hc by apply Hcs.
  pose proof (free_entry p ind x Hok Hx Hfree) as [Hph Hoff].
  assert (p_num_of_pages p' = p_num_of_pages p + 1) as Hnum' by (rewrite (cs_num _ _ Hcs); apply u32_succ; lia).
  assert (p_phys_pages p' = p_phys_pages p + 1) as Hphys' by (rewrite (cs_phys _ _ Hcs); apply u32_succ; lia).
  assert (meta_ok p') as Hok'.
  { eapply (meta_replace p p' ind x y); try done.
    - rewrite (cs_offs _ _ Hcs). unfold own, y. simpl. by rewrite Hoff.
    - by rewrite (cs_offs _ _ Hcs).
    - intros _. rewrite Hfree. by rewrite <-entries_ptes, not_elem_of_list_to_map.
    - rewrite Hfree, Hnum'. simpl. lia.
    - unfold resident. rewrite Hfree, Hphys'. simpl. lia. }
  split_and!; [done| |rewrite (pmap_replace p p' ind x y) by done; unfold entry; by rewrite Hfree|done..|by etransitivity; [|apply (hook_keep p2)]|exact (cs_offs _ _ Hcs)].
  split; [done|]. exists ({[ind]} ∪ R). split; [done|]. intros i. rewrite (resident_at_replace p p' ind x y) by done.
  rewrite elem_of_union, elem_of_singleton, Hres. case_decide; [by simpl; tauto|]. tauto.
Qed.

(** [add_page] succeeds only if there was a free entry. *)
Lemma add_page_room page va p p' :
  paging_ok p → p_ignorePaging p = false → add_page SEL page va p = Ok 1 p' → p_num_of_pages p < MAX_TOTAL_PAGES.
Proof.
  intros [Hok _] Hig E. destruct (Z.lt_ge_cases (p_num_of_pages p) MAX_TOTAL_PAGES) as [|Hfull]; [done|]. exfalso. revert E.
  assert (∀ p1, p_pages p1 = p_pages p → find_free_slot p1 = -1) as Hnone.
  { intros p1 Hp1. apply scan_neg. rewrite Hp1. assert (cnt pm_taken (p_pages p) = Z.of_nat (length (p_pages p))) as Hc.
    { pose proof (cnt_range pm_taken (p_pages p)) as Hr. rewrite <-(mo_num p Hok), (mo_len p Hok) in *. klia. }
    apply cnt_full in Hc. eapply Forall_impl; [exact Hc|]. by intros x ->. }
  unfold add_page, bind, modify. simpl. rewrite decide_False by apply rp_some. simpl. rewrite Hig, Hnone by done. done.
Qed.

(** A page of the map, freed. *)
Lemma used_slot_not_free p ind x :
  meta_ok p → aget (p_pages p) ind = Some x → pm_offset x ≠ -1 →
  length (free_offs (p_offsets p)) ≠ length (p_offsets p).
Proof.
  intros Hok Hx Ho Hlen. pose proof (Permutation_length (mo_slots p Hok)) as Hl.
  rewrite length_app, Hlen, (mo_olen p Hok) in Hl. destruct (aset_split _ _ _ Hx) as (l1 & l2 & Hps & _).
  rewrite Hps, used_offs_app, used_offs_cons, !length_app in Hl. unfold own, pos_offset in Hl.
  rewrite (proj2 (Z.eqb_neq _ _) Ho) in Hl. unfold slots in Hl. rewrite length_fmap, length_seq in Hl.
  change (length (option_list (Some (pm_offset x)))) with 1%nat in Hl. lia.
Qed.

(** The end of [remove_page]: the slot of the page goes back to the pool. *)
Lemma release_slot p C ind off :
  core <$> p_pages p = aset C ind (0, off, false, false) → 0 ≤ ind < Z.of_nat (length C) →
  (off ≠ -1 → length (free_offs (p_offsets p)) ≠ length (p_offsets p)) →
  wp (x <- page_at ind ;;
      (if negb (pm_offset x =? -1) then
         free_offset (pm_offset x) ;; mod_page ind (λ x, x <| pm_offset := -1 |>)
       else skip) ;; ret 1)
     (λ r p', r = 1 ∧ core <$> p_pages p' = aset C ind blank ∧ pview_same p p' ∧
        free_offs (p_offsets p') ≡ₚ option_list (pos_offset off) ++ free_offs (p_offsets p) ∧
        length (p_offsets p') = length (p_offsets p) ∧
        (∀ m, pool_ok m (p_offsets p) → (off ≠ -1 → off + PGSIZE ≤ m * PGSIZE) → pool_ok m (p_offsets p')) ∧
        p' = p <| p_pages := p_pages p' |> <| p_offsets := p_offsets p' |>) p.
Proof.
  intros Hc Hi Hlen. destruct (core_aget _ _ _ _ Hc Hi) as (x & Hx & [= _ Hoff _ _]).
  wp_steps. eapply wp_page_at; [exact Hx|]. unfold pos_offset. rewrite Hoff.
  destruct (Z.eqb_spec off (-1)) as [->|Hne]; simpl.
  - wp_steps. split_and!; try done. by destruct p.
  - destruct (free_offset_spec off p Hne) as [[Hl _]|(offs & Hfo & Hperm & Hl)]; [by specialize (Hlen Hne)|].
    apply wp_bind, wp_bind. eapply wp_eq; [exact Hfo|].
    eapply wp_mono; [eapply (mod_core C ind (0, off, false, false) blank); try done; core_eq|].
    intros _ p' (Hc' & Hv & Hp'). apply wp_ret. rewrite Hp'. split_and!; try done; [by rewrite <-Hp'|].
    intros m Hm Ho. exact (free_offset_pool m p off _ Hm (Ho Hne) Hfo).
Qed.

(** Resident pages have their frame counted, and are members. *)
Lemma members_on_phys p (R : gset Z) ind x :
  (∀ i, i ∈ R ↔ resident_at p i) → aget (p_pages p) ind = Some x → pm_taken x = true →
  pm_on_phys x = bool_decide (ind ∈ R).
Proof.
  intros Hres Hx Ht. case_bool_decide as Hi; rewrite Hres in Hi.
  - destruct Hi as (x' & Hx' & Hr). simplify_eq. by apply andb_prop in Hr as [_ ?].
  - destruct (pm_on_phys x) eqn:Hph; [|done]. destruct Hi. exists x. split; [done|]. unfold resident. by rewrite Ht.
Qed.

Lemma meta_ok_pos p ind x :
  meta_ok p → aget (p_pages p) ind = Some x → pm_taken x = true →
  0 < p_num_of_pages p ∧ (pm_on_phys x = true → 0 < p_phys_pages p).
Proof.
  intros Hok Hx Ht. rewrite (mo_num p Hok), (mo_phys p Hok).
  destruct (aset_split _ _ _ Hx) as (l1 & l2 & -> & _). rewrite !cnt_app. simpl. unfold resident at 2. rewrite Ht.
  pose proof (cnt_range pm_taken l1). pose proof (cnt_range pm_taken l2).
  pose proof (cnt_range resident l1). pose proof (cnt_range resident l2).
  split; [lia|]. intros ->. simpl. lia.
Qed.

Lemma owned_below m p ind x :
  meta_ok p → pool_ok m (p_offsets p) → aget (p_pages p) ind = Some x → pm_offset x ≠ -1 →
  pm_offset x + PGSIZE ≤ m * PGSIZE.
Proof.
  intros Hok Hm Hx Ho. apply (used_below m p); [done..|]. destruct (aset_split _ _ _ Hx) as (l1 & l2 & -> & _).
  rewrite used_offs_app, used_offs_cons. apply elem_of_app. right. apply elem_of_app. left. unfold own, pos_offset.
  rewrite (proj2 (Z.eqb_neq _ _) Ho). by left.
Qed.

(** The body of [remove_page] once the entry is found. *)
Lemma remove_body p p2 R ind x :
  meta_ok p → rp_members R p → aget (p_pages p) ind = Some x → pm_on_phys x = bool_decide (ind ∈ R) →
  p_pages p2 = aset (p_pages p) ind (x <| pm_taken := false |> <| pm_pte := 0 |>) →
  p_headp p2 = p_headp p → p_offsets p2 = p_offsets p →
  wp (remove_policy SEL ind ;;
      mod_page ind (λ x, x <| pm_on_phys := false |>) ;;
      (match SEL with NFUA | LAPA => mod_page ind (λ x, x <| pm_counter := 0 |>) | _ => skip end) ;;
      x <- page_at ind ;;
      (if negb (pm_offset x =? -1) then
         free_offset (pm_offset x) ;; mod_page ind (λ x, x <| pm_offset := -1 |>)
       else skip) ;; ret 1)
     (λ r p', r = 1 ∧ core <$> p_pages p' = aset (core <$> p_pages p) ind blank ∧ rp_members (R ∖ {[ind]}) p' ∧
        free_offs (p_offsets p') ≡ₚ own x ++ free_offs (p_offsets p) ∧
        length (p_offsets p') = length (p_offsets p) ∧
        p_num_of_pages p' = p_num_of_pages p2 ∧ p_phys_pages p' = p_phys_pages p2 ∧ pkeep p2 p' ∧
        (∀ m, pool_ok m (p_offsets p) → pool_ok m (p_offsets p'))) p2.
Proof.
  intros Hok HR Hx Hph Hps2 Hh2 Ho2. pose proof (aget_Some_range _ _ _ Hx) as Hrng.
  assert (0 ≤ ind < Z.of_nat (length (core <$> p_pages p))) as Hrng' by (by rewrite length_fmap).
  assert (rp_members R p2) as HR2.
  { eapply rp_view; [exact HR|]. by eapply pview_aset. }
  assert (core <$> p_pages p2 = aset (core <$> p_pages p) ind (0, pm_offset x, pm_on_phys x, false)) as Hc2
    by (by rewrite Hps2, core_aset_list).
  apply wp_bind. eapply wp_mono; [eapply (rp_remove R ind p2); [done|rewrite Hps2; by apply aget_aset_eq|done]|].
  intros _ p3 [Hfr HR3]. pose proof (hook_core _ _ _ _ _ Hc2 Hfr) as Hc3.
  pose proof (hook_keep _ _ Hfr) as Hk3. destruct Hfr as [[_ Ho3 Hn3 Hp3] _].
  apply wp_bind. eapply wp_mono; [apply (mod_core _ _ _ (0, pm_offset x, false, false) _ _ Hc3 Hrng'); [core_eq|done|done]|].
  intros _ p4 (Hc4 & Hv4 & Hfr4).
  assert (wp (match SEL with NFUA | LAPA => mod_page ind (λ x, x <| pm_counter := 0 |>) | _ => skip end)
    (λ _ p5, core <$> p_pages p5 = aset (core <$> p_pages p) ind (0, pm_offset x, false, false) ∧ pview_same p4 p5 ∧
       p5 = p4 <| p_pages := p_pages p5 |>) p4) as Hcnt.
  { destruct SEL; try (apply wp_ret; split_and!; [done|done|by destruct p4]);
      (apply (mod_core _ _ _ _ _ _ Hc4 Hrng'); [core_eq|done|done]). }
  apply wp_bind. eapply wp_mono; [exact Hcnt|]. intros _ p5 (Hc5 & Hv5 & Hfr5). clear Hcnt.
  assert (p_offsets p5 = p_offsets p) as Ho5 by (rewrite Hfr5, Hfr4; simpl; congruence).
  eapply wp_mono; [apply (release_slot _ _ _ _ Hc5 Hrng')|].
  { rewrite Ho5. by eapply used_slot_not_free. }
  intros r p6 (-> & Hc6 & Hv6 & Hperm & Hlen & Hpool & Hfr6). rewrite Ho5 in *.
  split_and!; [done|done| |done|done| | | |intros m Hm; apply Hpool; [done|by eapply owned_below]].
  - eapply rp_view; [exact HR3|]. etransitivity; [exact Hv4|]. by etransitivity.
  - rewrite Hfr6. simpl. rewrite Hfr5. simpl. rewrite Hfr4. simpl. done.
  - rewrite Hfr6. simpl. rewrite Hfr5. simpl. rewrite Hfr4. simpl. done.
  - etransitivity; [exact Hk3|]. rewrite Hfr6, Hfr5, Hfr4. by destruct p3.
Qed.

Lemma remove_page_spec page v p :
  paging_ok p → p_ignorePaging p = false → pmap p !! page = Some v →
  wp (remove_page SEL page) (λ r p', r = 1 ∧ paging_ok p' ∧ pmap p' = delete page (pmap p) ∧
     p_num_of_pages p' = p_num_of_pages p - 1 ∧ pkeep p p' ∧
     (∀ m, pool_ok m (p_offsets p) → pool_ok m (p_offsets p'))) p.
Proof.
  intros [Hok (R & HR & Hres)] Hig Hv. destruct (meta_ok_counts p Hok) as [Hn1 Hn2].
  destruct (find_page_ind_map p page Hok) as [[? _]|(x & Hx & Ht & Hpte & Hne & _)]; [congruence|].
  pose proof (meta_ok_pos _ _ _ Hok Hx Ht) as [Hnpos Hppos].
  pose proof (members_on_phys _ _ _ _ Hres Hx Ht) as Hph.
  unfold remove_page. wp_steps. rewrite Hig. rewrite decide_False by apply rp_some.
  rewrite (proj2 (Z.eqb_neq _ _) Hne). wp_steps. eapply wp_page_at; [exact Hx|].
  set (p1 := if pm_on_phys x then p <| p_num_of_pages ::= λ n, u32 (n - 1) |> <| p_phys_pages ::= λ n, u32 (n - 1) |>
             else p <| p_num_of_pages ::= λ n, u32 (n - 1) |>).
  apply wp_bind. apply (wp_eq _ _ _ tt p1); [unfold p1; by destruct (pm_on_phys x)|].
  assert (p_pages p1 = p_pages p) as Hps1 by (unfold p1; by destruct (pm_on_phys x)).
  apply wp_bind. eapply wp_mod_page; [rewrite Hps1; exact Hx|].
  eapply wp_mono; [apply (remove_body p _ R (find_page_ind p page) x); try done; simpl; try (by rewrite Hps1); unfold p1; by destruct (pm_on_phys x)|].
  intros r p' (-> & Hc & HR' & Hperm & Hlen & Hnum & Hphys & Hk & Hpool).
  set (y := PageMeta 0 0 (-1) false false 0 0 0 0).
  assert (core <$> p_pages p' = core <$> aset (p_pages p) (find_page_ind p page) y) as Hc' by (by rewrite core_aset_list).
  assert (p_num_of_pages p' = p_num_of_pages p - 1) as Hnum'.
  { rewrite Hnum. unfold p1. destruct (pm_on_phys x); apply u32_pred; lia. }
  assert (meta_ok p') as Hok'.
  { eapply (meta_replace p p' (find_page_ind p page) x y); try done.
    - unfold own at 1. simpl. rewrite app_nil_r, Hperm. apply Permutation_app_comm.
    - rewrite Ht, Hnum'. simpl. lia.
    - rewrite Hphys. unfold resident, p1. rewrite Ht. destruct (pm_on_phys x) eqn:E; simpl; [|lia].
      specialize (Hppos eq_refl). rewrite u32_pred by lia. lia. }
  split_and!; [done| | |done|etransitivity; [|exact Hk]; unfold p1; by destruct (pm_on_phys x), p|done].
  - split; [done|]. exists (R ∖ {[find_page_ind p page]}). split; [done|]. intros i.
    rewrite (resident_at_replace p p' _ x y) by done. rewrite elem_of_difference, elem_of_singleton, Hres.
    destruct (decide (i = find_page_ind p page)); [split; [tauto|done]|tauto].
  - rewrite (pmap_replace p p' _ x y) by done. unfold entry at 2. rewrite Ht, Hpte. done.
Qed.

Lemma pool_init : pool_ok 0 slots.
Proof.
  split; [lia|]. intros i o Hi. pose proof (aget_Some_range _ _ _ Hi). split; [lia|]. intros _.
  unfold aget in Hi. destruct (Z.ltb_spec i 0); [lia|]. unfold slots in Hi. rewrite list_lookup_fmap in Hi.
  destruct (seq _ _ !! _) eqn:E; [|done]. apply lookup_seq in E as [-> _]. injection Hi as <-. simpl. rewrite Z2Nat.id by lia. done.
Qed.

(** An empty map, with every slot in the pool. *)
Lemma init_page_meta_spec p :
  length (p_pages p) = Z.to_nat MAX_TOTAL_PAGES →
  wp (init_page_meta SEL) (λ r p', r = 0 ∧ paging_ok p' ∧ pmap p' = ∅ ∧ p_num_of_pages p' = 0 ∧
     p_ignorePaging p' = p_ignorePaging p ∧ p_swapFile p' = p_swapFile p ∧ pool_ok 0 (p_offsets p')) p.
Proof.
  intros Hlen. set (fresh := λ x : page_meta, pm_taken x = false ∧ pm_on_phys x = false ∧ pm_offset x = -1).
  unfold init_page_meta. apply wp_bind, wp_modify, wp_bind.
  set (p1 := _ <| p_pgout_count := 0 |>). set (p2 := if decide (SEL = SCFIFO) then p1 <| p_headp := -1 |> else p1).
  apply (wp_eq _ _ _ tt p2); [unfold p2; by case_decide|]. rewrite decide_False by apply rp_some.
  apply wp_bind, wp_modify, wp_bind, wp_modify, wp_bind.
  set (p3 := _ <| p_offsets := _ |>).
  assert (∃ q, (if decide (SEL = AQ) then initQueue else skip) p3 = Ok tt (p3 <| p_page_queue := q |>)) as [q Hq].
  { case_decide; [by eexists|]. exists (p_page_queue p3). by destruct p3. }
  eapply wp_eq; [exact Hq|]. apply wp_ret.
  assert (Forall fresh (p_pages p3)) as Hfr.
  { apply Forall_fmap, Forall_true. intros x. by destruct SEL. }
  assert (p_num_of_pages p3 = 0 ∧ p_phys_pages p3 = 0) as [Hn Hp] by (unfold p3, p2, p1; simpl; destruct (decide (SEL = SCFIFO)); by split).
  assert (length (p_pages p3) = length (p_pages p)) as Hl3 by (unfold p3, p2; simpl; rewrite length_fmap; by destruct (decide (SEL = SCFIFO))).
  assert (∀ {B} (f : page_meta → option B), (∀ x, fresh x → f x = None) → omap f (p_pages p3) = []) as Hom.
  { intros B f Hf. revert Hfr. generalize (p_pages p3). induction 1 as [|x l Hx _ IH]; [done|]. csimpl. by rewrite Hf. }
  split_and!; [done| |unfold pmap, entries; simpl; rewrite Hom; [done|] |done| | |].
  - split.
    + apply (meta_ok_core p3); [|by split]. split; [by rewrite Hl3|done| | | | |].
      * eapply Forall_impl; [exact Hfr|]. intros x (Ht & ? & ?). unfold entry_ok. by rewrite Ht.
      * unfold used_offs. rewrite Hom; [by rewrite app_nil_r|]. intros x (_ & _ & ->). done.
      * unfold taken_ptes. rewrite Hom; [constructor|]. by intros x (-> & _).
      * rewrite Hn. symmetry. apply cnt_zero. eapply Forall_impl; [exact Hfr|]. by intros x (? & _).
      * rewrite Hp. symmetry. apply cnt_zero. eapply Forall_impl; [exact Hfr|]. intros x (Ht & _). unfold resident. by rewrite Ht.
    + exists ∅. split; [apply rp_init; intros ->; done|]. intros i. split; [by intros ?%not_elem_of_empty|].
      intros (x & Hx & Hr). change (aget (p_pages p3) i = Some x) in Hx. rewrite Forall_lookup in Hfr. unfold aget in Hx. destruct (i <? 0); [done|].
      destruct (Hfr _ _ Hx) as (Ht & _). unfold resident in Hr. by rewrite Ht in Hr.
  - intros x (Ht & _). unfold entry. by rewrite Ht.
  - unfold p3, p2. simpl. by destruct (decide (SEL = SCFIFO)).
  - unfold p3, p2. simpl. by destruct (decide (SEL = SCFIFO)).
  - change (pool_ok 0 slots). apply pool_init.
Qed.

(** *** Swapping out *)

(** A slot is free as long as fewer pages are swapped out than there are slots. *)
Lemma used_offs_length ps : Forall entry_ok ps → Z.of_nat (length (used_offs ps)) = cnt pm_taken ps - cnt resident ps.
Proof.
  induction 1 as [|x ps Hx _ IH]; [done|]. rewrite used_offs_cons, length_app. simpl. unfold own, pos_offset, entry_ok, resident in *.
  destruct (pm_taken x), (pm_on_phys x), (Z.eqb_spec (pm_offset x) (-1)); simpl in *; try lia; naive_solver.
Qed.

Lemma slot_available p :
  meta_ok p → p_num_of_pages p - p_phys_pages p < MAX_SWAP_FILE_SZ → free_offs (p_offsets p) ≠ [].
Proof.
  intros Hok Hlt Hnil. pose proof (Permutation_length (mo_slots p Hok)) as Hl.
  rewrite Hnil, app_nil_l in Hl. pose proof length_slots.
  pose proof (used_offs_length _ (mo_entry p Hok)) as Hu. rewrite <-(mo_num p Hok), <-(mo_phys p Hok) in Hu. lia.
Qed.

(** A slot of the pool is owned by no page. *)
Lemma fresh_slot p o :
  meta_ok p → o ∈ free_offs (p_offsets p) → o ∈ slots ∧ ∀ q, pmap p !! q ≠ Some (Some o).
Proof.
  intros Hok Ho. split; [rewrite <-(mo_slots p Hok); apply elem_of_app; by left|].
  intros q Hq. apply pmap_lookup in Hq as (i & x & Hx & Ht & _ & Hoff); [|done].
  destruct (pm_on_phys x) eqn:Hph; [done|]. injection Hoff as ->.
  pose proof NoDup_slots as Hnd. rewrite <-(mo_slots p Hok), NoDup_app in Hnd. destruct Hnd as (_ & Hdis & _).
  apply (Hdis _ Ho). destruct (aset_split _ _ _ Hx) as (l1 & l2 & Hl & _). rewrite Hl, used_offs_app, used_offs_cons.
  apply elem_of_app. right. apply elem_of_app. left. unfold own.
  pose proof (mo_entry p Hok) as He. rewrite Hl, Forall_app, Forall_cons in He. destruct He as (_ & He & _).
  unfold entry_ok in He. rewrite Ht, Hph in He. unfold pos_offset.
  destruct (Z.eqb_spec (pm_offset x) (-1)) as [E|]; [|by left]. apply He in E. done.
Qed.

(** The metadata of [page] after it was given the slot [o]. *)
Lemma swap_out_metadata p p' page ind x o offs R :
  paging_ok p → rp_members R p → (∀ i, i ∈ R ↔ resident_at p i) →
  aget (p_pages p) ind = Some x → pm_taken x = true → pm_on_phys x = true → pm_pte x = page →
  free_offs (p_offsets p) = o :: free_offs offs → length offs = length (p_offsets p) →
  core <$> p_pages p' = aset (core <$> p_pages p) ind (page, o, false, true) →
  p_offsets p' = offs → p_num_of_pages p' = p_num_of_pages p → p_phys_pages p' = u32 (p_phys_pages p - 1) →
  rp_members (R ∖ {[ind]}) p' →
  paging_ok p' ∧ pmap p' = <[page := Some o]> (pmap p).
Proof.
  intros [Hok _] HR Hres Hx Ht Hph Hpte Hfree Hlen Hc Ho Hn Hp HR'.
  destruct (meta_ok_counts p Hok) as [_ Hcnt]. destruct (meta_ok_pos _ _ _ Hok Hx Ht) as [_ Hpos].
  assert (o ≠ -1) as Hoff.
  { assert (o ∈ free_offs (p_offsets p)) as Hin by (rewrite Hfree; by left). unfold free_offs in Hin.
    apply list_elem_of_omap in Hin as (o' & _ & [-> ?]%pos_offset_Some). done. }
  assert (entry_ok x) as Hex.
  { pose proof (mo_entry p Hok) as He. destruct (aset_split _ _ _ Hx) as (l1 & l2 & Hl & _).
    rewrite Hl, Forall_app, Forall_cons in He. by destruct He as (_ & ? & _). }
  unfold entry_ok in Hex. rewrite Ht, Hph in Hex. assert (pm_offset x = -1) as Hxo by (by apply Hex).
  set (y := x <| pm_offset := o |> <| pm_on_phys := false |>).
  assert (core <$> p_pages p' = core <$> aset (p_pages p) ind y) as Hc'.
  { rewrite core_aset_list, Hc. unfold core at 3, y. simpl. by rewrite Ht, Hpte. }
  assert (meta_ok p') as Hok'.
  { apply (meta_replace p p' ind x y); try done.
    - unfold entry_ok, y. simpl. by rewrite Ht.
    - rewrite Ho, Hfree. unfold own, y, pos_offset. simpl. rewrite Hxo, (proj2 (Z.eqb_neq _ _) Hoff). simpl.
      rewrite app_nil_r. symmetry. apply Permutation_cons_append.
    - by rewrite Ho.
    - intros _. by rewrite Ht.
    - rewrite Hn. unfold y. simpl. rewrite Ht. lia.
    - rewrite Hp. unfold resident, y. simpl. rewrite Ht, Hph, u32_pred by auto with lia. simpl. lia. }
  split; [split; [done|]|].
  - exists (R ∖ {[ind]}). split; [done|]. intros i. rewrite (resident_at_replace p p' ind x y) by done.
    rewrite elem_of_difference, elem_of_singleton, Hres. unfold resident at 1, y. simpl. rewrite andb_false_r.
    destruct (decide (i = ind)); [split; [tauto|done]|tauto].
  - rewrite (pmap_replace p p' ind x y) by done. unfold entry, y. simpl. rewrite Ht, Hpte. simpl.
    by rewrite insert_delete_eq.
Qed.

Section kernel.
Context {F : Type} `{!FileSys F, !SwapLaws F}.
Implicit Types s : kst F.

(** The process that was just written. *)
Ltac plook := apply list_lookup_insert_eq; simpl; rewrite ?length_insert; assumption.

(** The running process, with an open swap file. *)
Record running (s : kst F) (pi : nat) (p : proc) (f : Z) : Prop := {
  run_cur : k_cur s = Some pi;
  run_proc : k_procs s !! pi = Some p;
  run_paging : paging_ok p;
  run_file : p_swapFile p = Some f;
  run_swap : swap_ok (k_fs s) f;
  run_pool : ∃ m, pool_ok m (p_offsets p) ∧ swap_len (k_fs s) f = m * PGSIZE;
}.

(** Address of the frame a page-table entry maps, in the kernel. *)
Definition frame_of (pte : Z) : Z := P2V (PTE_ADDR pte).

Lemma writeToSwapFile_wp pi p f (a off : Z) s (Q : Z → kst F → Prop) :
  k_procs s !! pi = Some p → p_swapFile p = Some f → swap_ok (k_fs s) f → off ∈ slots → off ≤ swap_len (k_fs s) f →
  (∀ fs', swap_ok fs' f → swap_len fs' f = Z.max (swap_len (k_fs s) f) (off + PGSIZE) →
     (∀ o, swap_page fs' f o = if decide (o = off) then Some (bytes_at (k_mem s) a (Z.to_nat PGSIZE))
                               else swap_page (k_fs s) f o) →
     Q PGSIZE (s <| k_fs := fs' |>)) →
  wp (writeToSwapFile pi a off PGSIZE) Q s.
Proof.
  intros Hp Hf Hok Hoff Hle HQ. unfold writeToSwapFile. apply wp_bind. eapply wp_getp; [exact Hp|].
  apply wp_bind. eapply wp_of_option; [exact Hf|]. apply wp_bind, wp_gets.
  destruct (writeSwap_ok (k_fs s) f (bytes_at (k_mem s) a (Z.to_nat PGSIZE)) off) as (fs' & Hw & H1 & Hl & H2);
    [done|apply length_bytes_at|by apply slots_elem|done|].
  eapply wp_fs_call; [exact Hw|]. apply HQ; [by apply H1|by rewrite Hl, decide_True|].
  intros o. rewrite H2 by done. by destruct (decide (o = off)) as [->|]; [rewrite !decide_True|rewrite !decide_False by naive_solver].
Qed.

(** The metadata part of [swap_to_file] on the process. *)
Lemma swap_out_meta_wp p C ind page c o :
  core <$> p_pages p = aset C ind c → 0 ≤ ind < Z.of_nat (length C) → c.2 = true →
  wp (swap_out_meta ind page o) (λ _ p', core <$> p_pages p' = aset C ind (page, o, false, true) ∧ pview_same p p' ∧
     p' = p <| p_pages := p_pages p' |> <| p_file_size := p_file_size p' |>) p.
Proof.
  intros Hc Hi Ht. unfold swap_out_meta. apply wp_bind. destruct c as [[[a b] d] e]. simpl in Ht.
  eapply wp_mono; [apply (mod_core _ _ _ (page, o, false, true) _ _ Hc Hi); [core_eq|done|done]|].
  intros _ p1 (Hc1 & Hv & Hfr). apply wp_modify. case_match; split_and!; try done; simpl; rewrite Hfr; by destruct p.
Qed.

Lemma load32_flags m page :
  load32 (store32 (store32 m page (pte_clr (load32 m page) PTE_P)) page
            (pte_set (load32 (store32 m page (pte_clr (load32 m page) PTE_P)) page) PTE_PG)) page =
  pte_set (pte_clr (load32 m page) PTE_P) PTE_PG.
Proof.
  assert (0 ≤ pte_clr (load32 m page) PTE_P < 2 ^ 32) by apply pte_clr_range, load32_range.
  rewrite !load32_store32_eq. rewrite (u32_id (pte_clr _ _)) by done.
  apply u32_id, pte_set_range; [done|unfold PTE_PG; lia].
Qed.

Lemma unlink_wp s pi p R ind (Q : unit → kst F → Prop) :
  k_procs s !! pi = Some p → rp_members R p → ind ∈ R →
  (∀ p', hook_frame p p' → rp_members (R ∖ {[ind]}) p' → Q tt (s <| k_procs ::= <[pi := p']> |>)) →
  wp (if decide (SEL = SCFIFO) then on_proc pi (scfifo_unlink ind) else skip) Q s.
Proof.
  intros Hp HR Hi HQ. pose proof (rp_unlink R ind p HR Hi) as Hu. unfold unlink_policy in Hu. case_decide.
  - eapply wp_on_proc; [done|]. eapply wp_mono; [exact Hu|]. intros [] p' [? ?]. by apply HQ.
  - destruct Hu as [Hf HR']. apply wp_ret. rewrite <-(setp_id pi p s) by done. by apply HQ.
Qed.

Lemma swap_to_file_spec page s pi p f :
  running s pi p f → pmap p !! page = Some None → p_num_of_pages p - p_phys_pages p < MAX_SWAP_FILE_SZ →
  wp (swap_to_file SEL page) (λ r s', r = 1 ∧ kframe s s' ∧ ∃ p' off,
     k_procs s' = <[pi := p']> (k_procs s) ∧ running s' pi p' f ∧
     pmap p' = <[page := Some off]> (pmap p) ∧ off ∈ slots ∧ (∀ q, pmap p !! q ≠ Some (Some off)) ∧
     p_phys_pages p' = p_phys_pages p - 1 ∧ p_num_of_pages p' = p_num_of_pages p ∧ pkeep p p' ∧
     swap_page (k_fs s') f off = Some (bytes_at (k_mem s) (frame_of (load32 (k_mem s) page)) (Z.to_nat PGSIZE)) ∧
     (∀ o, o ≠ off → swap_page (k_fs s') f o = swap_page (k_fs s) f o) ∧
     load32 (k_mem s') page = pte_set (pte_clr (load32 (k_mem s) page) PTE_P) PTE_PG ∧
     (∀ a, a < page ∨ page + 4 ≤ a → load8 (k_mem s') a = load8 (k_mem s) a)) s.
Proof.
  intros [Hcur Hp Hpok Hf Hsw (m & Hpool & Hlen0)] Hmap Hslots. pose proof Hpok as [Hok (R & HR & Hres)].
  destruct (find_page_ind_map p page Hok) as [[? _]|(x & Hx & Ht & Hpte & Hne & Hm)]; [congruence|].
  rewrite Hm in Hmap. injection Hmap as Hph. destruct (pm_on_phys x) eqn:Hon; [clear Hph|done].
  set (ind := find_page_ind p page) in *.
  destruct (get_offset_spec p) as [[Hnil _]|(off & offs & Hgo & Hfree & Hlen)]; [by apply slot_available in Hnil|].
  assert (off ∈ free_offs (p_offsets p)) as Hin by (rewrite Hfree; by left).
  destruct (fresh_slot p off Hok Hin) as [Hoff Hfresh].
  destruct (get_offset_pool m p off _ Hpool Hgo) as (Hole & m' & Hpool' & Hm').
  pose proof (aget_Some_range _ _ _ Hx) as Hrng.
  assert (0 ≤ ind < Z.of_nat (length (core <$> p_pages p))) as Hrng' by (by rewrite length_fmap).
  unfold swap_to_file. apply wp_bind. eapply wp_myproc; [done|]. apply wp_bind. eapply wp_getp; [done|].
  apply wp_bind. eapply wp_on_proc; [done|]. eapply wp_eq; [exact Hgo|].
  apply wp_bind, wp_ld32, wp_bind.
  assert (pi < length (k_procs s))%nat as Hpi by (by eapply lookup_lt_Some).
  set (p1 := p <| p_offsets := offs |>).
  eapply writeToSwapFile_wp; [plook|done|done|done|cbn [k_fs upd]; lia|]. intros fs' Hfs1 Hfsl Hfs2. cbn [k_fs upd] in Hfsl. cbn [k_mem k_fs upd] in Hfs2.
  apply wp_bind. eapply wp_on_proc; [plook|].
  eapply wp_mono; [eapply (swap_out_meta_wp p1 _ ind page (core x) off); [|exact Hrng'|exact Ht]|].
  { rewrite <-core_aset_list. by rewrite aset_id. }
  intros _ p2 (Hc2 & Hv2 & Hfr2). do 2 (apply wp_bind, wp_ld32, wp_bind, wp_st32).
  apply wp_bind. eapply wp_modp; [plook|].
  set (p3 := p2 <| p_phys_pages ::= λ n, u32 (n - 1) |>).
  assert (rp_members R p3) as HR3.
  { eapply (rp_view R p2); [eapply rp_view; [exact HR|exact Hv2]|]. done. }
  apply wp_bind. eapply unlink_wp; [plook|exact HR3| |].
  { apply Hres. exists x. split; [done|]. unfold resident. by rewrite Ht. }
  intros p4 Hh4 HR4. apply wp_ret.
  match goal with |- _ ∧ kframe s ?t ∧ _ => set (s' := t) end.
  assert (kframe s s') as Hkf by reflexivity.
  assert (k_procs s' = <[pi := p4]> (k_procs s)) as Hps' by (simpl; by rewrite !list_insert_insert_eq).
  pose proof (load32_flags (k_mem s) page) as Hld.
  assert (k_mem s' = store32 (store32 (k_mem s) page (pte_clr (load32 (k_mem s) page) PTE_P)) page
            (pte_set (load32 (store32 (k_mem s) page (pte_clr (load32 (k_mem s) page) PTE_P)) page) PTE_PG)) as Hmem' by done.
  assert (k_fs s' = fs' ∧ k_cur s' = k_cur s) as [Hfs' Hcur'] by done. clearbody s'.
  pose proof Hh4 as [[Hcp4 Ho4 Hn4 Hp4] Hfr4].
  destruct (swap_out_metadata p p4 page ind x off offs R) as [Hpok4 Hmap4]; try done.
  { by rewrite Hcp4. }
  { rewrite Ho4. unfold p3. simpl. by rewrite Hfr2. }
  { rewrite Hn4. unfold p3. simpl. by rewrite Hfr2. }
  { rewrite Hp4. unfold p3. simpl. by rewrite Hfr2. }
  destruct (meta_ok_counts p Hok) as [_ Hcnt]. destruct (meta_ok_pos _ _ _ Hok Hx Ht) as [_ Hpos].
  split_and!; [done|done|]. exists p4, off. split_and!; try done.
  - split; [by rewrite Hcur'|rewrite Hps'; by apply list_lookup_insert_eq|done| |by rewrite Hfs'|].
    + rewrite Hfr4. simpl. unfold p3. simpl. by rewrite Hfr2.
    + exists m'. rewrite Hfs', Hfsl, Hlen0, Hm'. split; [|done]. rewrite Ho4. unfold p3. simpl. by rewrite Hfr2.
  - rewrite Hp4. unfold p3. simpl. rewrite Hfr2. apply u32_pred. simpl. split; [by apply Hpos|lia].
  - rewrite Hn4. unfold p3. simpl. by rewrite Hfr2.
  - etransitivity; [|by apply hook_keep]. unfold p3. rewrite Hfr2. by destruct p.
  - rewrite Hfs', Hfs2, decide_True by done. done.
  - intros o Hgo'. by rewrite Hfs', Hfs2, decide_False.
  - by rewrite Hmem', Hld.
  - intros a Ha. rewrite Hmem', !load8_store32_out by done. done.
Qed.
(** *** Swapping in *)

Lemma readFromSwapFile_wp pi p f (a off : Z) bs s (Q : Z → kst F → Prop) :
  k_procs s !! pi = Some p → p_swapFile p = Some f → swap_ok (k_fs s) f → swap_page (k_fs s) f off = Some bs →
  (∀ fs', swap_ok fs' f → swap_len fs' f = swap_len (k_fs s) f → (∀ o, swap_page fs' f o = swap_page (k_fs s) f o) →
     Q PGSIZE (s <| k_fs := fs' |> <| k_mem ::= λ m, store_bytes m a bs |>)) →
  wp (readFromSwapFile pi a off PGSIZE) Q s.
Proof.
  intros Hp Hf Hok Hbs HQ. unfold readFromSwapFile. apply wp_bind. eapply wp_getp; [exact Hp|].
  apply wp_bind. eapply wp_of_option; [exact Hf|].
  destruct (readSwap_ok (k_fs s) f off bs) as (fs' & Hw & H1 & Hl & H2); [done..|].
  apply wp_bind. eapply wp_fs_call; [exact Hw|]. apply wp_bind, wp_modify, wp_ret. apply HQ; auto.
Qed.

Lemma some_resident p : meta_ok p → 0 < p_phys_pages p → ∃ i, resident_at p i.
Proof.
  intros Hok Hpos. destruct (decide (Forall (λ x, resident x = false) (p_pages p))) as [Hf|Hf].
  - apply cnt_zero in Hf. rewrite (mo_phys p Hok) in Hpos. lia.
  - apply not_Forall_Exists in Hf; [|apply _]. apply Exists_exists in Hf as (x & [k Hk]%list_elem_of_lookup & Hr).
    exists (Z.of_nat k), x. rewrite aget_nat. split; [done|]. destruct (resident x) eqn:E; [done|by destruct Hr].
Qed.

(** The metadata of [page] after its slot [o] was given back. *)
Lemma swap_in_metadata p p' page ind x o offs R :
  paging_ok p → rp_members R p → (∀ i, i ∈ R ↔ resident_at p i) →
  aget (p_pages p) ind = Some x → pm_taken x = true → pm_on_phys x = false → pm_pte x = page → pm_offset x = o →
  free_offs offs ≡ₚ o :: free_offs (p_offsets p) → length offs = length (p_offsets p) →
  core <$> p_pages p' = aset (core <$> p_pages p) ind (page, -1, true, true) →
  p_offsets p' = offs → p_num_of_pages p' = p_num_of_pages p → p_phys_pages p' = u32 (p_phys_pages p + 1) →
  rp_members ({[ind]} ∪ R) p' →
  paging_ok p' ∧ pmap p' = <[page := None]> (pmap p).
Proof.
  intros [Hok _] HR Hres Hx Ht Hph Hpte Hxo Hfree Hlen Hc Ho Hn Hp HR'.
  destruct (meta_ok_counts p Hok) as [_ Hcnt].
  assert (entry_ok x) as Hex.
  { pose proof (mo_entry p Hok) as He. destruct (aset_split _ _ _ Hx) as (l1 & l2 & Hl & _).
    rewrite Hl, Forall_app, Forall_cons in He. by destruct He as (_ & ? & _). }
  unfold entry_ok in Hex. rewrite Ht, Hph in Hex. assert (o ≠ -1) as Hoff by (rewrite <-Hxo; intros E; apply Hex in E; done).
  set (y := x <| pm_offset := -1 |> <| pm_on_phys := true |>).
  assert (core <$> p_pages p' = core <$> aset (p_pages p) ind y) as Hc'.
  { rewrite core_aset_list, Hc. unfold core at 3, y. simpl. by rewrite Ht, Hpte. }
  assert (meta_ok p') as Hok'.
  { apply (meta_replace p p' ind x y); try done.
    - unfold entry_ok, y. simpl. by rewrite Ht.
    - rewrite Ho, Hfree. unfold own, y, pos_offset. simpl. rewrite Hxo, (proj2 (Z.eqb_neq _ _) Hoff). simpl.
      rewrite app_nil_r. apply Permutation_cons_append.
    - by rewrite Ho.
    - intros _. by rewrite Ht.
    - rewrite Hn. unfold y. simpl. rewrite Ht. lia.
    - rewrite Hp. unfold resident, y. simpl. rewrite Ht, Hph, u32_succ by lia. simpl. lia. }
  split; [split; [done|]|].
  - exists ({[ind]} ∪ R). split; [done|]. intros i. rewrite (resident_at_replace p p' ind x y) by done.
    rewrite elem_of_union, elem_of_singleton, Hres.
    assert (resident y = true) by (unfold resident, y; simpl; by rewrite Ht).
    destruct (decide (i = ind)); tauto.
  - rewrite (pmap_replace p p' ind x y) by done. unfold entry, y. simpl. rewrite Ht, Hpte. simpl.
    by rewrite insert_delete_eq.
Qed.

Lemma load32_flags_in m page :
  load32 (store32 (store32 m page (pte_set (load32 m page) PTE_P)) page
            (pte_clr (load32 (store32 m page (pte_set (load32 m page) PTE_P)) page) PTE_PG)) page =
  pte_clr (pte_set (load32 m page) PTE_P) PTE_PG.
Proof.
  assert (0 ≤ pte_set (load32 m page) PTE_P < 2 ^ 32) by (apply pte_set_range; [apply load32_range|unfold PTE_P; lia]).
  rewrite !load32_store32_eq. rewrite (u32_id (pte_set _ _)) by done. by apply u32_id, pte_clr_range.
Qed.

Lemma swap_from_file_spec page s pi p f off bs :
  running s pi p f → pmap p !! page = Some (Some off) → 0 < p_phys_pages p →
  swap_page (k_fs s) f off = Some bs → length bs = Z.to_nat PGSIZE → Forall (λ b, 0 ≤ b < 256) bs →
  let a := frame_of (load32 (k_mem s) page) in
  page + 4 ≤ a ∨ a + PGSIZE ≤ page →
  wp (swap_from_file SEL page) (λ r s', r = 1 ∧ kframe s s' ∧ ∃ p',
     k_procs s' = <[pi := p']> (k_procs s) ∧ running s' pi p' f ∧ pmap p' = <[page := None]> (pmap p) ∧
     p_phys_pages p' = p_phys_pages p + 1 ∧ p_num_of_pages p' = p_num_of_pages p ∧ pkeep p p' ∧
     (∀ o, swap_page (k_fs s') f o = swap_page (k_fs s) f o) ∧
     bytes_at (k_mem s') a (Z.to_nat PGSIZE) = bs ∧
     load32 (k_mem s') page = pte_clr (pte_set (load32 (k_mem s) page) PTE_P) PTE_PG ∧
     (∀ b, b < page ∨ page + 4 ≤ b → b < a ∨ a + PGSIZE ≤ b → load8 (k_mem s') b = load8 (k_mem s) b)) s.
Proof.
  intros [Hcur Hp Hpok Hf Hsw (m & Hpool & Hlen0)] Hmap Hpos Hbs Hblen Hbyte a Hdis. pose proof Hpok as [Hok (R & HR & Hres)].
  destruct (find_page_ind_map p page Hok) as [[? _]|(x & Hx & Ht & Hpte & Hne & Hm)]; [congruence|].
  rewrite Hm in Hmap. destruct (pm_on_phys x) eqn:Hon; [done|]. injection Hmap as Hxo.
  set (ind := find_page_ind p page) in *.
  pose proof (aget_Some_range _ _ _ Hx) as Hrng.
  assert (0 ≤ ind < Z.of_nat (length (core <$> p_pages p))) as Hrng' by (by rewrite length_fmap).
  assert (pi < length (k_procs s))%nat as Hpi by (by eapply lookup_lt_Some).
  assert (off ≠ -1) as Hoff.
  { pose proof (mo_entry p Hok) as He. destruct (aset_split _ _ _ Hx) as (l1 & l2 & Hl & _).
    rewrite Hl, Forall_app, Forall_cons in He. destruct He as (_ & He & _). unfold entry_ok in He.
    rewrite Ht, Hon, Hxo in He. intros E. apply He in E. done. }
  unfold swap_from_file. apply wp_bind. eapply wp_myproc; [done|]. apply wp_bind. eapply wp_getp; [done|].
  apply wp_bind, wp_ld32, wp_bind. eapply wp_eq; [by apply (on_proc_page_at _ p)|]. fold ind. rewrite Hxo.
  apply wp_bind. eapply wp_on_proc; [done|].
  eapply wp_mono; [apply (mod_core (core <$> p_pages p) ind (core x) (page, -1, false, true)); [|exact Hrng'| |done|done]|].
  { by rewrite <-core_aset_list, aset_id. }
  { intros z. unfold core. rewrite Hpte, Hon, Ht. intros [= ? ? ? ?]. simpl. congruence. }
  intros _ p1 (Hc1 & Hv1 & Hfr1).
  apply wp_bind. eapply readFromSwapFile_wp; [plook|by rewrite Hfr1|done|done|]. intros fs' Hfs1 Hfsl Hfs2.
  destruct (free_offset_spec off p1 Hoff) as [[Hl _]|(offs & Hfo & Hperm & Hlen)].
  { exfalso. rewrite Hfr1 in Hl. simpl in Hl. revert Hl. eapply used_slot_not_free; [done|exact Hx|congruence]. }
  apply wp_bind. eapply wp_on_proc; [plook|]. eapply wp_eq; [exact Hfo|].
  do 2 (apply wp_bind, wp_ld32, wp_bind, wp_st32).
  apply wp_bind. eapply wp_on_proc; [plook|].
  eapply wp_mono; [apply (mod_core (core <$> p_pages p) ind (page, -1, false, true) (page, -1, true, true)); [exact Hc1|exact Hrng'|core_eq|done|done]|].
  intros _ p3 (Hc3 & Hv3 & Hfr3).
  assert (rp_members R p3) as HR3.
  { eapply (rp_view R p); [exact HR|]. etransitivity; [exact Hv1|]. exact Hv3. }
  apply wp_bind. eapply wp_on_proc; [plook|]. eapply wp_mono; [apply (rp_swap_in R ind p3 HR3)|].
  { destruct (some_resident p Hok Hpos) as [i Hi]. apply Hres in Hi. intros ->. by apply not_elem_of_empty in Hi. }
  { rewrite Hres. intros (x' & Hx' & Hr). simplify_eq. unfold resident in Hr. by rewrite Ht, Hon in Hr. }
  { destruct (core_aget _ _ _ _ Hc3 Hrng') as (? & ? & _). eauto. }
  intros [] p4 [Hh4 HR4]. apply wp_bind. eapply wp_modp; [plook|]. apply wp_ret.
  match goal with |- _ ∧ kframe s ?t ∧ _ => set (s' := t) end.
  set (p5 := p4 <| p_phys_pages ::= λ n, u32 (n + 1) |>) in s'.
  assert (kframe s s') as Hkf by reflexivity.
  assert (k_procs s' = <[pi := p5]> (k_procs s)) as Hps' by (simpl; by rewrite !list_insert_insert_eq).
  set (m1 := store_bytes (k_mem s) a bs).
  assert (k_mem s' = store32 (store32 m1 page (pte_set (load32 m1 page) PTE_P)) page
            (pte_clr (load32 (store32 m1 page (pte_set (load32 m1 page) PTE_P)) page) PTE_PG)) as Hm' by done.
  assert (k_fs s' = fs' ∧ k_cur s' = k_cur s) as [Hfs' Hcur'] by done. clearbody s'.
  assert (load32 m1 page = load32 (k_mem s) page) as Hm1.
  { apply load32_ext. intros i Hi. apply load8_store_bytes_out. rewrite Hblen. klia. }
  pose proof (load32_flags_in m1 page) as Hld. rewrite Hm1 in Hld.
  pose proof Hh4 as [[Hcp4 Ho4 Hn4 Hp4] Hfr4]. rewrite Hfr1 in Hperm, Hlen. simpl in Hperm, Hlen.
  destruct (swap_in_metadata p p5 page ind x off offs R) as [Hpok5 Hmap5]; try done.
  { simpl. by rewrite Hcp4. }
  { simpl. rewrite Ho4. by rewrite Hfr3. }
  { simpl. rewrite Hn4, Hfr3. simpl. by rewrite Hfr1. }
  { simpl. rewrite Hp4, Hfr3. simpl. by rewrite Hfr1. }
  { by eapply (rp_view _ p4). }
  destruct (meta_ok_counts p Hok) as [_ Hcnt].
  split_and!; [done|done|]. exists p5. split_and!; try done.
  - split; [by rewrite Hcur'|rewrite Hps'; by apply list_lookup_insert_eq|done| |by rewrite Hfs'|].
    + simpl. rewrite Hfr4. simpl. rewrite Hfr3. simpl. by rewrite Hfr1.
    + exists m. rewrite Hfs', Hfsl. split; [|done]. simpl. rewrite Ho4, Hfr3. simpl.
      refine (free_offset_pool m p1 off _ _ _ Hfo); [by rewrite Hfr1|].
      rewrite <-Hxo. eapply owned_below; [done|done|exact Hx|by rewrite Hxo].
  - simpl. rewrite Hp4, Hfr3. simpl. rewrite Hfr1. simpl. apply u32_succ. lia.
  - simpl. rewrite Hn4, Hfr3. simpl. by rewrite Hfr1.
  - etransitivity; [|etransitivity; [by apply (hook_keep p3)|by destruct p4]]. rewrite Hfr3, Hfr1. by destruct p.
  - by rewrite Hfs'.
  - etransitivity; [|by apply (bytes_at_store_bytes (k_mem s) a bs)]. rewrite Hblen. apply bytes_at_ext.
    intros b Hb. rewrite Hm', !load8_store32_out by klia. done.
  - by rewrite Hm', Hm1, Hld.
  - intros b Hb1 Hb2. rewrite Hm', !load8_store32_out by done. apply load8_store_bytes_out. rewrite Hblen. klia.
Qed.
(** ** Refinement

    Abstractly the pages of a process are a map from page-table entries to
    [None] (in memory) or [Some bs] (saved, with contents [bs]). *)

Definition content_ok (bs : list Z) : Prop := length bs = Z.to_nat PGSIZE ∧ Forall (λ b, 0 ≤ b < 256) bs.

Definition holds (s : kst F) (p : proc) (f : Z) (A : gmap Z (option (list Z))) : Prop :=
  ∀ q, match pmap p !! q, A !! q with
       | None, None => True
       | Some None, Some None => True
       | Some (Some off), Some (Some bs) => swap_page (k_fs s) f off = Some bs ∧ content_ok bs
       | _, _ => False
       end.

Definition pinv (pi : nat) (f : Z) (c : kst F * gmap Z (option (list Z))) : Prop :=
  let '(s, A) := c in ∃ p, running s pi p f ∧ p_ignorePaging p = false ∧ holds s p f A.

Lemma pinv_pair pi f s A : pinv pi f (s, A) ↔ ∃ p, running s pi p f ∧ p_ignorePaging p = false ∧ holds s p f A.
Proof. done. Qed.

(** Both maps change at one entry. *)
Lemma holds_update s s' p p' f A A' page :
  holds s p f A →
  (∀ q, q ≠ page → pmap p' !! q = pmap p !! q ∧ A' !! q = A !! q) →
  (∀ q off, q ≠ page → pmap p !! q = Some (Some off) → swap_page (k_fs s') f off = swap_page (k_fs s) f off) →
  match pmap p' !! page, A' !! page with
  | None, None => True
  | Some None, Some None => True
  | Some (Some off), Some (Some bs) => swap_page (k_fs s') f off = Some bs ∧ content_ok bs
  | _, _ => False
  end →
  holds s' p' f A'.
Proof.
  intros H Hq Hsw Hp q. destruct (decide (q = page)) as [->|Hne]; [done|].
  destruct (Hq q Hne) as [-> ->]. specialize (H q). destruct (pmap p !! q) as [[off|]|] eqn:E; [|done..].
  by rewrite (Hsw q).
Qed.

Lemma content_ok_bytes m a : content_ok (bytes_at m a (Z.to_nat PGSIZE)).
Proof. split; [apply length_bytes_at|apply bytes_at_bytes]. Qed.

Lemma keep_fields p p' : pkeep p p' → p_ignorePaging p' = p_ignorePaging p ∧ p_swapFile p' = p_swapFile p.
Proof. by intros ->. Qed.

Lemma slots_left p : meta_ok p → MAX_PHYS_PAGES ≤ p_phys_pages p → p_num_of_pages p - p_phys_pages p < MAX_SWAP_FILE_SZ.
Proof. intros Hok Hph. destruct (meta_ok_counts p Hok). klia. Qed.

Lemma holds_lookup s p f A q v :
  holds s p f A → A !! q = Some v → ∃ w, pmap p !! q = Some w ∧ (v = None ↔ w = None).
Proof.
  intros H Hq. specialize (H q). rewrite Hq in H. destruct (pmap p !! q) as [w|]; [|done]. exists w. split; [done|].
  by destruct w, v.
Qed.

Lemma swap_out_holds page s pi f A p :
  running s pi p f → p_ignorePaging p = false → holds s p f A → A !! page = Some None → MAX_PHYS_PAGES ≤ p_phys_pages p →
  wp (swap_to_file SEL page) (λ r s', r = 1 ∧
     pinv pi f (s', <[page := Some (bytes_at (k_mem s) (frame_of (load32 (k_mem s) page)) (Z.to_nat PGSIZE))]> A) ∧
     load32 (k_mem s') page = pte_set (pte_clr (load32 (k_mem s) page) PTE_P) PTE_PG ∧
     (∀ a, a < page ∨ page + 4 ≤ a → load8 (k_mem s') a = load8 (k_mem s) a)) s.
Proof.
  intros Hrun Hig Hh HA Hph. destruct (holds_lookup _ _ _ _ _ _ Hh HA) as (w & Hw & Hww). rewrite (proj1 Hww eq_refl) in Hw.
  eapply wp_mono; [apply (swap_to_file_spec page s pi p f Hrun Hw), slots_left; [apply Hrun|done]|].
  intros r s' (-> & _ & p' & off & Hps & Hrun' & Hmap & Hslot & Hfresh & _ & _ & Hk & Hsw & Hoth & Hld & Hmem).
  split_and!; [done| |done|done]. exists p'. split_and!; [done|by rewrite (proj1 (keep_fields _ _ Hk))|].
  eapply (holds_update s s' p p' f A _ page); [done| | |].
  - intros q Hq. by rewrite Hmap, !lookup_insert_ne.
  - intros q o Hq Ho. apply Hoth. intros ->. by apply (Hfresh q).
  - rewrite Hmap, !lookup_insert_eq. split; [done|apply content_ok_bytes].
Qed.

Lemma swap_in_holds page s pi f A p bs :
  running s pi p f → p_ignorePaging p = false → holds s p f A → A !! page = Some (Some bs) → 0 < p_phys_pages p →
  let a := frame_of (load32 (k_mem s) page) in page + 4 ≤ a ∨ a + PGSIZE ≤ page →
  wp (swap_from_file SEL page) (λ r s', r = 1 ∧ pinv pi f (s', <[page := None]> A) ∧
     bytes_at (k_mem s') a (Z.to_nat PGSIZE) = bs ∧
     load32 (k_mem s') page = pte_clr (pte_set (load32 (k_mem s) page) PTE_P) PTE_PG ∧
     (∀ b, b < page ∨ page + 4 ≤ b → b < a ∨ a + PGSIZE ≤ b → load8 (k_mem s') b = load8 (k_mem s) b)) s.
Proof.
  intros Hrun Hig Hh HA Hph a Hdis. pose proof (Hh page) as Hp. rewrite HA in Hp.
  destruct (pmap p !! page) as [[off|]|] eqn:Hw; try done. destruct Hp as [Hsw [Hl Hb]].
  eapply wp_mono; [by apply (swap_from_file_spec page s pi p f off bs Hrun Hw Hph Hsw Hl Hb)|].
  intros r s' (-> & _ & p' & Hps & Hrun' & Hmap & _ & _ & Hk & Hoth & Hby & Hld & Hmem).
  split_and!; [done| |done|done|done]. exists p'. split_and!; [done|by rewrite (proj1 (keep_fields _ _ Hk))|].
  eapply (holds_update s s' p p' f A _ page); [done| | |].
  - intros q Hq. by rewrite Hmap, !lookup_insert_ne.
  - intros. apply Hoth.
  - by rewrite Hmap, !lookup_insert_eq.
Qed.

Lemma running_update s pi p p' f :
  running s pi p f → paging_ok p' → pkeep p p' → (∀ m, pool_ok m (p_offsets p) → pool_ok m (p_offsets p')) → running (s <| k_procs ::= <[pi := p']> |>) pi p' f.
Proof.
  intros [H1 H2 H3 H4 H5 (m & Hm & Hl)] Hok Hk Hpool. split; try done; [| |exists m; auto].
  - simpl. apply list_lookup_insert_eq. by eapply lookup_lt_Some.
  - by rewrite (proj2 (keep_fields _ _ Hk)).
Qed.

(** One operation on the pages of the running process, or any change of
    memory.  The operations are the kernel's: an addition that succeeds (one
    that fails kills the process), a removal, a swap-out at the limit of pages
    in memory, and a swap-in while some page is in memory, to a frame that the
    page table entry is not part of. *)
Inductive pstep (pi : nat) : kst F * gmap Z (option (list Z)) → kst F * gmap Z (option (list Z)) → Prop :=
  | ps_add s A page va s' :
      A !! page = None → on_proc pi (add_page SEL page va) s = Ok 1 s' → pstep pi (s, A) (s', <[page := None]> A)
  | ps_remove s A page v r s' :
      A !! page = Some v → on_proc pi (remove_page SEL page) s = Ok r s' → pstep pi (s, A) (s', delete page A)
  | ps_out s A p page r s' :
      k_procs s !! pi = Some p → MAX_PHYS_PAGES ≤ p_phys_pages p → A !! page = Some None →
      swap_to_file SEL page s = Ok r s' →
      pstep pi (s, A) (s', <[page := Some (bytes_at (k_mem s) (frame_of (load32 (k_mem s) page)) (Z.to_nat PGSIZE))]> A)
  | ps_in s A p page bs r s' :
      k_procs s !! pi = Some p → 0 < p_phys_pages p → A !! page = Some (Some bs) →
      (let a := frame_of (load32 (k_mem s) page) in page + 4 ≤ a ∨ a + PGSIZE ≤ page) →
      swap_from_file SEL page s = Ok r s' → pstep pi (s, A) (s', <[page := None]> A)
  | ps_mem s A m : pstep pi (s, A) (s <| k_mem := m |>, A).

Lemma pstep_inv pi f c c' : pstep pi c c' → pinv pi f c → pinv pi f c'.
Proof.
  intros Hs Hinv.
  destruct Hs as [s A page va s' HA E|s A page v r s' HA E|s A p0 page r s' Hp0 Hn HA E|
    s A p0 page bs r s' Hp0 Hn HA Hd E|s A m]; destruct Hinv as (p & Hrun & Hig & Hh);
    pose proof Hrun as [_ Hp Hok _ _ _]; try (assert (p0 = p) as -> by congruence).
  - assert (pmap p !! page = None) as Hnew by (specialize (Hh page); rewrite HA in Hh; by destruct (pmap p !! page) as [[?|]|]).
    assert (p_num_of_pages p < MAX_TOTAL_PAGES) as Hn.
    { unfold on_proc in E. rewrite Hp in E. destruct (add_page SEL page va p) as [r p'| | | | |] eqn:Ea; try done. injection E as -> _. by eapply add_page_room. }
    destruct (on_proc_inv _ _ _ _ _ _ _ Hp (add_page_spec page va p Hok Hig Hnew Hn) E) as (p' & -> & _ & Hok' & Hmap & _ & _ & Hk & Ho).
    exists p'. split_and!.
    + apply (running_update s pi p); [done..|]. by rewrite Ho.
    + by rewrite (proj1 (keep_fields _ _ Hk)).
    + apply (holds_update s _ p p' f A _ page); [done| |done|by rewrite Hmap, !lookup_insert_eq].
      intros q Hq. by rewrite Hmap, !lookup_insert_ne.
  - destruct (holds_lookup _ _ _ _ _ _ Hh HA) as (w & Hw & _).
    destruct (on_proc_inv _ _ _ _ _ _ _ Hp (remove_page_spec page w p Hok Hig Hw) E) as (p' & -> & _ & Hok' & Hmap & _ & Hk & Hpool).
    exists p'. split_and!.
    + by apply (running_update s pi p).
    + by rewrite (proj1 (keep_fields _ _ Hk)).
    + apply (holds_update s _ p p' f A _ page); [done| |done|by rewrite Hmap, !lookup_delete_eq].
      intros q Hq. by rewrite Hmap, !lookup_delete_ne.
  - by destruct (wp_ok_inv _ _ _ _ _ (swap_out_holds page s pi f A p Hrun Hig Hh HA Hn) E) as (_ & ? & _).
  - by destruct (wp_ok_inv _ _ _ _ _ (swap_in_holds page s pi f A p bs Hrun Hig Hh HA Hn Hd) E) as (_ & ? & _).
  - exists p. split_and!; [|done|done]. destruct Hrun. by split.
Qed.

(** C1: Paging refines its abstract map, under the policies SCFIFO, NFUA and
    LAPA (the instances of [ReplPolicy]).  Starting from a consistent state,
    any sequence of successful page additions, removals, swap-outs at the limit
    of pages in memory, and swap-ins while the process has a page in memory and
    to a frame that does not contain the page's entry, interleaved with any
    writes to memory, leaves a consistent state: metadata, slots, counters and
    policy structure agree, and the swap file holds the contents of exactly the
    pages that are swapped out. *)
Theorem paging_refines pi f c c' :
  rtc (pstep pi) c c' → pinv pi f c → pinv pi f c'.
Proof. induction 1 as [|c1 c2 c3 H12 _ IH]; [done|]. intros Hi. apply IH. by eapply pstep_inv. Qed.

(** C12: Swapping out always succeeds when the process is at its limit of
    pages in memory: a swap slot is free, the page's contents are saved in a
    slot no other page owns, the entry is marked not present and paged out,
    and no other byte of memory changes. *)
Theorem swap_out_saves page s pi f A p :
  running s pi p f → p_ignorePaging p = false → holds s p f A → A !! page = Some None →
  MAX_PHYS_PAGES ≤ p_phys_pages p →
  ∃ s', swap_to_file SEL page s = Ok 1 s' ∧
    pinv pi f (s', <[page := Some (bytes_at (k_mem s) (frame_of (load32 (k_mem s) page)) (Z.to_nat PGSIZE))]> A) ∧
    load32 (k_mem s') page = pte_set (pte_clr (load32 (k_mem s) page) PTE_P) PTE_PG ∧
    (∀ a, a < page ∨ page + 4 ≤ a → load8 (k_mem s') a = load8 (k_mem s) a).
Proof.
  intros Hrun Hig Hh HA Hph.
  destruct (proj1 (wp_ok _ _ _) (swap_out_holds page s pi f A p Hrun Hig Hh HA Hph)) as (r & s' & E & -> & H). eauto.
Qed.

(** C13: Swapping in restores the page. The contents saved for the page are in
    the frame its entry points to, the entry is marked present, its slot is
    free again, and no other byte of memory changes. *)
Theorem swap_in_restores page s pi f A p bs :
  running s pi p f → p_ignorePaging p = false → holds s p f A → A !! page = Some (Some bs) →
  0 < p_phys_pages p →
  let a := frame_of (load32 (k_mem s) page) in page + 4 ≤ a ∨ a + PGSIZE ≤ page →
  ∃ s', swap_from_file SEL page s = Ok 1 s' ∧ pinv pi f (s', <[page := None]> A) ∧
    bytes_at (k_mem s') a (Z.to_nat PGSIZE) = bs ∧
    load32 (k_mem s') page = pte_clr (pte_set (load32 (k_mem s) page) PTE_P) PTE_PG ∧
    (∀ b, b < page ∨ page + 4 ≤ b → b < a ∨ a + PGSIZE ≤ b → load8 (k_mem s') b = load8 (k_mem s) b).
Proof.
  intros Hrun Hig Hh HA Hph a Hd.
  destruct (proj1 (wp_ok _ _ _) (swap_in_holds page s pi f A p bs Hrun Hig Hh HA Hph Hd)) as (r & s' & E & -> & H). eauto.
Qed.
End kernel.
End paging.

(** ** A process at its limit

    An example state, over a file system that keeps whole pages. *)
Module PagingExamples.

Record ifs := Ifs { i_off : Z; i_len : gmap Z Z; i_pages : gmap (Z * Z) (list Z) }.
Definition flen (fs : ifs) (f : Z) : Z := default 0 (i_len fs !! f).

#[global] Instance ifs_FileSys : FileSys ifs := {
  fs_readi _ _ _ := ret (-1, []);
  fs_namei _ _ := ret None;
  fs_ilock _ := skip;
  fs_iunlockput _ := skip;
  fs_idup ip := ret ip;
  fs_iput _ := skip;
  fs_filedup f := ret f;
  fs_fileclose _ := skip;
  fs_init := skip;
  fs_begin_op := skip;
  fs_end_op := skip;
  fs_createSwapFile pid := ret pid;
  fs_removeSwapFile _ _ := ret 0;
  fs_setoff _ off := modify (λ fs, Ifs off (i_len fs) (i_pages fs));
  fs_filewrite f bs :=
    fs <- get ;;
    if flen fs f <? i_off fs then ret (-1) else
    let n := Z.of_nat (length bs) in
    modify (λ fs, Ifs (i_off fs) (<[f := Z.max (flen fs f) (i_off fs + n)]> (i_len fs)) (<[(f, i_off fs) := bs]> (i_pages fs))) ;;
    ret n;
  fs_fileread f n := fs <- get ;; ret (match i_pages fs !! (f, i_off fs) with Some bs => (n, bs) | None => (0, []) end);
}.

#[global] Program Instance ifs_SwapLaws : SwapLaws ifs := {
  swap_ok _ _ := True;
  swap_len := flen;
  swap_page fs f off := i_pages fs !! (f, off);
}.
Next Obligation.
  intros fs f bs off _ Hlen _ Hle. eexists. split_and!.
  - unfold fs_setoff, fs_filewrite, ifs_FileSys, bind, modify, get, ret. simpl. unfold flen in *. simpl.
    destruct (Z.ltb_spec (default 0 (i_len fs !! f)) off); [lia|]. simpl. rewrite Hlen. reflexivity.
  - done.
  - intros g _. unfold flen. simpl. case_decide as Hd; [subst; by rewrite lookup_insert_eq|by rewrite lookup_insert_ne].
  - intros g o _. simpl. case_decide as Hd; [destruct Hd as [-> ->]; apply lookup_insert_eq|].
    apply lookup_insert_ne. intros [= -> ->]. by apply Hd.
Qed.
Next Obligation.
  intros fs f off bs _ Hbs. simpl in Hbs. exists (Ifs off (i_len fs) (i_pages fs)). split; [|by split].
  unfold fs_setoff, fs_fileread, ifs_FileSys, bind, modify, ret, get. simpl. by rewrite Hbs.
Qed.

Definition pte_ex (k : nat) : Z := 0x80001000 + 4 * Z.of_nat k.

Fixpoint adds (n : nat) : M proc unit :=
  match n with O => ret tt | S n => add_page SCFIFO (pte_ex n) 0 ;; adds n end.

Definition fresh_upto (n : nat) (p : proc) : Prop :=
  paging_ok SCFIFO p ∧ p_ignorePaging p = false ∧ p_num_of_pages p + Z.of_nat n ≤ MAX_TOTAL_PAGES ∧
  (∀ k, (k < n)%nat → pmap p !! pte_ex k = None) ∧ (∀ q v, pmap p !! q = Some v → v = None) ∧
  pool_ok 0 (p_offsets p).

Lemma adds_ok n p :
  fresh_upto n p →
  wp (adds n) (λ _ p', fresh_upto 0 p' ∧ p_swapFile p' = p_swapFile p ∧ ∀ q, is_Some (pmap p !! q) ∨ (∃ k, (k < n)%nat ∧ q = pte_ex k) → is_Some (pmap p' !! q)) p.
Proof.
  revert p. induction n as [|n IH]; intros p (Hok & Hig & Hn & Hfr & Hall & Hpool).
  - apply wp_ret. split_and!; [split_and!; [done|done|lia|intros; lia|done|done]|done|]. by intros q [?|(k & ? & _)]; [|lia].
  - simpl. apply wp_bind. eapply wp_mono; [apply (add_page_spec SCFIFO (pte_ex n) 0 p Hok Hig); [apply Hfr; lia|lia]|].
    intros r p' (_ & Hok' & Hmap & Hnum & _ & Hk & Ho). destruct (keep_fields _ _ Hk) as [Hig' Hsf].
    eapply wp_mono; [apply (IH p')|].
    + split_and!; [done|congruence|lia| | |by rewrite Ho].
      * intros k Hlt. rewrite Hmap, lookup_insert_ne by (unfold pte_ex; lia). apply Hfr. lia.
      * intros q v. rewrite Hmap. intros [[_ <-]|[_ ?]]%lookup_insert_Some; eauto.
    + intros _ p'' (Hf & Hs & Hq). split_and!; [done|congruence|]. intros q Hor. apply Hq.
      destruct (decide (q = pte_ex n)) as [->|Hne]; [left; rewrite Hmap, lookup_insert_eq; eauto|].
      rewrite Hmap, lookup_insert_ne by done. destruct Hor as [?|(k & Hk' & ->)]; [by left|right].
      exists k. split; [|done]. destruct (decide (k = n)) as [->|]; [done|lia].
Qed.

(** 16 pages in memory; the entry of page 0 maps the frame at 0x10000. *)
Definition r16 : outcome proc unit := (init_page_meta SCFIFO ;; adds 16) (proc0 <| p_swapFile := Some 7 |>).
Definition p16 : proc := match r16 with Ok _ p => p | _ => proc0 end.
Definition s16 : kst ifs :=
  (kst0 (Ifs 0 ∅ ∅)) <| k_cur := Some O |> <| k_procs := [p16] |>
    <| k_mem := store32 (store8 ∅ 0x80010005 42) (pte_ex 0) 0x10027 |>.
Definition A16 : gmap Z (option (list Z)) := (λ _, None) <$> pmap p16.

Definition p16_props (p : proc) : Prop :=
  fresh_upto 0 p ∧ p_swapFile p = Some 7 ∧ is_Some (pmap p !! pte_ex 0).

Lemma r16_ok : wp (init_page_meta SCFIFO ;; adds 16) (λ _ p, p16_props p) (proc0 <| p_swapFile := Some 7 |>).
Proof.
  apply wp_bind. eapply wp_mono; [by apply init_page_meta_spec|]. intros r p (_ & Hok & Hmap & Hn & Hig & Hs & Hpool).
  eapply wp_mono; [apply (adds_ok 16 p)|].
  - split_and!; [done|done|rewrite Hn; klia|intros; by rewrite Hmap|intros q v; by rewrite Hmap|done].
  - intros _ p' (Hf & Hs' & Hq). split_and!; [done|by rewrite Hs', Hs|]. apply Hq. right. exists O. split; [lia|done].
Qed.

Lemma p16_ok : p16_props p16.
Proof.
  destruct (proj1 (wp_ok _ _ _) r16_ok) as (a & p & E & Hp). unfold p16, r16. rewrite E. exact Hp.
Qed.

Lemma p16_page : pmap p16 !! pte_ex 0 = Some None.
Proof.
  destruct p16_ok as ((_ & _ & _ & _ & Hall & _) & _ & [v Hv]). rewrite Hv. f_equal. exact (Hall _ _ Hv).
Qed.

Lemma s16_running : running SCFIFO s16 0 p16 7.
Proof.
  destruct p16_ok as ((Hok & _ & _ & _ & _ & Hpool) & Hs & _).
  split; [reflexivity|reflexivity|exact Hok|exact Hs|exact I|]. exists 0. split; [exact Hpool|reflexivity].
Qed.

Lemma s16_holds : holds s16 p16 7 A16.
Proof.
  destruct p16_ok as ((_ & _ & _ & _ & Hall & _) & _). intros q. unfold A16. rewrite lookup_fmap.
  destruct (pmap p16 !! q) as [v|] eqn:E; [|done]. by rewrite (Hall _ _ E).
Qed.

Lemma A16_page : A16 !! pte_ex 0 = Some None.
Proof. unfold A16. rewrite lookup_fmap. by rewrite p16_page. Qed.

Lemma s16_pinv : pinv SCFIFO 0 7 (s16, A16).
Proof. apply pinv_pair. exists p16. split; [apply s16_running|]. split; [apply p16_ok|apply s16_holds]. Qed.

Lemma p16_phys : p_phys_pages p16 = 16.
Proof. vm_compute. reflexivity. Qed.

Definition bs16 : list Z := bytes_at (k_mem s16) (frame_of (load32 (k_mem s16) (pte_ex 0))) (Z.to_nat PGSIZE).

(** The state after page 0 was swapped out. *)
Definition s15 : kst ifs := match swap_to_file SCFIFO (pte_ex 0) s16 with Ok _ s => s | _ => s16 end.

Lemma s15_pinv :
  swap_to_file SCFIFO (pte_ex 0) s16 = Ok 1 s15 ∧ pinv SCFIFO 0 7 (s15, <[pte_ex 0 := Some bs16]> A16).
Proof.
  assert (p_ignorePaging p16 = false) as Hig by apply p16_ok.
  assert (MAX_PHYS_PAGES ≤ p_phys_pages p16) as Hph by (rewrite p16_phys; unfold MAX_PHYS_PAGES; lia).
  destruct (proj1 (wp_ok _ _ _) (swap_out_holds SCFIFO _ s16 0 7 A16 p16 s16_running Hig s16_holds A16_page Hph))
    as (r & s' & E & -> & H & _).
  unfold s15. rewrite E. split; [reflexivity|exact H].
Qed.

Lemma s15_phys p : k_procs s15 !! 0%nat = Some p → p_phys_pages p = 15.
Proof.
  intros Hp. assert (p_phys_pages <$> k_procs s15 !! 0%nat = Some 15) as H by (vm_compute; reflexivity).
  rewrite Hp in H. by injection H.
Qed.

Lemma s15_frame : pte_ex 0 + 4 ≤ frame_of (load32 (k_mem s15) (pte_ex 0)).
Proof. vm_compute. discriminate. Qed.

Lemma swap_out_saves_witness : ∃ s', swap_to_file SCFIFO (pte_ex 0) s16 = Ok 1 s'.
Proof.
  destruct (swap_out_saves SCFIFO (pte_ex 0) s16 0 7 A16 p16) as (s' & E & _).
  - apply s16_running.
  - apply p16_ok.
  - apply s16_holds.
  - apply A16_page.
  - rewrite p16_phys. unfold MAX_PHYS_PAGES. lia.
  - exists s'. exact E.
Defined.

Lemma swap_in_restores_witness :
  ∃ s', swap_from_file SCFIFO (pte_ex 0) s15 = Ok 1 s' ∧
    bytes_at (k_mem s') (frame_of (load32 (k_mem s15) (pte_ex 0))) (Z.to_nat PGSIZE) = bs16.
Proof.
  destruct s15_pinv as [_ (p & Hrun & Hig & Hh)%pinv_pair].
  destruct (swap_in_restores SCFIFO (pte_ex 0) s15 0 7 (<[pte_ex 0 := Some bs16]> A16) p bs16) as (s' & E & _ & Hb & _).
  - exact Hrun.
  - exact Hig.
  - exact Hh.
  - apply lookup_insert_eq.
  - rewrite (s15_phys p); [lia|]. apply Hrun.
  - left. apply s15_frame.
  - exists s'. split; [exact E|exact Hb].
Defined.

Lemma paging_refines_witness : pinv SCFIFO 0 7 (s15, <[pte_ex 0 := Some bs16]> A16).
Proof.
  apply (paging_refines SCFIFO 0 7 (s16, A16)); [|apply s16_pinv]. apply rtc_once.
  apply (ps_out SCFIFO 0 s16 A16 p16 (pte_ex 0) 1 s15).
  - reflexivity.
  - rewrite p16_phys. unfold MAX_PHYS_PAGES. lia.
  - apply A16_page.
  - apply s15_pinv.
Defined.

Lemma scfifo_second_chance_witness :
  ∃ v m', get_page_to_swap SCFIFO s16 = Ok v (s16 <| k_mem := m' |>).
Proof.
  destruct (scfifo_second_chance 0 p16 s16 0 (seqZ 1 15)) as (a & b & m' & _ & E & _).
  - reflexivity.
  - reflexivity.
  - vm_compute. reflexivity.
  - split; [|split].
    + vm_compute. repeat (constructor; [split; reflexivity|]). constructor.
    + apply (bool_decide_unpack _). vm_compute. exact I.
    + vm_compute. reflexivity.
  - vm_compute. repeat (constructor; [reflexivity|]). constructor.
  - split; [apply (bool_decide_unpack _); vm_compute; exact I|].
    vm_compute. repeat (constructor; [reflexivity|]). constructor.
  - exists (default 0 (head b)), m'. exact E.
Defined.
End PagingExamples.
