(* ===== verification/AdvQueue.v ===== *)
(** AQ: the advancing queue.

    Under AQ the pages in memory sit in a circular array of 32 pointers
    between [start] and [end]; [remove_page] leaves a hole.  [queue_is] relates
    the structure to the list of pages it holds, oldest first: [enqueue]
    appends as long as the span of the queue, holes included, is shorter than
    the array, [dequeue] returns the oldest page, [queue_remove] deletes one.
    When the span reaches the length of the array the code overwrites a live
    slot, since it tests the number of pages and not the span; the last part
    shows a run that loses a page this way. *)

From S2P Require Import Prelude Memory Machine Kalloc Swap SwapInv.
From stdpp Require Import options.
Import Swap.

Definition slot (q : pageQueue) (k : nat) : Z := (q_start q + Z.of_nat k) `rem` MAX_TOTAL_PAGES.

(** The [n] slots from [start] on. *)
Definition window (q : pageQueue) (n : nat) : list (option Z) :=
  (λ k, default None (aget (q_arr q) (slot q k))) <$> seq 0 n.

Record queue_is (p : proc) (l : list Z) (n : nat) : Prop := {
  qi_arr : length (q_arr (p_page_queue p)) = Z.to_nat MAX_TOTAL_PAGES;
  qi_start : 0 ≤ q_start (p_page_queue p) < MAX_TOTAL_PAGES;
  qi_span : Z.of_nat n ≤ MAX_TOTAL_PAGES;
  qi_end : q_end (p_page_queue p) = slot (p_page_queue p) n;
  qi_list : omap id (window (p_page_queue p) n) = l;
  qi_nodup : NoDup l;
  qi_size : q_size (p_page_queue p) = Z.of_nat (length l);
  qi_loc k i : (k < n)%nat → aget (q_arr (p_page_queue p)) (slot (p_page_queue p) k) = Some (Some i) →
    pm_queue_location <$> aget (p_pages p) i = Some (slot (p_page_queue p) k);
}.

Lemma slot_range q k : 0 ≤ q_start q → 0 ≤ slot q k < MAX_TOTAL_PAGES.
Proof. intros. unfold slot. rewrite Z.rem_mod_nonneg by klia. apply Z.mod_pos_bound. klia. Qed.

Lemma slot_inj q j k :
  0 ≤ q_start q → (j < k)%nat → Z.of_nat k ≤ Z.of_nat j + 31 → slot q j ≠ slot q k.
Proof.
  intros H0 Hjk Hk. unfold slot. rewrite !Z.rem_mod_nonneg by klia. unfold_consts.
  intros He. Z.div_mod_to_equations. lia.
Qed.

Lemma slot_0 q : 0 ≤ q_start q < MAX_TOTAL_PAGES → slot q 0 = q_start q.
Proof. intros. unfold slot. rewrite Z.add_0_r, Z.rem_mod_nonneg by klia. by apply Z.mod_small. Qed.

(** Moving [start] on by one. *)
Lemma slot_next q q' k :
  0 ≤ q_start q → q_start q' = (q_start q + 1) `rem` MAX_TOTAL_PAGES → slot q' k = slot q (S k).
Proof.
  intros H0 He. unfold slot. rewrite He, !Z.rem_mod_nonneg by (unfold_consts; try rewrite Z.rem_mod_nonneg by lia; Z.div_mod_to_equations; lia).
  rewrite Z.add_mod_idemp_l by klia. f_equal. lia.
Qed.

Lemma window_S q n : window q (S n) = window q n ++ [default None (aget (q_arr q) (slot q n))].
Proof. unfold window. by rewrite seq_S, fmap_app. Qed.

Lemma window_ext q q' n :
  (∀ k, (k < n)%nat → aget (q_arr q') (slot q' k) = aget (q_arr q) (slot q k)) → window q' n = window q n.
Proof.
  intros H. unfold window. apply list_fmap_ext. intros j k Hk. apply lookup_seq in Hk as [-> Hk]. by rewrite H by lia.
Qed.

Lemma window_cons q q' n :
  0 ≤ q_start q → q_start q' = (q_start q + 1) `rem` MAX_TOTAL_PAGES →
  (∀ k, (k < n)%nat → aget (q_arr q') (slot q (S k)) = aget (q_arr q) (slot q (S k))) →
  window q (S n) = default None (aget (q_arr q) (slot q 0)) :: window q' n.
Proof.
  intros H0 He Hk. unfold window. cbn [seq]. rewrite <-seq_shift, fmap_cons, <-list_fmap_compose. f_equal.
  apply list_fmap_ext. intros j k Hj. apply lookup_seq in Hj as [-> Hj]. simpl.
  rewrite (slot_next q q') by done. rewrite Hk by lia. done.
Qed.

Lemma window_elem q n i :
  i ∈ omap id (window q n) ↔ ∃ k, (k < n)%nat ∧ aget (q_arr q) (slot q k) = Some (Some i).
Proof.
  unfold window. rewrite list_elem_of_omap. split.
  - intros (o & Ho & Hi). simpl in Hi. subst o. apply list_elem_of_fmap in Ho as (k & Hk & Hin).
    apply elem_of_seq in Hin. exists k. split; [lia|]. destruct (aget (q_arr q) (slot q k)) as [o|]; simpl in *; congruence.
  - intros (k & Hk & He). exists (Some i). split; [|done]. apply list_elem_of_fmap. exists k. rewrite He. split; [done|].
    apply elem_of_seq. lia.
Qed.

Lemma queue_length p l n : queue_is p l n → (length l ≤ n)%nat.
Proof.
  intros H. rewrite <-(qi_list _ _ _ H). transitivity (length (window (p_page_queue p) n)).
  - generalize (window (p_page_queue p) n). induction l0 as [|[x|] l0 IH]; csimpl; lia.
  - unfold window. by rewrite length_fmap, length_seq.
Qed.

(** ** The operations *)

Lemma enqueue_spec p l n i :
  queue_is p l n → Z.of_nat n < MAX_TOTAL_PAGES → i ∉ l → is_Some (aget (p_pages p) i) →
  wp (enqueue i) (λ r p', r = q_end (p_page_queue p) ∧ queue_is p' (l ++ [i]) (S n)) p.
Proof.
  intros Hq Hn Hi Hpi. pose proof (queue_length _ _ _ Hq) as Hle. destruct Hq as [Ha Hs Hsp He Hl Hnd Hsz Hloc].
  unfold enqueue. apply wp_bind, wp_get. rewrite Hsz.
  destruct (Z.eqb_spec (Z.of_nat (length l)) MAX_TOTAL_PAGES); [klia|].
  pose proof (slot_range (p_page_queue p) n (proj1 Hs)) as Hr. set (q := p_page_queue p) in *. rewrite He.
  destruct (aget_is_Some (q_arr q) (slot q n)) as [e Hse]; [rewrite Ha; klia|].
  apply wp_bind. eapply wp_of_option; [exact Hse|]. apply wp_bind, wp_modify, wp_bind. apply wp_mod_amod; [done|].
  apply wp_bind, wp_modify, wp_ret. split; [done|].
  match goal with |- queue_is ?p' _ _ => set (p1 := p') end.
  set (q1 := p_page_queue p1).
  assert (q_arr q1 = aset (q_arr q) (slot q n) (Some i) ∧ q_start q1 = q_start q ∧
    q_end q1 = (slot q n + 1) `rem` MAX_TOTAL_PAGES ∧ q_size q1 = q_size q + 1) as (Harr & Hst & Hen & Hsi) by done.
  assert (p_pages p1 = amod (p_pages p) i (λ x, x <| pm_queue_location := slot q n |>)) as Hpg by done.
  clearbody p1. assert (∀ k, slot q1 k = slot q k) as Hslot by (intros; unfold slot; by rewrite Hst).
  assert (∀ k, (k < n)%nat → aget (q_arr q1) (slot q1 k) = aget (q_arr q) (slot q k)) as Hkeep.
  { intros k Hk. rewrite Hslot, Harr. apply aget_aset_ne. intros E. symmetry in E. revert E. apply slot_inj; klia. }
  assert (aget (q_arr q1) (slot q1 n) = Some (Some i)) as Hnew by (rewrite Hslot, Harr; apply aget_aset_eq; rewrite Ha; klia).
  split; fold q1.
  - by rewrite Harr, length_aset.
  - by rewrite Hst.
  - klia.
  - rewrite Hen, Hslot. unfold slot. rewrite !Z.rem_mod_nonneg by (unfold_consts; try rewrite Z.rem_mod_nonneg by lia; Z.div_mod_to_equations; lia).
    rewrite Z.add_mod_idemp_l by klia. f_equal. lia.
  - rewrite window_S, omap_app, (window_ext q q1) by done. rewrite Hl, Hnew. done.
  - apply NoDup_app. split_and!; [done|intros y Hy ->%list_elem_of_singleton; done|apply NoDup_singleton].
  - rewrite Hsi, Hsz, length_app. simpl. lia.
  - intros k j Hk Hj. rewrite Hpg, aget_amod. destruct (decide (k = n)) as [->|Hkn].
    + rewrite Hnew in Hj. injection Hj as <-. rewrite decide_True by done. destruct Hpi as [x ->]. simpl. by rewrite Hslot.
    + rewrite Hkeep in Hj by lia. assert (j ∈ l) as Hjl.
      { rewrite <-Hl. apply window_elem. exists k. split; [lia|done]. }
      rewrite decide_False by (intros ->; done). rewrite option_fmap_id, Hslot. apply Hloc; [lia|done].
Qed.

(** Skipping the holes at the front. *)
Lemma dequeue_seek_spec fuel p i l n :
  queue_is p (i :: l) n → (n ≤ fuel)%nat →
  wp (dequeue_seek fuel) (λ j p', j = i ∧ ∃ n', queue_is p' (i :: l) (S n') ∧ (S n' ≤ n)%nat ∧
     p_pages p' = p_pages p ∧
     aget (q_arr (p_page_queue p')) (q_start (p_page_queue p')) = Some (Some i)) p.
Proof.
  revert p n. induction fuel as [|fuel IH]; intros p n Hq Hf.
  { apply queue_length in Hq. simpl in Hq. lia. }
  destruct n as [|n]; [apply queue_length in Hq; simpl in Hq; lia|].
  pose proof Hq as [Ha Hs Hsp He Hl Hnd Hsz Hloc]. set (q := p_page_queue p) in *.
  destruct (aget_is_Some (q_arr q) (q_start q)) as [e Hse]; [rewrite Ha; klia|].
  unfold dequeue_seek. cbn [loop]. apply wp_bind, wp_bind, wp_get, wp_bind. eapply wp_of_option; [exact Hse|].
  destruct e as [j|].
  - apply wp_ret, wp_ret. 
    rewrite (window_cons q (q <| q_start ::= λ st, (st + 1) `rem` MAX_TOTAL_PAGES |>)) in Hl by (done || lia).
    rewrite slot_0, Hse in Hl by done. cbn in Hl. injection Hl as -> _. split; [done|]. exists n. eauto.
  - apply wp_bind, wp_modify, wp_ret. set (p1 := p <| p_page_queue ::= _ |>). eapply wp_mono; [apply (IH p1 n); [|lia]|].
    + assert (∀ k, slot (p_page_queue p1) k = slot q (S k)) as Hsl by (intros; apply slot_next; [lia|done]).
      split; try done.
      * simpl. fold q. rewrite Z.rem_mod_nonneg by klia. apply Z.mod_pos_bound. klia.
      * klia.
      * rewrite Hsl. done.
      * rewrite (window_cons q (p_page_queue p1)) in Hl by (done || lia).
        rewrite slot_0, Hse in Hl by done. exact Hl.
      * intros k j Hk. rewrite Hsl. apply Hloc. lia.
    + intros j p' (-> & n' & Hq' & Hle & Hpg & Hst). split; [done|]. exists n'. split_and!; [done|lia|done|done].
Qed.

Lemma dequeue_spec p i l n :
  queue_is p (i :: l) n → (∀ j, j ∈ i :: l → is_Some (aget (p_pages p) j)) →
  wp dequeue (λ r p', r = Some i ∧ ∃ n', queue_is p' l n' ∧ (n' < n)%nat) p.
Proof.
  intros Hq Hin. unfold dequeue. apply wp_bind, wp_get. unfold isEmpty. rewrite (qi_size _ _ _ Hq).
  destruct (Z.eqb_spec (Z.of_nat (length (i :: l))) 0); [simpl in *; lia|].
  apply wp_bind. eapply wp_mono; [apply (dequeue_seek_spec _ p i l n Hq)|].
  { pose proof (qi_span _ _ _ Hq). unfold queue_fuel. klia. }
  intros j p1 (-> & n' & Hq1 & Hle & Hpg & Hst). destruct Hq1 as [Ha Hs Hsp He Hl Hnd Hsz Hloc].
  set (q := p_page_queue p1) in *. apply wp_bind, wp_modify, wp_bind.
  apply wp_mod_amod; [simpl; rewrite Hpg; apply Hin; by left|]. apply wp_ret. split; [done|]. exists n'. split; [|lia].
  match goal with |- queue_is ?p' _ _ => set (p2 := p') end. set (q2 := p_page_queue p2).
  assert (q_arr q2 = aset (q_arr q) (q_start q) None ∧ q_start q2 = (q_start q + 1) `rem` MAX_TOTAL_PAGES ∧
    q_end q2 = q_end q ∧ q_size q2 = q_size q - 1) as (Harr & Hst2 & Hen & Hsi) by done.
  assert (p_pages p2 = amod (p_pages p1) i (λ x, x <| pm_queue_location := -1 |>)) as Hpg2 by done.
  clearbody p2. assert (∀ k, slot q2 k = slot q (S k)) as Hslot by (intros; apply slot_next; [lia|done]).
  assert (∀ k, (k < n')%nat → aget (q_arr q2) (slot q (S k)) = aget (q_arr q) (slot q (S k))) as Hkeep.
  { intros k Hk. rewrite Harr. apply aget_aset_ne. rewrite <-(slot_0 q) by done. apply slot_inj; klia. }
  rewrite (window_cons q q2) in Hl by (done || lia). rewrite slot_0, Hst in Hl by done. cbn in Hl. injection Hl as Hl.
  apply NoDup_cons in Hnd as [Hi Hnd]. split; fold q2.
  - by rewrite Harr, length_aset.
  - rewrite Hst2, Z.rem_mod_nonneg by klia. apply Z.mod_pos_bound. klia.
  - klia.
  - by rewrite Hslot, Hen.
  - done.
  - done.
  - rewrite Hsi, Hsz. simpl. lia.
  - intros k j Hk Hj. rewrite Hslot in *. rewrite Hkeep in Hj by done. rewrite Hpg2, aget_amod_ne; [apply Hloc; [lia|done]|].
    intros ->. apply Hi. rewrite <-Hl. apply window_elem. exists k. split; [done|]. by rewrite Hslot, Hkeep.
Qed.

(** C24: The queue is first-in first-out: after [enqueue] of a page on a queue
    whose span is shorter than the array, [dequeue] returns the page that was
    enqueued first and leaves the others in order. *)
Theorem aq_fifo p l n i :
  queue_is p l n → Z.of_nat n < MAX_TOTAL_PAGES → i ∉ l → (∀ j, j ∈ l ++ [i] → is_Some (aget (p_pages p) j)) →
  wp (enqueue i ;; dequeue) (λ r p', r = head (l ++ [i]) ∧ ∃ n', queue_is p' (tail (l ++ [i])) n') p.
Proof.
  intros Hq Hn Hi Hin. apply wp_bind.
  eapply wp_mono; [apply (wp_and_wlp _ _ _ _ (enqueue_spec p l n i Hq Hn Hi (Hin i ltac:(set_solver))) (enqueue_core i p))|].
  intros _ p1 [[_ Hq1] Hcs]. destruct (l ++ [i]) as [|h t] eqn:E; [by destruct l|].
  eapply wp_mono; [apply (dequeue_spec p1 h t _ Hq1)|].
  - intros j Hj. assert (length (p_pages p1) = length (p_pages p)) as Hlen.
    { rewrite <-(length_fmap core (p_pages p1)), (cs_pages _ _ Hcs), length_fmap. done. }
    destruct (Hin j Hj) as [x Hx%aget_Some_range]. apply aget_is_Some. by rewrite Hlen.
  - intros r p' (-> & n' & Hq' & _). split; [done|eauto].
Qed.

(** ** The overwritten slot *)

(** A page that stays, 31 pages that come and go, and one more page. *)
Fixpoint churn (n : nat) : M proc unit :=
  match n with O => skip | S n => add_page AQ 200 0 ;; remove_page AQ 200 ;; churn n end.
Definition aq_run : M proc unit := init_page_meta AQ ;; add_page AQ 100 0 ;; churn 31 ;; add_page AQ 300 0 ;; skip.

(** An empty array that claims to hold a page. *)
Lemma seek_forever fuel p :
  Forall (λ e, e = None) (q_arr (p_page_queue p)) → length (q_arr (p_page_queue p)) = Z.to_nat MAX_TOTAL_PAGES →
  0 ≤ q_start (p_page_queue p) < MAX_TOTAL_PAGES → dequeue_seek fuel p = Fuel.
Proof.
  revert p. induction fuel as [|fuel IH]; intros p Hall Hlen Hs; [done|].
  unfold dequeue_seek. cbn [loop]. unfold bind at 1 2. simpl. set (q := p_page_queue p) in *.
  destruct (aget_is_Some (q_arr q) (q_start q)) as [e He]; [rewrite Hlen; klia|]. rewrite He. simpl.
  assert (e = None) as ->.
  { unfold aget in He. destruct (q_start q <? 0); [done|]. rewrite Forall_lookup in Hall. eauto. }
  simpl. apply (IH (p <| p_page_queue ::= λ q, q <| q_start ::= λ st, (st + 1) `rem` MAX_TOTAL_PAGES |> |>)); try done.
  simpl. fold q. rewrite Z.rem_mod_nonneg by klia. apply Z.mod_pos_bound. klia.
Qed.

(** C29: The queue can lose a page. After one page was added, 31 pages were
    added and removed again and one more was added, the first page is in
    memory but in no slot of the queue, which counts two pages and holds one;
    the second [dequeue] from then on never returns. *)
Theorem aq_loses_page :
  ∃ p p', aq_run (proc0 : proc) = Ok tt p ∧
    (∃ x, aget (p_pages p) 0 = Some x ∧ resident x = true) ∧ (Some 0 ∉ q_arr (p_page_queue p)) ∧
    q_size (p_page_queue p) = 2 ∧ dequeue p = Ok (Some 1) p' ∧
    isEmpty (p_page_queue p') = false ∧ (∀ fuel, dequeue_seek fuel p' = Fuel).
Proof.
  destruct (aq_run proc0) as [[] p| | | | |] eqn:E; try (vm_compute in E; discriminate E).
  destruct (dequeue p) as [r p'| | | | |] eqn:D; vm_compute in E; injection E as <-; vm_compute in D; try discriminate D.
  injection D as <- <-. eexists _, _. split; [reflexivity|]. split_and!.
  - eexists. split; reflexivity.
  - apply (bool_decide_unpack _). vm_compute. exact I.
  - reflexivity.
  - vm_compute. reflexivity.
  - reflexivity.
  - intros fuel. apply seek_forever; [repeat (constructor; [reflexivity|]); constructor|reflexivity|simpl; klia].
Qed.

(** A queue with page 5, and page 6 coming in. *)
Definition p_five : proc := match enqueue 5 proc0 with Ok _ p => p | _ => proc0 end.

Lemma queue_five : queue_is p_five [5] 1.
Proof.
  assert (queue_is proc0 [] 0) as H0.
  { split; try done; [constructor|intros; lia]. }
  destruct (proj1 (wp_ok _ _ _) (enqueue_spec proc0 [] 0 5 H0 ltac:(klia) ltac:(apply not_elem_of_nil) ltac:(eexists; reflexivity)))
    as (r & p & E & _ & Hq). unfold p_five. rewrite E. exact Hq.
Qed.

Lemma aq_fifo_witness : ∃ p', (enqueue 6 ;; dequeue) p_five = Ok (Some 5) p'.
Proof.
  destruct (proj1 (wp_ok _ _ _) (aq_fifo p_five [5] 1 6 queue_five ltac:(klia)
    ltac:(apply (bool_decide_unpack _); exact I)
    ltac:(intros j Hj; rewrite elem_of_app, !list_elem_of_singleton in Hj; destruct Hj as [-> | ->]; eexists; vm_compute; reflexivity)))
    as (r & p' & E & Hr & _). exists p'. rewrite E, Hr. reflexivity.
Defined.
