(* ===== verification/Vm.v ===== *)
(** Virtual memory: [src/vm.c].

    Page directories and page tables live in [k_mem]; a [pte_t*] is the kernel
    virtual address of the entry, 0 the null pointer.  Dereferencing a null
    entry is [UB].  The loops over address ranges take as many turns as there
    are pages in the range, which bounds their fuel. *)

From S2P Require Import Prelude Memory Machine Kalloc Swap.
From stdpp Require Import options.
Import Swap.

Module Vm.
Section vm.
Context (SELECTION : policy) {F : Type} `{!FileSys F}.
Context (kend kdata : Z).   (* end and data, from kernel.ld *)
Implicit Types s : kst F.

(** [memset], [memmove] on kernel memory. *)
Definition kmemset (dst c n : Z) : M (kst F) unit :=
  modify (λ s, s <| k_mem ::= λ m, Kstring.memset m dst c n |>).
Definition kmemmove (dst src n : Z) : M (kst F) unit :=
  modify (λ s, s <| k_mem ::= λ m, Kstring.memmove m dst src n |>).

(** ** Page tables *)

Definition walkpgdir (pgdir va : Z) (alloc : bool) : M (kst F) Z :=
  let pde := pgdir + 4 * PDX va in
  e <- ld32 pde ;;
  if pte_has e PTE_P then
    let pgtab := P2V (PTE_ADDR e) in
    ret (pgtab + 4 * PTX va)
  else if negb alloc then ret 0 else
  pgtab <- Kalloc.kalloc ;;
  if pgtab =? 0 then ret 0 else
  kmemset pgtab 0 PGSIZE ;;
  st32 pde (Z.lor (Z.lor (Z.lor (V2P pgtab) PTE_P) PTE_W) PTE_U) ;;
  ret (pgtab + 4 * PTX va).

Definition mappages_loop (fuel : nat) (pgdir last perm : Z) : Z * Z → M (kst F) Z :=
  loop fuel (λ '(a, pa),
    pte <- walkpgdir pgdir a true ;;
    if pte =? 0 then ret (inr (-1)) else
    e <- ld32 pte ;;
    if pte_has e PTE_P then panic "remap" else
    st32 pte (Z.lor (Z.lor pa perm) PTE_P) ;;
    if a =? last then ret (inr 0)
    else ret (inl (u32 (a + PGSIZE), u32 (pa + PGSIZE)))).

(** One turn per page from the first to the last, wrapping like [uint]. *)
Definition mappages_fuel (a last : Z) : nat := S (Z.to_nat (u32 (last - a) / PGSIZE)).

Definition mappages (pgdir va size pa perm : Z) : M (kst F) Z :=
  let a := PGROUNDDOWN va in
  let last := PGROUNDDOWN (u32 (va + size - 1)) in
  mappages_loop (mappages_fuel a last) pgdir last perm (a, pa).

(** ** Shrinking and freeing *)

(** [p = myproc()], [p->pgdir]. *)
Definition my_pgdir : M (kst F) Z := pi <- myproc ;; p <- getp pi ;; ret (p_pgdir p).

(** The page at [pte] leaves the metadata if [pgdir] is the running one's. *)
Definition forget_page (pgdir pte : Z) : M (kst F) unit :=
  mine <- my_pgdir ;;
  if pgdir =? mine then
    pi <- myproc ;;
    r <- on_proc pi (remove_page SELECTION pte) ;;
    if r =? 0 then panic "remove page" else skip
  else skip.

(** One turn of the loop of [deallocuvm]; the result is the next [a]. *)
Definition dealloc_page (pgdir a : Z) : M (kst F) Z :=
  pte <- walkpgdir pgdir a false ;;
  if pte =? 0 then ret (u32 (u32 (PGADDR (PDX a + 1) 0 0 - PGSIZE) + PGSIZE)) else
  e <- ld32 pte ;;
  (if pte_has e PTE_P then
     let pa := PTE_ADDR e in
     if pa =? 0 then panic "kfree" else
     let v := P2V pa in
     Kalloc.kfree kend v ;;
     forget_page pgdir pte ;;
     st32 pte 0
   else skip) ;;
  e <- ld32 pte ;;
  (if negb (pte_has e PTE_P) && pte_has e PTE_PG then
     forget_page pgdir pte ;;
     st32 pte 0
   else skip) ;;
  ret (u32 (a + PGSIZE)).

Definition dealloc_loop (fuel : nat) (pgdir oldsz a : Z) : M (kst F) unit :=
  loop fuel (λ a, if a <? oldsz then a <- dealloc_page pgdir a ;; ret (inl a) else ret (inr tt)) a.

Definition range_fuel (sz : Z) : nat := S (S (Z.to_nat (sz / PGSIZE))).

Definition deallocuvm (pgdir oldsz newsz : Z) : M (kst F) Z :=
  if oldsz <=? newsz then ret oldsz else
  dealloc_loop (range_fuel oldsz) pgdir oldsz (PGROUNDUP newsz) ;;
  ret newsz.

Definition freevm (pgdir : Z) : M (kst F) unit :=
  if pgdir =? 0 then panic "freevm: no pgdir" else
  deallocuvm pgdir KERNBASE 0 ;;
  for_all (Z.to_nat NPDENTRIES) 0 (λ i,
    e <- ld32 (pgdir + 4 * i) ;;
    if pte_has e PTE_P then Kalloc.kfree kend (P2V (PTE_ADDR e)) else skip) ;;
  Kalloc.kfree kend pgdir.

(** ** The kernel's mappings *)

Record kmap_entry := Kmap { km_virt : Z; km_phys_start : Z; km_phys_end : Z; km_perm : Z }.

Definition kmap : list kmap_entry := [
  Kmap KERNBASE 0 EXTMEM PTE_W;
  Kmap KERNLINK (V2P KERNLINK) (V2P kdata) 0;
  Kmap kdata (V2P kdata) PHYSTOP PTE_W;
  Kmap DEVSPACE DEVSPACE 0 PTE_W ].

Fixpoint setupkvm_loop (ks : list kmap_entry) (pgdir : Z) : M (kst F) Z :=
  match ks with
  | [] => ret pgdir
  | k :: ks =>
      r <- mappages pgdir (km_virt k) (u32 (km_phys_end k - km_phys_start k)) (km_phys_start k) (km_perm k) ;;
      if r <? 0 then freevm pgdir ;; ret 0 else setupkvm_loop ks pgdir
  end.

Definition setupkvm : M (kst F) Z :=
  pgdir <- Kalloc.kalloc ;;
  if pgdir =? 0 then ret 0 else
  kmemset pgdir 0 PGSIZE ;;
  if DEVSPACE <? P2V PHYSTOP then panic "PHYSTOP too high" else
  setupkvm_loop kmap pgdir.

Definition switchkvm : M (kst F) unit := k <- gets k_kpgdir ;; lcr3 (V2P k).

Definition kvmalloc : M (kst F) unit :=
  k <- setupkvm ;;
  modify (λ s, s <| k_kpgdir := k |>) ;;
  switchkvm.

(** The task-state segment and the interrupt flag are not part of [kst]. *)
Definition switchuvm (p : option nat) : M (kst F) unit :=
  match p with
  | None => panic "switchuvm: no process"
  | Some i =>
      p <- getp i ;;
      if p_kstack p =? 0 then panic "switchuvm: no kstack" else
      if p_pgdir p =? 0 then panic "switchuvm: no pgdir" else
      lcr3 (V2P (p_pgdir p))
  end.

(** [init] points to the bytes of initcode, linked into the kernel. *)
Definition inituvm (pgdir init sz : Z) : M (kst F) unit :=
  if PGSIZE <=? sz then panic "inituvm: more than a page" else
  mem <- Kalloc.kalloc ;;
  kmemset mem 0 PGSIZE ;;
  mappages pgdir 0 PGSIZE (V2P mem) (Z.lor PTE_W PTE_U) ;;
  kmemmove mem init sz.

Definition loaduvm (pgdir addr ip offset sz : Z) : M (kst F) Z :=
  if negb (addr mod PGSIZE =? 0) then panic "loaduvm: addr must be page aligned" else
  loop (range_fuel sz) (λ i,
    if i <? sz then
      pte <- walkpgdir pgdir (u32 (addr + i)) false ;;
      if pte =? 0 then panic "loaduvm: address should exist" else
      e <- ld32 pte ;;
      let pa := PTE_ADDR e in
      let n := if sz - i <? PGSIZE then sz - i else PGSIZE in
      r <- fs_call (fs_readi ip (u32 (offset + i)) n) ;;
      modify (λ s, s <| k_mem ::= λ m, store_bytes m (P2V pa) r.2 |>) ;;
      if negb (r.1 =? n) then ret (inr (-1)) else ret (inl (u32 (i + PGSIZE)))
    else ret (inr 0)) 0.

(** ** Growing *)

(** [free_page(p)] on the running process: a victim goes to the swap file and
    its frame back to the allocator. *)
Definition free_page : M (kst F) unit :=
  pi <- myproc ;;
  modp pi (λ p, p <| p_pgout_count ::= λ n, u32 (n + 1) |>) ;;
  ind <- get_page_to_swap SELECTION ;;
  p <- getp pi ;;
  if ind =? -1 then
    cprintf "phys pages:%d\n" (ints [p_phys_pages p]) ;;
    for_all (Z.to_nat MAX_TOTAL_PAGES) 0 (λ i,
      x <- on_proc pi (page_at i) ;;
      cprintf "%d" (ints [if pm_on_phys x then 1 else 0])) ;;
    cprintf "\n" [] ;;
    panic "swap"
  else
    x <- on_proc pi (page_at ind) ;;
    let swap_page := pm_pte x in
    swap_to_file SELECTION swap_page ;;
    e <- ld32 swap_page ;;
    let pa := PTE_ADDR e in
    if pa =? 0 then panic "kfree" else
    let v := P2V pa in
    Kalloc.kfree kend v ;;
    lcr3 (V2P (p_pgdir p)).

(** One turn of [allocuvm] at [a]: [Some r] returns [r] from the function. *)
Definition alloc_page (pgdir oldsz newsz a : Z) : M (kst F) (option Z) :=
  pi <- myproc ;;
  p <- getp pi ;;
  (if decide (SELECTION = NONE) then skip
   else if negb (p_ignorePaging p) && (pgdir =? p_pgdir p) then
     if MAX_PHYS_PAGES <=? p_phys_pages p then free_page else skip
   else skip) ;;
  mem <- Kalloc.kalloc ;;
  if mem =? 0 then
    cprintf "allocuvm out of memory\n" [] ;;
    deallocuvm pgdir newsz oldsz ;;
    ret (Some 0)
  else
    kmemset mem 0 PGSIZE ;;
    r <- mappages pgdir a PGSIZE (V2P mem) (Z.lor PTE_W PTE_U) ;;
    if r <? 0 then
      cprintf "allocuvm out of memory (2)\n" [] ;;
      deallocuvm pgdir newsz oldsz ;;
      Kalloc.kfree kend mem ;;
      ret (Some 0)
    else
      pg_entry <- walkpgdir pgdir a false ;;
      if decide (SELECTION = NONE) then on_proc pi (add_page SELECTION pg_entry a) ;; ret None else
      p <- getp pi ;;
      let page_ind := find_page_ind p pg_entry in
      if page_ind =? -1 then
        r <- on_proc pi (add_page SELECTION pg_entry a) ;;
        if r =? 0 then
          cprintf "process out of memory\n" [] ;;
          modp pi (λ p, p <| p_killed := true |>) ;;
          ret (Some oldsz)
        else ret None
      else
        page <- on_proc pi (page_at page_ind) ;;
        cprintf "pid:%d\n" (ints [p_pid p]) ;;
        cprintf "pte:%p\nva:%p\noffset:%d\non_phys:%d\ntaken:%d\n"
          (ints [pm_pte page; pm_va page; pm_offset page; if pm_on_phys page then 1 else 0; if pm_taken page then 1 else 0]) ;;
        panic "add page".

Definition allocuvm (pgdir oldsz newsz : Z) : M (kst F) Z :=
  if KERNBASE <=? newsz then ret 0 else
  if newsz <? oldsz then ret oldsz else
  loop (range_fuel newsz) (λ a,
    if a <? newsz then
      r <- alloc_page pgdir oldsz newsz a ;;
      match r with
      | Some r => ret (inr r)
      | None => ret (inl (u32 (a + PGSIZE)))
      end
    else ret (inr newsz)) (PGROUNDUP oldsz).

Definition clearpteu (pgdir uva : Z) : M (kst F) unit :=
  pte <- walkpgdir pgdir uva false ;;
  if pte =? 0 then panic "clearpteu" else
  e <- ld32 pte ;;
  st32 pte (pte_clr e PTE_U).

(** ** Copying an address space *)

(** One turn of [copyuvm] at [i]: [Some r] leaves the loop with [r]; 0 is the
    label [bad]. *)
Definition copy_page (pgdir d i : Z) : M (kst F) (option Z) :=
  pte <- walkpgdir pgdir i false ;;
  if pte =? 0 then panic "copyuvm: pte should exist" else
  e <- ld32 pte ;;
  if negb (pte_has e PTE_P) && negb (negb (e =? 0) && negb (PTE_PG =? 0)) then
    panic "copyuvm: page not present and not on disk"
  else if (if decide (SELECTION = NONE) then false else pte_has e PTE_PG) then
    npte <- walkpgdir d i true ;;
    if npte =? 0 then panic "copyuvm: can't create pte" else
    e <- ld32 pte ;;
    st32 npte e ;;
    ret None
  else
    let pa := PTE_ADDR e in
    let flags := PTE_FLAGS e in
    mem <- Kalloc.kalloc ;;
    if mem =? 0 then ret (Some 0) else
    kmemmove mem (P2V pa) PGSIZE ;;
    r <- mappages d i PGSIZE (V2P mem) flags ;;
    if r <? 0 then ret (Some 0) else ret None.

Definition copyuvm (pgdir sz : Z) : M (kst F) Z :=
  d <- setupkvm ;;
  if d =? 0 then ret 0 else
  r <- loop (range_fuel sz) (λ i,
    if i <? sz then
      r <- copy_page pgdir d i ;;
      match r with Some r => ret (inr r) | None => ret (inl (u32 (i + PGSIZE))) end
    else ret (inr d)) 0 ;;
  if r =? 0 then freevm d ;; ret 0 else ret r.

Definition copy_page_arr (dst src : nat) : M (kst F) unit :=
  ps <- getp src ;;
  modp dst (λ p, p <| p_num_of_pages := p_num_of_pages ps |> <| p_phys_pages := p_phys_pages ps |>) ;;
  if decide (SELECTION = NONE) then skip else
  (if decide (SELECTION = SCFIFO) then modp dst (λ p, p <| p_headp := p_headp ps |>) else skip) ;;
  for_all (Z.to_nat MAX_TOTAL_PAGES) 0 (λ i,
    ps <- getp src ;;
    x <- of_option "src->pages[] index" (aget (p_pages ps) i) ;;
    on_proc dst (mod_page i (λ _, x)) ;;
    if pm_taken x then
      pd <- getp dst ;;
      pte <- walkpgdir (p_pgdir pd) (pm_va x) false ;;
      on_proc dst (mod_page i (λ x, x <| pm_pte := pte |>))
    else skip) ;;
  ps <- getp src ;;
  modp dst (λ p, p <| p_offsets := p_offsets ps |>) ;;
  if decide (SELECTION = AQ) then modp dst (λ p, p <| p_page_queue := copyQueue (p_page_queue ps) |>) else skip.

(** ** User addresses *)

Definition uva2ka (pgdir uva : Z) : M (kst F) Z :=
  pte <- walkpgdir pgdir uva false ;;
  if pte =? 0 then undef "uva2ka: null pte" else
  e <- ld32 pte ;;
  if negb (pte_has e PTE_P) then ret 0 else
  if negb (pte_has e PTE_U) then ret 0 else
  ret (P2V (PTE_ADDR e)).

(** [buf] is what is at [p]. *)
Definition copyout (pgdir va : Z) (buf : list Z) : M (kst F) Z :=
  loop (S (length buf)) (λ '(va, buf),
    let len := Z.of_nat (length buf) in
    if 0 <? len then
      let va0 := PGROUNDDOWN va in
      pa0 <- uva2ka pgdir va0 ;;
      if pa0 =? 0 then ret (inr (-1)) else
      let n := PGSIZE - (va - va0) in
      let n := if len <? n then len else n in
      modify (λ s, s <| k_mem ::= λ m, store_bytes m (pa0 + (va - va0)) (take (Z.to_nat n) buf) |>) ;;
      ret (inl (u32 (va0 + PGSIZE), drop (Z.to_nat n) buf))
    else ret (inr 0)) (va, buf).

(** ** Page faults *)

Definition segmentation_fault (pi : nat) : M (kst F) unit :=
  cprintf "segmentation fault\n" [] ;;
  modp pi (λ p, p <| p_killed := true |>).

Definition handle_pgflt : M (kst F) unit :=
  pi <- myproc ;;
  if decide (SELECTION = NONE) then segmentation_fault pi else
  addr <- gets k_cr2 ;;
  modp pi (λ p, p <| p_pgflt_count ::= λ n, u32 (n + 1) |>) ;;
  p <- getp pi ;;
  page <- walkpgdir (p_pgdir p) addr false ;;
  if KERNBASE <? addr then panic "kernel memory not present" else
  if page =? 0 then undef "handle_pgflt: null pte" else
  e <- ld32 page ;;
  if pte_has e PTE_P then panic "page fault present" else
  if negb (pte_has e PTE_PG) then segmentation_fault pi else
  let page_start := PGROUNDDOWN addr in
  (if p_phys_pages p =? MAX_PHYS_PAGES then free_page else skip) ;;
  mem <- Kalloc.kalloc ;;
  if mem =? 0 then cprintf "mapping out of memory\n" [] else
  r <- mappages (p_pgdir p) page_start PGSIZE (V2P mem) (Z.lor PTE_W PTE_U) ;;
  if r <? 0 then
    cprintf "mapping out of memory (2)\n" [] ;;
    Kalloc.kfree kend mem
  else
    swap_from_file SELECTION page ;;
    skip.
End vm.
End Vm.
