(* ===== verification/Proc.v ===== *)
(** Processes: [src/proc.c].

    A function that switches to the scheduler is cut at the [swtch]: the part
    before it ([sleep_enter], [yield_enter], [exit_enter]) ends with the state
    the scheduler finds, the part after it ([sleep_resume], [yield_resume])
    runs when the scheduler switches back.  [wait] is one scan of its loop.
    The step relation of the whole machine is in Sched. *)

From S2P Require Import Prelude Memory Machine Kalloc Swap Vm.
From stdpp Require Import options.
Import Swap.

Module Proc.

(** [safestrcpy(s, t, n)] on arrays: [while(--n > 0 && ( *s++ = *t++) != 0); *s = 0;] *)
Fixpoint name_copy (n : nat) (dst src : list Z) : list Z :=
  match n, dst with
  | S (S n), _ :: dst =>
      let c := default 0 (head src) in
      if c =? 0 then c :: match dst with _ :: dst => 0 :: dst | [] => [] end
      else c :: name_copy (S n) dst (tail src)
  | S O, _ :: dst => 0 :: dst
  | _, _ => dst
  end.

Definition SEG_KCODE := 1.
Definition SEG_KDATA := 2.
Definition SEG_UCODE := 3.
Definition SEG_UDATA := 4.
Definition DPL_USER := 3.
Definition FL_IF := 0x200.

Definition state_name (st : procstate) : string :=
  match st with
  | UNUSED => "unused" | EMBRYO => "embryo" | SLEEPING => "sleep "
  | RUNNABLE => "runble" | RUNNING => "run   " | ZOMBIE => "zombie"
  end.

Section proc.
Context (SELECTION : policy) (VERBOSE : bool) {F : Type} `{!FileSys F}.
Context (kend kdata forkret_addr trapret_addr initcode_start initcode_size : Z).
Context (ptable_proc sizeof_proc : Z).   (* &ptable.proc[0], sizeof(struct proc) *)
Implicit Types s : kst F.

(** [for(p = ptable.proc; p < &ptable.proc[NPROC]; p++) if(f(p)) ...] *)
Fixpoint find_proc_from (f : proc → bool) (ps : list proc) (i : nat) : option nat :=
  match ps with
  | [] => None
  | p :: ps => if f p then Some i else find_proc_from f ps (S i)
  end.
Definition find_proc (f : proc → bool) : M (kst F) (option nat) := gets (λ s, find_proc_from f (k_procs s) 0).

Definition allocproc : M (kst F) (option nat) :=
  acquire k_ptable_lock ;;
  r <- find_proc (λ p, bool_decide (p_state p = UNUSED)) ;;
  match r with
  | None => release k_ptable_lock ;; ret None
  | Some i =>
      pid <- gets k_nextpid ;;
      modp i (λ p, p <| p_state := EMBRYO |> <| p_pid := pid |>) ;;
      modify (λ s, s <| k_nextpid := s32 (pid + 1) |>) ;;
      release k_ptable_lock ;;
      kstack <- Kalloc.kalloc ;;
      modp i (λ p, p <| p_kstack := kstack |>) ;;
      if kstack =? 0 then modp i (λ p, p <| p_state := UNUSED |>) ;; ret None else
      let sp := kstack + KSTACKSIZE - 76 - 4 in
      st32 sp trapret_addr ;;
      modp i (λ p, p <| p_context := zero_context <| ctx_eip := forkret_addr |> |>) ;;
      on_proc i (init_page_meta SELECTION) ;;
      modp i (λ p, p <| p_swapFile := None |>) ;;
      ret (Some i)
  end.

Definition user_trapframe : trapframe :=
  let cs := Z.lor (Z.shiftl SEG_UCODE 3) DPL_USER in
  let ds := Z.lor (Z.shiftl SEG_UDATA 3) DPL_USER in
  zero_trapframe <| tf_cs := cs |> <| tf_ds := ds |> <| tf_es := ds |> <| tf_ss := ds |>
    <| tf_eflags := FL_IF |> <| tf_esp := PGSIZE |> <| tf_eip := 0 |>.

Definition userinit : M (kst F) unit :=
  r <- allocproc ;;
  modify (λ s, s <| k_initproc := r |>) ;;
  i <- of_option "userinit: no process" r ;;
  pgdir <- Vm.setupkvm SELECTION kend kdata ;;
  modp i (λ p, p <| p_pgdir := pgdir |>) ;;
  if pgdir =? 0 then panic "userinit: out of memory?" else
  Vm.inituvm pgdir initcode_start initcode_size ;;
  modp i (λ p, p <| p_sz := PGSIZE |> <| p_tf := user_trapframe |> <| p_swapFile := None |>
                 <| p_name ::= λ n, name_copy 16 n (bytes_of "initcode") |>) ;;
  cwd <- fs_call (fs_namei None (bytes_of "/")) ;;
  modp i (λ p, p <| p_cwd := cwd |> <| p_ignorePaging := true |>) ;;
  acquire k_ptable_lock ;;
  modp i (λ p, p <| p_state := RUNNABLE |>) ;;
  release k_ptable_lock.

Definition growproc (n : Z) : M (kst F) Z :=
  i <- myproc ;;
  p <- getp i ;;
  let sz := p_sz p in
  r <- (if 0 <? n then
          sz <- Vm.allocuvm SELECTION kend (p_pgdir p) sz (u32 (sz + n)) ;;
          ret (if sz =? 0 then None else Some sz)
        else if n <? 0 then
          sz <- Vm.deallocuvm SELECTION kend (p_pgdir p) sz (u32 (sz + n)) ;;
          ret (if sz =? 0 then None else Some sz)
        else ret (Some sz)) ;;
  match r with
  | None => ret (-1)
  | Some sz =>
      modp i (λ p, p <| p_sz := sz |>) ;;
      Vm.switchuvm (Some i) ;;
      ret 0
  end.

(** [if(curproc->ofile[i]) np->ofile[i] = filedup(curproc->ofile[i]);] *)
Definition dup_files (cur np : nat) : M (kst F) unit :=
  for_all (Z.to_nat NOFILE) 0 (λ j,
    p <- getp cur ;;
    f <- of_option "ofile[] index" (aget (p_ofile p) j) ;;
    match f with
    | None => skip
    | Some f =>
        f <- fs_call (fs_filedup f) ;;
        modp np (λ q, q <| p_ofile ::= λ l, aset l j (Some f) |>)
    end).

(** One turn of [copy_swap_file] per page, and the last one. *)
Definition swap_fuel : nat := S (S (Z.to_nat MAX_SWAP_FILE_SZ)).

Definition fork : M (kst F) Z :=
  cur <- myproc ;;
  r <- allocproc ;;
  match r with
  | None => ret (-1)
  | Some np =>
      p <- getp cur ;;
      pgdir <- Vm.copyuvm SELECTION kend kdata (p_pgdir p) (p_sz p) ;;
      modp np (λ q, q <| p_pgdir := pgdir |>) ;;
      q <- getp np ;;
      if pgdir =? 0 then
        Kalloc.kfree kend (p_kstack q) ;;
        modp np (λ q, q <| p_kstack := 0 |> <| p_state := UNUSED |>) ;;
        ret (-1)
      else
        p <- getp cur ;;
        modp np (λ q, q <| p_sz := p_sz p |> <| p_parent := Some cur |> <| p_ignorePaging := p_ignorePaging p |>
                        <| p_tf := (p_tf p) <| tf_eax := 0 |> |>) ;;
        dup_files cur np ;;
        p <- getp cur ;;
        cwd0 <- of_option "idup of a null inode" (p_cwd p) ;;
        cwd <- fs_call (fs_idup cwd0) ;;
        modp np (λ q, q <| p_cwd := Some cwd |> <| p_name ::= λ n, name_copy 16 n (p_name p) |>) ;;
        q <- getp np ;;
        let pid := p_pid q in
        (if decide (SELECTION = NONE) then skip else
         modp np (λ q, q <| p_file_size := 0 |>) ;;
         p <- getp cur ;;
         match p_swapFile p with
         | None => skip
         | Some _ =>
             f <- fs_call (fs_createSwapFile pid) ;;
             modp np (λ q, q <| p_swapFile := Some f |>) ;;
             copy_swap_file kend swap_fuel np cur
         end) ;;
        Vm.copy_page_arr SELECTION np cur ;;
        acquire k_ptable_lock ;;
        modp np (λ q, q <| p_state := RUNNABLE |>) ;;
        release k_ptable_lock ;;
        ret pid
  end.

(** ** Sleeping and waking *)

(** The address of a process, used as a channel. *)
Definition proc_chan (p : option nat) : Z :=
  match p with None => 0 | Some i => ptable_proc + sizeof_proc * Z.of_nat i end.

Definition wakeup1 (chan : Z) : M (kst F) unit :=
  modify (λ s, s <| k_procs ::= fmap (λ p : proc,
    if bool_decide (p_state p = SLEEPING) && (p_chan p =? chan) then p <| p_state := RUNNABLE |> else p) |>).

Definition wakeup (chan : Z) : M (kst F) unit :=
  acquire k_ptable_lock ;;
  wakeup1 chan ;;
  release k_ptable_lock.

(** [sched()] up to the [swtch] to the scheduler.  The nesting depth of
    [pushcli] and the interrupt flag, which it checks as well, are modelled in
    Spinlock. *)
Definition sched : M (kst F) unit :=
  i <- myproc ;;
  p <- getp i ;;
  held <- gets k_ptable_lock ;;
  if negb held then panic "sched ptable.lock" else
  if bool_decide (p_state p = RUNNING) then panic "sched running" else skip.

Definition yield_enter : M (kst F) unit :=
  (match SELECTION with NFUA | LAPA | AQ => updatePagesCounter SELECTION | _ => skip end) ;;
  acquire k_ptable_lock ;;
  i <- myproc ;;
  modp i (λ p, p <| p_state := RUNNABLE |>) ;;
  sched.
Definition yield_resume : M (kst F) unit := release k_ptable_lock.

(** [sleep(chan, lk)]: [lk] is [ptable.lock], or another lock with its
    [acquire] and [release]. *)
Inductive sleep_lock := LkNull | LkPtable | LkOther (acq rel : M (kst F) unit).

Definition sleep_enter (chan : Z) (lk : sleep_lock) : M (kst F) unit :=
  c <- gets k_cur ;;
  match c with
  | None => panic "sleep"
  | Some i =>
      (match lk with
       | LkNull => panic "sleep without lk"
       | LkPtable => skip
       | LkOther _ rel => acquire k_ptable_lock ;; rel
       end) ;;
      modp i (λ p, p <| p_chan := chan |> <| p_state := SLEEPING |>) ;;
      sched
  end.
Definition sleep_resume (lk : sleep_lock) : M (kst F) unit :=
  i <- myproc ;;
  modp i (λ p, p <| p_chan := 0 |>) ;;
  match lk with
  | LkOther acq _ => release k_ptable_lock ;; acq
  | _ => skip
  end.

(** A new process starts here. *)
Definition forkret : M (kst F) unit :=
  release k_ptable_lock ;;
  first <- gets k_first ;;
  if first then modify (λ s, s <| k_first := false |>) ;; fs_call fs_init else skip.

(** The scheduler from entry [i] of the table on: the process it switches to,
    or [None] at the end of the table, where it releases the lock. *)
Definition scheduler_pick (i : nat) : M (kst F) (option nat) :=
  modify (λ s, s <| k_cur := None |>) ;;
  r <- gets (λ s, find_proc_from (λ p, bool_decide (p_state p = RUNNABLE)) (drop i (k_procs s)) i) ;;
  match r with
  | None => release k_ptable_lock ;; ret None
  | Some j =>
      modify (λ s, s <| k_cur := Some j |>) ;;
      Vm.switchuvm (Some j) ;;
      modp j (λ p, p <| p_state := RUNNING |>) ;;
      ret (Some j)
  end.
(** Back from the process. *)
Definition scheduler_return : M (kst F) unit := Vm.switchkvm ;; modify (λ s, s <| k_cur := None |>).

(** ** Killing, exiting, waiting *)

Definition kill (pid : Z) : M (kst F) Z :=
  acquire k_ptable_lock ;;
  r <- find_proc (λ p, p_pid p =? pid) ;;
  match r with
  | None => release k_ptable_lock ;; ret (-1)
  | Some i =>
      modp i (λ p, p <| p_killed := true |>) ;;
      modp i (λ p, if bool_decide (p_state p = SLEEPING) then p <| p_state := RUNNABLE |> else p) ;;
      release k_ptable_lock ;;
      ret 0
  end.

(** [getcallerpcs(v, pcs)]: the return addresses along the saved [ebp]s. *)
Fixpoint callerpcs (n : nat) (m : memory) (ebp : Z) : list Z :=
  match n with
  | O => []
  | S n => if (ebp =? 0) || (ebp <? KERNBASE) || (ebp =? 0xffffffff) then replicate (S n) 0
           else load32 m (ebp + 4) :: callerpcs n m (load32 m ebp)
  end.
Definition getcallerpcs (v : Z) : M (kst F) (list Z) := gets (λ s, callerpcs 10 (k_mem s) (v - 8)).

(** [for(i=0; i<10 && pc[i] != 0; i++) cprintf(" %p", pc[i]);] *)
Fixpoint print_pcs (pcs : list Z) : M (kst F) unit :=
  match pcs with
  | [] => skip
  | pc :: pcs => if pc =? 0 then skip else cprintf " %p" (ints [pc]) ;; print_pcs pcs
  end.

Definition print_proc_data (i : nat) : M (kst F) unit :=
  p <- getp i ;;
  cprintf "%d %s %d %d %d %d %s"
    [AI (p_pid p); AS (bytes_of (state_name (p_state p))); AI (p_num_of_pages p);
     AI (p_num_of_pages p - p_phys_pages p); AI (p_pgflt_count p); AI (p_pgout_count p); AS (p_name p)] ;;
  (if bool_decide (p_state p = SLEEPING) then
     pcs <- getcallerpcs (ctx_ebp (p_context p) + 8) ;;
     print_pcs pcs
   else skip) ;;
  cprintf "\n" [].

Definition print_free_pages : M (kst F) unit :=
  total <- Kalloc.get_total_pages_num ;;
  free <- Kalloc.get_free_pages_num ;;
  cprintf "%d / %d free pages in the system\n" (ints [free; total]).

Definition procdump : M (kst F) unit :=
  for_all (Z.to_nat NPROC) 0 (λ i,
    p <- getp (Z.to_nat i) ;;
    if bool_decide (p_state p = UNUSED) then skip else print_proc_data (Z.to_nat i)) ;;
  print_free_pages.

Definition close_files (cur : nat) : M (kst F) unit :=
  for_all (Z.to_nat NOFILE) 0 (λ fd,
    p <- getp cur ;;
    f <- of_option "ofile[] index" (aget (p_ofile p) fd) ;;
    match f with
    | None => skip
    | Some f =>
        fs_call (fs_fileclose f) ;;
        modp cur (λ p, p <| p_ofile ::= λ l, aset l fd None |>)
    end).

(** [removeSwapFile(p)]: [p->swapFile] keeps its value. *)
Definition removeSwapFile (i : nat) : M (kst F) Z :=
  p <- getp i ;;
  match p_swapFile p with
  | None => ret (-1)
  | Some f => fs_call (fs_removeSwapFile (p_pid p) f)
  end.

(** Abandoned children go to init. *)
Definition reparent (cur : nat) : M (kst F) unit :=
  init <- gets k_initproc ;;
  for_all (Z.to_nat NPROC) 0 (λ i,
    p <- getp (Z.to_nat i) ;;
    if bool_decide (p_parent p = Some cur) then
      modp (Z.to_nat i) (λ p, p <| p_parent := init |>) ;;
      if bool_decide (p_state p = ZOMBIE) then wakeup1 (proc_chan init) else skip
    else skip).

(** [exit()] up to the [swtch]; it never resumes. *)
Definition exit_enter : M (kst F) unit :=
  cur <- myproc ;;
  (if VERBOSE then print_proc_data cur ;; print_free_pages else skip) ;;
  init <- gets k_initproc ;;
  if bool_decide (init = Some cur) then panic "init exiting" else
  close_files cur ;;
  fs_call fs_begin_op ;;
  p <- getp cur ;;
  cwd <- of_option "iput of a null inode" (p_cwd p) ;;
  fs_call (fs_iput cwd) ;;
  fs_call fs_end_op ;;
  modp cur (λ p, p <| p_cwd := None |>) ;;
  removeSwapFile cur ;;
  acquire k_ptable_lock ;;
  p <- getp cur ;;
  wakeup1 (proc_chan (p_parent p)) ;;
  reparent cur ;;
  modp cur (λ p, p <| p_state := ZOMBIE |>) ;;
  sched.

(** One scan of the loop of [wait], which holds [ptable.lock]. *)
Inductive wait_result := WaitRet (pid : Z) | WaitSleep.

Definition wait_scan : M (kst F) wait_result :=
  cur <- myproc ;;
  ps <- gets k_procs ;;
  z <- find_proc (λ p, bool_decide (p_parent p = Some cur) && bool_decide (p_state p = ZOMBIE)) ;;
  match z with
  | Some i =>
      p <- getp i ;;
      let pid := p_pid p in
      Kalloc.kfree kend (p_kstack p) ;;
      modp i (λ p, p <| p_kstack := 0 |>) ;;
      Vm.freevm SELECTION kend (p_pgdir p) ;;
      modp i (λ p, p <| p_pid := 0 |> <| p_parent := None |> <| p_name ::= λ n, aset n 0 0 |>
                     <| p_killed := false |> <| p_state := UNUSED |>) ;;
      release k_ptable_lock ;;
      ret (WaitRet pid)
  | None =>
      let havekids := existsb (λ p, bool_decide (p_parent p = Some cur)) ps in
      p <- getp cur ;;
      if negb havekids || p_killed p then release k_ptable_lock ;; ret (WaitRet (-1))
      else sleep_enter (proc_chan (Some cur)) LkPtable ;; ret WaitSleep
  end.

(** [wait()] from its start, and when it is woken. *)
Definition wait_enter : M (kst F) wait_result := acquire k_ptable_lock ;; wait_scan.
Definition wait_resume : M (kst F) wait_result := sleep_resume LkPtable ;; wait_scan.
End proc.
End Proc.
