(* ===== verification/Frame.v ===== *)
(** What memory management leaves alone.

    The functions of kalloc.c, swap.c and vm.c work on memory, on the paging
    metadata of a process and on the file system.  [image] is the rest of a
    process, and [same_image] says that it, and the variables around the process
    table, are as before.  The theorems about scheduling and about exec rest on
    it. *)

From S2P Require Import Prelude Memory Machine Kalloc Swap Vm.
From stdpp Require Import options.
Import Swap.

Definition image (p : proc) :=
  (p_sz p, p_pgdir p, p_kstack p, (p_state p, p_pid p, p_parent p, p_chan p), p_tf p, p_context p, p_ofile p, p_cwd p,
   p_name p, p_swapFile p, p_ignorePaging p).

(** A process-level function that keeps the image of its process. *)
Definition same_proc (p p' : proc) : Prop := image p' = image p.
#[global] Instance same_proc_pre : PreOrder same_proc.
Proof. split; [done|]. unfold same_proc. intros x y z. congruence. Qed.

#[export] Hint Extern 3 (pres same_proc (modify _)) =>
  apply pres_modify; [apply _|intros; unfold same_proc; repeat case_match; reflexivity] : pres.

Lemma pres_page_at j : pres same_proc (page_at j).
Proof. unfold page_at. pres_auto. Qed.
#[export] Hint Resolve pres_page_at : pres.
Lemma pres_mod_page j f : pres same_proc (mod_page j f).
Proof. unfold mod_page. pres_auto. Qed.
#[export] Hint Resolve pres_mod_page : pres.

Ltac pres_def d := unfold d; pres_auto.

Section view.
Context (SEL : policy).
Lemma pres_get_offset : pres same_proc get_offset.
Proof. pres_def get_offset. Qed.
Lemma pres_free_offset o : pres same_proc (free_offset o).
Proof. pres_def free_offset. Qed.
Lemma pres_enqueue i : pres same_proc (enqueue i).
Proof. pres_def enqueue. Qed.
#[local] Hint Resolve pres_get_offset pres_free_offset pres_enqueue : pres.
Lemma pres_dequeue : pres same_proc dequeue.
Proof. unfold dequeue, dequeue_seek. pres_auto. Qed.
Lemma pres_scfifo_append i : pres same_proc (scfifo_append i).
Proof. pres_def scfifo_append. Qed.
Lemma pres_scfifo_remove i : pres same_proc (scfifo_remove i).
Proof. pres_def scfifo_remove. Qed.
Lemma pres_scfifo_unlink i : pres same_proc (scfifo_unlink i).
Proof. pres_def scfifo_unlink. Qed.
Lemma pres_queue_remove i : pres same_proc (queue_remove i).
Proof. pres_def queue_remove. Qed.
Lemma pres_advancePage i : pres same_proc (advancePage i).
Proof. unfold advancePage, advance_seek. pres_auto. Qed.
#[local] Hint Resolve pres_scfifo_append pres_scfifo_remove pres_queue_remove : pres.
Lemma pres_init_page_meta : pres same_proc (init_page_meta SEL).
Proof. unfold init_page_meta, initQueue. pres_auto. Qed.
Lemma pres_add_policy i : pres same_proc (add_policy SEL i).
Proof. pres_def add_policy. Qed.
Lemma pres_remove_policy i : pres same_proc (remove_policy SEL i).
Proof. pres_def remove_policy. Qed.
Lemma pres_swap_in_policy i : pres same_proc (swap_in_policy SEL i).
Proof. pres_def swap_in_policy. Qed.
#[local] Hint Resolve pres_add_policy pres_remove_policy : pres.
Lemma pres_add_page page va : pres same_proc (add_page SEL page va).
Proof. pres_def add_page. Qed.
Lemma pres_remove_page page : pres same_proc (remove_page SEL page).
Proof. pres_def remove_page. Qed.
Lemma pres_swap_out_meta i page o : pres same_proc (swap_out_meta i page o).
Proof. pres_def swap_out_meta. Qed.
End view.
#[export] Hint Resolve pres_get_offset pres_free_offset pres_dequeue pres_scfifo_unlink pres_advancePage
  pres_init_page_meta pres_swap_in_policy pres_add_page pres_remove_page pres_swap_out_meta : pres.

(** The table, with the variables around it. *)
Definition images {F} (s : kst F) :=
  (image <$> k_procs s, k_nextpid s, k_initproc s, k_cur s, k_ptable_lock s).
Definition same_image {F} (s s' : kst F) : Prop := images s' = images s.
#[global] Instance same_image_pre F : PreOrder (@same_image F).
Proof. split; [done|]. unfold same_image. intros x y z. congruence. Qed.

(** What depends on the images only. *)
Lemma image_view {X} (v : proc → X) (ps ps' : list proc) :
  (∀ p p', image p' = image p → v p' = v p) → image <$> ps' = image <$> ps → v <$> ps' = v <$> ps.
Proof.
  intros Hv. revert ps. induction ps' as [|p' ps' IH]; intros [|p ps] [=]; [done|]. simpl. f_equal; [by apply Hv; unfold image; congruence|by apply IH].
Qed.

#[export] Hint Extern 3 (pres same_image (modify _)) =>
  apply pres_modify; [apply _|intros; unfold same_image; repeat case_match; reflexivity] : pres.

Section images.
Context (SEL : policy) {F : Type} `{!FileSys F} (kend kdata : Z).
Abbreviation P := (pres (@same_image F)).

Lemma pres_ld32 a : P (ld32 a).
Proof. pres_def (@ld32). Qed.
Lemma pres_st32 a v : P (st32 a v).
Proof. pres_def (@st32). Qed.
Lemma pres_cprintf f l : P (cprintf f l).
Proof. pres_def (@cprintf). Qed.
Lemma pres_lcr3 v : P (lcr3 v).
Proof. pres_def (@lcr3). Qed.
Lemma pres_myproc : P myproc.
Proof. pres_def (@myproc). Qed.
Lemma pres_getp i : P (getp i).
Proof. pres_def (@getp). Qed.
Lemma pres_fs_call {A} (m : M F A) : P (fs_call m).
Proof. intros s. unfold wlp, fs_call. by destruct (m (k_fs s)). Qed.

Lemma image_insert (ps : list proc) (i : nat) p p' :
  ps !! i = Some p → image p' = image p → image <$> <[i := p']> ps = image <$> ps.
Proof. intros Hp Hv. rewrite list_fmap_insert, Hv. apply list_insert_id. by rewrite list_lookup_fmap, Hp. Qed.

Lemma pres_on_proc {A} i (m : M proc A) : pres same_proc m → P (on_proc i m).
Proof.
  intros Hm s. unfold wlp, on_proc. destruct (k_procs s !! i) as [p|] eqn:Hp; [|done].
  specialize (Hm p). unfold wlp in Hm. destruct (m p) as [a p'| | | | |]; try done.
  unfold same_image, images. simpl. by rewrite (image_insert _ _ p).
Qed.

Lemma pres_modp_image i f : (∀ p, image (f p) = image p) → P (modp i f).
Proof.
  intros Hf s. unfold wlp, modp, bind, getp, gets, of_option. simpl. unfold bind. simpl.
  destruct (k_procs s !! i) as [p|] eqn:Hp; simpl; [|done].
  unfold same_image, images. simpl. by rewrite (image_insert _ _ p).
Qed.
End images.
#[export] Hint Resolve pres_ld32 pres_st32 pres_cprintf pres_lcr3 pres_myproc pres_getp pres_fs_call pres_on_proc : pres.
#[export] Hint Extern 3 (pres same_image (modp _ _)) => apply pres_modp_image; intros; repeat case_match; reflexivity : pres.

Section images2.
Context (SEL : policy) {F : Type} `{!FileSys F} (kend kdata : Z).
Abbreviation P := (pres (@same_image F)).

Lemma pres_kalloc : P Kalloc.kalloc.
Proof. unfold Kalloc.kalloc, Kalloc.dec_free_pages, acquire, release. pres_auto. Qed.
Lemma pres_kfree v : P (Kalloc.kfree kend v).
Proof. unfold Kalloc.kfree, Kalloc.inc_free_pages, acquire, release. pres_auto. Qed.
#[local] Hint Resolve pres_kalloc pres_kfree : pres.

Lemma pres_writeToSwapFile pi a o n : P (writeToSwapFile pi a o n).
Proof. pres_def (@writeToSwapFile). Qed.
Lemma pres_readFromSwapFile pi a o n : P (readFromSwapFile pi a o n).
Proof. pres_def (@readFromSwapFile). Qed.
#[local] Hint Resolve pres_writeToSwapFile pres_readFromSwapFile : pres.
Lemma pres_get_page_to_swap : P (get_page_to_swap SEL).
Proof. unfold get_page_to_swap, scfifo_loop. pres_auto. Qed.
Lemma pres_copy_swap_file fuel d s : P (copy_swap_file kend fuel d s).
Proof. pres_def (@copy_swap_file). Qed.
Lemma pres_swap_to_file page : P (swap_to_file SEL page).
Proof. pres_def (@swap_to_file). Qed.
Lemma pres_swap_from_file page : P (swap_from_file SEL page).
Proof. pres_def (@swap_from_file). Qed.
Lemma pres_updatePagesCounter : P (updatePagesCounter SEL).
Proof. unfold updatePagesCounter, update_page. pres_auto. Qed.
#[local] Hint Resolve pres_get_page_to_swap pres_copy_swap_file pres_swap_to_file pres_swap_from_file : pres.

Lemma pres_walkpgdir d va al : P (Vm.walkpgdir d va al).
Proof. unfold Vm.walkpgdir, Vm.kmemset. pres_auto. Qed.
#[local] Hint Resolve pres_walkpgdir : pres.
Lemma pres_mappages d va n pa perm : P (Vm.mappages d va n pa perm).
Proof. unfold Vm.mappages, Vm.mappages_loop. pres_auto. Qed.
Lemma pres_forget_page d pte : P (Vm.forget_page SEL d pte).
Proof. unfold Vm.forget_page, Vm.my_pgdir. pres_auto. Qed.
#[local] Hint Resolve pres_mappages pres_forget_page : pres.
Lemma pres_deallocuvm d o n : P (Vm.deallocuvm SEL kend d o n).
Proof. unfold Vm.deallocuvm, Vm.dealloc_loop, Vm.dealloc_page. pres_auto. Qed.
#[local] Hint Resolve pres_deallocuvm : pres.
Lemma pres_freevm d : P (Vm.freevm SEL kend d).
Proof. pres_def (@Vm.freevm). Qed.
#[local] Hint Resolve pres_freevm : pres.
Lemma pres_setupkvm : P (Vm.setupkvm SEL kend kdata).
Proof.
  unfold Vm.setupkvm, Vm.kmemset. pres_auto. generalize (Vm.kmap kdata). intros ks.
  induction ks as [|k ks IH]; simpl; pres_auto.
Qed.
Lemma pres_switchuvm p : P (Vm.switchuvm p).
Proof. pres_def (@Vm.switchuvm). Qed.
Lemma pres_inituvm d i n : P (Vm.inituvm d i n).
Proof. unfold Vm.inituvm, Vm.kmemset, Vm.kmemmove. pres_auto. Qed.
Lemma pres_free_page : P (Vm.free_page SEL kend).
Proof. pres_def (@Vm.free_page). Qed.
#[local] Hint Resolve pres_setupkvm pres_switchuvm pres_free_page : pres.
Lemma pres_alloc_page d o n a : P (Vm.alloc_page SEL kend d o n a).
Proof. unfold Vm.alloc_page, Vm.kmemset. pres_auto. Qed.
#[local] Hint Resolve pres_alloc_page : pres.
Lemma pres_allocuvm d o n : P (Vm.allocuvm SEL kend d o n).
Proof. pres_def (@Vm.allocuvm). Qed.
Lemma pres_copy_page d e i : P (Vm.copy_page SEL d e i).
Proof. unfold Vm.copy_page, Vm.kmemmove. pres_auto. Qed.
#[local] Hint Resolve pres_copy_page : pres.
Lemma pres_copyuvm d n : P (Vm.copyuvm SEL kend kdata d n).
Proof. pres_def (@Vm.copyuvm). Qed.
Lemma pres_copy_page_arr d s : P (Vm.copy_page_arr SEL d s).
Proof. pres_def (@Vm.copy_page_arr). Qed.
End images2.
#[export] Hint Resolve pres_kalloc pres_kfree pres_copy_swap_file pres_swap_from_file pres_updatePagesCounter pres_walkpgdir pres_mappages pres_free_page pres_allocuvm
  pres_deallocuvm pres_freevm pres_setupkvm pres_switchuvm pres_inituvm pres_copyuvm pres_copy_page_arr : pres.
