(* ===== verification/Sched.v ===== *)
(** The process table under scheduling.

    [table] is the part of the process table the scheduler works with: state,
    pid, parent and channel of every process.  The functions of kalloc.c,
    swap.c and vm.c leave it alone (Frame).  The machine steps between
    context switches: the scheduler picks a process, which resumes where it
    stopped, runs system calls, and gives the processor back.  By induction on
    the steps: at most one process is running and it is the current one, the
    table lock is held exactly in the scheduler, live processes have distinct
    pids, and no process is orphaned. *)

From S2P Require Import Prelude Memory Machine Kalloc Swap Vm Proc Frame.
From stdpp Require Import options.
Import Swap Proc.

(** ** What paging and memory management leave alone *)

Definition tview (p : proc) := (p_state p, p_pid p, p_parent p, p_chan p).

(** The table, with the variables around it. *)
Definition table {F} (s : kst F) :=
  (tview <$> k_procs s, k_nextpid s, k_initproc s, k_cur s, k_ptable_lock s).
Definition same_table {F} (s s' : kst F) : Prop := table s' = table s.
#[global] Instance same_table_pre F : PreOrder (@same_table F).
Proof. split; [done|]. unfold same_table. intros x y z. congruence. Qed.

Lemma same_image_table {F A} (m : M (kst F) A) : pres same_image m → pres same_table m.
Proof.
  intros Hm s. eapply wlp_mono; [apply Hm|]. intros a s'. unfold same_image, images, same_table, table. intros [= H -> -> -> ->].
  by rewrite (image_view tview _ _ ltac:(unfold image, tview; congruence) H).
Qed.

#[export] Hint Extern 3 (pres same_table (modify _)) =>
  apply pres_modify; [apply _|intros; unfold same_table; repeat case_match; reflexivity] : pres.
#[export] Hint Extern 2 (pres same_table _) => apply same_image_table; solve [auto 2 with pres nocore] : pres.

Section table.
Context (SEL : policy) {F : Type} `{!FileSys F} (kend kdata : Z).
Abbreviation P := (pres (@same_table F)).

Lemma table_insert (ps : list proc) (i : nat) p p' :
  ps !! i = Some p → tview p' = tview p → tview <$> <[i := p']> ps = tview <$> ps.
Proof. intros Hp Hv. rewrite list_fmap_insert, Hv. apply list_insert_id. by rewrite list_lookup_fmap, Hp. Qed.

Lemma pres_modp i f : (∀ p, tview (f p) = tview p) → P (modp i f).
Proof.
  intros Hf s. unfold wlp, modp, bind, getp, gets, of_option. simpl. unfold bind. simpl.
  destruct (k_procs s !! i) as [p|] eqn:Hp; simpl; [|done].
  unfold same_table, table. simpl. by rewrite (table_insert _ _ p).
Qed.
End table.
#[export] Hint Extern 3 (pres same_table (modp _ _)) => apply pres_modp; intros; repeat case_match; reflexivity : pres.

Section table2.
Context (SEL : policy) {F : Type} `{!FileSys F} (kend kdata : Z).
Abbreviation P := (pres (@same_table F)).

Lemma pres_handle_pgflt : P (Vm.handle_pgflt SEL kend).
Proof. unfold Vm.handle_pgflt, Vm.segmentation_fault. pres_auto. Qed.
Lemma pres_growproc n : P (Proc.growproc SEL kend n).
Proof. pres_def (@Proc.growproc). Qed.
End table2.

(** ** The effect of proc.c on the table *)

Section effects.
Context (SEL : policy) (VERBOSE : bool) {F : Type} `{!FileSys F}.
Context (kend kdata forkret_addr trapret_addr initcode_start initcode_size ptable_proc sizeof_proc : Z).
Implicit Types s : kst F.
Abbreviation view := (procstate * Z * option nat * Z)%type.

(** [s] has the table [s0] had, except entry [i], [nextpid] and the lock. *)
Definition tset s0 (i : nat) (v : view) (n : Z) (b : bool) s : Prop :=
  table s = (<[i := v]> (tview <$> k_procs s0), n, k_initproc s0, k_cur s0, b).

Lemma tset_start s p i : k_procs s !! i = Some p → tset s i (tview p) (k_nextpid s) (k_ptable_lock s) s.
Proof. intros Hp. unfold tset, table. rewrite list_insert_id; [done|]. by rewrite list_lookup_fmap, Hp. Qed.

Lemma tset_lookup s0 i v n b s p : tset s0 i v n b s → k_procs s !! i = Some p → tview p = v.
Proof.
  unfold tset, table. intros [= Hps _ _ _ _] Hp.
  assert ((tview <$> k_procs s) !! i = Some (tview p)) as H by (by rewrite list_lookup_fmap, Hp).
  rewrite Hps in H. destruct (decide (i < length (tview <$> k_procs s0))%nat) as [Hi|Hi].
  - rewrite list_lookup_insert_eq in H by done. by injection H.
  - rewrite list_insert_ge in H by lia. apply lookup_lt_Some in H. lia.
Qed.

Lemma tset_pres {A} s0 i v n b s (m : M (kst F) A) :
  pres same_table m → tset s0 i v n b s → wlp m (λ _ s', tset s0 i v n b s') s.
Proof. intros Hm Hs. eapply wlp_mono; [apply Hm|]. intros a s' H. unfold tset. by rewrite H. Qed.

Lemma wlp_modp i f (Q : unit → kst F → Prop) s :
  (∀ p, k_procs s !! i = Some p → Q tt (s <| k_procs ::= <[i := f p]> |>)) → wlp (modp i f) Q s.
Proof.
  intros HQ. unfold wlp, modp, bind, getp, gets, of_option. simpl. unfold bind. simpl.
  destruct (k_procs s !! i) as [p|]; simpl; [|done]. by apply HQ.
Qed.

Lemma wlp_myproc (Q : nat → kst F → Prop) s : (∀ i, k_cur s = Some i → Q i s) → wlp myproc Q s.
Proof. intros HQ. unfold myproc. wlp_steps. by apply HQ. Qed.

Lemma wlp_getp i (Q : proc → kst F → Prop) s : (∀ p, k_procs s !! i = Some p → Q p s) → wlp (getp i) Q s.
Proof. intros HQ. unfold getp. wlp_steps. by apply HQ. Qed.

Lemma tset_modp s0 i v v' n b s f :
  tset s0 i v n b s → (∀ p, tview p = v → tview (f p) = v') → wlp (modp i f) (λ _ s', tset s0 i v' n b s') s.
Proof.
  intros Hs Hf. apply wlp_modp. intros p Hp. pose proof (tset_lookup _ _ _ _ _ _ _ Hs Hp) as Hv.
  unfold tset, table in *. simpl. rewrite list_fmap_insert, (Hf p Hv). injection Hs as -> -> -> -> ->.
  by rewrite list_insert_insert_eq.
Qed.

Lemma tset_acquire s0 i v n b s :
  tset s0 i v n b s → wlp (acquire k_ptable_lock) (λ _ s', b = false ∧ tset s0 i v n true s') s.
Proof.
  unfold tset, table. intros [= H1 H2 H3 H4 H5]. unfold acquire. wlp_steps.
  split; [congruence|]. by rewrite H1, H2, H3, H4.
Qed.

Lemma tset_release s0 i v n b s :
  tset s0 i v n b s → wlp (release k_ptable_lock) (λ _ s', tset s0 i v n false s') s.
Proof. unfold tset, table. intros [= H1 H2 H3 H4 H5]. unfold release. wlp_steps. by rewrite H1, H2, H3, H4. Qed.

(** One statement of a function that works on entry [i]. *)
Lemma wlp_seq {A B} (m : M (kst F) A) (k : A → M (kst F) B) (Q : B → kst F → Prop) (I : kst F → Prop) s :
  wlp m (λ _ s', I s') s → (∀ a s', I s' → wlp (k a) Q s') → wlp (bind m k) Q s.
Proof. intros Hm Hk. apply wlp_bind. eapply wlp_mono; [exact Hm|]. intros a s' H. by apply Hk. Qed.

Lemma find_proc_from_spec f (ps : list proc) i j :
  find_proc_from f ps i = Some j → ∃ p, (i ≤ j)%nat ∧ ps !! (j - i)%nat = Some p ∧ f p = true ∧
    ∀ k q, (k < j - i)%nat → ps !! k = Some q → f q = false.
Proof.
  revert i. induction ps as [|p ps IH]; intros i; simpl; [done|]. destruct (f p) eqn:Hf.
  - intros [= <-]. exists p. rewrite Nat.sub_diag. split_and!; [lia|done|done|intros; lia].
  - intros H. destruct (IH _ H) as (q & Hle & Hq & Hfq & Hfst). exists q. split_and!; [lia| |done|].
    + replace (j - i)%nat with (S (j - S i)) by lia. done.
    + intros [|k] q' Hk; simpl; [congruence|]. intros Hq'. apply (Hfst k); [lia|done].
Qed.

Lemma find_proc_from_none f (ps : list proc) i : find_proc_from f ps i = None → Forall (λ p, f p = false) ps.
Proof.
  revert i. induction ps as [|p ps IH]; intros i; simpl; [constructor|]. destruct (f p) eqn:Hf; [done|].
  intros H. constructor; [done|]. by apply (IH (S i)).
Qed.

Ltac tview_eq := let q := fresh in intros q; unfold tview; intros [=]; simpl; congruence.

(** [allocproc]: a slot that was unused becomes an embryo with a fresh pid. *)
Definition alloc_failed s s' : Prop :=
  same_table s s' ∨ ∃ i p, k_procs s !! i = Some p ∧ p_state p = UNUSED ∧
    tset s i (UNUSED, k_nextpid s, p_parent p, p_chan p) (s32 (k_nextpid s + 1)) false s'.

Lemma allocproc_effect s :
  wlp (allocproc SEL forkret_addr trapret_addr) (λ r s', k_ptable_lock s = false ∧
     match r with
     | None => alloc_failed s s'
     | Some i => ∃ p, k_procs s !! i = Some p ∧ p_state p = UNUSED ∧
         tset s i (EMBRYO, k_nextpid s, p_parent p, p_chan p) (s32 (k_nextpid s + 1)) false s'
     end) s.
Proof.
  unfold allocproc. apply wlp_bind. unfold acquire. wlp_steps. set (s1 := s <| k_ptable_lock := true |>).
  unfold find_proc. wlp_steps.
  - destruct (find_proc_from_spec _ _ _ _ Heqo) as (p & _ & Hp & Hst & _). rewrite Nat.sub_0_r in Hp.
    apply bool_decide_eq_true in Hst. change (k_procs s1) with (k_procs s) in Hp.
    pose proof (tset_start s p n Hp) as H0. rewrite Heqb in H0.
    assert (tset s n (tview p) (k_nextpid s) true s1) as H1 by (unfold tset, table in *; simpl in *; congruence).
    eapply wlp_mono; [apply (tset_modp _ _ _ (EMBRYO, k_nextpid s, p_parent p, p_chan p) _ _ _ _ H1)|].
    { tview_eq. }
    intros [] s2 H2. wlp_steps.
    assert (tset s n (EMBRYO, k_nextpid s, p_parent p, p_chan p) (s32 (k_nextpid s + 1)) true (s2 <| k_nextpid := s32 (k_nextpid s + 1) |>)) as H3.
    { unfold tset, table in *. simpl in *. injection H2 as -> _ -> -> ->. done. }
    eapply wlp_mono; [apply (tset_release _ _ _ _ _ _ H3)|]. intros [] s3 H4. cbv beta in H4.
    apply (wlp_seq _ _ _ _ _ (tset_pres _ _ _ _ _ _ _ (same_image_table _ pres_kalloc) H4)). intros kst_ s4 H5.
    eapply wlp_seq; [eapply (tset_modp _ _ _ _ _ _ _ _ H5); intros q Hq; exact Hq|]. intros _ s5 H6. cbv beta in H6.
    case_match.
    + eapply wlp_seq; [eapply (tset_modp _ _ _ (UNUSED, k_nextpid s, p_parent p, p_chan p) _ _ _ _ H6)|].
      { tview_eq. }
      intros _ s6 H7. apply wlp_ret. split; [done|]. right. eauto 10.
    + eapply wlp_seq; [apply (tset_pres _ _ _ _ _ _ _ (same_image_table _ (pres_st32 _ _)) H6)|]. intros _ s6 H7.
      eapply wlp_seq; [eapply (tset_modp _ _ _ _ _ _ _ _ H7); intros q Hq; exact Hq|]. intros _ s7 H8. cbv beta in H8.
      eapply wlp_seq; [apply (tset_pres _ _ _ _ _ _ _ (same_image_table _ (pres_on_proc _ _ (pres_init_page_meta _))) H8)|]. intros _ s8 H9.
      eapply wlp_seq; [eapply (tset_modp _ _ _ _ _ _ _ _ H9); intros q Hq; exact Hq|]. intros _ s9 H10. cbv beta in H10.
      apply wlp_ret. split; [done|]. eauto.
  - unfold release. wlp_steps. split; [done|]. left. unfold same_table, table. simpl. congruence.
Qed.

(** A statement that leaves the table alone; [H] says what the table is. *)
Ltac tkeep H :=
  eapply wlp_seq; [eapply tset_pres; [|exact H]; solve [pres_auto]|];
  let s' := fresh "s" in clear H; intros ? s' H; cbv beta in H.

Lemma pres_dup_files cur np : pres (@same_table F) (dup_files cur np).
Proof. pres_def (@dup_files). Qed.
#[local] Hint Resolve pres_dup_files : pres.

Lemma fork_effect s :
  wlp (fork SEL kend kdata forkret_addr trapret_addr) (λ r s', k_ptable_lock s = false ∧
     ((r = -1 ∧ alloc_failed s s') ∨
      ∃ i p cur, k_procs s !! i = Some p ∧ p_state p = UNUSED ∧ k_cur s = Some cur ∧ r = k_nextpid s ∧
        tset s i (RUNNABLE, k_nextpid s, Some cur, p_chan p) (s32 (k_nextpid s + 1)) false s')) s.
Proof.
  unfold fork. apply wlp_bind, wlp_myproc. intros cur Hcur.
  apply wlp_bind. eapply wlp_mono; [apply allocproc_effect|]. intros [i|] s1 (Hlk & Hr); cbv beta iota in *; [|apply wlp_ret; by eauto].
  destruct Hr as (p & Hp & Hst & H). tkeep H. tkeep H. tkeep H. apply wlp_bind, wlp_getp. intros q Hq. case_match.
  - tkeep H. eapply wlp_seq; [eapply (tset_modp _ _ _ (UNUSED, k_nextpid s, p_parent p, p_chan p) _ _ _ _ H); tview_eq|].
    clear H. intros _ sd H. apply wlp_ret. split; [done|]. left. split; [done|]. right. eauto 10.
  - tkeep H. eapply wlp_seq; [eapply (tset_modp _ _ _ (EMBRYO, k_nextpid s, Some cur, p_chan p) _ _ _ _ H); tview_eq|].
    clear H. intros _ sd H. tkeep H. tkeep H. tkeep H. tkeep H. tkeep H. apply wlp_bind, wlp_getp. intros q' Hq'.
    assert (p_pid q' = k_nextpid s) as -> by (pose proof (tset_lookup _ _ _ _ _ _ _ H Hq') as E; by injection E).
    tkeep H. tkeep H.
    eapply wlp_seq; [eapply (tset_acquire _ _ _ _ _ _ H)|]. clear H. intros _ sa [_ H].
    eapply wlp_seq; [eapply (tset_modp _ _ _ (RUNNABLE, k_nextpid s, Some cur, p_chan p) _ _ _ _ H); tview_eq|].
    clear H. intros _ sb H. eapply wlp_seq; [eapply (tset_release _ _ _ _ _ _ H)|]. clear H. intros _ sc H.
    apply wlp_ret. split; [done|]. right. eauto 10.
Qed.
End effects.

(** ** The invariant of the table *)

Abbreviation view := (procstate * Z * option nat * Z)%type.
Definition vst (v : view) : procstate := v.1.1.1.
Definition vpid (v : view) : Z := v.1.1.2.
Definition vpar (v : view) : option nat := v.1.2.
Definition vchan (v : view) : Z := v.2.
Definition live (v : view) : Prop := vst v ≠ UNUSED.

(** Where the processor is: in the scheduler's loop over the table, between
    two such loops, or in a process. *)
Inductive mode := MSched (i : nat) | MIdle | MRun.
Definition is_sched (md : mode) : bool := match md with MSched _ => true | _ => false end.

Abbreviation tab := (list view * Z * option nat * option nat * bool)%type.
Definition t_views (T : tab) : list view := T.1.1.1.1.
Definition t_next (T : tab) : Z := T.1.1.1.2.
Definition t_init (T : tab) : option nat := T.1.1.2.
Definition t_cur (T : tab) : option nat := T.1.2.
Definition t_lock (T : tab) : bool := T.2.

(** The running process is the current one. *)
Definition run_ok (md : mode) (vs : list view) (cur : option nat) : Prop :=
  (∀ i v, vs !! i = Some v → vst v = RUNNING → md = MRun ∧ cur = Some i) ∧
  (md = MRun → ∃ i v, cur = Some i ∧ vs !! i = Some v ∧ vst v = RUNNING).

Record tinv (md : mode) (T : tab) : Prop := {
  ti_len : length (t_views T) = Z.to_nat NPROC;
  ti_lock : t_lock T = is_sched md;
  ti_run : run_ok md (t_views T) (t_cur T);
  ti_pid i v : t_views T !! i = Some v → live v → 0 < vpid v < t_next T;
  ti_uniq i j v w : t_views T !! i = Some v → t_views T !! j = Some w → live v → live w → vpid v = vpid w → i = j;
  ti_par i v j : t_views T !! i = Some v → vpar v = Some j →
    live v ∧ ∃ w, t_views T !! j = Some w ∧ live w ∧ vst w ≠ ZOMBIE;
  ti_init : ∃ i v, t_init T = Some i ∧ t_views T !! i = Some v ∧ live v ∧ vst v ≠ ZOMBIE;
}.

(** A change of state that neither creates, frees nor kills a process. *)
Definition mild (init : option nat) (v v' : view) : Prop :=
  vpid v' = vpid v ∧ (live v' ↔ live v) ∧ (vpar v' = vpar v ∨ (is_Some (vpar v) ∧ vpar v' = init)) ∧
  (vst v' = ZOMBIE → vst v = ZOMBIE).

Lemma mild_lookup init vs vs' i v' :
  Forall2 (mild init) vs vs' → vs' !! i = Some v' → ∃ v, vs !! i = Some v ∧ mild init v v'.
Proof. intros H Hi. by eapply Forall2_lookup_r. Qed.

Lemma mild_lookup_l init vs vs' i v :
  Forall2 (mild init) vs vs' → vs !! i = Some v → ∃ v', vs' !! i = Some v' ∧ mild init v v'.
Proof. intros H Hi. by eapply Forall2_lookup_l. Qed.

Lemma mild_alive init v v' : mild init v v' → live v → vst v ≠ ZOMBIE → live v' ∧ vst v' ≠ ZOMBIE.
Proof. intros (_ & H1 & _ & H2) Hl Hz. split; [by apply H1|auto]. Qed.

Ltac tproj := unfold t_views, t_next, t_init, t_cur, t_lock in *; simpl in *.

Lemma tinv_mild md md' vs vs' n init cur cur' lk lk' :
  tinv md (vs, n, init, cur, lk) → Forall2 (mild init) vs vs' → run_ok md' vs' cur' → lk' = is_sched md' →
  tinv md' (vs', n, init, cur', lk').
Proof.
  intros [Hlen _ _ Hpid Huniq Hpar Hinit] HW Hrun Hlk. tproj.
  assert (∀ j w, vs !! j = Some w → live w → vst w ≠ ZOMBIE → ∃ w', vs' !! j = Some w' ∧ live w' ∧ vst w' ≠ ZOMBIE) as Hal.
  { intros j w Hw Hl Hz. destruct (mild_lookup_l _ _ _ _ _ HW Hw) as (w' & Hw' & Hm). exists w'. split; [done|].
    by eapply mild_alive. }
  split; [by erewrite <-Forall2_length|done|done| | | |]; tproj.
  - intros i v' Hv Hl. destruct (mild_lookup _ _ _ _ _ HW Hv) as (v & Hi & Hp & Hlv & _). simpl. rewrite Hp.
    apply (Hpid i); [done|by apply Hlv].
  - intros i j v' w' Hv Hw Hlv Hlw He. destruct (mild_lookup _ _ _ _ _ HW Hv) as (v & Hi & Hp & Hl1 & _).
    destruct (mild_lookup _ _ _ _ _ HW Hw) as (w & Hj & Hp' & Hl2 & _).
    apply (Huniq i j v w); [done|done|by apply Hl1|by apply Hl2|congruence].
  - intros i v' j Hv Hp. destruct (mild_lookup _ _ _ _ _ HW Hv) as (v & Hi & _ & Hl & Hpv & _).
    destruct Hpv as [He|[[k Hk] He]].
    + rewrite He in Hp. destruct (Hpar i v j Hi Hp) as (Hlv & w & Hw & Hlw & Hz). split; [by apply Hl|]. by eapply Hal.
    + destruct (Hpar i v k Hi Hk) as (Hlv & _). split; [by apply Hl|].
      destruct Hinit as (i0 & v0 & Hi0 & Hv0 & Hl0 & Hz0). assert (j = i0) as -> by congruence. by eapply Hal.
  - destruct Hinit as (i0 & v0 & Hi0 & Hv0 & Hl0 & Hz0). destruct (Hal i0 v0 Hv0 Hl0 Hz0) as (w' & ? & ? & ?).
    exists i0, w'. done.
Qed.

(** One entry changes. *)
Lemma mild_refl init v : mild init v v.
Proof. split_and!; [done|done|by left|done]. Qed.

Lemma mild_insert init vs i v v' : vs !! i = Some v → mild init v v' → Forall2 (mild init) vs (<[i := v']> vs).
Proof.
  intros Hv Hm. apply Forall2_same_length_lookup. rewrite length_insert. split; [done|].
  intros j x y Hx Hy. destruct (decide (i = j)) as [->|Hne].
  - rewrite list_lookup_insert_eq in Hy by (by eapply lookup_lt_Some). simplify_eq. done.
  - rewrite list_lookup_insert_ne in Hy by done. simplify_eq. apply mild_refl.
Qed.

Lemma insert_lookup (vs : list view) i v' j w :
  (i < length vs)%nat → <[i := v']> vs !! j = Some w → (j = i ∧ w = v') ∨ (j ≠ i ∧ vs !! j = Some w).
Proof.
  intros Hi. destruct (decide (i = j)) as [->|Hne].
  - rewrite list_lookup_insert_eq by done. intros [= <-]. by left.
  - rewrite list_lookup_insert_ne by done. right. by split.
Qed.

(** Entries that are alive and not zombies stay so when another one changes. *)
Lemma insert_alive (vs : list view) i v v' j w :
  vs !! i = Some v → vs !! j = Some w → live w → vst w ≠ ZOMBIE →
  (¬ live v ∨ vst v = ZOMBIE ∨ (live v' ∧ vst v' ≠ ZOMBIE)) →
  ∃ w', <[i := v']> vs !! j = Some w' ∧ live w' ∧ vst w' ≠ ZOMBIE.
Proof.
  intros Hv Hw Hl Hz Hor. destruct (decide (i = j)) as [->|Hne].
  - assert (v = w) as -> by congruence. exists v'. rewrite list_lookup_insert_eq by (by eapply lookup_lt_Some).
    split; [done|]. destruct Hor as [?|[?|?]]; [done|done|done].
  - exists w. by rewrite list_lookup_insert_ne.
Qed.

(** An unused slot is filled, or keeps a stale pid. *)
Lemma tinv_new md vs n init cur lk i v v' c w :
  tinv md (vs, n, init, cur, lk) → vs !! i = Some v → vst v = UNUSED →
  vs !! c = Some w → vst w = RUNNING → cur = Some c →
  (vst v' = UNUSED ∧ vpar v' = vpar v) ∨ (vst v' = RUNNABLE ∧ vpid v' = n ∧ vpar v' = Some c) →
  tinv md (<[i := v']> vs, n + 1, init, cur, lk).
Proof.
  intros [Hlen Hlk Hrun Hpid Huniq Hpar Hinit] Hv Hun Hw Hwr Hc Hv'. tproj.
  assert (i < length vs)%nat as Hi by (by eapply lookup_lt_Some).
  assert (0 < n) as Hn by (pose proof (Hpid c w Hw ltac:(unfold live; congruence)); lia).
  assert (i ≠ c) as Hic by congruence. assert (¬ live v) as Hnl by (unfold live; auto).
  assert (vst v' ≠ RUNNING ∧ vst v' ≠ ZOMBIE) as [Hnr Hnz] by (destruct Hv' as [[-> _]|[-> _]]; done).
  split; tproj; [by rewrite length_insert|done| | | | |].
  - split.
    + intros j x [[-> ->]|[Hne Hx]]%insert_lookup Hr; [done| |done]. exact (proj1 Hrun j x Hx Hr).
    + intros Hm. destruct (proj2 Hrun Hm) as (j & x & Hj & Hx & Hr). exists j, x.
      rewrite list_lookup_insert_ne by congruence. done.
  - intros j x [[-> ->]|[Hne Hx]]%insert_lookup Hl; [| |done].
    + destruct Hv' as [[? _]|(_ & -> & _)]; [done|lia].
    + pose proof (Hpid j x Hx Hl). lia.
  - intros j k x y [[-> ->]|[Hj Hx]]%insert_lookup [[-> ->]|[Hk Hy]]%insert_lookup Hlx Hly He; try done.
    + destruct Hv' as [[? _]|(_ & Hp & _)]; [done|]. pose proof (Hpid k y Hy Hly). lia.
    + destruct Hv' as [[? _]|(_ & Hp & _)]; [done|]. pose proof (Hpid j x Hx Hlx). lia.
    + by eapply Huniq.
  - intros j x k [[-> ->]|[Hj Hx]]%insert_lookup Hp; [| |done].
    + destruct Hv' as [[_ He]|(Hst & _ & He)].
      * rewrite He in Hp. by destruct (Hpar i v k Hv Hp) as [? _].
      * rewrite He in Hp. injection Hp as <-. split; [by unfold live; rewrite Hst|].
        exists w. rewrite list_lookup_insert_ne by done. unfold live. rewrite Hwr. done.
    + destruct (Hpar j x k Hx Hp) as (Hl & y & Hy & Hly & Hzy). split; [done|].
      apply (insert_alive vs i v v' k y); [done..|by left].
  - destruct Hinit as (i0 & v0 & ? & Hv0 & Hl0 & Hz0).
    destruct (insert_alive vs i v v' i0 v0) as (w' & ? & ? & ?); [done..|by left|]. by exists i0, w'.
Qed.

(** A zombie is reaped. *)
Lemma tinv_free md vs n init cur lk i v ch :
  tinv md (vs, n, init, cur, lk) → vs !! i = Some v → vst v = ZOMBIE →
  tinv md (<[i := (UNUSED, 0, None, ch)]> vs, n, init, cur, lk).
Proof.
  intros [Hlen Hlk Hrun Hpid Huniq Hpar Hinit] Hv Hz. tproj.
  assert (i < length vs)%nat as Hi by (by eapply lookup_lt_Some).
  assert (∀ j x, <[i := (UNUSED, 0, None, ch) : view]> vs !! j = Some x → live x → j ≠ i ∧ vs !! j = Some x) as Hlive.
  { intros j x [[-> ->]|?]%insert_lookup Hl; [|done|done]. by destruct Hl. }
  split; tproj; [by rewrite length_insert|done| | | | |].
  - split.
    + intros j x Hx Hr. destruct (Hlive j x Hx) as [_ Hx']; [unfold live; by rewrite Hr|]. exact (proj1 Hrun j x Hx' Hr).
    + intros Hm. destruct (proj2 Hrun Hm) as (j & x & Hj & Hx & Hr). exists j, x.
      rewrite list_lookup_insert_ne by congruence. done.
  - intros j x Hx Hl. destruct (Hlive j x Hx Hl). eauto.
  - intros j k x y Hx Hy Hlx Hly. destruct (Hlive j x Hx Hlx), (Hlive k y Hy Hly). by eapply Huniq.
  - intros j x k [[-> ->]|[Hj Hx]]%insert_lookup Hp; [done| |done].
    destruct (Hpar j x k Hx Hp) as (Hl & y & Hy & Hly & Hzy). split; [done|].
    apply (insert_alive vs i v _ k y); [done..|by right; left].
  - destruct Hinit as (i0 & v0 & ? & Hv0 & Hl0 & Hz0).
    destruct (insert_alive vs i v (UNUSED, 0, None, ch) i0 v0) as (w' & ? & ? & ?); [done..|by right; left|]. by exists i0, w'.
Qed.

(** The running process, childless and not init, exits. *)
Lemma tinv_zombie vs n init i v md' lk' cur' :
  tinv MRun (vs, n, init, Some i, false) → vs !! i = Some v → init ≠ Some i →
  (∀ j w, vs !! j = Some w → vpar w ≠ Some i) → is_sched md' = true → lk' = true →
  tinv md' (<[i := (ZOMBIE, vpid v, vpar v, vchan v)]> vs, n, init, cur', lk').
Proof.
  intros [Hlen Hlk Hrun Hpid Huniq Hpar Hinit] Hv Hni Hch Hmd ->. tproj.
  assert (i < length vs)%nat as Hi by (by eapply lookup_lt_Some).
  destruct (proj2 Hrun eq_refl) as (c & x & [= <-] & Hx & Hr). assert (x = v) as -> by congruence.
  set (z := (ZOMBIE, vpid v, vpar v, vchan v) : view).
  assert (∀ j y, <[i := z]> vs !! j = Some y → live y → ∃ y0, vs !! j = Some y0 ∧ live y0 ∧ vpid y0 = vpid y) as Hlive.
  { intros j y [[-> ->]|[_ Hy]]%insert_lookup Hl; [|eauto|done]. exists v. split_and!; [done| |done]. unfold live. by rewrite Hr. }
  split; tproj; [by rewrite length_insert|done| | | | |].
  - split.
    + intros j y [[-> ->]|[Hne Hy]]%insert_lookup Hrun'; [done| |done].
      destruct (proj1 Hrun j y Hy Hrun') as [_ He]. congruence.
    + by intros ->.
  - intros j y Hy Hl. destruct (Hlive j y Hy Hl) as (y0 & Hy0 & Hl0 & <-). eauto.
  - intros j k y w Hy Hw Hly Hlw He. destruct (Hlive j y Hy Hly) as (y0 & ? & ? & ?), (Hlive k w Hw Hlw) as (w0 & ? & ? & ?).
    apply (Huniq j k y0 w0); congruence.
  - intros j y k Hy Hp. assert (∃ y0, vs !! j = Some y0 ∧ vpar y0 = Some k ∧ (live y0 → live y)) as (y0 & Hy0 & Hp0 & Hl0).
    { apply insert_lookup in Hy as [[-> ->]|[_ Hy]]; [|eauto|done]. exists v. split_and!; [done|done|done]. }
    destruct (Hpar j y0 k Hy0 Hp0) as (Hl & w & Hw & Hlw & Hzw). split; [auto|].
    exists w. rewrite list_lookup_insert_ne; [done|]. intros <-. by apply (Hch j y0 Hy0).
  - destruct Hinit as (i0 & v0 & ? & Hv0 & Hl0 & Hz0). exists i0, v0. rewrite list_lookup_insert_ne by congruence. done.
Qed.

(** ** The effect of the other handlers *)

Definition wake (chan : Z) (v : view) : view :=
  if bool_decide (vst v = SLEEPING) && (vchan v =? chan) then (RUNNABLE, vpid v, vpar v, vchan v) else v.

(** Woken, and possibly handed to init. *)
Definition woken (init : option nat) (v v' : view) : Prop :=
  vpid v' = vpid v ∧ (vst v' = vst v ∨ (vst v = SLEEPING ∧ vst v' = RUNNABLE)) ∧
  (vpar v' = vpar v ∨ (is_Some (vpar v) ∧ vpar v' = init)).

Lemma woken_mild init v v' : woken init v v' → mild init v v'.
Proof.
  intros (Hp & Hs & Hpar). split_and!; [done| |done|].
  - unfold live. destruct Hs as [->|[-> ->]]; done.
  - destruct Hs as [->|[_ ->]]; done.
Qed.

#[global] Instance woken_pre init : PreOrder (woken init).
Proof.
  split; [intros v; split_and!; [done|by left|by left]|].
  intros x y z (P1 & S1 & R1) (P2 & S2 & R2). split_and!; [congruence| |].
  - destruct S1 as [E1|[E1 E1']], S2 as [E2|[E2 E2']]; [left; congruence|right; split; congruence|right; split; congruence|congruence].
  - destruct R1 as [E1|[E1 E1']], R2 as [E2|[E2 E2']]; [left; congruence| |right; split; [done|congruence]|by right].
    right. split; [by rewrite <-E1|done].
Qed.

Lemma wake_woken init chan v : woken init v (wake chan v).
Proof.
  unfold wake. case_match eqn:E; [|reflexivity]. apply andb_prop in E as [E _]. apply bool_decide_eq_true in E.
  split_and!; [done|by right|by left].
Qed.

Lemma wake_par chan v : vpar (wake chan v) = vpar v.
Proof. unfold wake. by case_match. Qed.

Lemma table_keep {F A} (s : kst F) (m : M (kst F) A) : pres same_table m → wlp m (λ _ s', table s' = table s) s.
Proof. intros Hm. eapply wlp_mono; [apply Hm|]. done. Qed.

(** A statement that leaves the table [H] alone. *)
Ltac tpass H :=
  eapply wlp_seq; [eapply table_keep; solve [pres_auto]|];
  let s' := fresh "s" in let E := fresh in intros ? s' E; cbv beta in E; rewrite H in E; clear H; rename E into H.

Section handlers.
Context (SEL : policy) (VERBOSE : bool) {F : Type} `{!FileSys F}.
Context (kend kdata forkret_addr trapret_addr initcode_start initcode_size ptable_proc sizeof_proc : Z).
Implicit Types s : kst F.

Lemma wakeup1_effect chan s vs n init c lk :
  table s = (vs, n, init, c, lk) →
  wlp (wakeup1 chan) (λ _ s', table s' = (wake chan <$> vs, n, init, c, lk)) s.
Proof.
  unfold table. intros [= <- <- <- <- <-]. unfold wakeup1. apply wlp_modify. simpl. do 4 f_equal.
  rewrite <-!list_fmap_compose. apply list_fmap_ext. intros i p _. unfold compose, wake, vst, vchan, tview. simpl. by case_match.
Qed.

Lemma woken_fmap init chan (vs : list view) : Forall2 (woken init) vs (wake chan <$> vs).
Proof. apply Forall2_fmap_r, Forall_Forall2_diag, Forall_true. intros v. apply wake_woken. Qed.

(** [exit]: the children of [cur] go to init. *)
Definition reparented (cur : nat) (vs : list view) n init c lk (k : Z) s : Prop :=
  ∃ vs', table s = (vs', n, init, c, lk) ∧ Forall2 (woken init) vs vs' ∧
    ∀ j w, Z.of_nat j < k → vs' !! j = Some w → vpar w = Some cur → init = Some cur.

Lemma reparent_effect cur s vs n init c lk :
  table s = (vs, n, init, c, lk) →
  wlp (reparent ptable_proc sizeof_proc cur) (λ _ s', reparented cur vs n init c lk NPROC s') s.
Proof.
  intros HT. unfold reparent. apply wlp_bind, wlp_gets.
  assert (k_initproc s = init) as -> by (unfold table in HT; by simplify_eq).
  eapply (wlp_for_all (reparented cur vs n init c lk)).
  { exists vs. split_and!; [done|by apply Forall_Forall2_diag, Forall_true|intros; lia]. }
  intros j s1 Hj (vs1 & HT1 & HW & Hpar). apply wlp_bind, wlp_getp. intros p Hp.
  assert (vs1 = tview <$> k_procs s1) as Hvs1 by (unfold table in HT1; by simplify_eq).
  assert (vs1 !! Z.to_nat j = Some (tview p)) as Hv by (rewrite Hvs1, list_lookup_fmap, Hp; done).
  case_bool_decide as Hcur.
  - apply wlp_bind. apply wlp_modp. intros p' Hp'. assert (p' = p) as -> by congruence.
    set (s2 := s1 <| k_procs ::= _ |>). set (v2 := (p_state p, p_pid p, init, p_chan p) : view).
    assert (table s2 = (<[Z.to_nat j := v2]> vs1, n, init, c, lk)) as HT2.
    { unfold table in *. simpl. rewrite list_fmap_insert. by simplify_eq. }
    assert (Forall2 (woken init) vs (<[Z.to_nat j := v2]> vs1)) as HW2.
    { apply Forall2_same_length_lookup. rewrite length_insert. split; [by eapply Forall2_length|].
      intros k x y Hx Hy. destruct (decide (Z.to_nat j = k)) as [<-|Hne].
      - rewrite list_lookup_insert_eq in Hy by (by eapply lookup_lt_Some). injection Hy as <-.
        etransitivity; [by eapply Forall2_lookup_lr|]. split_and!; [done|by left|right]. unfold tview, vpar. simpl. rewrite Hcur. eauto.
      - rewrite list_lookup_insert_ne in Hy by done. by eapply Forall2_lookup_lr. }
    assert (∀ k w, Z.of_nat k < j + 1 → <[Z.to_nat j := v2]> vs1 !! k = Some w → vpar w = Some cur → init = Some cur) as Hpar2.
    { intros k w Hk [[-> ->]|[Hne Hw]]%insert_lookup; [done| |by eapply lookup_lt_Some]. apply (Hpar k); [lia|done]. }
    case_bool_decide.
    + eapply wlp_mono; [by apply wakeup1_effect|]. intros [] s3 HT3.
      eexists. split_and!; [exact HT3| |].
      * transitivity (<[Z.to_nat j := v2]> vs1); [exact HW2|apply woken_fmap].
      * intros k w Hk Hw. rewrite list_lookup_fmap in Hw. apply fmap_Some in Hw as (w0 & Hw0 & ->). rewrite wake_par. by apply (Hpar2 k).
    + apply wlp_ret. by exists (<[Z.to_nat j := v2]> vs1).
  - apply wlp_ret. exists vs1. split_and!; [done|done|]. intros k w Hk Hw Hpw.
    destruct (decide (k = Z.to_nat j)) as [->|]; [|apply (Hpar k w); [lia|done|done]]. simplify_eq.
Qed.

Lemma table_lookup s vs n init c lk i p :
  table s = (vs, n, init, c, lk) → k_procs s !! i = Some p → vs !! i = Some (tview p).
Proof. unfold table. intros [= <- _ _ _ _] Hp. by rewrite list_lookup_fmap, Hp. Qed.

Lemma pres_close_files cur : pres (@same_table F) (close_files cur).
Proof. pres_def (@close_files). Qed.
Lemma pres_print_pcs l : pres (@same_table F) (print_pcs l).
Proof. induction l as [|pc l IH]; simpl; pres_auto. Qed.
#[local] Hint Resolve pres_print_pcs : pres.
Lemma pres_print_proc_data i : pres (@same_table F) (print_proc_data i).
Proof. unfold print_proc_data, getcallerpcs. pres_auto. Qed.
Lemma pres_print_free_pages : pres (@same_table F) print_free_pages.
Proof. unfold print_free_pages, Kalloc.get_total_pages_num, Kalloc.get_free_pages_num. pres_auto. Qed.
Lemma pres_removeSwapFile i : pres (@same_table F) (removeSwapFile i).
Proof. pres_def (@removeSwapFile). Qed.
#[local] Hint Resolve pres_close_files pres_print_proc_data pres_print_free_pages pres_removeSwapFile : pres.

Lemma acquire_effect s vs n init c lk :
  table s = (vs, n, init, c, lk) →
  wlp (acquire k_ptable_lock) (λ _ s', lk = false ∧ table s' = (vs, n, init, c, true)) s.
Proof. unfold table. intros [= <- <- <- <- <-]. unfold acquire. wlp_steps. done. Qed.

Lemma release_effect s vs n init c lk :
  table s = (vs, n, init, c, lk) → wlp (release k_ptable_lock) (λ _ s', table s' = (vs, n, init, c, false)) s.
Proof. unfold table. intros [= <- <- <- <- <-]. unfold release. wlp_steps. done. Qed.

Lemma sched_effect s vs n init c lk :
  table s = (vs, n, init, c, lk) → wlp sched (λ _ s', lk = true ∧ table s' = (vs, n, init, c, lk)) s.
Proof.
  intros HT. unfold sched. apply wlp_bind, wlp_myproc. intros i Hi. apply wlp_bind, wlp_getp. intros p Hp.
  wlp_steps. split; [|done]. unfold table in HT. apply negb_false_iff in Heqb. congruence.
Qed.

Lemma modp_effect i f s vs n init c lk (g : view → view) :
  table s = (vs, n, init, c, lk) → (∀ p, tview (f p) = g (tview p)) →
  wlp (modp i f) (λ _ s', ∃ v, vs !! i = Some v ∧ table s' = (<[i := g v]> vs, n, init, c, lk)) s.
Proof.
  intros HT Hf. apply wlp_modp. intros p Hp. exists (tview p). unfold table in *. simpl in *. injection HT as <- <- <- <- <-.
  rewrite list_lookup_fmap, Hp. split; [done|]. by rewrite list_fmap_insert, Hf.
Qed.

(** [exit()] hands the children over and leaves a zombie. *)
Lemma exit_effect s vs n init c lk :
  table s = (vs, n, init, c, lk) →
  wlp (exit_enter VERBOSE ptable_proc sizeof_proc) (λ _ s', ∃ i v vs', c = Some i ∧ lk = false ∧ init ≠ Some i ∧
     (∃ w, vs !! i = Some w ∧
        Forall2 (woken init) (wake (proc_chan ptable_proc sizeof_proc (vpar w)) <$> vs) vs') ∧
     (∀ j w, Z.of_nat j < NPROC → vs' !! j = Some w → vpar w ≠ Some i) ∧
     vs' !! i = Some v ∧ table s' = (<[i := (ZOMBIE, vpid v, vpar v, vchan v)]> vs', n, init, c, true)) s.
Proof.
  intros HT. unfold exit_enter. apply wlp_bind, wlp_myproc. intros cur Hcur.
  assert (c = Some cur) as -> by (unfold table in HT; congruence).
  tpass HT. apply wlp_bind, wlp_gets. case_bool_decide as Hinit; [done|].
  assert (init ≠ Some cur) as Hni by (unfold table in HT; congruence).
  do 8 tpass HT. eapply wlp_seq; [apply (acquire_effect _ _ _ _ _ _ HT)|]. clear HT. intros _ r1 [-> HT].
  apply wlp_bind, wlp_getp. intros p Hp. assert (vs !! cur = Some (tview p)) as Hw by by eapply table_lookup.
  eapply wlp_seq; [by apply wakeup1_effect|]. clear HT. intros _ r2 HT.
  eapply wlp_seq; [apply (reparent_effect cur _ _ _ _ _ _ HT)|]. clear HT. intros _ r3 (vs' & HT & HW & Hpar).
  eapply wlp_seq; [apply (modp_effect cur _ _ _ _ _ _ _ (λ v, (ZOMBIE, vpid v, vpar v, vchan v)) HT); done|].
  clear HT. intros _ r4 (v & Hv & HT). eapply wlp_mono; [apply (sched_effect _ _ _ _ _ _ HT)|]. intros _ r5 [_ HT5].
  exists cur, v, vs'. split_and!; try done; [by exists (tview p)|].
  - intros j w Hj Hw' Hp'. by apply Hni, (Hpar j w).
Qed.

Lemma wakeup_effect chan s vs n init c lk :
  table s = (vs, n, init, c, lk) →
  wlp (wakeup chan) (λ _ s', lk = false ∧ table s' = (wake chan <$> vs, n, init, c, false)) s.
Proof.
  intros HT. unfold wakeup. eapply wlp_seq; [apply (acquire_effect _ _ _ _ _ _ HT)|]. intros _ s1 [-> HT1].
  eapply wlp_seq; [apply (wakeup1_effect chan _ _ _ _ _ _ HT1)|]. intros _ s2 HT2.
  eapply wlp_mono; [apply (release_effect _ _ _ _ _ _ HT2)|]. done.
Qed.

(** [kill] on the view of its target. *)
Definition killed_view (v : view) : view :=
  if bool_decide (vst v = SLEEPING) then (RUNNABLE, vpid v, vpar v, vchan v) else v.

Lemma kill_effect pid s vs n init c lk :
  table s = (vs, n, init, c, lk) →
  wlp (kill pid) (λ r s', lk = false ∧
     ((r = -1 ∧ table s' = (vs, n, init, c, false) ∧ Forall (λ v, vpid v ≠ pid) vs) ∨
      (r = 0 ∧ ∃ i v, vs !! i = Some v ∧ vpid v = pid ∧ table s' = (<[i := killed_view v]> vs, n, init, c, false)))) s.
Proof.
  intros HT. unfold kill. eapply wlp_seq; [apply (acquire_effect _ _ _ _ _ _ HT)|]. intros _ s1 [-> HT1].
  unfold find_proc. apply wlp_bind, wlp_gets. assert (tview <$> k_procs s1 = vs) as Hvs by (unfold table in HT1; congruence).
  case_match eqn:E.
  - destruct (find_proc_from_spec _ _ _ _ E) as (p & _ & Hp & Hpid & _). rewrite Nat.sub_0_r in Hp. apply Z.eqb_eq in Hpid.
    eapply wlp_seq; [apply (modp_effect _ _ _ _ _ _ _ _ id HT1); done|]. intros _ s2 (v & Hv & HT2).
    assert (v = tview p) as -> by (rewrite <-Hvs, list_lookup_fmap, Hp in Hv; by injection Hv).
    rewrite list_insert_id in HT2 by done.
    eapply wlp_seq; [apply (modp_effect _ _ _ _ _ _ _ _ killed_view HT2); intros q; unfold killed_view, vst; simpl; by case_bool_decide|].
    intros _ s3 (v & Hv' & HT3). assert (v = tview p) as -> by congruence.
    eapply wlp_seq; [apply (release_effect _ _ _ _ _ _ HT3)|]. intros _ s4 HT4. apply wlp_ret. split; [done|]. right.
    split; [done|]. exists n0, (tview p). done.
  - eapply wlp_seq; [apply (release_effect _ _ _ _ _ _ HT1)|]. intros _ s4 HT4. apply wlp_ret. split; [done|]. left.
    split_and!; [done|done|]. apply find_proc_from_none in E. rewrite <-Hvs. apply Forall_fmap. eapply Forall_impl; [exact E|].
    intros p Hp. apply Z.eqb_neq in Hp. done.
Qed.

Lemma yield_effect s vs n init c lk :
  table s = (vs, n, init, c, lk) →
  wlp (yield_enter SEL) (λ _ s', ∃ i v, c = Some i ∧ lk = false ∧ vs !! i = Some v ∧
     table s' = (<[i := (RUNNABLE, vpid v, vpar v, vchan v)]> vs, n, init, c, true)) s.
Proof.
  intros HT. unfold yield_enter. tpass HT. eapply wlp_seq; [apply (acquire_effect _ _ _ _ _ _ HT)|]. clear HT. intros _ r1 [-> HT].
  apply wlp_bind, wlp_myproc. intros i Hi. assert (c = Some i) as -> by (unfold table in HT; congruence).
  eapply wlp_seq; [apply (modp_effect i _ _ _ _ _ _ _ (λ v, (RUNNABLE, vpid v, vpar v, vchan v)) HT); done|].
  clear HT. intros _ r2 (v & Hv & HT). eapply wlp_mono; [apply (sched_effect _ _ _ _ _ _ HT)|]. intros _ r3 [_ HT3]. eauto 10.
Qed.

Definition lock_table (lk : @sleep_lock F) : Prop :=
  match lk with LkOther acq rel => pres (@same_table F) acq ∧ pres (@same_table F) rel | _ => True end.

Lemma sleep_enter_effect chan lk0 s vs n init c lk :
  lock_table lk0 → table s = (vs, n, init, c, lk) →
  wlp (sleep_enter chan lk0) (λ _ s', ∃ i v, c = Some i ∧ vs !! i = Some v ∧
     match lk0 with LkNull => False | LkPtable => lk = true | LkOther _ _ => lk = false end ∧
     table s' = (<[i := (SLEEPING, vpid v, vpar v, chan)]> vs, n, init, c, true)) s.
Proof.
  intros Hlk HT. unfold sleep_enter. apply wlp_bind, wlp_gets. assert (k_cur s = c) as -> by (unfold table in HT; congruence).
  destruct c as [i|]; [|done].
  assert (∀ lk1 s1, table s1 = (vs, n, init, Some i, lk1) →
    wlp (modp i (λ p, p <| p_chan := chan |> <| p_state := SLEEPING |>) ;; sched) (λ _ s', ∃ v, vs !! i = Some v ∧ lk1 = true ∧
      table s' = (<[i := (SLEEPING, vpid v, vpar v, chan)]> vs, n, init, Some i, true)) s1) as Htail.
  { intros lk1 s1 HT1. eapply wlp_seq; [apply (modp_effect i _ _ _ _ _ _ _ (λ v, (SLEEPING, vpid v, vpar v, chan)) HT1); done|].
    intros _ r2 (v & Hv & HT2). eapply wlp_mono; [apply (sched_effect _ _ _ _ _ _ HT2)|]. intros _ r3 [-> HT3]. eauto 10. }
  destruct lk0 as [| |acq rel]; [done| |]; apply wlp_bind.
  - apply wlp_ret. eapply wlp_mono; [apply (Htail _ _ HT)|]. intros _ r (v & ? & -> & ?). eauto 10.
  - eapply wlp_seq; [apply (acquire_effect _ _ _ _ _ _ HT)|]. intros _ s1 [-> HT1].
    eapply wlp_mono; [apply (table_keep _ _ (proj2 Hlk))|]. intros [] s2 E. cbv beta in E. rewrite HT1 in E.
    eapply wlp_mono; [apply (Htail _ _ E)|]. intros _ r (v & ? & _ & ?). eauto 10.
Qed.

Lemma sleep_resume_effect lk0 s vs n init c lk :
  lock_table lk0 → table s = (vs, n, init, c, lk) →
  wlp (sleep_resume lk0) (λ _ s', ∃ i v, c = Some i ∧ vs !! i = Some v ∧
     table s' = (<[i := (vst v, vpid v, vpar v, 0)]> vs, n, init, c,
       match lk0 with LkOther _ _ => false | _ => lk end)) s.
Proof.
  intros Hlk HT. unfold sleep_resume. apply wlp_bind, wlp_myproc. intros i Hi.
  assert (c = Some i) as -> by (unfold table in HT; congruence).
  eapply wlp_seq; [apply (modp_effect i _ _ _ _ _ _ _ (λ v, (vst v, vpid v, vpar v, 0)) HT); done|].
  intros _ r2 (v & Hv & HT2). destruct lk0 as [| |acq rel]; [apply wlp_ret; eauto..|].
  eapply wlp_seq; [apply (release_effect _ _ _ _ _ _ HT2)|]. intros _ r3 HT3.
  eapply wlp_mono; [apply (table_keep _ _ (proj1 Hlk))|]. intros [] r4 E. cbv beta in E. rewrite HT3 in E. eauto.
Qed.

(** The scheduler takes the first runnable process from entry [i] on. *)
Lemma pick_effect i s vs n init c lk :
  table s = (vs, n, init, c, lk) →
  wlp (scheduler_pick i) (λ r s',
     match r with
     | None => table s' = (vs, n, init, None, false) ∧ ∀ j v, (i ≤ j)%nat → vs !! j = Some v → vst v ≠ RUNNABLE
     | Some j => ∃ v, (i ≤ j)%nat ∧ vs !! j = Some v ∧ vst v = RUNNABLE ∧
         (∀ k w, (i ≤ k < j)%nat → vs !! k = Some w → vst w ≠ RUNNABLE) ∧
         table s' = (<[j := (RUNNING, vpid v, vpar v, vchan v)]> vs, n, init, Some j, lk)
     end) s.
Proof.
  intros HT. unfold scheduler_pick. apply wlp_bind, wlp_modify. set (s1 := s <| k_cur := None |>).
  assert (table s1 = (vs, n, init, None, lk)) as HT1 by (unfold table in *; simpl; congruence).
  apply wlp_bind, wlp_gets. assert (tview <$> k_procs s1 = vs) as Hvs by (unfold table in HT1; congruence).
  case_match eqn:E.
  - destruct (find_proc_from_spec _ _ _ _ E) as (p & Hle & Hp & Hst & Hfst). apply bool_decide_eq_true in Hst.
    rewrite lookup_drop in Hp. replace (i + (n0 - i))%nat with n0 in Hp by lia.
    apply wlp_bind, wlp_modify. set (s2 := s1 <| k_cur := Some n0 |>).
    assert (table s2 = (vs, n, init, Some n0, lk)) as HT2 by (unfold table in *; simpl in *; congruence).
    tpass HT2. eapply wlp_seq; [apply (modp_effect n0 _ _ _ _ _ _ _ (λ v, (RUNNING, vpid v, vpar v, vchan v)) HT2); done|].
    intros _ r3 (v & Hv & HT3). apply wlp_ret. exists v.
    assert (vs !! n0 = Some (tview p)) as Hv' by exact (table_lookup _ _ _ _ _ _ _ _ HT1 Hp). assert (v = tview p) as -> by congruence.
    split_and!; [done|done|done| |done]. intros k w Hk Hw. rewrite <-Hvs, list_lookup_fmap in Hw.
    destruct (k_procs s1 !! k) as [q|] eqn:Hq; [|done]. injection Hw as <-.
    assert (bool_decide (p_state q = RUNNABLE) = false) as Hb%bool_decide_eq_false; [|done].
    apply (Hfst (k - i)%nat q); [lia|]. rewrite lookup_drop. by replace (i + (k - i))%nat with k by lia.
  - eapply wlp_seq; [apply (release_effect _ _ _ _ _ _ HT1)|]. intros _ r2 HT2. apply wlp_ret. split; [done|].
    apply find_proc_from_none in E. intros j v Hj Hv. rewrite <-Hvs, list_lookup_fmap in Hv.
    destruct (k_procs s1 !! j) as [q|] eqn:Hq; [|done]. injection Hv as <-. rewrite Forall_lookup in E.
    assert (bool_decide (p_state q = RUNNABLE) = false) as Hb%bool_decide_eq_false; [|done].
    apply (E (j - i)%nat q). rewrite lookup_drop. by replace (i + (j - i))%nat with j by lia.
Qed.

Lemma return_effect s vs n init c lk :
  table s = (vs, n, init, c, lk) → wlp scheduler_return (λ _ s', table s' = (vs, n, init, None, lk)) s.
Proof.
  intros HT. unfold scheduler_return. tpass HT. apply wlp_modify. unfold table in *. simpl. congruence.
Qed.

(** [wait()]: a zombie child is reaped; without children, or when killed,
    the call fails; otherwise the caller sleeps on its own address. *)
Definition zombie_child (cur : nat) (v : view) : Prop := vpar v = Some cur ∧ vst v = ZOMBIE.

Lemma wait_scan_effect s vs n init c lk :
  table s = (vs, n, init, c, lk) →
  wlp (wait_scan SEL kend ptable_proc sizeof_proc) (λ r s', ∃ cur, c = Some cur ∧
     match r with
     | WaitRet pid =>
         (∃ i v, vs !! i = Some v ∧ zombie_child cur v ∧ pid = vpid v ∧
            table s' = (<[i := (UNUSED, 0, None, vchan v)]> vs, n, init, c, false)) ∨
         (pid = -1 ∧ Forall (λ v, ¬ zombie_child cur v) vs ∧ table s' = (vs, n, init, c, false))
     | WaitSleep => ∃ v, vs !! cur = Some v ∧ lk = true ∧ Forall (λ v, ¬ zombie_child cur v) vs ∧
         Exists (λ v, vpar v = Some cur) vs ∧
         table s' = (<[cur := (SLEEPING, vpid v, vpar v, proc_chan ptable_proc sizeof_proc (Some cur))]> vs, n, init, c, true)
     end) s.
Proof.
  intros HT. unfold wait_scan. apply wlp_bind, wlp_myproc. intros cur Hcur.
  assert (c = Some cur) as -> by (unfold table in HT; congruence). apply wlp_bind, wlp_gets.
  unfold find_proc. apply wlp_bind, wlp_gets. assert (tview <$> k_procs s = vs) as Hvs by (unfold table in HT; congruence).
  case_match eqn:E.
  - destruct (find_proc_from_spec _ _ _ _ E) as (p & _ & Hp & Hst & _). rewrite Nat.sub_0_r in Hp.
    apply andb_prop in Hst as [H1%bool_decide_eq_true H2%bool_decide_eq_true].
    apply wlp_bind, wlp_getp. intros q Hq. assert (q = p) as -> by congruence. clear Hq.
    assert (vs !! n0 = Some (tview p)) as Hv by exact (table_lookup _ _ _ _ _ _ _ _ HT Hp).
    do 3 tpass HT. eapply wlp_seq; [apply (modp_effect n0 _ _ _ _ _ _ _ (λ v, (UNUSED, 0, None, vchan v)) HT); done|].
    clear HT. intros _ r1 (v & Hv' & HT). assert (v = tview p) as -> by congruence.
    eapply wlp_seq; [apply (release_effect _ _ _ _ _ _ HT)|]. intros _ r2 HT2. apply wlp_ret. exists cur. split; [done|]. left.
    exists n0, (tview p). done.
  - assert (Forall (λ v, ¬ zombie_child cur v) vs) as Hnz.
    { apply find_proc_from_none in E. rewrite <-Hvs. apply Forall_fmap. eapply Forall_impl; [exact E|]. intros p Hp [H1 H2].
      apply andb_false_iff in Hp as [Hp%bool_decide_eq_false|Hp%bool_decide_eq_false]; done. }
    apply wlp_bind, wlp_getp. intros p Hp. case_match eqn:Hk.
    + eapply wlp_seq; [apply (release_effect _ _ _ _ _ _ HT)|]. intros _ r2 HT2. apply wlp_ret. exists cur. split; [done|]. by right.
    + apply orb_false_iff in Hk as [Hk _]. apply negb_false_iff, existsb_exists in Hk as (q & Hq & Hpar%bool_decide_eq_true).
      eapply wlp_seq; [apply (sleep_enter_effect _ LkPtable _ _ _ _ _ _ I HT)|]. intros _ r2 (i & v & [= <-] & Hv & -> & HT2).
      apply wlp_ret. exists cur. split; [done|]. exists v. split_and!; [done|done|done| |done].
      apply Exists_exists. exists (tview q). split; [|done]. rewrite <-Hvs. apply list_elem_of_fmap. exists q. split; [done|].
      by apply list_elem_of_In.
Qed.
End handlers.
