(* ===== verification/SchedInv.v ===== *)
(** The machine that runs processes: one processor that alternates between
    [scheduler] and the process it picked.

    A process that is not running is suspended inside [yield], [sleep],
    [wait] or at [forkret]; its continuation says where.  A step runs the code
    between two context switches.  An operation of a process is one step: the
    interleaving is that of operations, which on one processor is what the
    locks give. *)

From S2P Require Import Prelude Memory Machine Kalloc Swap Vm Proc Frame Sched Paging.
From stdpp Require Import options.
Import Swap Proc.

Section machine.
Context (SEL : policy) (VERBOSE : bool) {F : Type} `{!FileSys F}.
Context (kend kdata forkret_addr trapret_addr initcode_start initcode_size ptable_proc sizeof_proc : Z).
Implicit Types s : kst F.

(** Where a suspended process resumes. *)
Inductive cont := CForkret | CYield | CSleep (lk : @sleep_lock F) | CWait.

(** What a process does at the end of a step: it keeps the processor, or it
    has called [sched], to resume at a continuation or never. *)
Inductive next := Stay | Switch (c : option cont).

Definition wait_next (r : wait_result) : next :=
  match r with WaitRet _ => Stay | WaitSleep => Switch (Some CWait) end.

Definition resume (c : cont) : M (kst F) next :=
  match c with
  | CForkret => forkret ;; ret Stay
  | CYield => yield_resume ;; ret Stay
  | CSleep lk => sleep_resume lk ;; ret Stay
  | CWait => r <- wait_resume SEL kend ptable_proc sizeof_proc ;; ret (wait_next r)
  end.

(** The operations of the running process on the process table; [OOther] is
    any other code. *)
Inductive pop :=
  | OYield | OSleep (chan : Z) (acq rel : M (kst F) unit) | OWait | OExit
  | OFork | OKill (pid : Z) | OWakeup (chan : Z) | OOther (m : M (kst F) unit).

Definition run_op (o : pop) : M (kst F) next :=
  match o with
  | OYield => yield_enter SEL ;; ret (Switch (Some CYield))
  | OSleep chan acq rel => sleep_enter chan (LkOther acq rel) ;; ret (Switch (Some (CSleep (LkOther acq rel))))
  | OWait => r <- wait_enter SEL kend ptable_proc sizeof_proc ;; ret (wait_next r)
  | OExit => exit_enter VERBOSE ptable_proc sizeof_proc ;; ret (Switch None)
  | OFork => fork SEL kend kdata forkret_addr trapret_addr ;; ret Stay
  | OKill pid => kill pid ;; ret Stay
  | OWakeup chan => wakeup chan ;; ret Stay
  | OOther m => m ;; ret Stay
  end.

(** Other code and other locks do not touch the table, and pids have not run
    out of the [int] that counts them. *)
Definition op_ok (o : pop) s : Prop :=
  match o with
  | OSleep _ acq rel => pres (@same_table F) acq ∧ pres (@same_table F) rel
  | OFork => k_nextpid s < 2 ^ 31 - 1
  | OOther m => pres (@same_table F) m
  | _ => True
  end.

Record mach := Mach { m_st : kst F; m_mode : mode; m_cont : gmap nat cont }.

(** A process created by the step starts at [forkret]. *)
Definition born s s' (i : nat) : bool :=
  match k_procs s !! i, k_procs s' !! i with
  | Some p, Some p' => bool_decide (p_state p = UNUSED) && bool_decide (p_state p' = RUNNABLE)
  | _, _ => false
  end.
Definition births s s' (k k' : gmap nat cont) : Prop :=
  ∀ i, k' !! i = if born s s' i then Some CForkret else k !! i.

(** The end of the step of process [j]. *)
Inductive settle (j : nat) (s : kst F) (k : gmap nat cont) : next → mach → Prop :=
  | settle_stay : settle j s k Stay (Mach s MRun k)
  | settle_switch c s' :
      scheduler_return s = Ok tt s' → settle j s k (Switch c) (Mach s' (MSched (S j)) (partial_alter (λ _, c) j k)).

Inductive mstep : mach → mach → Prop :=
  | st_lock s k s' :
      acquire k_ptable_lock s = Ok tt s' → mstep (Mach s MIdle k) (Mach s' (MSched 0) k)
  | st_none s i k s' :
      scheduler_pick i s = Ok None s' → mstep (Mach s (MSched i) k) (Mach s' MIdle k)
  | st_pick s i k j c s1 nx s2 m :
      scheduler_pick i s = Ok (Some j) s1 → k !! j = Some c → resume c s1 = Ok nx s2 →
      settle j s2 k nx m → mstep (Mach s (MSched i) k) m
  | st_op o s j k nx s' k' m :
      k_cur s = Some j → op_ok o s → run_op o s = Ok nx s' → births s s' k k' →
      settle j s' k' nx m → mstep (Mach s MRun k) m
  | st_intr chan s k s' :
      wakeup chan s = Ok tt s' → mstep (Mach s MIdle k) (Mach s' MIdle k).

(** ** The invariant of the machine *)

Definition waiting (v : view) : Prop := vst v = RUNNABLE ∨ vst v = SLEEPING.

(** The table is in order, and every process that can be picked has a place
    to resume at. *)
Record minv (m : mach) : Prop := {
  mi_table : tinv (m_mode m) (table (m_st m));
  mi_cont i v : t_views (table (m_st m)) !! i = Some v → waiting v → is_Some (m_cont m !! i);
  mi_lock i lk : m_cont m !! i = Some (CSleep lk) → lock_table lk ∧ ∃ acq rel, lk = LkOther acq rel;
}.

(** The processes that can be picked after a step could be picked before it,
    or are the one that gave up the processor, or (if [b]) are new. *)
Definition wkeep (b : bool) (vs vs' : list view) (j : option nat) : Prop :=
  ∀ i v', vs' !! i = Some v' → waiting v' →
    j = Some i ∨ ∃ v, vs !! i = Some v ∧ (waiting v ∨ (b = true ∧ vst v = UNUSED ∧ vst v' = RUNNABLE)).

(** Process [j] has called [sched]: once the scheduler has taken over, the
    table is in order. *)
Definition gone (vs0 : list view) (j : nat) (c : option cont) s : Prop :=
  ∃ vs n init, table s = (vs, n, init, Some j, true) ∧ tinv (MSched (S j)) (vs, n, init, None, true) ∧
    wkeep false vs0 vs (c ← c; Some j).
Definition stays (b : bool) (vs0 : list view) (j : nat) s : Prop :=
  ∃ vs n init, table s = (vs, n, init, Some j, false) ∧ tinv MRun (table s) ∧ wkeep b vs0 vs None.
Definition settled (b : bool) (vs0 : list view) (j : nat) (nx : next) s : Prop :=
  match nx with Stay => stays b vs0 j s | Switch c => gone vs0 j c s end.

Lemma wkeep_insert b (vs : list view) i v v' :
  vs !! i = Some v → (waiting v' → waiting v) → wkeep b vs (<[i := v']> vs) None.
Proof.
  intros Hv Hw k w [[-> ->]|[_ Hk]]%insert_lookup Hwt; [right; exists v; auto|right; exists w; auto|].
  by eapply lookup_lt_Some.
Qed.

Lemma wkeep_insert_self b (vs : list view) i v v' : vs !! i = Some v → wkeep b vs (<[i := v']> vs) (Some i).
Proof. intros Hv k w [[-> ->]|[_ Hk]]%insert_lookup Hwt; [by left|right; exists w; auto|]. by eapply lookup_lt_Some. Qed.

Lemma wkeep_refl b vs : wkeep b vs vs None.
Proof. intros k w Hk Hw. right. exists w. auto. Qed.

Lemma wkeep_trans vs0 vs vs' j : wkeep false vs0 vs None → wkeep false vs vs' j → wkeep false vs0 vs' j.
Proof.
  intros H1 H2 k w Hk Hw. destruct (H2 k w Hk Hw) as [?|(v & Hv & [Hwv|[? _]])]; [by left| |done].
  right. by destruct (H1 k v Hv Hwv) as [?|(u & Hu & [?|[? _]])]; [|exists u; auto|].
Qed.

Lemma woken_waiting init v v' : woken init v v' → waiting v' → waiting v.
Proof. unfold waiting. intros (_ & [->|[E _]] & _); [done|]. intros _. by right. Qed.

Lemma wkeep_woken b init vs vs' : Forall2 (woken init) vs vs' → wkeep b vs vs' None.
Proof.
  intros HW k w Hk Hw. right. destruct (Forall2_lookup_r _ _ _ _ _ HW Hk) as (v & Hv & Hwk). exists v. split; [done|].
  left. by eapply woken_waiting.
Qed.

Lemma run_ok_woken md init vs vs' c : run_ok md vs c → Forall2 (woken init) vs vs' → run_ok md vs' c.
Proof.
  intros [H1 H2] HW. split.
  - intros i v' Hv' Hr. destruct (Forall2_lookup_r _ _ _ _ _ HW Hv') as (v & Hv & _ & Hs & _).
    apply (H1 i v Hv). destruct Hs as [<-|[_ E]]; [done|congruence].
  - intros ->. destruct (H2 eq_refl) as (i & v & -> & Hv & Hr).
    destruct (Forall2_lookup_l _ _ _ _ _ HW Hv) as (v' & Hv' & _ & Hs & _). exists i, v'. split_and!; [done|done|].
    destruct Hs as [->|[E _]]; [done|congruence].
Qed.

Lemma tinv_woken md vs vs' n init c lk :
  tinv md (vs, n, init, c, lk) → Forall2 (woken init) vs vs' → tinv md (vs', n, init, c, lk).
Proof.
  intros HI HW. eapply tinv_mild; [exact HI| | |exact (ti_lock _ _ HI)].
  - eapply Forall2_impl; [exact HW|apply woken_mild].
  - exact (run_ok_woken _ _ _ _ _ (ti_run _ _ HI) HW).
Qed.

(** The running process gives up the processor. *)
Lemma tinv_leave vs n init i v v' :
  tinv MRun (vs, n, init, Some i, false) → vs !! i = Some v → mild init v v' → vst v' ≠ RUNNING →
  tinv (MSched (S i)) (<[i := v']> vs, n, init, None, true).
Proof.
  intros HI Hv Hm Hr. eapply tinv_mild; [exact HI|by eapply mild_insert| |done]. split; [|done].
  intros j w [[-> ->]|[Hne Hw]]%insert_lookup Hrun; [done| |by eapply lookup_lt_Some].
  destruct (proj1 (ti_run _ _ HI) j w Hw Hrun) as [_ E]. cbn in E. congruence.
Qed.

(** The scheduler gives it to process [j]. *)
Lemma tinv_pick i vs n init c j v :
  tinv (MSched i) (vs, n, init, c, true) → vs !! j = Some v → vst v = RUNNABLE →
  tinv MRun (<[j := (RUNNING, vpid v, vpar v, vchan v)]> vs, n, init, Some j, false).
Proof.
  intros HI Hv Hr. assert (j < length vs)%nat as Hj by (by eapply lookup_lt_Some).
  eapply tinv_mild; [exact HI|eapply mild_insert; [done|]| |done].
  - split_and!; [done| |by left|done]. unfold live. rewrite Hr. done.
  - split.
    + intros k w [[-> ->]|[Hne Hw]]%insert_lookup Hrun; [done| |done]. by destruct (proj1 (ti_run _ _ HI) k w Hw Hrun).
    + intros _. eexists j, _. split_and!; [done|by apply list_lookup_insert_eq|done].
Qed.

(** The running process changes, but keeps running. *)
Lemma tinv_self vs n init i v v' :
  tinv MRun (vs, n, init, Some i, false) → vs !! i = Some v → mild init v v' → vst v' = vst v →
  tinv MRun (<[i := v']> vs, n, init, Some i, false).
Proof.
  intros HI Hv Hm Hs. assert (i < length vs)%nat as Hi by (by eapply lookup_lt_Some).
  destruct (proj2 (ti_run _ _ HI) eq_refl) as (k & w & [= <-] & Hw & Hr). cbn in Hw. assert (w = v) as -> by congruence.
  eapply tinv_mild; [exact HI|by eapply mild_insert| |done]. split.
  - intros k w [[-> ->]|[Hne Hk]]%insert_lookup Hrun; [done| |done]. exact (proj1 (ti_run _ _ HI) k w Hk Hrun).
  - intros _. eexists i, _. split_and!; [done|by apply list_lookup_insert_eq|congruence].
Qed.

(** ** Every step keeps it *)

Lemma sleep_mild init v chan : vst v = RUNNING → mild init v (SLEEPING, vpid v, vpar v, chan).
Proof. intros Hr. split_and!; [done| |by left|done]. unfold live. rewrite Hr. done. Qed.

Lemma running_cur vs n init j v :
  tinv MRun (vs, n, init, Some j, false) → vs !! j = Some v → vst v = RUNNING.
Proof.
  intros HI Hv. destruct (proj2 (ti_run _ _ HI) eq_refl) as (k & w & [= <-] & Hw & Hr). cbn in Hw. congruence.
Qed.

Lemma wait_settled s vs0 vs n init j :
  wkeep false vs0 vs None → table s = (vs, n, init, Some j, true) → tinv MRun (vs, n, init, Some j, false) →
  wlp (r <- wait_scan SEL kend ptable_proc sizeof_proc ;; ret (wait_next r)) (settled false vs0 j) s.
Proof.
  intros HK HT HI. apply wlp_bind. eapply wlp_mono; [apply (wait_scan_effect _ _ _ _ _ _ _ _ _ _ HT)|].
  intros [pid|] s' (cur & [= <-] & H); apply wlp_ret; simpl.
  - destruct H as [(i & v & Hv & [_ Hz] & _ & HT')|(_ & _ & HT')].
    + exists (<[i := (UNUSED, 0, None, vchan v)]> vs), n, init. rewrite HT'. split_and!; [done|by eapply tinv_free|].
      eapply wkeep_trans; [exact HK|]. apply (wkeep_insert _ _ _ v); [done|]. by intros [|].
    + exists vs, n, init. by rewrite HT'.
  - destruct H as (v & Hv & _ & _ & _ & HT'). eexists _, n, init. split_and!; [exact HT'| |eapply wkeep_trans; [exact HK|by eapply wkeep_insert_self]].
    eapply tinv_leave; [exact HI|done|apply sleep_mild; by eapply running_cur|done].
Qed.

Lemma stays_same b s vs n init j :
  table s = (vs, n, init, Some j, false) → tinv MRun (vs, n, init, Some j, false) → stays b vs j s.
Proof. intros HT HI. exists vs, n, init. rewrite HT. split_and!; [done..|apply wkeep_refl]. Qed.

Lemma chan_mild init v : mild init v (vst v, vpid v, vpar v, 0).
Proof. split_and!; [done|done|by left|done]. Qed.

Lemma resume_settled c s vs n init j :
  (∀ lk, c = CSleep lk → lock_table lk ∧ ∃ acq rel, lk = LkOther acq rel) →
  table s = (vs, n, init, Some j, true) → tinv MRun (vs, n, init, Some j, false) →
  wlp (resume c) (settled false vs j) s.
Proof.
  intros Hlk HT HI. destruct c as [| |lk|]; simpl.
  - unfold forkret. apply wlp_bind. eapply wlp_seq; [apply (release_effect _ _ _ _ _ _ HT)|]. intros _ s1 HT1. 
    apply wlp_bind, wlp_gets. case_match.
    + eapply wlp_mono; [apply (table_keep s1 (modify (λ s, s <| k_first := false |>) ;; fs_call fs_init) ltac:(pres_auto))|].
      intros [] s2 E. cbv beta in E. apply wlp_ret. apply (stays_same _ _ _ n init); congruence.
    + apply wlp_ret, wlp_ret. by apply (stays_same _ _ _ n init).
  - apply wlp_bind. eapply wlp_mono; [apply (release_effect _ _ _ _ _ _ HT)|]. intros [] s1 HT1. apply wlp_ret. by eapply stays_same.
  - destruct (Hlk lk eq_refl) as (Hl & acq & rel & ->). apply wlp_bind.
    eapply wlp_mono; [apply (sleep_resume_effect _ _ _ _ _ _ _ Hl HT)|]. intros [] s1 (i & v & [= <-] & Hv & HT1).
    apply wlp_ret. eexists _, n, init. split_and!; [exact HT1| |].
    + rewrite HT1. eapply tinv_self; [done|done|apply chan_mild|done].
    + by apply (wkeep_insert _ _ _ v).
  - unfold wait_resume. apply wlp_bind, wlp_bind.
    eapply wlp_mono; [apply (sleep_resume_effect LkPtable _ _ _ _ _ _ I HT)|]. intros [] s1 (i & v & [= <-] & Hv & HT1).
    apply wlp_bind_inv. eapply wait_settled; [|exact HT1|].
    + by apply (wkeep_insert _ _ _ v).
    + eapply tinv_self; [done|done|apply chan_mild|done].
Qed.

Lemma wkeep_weaken vs vs' j : wkeep false vs vs' j → wkeep true vs vs' j.
Proof. intros H k w Hk Hw. destruct (H k w Hk Hw) as [?|(v & Hv & [?|[? _]])]; [by left| |done]. right. eauto. Qed.

Lemma settled_weaken vs j nx s : settled false vs j nx s → settled true vs j nx s.
Proof. destruct nx; [|done]. intros (vs' & n & init & ? & ? & ?). exists vs', n, init. eauto using wkeep_weaken. Qed.

Lemma stays_woken s vs vs' n init j :
  tinv MRun (vs, n, init, Some j, false) → Forall2 (woken init) vs vs' → table s = (vs', n, init, Some j, false) →
  stays true vs j s.
Proof.
  intros HI HW HT. exists vs', n, init. rewrite HT. split_and!; [done|by eapply tinv_woken|by eapply wkeep_woken].
Qed.

Lemma woken_insert init (vs : list view) i v v' :
  vs !! i = Some v → woken init v v' → Forall2 (woken init) vs (<[i := v']> vs).
Proof.
  intros Hv Hw. apply Forall2_same_length_lookup. rewrite length_insert. split; [done|].
  intros k x y Hx [[-> ->]|[_ Hy]]%insert_lookup; [|assert (x = y) as -> by congruence; reflexivity|by eapply lookup_lt_Some].
  by assert (x = v) as -> by congruence.
Qed.

Lemma killed_woken init v : woken init v (killed_view v).
Proof.
  unfold killed_view. case_bool_decide; [|reflexivity]. split_and!; [done|by right|by left].
Qed.

(** [exit]. *)
Lemma exit_gone vs vs' n init j v s :
  tinv MRun (vs, n, init, Some j, false) → Forall2 (woken init) vs vs' → vs' !! j = Some v → init ≠ Some j →
  (∀ k w, Z.of_nat k < NPROC → vs' !! k = Some w → vpar w ≠ Some j) →
  table s = (<[j := (ZOMBIE, vpid v, vpar v, vchan v)]> vs', n, init, Some j, true) → gone vs j None s.
Proof.
  intros HI HW Hv Hni Hpar HT. pose proof (tinv_woken _ _ _ _ _ _ _ HI HW) as HI'.
  eexists _, n, init. split_and!; [exact HT| |].
  - eapply tinv_zombie; [exact HI'|done|done| |done|done]. intros k w Hw. apply (Hpar k); [|done].
    apply lookup_lt_Some in Hw. pose proof (ti_len _ _ HI') as Hl. cbn in Hl. rewrite Hl in Hw. unfold NPROC in *. lia.
  - eapply wkeep_trans; [by eapply wkeep_woken|]. apply (wkeep_insert _ _ _ v); [done|]. by intros [|].
Qed.

(** [fork], and its failures after it has taken a slot. *)
Lemma fork_stays s s' vs n init j i p v' :
  tinv MRun (vs, n, init, Some j, false) → table s = (vs, n, init, Some j, false) → n < 2 ^ 31 - 1 →
  k_procs s !! i = Some p → p_state p = UNUSED →
  tset s i v' (s32 (n + 1)) false s' →
  (vst v' = UNUSED ∧ vpar v' = p_parent p) ∨ (vst v' = RUNNABLE ∧ vpid v' = n ∧ vpar v' = Some j) →
  stays true vs j s'.
Proof.
  intros HI HT Hn Hp Hun Hs Hv'. assert (vs !! i = Some (tview p)) as Hv by by eapply table_lookup.
  destruct (proj2 (ti_run _ _ HI) eq_refl) as (k & w & [= <-] & Hw & Hr). cbn in Hw.
  assert (0 < n) as Hn0 by (pose proof (ti_pid _ _ HI j w Hw ltac:(unfold live; congruence)) as H; cbn in H; lia).
  assert (table s' = (<[i := v']> vs, n + 1, init, Some j, false)) as HT'.
  { unfold tset, table in *. rewrite s32_id in Hs by lia. injection HT as H1 H2 H3 H4 H5.
    rewrite Hs. cbn. rewrite H1, H3, H4. done. }
  exists (<[i := v']> vs), (n + 1), init. rewrite HT'. split_and!; [done|by eapply tinv_new|].
  intros k u [[-> ->]|[_ Hk]]%insert_lookup Hwt; [|right; exists u; auto|by eapply lookup_lt_Some].
  right. exists (tview p). split; [done|]. destruct Hv' as [[E _]|[E _]]; [by destruct Hwt as [E'|E']; rewrite E in E'|].
  right. done.
Qed.

Lemma yield_mild init v : vst v = RUNNING → mild init v (RUNNABLE, vpid v, vpar v, vchan v).
Proof. intros Hr. split_and!; [done| |by left|done]. unfold live. rewrite Hr. done. Qed.

Lemma fork_settled s vs n init j :
  table s = (vs, n, init, Some j, false) → tinv MRun (vs, n, init, Some j, false) → n < 2 ^ 31 - 1 →
  wlp (fork SEL kend kdata forkret_addr trapret_addr) (λ _ s', stays true vs j s') s.
Proof.
  intros HT HI Hn. eapply wlp_mono; [apply fork_effect|].
  assert (k_nextpid s = n ∧ k_cur s = Some j) as [En Ec] by (unfold table in HT; split; congruence).
  intros a s' (_ & [(_ & Hf)|(i & p & cur & Hp & Hst & Hcur & _ & Hs)]).
  - destruct Hf as [Hf|(i & p & Hp & Hst & Hs)]; [apply (stays_same _ _ _ n init); [unfold same_table in Hf; congruence|done]|].
    rewrite En in Hs. eapply fork_stays; eauto.
  - rewrite En in Hs. assert (cur = j) as -> by congruence. eapply fork_stays; [done..|]. by right.
Qed.

Lemma run_op_settled o s vs n init j :
  table s = (vs, n, init, Some j, false) → tinv MRun (vs, n, init, Some j, false) → op_ok o s →
  wlp (run_op o) (settled true vs j) s.
Proof.
  intros HT HI Hok. destruct o as [|chan acq rel| | | |pid|chan|m]; simpl in *. all: apply wlp_bind.
  - eapply wlp_mono; [apply (yield_effect _ _ _ _ _ _ _ HT)|]. intros [] s1 (i & v & [= <-] & _ & Hv & HT1). apply wlp_ret.
    eexists _, n, init. split_and!; [exact HT1| |by eapply wkeep_insert_self].
    eapply tinv_leave; [exact HI|done|apply yield_mild; by eapply running_cur|done].
  - eapply wlp_mono; [apply (sleep_enter_effect chan (LkOther acq rel) _ _ _ _ _ _ Hok HT)|].
    intros [] s1 (i & v & [= <-] & Hv & _ & HT1). apply wlp_ret.
    eexists _, n, init. split_and!; [exact HT1| |by eapply wkeep_insert_self].
    eapply tinv_leave; [exact HI|done|apply sleep_mild; by eapply running_cur|done].
  - unfold wait_enter. eapply wlp_seq; [apply (acquire_effect _ _ _ _ _ _ HT)|]. intros _ s1 [_ HT1].
    apply wlp_bind_inv. eapply wlp_mono; [eapply (wait_settled _ vs); [apply wkeep_refl|exact HT1|done]|].
    intros. by apply settled_weaken.
  - eapply wlp_mono; [apply (exit_effect _ _ _ _ _ _ _ _ _ HT)|].
    intros [] s1 (i & v & vs' & [= <-] & _ & Hni & (w & _ & HW) & Hpar & Hv & HT1). apply wlp_ret.
    eapply exit_gone; [done|etransitivity; [apply woken_fmap|exact HW]|done..].
  - eapply wlp_mono; [apply (fork_settled _ _ _ _ _ HT HI)|]; [unfold table in HT; congruence|].
    intros a s1 H1. by apply wlp_ret.
  - eapply wlp_mono; [apply (kill_effect pid _ _ _ _ _ _ HT)|].
    intros a s1 [_ [(_ & HT1 & _)|(_ & i & v & Hv & _ & HT1)]]; apply wlp_ret; [by eapply stays_same|].
    eapply stays_woken; [done| |done]. eapply woken_insert; [done|apply killed_woken].
  - eapply wlp_mono; [apply (wakeup_effect chan _ _ _ _ _ _ HT)|]. intros [] s1 [_ HT1]. apply wlp_ret.
    eapply stays_woken; [done| |done]. apply woken_fmap.
  - eapply wlp_mono; [apply (table_keep _ _ Hok)|]. intros [] s1 E. cbv beta in E. apply wlp_ret.
    apply (stays_same _ _ _ n init); [congruence|done].
Qed.

(** The continuations after a step. *)
Definition conts_ok (vs : list view) (k : gmap nat cont) : Prop :=
  ∀ i v, vs !! i = Some v → waiting v → is_Some (k !! i).
Definition locks_ok (k : gmap nat cont) : Prop :=
  ∀ i lk, k !! i = Some (CSleep lk) → lock_table lk ∧ ∃ acq rel, lk = LkOther acq rel.

Lemma settle_minv b s j k nx m vs0 :
  (∀ v, vs0 !! j = Some v → vst v = RUNNING) → settled b vs0 j nx s → settle j s k nx m → locks_ok k →
  (∀ lk, nx = Switch (Some (CSleep lk)) → lock_table lk ∧ ∃ acq rel, lk = LkOther acq rel) →
  (∀ i v v', vs0 !! i = Some v → (waiting v ∨ (b = true ∧ vst v = UNUSED ∧ vst v' = RUNNABLE)) →
     t_views (table s) !! i = Some v' → is_Some (k !! i)) →
  minv m.
Proof.
  intros Hrun Hs Hm Hlk Hlk' Hk. destruct Hm as [|c s' Hret]; simpl in Hs.
  - destruct Hs as (vs & n & init & HT & HI & HW). split; simpl; [done| |done].
    intros i v' Hv' Hwt. rewrite HT in Hv'. destruct (HW i v' Hv' Hwt) as [?|(v & Hv & Hor)]; [done|].
    apply (Hk i v v'); [done|done|by rewrite HT].
  - destruct Hs as (vs & n & init & HT & HI & HW).
    pose proof (return_effect _ _ _ _ _ _ HT) as HR. unfold wlp in HR. rewrite Hret in HR. split; simpl.
    + by rewrite HR.
    + intros i v' Hv' Hwt. rewrite HR in Hv'. destruct (HW i v' Hv' Hwt) as [Hj|(v & Hv & Hor)].
      * destruct c as [c|]; [|done]. injection Hj as ->. rewrite lookup_partial_alter_eq. eauto.
      * destruct (decide (j = i)) as [->|Hne].
        -- destruct Hor as [[E|E]|[? _]]; [rewrite (Hrun v Hv) in E..|]; done.
        -- rewrite lookup_partial_alter_ne by done. apply (Hk i v v'); [done| |by rewrite HT]. destruct Hor as [?|[? _]]; [by left|done].
    + intros i lk. destruct (decide (j = i)) as [->|Hne]; [rewrite lookup_partial_alter_eq|rewrite lookup_partial_alter_ne by done; apply Hlk].
      intros ->. by apply Hlk'.
Qed.

Lemma run_op_lock o s nx s' lk :
  op_ok o s → run_op o s = Ok nx s' → nx = Switch (Some (CSleep lk)) → lock_table lk ∧ ∃ acq rel, lk = LkOther acq rel.
Proof.
  intros Hok Hrun ->. destruct o as [|chan acq rel| | | |pid|chan|m]; apply bind_inv in Hrun as (a & s1 & _ & Hrun);
    injection Hrun; try done; [|by destruct a]. intros _ <-. split; [exact Hok|eauto].
Qed.

Lemma resume_lock c s nx s' lk : resume c s = Ok nx s' → nx ≠ Switch (Some (CSleep lk)).
Proof.
  intros Hrun ->. destruct c as [| |lk'|]; apply bind_inv in Hrun as (a & s1 & _ & Hrun); injection Hrun; try done.
  by destruct a.
Qed.

Lemma born_views s s' i v v' :
  t_views (table s) !! i = Some v → t_views (table s') !! i = Some v' → vst v = UNUSED → vst v' = RUNNABLE →
  born s s' i = true.
Proof.
  unfold born. cbn. rewrite !list_lookup_fmap. destruct (k_procs s !! i), (k_procs s' !! i); try done.
  cbn. intros [= <-] [= <-] H1 H2. by rewrite !bool_decide_eq_true_2.
Qed.

Lemma mstep_minv m m' : minv m → mstep m m' → minv m'.
Proof.
  intros HI Hstep. destruct Hstep as [s k s' Hr|s i k s' Hr|s i k j c s1 nx s2 m Hp Hk Hr Hm|o s j k nx s' k' m Hj Hok Hr Hb Hm|chan s k s' Hr].
  all: destruct HI as [HT HC HL]; simpl in HT, HC, HL; destruct (table s) as [[[[vs n] init] c0] lk] eqn:ET; cbn in HC.
  - pose proof (acquire_effect _ _ _ _ _ _ ET) as H. unfold wlp in H. rewrite Hr in H. destruct H as [-> H].
    split; simpl; rewrite ?H; [|done|done]. eapply tinv_mild; [exact HT| | |done].
    + apply Forall_Forall2_diag, Forall_true. apply mild_refl.
    + split; [|done]. intros i v Hv Hr'. by destruct (proj1 (ti_run _ _ HT) i v Hv Hr').
  - pose proof (pick_effect i _ _ _ _ _ _ ET) as H. unfold wlp in H. rewrite Hr in H. destruct H as [H _].
    split; simpl; rewrite ?H; [|done|done]. eapply tinv_mild; [exact HT| | |done].
    + apply Forall_Forall2_diag, Forall_true. apply mild_refl.
    + split; [|done]. intros k' v Hv Hr'. by destruct (proj1 (ti_run _ _ HT) k' v Hv Hr').
  - pose proof (pick_effect i _ _ _ _ _ _ ET) as H. unfold wlp in H. rewrite Hp in H. destruct H as (v & _ & Hv & Hst & _ & ET1).
    assert (lk = true) as -> by exact (ti_lock _ _ HT). pose proof (tinv_pick _ _ _ _ _ _ _ HT Hv Hst) as HI1.
    pose proof (resume_settled c _ _ _ _ _ ltac:(intros; eapply HL; by subst) ET1 HI1) as HS. unfold wlp in HS. rewrite Hr in HS.
    eapply settle_minv; [|exact HS|exact Hm|exact HL| |].
    + intros w Hw. by eapply running_cur.
    + intros lk E. by destruct (resume_lock _ _ _ _ lk Hr).
    + intros i' w w' Hw [Hwt|[? _]] _; [|done]. destruct (decide (i' = j)) as [->|Hne]; [eauto|].
      rewrite list_lookup_insert_ne in Hw by done. eauto.
  - assert (lk = false) as -> by exact (ti_lock _ _ HT). assert (c0 = Some j) as -> by (unfold table in ET; congruence).
    pose proof (run_op_settled o _ _ _ _ _ ET HT Hok) as HS. unfold wlp in HS. rewrite Hr in HS.
    eapply settle_minv; [|exact HS|exact Hm| | |].
    + intros w Hw. by eapply running_cur.
    + intros i lk. rewrite Hb. case_match; [done|apply HL].
    + intros lk. by apply (run_op_lock _ _ _ _ _ Hok Hr).
    + intros i v v' Hv Hor Hv'. rewrite Hb. destruct (born s s' i) eqn:Hbn; [eauto|].
      destruct Hor as [Hw|(_ & Hu & Hrn)]; [by eapply HC|]. by rewrite (born_views s s' i v v') in Hbn by (rewrite ?ET; done).
  - pose proof (wakeup_effect chan _ _ _ _ _ _ ET) as H. unfold wlp in H. rewrite Hr in H. destruct H as [-> H].
    split; simpl; rewrite ?H; [|intros i v Hv Hw|done].
    + eapply tinv_woken; [exact HT|apply woken_fmap].
    + cbn in Hv. destruct (wkeep_woken false _ _ _ (woken_fmap init chan vs) i v Hv Hw) as [?|(w & Hw' & [?|[? _]])]; [done| |done].
      eauto.
Qed.

Lemma reach_minv m m' : minv m → rtc mstep m m' → minv m'.
Proof. intros HI Hr. induction Hr; [done|]. eauto using mstep_minv. Qed.

(** C4: Process table safety on one processor.  From a machine whose table is
    in order, after any sequence of steps (scheduler picks and resumptions,
    [yield], [sleep], [wait], [exit], [fork], [kill], [wakeup], other code):
    the only running process is the processor's current one, and there is none
    while the scheduler looks for one; [ptable.lock] is held exactly in the
    scheduler's loop; live processes have distinct positive pids; the parent
    of a process is a live process that has not exited; and every process the
    scheduler can pick has a place to resume at. *)
Theorem sched_safe m m' :
  minv m → rtc mstep m m' →
  let s := m_st m' in
  (∀ i p, k_procs s !! i = Some p → p_state p = RUNNING → m_mode m' = MRun ∧ k_cur s = Some i) ∧
  (k_ptable_lock s = is_sched (m_mode m')) ∧
  (∀ i p, k_procs s !! i = Some p → p_state p ≠ UNUSED → 0 < p_pid p < k_nextpid s) ∧
  (∀ i j p q, k_procs s !! i = Some p → k_procs s !! j = Some q → p_state p ≠ UNUSED → p_state q ≠ UNUSED →
     p_pid p = p_pid q → i = j) ∧
  (∀ i p j, k_procs s !! i = Some p → p_parent p = Some j →
     ∃ q, k_procs s !! j = Some q ∧ p_state q ≠ UNUSED ∧ p_state q ≠ ZOMBIE) ∧
  (∀ i p, k_procs s !! i = Some p → p_state p = RUNNABLE ∨ p_state p = SLEEPING → is_Some (m_cont m' !! i)).
Proof.
  intros HI Hr. destruct (reach_minv _ _ HI Hr) as [[_ Hlk Hrun Hpid Huniq Hpar _] HC _]. simpl.
  assert (∀ i p, k_procs (m_st m') !! i = Some p → t_views (table (m_st m')) !! i = Some (tview p)) as Hv.
  { intros i p Hp. cbn. by rewrite list_lookup_fmap, Hp. }
  split_and!.
  - intros i p Hp Hs. exact (proj1 Hrun i _ (Hv i p Hp) Hs).
  - exact Hlk.
  - intros i p Hp Hs. exact (Hpid i _ (Hv i p Hp) Hs).
  - intros i j p q Hp Hq. exact (Huniq i j _ _ (Hv i p Hp) (Hv j q Hq)).
  - intros i p j Hp Hj. destruct (Hpar i _ j (Hv i p Hp) Hj) as (_ & w & Hw & Hl & Hz). cbn in Hw.
    rewrite list_lookup_fmap in Hw. destruct (k_procs (m_st m') !! j) as [q|]; [|done]. injection Hw as <-. eauto.
  - intros i p Hp Hs. exact (HC i _ (Hv i p Hp) Hs).
Qed.

(** ** Boot *)

Definition boot_table : tab := (replicate (Z.to_nat NPROC) (UNUSED, 0, None, 0), 1, None, None, false).

Lemma boot_tinv i :
  (i < Z.to_nat NPROC)%nat → tinv MIdle (<[i := (RUNNABLE, 1, None, 0)]> (t_views boot_table), 2, Some i, None, false).
Proof.
  intros Hi. assert (length (t_views boot_table) = Z.to_nat NPROC) as Hlen by apply length_replicate.
  assert (∀ j v, <[i := (RUNNABLE, 1, None, 0) : view]> (t_views boot_table) !! j = Some v →
    (j = i ∧ v = (RUNNABLE, 1, None, 0)) ∨ v = (UNUSED, 0, None, 0)) as Hall.
  { intros j v [?|[_ Hv]]%insert_lookup; [by left|right|by rewrite Hlen]. by apply lookup_replicate in Hv as [-> _]. }
  split; cbn [t_views t_next t_init t_cur t_lock fst snd].
  - by rewrite length_insert.
  - done.
  - split; [|done]. by intros j v [[_ ->]| -> ]%Hall.
  - intros j v [[-> ->]| -> ]%Hall Hl; [cbn; lia|done].
  - intros j k v w [[-> ->]| -> ]%Hall [[-> ->]| -> ]%Hall; done.
  - by intros j v k [[_ ->]| -> ]%Hall.
  - eexists i, _. split_and!; [done|by apply list_lookup_insert_eq; rewrite Hlen|done|done].
Qed.

Lemma boot_minv s i :
  (i < Z.to_nat NPROC)%nat →
  table s = (<[i := (RUNNABLE, 1, None, 0)]> (t_views boot_table), 2, Some i, None, false) →
  ∃ i, k_initproc s = Some i ∧ minv (Mach s MIdle {[i := CForkret]}) ∧
    ∃ p, k_procs s !! i = Some p ∧ p_state p = RUNNABLE ∧ p_pid p = 1 ∧ p_parent p = None.
Proof.
  intros Hi HT. exists i. split; [unfold table in HT; congruence|]. split.
  - split; cbn [m_st m_mode m_cont]; rewrite ?HT.
    + by apply boot_tinv.
    + cbn. intros j v Hv Hw. apply insert_lookup in Hv as [[-> _]|[_ Hv]]; [rewrite lookup_singleton_eq; eauto| |].
      * apply lookup_replicate in Hv as [-> _]. by destruct Hw.
      * by rewrite length_replicate.
    + intros j lk [_ ?]%lookup_singleton_Some. done.
  - assert (t_views (table s) !! i = Some (RUNNABLE, 1, None, 0)) as Hv.
    { rewrite HT. cbn. apply list_lookup_insert_eq. by rewrite length_replicate. }
    cbn in Hv. rewrite list_lookup_fmap in Hv. destruct (k_procs s !! i) as [p|]; [|done]. injection Hv as H1 H2 H3 _. eauto.
Qed.

(** [userinit] leaves the table in order: started on the empty process
    table it makes the first process, with pid 1 and no parent, runnable at
    [forkret], so that the machine [scheduler] starts from satisfies the
    invariant. *)
Lemma userinit_starts s :
  table s = boot_table →
  wlp (userinit SEL kend kdata forkret_addr trapret_addr initcode_start initcode_size)
    (λ _ s', ∃ i, k_initproc s' = Some i ∧ minv (Mach s' MIdle {[i := CForkret]}) ∧
       ∃ p, k_procs s' !! i = Some p ∧ p_state p = RUNNABLE ∧ p_pid p = 1 ∧ p_parent p = None) s.
Proof.
  intros HT. unfold userinit. apply wlp_bind. eapply wlp_mono; [apply allocproc_effect|]. intros [i|] s1 [_ H1].
  2: { apply wlp_bind, wlp_modify. by apply wlp_bind, wlp_of_option. }
  destruct H1 as (p & Hp & Hst & H1). pose proof (table_lookup _ _ _ _ _ _ _ _ HT Hp) as Hv.
  apply lookup_replicate in Hv as [Hv Hi]. unfold tview in Hv. injection Hv as _ _ Hpar Hchan.
  unfold table in HT. injection HT as E1 E2 E3 E4 E5. unfold tset in H1. rewrite E1, E2, E4, Hpar, Hchan in H1.
  apply wlp_bind, wlp_modify. apply wlp_bind, wlp_of_option. intros i' [= <-].
  set (s2 := s1 <| k_initproc := Some i |>).
  assert (table s2 = (<[i := (EMBRYO, 1, None, 0)]> (t_views boot_table), 2, Some i, None, false)) as H2.
  { unfold table in *. cbn in *. injection H1 as -> -> _ -> ->. done. }
  clearbody s2. clear H1. do 2 tpass H2. case_match; [done|]. tpass H2.
  eapply wlp_seq; [apply (modp_effect i _ _ _ _ _ _ _ id H2); done|]. clear H2. intros _ r1 (v & Hv & H2).
  rewrite list_insert_id in H2 by done. do 2 tpass H2.
  eapply wlp_seq; [apply (acquire_effect _ _ _ _ _ _ H2)|]. clear H2. intros _ r2 [_ H2].
  eapply wlp_seq; [apply (modp_effect i _ _ _ _ _ _ _ (λ v, (RUNNABLE, vpid v, vpar v, vchan v)) H2); done|].
  clear H2. intros _ r3 (w & Hw & H2). eapply wlp_mono; [apply (release_effect _ _ _ _ _ _ H2)|]. clear H2. intros [] r4 H4.
  rewrite list_lookup_insert_eq in Hw by (by unfold boot_table; cbn; rewrite length_replicate). injection Hw as <-.
  rewrite list_insert_insert_eq in H4. cbn [vpid vpar vchan fst snd] in H4. by apply (boot_minv _ i).
Qed.
End machine.

(** ** Runs *)
Module SchedExamples.
Import PagingExamples.

Abbreviation machine := (@mach ifs).

(** The table after boot: process 0 is ready to start. *)
Definition p_init : proc := proc0 <| p_state := RUNNABLE |> <| p_pid := 1 |> <| p_kstack := 0x80400000 |> <| p_pgdir := 0x80401000 |>.
Definition s_boot : kst ifs :=
  (kst0 (Ifs 0 ∅ ∅)) <| k_procs := p_init :: replicate 63 proc0 |> <| k_nextpid := 2 |> <| k_initproc := Some O |>.
Definition m_boot : machine := Mach s_boot MIdle {[O := CForkret]}.

Lemma s_boot_table : table s_boot = (<[O := (RUNNABLE, 1, None, 0)]> (t_views boot_table), 2, Some O, None, false).
Proof. vm_compute. reflexivity. Qed.

Definition run {A} (m : M (kst ifs) A) (s : kst ifs) : kst ifs := match m s with Ok _ s => s | _ => s end.
Definition s_sched := run (acquire k_ptable_lock) s_boot.
Definition s_picked := run (scheduler_pick 0) s_sched.
Definition s_user := run forkret s_picked.
Definition s_yield := run (yield_enter SCFIFO) s_user.
Definition s_back := run scheduler_return s_yield.

Lemma no_births : births s_user s_yield {[O := CForkret]} {[O := CForkret]}.
Proof.
  intros i. destruct (decide (i < 64)%nat) as [Hi|Hi].
  - assert (forallb (λ i, negb (born s_user s_yield i)) (seq 0 64) = true) as H by (vm_compute; reflexivity).
    rewrite forallb_forall in H. specialize (H i ltac:(apply in_seq; lia)). apply negb_true_iff in H. by rewrite H.
  - unfold born. rewrite (lookup_ge_None_2 (k_procs s_user)); [done|]. change (length (k_procs s_user)) with 64%nat. lia.
Qed.

(** The first process starts and yields. *)
Definition m_back : machine := Mach s_back (MSched 1) {[O := CYield]}.

Lemma sched_safe_witness :
  rtc (mstep SCFIFO false 0x80115000 0x80108000 0 0 0 0) m_boot m_back ∧ k_ptable_lock (m_st m_back) = true.
Proof.
  assert (rtc (mstep SCFIFO false 0x80115000 0x80108000 0 0 0 0) m_boot m_back) as Hrun.
  { eapply rtc_l; [apply (st_lock _ _ _ _ _ _ _ _ s_boot _ s_sched); vm_compute; reflexivity|].
    eapply rtc_l; [apply (st_pick _ _ _ _ _ _ _ _ s_sched 0 _ 0 CForkret s_picked Stay s_user)|].
    - vm_compute. reflexivity.
    - vm_compute. reflexivity.
    - vm_compute. reflexivity.
    - apply settle_stay.
    - apply rtc_once. apply (st_op _ _ _ _ _ _ _ _ OYield s_user 0 _ (Switch (Some CYield)) s_yield {[O := CForkret]}).
      + vm_compute. reflexivity.
      + exact I.
      + vm_compute. reflexivity.
      + apply no_births.
      + replace m_back with (Mach s_back (MSched 1) (partial_alter (λ _, Some CYield) O {[O := CForkret]} : gmap nat (@cont ifs))) by (vm_compute; reflexivity).
        apply settle_switch. vm_compute. reflexivity. }
  split; [exact Hrun|].
  destruct (sched_safe SCFIFO false 0x80115000 0x80108000 0 0 0 0 m_boot m_back) as (_ & H & _).
  - destruct (boot_minv s_boot 0) as (i & Hi & HI & _); [vm_compute; lia|apply s_boot_table|].
    assert (i = O) as -> by (vm_compute in Hi; congruence). exact HI.
  - exact Hrun.
  - exact H.
Defined.

(** A table whose second slot is free, and one page for a kernel stack. *)
Definition s_free : kst ifs := s_boot <| k_freelist := 0x80500000 |>.
Definition s_killed : kst ifs := run (kill 0) s_free.

(** [kill(0)] succeeds although no process has pid 0: the scan compares
    pids without looking at the state, so it marks the first unused slot as
    killed, and the next process that [allocproc] puts there is born killed
    (the flag is cleared only by [wait]). *)
Theorem kill_zero_born_killed :
  (∀ i p, k_procs s_free !! i = Some p → p_state p ≠ UNUSED → p_pid p ≠ 0) ∧
  kill 0 s_free = Ok 0 s_killed ∧
  ∃ s' p, allocproc SCFIFO 0 0 s_killed = Ok (Some 1%nat) s' ∧ k_procs s' !! 1%nat = Some p ∧
    p_state p = EMBRYO ∧ p_killed p = true.
Proof.
  split_and!.
  - intros [|i] p; [by intros [= <-] _|]. intros H. assert (replicate 63 proc0 !! i = Some p) as Hp by exact H.
    apply lookup_replicate in Hp as [-> _]. done.
  - vm_compute. reflexivity.
  - eexists _, _. split_and!; [vm_compute; reflexivity|vm_compute; reflexivity|reflexivity|reflexivity].
Qed.
End SchedExamples.
