(* ===== verification/Disk.v ===== *)
(** The state of the file system, the disk driver ([src/ide.c]) and the
    buffer cache ([src/bio.c]).

    One thread of control runs a file system call; where the code would
    sleep, the call stops with [Blocked].  The disk interrupt comes when the
    driver waits for it.  Writes that have reached the disk are recorded in
    [d_writes], so that the state of the disk after a crash can be
    reconstructed. *)

From S2P Require Import Prelude Memory Machine.
From stdpp Require Import options.

(** ** Blocks of bytes *)

Definition BSIZE := 512.
Definition FSSIZE := 1000.
Definition MAXOPBLOCKS := 10.
Definition LOGSIZE := MAXOPBLOCKS * 3.
Definition NBUF := MAXOPBLOCKS * 3.
Definition NINODE := 50.
Definition NFILE := 100.
Definition NDEV := 10.
Definition ROOTDEV := 1.
Definition ROOTINO := 1.
Definition NDIRECT := 12.
Definition NINDIRECT := BSIZE / 4.
Definition MAXFILE := NDIRECT + NINDIRECT.
Definition PIPESIZE := 512.

Definition zero_block : list Z := replicate (Z.to_nat BSIZE) 0.

(** Fields of a structure laid over the bytes of a block. *)
Definition rd8 (l : list Z) (o : Z) : Z := default 0 (aget l o).
Definition rd16 (l : list Z) (o : Z) : Z := rd8 l o + 2 ^ 8 * rd8 l (o + 1).
Definition rd32 (l : list Z) (o : Z) : Z :=
  rd8 l o + 2 ^ 8 * rd8 l (o + 1) + 2 ^ 16 * rd8 l (o + 2) + 2 ^ 24 * rd8 l (o + 3).
Definition wr8 (l : list Z) (o v : Z) : list Z := aset l o (u8 v).
Definition wr16 (l : list Z) (o v : Z) : list Z := wr8 (wr8 l o v) (o + 1) (v / 2 ^ 8).
Definition wr32 (l : list Z) (o v : Z) : list Z :=
  wr8 (wr8 (wr8 (wr8 l o v) (o + 1) (v / 2 ^ 8)) (o + 2) (v / 2 ^ 16)) (o + 3) (v / 2 ^ 24).
(** [memmove(l + o, bs, sizeof bs)] *)
Definition splice (l : list Z) (o : Z) (bs : list Z) : list Z :=
  take (Z.to_nat o) l ++ bs ++ drop (Z.to_nat o + length bs) l.
(** The [n] bytes at [l + o]. *)
Definition slice (l : list Z) (o n : Z) : list Z := take (Z.to_nat n) (drop (Z.to_nat o) l).

(** Conversion to a [short]. *)
Definition s16 (z : Z) : Z := let w := u16 z in if w <? 2 ^ 15 then w else w - 2 ^ 16.

(** ** State *)

Record superblock := Superblock {
  sb_size : Z; sb_nblocks : Z; sb_ninodes : Z; sb_nlog : Z; sb_logstart : Z; sb_inodestart : Z; sb_bmapstart : Z;
}.

(** [struct buf]; [flags] is [b_valid] and [b_dirty], the sleep lock its
    [locked].  The links of the LRU list are in [d_lru]. *)
Record buf := Buf {
  b_valid : bool; b_dirty : bool; b_dev : Z; b_blockno : Z; b_locked : bool; b_refcnt : Z; b_data : list Z;
}.
#[global] Instance eta_buf : Eta buf := λ b,
  Buf (b_valid b) (b_dirty b) (b_dev b) (b_blockno b) (b_locked b) (b_refcnt b) (b_data b).

Record logstate := Log {
  lg_start : Z; lg_size : Z; lg_outstanding : Z; lg_committing : bool; lg_dev : Z;
  lh_n : Z; lh_block : list Z;
}.
#[global] Instance eta_logstate : Eta logstate := λ l,
  Log (lg_start l) (lg_size l) (lg_outstanding l) (lg_committing l) (lg_dev l) (lh_n l) (lh_block l).

Record inode := Inode {
  i_dev : Z; i_inum : Z; i_ref : Z; i_locked : bool; i_valid : bool;
  i_type : Z; i_major : Z; i_minor : Z; i_nlink : Z; i_size : Z; i_addrs : list Z;
}.
#[global] Instance eta_inode : Eta inode := λ i,
  Inode (i_dev i) (i_inum i) (i_ref i) (i_locked i) (i_valid i) (i_type i) (i_major i) (i_minor i)
    (i_nlink i) (i_size i) (i_addrs i).

Inductive filetype := FD_NONE | FD_PIPE | FD_INODE.
#[global] Instance filetype_eq : EqDecision filetype.
Proof. solve_decision. Defined.

Record file := File {
  f_type : filetype; f_ref : Z; f_readable : Z; f_writable : Z; f_pipe : Z; f_ip : option nat; f_off : Z;
}.
#[global] Instance eta_file : Eta file := λ f,
  File (f_type f) (f_ref f) (f_readable f) (f_writable f) (f_pipe f) (f_ip f) (f_off f).

Record pipe := Pipe {
  pi_lock : bool; pi_data : list Z; pi_nread : Z; pi_nwrite : Z; pi_readopen : bool; pi_writeopen : bool;
}.
#[global] Instance eta_pipe : Eta pipe := λ p,
  Pipe (pi_lock p) (pi_data p) (pi_nread p) (pi_nwrite p) (pi_readopen p) (pi_writeopen p).

(** What a sleeping process waits for. *)
Inductive channel := ChLog | ChBuf (i : nat) | ChInode (i : nat) | ChBufIO (i : nat) | ChPipeRead (p : Z) | ChPipeWrite (p : Z).

Record fsys := Fsys {
  d_blocks : gmap (Z * Z) (list Z);          (* the disks *)
  d_writes : list (Z * Z * list Z);          (* writes that reached them, latest first *)
  d_havedisk1 : bool;
  d_idelock : bool;
  d_idequeue : list nat;
  d_bcache_lock : bool;
  d_bufs : list buf;                         (* bcache.buf *)
  d_lru : list nat;                          (* bcache.head.next, ... *)
  d_log_lock : bool;
  d_log : logstate;
  d_sb : superblock;
  d_icache_lock : bool;
  d_inodes : list inode;
  d_ftable_lock : bool;
  d_files : list file;
  d_pipes : gmap Z pipe;
  d_kfreed : list Z;                         (* pages passed to kfree() *)
  d_woken : list channel;                    (* wakeup calls, latest first *)
  d_out : list (string * list farg);         (* cprintf calls, latest first *)
}.
#[global] Instance eta_fsys : Eta fsys := λ s,
  Fsys (d_blocks s) (d_writes s) (d_havedisk1 s) (d_idelock s) (d_idequeue s) (d_bcache_lock s) (d_bufs s)
    (d_lru s) (d_log_lock s) (d_log s) (d_sb s) (d_icache_lock s) (d_inodes s) (d_ftable_lock s) (d_files s)
    (d_pipes s) (d_kfreed s) (d_woken s) (d_out s).

Implicit Types s : fsys.

(** The number the model gives to a channel. *)
Definition chan_id (c : channel) : Z :=
  match c with
  | ChLog => 1 | ChBuf i => 1000 + Z.of_nat i | ChInode i => 2000 + Z.of_nat i | ChBufIO i => 3000 + Z.of_nat i
  | ChPipeRead p => p + 512 | ChPipeWrite p => p + 516
  end.

Definition wakeup_on (c : channel) : M fsys unit := modify (λ s, s <| d_woken ::= cons c |>).
Definition sleep_on {A} (c : channel) : M fsys A := block (chan_id c).

(** ** Block device *)

Definition getbuf (i : nat) : M fsys buf := bs <- gets d_bufs ;; of_option "buffer" (bs !! i).
Definition modbuf (i : nat) (f : buf → buf) : M fsys unit :=
  b <- getbuf i ;; modify (λ s, s <| d_bufs ::= <[i := f b]> |>).

Definition block_at (m : gmap (Z * Z) (list Z)) (k : Z * Z) : list Z := default zero_block (m !! k).
(** The disk and sector a request for [b] goes to. *)
Definition disk_key (b : buf) : Z * Z := (Z.land (b_dev b) 1, b_blockno b).

Definition idestart (bi : option nat) : M fsys unit :=
  match bi with
  | None => panic "idestart"
  | Some i =>
      b <- getbuf i ;;
      if FSSIZE <=? b_blockno b then panic "incorrect blockno" else
      if b_dirty b then
        modify (λ s, s <| d_blocks ::= <[disk_key b := b_data b]> |> <| d_writes ::= cons (disk_key b, b_data b) |>)
      else skip
  end.

(** The interrupt that ends the active request; the disk reports no errors. *)
Definition ideintr : M fsys unit :=
  acquire d_idelock ;;
  q <- gets d_idequeue ;;
  match q with
  | [] => release d_idelock
  | i :: q =>
      modify (λ s, s <| d_idequeue := q |>) ;;
      b <- getbuf i ;;
      disk <- gets d_blocks ;;
      modbuf i (λ b, (if b_dirty b then b else b <| b_data := block_at disk (disk_key b) |>)
                       <| b_valid := true |> <| b_dirty := false |>) ;;
      wakeup_on (ChBufIO i) ;;
      (match q with [] => skip | j :: _ => idestart (Some j) end) ;;
      release d_idelock
  end.

(** [while((b->flags & (B_VALID|B_DIRTY)) != B_VALID) sleep(b, &idelock);] *)
Definition ide_wait (fuel : nat) (i : nat) : M fsys unit :=
  loop fuel (λ _ : unit,
    b <- getbuf i ;;
    if b_valid b && negb (b_dirty b) then ret (inr tt)
    else release d_idelock ;; ideintr ;; acquire d_idelock ;; ret (inl tt)) tt.

Definition iderw (i : nat) : M fsys unit :=
  b <- getbuf i ;;
  if negb (b_locked b) then panic "iderw: buf not locked" else
  if b_valid b && negb (b_dirty b) then panic "iderw: nothing to do" else
  have <- gets d_havedisk1 ;;
  if negb (b_dev b =? 0) && negb have then panic "iderw: ide disk 1 not present" else
  acquire d_idelock ;;
  q <- gets d_idequeue ;;
  modify (λ s, s <| d_idequeue := q ++ [i] |>) ;;
  (if bool_decide (head (q ++ [i]) = Some i) then idestart (Some i) else skip) ;;
  ide_wait (S (S (length q))) i ;;
  release d_idelock.

(** ** Buffer cache *)

Definition acquire_buf (i : nat) : M fsys unit :=
  b <- getbuf i ;;
  if b_locked b then sleep_on (ChBuf i) else modbuf i (λ b, b <| b_locked := true |>).
Definition release_buf (i : nat) : M fsys unit :=
  modbuf i (λ b, b <| b_locked := false |>) ;; wakeup_on (ChBuf i).

Definition buf0 : buf := Buf false false 0 0 false 0 zero_block.

Definition binit : M fsys unit :=
  modify (λ s, s <| d_bcache_lock := false |> <| d_lru := [] |>) ;;
  for_all (Z.to_nat NBUF) 0 (λ i,
    modbuf (Z.to_nat i) (λ b, b <| b_locked := false |>) ;;
    modify (λ s, s <| d_lru ::= cons (Z.to_nat i) |>)).

(** The first buffer of the list [l] that satisfies [f]. *)
Fixpoint find_buf (f : buf → bool) (bs : list buf) (l : list nat) : option nat :=
  match l with
  | [] => None
  | i :: l => match bs !! i with
              | Some b => if f b then Some i else find_buf f bs l
              | None => find_buf f bs l
              end
  end.

Definition bget (dev blockno : Z) : M fsys nat :=
  acquire d_bcache_lock ;;
  bs <- gets d_bufs ;;
  lru <- gets d_lru ;;
  match find_buf (λ b, (b_dev b =? dev) && (b_blockno b =? blockno)) bs lru with
  | Some i =>
      modbuf i (λ b, b <| b_refcnt ::= λ n, n + 1 |>) ;;
      release d_bcache_lock ;;
      acquire_buf i ;;
      ret i
  | None =>
      match find_buf (λ b, (b_refcnt b =? 0) && negb (b_dirty b)) bs (rev lru) with
      | Some i =>
          modbuf i (λ b, b <| b_dev := dev |> <| b_blockno := blockno |>
                           <| b_valid := false |> <| b_dirty := false |> <| b_refcnt := 1 |>) ;;
          release d_bcache_lock ;;
          acquire_buf i ;;
          ret i
      | None => panic "bget: no buffers"
      end
  end.

Definition bread (dev blockno : Z) : M fsys nat :=
  i <- bget dev blockno ;;
  b <- getbuf i ;;
  (if b_valid b then skip else iderw i) ;;
  ret i.

Definition bwrite (i : nat) : M fsys unit :=
  b <- getbuf i ;;
  if negb (b_locked b) then panic "bwrite" else
  modbuf i (λ b, b <| b_dirty := true |>) ;;
  iderw i.

Definition brelse (i : nat) : M fsys unit :=
  b <- getbuf i ;;
  if negb (b_locked b) then panic "brelse" else
  release_buf i ;;
  acquire d_bcache_lock ;;
  modbuf i (λ b, b <| b_refcnt ::= λ n, n - 1 |>) ;;
  b <- getbuf i ;;
  (if b_refcnt b =? 0 then modify (λ s, s <| d_lru ::= λ l, i :: filter (λ j, j ≠ i) l |>) else skip) ;;
  release d_bcache_lock.

(** Contents of a buffer. *)
Definition bdata (i : nat) : M fsys (list Z) := b <- getbuf i ;; ret (b_data b).
Definition set_bdata (i : nat) (f : list Z → list Z) : M fsys unit := modbuf i (λ b, b <| b_data ::= f |>).
