(* ===== verification/Bio.v ===== *)
(** What the buffer cache promises.

    [view s] is the contents of the blocks of the root disk as the file system
    sees them: the cached copy if there is one, else the block on disk.
    [bread] returns a locked buffer with the block's view, [bwrite] makes the
    disk agree with it, [brelse] gives it back; none of them changes the view
    of any other block.  [cache_ok] is the invariant behind this: at most one
    buffer per block, and every buffer that is neither dirty nor in use agrees
    with the disk. *)

From S2P Require Import Prelude Memory Machine Disk.
From stdpp Require Import options.
Implicit Types s : fsys.
Implicit Types b : buf.

Lemma cnt_insert {A} (f : A → bool) (l : list A) (i : nat) x y :
  l !! i = Some x → cnt f (<[i := y]> l) = cnt f l - (if f x then 1 else 0) + (if f y then 1 else 0).
Proof.
  intros Hx. pose proof (cnt_aset f l (Z.of_nat i) x y) as H. rewrite aget_nat in H. specialize (H Hx).
  unfold aset in H. destruct (Z.ltb_spec (Z.of_nat i) 0); [lia|]. by rewrite Nat2Z.id in H.
Qed.

Lemma cnt_pos_ex {A} (f : A → bool) (l : list A) : 0 < cnt f l → ∃ i x, l !! i = Some x ∧ f x = true.
Proof.
  induction l as [|x l IH]; simpl; [lia|]. destruct (f x) eqn:E; [by exists O, x|].
  intros H. destruct IH as (i & y & ? & ?); [lia|]. by exists (S i), y.
Qed.

(** ** Views *)

Definition on_disk s (bn : Z) : list Z := block_at (d_blocks s) (1, bn).
Definition has_key b (bn : Z) : Prop := b_dev b = 1 ∧ b_blockno b = bn.
#[global] Instance has_key_dec b bn : Decision (has_key b bn).
Proof. apply _. Defined.

Fixpoint find_key (bs : list buf) (bn : Z) : option buf :=
  match bs with
  | [] => None
  | b :: bs => if decide (has_key b bn) then Some b else find_key bs bn
  end.

Definition view s (bn : Z) : list Z :=
  match find_key (d_bufs s) bn with
  | Some b => if b_valid b then b_data b else on_disk s bn
  | None => on_disk s bn
  end.

(** A block in the cache that is newer than the disk. *)
Definition dirty s (bn : Z) : Prop := ∃ i b, d_bufs s !! i = Some b ∧ has_key b bn ∧ b_dirty b = true.

(** Buffers that can be recycled. *)
Definition recyclable b : bool := (b_refcnt b =? 0) && negb (b_dirty b).
Definition nfree s : Z := cnt recyclable (d_bufs s).

(** ** The invariant *)

Record buf_ok s b : Prop := {
  bo_data : length (b_data b) = Z.to_nat BSIZE;
  bo_ref : b_refcnt b = if b_locked b then 1 else 0;
  bo_dev : (b_dev b = 1 ∧ 0 ≤ b_blockno b < FSSIZE) ∨
           (b_dev b = 0 ∧ b_valid b = false ∧ b_dirty b = false ∧ b_locked b = false);
  bo_dirty : b_dirty b = true → b_valid b = true;
  bo_clean : b_valid b = true → b_dirty b = false → b_locked b = false → b_data b = on_disk s (b_blockno b);
}.

Record cache_ok s : Prop := {
  co_len : length (d_bufs s) = Z.to_nat NBUF;
  co_lru : d_lru s ≡ₚ seq 0 (Z.to_nat NBUF);
  co_bufs i b : d_bufs s !! i = Some b → buf_ok s b;
  co_uniq i j b c bn : d_bufs s !! i = Some b → d_bufs s !! j = Some c → has_key b bn → has_key c bn → i = j;
  co_disk k v : d_blocks s !! k = Some v → length v = Z.to_nat BSIZE;
  co_locks : d_idelock s = false ∧ d_bcache_lock s = false;
  co_queue : d_idequeue s = [];
  co_have : d_havedisk1 s = true;
}.

Lemma length_on_disk s bn : cache_ok s → length (on_disk s bn) = Z.to_nat BSIZE.
Proof.
  intros H. unfold on_disk, block_at. destruct (d_blocks s !! (1, bn)) eqn:E; [by eapply co_disk|apply length_replicate].
Qed.

Lemma find_key_Some bs bn b : find_key bs bn = Some b → ∃ i, bs !! i = Some b ∧ has_key b bn.
Proof.
  induction bs as [|c bs IH]; simpl; [done|]. case_decide; [intros [= <-]; by exists O|].
  intros H1. destruct (IH H1) as (i & ? & ?). by exists (S i).
Qed.

Lemma find_key_None bs bn : find_key bs bn = None → ∀ i b, bs !! i = Some b → ¬ has_key b bn.
Proof.
  induction bs as [|c bs IH]; simpl; [done|]. case_decide; [done|]. intros H1 [|i] b; simpl; [by intros [= <-]|by apply IH].
Qed.

Lemma find_key_uniq s i b bn : cache_ok s → d_bufs s !! i = Some b → has_key b bn → find_key (d_bufs s) bn = Some b.
Proof.
  intros Hok Hb Hk. destruct (find_key (d_bufs s) bn) as [c|] eqn:E.
  - apply find_key_Some in E as (j & Hj & Hkc). assert (i = j) as -> by by eapply co_uniq. congruence.
  - by destruct (find_key_None _ _ E i b).
Qed.

Lemma view_cached s i b bn : cache_ok s → d_bufs s !! i = Some b → has_key b bn → b_valid b = true → view s bn = b_data b.
Proof. intros Hok Hb Hk Hv. unfold view. by rewrite (find_key_uniq s i b bn), Hv. Qed.

Lemma view_uncached s bn :
  (∀ i b, d_bufs s !! i = Some b → has_key b bn → b_valid b = false) → view s bn = on_disk s bn.
Proof.
  intros H. unfold view. destruct (find_key _ _) as [b|] eqn:E; [|done].
  apply find_key_Some in E as (i & Hi & Hk). by rewrite (H i b).
Qed.

(** The view of a block that no buffer in use and no dirty buffer holds. *)
Lemma view_clean s bn :
  cache_ok s → (∀ i b, d_bufs s !! i = Some b → has_key b bn → b_dirty b = false ∧ b_locked b = false) →
  view s bn = on_disk s bn.
Proof.
  intros Hok H. unfold view. destruct (find_key _ _) as [b|] eqn:E; [|done].
  apply find_key_Some in E as (i & Hi & Hk). destruct (H i b Hi Hk). destruct (b_valid b) eqn:Hv; [|done].
  rewrite (bo_clean s b); [by destruct Hk as [_ ->]|by eapply co_bufs|done..].
Qed.

(** ** Changing one buffer *)

(** The rest of the state, which the cache does not touch. *)
Record same_rest s s' : Prop := {
  sr_log : d_log s' = d_log s;
  sr_loglock : d_log_lock s' = d_log_lock s;
  sr_sb : d_sb s' = d_sb s;
  sr_icache : d_icache_lock s' = d_icache_lock s;
  sr_inodes : d_inodes s' = d_inodes s;
  sr_ftable : d_ftable_lock s' = d_ftable_lock s;
  sr_files : d_files s' = d_files s;
  sr_pipes : d_pipes s' = d_pipes s;
}.
#[global] Instance same_rest_pre : PreOrder same_rest.
Proof. split; [done|]. intros x y z [] []. split; congruence. Qed.

(** Buffer [i] becomes [b'], which has the same block, or a block that was not
    cached in place of one that could be recycled. *)
Lemma cache_insert s s' i b b' :
  cache_ok s → d_bufs s !! i = Some b → d_bufs s' = <[i := b']> (d_bufs s) → buf_ok s' b' →
  d_lru s' ≡ₚ d_lru s →
  (∀ bn, bn ≠ b_blockno b' ∨ b_dev b' ≠ 1 → on_disk s' bn = on_disk s bn) →
  (∀ k v, d_blocks s' !! k = Some v → length v = Z.to_nat BSIZE) →
  (∀ j c bn, d_bufs s !! j = Some c → j ≠ i → has_key b' bn → ¬ has_key c bn) →
  d_idelock s' = false → d_bcache_lock s' = false → d_idequeue s' = [] → d_havedisk1 s' = d_havedisk1 s →
  cache_ok s'.
Proof.
  intros [Hlen Hlru Hbufs Huniq Hdisk Hl Hq Hh] Hb Hbs Hb' Hlru' Hod Hdisk' Hfresh H1 H2 H3 H4.
  assert (i < length (d_bufs s))%nat as Hi by (by eapply lookup_lt_Some).
  assert (∀ j c, d_bufs s' !! j = Some c → (j = i ∧ c = b') ∨ (j ≠ i ∧ d_bufs s !! j = Some c)) as Hcase.
  { intros j c. rewrite Hbs. destruct (decide (i = j)) as [->|]; [rewrite list_lookup_insert_eq by done; intros [= <-]; by left|].
    rewrite list_lookup_insert_ne by done. right. by split. }
  split; [by rewrite Hbs, length_insert|by rewrite Hlru'| | |done|done|done|congruence].
  - intros j c [[-> ->]|[Hne Hc]]%Hcase; [done|]. destruct (Hbufs j c Hc) as [X1 X2 X3 X4 X5]. split; try done.
    intros V D L. rewrite (X5 V D L). destruct X3 as [[Xd Xb]|(_ & E & _)]; [|congruence]. symmetry. apply Hod.
    destruct (decide (b_dev b' = 1)) as [Ed|]; [left|by right]. intros En. by apply (Hfresh j c (b_blockno b') Hc Hne).
  - intros j k c d bn [[-> ->]|[Hne Hc]]%Hcase [[-> ->]|[Hne' Hd]]%Hcase Hkc Hkd; [done| | |by eapply Huniq].
    + by destruct (Hfresh k d bn Hd Hne').
    + by destruct (Hfresh j c bn Hc Hne).
Qed.

(** ** The driver *)

Lemma wp_getbuf i b (Q : buf → fsys → Prop) s : d_bufs s !! i = Some b → Q b s → wp (getbuf i) Q s.
Proof. intros Hb HQ. unfold getbuf. apply wp_bind, wp_gets. by eapply wp_of_option. Qed.
Lemma wp_modbuf i f b (Q : unit → fsys → Prop) s :
  d_bufs s !! i = Some b → Q tt (s <| d_bufs ::= <[i := f b]> |>) → wp (modbuf i f) Q s.
Proof. intros Hb HQ. unfold modbuf. apply wp_bind. eapply wp_getbuf; [done|]. by apply wp_modify. Qed.

Lemma lookup_insert_self {A} (l : list A) (i : nat) x y : l !! i = Some x → <[i := y]> l !! i = Some y.
Proof. intros H. apply list_lookup_insert_eq. by eapply lookup_lt_Some. Qed.

(** The disk is idle. *)
Definition ide_idle s : Prop := d_idelock s = false ∧ d_idequeue s = [] ∧ d_havedisk1 s = true.

Lemma iderw_eq i b s :
  ide_idle s → d_bufs s !! i = Some b → b_locked b = true → b_dev b = 1 → b_blockno b < FSSIZE →
  b_valid b && negb (b_dirty b) = false →
  iderw i s = Ok tt
    (s <| d_blocks ::= (if b_dirty b then <[(1, b_blockno b) := b_data b]> else id) |>
       <| d_writes ::= (if b_dirty b then cons (1, b_blockno b, b_data b) else id) |>
       <| d_bufs ::= <[i := (if b_dirty b then b else b <| b_data := on_disk s (b_blockno b) |>)
                              <| b_valid := true |> <| b_dirty := false |>]> |>
       <| d_woken ::= cons (ChBufIO i) |>).
Proof.
  intros (Hl & Hq & Hh) Hb Hlk Hdev Hbn Hfl. assert (disk_key b = (1, b_blockno b)) as Hk by (unfold disk_key; by rewrite Hdev).
  assert (wp (iderw i) (λ _ s', s' = (s <| d_blocks ::= (if b_dirty b then <[(1, b_blockno b) := b_data b]> else id) |>
       <| d_writes ::= (if b_dirty b then cons (1, b_blockno b, b_data b) else id) |>
       <| d_bufs ::= <[i := (if b_dirty b then b else b <| b_data := on_disk s (b_blockno b) |>)
                              <| b_valid := true |> <| b_dirty := false |>]> |>
       <| d_woken ::= cons (ChBufIO i) |>)) s) as H.
  2: { destruct (proj1 (wp_ok _ _ _) H) as ([] & s' & E & ->). exact E. }
  unfold iderw. apply wp_bind. eapply wp_getbuf; [done|]. rewrite Hlk. simpl. rewrite Hfl. apply wp_bind, wp_gets.
  rewrite Hdev, Hh. simpl. apply wp_bind, wp_acquire; [done|]. apply wp_bind, wp_gets. simpl. rewrite Hq. simpl.
  apply wp_bind, wp_modify. apply wp_bind. rewrite bool_decide_eq_true_2 by done. unfold idestart.
  apply wp_bind. eapply wp_getbuf; [done|]. destruct (Z.leb_spec FSSIZE (b_blockno b)); [lia|]. rewrite Hk.
  set (Q := λ (_ : unit) s', s' = _).
  assert (∀ s1, d_idelock s1 = true → d_idequeue s1 = [i] → d_bufs s1 !! i = Some b →
    wp (ide_wait 2 i ;; release d_idelock) (λ _ s', s' = s1 <| d_idelock := false |> <| d_idequeue := [] |>
      <| d_bufs ::= <[i := (if b_dirty b then b else b <| b_data := block_at (d_blocks s1) (1, b_blockno b) |>)
                              <| b_valid := true |> <| b_dirty := false |>]> |> <| d_woken ::= cons (ChBufIO i) |>) s1) as Hwait.
  { intros s1 L1 Q1 B1. apply wp_bind. unfold ide_wait. simpl. apply wp_bind, wp_bind. eapply wp_getbuf; [done|]. rewrite Hfl.
    apply wp_bind, wp_release; [done|]. apply wp_bind. unfold ideintr. apply wp_bind, wp_acquire; [done|].
    apply wp_bind, wp_gets. simpl. rewrite Q1. apply wp_bind, wp_modify. apply wp_bind. eapply wp_getbuf; [done|].
    apply wp_bind, wp_gets. apply wp_bind. eapply wp_modbuf; [done|]. apply wp_bind, wp_modify. apply wp_bind, wp_ret.
    apply wp_release; [done|]. apply wp_bind, wp_acquire; [done|]. apply wp_ret. simpl. apply wp_bind, wp_bind.
    eapply wp_getbuf; [simpl; by eapply lookup_insert_self|]. rewrite Hk. destruct (b_dirty b) eqn:Hd; simpl.
    all: apply wp_ret, wp_ret, wp_release; [done|]; simpl; by destruct s1. }
  destruct (b_dirty b) eqn:Hd.
  - apply wp_modify. eapply wp_mono; [apply Hwait; done|]. intros [] s' ->. unfold Q. destruct s. simpl in *. by subst.
  - apply wp_ret. eapply wp_mono; [apply Hwait; done|]. intros [] s' ->. unfold Q, on_disk. destruct s. simpl in *. by subst.
Qed.

(** ** Reading, writing and releasing buffers *)

(** [i] is the buffer in use for block [bn], with contents [d]. *)
Record handle s (i : nat) (bn : Z) (d : list Z) : Prop := {
  h_ok : cache_ok s;
  h_buf : ∃ b, d_bufs s !! i = Some b ∧ has_key b bn ∧ b_locked b = true ∧ b_valid b = true ∧ b_data b = d;
}.

Definition in_use s (bn : Z) : Prop := ∃ i b, d_bufs s !! i = Some b ∧ has_key b bn ∧ b_locked b = true.

(** What a step on the buffer of block [bn] leaves alone. *)
Record step_frame s s' (bn : Z) : Prop := {
  sf_ok : cache_ok s';
  sf_rest : same_rest s s';
  sf_view k : k ≠ bn → view s' k = view s k;
  sf_disk k : k ≠ bn → on_disk s' k = on_disk s k;
  sf_dirty k : k ≠ bn → dirty s' k ↔ dirty s k;
  sf_handle j k d : k ≠ bn → handle s j k d → handle s' j k d;
  sf_use k : k ≠ bn → in_use s' k ↔ in_use s k;
}.

(** Buffer [i] is replaced by a buffer for [bn]. *)
Lemma step_insert s s' i b b' bn :
  cache_ok s → cache_ok s' → same_rest s s' → d_bufs s !! i = Some b → d_bufs s' = <[i := b']> (d_bufs s) →
  has_key b' bn → (has_key b bn ∨ (b_dirty b = false ∧ b_locked b = false)) →
  (∀ k, k ≠ bn → on_disk s' k = on_disk s k) →
  step_frame s s' bn.
Proof.
  intros Hok Hok' Hr Hb Hbs Hk' Hk Hd. assert (i < length (d_bufs s))%nat as Hi by (by eapply lookup_lt_Some).
  assert (∀ j c k, k ≠ bn → has_key c k → d_bufs s' !! j = Some c ↔ d_bufs s !! j = Some c ∧ j ≠ i) as Hsame.
  { intros j c k Hne Hc. rewrite Hbs. destruct (decide (i = j)) as [<-|].
    - rewrite list_lookup_insert_eq by done. split; [intros [= ->]; destruct Hk', Hc; congruence|by intros [_ ?]].
    - rewrite list_lookup_insert_ne by done. naive_solver. }
  (* a buffer of another block at [i] could be recycled *)
  assert (∀ c k, k ≠ bn → has_key c k → d_bufs s !! i = Some c → b_dirty c = false ∧ b_locked c = false) as Hrec.
  { intros c k Hne Hc E. assert (c = b) as -> by congruence. destruct Hk as [[_ Hk]|?]; [|done]. destruct Hc; congruence. }
  split; [done|done| |done| | |].
  - intros k Hne. unfold view. destruct (find_key (d_bufs s) k) as [c|] eqn:E.
    + apply find_key_Some in E as (j & Hj & Hc). destruct (decide (j = i)) as [->|Hji].
      * destruct (Hrec c k Hne Hc Hj) as [X1 X2]. destruct (find_key (d_bufs s') k) as [c'|] eqn:E'.
        { apply find_key_Some in E' as (j' & Hj' & Hc'). apply (Hsame j' c' k Hne Hc') in Hj' as [Hj' Hne'].
          by destruct Hne'; eapply (co_uniq s Hok j' i). }
        rewrite Hd by done. destruct (b_valid c) eqn:V; [|done]. rewrite (bo_clean s c); [by destruct Hc as [_ ->]|by eapply co_bufs|done..].
      * rewrite (find_key_uniq s' j c k Hok'); [by rewrite Hd|by eapply Hsame|done].
    + destruct (find_key (d_bufs s') k) as [c'|] eqn:E'; [|by rewrite Hd].
      apply find_key_Some in E' as (j' & Hj' & Hc'). apply (Hsame j' c' k Hne Hc') in Hj' as [Hj' _].
      by destruct (find_key_None _ _ E j' c').
  - intros k Hne. unfold dirty. split; intros (j & c & Hj & Hc & Hdc); exists j, c; split_and!; try done.
    + by apply (Hsame j c k) in Hj as [? _].
    + apply (Hsame j c k); [done..|]. split; [done|]. intros ->. destruct (Hrec c k Hne Hc Hj). congruence.
  - intros j k d Hne [_ (c & Hj & Hc & Hl & Hv & Hdat)]. split; [done|]. exists c. split_and!; try done.
    apply (Hsame j c k); [done..|]. split; [done|]. intros ->. destruct (Hrec c k Hne Hc Hj). congruence.
  - intros k Hne. unfold in_use. split; intros (j & c & Hj & Hc & Hdc); exists j, c; split_and!; try done.
    + by apply (Hsame j c k) in Hj as [? _].
    + apply (Hsame j c k); [done..|]. split; [done|]. intros ->. destruct (Hrec c k Hne Hc Hj). congruence.
Qed.

(** The common case: the buffer in use for [bn] changes in place. *)
Lemma handle_insert s s' i b b' bn d :
  handle s i bn d → d_bufs s !! i = Some b → d_bufs s' = <[i := b']> (d_bufs s) →
  b_dev b' = b_dev b → b_blockno b' = b_blockno b → buf_ok s' b' → d_lru s' ≡ₚ d_lru s →
  (∀ k, k ≠ bn → on_disk s' k = on_disk s k) → (∀ k v, d_blocks s' !! k = Some v → length v = Z.to_nat BSIZE) →
  same_rest s s' → ide_idle s' → d_bcache_lock s' = false →
  step_frame s s' bn.
Proof.
  intros [Hok (b0 & Hb0 & Hk & Hl & Hv & Hd)] Hb Hbs Ed Eb Hb' Hlru Hod Hdisk Hr (I1 & I2 & I3) Hbl.
  assert (b0 = b) as -> by congruence.
  assert (has_key b' bn) as Hk' by (destruct Hk; split; congruence).
  assert (cache_ok s') as Hok'.
  { eapply (cache_insert s s' i b b'); [done..| |done| |done|done|done|rewrite I3; by rewrite (co_have s Hok)].
    - intros k [Hne|Hne]; [apply Hod; destruct Hk'; congruence|by destruct Hk'].
    - intros j c k Hc Hne Hkk Hcc. apply Hne. eapply (co_uniq s Hok j i c b k); [done..|]. destruct Hk, Hk', Hkk. split; congruence. }
  apply (step_insert s s' i b b' bn); try done. by left.
Qed.

Lemma handle_view s i bn d : handle s i bn d → view s bn = d.
Proof. intros [Hok (b & Hb & Hk & _ & Hv & <-)]. by eapply view_cached. Qed.

Lemma idle_of s : cache_ok s → ide_idle s.
Proof. intros H. split_and!; [apply (co_locks s H)|apply (co_queue s H)|apply (co_have s H)]. Qed.

Lemma handle_dirty s i bn d b : handle s i bn d → d_bufs s !! i = Some b → dirty s bn ↔ b_dirty b = true.
Proof.
  intros [Hok (b0 & Hb0 & Hk & _)] Hb. assert (b0 = b) as -> by congruence. split; [|by exists i, b].
  intros (j & c & Hj & Hc & Hd). assert (j = i) as -> by by eapply (co_uniq s Hok). congruence.
Qed.

Lemma handle_locked_ok s i bn d b : handle s i bn d → d_bufs s !! i = Some b →
  buf_ok s b ∧ b_locked b = true ∧ b_valid b = true ∧ b_data b = d ∧ has_key b bn ∧ 0 ≤ bn < FSSIZE ∧ recyclable b = false.
Proof.
  intros [Hok (b0 & Hb0 & Hk & Hl & Hv & Hd)] Hb. assert (b0 = b) as -> by congruence.
  pose proof (co_bufs s Hok i b Hb) as Hbo. split_and!; try done.
  - destruct (bo_dev _ _ Hbo) as [[_ ?]|(_ & ? & _)]; [|congruence]. destruct Hk as [_ <-]. lia.
  - destruct (bo_dev _ _ Hbo) as [[_ ?]|(_ & ? & _)]; [|congruence]. destruct Hk as [_ <-]. lia.
  - unfold recyclable. by rewrite (bo_ref _ _ Hbo), Hl.
Qed.

Lemma set_bdata_spec f s i bn d :
  handle s i bn d → length (f d) = Z.to_nat BSIZE →
  wp (set_bdata i f) (λ _ s', step_frame s s' bn ∧ handle s' i bn (f d) ∧ d_blocks s' = d_blocks s ∧
     (dirty s' bn ↔ dirty s bn) ∧ nfree s' = nfree s ∧ d_writes s' = d_writes s) s.
Proof.
  intros Hh Hlen. pose proof Hh as [Hok (b & Hb & Hk & Hl & Hv & Hd)].
  destruct (handle_locked_ok _ _ _ _ _ Hh Hb) as ([X1 X2 X3 X4 X5] & _ & _ & _ & _ & Hbn & Hrec).
  unfold set_bdata. eapply wp_modbuf; [done|]. set (b' := b <| b_data ::= f |>). set (s' := s <| d_bufs ::= _ |>).
  assert (step_frame s s' bn) as Hsf.
  { apply (handle_insert s s' i b b' bn d); try done.
    - split; try done; [by simpl; rewrite Hd|by simpl; rewrite Hl].
    - exact (co_disk s Hok).
    - exact (idle_of s Hok).
    - apply (co_locks s Hok). }
  assert (d_bufs s' !! i = Some b') as Hb' by (by eapply lookup_insert_self).
  assert (handle s' i bn (f d)) as Hh'.
  { split; [apply Hsf|]. exists b'. split_and!; try done. simpl. by rewrite Hd. }
  split_and!; [done|done|done| |unfold nfree; simpl; rewrite (cnt_insert _ _ _ b) by done; change (recyclable b') with (recyclable b); lia|done].
  by rewrite (handle_dirty _ _ _ _ _ Hh' Hb'), (handle_dirty _ _ _ _ _ Hh Hb).
Qed.

Lemma bdata_spec s i bn d (Q : list Z → fsys → Prop) : handle s i bn d → Q d s → wp (bdata i) Q s.
Proof.
  intros [_ (b & Hb & _ & _ & _ & <-)] HQ. unfold bdata. apply wp_bind. eapply wp_getbuf; [done|]. by apply wp_ret.
Qed.

Lemma on_disk_insert s s' bn d k :
  d_blocks s' = <[(1, bn) := d]> (d_blocks s) → on_disk s' k = if decide (k = bn) then d else on_disk s k.
Proof.
  intros E. unfold on_disk, block_at. rewrite E. case_decide as Hk; [subst; by rewrite lookup_insert_eq|].
  rewrite lookup_insert_ne by congruence. done.
Qed.

Lemma fsys_eq s s' :
  d_blocks s = d_blocks s' → d_writes s = d_writes s' → d_havedisk1 s = d_havedisk1 s' → d_idelock s = d_idelock s' →
  d_idequeue s = d_idequeue s' → d_bcache_lock s = d_bcache_lock s' → d_bufs s = d_bufs s' → d_lru s = d_lru s' →
  d_log_lock s = d_log_lock s' → d_log s = d_log s' → d_sb s = d_sb s' → d_icache_lock s = d_icache_lock s' →
  d_inodes s = d_inodes s' → d_ftable_lock s = d_ftable_lock s' → d_files s = d_files s' → d_pipes s = d_pipes s' →
  d_kfreed s = d_kfreed s' → d_woken s = d_woken s' → d_out s = d_out s' → s = s'.
Proof. destruct s, s'. simpl. intros. by subst. Qed.

Lemma bwrite_state s i b1 b2 f g :
  s <| d_bufs ::= <[i := b1]> |> <| d_blocks ::= f |> <| d_writes ::= g |> <| d_bufs ::= <[i := b2]> |> <| d_woken ::= cons (ChBufIO i) |> =
  s <| d_blocks ::= f |> <| d_writes ::= g |> <| d_bufs ::= <[i := b2]> |> <| d_woken ::= cons (ChBufIO i) |>.
Proof. apply fsys_eq; try reflexivity. exact (list_insert_insert_eq _ _ _ _). Qed.

Lemma bwrite_spec s i bn d :
  handle s i bn d →
  wp (bwrite i) (λ _ s', step_frame s s' bn ∧ handle s' i bn d ∧ d_blocks s' = <[(1, bn) := d]> (d_blocks s) ∧ ¬ dirty s' bn ∧
     nfree s' = nfree s ∧ d_writes s' = (1, bn, d) :: d_writes s) s.
Proof.
  intros Hh. pose proof Hh as [Hok (b & Hb & Hk & Hl & Hv & Hd)].
  destruct (handle_locked_ok _ _ _ _ _ Hh Hb) as ([X1 X2 X3 X4 X5] & _ & _ & _ & _ & Hbn & Hrec).
  destruct Hk as [Hdev Hbno]. unfold bwrite. apply wp_bind. eapply wp_getbuf; [done|]. rewrite Hl. simpl.
  apply wp_bind. eapply wp_modbuf; [done|]. set (s1 := s <| d_bufs ::= _ |>). set (b1 := b <| b_dirty := true |>) in s1.
  assert (d_bufs s1 !! i = Some b1) as Hb1 by (by eapply lookup_insert_self).
  set (b2 := b <| b_valid := true |> <| b_dirty := false |>).
  set (s' := s <| d_blocks ::= <[(1, bn) := d]> |> <| d_writes ::= cons (1, bn, d) |> <| d_bufs ::= <[i := b2]> |> <| d_woken ::= cons (ChBufIO i) |>).
  apply (wp_eq _ _ _ tt s').
  { rewrite (iderw_eq i b1 s1 (idle_of s Hok) Hb1 Hl Hdev); [|simpl; lia|simpl; apply andb_false_r].
    f_equal. unfold s'. rewrite <-Hd, <-Hbno. exact (bwrite_state s i b1 b2 _ _). }
  assert (∀ k, on_disk s' k = if decide (k = bn) then d else on_disk s k) as Hod by (intros k; by apply on_disk_insert).
  assert (step_frame s s' bn) as Hsf.
  { apply (handle_insert s s' i b b2 bn d); try done.
    - split; simpl; [done|done|left; lia|done|by rewrite Hl].
    - intros k Hne. by rewrite Hod, decide_False.
    - intros k v Hkv. apply (lookup_insert_Some (d_blocks s)) in Hkv as [[_ <-]|[_ Hkv]]; [by rewrite <-Hd|by apply (co_disk s Hok k)].
    - exact (idle_of s Hok).
    - apply (co_locks s Hok). }
  assert (d_bufs s' !! i = Some b2) as Hb2 by (by eapply lookup_insert_self).
  assert (handle s' i bn d) as Hh' by (split; [apply Hsf|by exists b2]).
  split_and!; [done|done|done|by rewrite (handle_dirty _ _ _ _ _ Hh' Hb2)| |done].
  unfold nfree. simpl. rewrite (cnt_insert _ _ _ b) by done. assert (recyclable b2 = false) as ->.
  { unfold recyclable. simpl. by rewrite X2, Hl. }
  rewrite Hrec. lia.
Qed.

Lemma filter_out (i : nat) (l : list nat) : i ∉ l → filter (λ j, j ≠ i) l = l.
Proof.
  induction l as [|j l IH]; [done|]. intros [Hj Hi]%not_elem_of_cons. rewrite filter_cons, decide_True by done. by rewrite IH.
Qed.

Lemma perm_front (i : nat) (l : list nat) : i ∈ l → NoDup l → i :: filter (λ j, j ≠ i) l ≡ₚ l.
Proof.
  induction l as [|j l IH]; [by intros ?%elem_of_nil|]. intros Hi [Hj Hnd]%NoDup_cons. rewrite filter_cons.
  destruct (decide (j ≠ i)) as [Hne|He].
  - rewrite perm_swap, IH; [done| |done]. apply elem_of_cons in Hi as [->|]; done.
  - apply dec_stable in He as ->. by rewrite filter_out.
Qed.

(** The buffer may be given back if the disk agrees with it, or if it is
    pinned because it is dirty. *)
Lemma brelse_spec s i bn d :
  handle s i bn d → dirty s bn ∨ d = on_disk s bn →
  wp (brelse i) (λ _ s', step_frame s s' bn ∧ view s' bn = d ∧ d_blocks s' = d_blocks s ∧
     (dirty s' bn ↔ dirty s bn) ∧ ¬ in_use s' bn ∧ nfree s ≤ nfree s' ∧ (¬ dirty s bn → nfree s' = nfree s + 1) ∧
     d_writes s' = d_writes s) s.
Proof.
  intros Hh Hcl. pose proof Hh as [Hok (b & Hb & Hk & Hl & Hv & Hd)]. pose proof (handle_dirty _ _ _ _ _ Hh Hb) as Hdb. rewrite Hdb in Hcl.
  destruct (handle_locked_ok _ _ _ _ _ Hh Hb) as ([X1 X2 X3 X4 X5] & _ & _ & _ & _ & Hbn & Hrec). rewrite Hl in X2.
  unfold brelse. apply wp_bind. eapply wp_getbuf; [done|]. rewrite Hl. simpl.
  apply wp_bind. unfold release_buf. apply wp_bind. eapply wp_modbuf; [done|]. apply wp_modify.
  apply wp_bind, wp_acquire; [apply (co_locks s Hok)|]. apply wp_bind. eapply wp_modbuf; [simpl; by eapply lookup_insert_self|].
  apply wp_bind. eapply wp_getbuf; [simpl; rewrite list_insert_insert_eq; by eapply lookup_insert_self|].
  simpl. rewrite X2. simpl. apply wp_bind, wp_modify. apply wp_release; [done|].
  set (b' := b <| b_locked := false |> <| b_refcnt := 0 |>).
  match goal with |- _ _ ?t _ ∧ _ => set (s' := t) end.
  assert (d_bufs s' = <[i := b']> (d_bufs s)) as Hbs.
  { unfold s'. simpl. rewrite list_insert_insert_eq. unfold b', upd. simpl. by rewrite X2. }
  assert (step_frame s s' bn) as Hsf.
  { apply (handle_insert s s' i b b' bn d); try done.
    - split; simpl; [done|done|destruct Hk; left; lia|done|]. intros _ D _. destruct Hcl as [?|Hcl]; [congruence|]. destruct Hk as [_ ->]. by rewrite Hd.
    - unfold s'. simpl. apply perm_front.
      + rewrite (co_lru s Hok). apply elem_of_seq. rewrite <-(co_len s Hok). split; [lia|]. by eapply lookup_lt_Some.
      + rewrite (co_lru s Hok). apply NoDup_ListNoDup, seq_NoDup.
    - exact (co_disk s Hok).
    - exact (idle_of s Hok). }
  assert (d_bufs s' !! i = Some b') as Hb' by (rewrite Hbs; by eapply lookup_insert_self).
  pose proof (sf_ok _ _ _ Hsf) as Hok'. assert (has_key b' bn) as Hk' by done.
  split_and!; [done|by rewrite (view_cached s' i b' bn)|done| | | | |done].
  - rewrite Hdb. split; [|intros D; exists i, b'; exact (conj Hb' (conj Hk' D))]. intros (j & c & Hj & Hc & D).
    assert (j = i) as -> by by eapply (co_uniq s' Hok'). rewrite Hb' in Hj. by injection Hj as <-.
  - intros (j & c & Hj & Hc & D). assert (j = i) as -> by by eapply (co_uniq s' Hok'). rewrite Hb' in Hj. by injection Hj as <-.
  - unfold nfree. rewrite Hbs, (cnt_insert _ _ _ b), Hrec by done. case_match; lia.
  - rewrite Hdb. intros D. apply not_true_is_false in D. unfold nfree. rewrite Hbs, (cnt_insert _ _ _ b), Hrec by done.
    unfold recyclable. simpl. rewrite D. simpl. lia.
Qed.

Lemma find_buf_Some f bs l i : find_buf f bs l = Some i → ∃ b, bs !! i = Some b ∧ f b = true.
Proof.
  induction l as [|j l IH]; simpl; [done|]. destruct (bs !! j) as [b|] eqn:E; [|done].
  destruct (f b) eqn:Ef; [|done]. intros [= <-]. by exists b.
Qed.

Lemma find_buf_None f bs l i b : find_buf f bs l = None → i ∈ l → bs !! i = Some b → f b = false.
Proof.
  induction l as [|j l IH]; simpl; [by intros _ ?%elem_of_nil|]. intros H Hi Hb. apply elem_of_cons in Hi as [->|Hi].
  - rewrite Hb in H. by destruct (f b).
  - apply IH; [|done..]. by destruct (bs !! j) as [c|]; [destruct (f c)|].
Qed.

Lemma lru_all s i b : cache_ok s → d_bufs s !! i = Some b → i ∈ d_lru s.
Proof.
  intros Hok Hb. rewrite (co_lru s Hok). apply elem_of_seq. rewrite <-(co_len s Hok). split; [lia|]. by eapply lookup_lt_Some.
Qed.

(** What [bget] returns: the unused buffer [b] of the block, or a recycled
    one, is now [b'], locked. *)
Record got s bn s' (i : nat) b b' : Prop := {
  g_old : d_bufs s !! i = Some b;
  g_new : d_bufs s' = <[i := b']> (d_bufs s);
  g_lock : b_locked b' = true ∧ b_refcnt b' = 1;
  g_key : has_key b' bn;
  g_data : length (b_data b') = Z.to_nat BSIZE;
  g_from : (has_key b bn ∧ b_valid b' = b_valid b ∧ b_dirty b' = b_dirty b ∧ b_data b' = b_data b ∧ b_locked b = false) ∨
           (b_dirty b = false ∧ b_locked b = false ∧ b_valid b' = false ∧ b_dirty b' = false ∧
            ∀ j c, d_bufs s !! j = Some c → ¬ has_key c bn);
  g_lru : d_lru s' = d_lru s;
  g_blocks : d_blocks s' = d_blocks s;
  g_writes : d_writes s' = d_writes s;
  g_idle : ide_idle s';
  g_bl : d_bcache_lock s' = false;
  g_rest : same_rest s s';
}.

Lemma bget_spec s bn :
  cache_ok s → ¬ in_use s bn → 0 < nfree s → wp (bget 1 bn) (λ i s', ∃ b b', got s bn s' i b b') s.
Proof.
  intros Hok Huse Hfree. unfold bget. apply wp_bind, wp_acquire; [apply (co_locks s Hok)|].
  apply wp_bind, wp_gets. apply wp_bind, wp_gets. cbn [d_bufs d_lru upd eta eta_fsys].
  destruct (find_buf _ (d_bufs _) _) as [i|] eqn:E.
  - apply find_buf_Some in E as (b & Hb & Hkey). simpl in Hb. apply andb_true_iff in Hkey as [K1%Z.eqb_eq K2%Z.eqb_eq].
    pose proof (co_bufs s Hok i b Hb) as [X1 X2 X3 X4 X5].
    assert (b_locked b = false) as Hl by (apply not_true_is_false; intros Hl; apply Huse; by exists i, b).
    apply wp_bind. eapply wp_modbuf; [done|]. apply wp_bind, wp_release; [done|].
    apply wp_bind. unfold acquire_buf. apply wp_bind. eapply wp_getbuf; [simpl; by eapply lookup_insert_self|].
    simpl. rewrite Hl. eapply wp_modbuf; [simpl; by eapply lookup_insert_self|]. apply wp_ret.
    exists b. eexists. split; [done|simpl; by rewrite list_insert_insert_eq|simpl; rewrite X2, Hl; done|done|done|
      left; done|done|done|done|exact (idle_of s Hok)|done|done].
  - destruct (find_buf _ (d_bufs _) (rev _)) as [i|] eqn:E'.
    + apply find_buf_Some in E' as (b & Hb & Hkey). simpl in Hb. apply andb_true_iff in Hkey as [K1%Z.eqb_eq K2%negb_true_iff].
      pose proof (co_bufs s Hok i b Hb) as [X1 X2 X3 X4 X5].
      assert (b_locked b = false) as Hl by (destruct (b_locked b); [lia|done]).
      apply wp_bind. eapply wp_modbuf; [done|]. apply wp_bind, wp_release; [done|].
      apply wp_bind. unfold acquire_buf. apply wp_bind. eapply wp_getbuf; [simpl; by eapply lookup_insert_self|].
      simpl. rewrite Hl. eapply wp_modbuf; [simpl; by eapply lookup_insert_self|]. apply wp_ret.
      exists b. eexists. split; [done|simpl; by rewrite list_insert_insert_eq|done|done|done|
        right|done|done|done|exact (idle_of s Hok)|done|done].
      split_and!; try done. intros j c Hj [C1 C2]. pose proof (find_buf_None _ _ _ j c E (lru_all s j c Hok Hj) Hj) as F.
      simpl in F. rewrite C1, C2, !Z.eqb_refl in F. done.
    + exfalso. destruct (cnt_pos_ex recyclable (d_bufs s) Hfree) as (i & b & Hb & R).
      assert (i ∈ rev (d_lru s)) as Hi by (apply list_elem_of_In, in_rev; rewrite rev_involutive; apply list_elem_of_In; by eapply lru_all).
      pose proof (find_buf_None _ _ _ i b E' Hi Hb) as F. unfold recyclable in R. congruence.
Qed.

(** What [bread] leaves: the buffer of the block is in use and holds its
    view. *)
Lemma got_handle s bn s1 s' i b b1 b' :
  cache_ok s → 0 ≤ bn < FSSIZE → got s bn s1 i b b1 →
  d_bufs s' = <[i := b']> (d_bufs s) → b_locked b' = true → b_refcnt b' = 1 → has_key b' bn → b_valid b' = true →
  b_dirty b' = b_dirty b1 → b_data b' = view s bn →
  d_lru s' = d_lru s1 → d_blocks s' = d_blocks s1 → ide_idle s' → d_bcache_lock s' = false → same_rest s s' →
  step_frame s s' bn ∧ handle s' i bn (view s bn) ∧ d_blocks s' = d_blocks s ∧ (dirty s' bn ↔ dirty s bn) ∧
  nfree s - 1 ≤ nfree s' ∧ (dirty s bn → nfree s ≤ nfree s').
Proof.
  intros Hok Hbn [Gb Gn [Gl Gr] Gk Gd Gf Glru Gbl Gw Gi Gcl Grest] Hbs Hl Hr Hk Hv Hdi Hda Hlru Hblk (I1 & I2 & I3) Hbc Hrest.
  assert (∀ k, on_disk s' k = on_disk s k) as Hod by (intros k; unfold on_disk; by rewrite Hblk, Gbl).
  pose proof (co_bufs s Hok i b Gb) as [X1 X2 X3 X4 X5].
  assert (length (view s bn) = Z.to_nat BSIZE) as Hvl.
  { unfold view. destruct (find_key (d_bufs s) bn) as [c|] eqn:E; [|by apply length_on_disk].
    apply find_key_Some in E as (j & Hj & _). destruct (b_valid c); [by apply (co_bufs s Hok j c)|by apply length_on_disk]. }
  assert (cache_ok s') as Hok'.
  { eapply (cache_insert s s' i b b'); try done.
    - split; [by rewrite Hda|by rewrite Hl, Hr|destruct Hk; left; lia|done|by rewrite Hl].
    - by rewrite Hlru, Glru.
    - rewrite Hblk, Gbl. exact (co_disk s Hok).
    - intros j c k Hc Hne Hkk Hck. assert (k = bn) as -> by (destruct Hk, Hkk; congruence).
      destruct Gf as [(Hkb & _)|(_ & _ & _ & _ & Hno)]; [by apply Hne; eapply (co_uniq s Hok)|by eapply Hno].
    - rewrite I3. by rewrite (co_have s Hok). }
  assert (d_bufs s' !! i = Some b') as Hb' by (rewrite Hbs; by eapply lookup_insert_self).
  assert (handle s' i bn (view s bn)) as Hh by (split; [done|by exists b']).
  split_and!; [|done|congruence| | |].
  - apply (step_insert s s' i b b' bn); try done. destruct Gf as [(? & _)|(? & ? & _)]; [by left|by right].
  - rewrite (handle_dirty _ _ _ _ _ Hh Hb'), Hdi. destruct Gf as [(Hkb & _ & -> & _)|(_ & _ & _ & -> & Hno)].
    + split; [intros D; by exists i, b|]. intros (j & c & Hj & Hc & D). assert (j = i) as -> by by eapply (co_uniq s Hok). congruence.
    + split; [done|]. intros (j & c & Hj & Hc & D). by destruct (Hno j c).
  - unfold nfree. rewrite Hbs, (cnt_insert _ _ _ b) by done. repeat case_match; lia.
  - intros (j & c & Hj & Hc & D). destruct Gf as [(Hkb & _)|(_ & _ & _ & _ & Hno)]; [|by destruct (Hno j c)].
    assert (j = i) as -> by by eapply (co_uniq s Hok). simplify_eq. unfold nfree. rewrite Hbs, (cnt_insert _ _ _ b) by done.
    assert (recyclable b = false) as -> by (unfold recyclable; rewrite D; apply andb_false_r). destruct (recyclable b'); lia.
Qed.

Lemma bread_spec s bn :
  cache_ok s → 0 ≤ bn < FSSIZE → ¬ in_use s bn → 0 < nfree s →
  wp (bread 1 bn) (λ i s', step_frame s s' bn ∧ handle s' i bn (view s bn) ∧ d_blocks s' = d_blocks s ∧
     (dirty s' bn ↔ dirty s bn) ∧ nfree s - 1 ≤ nfree s' ∧ (dirty s bn → nfree s ≤ nfree s') ∧ d_writes s' = d_writes s) s.
Proof.
  intros Hok Hbn Huse Hfree. unfold bread. apply wp_bind. eapply wp_mono; [by apply bget_spec|]. intros i s1 (b & b1 & G).
  pose proof G as [Gb Gn [Gl Gr] [Gk1 Gk2] Gd Gf Glru Gbl Gw Gi Gcl Grest]. pose proof (co_bufs s Hok i b Gb) as [X1 X2 X3 X4 X5].
  assert (d_bufs s1 !! i = Some b1) as Hb1 by (rewrite Gn; by eapply lookup_insert_self).
  apply wp_bind. eapply wp_getbuf; [done|]. destruct (b_valid b1) eqn:Hv.
  - apply wp_bind, wp_ret, wp_ret. destruct (got_handle s bn s1 s1 i b b1 b1) as (? & ? & ? & ? & ? & ?); try done.
    destruct Gf as [(Hkb & E & _ & -> & _)|(_ & _ & E & _)]; [|congruence]. symmetry. apply (view_cached s i b); congruence.
  - assert (b_dirty b1 = false) as Hdi.
    { destruct Gf as [(_ & E1 & E2 & _)|(_ & _ & _ & ? & _)]; [|done]. rewrite E2. destruct (b_dirty b); [|done]. rewrite X4 in E1; congruence. }
    apply wp_bind. eapply wp_eq; [apply (iderw_eq i b1 s1); try done; [lia|by rewrite Hv]|]. rewrite Hdi. apply wp_ret.
    match goal with |- step_frame s ?t bn ∧ _ => set (s' := t) end.
    destruct (got_handle s bn s1 s' i b b1 (b1 <| b_data := on_disk s1 (b_blockno b1) |> <| b_valid := true |> <| b_dirty := false |>))
      as (? & ? & ? & ? & ? & ?); try done.
    + simpl. by rewrite Gn, list_insert_insert_eq.
    + simpl. rewrite Gk2. transitivity (on_disk s bn); [unfold on_disk; by rewrite Gbl|]. symmetry. apply view_uncached.
      intros j c Hj Hc. destruct Gf as [(Hkb & E1 & _)|(_ & _ & _ & _ & Hno)]; [|by destruct (Hno j c)].
      assert (j = i) as -> by by eapply (co_uniq s Hok). congruence.
    + by transitivity s1.
Qed.
