(* ===== verification/Log.v ===== *)
(** The redo log: [src/log.c], and [readsb] of [src/fs.c]. *)

From S2P Require Import Prelude Memory Machine Disk.
From stdpp Require Import options.
Implicit Types s : fsys.

(** [memmove(sb, bp->data, sizeof( *sb))] *)
Definition get_super (d : list Z) : superblock :=
  Superblock (rd32 d 0) (rd32 d 4) (rd32 d 8) (rd32 d 12) (rd32 d 16) (rd32 d 20) (rd32 d 24).
Definition readsb (dev : Z) : M fsys superblock :=
  bp <- bread dev 1 ;;
  d <- bdata bp ;;
  brelse bp ;;
  ret (get_super d).

Definition mod_log (f : logstate → logstate) : M fsys unit := modify (λ s, s <| d_log ::= f |>).

(** [log.lh.block[i]] *)
Definition lh_block_at (i : Z) : M fsys Z :=
  l <- gets d_log ;; of_option "log.lh.block[] index" (aget (lh_block l) i).
Definition set_lh_block (i v : Z) : M fsys unit :=
  lh_block_at i ;; mod_log (λ l, l <| lh_block ::= λ bl, aset bl i v |>).

Definition install_one (tail : Z) : M fsys unit :=
  l <- gets d_log ;;
  lbuf <- bread (lg_dev l) (lg_start l + tail + 1) ;;
  blk <- lh_block_at tail ;;
  dbuf <- bread (lg_dev l) blk ;;
  d <- bdata lbuf ;;
  set_bdata dbuf (λ _, d) ;;
  bwrite dbuf ;;
  brelse lbuf ;;
  brelse dbuf.

Definition install_trans : M fsys unit :=
  l <- gets d_log ;;
  for_all (Z.to_nat (lh_n l)) 0 install_one.

Definition read_head : M fsys unit :=
  l <- gets d_log ;;
  bi <- bread (lg_dev l) (lg_start l) ;;
  d <- bdata bi ;;
  let n := s32 (rd32 d 0) in
  mod_log (λ l, l <| lh_n := n |>) ;;
  for_all (Z.to_nat n) 0 (λ i, set_lh_block i (s32 (rd32 d (4 + 4 * i)))) ;;
  brelse bi.

(** The header block after [hb->n] and [hb->block[0 .. n-1]] are stored. *)
Fixpoint put_blocks (n : nat) (i : Z) (bl : list Z) (d : list Z) : list Z :=
  match n with
  | O => d
  | S n => put_blocks n (i + 1) bl (wr32 d (4 + 4 * i) (default 0 (aget bl i)))
  end.
Definition put_head (l : logstate) (d : list Z) : list Z :=
  put_blocks (Z.to_nat (lh_n l)) 0 (lh_block l) (wr32 d 0 (lh_n l)).

Definition write_head : M fsys unit :=
  l <- gets d_log ;;
  bi <- bread (lg_dev l) (lg_start l) ;;
  set_bdata bi (put_head l) ;;
  bwrite bi ;;
  brelse bi.

Definition recover_from_log : M fsys unit :=
  read_head ;;
  install_trans ;;
  mod_log (λ l, l <| lh_n := 0 |>) ;;
  write_head.

Definition initlog (dev : Z) : M fsys unit :=
  modify (λ s, s <| d_log_lock := false |>) ;;
  sb <- readsb dev ;;
  mod_log (λ l, l <| lg_start := sb_logstart sb |> <| lg_size := sb_nlog sb |> <| lg_dev := dev |>) ;;
  recover_from_log.

(** [begin_op] blocks while a commit is running or the log might run out. *)
Definition begin_op : M fsys unit :=
  acquire d_log_lock ;;
  l <- gets d_log ;;
  if lg_committing l then release d_log_lock ;; sleep_on ChLog else
  if LOGSIZE <? lh_n l + (lg_outstanding l + 1) * MAXOPBLOCKS then release d_log_lock ;; sleep_on ChLog else
  mod_log (λ l, l <| lg_outstanding ::= λ n, n + 1 |>) ;;
  release d_log_lock.

Definition write_log_one (tail : Z) : M fsys unit :=
  l <- gets d_log ;;
  to <- bread (lg_dev l) (lg_start l + tail + 1) ;;
  blk <- lh_block_at tail ;;
  from <- bread (lg_dev l) blk ;;
  d <- bdata from ;;
  set_bdata to (λ _, d) ;;
  bwrite to ;;
  brelse from ;;
  brelse to.

Definition write_log : M fsys unit :=
  l <- gets d_log ;;
  for_all (Z.to_nat (lh_n l)) 0 write_log_one.

Definition commit : M fsys unit :=
  l <- gets d_log ;;
  if 0 <? lh_n l then
    write_log ;;
    write_head ;;
    install_trans ;;
    mod_log (λ l, l <| lh_n := 0 |>) ;;
    write_head
  else skip.

Definition end_op : M fsys unit :=
  acquire d_log_lock ;;
  mod_log (λ l, l <| lg_outstanding ::= λ n, n - 1 |>) ;;
  l <- gets d_log ;;
  if lg_committing l then panic "log.committing" else
  if lg_outstanding l =? 0 then
    mod_log (λ l, l <| lg_committing := true |>) ;;
    release d_log_lock ;;
    commit ;;
    acquire d_log_lock ;;
    mod_log (λ l, l <| lg_committing := false |>) ;;
    wakeup_on ChLog ;;
    release d_log_lock
  else
    wakeup_on ChLog ;;
    release d_log_lock.

(** The index of [b] among the first [n] entries, or [n]. *)
Fixpoint absorb (n : nat) (i : Z) (bl : list Z) (b : Z) : Z :=
  match n, bl with
  | S n, x :: bl => if x =? b then i else absorb n (i + 1) bl b
  | _, _ => i
  end.

Definition log_write (bi : nat) : M fsys unit :=
  l <- gets d_log ;;
  if (LOGSIZE <=? lh_n l) || (lg_size l - 1 <=? lh_n l) then panic "too big a transaction" else
  if lg_outstanding l <? 1 then panic "log_write outside of trans" else
  acquire d_log_lock ;;
  b <- getbuf bi ;;
  let i := absorb (Z.to_nat (lh_n l)) 0 (lh_block l) (b_blockno b) in
  set_lh_block i (b_blockno b) ;;
  (if i =? lh_n l then mod_log (λ l, l <| lh_n ::= λ n, n + 1 |>) else skip) ;;
  modbuf bi (λ b, b <| b_dirty := true |>) ;;
  release d_log_lock.
