(* ===== verification/LogCrash.v ===== *)
(** Crash safety of the redo log.

    [commit] writes the new contents of the blocks of a transaction to the
    log, then the header, then the blocks at their home locations, and clears
    the header.  A crash may come after any of these writes.  [recovered] is
    what the home blocks hold after the recovery of [initlog] has run on a
    disk. *)

From S2P Require Import Prelude Memory Machine Disk Bio Log.
From stdpp Require Import options.
Implicit Types s : fsys.
Implicit Types m : gmap (Z * Z) (list Z).

(** ** The disk after some writes *)

Definition apply_writes m (ws : list (Z * Z * list Z)) : gmap (Z * Z) (list Z) :=
  foldl (λ m w, <[w.1 := w.2]> m) m ws.

(** The writes [ws], in this order, lead from [s] to [s']. *)
Definition steps s s' (ws : list (Z * Z * list Z)) : Prop :=
  d_blocks s' = apply_writes (d_blocks s) ws ∧ d_writes s' = rev ws ++ d_writes s.

(** The header block. *)
Definition head_n (d : list Z) : Z := s32 (rd32 d 0).
Definition head_block (d : list Z) (i : Z) : Z := s32 (rd32 d (4 + 4 * i)).
Definition head_blocks (d : list Z) : list Z := head_block d <$> seqZ 0 (head_n d).

(** Block [b] after recovery from the log at [start]. *)
Definition recovered (start : Z) m (b : Z) : list Z :=
  match list_find (λ x, x = b) (head_blocks (block_at m (1, start))) with
  | Some (i, _) => block_at m (1, start + Z.of_nat i + 1)
  | None => block_at m (1, b)
  end.

(** The writes of [write_log] and [install_trans]. *)
Definition log_writes (start : Z) (vs : list (list Z)) : list (Z * Z * list Z) :=
  imap (λ i v, (1, start + Z.of_nat i + 1, v)) vs.
Definition home_writes (bl : list Z) (vs : list (list Z)) : list (Z * Z * list Z) :=
  zip_with (λ b v, (1, b, v)) bl vs.

Lemma steps_nil s : steps s s [].
Proof. done. Qed.
Lemma steps_app s s1 s' ws ws' : steps s s1 ws → steps s1 s' ws' → steps s s' (ws ++ ws').
Proof.
  intros [B1 W1] [B2 W2]. split; [unfold apply_writes in *; by rewrite foldl_app, B2, B1|].
  by rewrite W2, W1, rev_app_distr, app_assoc.
Qed.

Lemma block_at_out m ws k : k ∉ ws.*1 → block_at (apply_writes m ws) k = block_at m k.
Proof.
  revert m. induction ws as [|[k' v] ws IH]; intros m Hk; simpl in *; [done|]. apply not_elem_of_cons in Hk as [Hne Hk].
  unfold apply_writes in *. simpl. rewrite IH by done. unfold block_at. by rewrite lookup_insert_ne.
Qed.

Lemma block_at_in m ws k v : NoDup ws.*1 → (k, v) ∈ ws → block_at (apply_writes m ws) k = v.
Proof.
  revert m. induction ws as [|[k' v'] ws IH]; intros m Hnd Hin; simpl in *; [by apply not_elem_of_nil in Hin|].
  apply NoDup_cons in Hnd as [Hk Hnd]. apply elem_of_cons in Hin as [[= -> ->]|Hin].
  - pose proof (block_at_out (<[k' := v']> m) ws k' Hk) as E. unfold apply_writes in *. simpl. rewrite E.
    unfold block_at. by rewrite lookup_insert_eq.
  - by apply IH.
Qed.

Lemma apply_writes_app m ws ws' : apply_writes m (ws ++ ws') = apply_writes (apply_writes m ws) ws'.
Proof. apply foldl_app. Qed.

(** ** Integers in blocks *)

Lemma length_wr8 l o v : length (wr8 l o v) = length l.
Proof. apply length_aset. Qed.
Lemma length_wr32 l o v : length (wr32 l o v) = length l.
Proof. unfold wr32. by rewrite !length_wr8. Qed.

Lemma rd8_wr8 l o v o' :
  0 ≤ o < Z.of_nat (length l) → rd8 (wr8 l o v) o' = if decide (o = o') then u8 v else rd8 l o'.
Proof. intros Ho. unfold rd8, wr8. rewrite aget_aset by done. by case_decide. Qed.

Lemma u8_digits v : 0 ≤ v < 2 ^ 32 →
  u8 v + 2 ^ 8 * u8 (v / 2 ^ 8) + 2 ^ 16 * u8 (v / 2 ^ 16) + 2 ^ 24 * u8 (v / 2 ^ 24) = v.
Proof.
  intros Hv. unfold u8. replace (v / 2 ^ 16) with (v / 2 ^ 8 / 2 ^ 8) by (by rewrite Z.div_div by lia).
  replace (v / 2 ^ 24) with (v / 2 ^ 8 / 2 ^ 8 / 2 ^ 8) by (by rewrite !Z.div_div by lia).
  change (2 ^ 8) with 256. change (2 ^ 16) with 65536. change (2 ^ 24) with 16777216. change (2 ^ 32) with 4294967296 in Hv.
  set (a := v / 256). set (b := a / 256). set (c := b / 256).
  pose proof (Z.div_mod v 256). pose proof (Z.div_mod a 256). pose proof (Z.div_mod b 256). pose proof (Z.div_mod c 256).
  assert (c mod 256 = c); [|lia]. apply Z.mod_small. subst a b c. rewrite !Z.div_div by lia.
  split; [apply Z.div_pos; lia|apply Z.div_lt_upper_bound; lia].
Qed.

Lemma rd32_wr32_eq l o v :
  0 ≤ o → o + 4 ≤ Z.of_nat (length l) → 0 ≤ v < 2 ^ 32 → rd32 (wr32 l o v) o = v.
Proof.
  intros Ho Hl Hv. unfold rd32, wr32. rewrite !rd8_wr8 by (rewrite ?length_wr8; lia).
  repeat (case_decide; try lia). by apply u8_digits.
Qed.

Lemma rd32_wr32_ne l o v o' :
  0 ≤ o → o + 4 ≤ Z.of_nat (length l) → o' + 4 ≤ o ∨ o + 4 ≤ o' → rd32 (wr32 l o v) o' = rd32 l o'.
Proof.
  intros Ho Hl Ho'. unfold rd32, wr32. rewrite !rd8_wr8 by (rewrite ?length_wr8; lia). by rewrite !decide_False by lia.
Qed.

(** The header that [write_head] stores reads back. *)
Lemma length_put_blocks n i bl d : length (put_blocks n i bl d) = length d.
Proof. revert i d. induction n as [|n IH]; intros i d; simpl; [done|]. by rewrite IH, length_wr32. Qed.

Lemma put_blocks_below n i bl d o :
  0 ≤ i → 4 + 4 * (i + Z.of_nat n) ≤ Z.of_nat (length d) → o + 4 ≤ 4 + 4 * i →
  rd32 (put_blocks n i bl d) o = rd32 d o.
Proof.
  revert i d. induction n as [|n IH]; intros i d Hi Hd Ho; simpl; [done|].
  rewrite IH by (rewrite ?length_wr32; lia). apply rd32_wr32_ne; lia.
Qed.

Lemma put_blocks_at n i bl d j v :
  0 ≤ i ≤ j → j < i + Z.of_nat n → 4 + 4 * (i + Z.of_nat n) ≤ Z.of_nat (length d) →
  aget bl j = Some v → 0 ≤ v < 2 ^ 32 → rd32 (put_blocks n i bl d) (4 + 4 * j) = v.
Proof.
  revert i d. induction n as [|n IH]; intros i d Hi Hj Hd Hv Hr; simpl; [lia|]. destruct (decide (i = j)) as [->|].
  - rewrite put_blocks_below by (rewrite ?length_wr32; lia). rewrite Hv. apply rd32_wr32_eq; simpl; lia.
  - apply IH; rewrite ?length_wr32; (lia || done).
Qed.

Lemma put_head_n l d : 0 ≤ lh_n l ≤ LOGSIZE → length d = Z.to_nat BSIZE → head_n (put_head l d) = lh_n l.
Proof.
  unfold LOGSIZE, MAXOPBLOCKS, BSIZE. intros Hn Hd. unfold head_n, put_head.
  rewrite put_blocks_below by (rewrite ?length_wr32; lia). rewrite rd32_wr32_eq by lia. apply s32_id. lia.
Qed.

Lemma put_head_blocks l d (bl : list Z) :
  lh_n l = Z.of_nat (length bl) → bl `prefix_of` lh_block l → Z.of_nat (length bl) ≤ LOGSIZE →
  length d = Z.to_nat BSIZE → Forall (λ b, 0 ≤ b < FSSIZE) bl → head_blocks (put_head l d) = bl.
Proof.
  intros Hn [tl Hp] Hlen Hd Hr. unfold head_blocks. rewrite put_head_n, Hn by (unfold LOGSIZE, MAXOPBLOCKS in *; lia).
  apply list_eq. intros i. rewrite list_lookup_fmap. destruct (decide (i < length bl)%nat) as [Hi|Hi].
  - rewrite lookup_seqZ_lt by lia. destruct (lookup_lt_is_Some_2 bl i Hi) as [v Hv]. rewrite Hv. simpl. f_equal.
    rewrite Forall_lookup in Hr. specialize (Hr i v Hv). unfold FSSIZE, LOGSIZE, MAXOPBLOCKS, BSIZE in *.
    unfold head_block, put_head. rewrite (put_blocks_at _ _ _ _ _ v); rewrite ?length_wr32; try lia; [apply s32_id; lia|].
    rewrite Z.add_0_l, aget_nat, Hp. by apply lookup_app_l_Some.
  - rewrite lookup_seqZ_ge by lia. symmetry. apply lookup_ge_None. lia.
Qed.

(** ** Copying a block *)

Lemma cache_ok_log s f : cache_ok s → cache_ok (s <| d_log ::= f |>).
Proof.
  intros [H1 H2 H3 H4 H5 H6 H7 H8]. split; try done. intros i b Hb. destruct (H3 i b Hb). by split.
Qed.

#[global] Instance dirty_dec s bn : Decision (dirty s bn).
Proof.
  refine (cast_if (decide (Exists (λ b, has_key b bn ∧ b_dirty b = true) (d_bufs s)))); rewrite Exists_exists in *.
  - destruct e as (b & (i & Hi)%list_elem_of_lookup & Hb). by exists i, b.
  - intros (i & b & Hi & Hb). apply n. exists b. split; [by eapply list_elem_of_lookup_2|done].
Defined.

Lemma clean_or_dirty s bn : cache_ok s → ¬ in_use s bn → dirty s bn ∨ view s bn = on_disk s bn.
Proof.
  intros Hok Hu. destruct (decide (dirty s bn)) as [|Hd]; [by left|right]. apply view_clean; [done|].
  intros i b Hi Hk. split; apply not_true_is_false; intros H; [apply Hd|apply Hu]; by exists i, b.
Qed.

(** Block [c] is overwritten with [v]; nothing is in use that was not. *)
Record copied s s' (c : Z) (v : list Z) : Prop := {
  cp_ok : cache_ok s';
  cp_rest : same_rest s s';
  cp_view k : view s' k = if decide (k = c) then v else view s k;
  cp_blocks : d_blocks s' = <[(1, c) := v]> (d_blocks s);
  cp_dirty k : dirty s' k ↔ dirty s k ∧ k ≠ c;
  cp_use k : in_use s' k → in_use s k;
  cp_free : nfree s ≤ nfree s';
  cp_writes : d_writes s' = (1, c, v) :: d_writes s;
}.

Lemma handle_use s i bn d : handle s i bn d → in_use s bn.
Proof. intros [_ (b & Hb & Hk & Hl & _)]. by exists i, b. Qed.

Lemma sf_on_disk s s' : d_blocks s' = d_blocks s → ∀ k, on_disk s' k = on_disk s k.
Proof. intros E k. unfold on_disk. by rewrite E. Qed.

Lemma handle_length s i bn d : handle s i bn d → length d = Z.to_nat BSIZE.
Proof. intros Hh. pose proof Hh as [_ (b & Hb & _ & _ & _ & <-)]. by destruct (handle_locked_ok _ _ _ _ _ Hh Hb) as [[] _]. Qed.

Lemma copy_tail s f t a c v w :
  handle s f a v → handle s t c w → a ≠ c → dirty s a ∨ v = on_disk s a →
  wp (d <- bdata f ;; set_bdata t (λ _, d) ;; bwrite t ;; brelse f ;; brelse t)
    (λ _ s', cache_ok s' ∧ same_rest s s' ∧ (∀ k, view s' k = if decide (k = c) then v else view s k) ∧
       d_blocks s' = <[(1, c) := v]> (d_blocks s) ∧ (∀ k, dirty s' k ↔ dirty s k ∧ k ≠ c) ∧
       (∀ k, in_use s' k → in_use s k ∧ k ≠ a ∧ k ≠ c) ∧ nfree s + (if decide (dirty s a) then 1 else 2) ≤ nfree s' ∧
       d_writes s' = (1, c, v) :: d_writes s) s.
Proof.
  intros Ha Hc Hac Hcl. pose proof (handle_length _ _ _ _ Ha) as Hlen. apply wp_bind. eapply bdata_spec; [done|].
  apply wp_bind. eapply wp_mono; [by eapply set_bdata_spec|]. intros [] s3 (F3 & H3 & B3 & D3 & N3 & W3).
  apply wp_bind. eapply wp_mono; [by eapply bwrite_spec|]. intros [] s4 (F4 & H4 & B4 & D4 & N4 & W4).
  assert (handle s4 f a v) as Ha4 by (eapply (sf_handle _ _ _ F4); [done|]; by eapply (sf_handle _ _ _ F3)).
  assert (∀ k, k ≠ c → (dirty s4 k ↔ dirty s k) ∧ (in_use s4 k ↔ in_use s k) ∧ view s4 k = view s k ∧ on_disk s4 k = on_disk s k) as R4.
  { intros k Hk. rewrite (sf_dirty _ _ _ F4), (sf_dirty _ _ _ F3), (sf_use _ _ _ F4), (sf_use _ _ _ F3),
      (sf_view _ _ _ F4), (sf_view _ _ _ F3), (sf_disk _ _ _ F4), (sf_disk _ _ _ F3) by done. done. }
  destruct (R4 a Hac) as (Rd & Ru & Rv & Ro). apply wp_bind.
  eapply wp_mono; [eapply brelse_spec; [exact Ha4|by rewrite Rd, Ro]|]. intros [] s5 (F5 & V5 & B5 & D5 & U5 & N5 & N5' & W5).
  assert (handle s5 t c v) as Hc5 by (by eapply (sf_handle _ _ _ F5)).
  assert (on_disk s5 c = v) as Od5.
  { rewrite (sf_on_disk s4 s5 B5). rewrite (on_disk_insert s3 s4 c v c B4). by rewrite decide_True. }
  assert (¬ dirty s5 c) as D5c by (by rewrite (sf_dirty _ _ _ F5)).
  eapply wp_mono; [eapply brelse_spec; [exact Hc5|by right]|]. intros [] s6 (F6 & V6 & B6 & D6 & U6 & N6 & N6' & W6).
  split_and!; [exact (sf_ok _ _ _ F6)|..].
  - by rewrite <-(sf_rest _ _ _ F6), <-(sf_rest _ _ _ F5), <-(sf_rest _ _ _ F4), <-(sf_rest _ _ _ F3).
  - intros k. case_decide as Hk; [by subst|]. rewrite (sf_view _ _ _ F6) by done. destruct (decide (k = a)) as [->|Hka].
    + by rewrite V5, (handle_view _ _ _ _ Ha).
    + rewrite (sf_view _ _ _ F5) by done. by apply R4.
  - by rewrite B6, B5, B4, B3.
  - intros k. destruct (decide (k = c)) as [->|Hk]; [rewrite D6; naive_solver|]. rewrite (sf_dirty _ _ _ F6) by done.
    destruct (decide (k = a)) as [->|Hka]; [rewrite D5, Rd; naive_solver|]. rewrite (sf_dirty _ _ _ F5) by done.
    destruct (R4 k Hk) as (-> & _). naive_solver.
  - intros k Hu. assert (k ≠ c) as Hk by (by intros ->). rewrite (sf_use _ _ _ F6) in Hu by done.
    assert (k ≠ a) as Hka by (by intros ->). rewrite (sf_use _ _ _ F5) in Hu by done. split; [by apply R4|done].
  - specialize (N6' D5c). case_decide as Hd; [lia|]. rewrite <-Rd in Hd. specialize (N5' Hd). lia.
  - by rewrite W6, W5, W4, W3.
Qed.

Lemma copied_steps s s' c v : copied s s' c v → steps s s' [(1, c, v)].
Proof. intros []. by split. Qed.

(** Buffers [p] and [q] are now in use for blocks [x] and [y]. *)
Record both s s2 x y p q : Prop := {
  bt_x : handle s2 p x (view s x);
  bt_y : handle s2 q y (view s y);
  bt_rest : same_rest s s2;
  bt_view k : view s2 k = view s k;
  bt_blocks : d_blocks s2 = d_blocks s;
  bt_dirty k : dirty s2 k ↔ dirty s k;
  bt_use k : in_use s2 k → in_use s k ∨ k = x ∨ k = y;
  bt_free : nfree s ≤ nfree s2 + (if decide (dirty s x) then 0 else 1) + (if decide (dirty s y) then 0 else 1);
  bt_writes : d_writes s2 = d_writes s;
}.

Lemma two_reads (K : nat → nat → M fsys unit) (Q : unit → fsys → Prop) tail x y s :
  cache_ok s → 2 ≤ nfree s → x ≠ y → 0 ≤ x < FSSIZE → 0 ≤ y < FSSIZE → ¬ in_use s x → ¬ in_use s y →
  aget (lh_block (d_log s)) tail = Some y →
  (∀ p q s2, both s s2 x y p q → wp (K p q) Q s2) →
  wp (p <- bread 1 x ;; blk <- lh_block_at tail ;; q <- bread 1 blk ;; K p q) Q s.
Proof.
  intros Hok Hn Hxy Hx Hy Ux Uy Hl HK. apply wp_bind. eapply wp_mono; [apply bread_spec; (done || lia)|].
  intros p s1 (F1 & H1 & B1 & D1 & N1 & N1' & W1). apply wp_bind. unfold lh_block_at. apply wp_bind, wp_gets.
  rewrite (sr_log _ _ (sf_rest _ _ _ F1)). eapply wp_of_option; [done|]. apply wp_bind.
  eapply wp_mono; [apply bread_spec; [exact (sf_ok _ _ _ F1)|done|by rewrite (sf_use _ _ _ F1)|lia]|].
  intros q s2 (F2 & H2 & B2 & D2 & N2 & N2' & W2). apply HK. rewrite (sf_dirty _ _ _ F1) in N2', D2 by done.
  rewrite (sf_view _ _ _ F1) in H2 by done.
  split.
  - by eapply (sf_handle _ _ _ F2).
  - done.
  - by rewrite <-(sf_rest _ _ _ F2), <-(sf_rest _ _ _ F1).
  - intros k. destruct (decide (k = y)) as [->|Hky]; [by eapply handle_view|]. rewrite (sf_view _ _ _ F2) by done.
    destruct (decide (k = x)) as [->|Hkx]; [by eapply handle_view|]. by rewrite (sf_view _ _ _ F1).
  - congruence.
  - intros k. destruct (decide (k = y)) as [->|Hky]; [done|]. rewrite (sf_dirty _ _ _ F2) by done.
    destruct (decide (k = x)) as [->|Hkx]; [done|]. by rewrite (sf_dirty _ _ _ F1).
  - intros k Hk. destruct (decide (k = y)) as [->|Hky]; [by right; right|]. rewrite (sf_use _ _ _ F2) in Hk by done.
    destruct (decide (k = x)) as [->|Hkx]; [by right; left|]. rewrite (sf_use _ _ _ F1) in Hk by done. by left.
  - repeat case_decide; [specialize (N1' ltac:(done))..| |]; repeat (match goal with H : dirty s y |- _ => specialize (N2' H); clear H end); lia.
  - congruence.
Qed.

(** [write_log_one] copies a block to the log, [install_one] back. *)
Lemma both_copy s s2 x y p q f t a c :
  both s s2 x y p q → (f = p ∧ a = x ∧ t = q ∧ c = y) ∨ (f = q ∧ a = y ∧ t = p ∧ c = x) → x ≠ y →
  cache_ok s → ¬ in_use s a → ¬ in_use s x → ¬ in_use s y →
  wp (d <- bdata f ;; set_bdata t (λ _, d) ;; bwrite t ;; brelse f ;; brelse t) (λ _ s', copied s s' c (view s a)) s2.
Proof.
  intros [Hx Hy Hr Hv Hb Hd Hu Hf Hw] Hcase Hxy Hok Ua Ux Uy.
  assert (handle s2 f a (view s a) ∧ handle s2 t c (view s c) ∧ a ≠ c ∧
    (if decide (dirty s x) then 0 else 1) + (if decide (dirty s y) then 0 else 1) ≤ (if decide (dirty s2 a) then 1 else 2)) as (Hfa & Htc & Hac & Hn).
  { destruct Hcase as [(-> & -> & -> & ->)|(-> & -> & -> & ->)]; split_and!; try done.
    all: repeat case_decide; try lia; exfalso; naive_solver. }
  eapply wp_mono; [eapply (copy_tail s2 f t a c); [done..|]|].
  - rewrite Hd, (sf_on_disk s s2 Hb). by apply clean_or_dirty.
  - intros [] s' (C1 & C2 & C3 & C4 & C5 & C6 & C7 & C8). split; [done|by rewrite <-C2| | | | | |congruence].
    + intros k. rewrite C3. by rewrite Hv.
    + by rewrite C4, Hb.
    + intros k. by rewrite C5, Hd.
    + intros k Hk. destruct (C6 k Hk) as (Hk2 & Hka & Hkc). destruct (Hu k Hk2) as [?|[->| ->]]; [done|..]; naive_solver.
    + lia.
Qed.

(** ** Transactions *)

Section log.
Variables start size : Z.

(** The blocks of the log. *)
Definition in_log (k : Z) : Prop := start ≤ k < start + size.
#[global] Instance in_log_dec k : Decision (in_log k).
Proof. unfold in_log. apply _. Defined.

(** Blocks that may be logged. *)
Record loggable (bl : list Z) : Prop := {
  lb_nodup : NoDup bl;
  lb_home b : b ∈ bl → 0 ≤ b < FSSIZE ∧ ¬ in_log b;
  lb_len : Z.of_nat (length bl) < size ∧ Z.of_nat (length bl) ≤ LOGSIZE;
}.

(** The log in memory holds the transaction [bl]. *)
Record log_ok s (bl : list Z) : Prop := {
  lo_cache : cache_ok s;
  lo_dev : lg_dev (d_log s) = 1;
  lo_start : lg_start (d_log s) = start;
  lo_n : lh_n (d_log s) = Z.of_nat (length bl);
  lo_blocks : bl `prefix_of` lh_block (d_log s);
  lo_bl : loggable bl;
  lo_area : 0 ≤ start ∧ start + size ≤ FSSIZE;
  lo_use b : b ∈ bl ∨ in_log b → ¬ in_use s b;
  lo_clean b : in_log b → ¬ dirty s b;
  lo_free : 2 ≤ nfree s;
}.

Lemma log_ok_copied s s' bl c v : log_ok s bl → copied s s' c v → log_ok s' bl.
Proof.
  intros [H1 H2 H3 H4 H5 H6 H7 H8 H9 H10] [C1 C2 C3 C4 C5 C6 C7 C8]. rewrite <-(sr_log _ _ C2) in H2, H3, H4, H5.
  split; try done; [|intros b Hb Hd|lia].
  - intros b Hb Hu. by eapply H8, C6.
  - apply C5 in Hd as [Hd _]. by eapply H9.
Qed.

(** The [i]th block of the transaction and its log block. *)
Lemma log_slot s bl (i : nat) b :
  log_ok s bl → bl !! i = Some b →
  let x := start + Z.of_nat i + 1 in
  x ≠ b ∧ 0 ≤ x < FSSIZE ∧ 0 ≤ b < FSSIZE ∧ ¬ in_use s x ∧ ¬ in_use s b ∧ in_log x ∧ aget (lh_block (d_log s)) (Z.of_nat i) = Some b.
Proof.
  intros Hok Hb x. pose proof (lookup_lt_Some _ _ _ Hb) as Hi. destruct (lb_len bl (lo_bl _ _ Hok)) as [L1 L2].
  assert (in_log x) as Hx by (unfold in_log; lia). assert (b ∈ bl) as Hin by (by eapply list_elem_of_lookup_2).
  destruct (lb_home bl (lo_bl _ _ Hok) b Hin) as [Hr Hnl]. pose proof (lo_area _ _ Hok).
  split_and!; try (unfold in_log in *; lia).
  - apply (lo_use _ _ Hok). by right.
  - apply (lo_use _ _ Hok). by left.
  - rewrite aget_nat. destruct (lo_blocks _ _ Hok) as [tl ->]. by apply lookup_app_l_Some.
Qed.

Lemma write_log_one_spec s bl (i : nat) b :
  log_ok s bl → bl !! i = Some b →
  wp (write_log_one (Z.of_nat i)) (λ _ s', copied s s' (start + Z.of_nat i + 1) (view s b)) s.
Proof.
  intros Hok Hb. destruct (log_slot s bl i b Hok Hb) as (Hne & Hx & Hb' & Ux & Ub & _ & Hl). unfold write_log_one.
  apply wp_bind, wp_gets. rewrite (lo_dev _ _ Hok), (lo_start _ _ Hok).
  eapply (two_reads (λ p q, _)); [apply Hok|apply Hok|done..|]. intros p q s2 Hbt.
  eapply both_copy; [exact Hbt|by right|done|apply Hok|done..].
Qed.

Lemma install_one_spec s bl (i : nat) b :
  log_ok s bl → bl !! i = Some b →
  wp (install_one (Z.of_nat i)) (λ _ s', copied s s' b (view s (start + Z.of_nat i + 1))) s.
Proof.
  intros Hok Hb. destruct (log_slot s bl i b Hok Hb) as (Hne & Hx & Hb' & Ux & Ub & _ & Hl). unfold install_one.
  apply wp_bind, wp_gets. rewrite (lo_dev _ _ Hok), (lo_start _ _ Hok).
  eapply (two_reads (λ p q, _)); [apply Hok|apply Hok|done..|]. intros p q s2 Hbt.
  eapply both_copy; [exact Hbt|by left|done|apply Hok|done..].
Qed.

Lemma length_put_head l d : length (put_head l d) = length d.
Proof. unfold put_head. by rewrite length_put_blocks, length_wr32. Qed.

Lemma write_head_spec s bl :
  log_ok s bl → wp write_head (λ _ s', copied s s' start (put_head (d_log s) (view s start))) s.
Proof.
  intros Hok. pose proof (lo_area _ _ Hok). destruct (lb_len bl (lo_bl _ _ Hok)) as [L1 L2].
  assert (in_log start) as Hs by (unfold in_log; lia). pose proof (lo_clean _ _ Hok start Hs) as Hcl.
  assert (¬ in_use s start) as Hu by (apply (lo_use _ _ Hok); by right). pose proof (lo_free _ _ Hok).
  unfold write_head. apply wp_bind, wp_gets. rewrite (lo_dev _ _ Hok), (lo_start _ _ Hok). apply wp_bind.
  eapply wp_mono; [apply bread_spec; [apply Hok|unfold in_log in *; lia|done|lia]|].
  intros p s1 (F1 & H1 & B1 & D1 & N1 & N1' & W1). apply wp_bind.
  eapply wp_mono; [eapply set_bdata_spec; [exact H1|by rewrite length_put_head, (handle_length _ _ _ _ H1)]|].
  intros [] s3 (F3 & H3 & B3 & D3 & N3 & W3). apply wp_bind.
  eapply wp_mono; [by eapply bwrite_spec|]. intros [] s4 (F4 & H4 & B4 & D4 & N4 & W4).
  eapply wp_mono; [eapply brelse_spec; [exact H4|right; by rewrite (on_disk_insert s3 s4 _ _ _ B4), decide_True]|].
  intros [] s5 (F5 & V5 & B5 & D5 & U5 & N5 & N5' & W5). specialize (N5' D4). split; [exact (sf_ok _ _ _ F5)|..].
  - by rewrite <-(sf_rest _ _ _ F5), <-(sf_rest _ _ _ F4), <-(sf_rest _ _ _ F3), <-(sf_rest _ _ _ F1).
  - intros k. case_decide as Hk; [by subst|].
    by rewrite (sf_view _ _ _ F5), (sf_view _ _ _ F4), (sf_view _ _ _ F3), (sf_view _ _ _ F1).
  - by rewrite B5, B4, B3, B1.
  - intros k. destruct (decide (k = start)) as [->|Hk]; [rewrite D5; naive_solver|].
    rewrite (sf_dirty _ _ _ F5), (sf_dirty _ _ _ F4), (sf_dirty _ _ _ F3), (sf_dirty _ _ _ F1) by done. naive_solver.
  - intros k Hk. assert (k ≠ start) by (by intros ->).
    by rewrite (sf_use _ _ _ F5), (sf_use _ _ _ F4), (sf_use _ _ _ F3), (sf_use _ _ _ F1) in Hk.
  - lia.
  - by rewrite W5, W4, W3, W1.
Qed.

Lemma write_log_spec s bl :
  log_ok s bl →
  wp write_log (λ _ s', log_ok s' bl ∧ same_rest s s' ∧ steps s s' (log_writes start (view s <$> bl)) ∧
    (∀ k, ¬ in_log k → view s' k = view s k) ∧ (∀ k, dirty s' k ↔ dirty s k) ∧ (∀ k, in_use s' k → in_use s k)) s.
Proof.
  intros Hok. unfold write_log. apply wp_bind, wp_gets. rewrite (lo_n _ _ Hok), Nat2Z.id. set (ws := log_writes start (view s <$> bl)).
  eapply wp_mono; [apply (wp_for_all (λ j s1, log_ok s1 bl ∧ same_rest s s1 ∧ steps s s1 (take (Z.to_nat j) ws) ∧
    (∀ k, ¬ in_log k → view s1 k = view s k) ∧ (∀ k, dirty s1 k ↔ dirty s k) ∧ (∀ k, in_use s1 k → in_use s k)))|].
  - split_and!; try done.
  - intros j s1 Hj (O1 & R1 & S1 & V1 & D1 & U1). assert (∃ i, j = Z.of_nat i) as [i ->] by (exists (Z.to_nat j); lia).
    destruct (lookup_lt_is_Some_2 bl i) as [b Hb]; [lia|]. destruct (log_slot s1 bl i b O1 Hb) as (_ & _ & _ & _ & _ & Hx & _).
    eapply wp_mono; [by eapply write_log_one_spec|]. intros [] s2 C. split_and!.
    + by eapply log_ok_copied.
    + by rewrite <-(cp_rest _ _ _ _ C).
    + rewrite Nat2Z.id in S1. replace (Z.to_nat (Z.of_nat i + 1)) with (S i) by lia.
      erewrite take_S_r; [eapply steps_app; [exact S1|by apply copied_steps]|].
      unfold ws, log_writes. rewrite list_lookup_imap, list_lookup_fmap, Hb. simpl. rewrite V1; [done|].
      apply (lb_home bl (lo_bl _ _ Hok)). by eapply list_elem_of_lookup_2.
    + intros k Hk. rewrite (cp_view _ _ _ _ C), decide_False by (by intros ->). by apply V1.
    + intros k. rewrite (cp_dirty _ _ _ _ C), D1. split; [by intros []|]. intros Hd. split; [done|]. intros ->.
      by apply (lo_clean _ _ Hok (start + Z.of_nat i + 1)).
    + intros k Hk%(cp_use _ _ _ _ C). by apply U1.
  - intros [] s' (O & R & S & V & D & U). split_and!; try done. rewrite take_ge in S; [done|].
    unfold ws, log_writes. rewrite length_imap, length_fmap. lia.
Qed.

(** What the log holds for the transaction. *)
Definition logged s (bl : list Z) : list (list Z) := (λ i, view s (start + Z.of_nat i + 1)) <$> seq 0 (length bl).

Lemma logged_lookup s bl i : (i < length bl)%nat → logged s bl !! i = Some (view s (start + Z.of_nat i + 1)).
Proof. intros Hi. unfold logged. rewrite list_lookup_fmap, lookup_seq_lt by done. done. Qed.

Lemma install_trans_spec s bl :
  log_ok s bl →
  wp install_trans (λ _ s', log_ok s' bl ∧ same_rest s s' ∧ steps s s' (home_writes bl (logged s bl)) ∧
    (∀ k, k ∉ bl → view s' k = view s k) ∧ (∀ k, dirty s' k ↔ dirty s k ∧ k ∉ bl) ∧ (∀ k, in_use s' k → in_use s k)) s.
Proof.
  intros Hok. unfold install_trans. apply wp_bind, wp_gets. rewrite (lo_n _ _ Hok), Nat2Z.id. set (ws := home_writes _ _).
  eapply wp_mono; [apply (wp_for_all (λ j s1, log_ok s1 bl ∧ same_rest s s1 ∧ steps s s1 (take (Z.to_nat j) ws) ∧
    (∀ k, k ∉ bl → view s1 k = view s k) ∧ (∀ k, dirty s1 k ↔ dirty s k ∧ k ∉ take (Z.to_nat j) bl) ∧
    (∀ k, in_use s1 k → in_use s k)))|].
  - split_and!; try done. intros k. simpl. split; [|by intros []]. intros. split; [done|]. apply not_elem_of_nil.
  - intros j s1 Hj (O1 & R1 & S1 & V1 & D1 & U1). assert (∃ i, j = Z.of_nat i) as [i ->] by (exists (Z.to_nat j); lia).
    destruct (lookup_lt_is_Some_2 bl i) as [b Hb]; [lia|]. destruct (log_slot s1 bl i b O1 Hb) as (_ & _ & _ & _ & _ & Hx & _).
    assert (b ∈ bl) as Hin by (by eapply list_elem_of_lookup_2). rewrite Nat2Z.id in S1, D1.
    eapply wp_mono; [by eapply install_one_spec|]. intros [] s2 C. replace (Z.to_nat (Z.of_nat i + 1)) with (S i) by lia. split_and!.
    + by eapply log_ok_copied.
    + by rewrite <-(cp_rest _ _ _ _ C).
    + erewrite take_S_r; [eapply steps_app; [exact S1|by apply copied_steps]|].
      unfold ws, home_writes. rewrite lookup_zip_with, Hb. simpl. rewrite logged_lookup by lia. simpl. rewrite V1; [done|].
      intros Hbl. by apply (lb_home bl (lo_bl _ _ Hok)) in Hbl as [_ ?].
    + intros k Hk. rewrite (cp_view _ _ _ _ C), decide_False by (by intros ->). by apply V1.
    + intros k. rewrite (cp_dirty _ _ _ _ C), D1, (take_S_r bl i b Hb), not_elem_of_app, list_elem_of_singleton. naive_solver.
    + intros k Hk%(cp_use _ _ _ _ C). by apply U1.
  - intros [] s' (O & R & S & V & D & U). rewrite Z.add_0_l, Nat2Z.id in S, D. rewrite (take_ge bl) in D by done. split_and!; try done.
    rewrite take_ge in S; [done|]. unfold ws, home_writes. rewrite length_zip_with. lia.
Qed.

(** ** The trace of a commit *)

Definition commit_writes s (bl : list Z) : list (Z * Z * list Z) :=
  let vs := view s <$> bl in
  let h := put_head (d_log s) (view s start) in
  log_writes start vs ++ [(1, start, h)] ++ home_writes bl vs ++ [(1, start, put_head ((d_log s) <| lh_n := 0 |>) h)].

Lemma log_writes_keys vs k : k ∈ (log_writes start vs).*1 → ∃ i, (i < length vs)%nat ∧ k = (1, start + Z.of_nat i + 1).
Proof.
  unfold log_writes. rewrite list_elem_of_fmap. intros ([k' v] & -> & (i & Hi)%list_elem_of_lookup).
  rewrite list_lookup_imap in Hi. destruct (vs !! i) eqn:E; [|done]. simpl in Hi. injection Hi as <- <-. exists i.
  split; [by eapply lookup_lt_Some|done].
Qed.

Lemma log_writes_nodup vs : NoDup (log_writes start vs).*1.
Proof.
  apply NoDup_alt. intros i j k. unfold log_writes. rewrite !list_lookup_fmap, !list_lookup_imap.
  destruct (vs !! i), (vs !! j); simpl; try done. intros [= <-] [= E]. lia.
Qed.

Lemma home_writes_keys bl vs : length bl = length vs → (home_writes bl vs).*1 = pair 1 <$> bl.
Proof.
  revert vs. induction bl as [|b bl IH]; intros [|v vs]; simpl; try done. intros [= Hl]. by rewrite IH.
Qed.

Lemma home_writes_in bl vs i b v : bl !! i = Some b → vs !! i = Some v → (1, b, v) ∈ home_writes bl vs.
Proof. intros Hb Hv. apply list_elem_of_lookup. exists i. unfold home_writes. by rewrite lookup_zip_with, Hb; simpl; rewrite Hv. Qed.

Lemma log_writes_in vs i v : vs !! i = Some v → (1, start + Z.of_nat i + 1, v) ∈ log_writes start vs.
Proof. intros Hv. apply list_elem_of_lookup. exists i. unfold log_writes. by rewrite list_lookup_imap, Hv. Qed.

(** A clean block that is not in use is as on disk. *)
Lemma log_view s bl b : log_ok s bl → in_log b → view s b = on_disk s b.
Proof.
  intros Hok Hb. destruct (clean_or_dirty s b) as [Hd|]; [apply Hok|apply (lo_use _ _ Hok); by right| |done].
  by apply (lo_clean _ _ Hok) in Hd.
Qed.

Lemma in_log_start bl : loggable bl → in_log start.
Proof. intros H. destruct (lb_len bl H). unfold in_log. lia. Qed.

(** The transaction, once logged, once installed, and once it is over. *)
Lemma logged_after s s1 s2 bl h :
  log_ok s1 bl → steps s s1 (log_writes start (view s <$> bl)) → copied s1 s2 start h → logged s2 bl = view s <$> bl.
Proof.
  intros O1 [S1 _] C2. apply list_eq. intros i. destruct (decide (i < length bl)%nat) as [Hi|Hi].
  - rewrite logged_lookup, list_lookup_fmap by done. destruct (lookup_lt_is_Some_2 bl i Hi) as [b Hb]. rewrite Hb. simpl. f_equal.
    destruct (log_slot s1 bl i b O1 Hb) as (_ & _ & _ & _ & _ & Hx & _).
    rewrite (cp_view _ _ _ _ C2), decide_False by lia. rewrite (log_view _ bl) by done. unfold on_disk. rewrite S1.
    apply block_at_in; [apply log_writes_nodup|]. apply log_writes_in. by rewrite list_lookup_fmap, Hb.
  - rewrite !lookup_ge_None_2; [done|..]; unfold logged; rewrite length_fmap, ?length_seq; lia.
Qed.

Lemma installed_view s s' bl vs b :
  log_ok s' bl → steps s s' (home_writes bl vs) → length bl = length vs → ¬ dirty s' b →
  ∀ i v, bl !! i = Some b → vs !! i = Some v → view s' b = v.
Proof.
  intros Hok [S _] Hlen Hd i v Hb Hv. assert (b ∈ bl) as Hin by (by eapply list_elem_of_lookup_2).
  destruct (clean_or_dirty s' b) as [|E]; [apply Hok|apply (lo_use _ _ Hok); by left|done|].
  rewrite E. unfold on_disk. rewrite S. apply block_at_in; [|by eapply home_writes_in].
  rewrite home_writes_keys by done. apply NoDup_fmap_2; [by intros ?? [= ->]|apply (lo_bl _ _ Hok)].
Qed.

Lemma log_ok_clear s bl : log_ok s bl → log_ok (s <| d_log ::= λ l, l <| lh_n := 0 |> |>) [].
Proof.
  intros [H1 H2 H3 H4 H5 H6 H7 H8 H9 H10]. split; try done.
  - by apply cache_ok_log.
  - by exists (lh_block (d_log s)).
  - destruct (lb_len bl H6). split; [apply NoDup_nil_2|by intros b ?%not_elem_of_nil|simpl; unfold LOGSIZE, MAXOPBLOCKS; lia].
  - intros b [Hb|Hb]; [by apply not_elem_of_nil in Hb|]. apply H8. by right.
Qed.

Lemma commit_spec s bl :
  log_ok s bl → bl ≠ [] →
  wp commit (λ _ s', log_ok s' [] ∧ steps s s' (commit_writes s bl) ∧ (∀ k, ¬ in_log k → view s' k = view s k) ∧
    (∀ k, dirty s' k ↔ dirty s k ∧ k ∉ bl) ∧ (∀ k, in_use s' k → in_use s k) ∧
    same_rest (s <| d_log ::= λ l, l <| lh_n := 0 |> |>) s') s.
Proof.
  intros Hok Hne. unfold commit. apply wp_bind, wp_gets. rewrite (lo_n _ _ Hok).
  destruct (Z.ltb_spec 0 (Z.of_nat (length bl))) as [Hpos|]; [|by destruct bl; simpl in *; [|lia]]. clear Hpos Hne.
  pose proof (lo_bl _ _ Hok) as Hbl. pose proof (in_log_start bl Hbl) as Hst.
  assert (∀ b, b ∈ bl → ¬ in_log b) as Hhome by (by intros b [_ ?]%(lb_home bl Hbl)).
  apply wp_bind. eapply wp_mono; [by apply write_log_spec|]. intros [] s1 (O1 & R1 & S1 & V1 & D1 & U1).
  apply wp_bind. eapply wp_mono; [by eapply write_head_spec|]. intros [] s2 C2. pose proof (log_ok_copied _ _ _ _ _ O1 C2) as O2.
  assert (view s1 start = view s start) as Hv0.
  { rewrite !(log_view _ bl) by done. unfold on_disk. rewrite (proj1 S1). apply block_at_out.
    intros (i & _ & [= E])%log_writes_keys. lia. }
  apply wp_bind. eapply wp_mono; [by apply install_trans_spec|]. intros [] s3 (O3 & R3 & S3 & V3 & D3 & U3).
  rewrite (logged_after s s1 s2 bl _ O1 S1 C2) in S3. apply wp_bind. apply wp_modify. set (s4 := s3 <| d_log ::= _ |>).
  assert (d_log s3 = d_log s) as Hlog by (by rewrite (sr_log _ _ R3), (sr_log _ _ (cp_rest _ _ _ _ C2)), (sr_log _ _ R1)).
  pose proof (log_ok_clear s3 bl O3 : log_ok s4 []) as O4.
  eapply wp_mono; [by eapply write_head_spec|]. intros [] s5 C5.
  assert (view s4 start = put_head (d_log s) (view s start)) as Hv4.
  { change (view s4 start) with (view s3 start). rewrite V3 by (by intros ?%Hhome).
    rewrite (cp_view _ _ _ _ C2), decide_True by done. by rewrite Hv0, (sr_log _ _ R1). }
  split_and!; [by eapply log_ok_copied|..].
  - unfold commit_writes. eapply steps_app; [exact S1|]. rewrite <-Hv0, <-(sr_log _ _ R1).
    eapply steps_app; [by apply copied_steps|]. eapply steps_app; [exact S3|].
    rewrite Hv0, (sr_log _ _ R1), <-Hv4, <-Hlog. exact (copied_steps s4 s5 _ _ C5).
  - intros k Hk. rewrite (cp_view _ _ _ _ C5), decide_False by (by intros ->). change (view s4 k) with (view s3 k).
    destruct (decide (k ∈ bl)) as [Hin|Hin].
    + apply list_elem_of_lookup in Hin as [i Hi]. eapply (installed_view s2 s3 bl _ k O3 S3); [by rewrite length_fmap| |done|].
      * intros [_ Hd]%D3. apply Hd. by eapply list_elem_of_lookup_2.
      * by rewrite list_lookup_fmap, Hi.
    + rewrite V3, (cp_view _ _ _ _ C2), decide_False by (done || by intros ->). by apply V1.
  - intros k. rewrite (cp_dirty _ _ _ _ C5). change (dirty s4 k) with (dirty s3 k). rewrite D3, (cp_dirty _ _ _ _ C2), D1.
    split; [naive_solver|]. intros [Hd Hk]. assert (k ≠ start); [|done]. intros ->. by apply (lo_clean _ _ Hok start).
  - intros k Hk%(cp_use _ _ _ _ C5). apply U1, (cp_use _ _ _ _ C2), U3. done.
  - transitivity s4; [|apply C5]. assert (same_rest s s3) as [Q1 Q2 Q3 Q4 Q5 Q6 Q7 Q8] by (rewrite R1, (cp_rest _ _ _ _ C2); done).
    split; try done. unfold s4. simpl. unfold upd. by rewrite Q1.
Qed.

(** ** Crashes *)

Lemma recovered_in m bl i b :
  head_blocks (block_at m (1, start)) = bl → NoDup bl → bl !! i = Some b →
  recovered start m b = block_at m (1, start + Z.of_nat i + 1).
Proof.
  intros Hh Hnd Hb. unfold recovered. rewrite Hh. assert (list_find (λ x, x = b) bl = Some (i, b)) as ->; [|done].
  apply list_find_Some. split_and!; [done..|]. intros j y Hj Hji ->. rewrite NoDup_alt in Hnd. specialize (Hnd i j b Hb Hj). lia.
Qed.

Lemma recovered_out m bl b :
  head_blocks (block_at m (1, start)) = bl → b ∉ bl → recovered start m b = block_at m (1, b).
Proof.
  intros Hh Hb. unfold recovered. rewrite Hh. assert (list_find (λ x, x = b) bl = None) as ->; [|done].
  apply list_find_None, Forall_forall. by intros x Hx ->.
Qed.

Lemma head_blocks_nil d : head_n d = 0 → head_blocks d = [].
Proof. unfold head_blocks. by intros ->. Qed.

(** Recovery may be interrupted anywhere. *)
Lemma install_crash m bl vs h0 k b :
  loggable bl → head_blocks (block_at m (1, start)) = bl → length bl = length vs →
  (∀ i v, vs !! i = Some v → block_at m (1, start + Z.of_nat i + 1) = v) → head_n h0 = 0 → ¬ in_log b →
  recovered start (apply_writes m (take k (home_writes bl vs ++ [(1, start, h0)]))) b = recovered start m b.
Proof.
  intros Hbl Hh Hlen Hvs H0 Hb. pose proof (in_log_start bl Hbl) as Hst.
  assert (∀ x, in_log x → (1, x) ∉ (home_writes bl vs).*1) as Hno.
  { intros x Hx. rewrite home_writes_keys by done. intros (y & [= ->] & Hy)%list_elem_of_fmap.
    by apply (lb_home bl Hbl) in Hy as [_ ?]. }
  assert (∀ i, (i < length bl)%nat → in_log (start + Z.of_nat i + 1)) as Hslot.
  { intros i Hi. destruct (lb_len bl Hbl). unfold in_log. lia. }
  destruct (decide (k ≤ length (home_writes bl vs))%nat) as [Hk|Hk].
  - rewrite take_app_le by done. set (m' := apply_writes m _).
    assert (∀ x, in_log x → block_at m' (1, x) = block_at m (1, x)) as Hm.
    { intros x Hx. apply block_at_out. rewrite fmap_take. intros Hin. apply (Hno x Hx). by eapply elem_of_take in Hin as (? & ?%list_elem_of_lookup_2 & _). }
    destruct (decide (b ∈ bl)) as [Hin|Hin].
    + apply list_elem_of_lookup in Hin as [i Hi]. pose proof (Hslot i (lookup_lt_Some _ _ _ Hi)).
      rewrite !(recovered_in _ bl i b) by (rewrite ?Hm; done || apply Hbl). by apply Hm.
    + rewrite !(recovered_out _ bl b) by (rewrite ?Hm; done). apply block_at_out. rewrite fmap_take, home_writes_keys by done.
      intros (j & Hj%list_elem_of_lookup_2 & _)%elem_of_take. by apply list_elem_of_fmap in Hj as (y & [= ->] & Hy).
  - rewrite take_ge by (rewrite length_app; simpl; lia). rewrite apply_writes_app. set (m' := apply_writes (apply_writes _ _) _).
    assert (∀ x, x ≠ start → block_at m' (1, x) = block_at (apply_writes m (home_writes bl vs)) (1, x)) as Hm.
    { intros x Hx. apply block_at_out. simpl. intros [[= ->]|?%not_elem_of_nil]%elem_of_cons; done. }
    rewrite (recovered_out m' [] b); [|apply head_blocks_nil; unfold m'; simpl; unfold block_at; by rewrite lookup_insert_eq|apply not_elem_of_nil].
    rewrite Hm by (by intros ->). destruct (decide (b ∈ bl)) as [Hin|Hin].
    + apply list_elem_of_lookup in Hin as [i Hi]. destruct (lookup_lt_is_Some_2 vs i) as [v Hv]; [rewrite <-Hlen; by eapply lookup_lt_Some|].
      rewrite (recovered_in m bl i b), (Hvs i v Hv) by (done || apply Hbl). apply block_at_in; [|by eapply home_writes_in].
      rewrite home_writes_keys by done. apply NoDup_fmap_2; [by intros ?? [= ->]|apply Hbl].
    + rewrite (recovered_out m bl b) by done. apply block_at_out. rewrite home_writes_keys by done.
      by intros (y & [= ->] & Hy)%list_elem_of_fmap.
Qed.

(** A crash of [commit] leaves all of the transaction or nothing. *)
Lemma commit_crash m bl (f : Z → list Z) h h0 k :
  loggable bl → head_n (block_at m (1, start)) = 0 → head_blocks h = bl → head_n h0 = 0 →
  let m' := apply_writes m (take k (log_writes start (f <$> bl) ++ [(1, start, h)] ++ home_writes bl (f <$> bl) ++ [(1, start, h0)])) in
  (∀ b, ¬ in_log b → recovered start m' b = block_at m (1, b)) ∨
  (∀ b, ¬ in_log b → recovered start m' b = if decide (b ∈ bl) then f b else block_at m (1, b)).
Proof.
  intros Hbl H0 Hh Hh0. simpl. pose proof (in_log_start bl Hbl) as Hst. set (A := log_writes start (f <$> bl)).
  assert (∀ x, ¬ in_log x ∨ x = start → (1, x) ∉ A.*1) as HA.
  { intros x Hx (i & Hi & [= E])%log_writes_keys. rewrite length_fmap in Hi. destruct (lb_len bl Hbl). unfold in_log in *. lia. }
  destruct (decide (k ≤ length A)%nat) as [Hk|Hk].
  - left. intros b Hb. rewrite take_app_le by done.
    assert (∀ x, ¬ in_log x ∨ x = start → block_at (apply_writes m (take k A)) (1, x) = block_at m (1, x)) as Hm.
    { intros x Hx. apply block_at_out. rewrite fmap_take. intros (j & Hj%list_elem_of_lookup_2 & _)%elem_of_take. by apply (HA x Hx). }
    rewrite (recovered_out _ [] b); [by apply Hm; left|rewrite Hm by (by right); by apply head_blocks_nil|apply not_elem_of_nil].
  - right. intros b Hb. rewrite take_app_ge by lia. destruct (k - length A)%nat as [|j] eqn:Ek; [lia|]. simpl.
    rewrite cons_middle, app_assoc, apply_writes_app. set (m1 := apply_writes m (A ++ _)).
    assert (block_at m1 (1, start) = h) as Hm1.
    { unfold m1. rewrite apply_writes_app. simpl. unfold block_at. by rewrite lookup_insert_eq. }
    assert (∀ x, x ≠ start → block_at m1 (1, x) = block_at (apply_writes m A) (1, x)) as Hm1'.
    { intros x Hx. unfold m1. rewrite apply_writes_app. apply block_at_out. simpl. by intros [[= ->]|?%not_elem_of_nil]%elem_of_cons. }
    assert (∀ i v, (f <$> bl) !! i = Some v → block_at m1 (1, start + Z.of_nat i + 1) = v) as Hvs.
    { intros i v Hv. rewrite Hm1' by lia. apply block_at_in; [apply log_writes_nodup|by apply log_writes_in]. }
    rewrite install_crash; try done; [|by rewrite Hm1|by rewrite length_fmap]. case_decide as Hin.
    + apply list_elem_of_lookup in Hin as [i Hi]. rewrite (recovered_in m1 bl i b); [|by rewrite Hm1|apply Hbl|done].
      apply Hvs. by rewrite list_lookup_fmap, Hi.
    + rewrite (recovered_out m1 bl b); [|by rewrite Hm1|done]. rewrite Hm1' by (by intros ->). apply block_at_out. by apply HA; left.
Qed.

(** ** Recovery *)

(** Nothing is in use and the disk is up to date, as after boot. *)
Record quiet s : Prop := {
  qt_cache : cache_ok s;
  qt_clean k : ¬ dirty s k;
  qt_use k : ¬ in_use s k;
  qt_free : 2 ≤ nfree s;
}.

(** What recovery changes outside the cache: the header in memory. *)
Record log_rest s s' : Prop := {
  lr_rest : same_rest (s <| d_log := d_log s' |>) s';
  lr_log : d_log s' = (d_log s) <| lh_n := lh_n (d_log s') |> <| lh_block := lh_block (d_log s') |>;
  lr_len : length (lh_block (d_log s')) = length (lh_block (d_log s));
}.

Lemma quiet_view s k : quiet s → view s k = on_disk s k.
Proof. intros [H1 H2 H3 H4]. destruct (clean_or_dirty s k); [done..|by destruct (H2 k)|done]. Qed.

Lemma read_blocks (g : Z → Z) n s :
  (n ≤ length (lh_block (d_log s)))%nat →
  wp (for_all n 0 (λ i, set_lh_block i (g i))) (λ _ s', ∃ l, s' = s <| d_log := l |> ∧
    l = (d_log s) <| lh_block := (g <$> seqZ 0 (Z.of_nat n)) ++ drop n (lh_block (d_log s)) |>) s.
Proof.
  intros Hn. set (X := λ j : nat, (g <$> seqZ 0 (Z.of_nat j)) ++ drop j (lh_block (d_log s))).
  eapply wp_mono; [apply (wp_for_all (λ j s1, s1 = s <| d_log := (d_log s) <| lh_block := X (Z.to_nat j) |> |>))|].
  - unfold X. simpl. rewrite drop_0. destruct s as []. by destruct d_log.
  - intros j s1 Hj ->. assert (∃ i, j = Z.of_nat i) as [i ->] by (exists (Z.to_nat j); lia). rewrite Nat2Z.id.
    replace (Z.to_nat (Z.of_nat i + 1)) with (S i) by lia. unfold set_lh_block, lh_block_at. apply wp_bind, wp_bind, wp_gets.
    destruct (lookup_lt_is_Some_2 (lh_block (d_log s)) i) as [v Hv]; [lia|].
    assert (length (g <$> seqZ 0 (Z.of_nat i)) = i) as Hl by (rewrite length_fmap, length_seqZ; lia).
    eapply (wp_of_option _ _ v).
    { simpl. rewrite aget_nat. unfold X. rewrite lookup_app_r, Hl, Nat.sub_diag, lookup_drop, Nat.add_0_r by lia. done. }
    apply wp_modify. simpl. unfold aset. rewrite (proj2 (Z.ltb_ge _ _)) by lia. rewrite Nat2Z.id.
    assert (<[i := g (Z.of_nat i)]> (X i) = X (S i)) as E; [|by rewrite <-E].
    unfold X. rewrite seqZ_S, fmap_app, <-app_assoc. rewrite (drop_S _ v i) by done. simpl.
    rewrite insert_app_r_alt, Hl, Nat.sub_diag by lia. done.
  - intros [] s' ->. rewrite Z.add_0_l, Nat2Z.id. eauto.
Qed.

Lemma read_head_spec s bl :
  quiet s → lg_dev (d_log s) = 1 → lg_start (d_log s) = start → length (lh_block (d_log s)) = Z.to_nat LOGSIZE →
  0 ≤ start ∧ start + size ≤ FSSIZE → loggable bl →
  head_n (on_disk s start) = Z.of_nat (length bl) → head_blocks (on_disk s start) = bl →
  wp read_head (λ _ s', log_ok s' bl ∧ quiet s' ∧ d_blocks s' = d_blocks s ∧ d_writes s' = d_writes s ∧ log_rest s s') s.
Proof.
  intros Hq Hdev Hst Hlen Harea Hbl Hn Hh. pose proof (in_log_start bl Hbl) as Hin. pose proof Hq as [Q1 Q2 Q3 Q4].
  unfold read_head. apply wp_bind, wp_gets. rewrite Hdev, Hst. apply wp_bind.
  eapply wp_mono; [apply bread_spec; [done|unfold in_log in *; lia|done|lia]|].
  intros p s1 (F1 & H1 & B1 & D1 & N1 & _ & W1). rewrite quiet_view in H1 by done. apply wp_bind. eapply bdata_spec; [exact H1|].
  change (s32 (rd32 (on_disk s start) 0)) with (head_n (on_disk s start)). rewrite Hn.
  apply wp_bind, wp_modify. set (s2 := s1 <| d_log ::= _ |>). destruct (lb_len bl Hbl) as [L1 L2].
  pose proof (sr_log _ _ (sf_rest _ _ _ F1)) as Hl1. apply wp_bind. rewrite Nat2Z.id.
  eapply wp_mono; [apply (read_blocks (head_block (on_disk s start)))|].
  { simpl. rewrite Hl1, Hlen. lia. }
  intros [] s3 (l & -> & ->). set (s3 := s2 <| d_log := _ |>).
  assert (handle s3 p start (on_disk s start)) as H3 by (destruct H1 as [Hok1 Hb1]; split; [by apply cache_ok_log, cache_ok_log|exact Hb1]).
  eapply wp_mono; [eapply brelse_spec; [exact H3|right; symmetry; by apply (sf_on_disk s s1 B1)]|].
  intros [] s4 (F4 & V4 & B4 & D4 & U4 & N4 & N4' & W4).
  assert (∀ k, ¬ dirty s4 k) as Hd4.
  { intros k. destruct (decide (k = start)) as [->|Hk]; [rewrite D4|rewrite (sf_dirty _ _ _ F4) by done].
    - change (¬ dirty s1 start). by rewrite D1.
    - change (¬ dirty s1 k). by rewrite (sf_dirty _ _ _ F1). }
  assert (∀ k, ¬ in_use s4 k) as Hu4.
  { intros k. destruct (decide (k = start)) as [->|Hk]; [done|]. rewrite (sf_use _ _ _ F4) by done.
    change (¬ in_use s1 k). by rewrite (sf_use _ _ _ F1). }
  assert (2 ≤ nfree s4) as Hn4.
  { change (nfree s3) with (nfree s1) in N4'. assert (¬ dirty s3 start) as X by (change (¬ dirty s1 start); by rewrite D1).
    specialize (N4' X). lia. }
  pose proof (sr_log _ _ (sf_rest _ _ _ F4)) as Hl4. simpl in Hl4. rewrite Hl1 in Hl4.
  pose proof (sf_ok _ _ _ F4). split_and!; [|by split|rewrite B4; exact B1|rewrite W4; exact W1|].
  - split; try done; rewrite ?Hl4; try done. simpl. exists (drop (length bl) (lh_block (d_log s))). f_equal.
    rewrite <-Hn. exact Hh.
  - pose proof (sf_rest _ _ _ F4) as [X1 X2 X3 X4 X5 X6 X7 X8]. pose proof (sf_rest _ _ _ F1) as [Y1 Y2 Y3 Y4 Y5 Y6 Y7 Y8]. split.
    + split; [done|etransitivity; [eassumption|done]..].
    + rewrite Hl4. by destruct (d_log s).
    + rewrite Hl4. simpl. rewrite length_app, length_fmap, length_seqZ, length_drop. lia.
Qed.

(** The writes of a recovery: home blocks and empty headers. *)
Definition recovery_writes (bl : list Z) (ws : list (Z * Z * list Z)) : Prop :=
  ∀ x v, (1, x, v) ∈ ws → x ∈ bl ∨ (x = start ∧ head_n v = 0).

Lemma home_writes_dest bl vs x v : (1, x, v) ∈ home_writes bl vs → x ∈ bl.
Proof.
  unfold home_writes. intros (i & Hi)%list_elem_of_lookup. rewrite lookup_zip_with in Hi.
  destruct (bl !! i) as [b|] eqn:E; [|done]. simpl in Hi. destruct (vs !! i); [|done]. simpl in Hi. injection Hi as -> _.
  by eapply list_elem_of_lookup_2.
Qed.

(** The rest of the state after recovery. *)
Lemma recover_rest s s1 s2 s4 (bl : list Z) c v :
  quiet s1 → log_rest s s1 → same_rest s1 s2 → (∀ k, dirty s2 k ↔ dirty s1 k ∧ k ∉ bl) → (∀ k, in_use s2 k → in_use s1 k) → 2 ≤ nfree s2 →
  copied (s2 <| d_log ::= λ l, l <| lh_n := 0 |> |>) s4 c v → quiet s4 ∧ log_rest s s4 ∧ lh_n (d_log s4) = 0.
Proof.
  intros Q1 [L1 L2 L3] [R1 R2 R3 R4 R5 R6 R7 R8] D2 U2 N2 C4. pose proof (cp_rest _ _ _ _ C4) as [X1 X2 X3 X4 X5 X6 X7 X8]. simpl in *.
  assert (d_log s4 = (d_log s1) <| lh_n := 0 |>) as El by (rewrite X1, R1; done).
  split_and!; [split; [apply C4| | |pose proof (cp_free _ _ _ _ C4) as Hn; change (nfree (s2 <| d_log ::= _ |>)) with (nfree s2) in Hn; lia]|split|by rewrite El; destruct (d_log s1)].
  - intros k [Hd _]%(cp_dirty _ _ _ _ C4). change (dirty s2 k) in Hd. apply D2 in Hd as [Hd _]. by destruct (qt_clean _ Q1 k).
  - intros k Hu%(cp_use _ _ _ _ C4). by apply (qt_use _ Q1 k), U2.
  - destruct L1 as [Y1 Y2 Y3 Y4 Y5 Y6 Y7 Y8]. split; simpl in *; congruence.
  - rewrite El, L2. by destruct (d_log s).
  - rewrite El. by destruct (d_log s1).
Qed.

(** Recovery installs the transaction of the header, if there is one, and
    may itself be interrupted. *)
Lemma recover_spec s bl :
  quiet s → lg_dev (d_log s) = 1 → lg_start (d_log s) = start → length (lh_block (d_log s)) = Z.to_nat LOGSIZE →
  0 ≤ start ∧ start + size ≤ FSSIZE → loggable bl →
  head_n (on_disk s start) = Z.of_nat (length bl) → head_blocks (on_disk s start) = bl →
  wp recover_from_log (λ _ s', log_ok s' [] ∧ head_n (on_disk s' start) = 0 ∧
    (∀ b, ¬ in_log b → view s' b = recovered start (d_blocks s) b) ∧ (quiet s' ∧ log_rest s s' ∧ lh_n (d_log s') = 0) ∧
    ∃ ws, steps s s' ws ∧ recovery_writes bl ws ∧
      ∀ k b, ¬ in_log b → recovered start (apply_writes (d_blocks s) (take k ws)) b = recovered start (d_blocks s) b) s.
Proof.
  intros Hq Hdev Hst Hlen Harea Hbl Hn Hh. pose proof (in_log_start bl Hbl) as Hin. unfold recover_from_log.
  apply wp_bind. eapply wp_mono; [by apply (read_head_spec s bl)|]. intros [] s1 (O1 & Q1 & B1 & W1 & LR1).
  apply wp_bind. eapply wp_mono; [by apply install_trans_spec|]. intros [] s2 (O2 & R2 & S2 & V2 & D2 & U2).
  apply wp_bind, wp_modify. set (s3 := s2 <| d_log ::= _ |>). pose proof (log_ok_clear s2 bl O2 : log_ok s3 []) as O3.
  eapply wp_mono; [by eapply write_head_spec|]. intros [] s4 C4. set (h0 := put_head _ _) in C4.
  assert (head_n h0 = 0) as Hh0.
  { unfold h0. rewrite put_head_n; [done|simpl; unfold LOGSIZE, MAXOPBLOCKS; lia|]. rewrite (log_view s3 []) by done.
    apply length_on_disk, O3. }
  assert (length bl = length (logged s1 bl)) as Hll by (unfold logged; by rewrite length_fmap, length_seq).
  assert (∀ i v, logged s1 bl !! i = Some v → block_at (d_blocks s) (1, start + Z.of_nat i + 1) = v) as Hvs.
  { intros i v Hv. assert (i < length bl)%nat as Hi by (rewrite Hll; by eapply lookup_lt_Some). rewrite logged_lookup in Hv by done.
    injection Hv as <-. rewrite quiet_view by done. unfold on_disk. by rewrite B1. }
  assert (steps s s4 (home_writes bl (logged s1 bl) ++ [(1, start, h0)])) as Hs4.
  { eapply steps_app; [|exact (copied_steps s3 s4 _ _ C4)]. destruct S2 as [Sb Sw]. rewrite B1 in Sb. rewrite W1 in Sw. by split. }
  destruct (recover_rest s s1 s2 s4 bl start h0 Q1 LR1 R2 D2 U2 (lo_free _ _ O2) C4) as (RR1 & RR2 & RR3).
  split_and!; [by eapply log_ok_copied|rewrite (on_disk_insert s3 s4 _ _ _ (cp_blocks _ _ _ _ C4)), decide_True by done; done| |done|done|done|].
  - intros b Hb. assert (b ≠ start) as Hbs by (by intros ->).
    rewrite <-(install_crash (d_blocks s) bl (logged s1 bl) h0 (S (length bl)) b), take_ge
      by (done || rewrite length_app; unfold home_writes; rewrite length_zip_with; simpl; lia).
    rewrite <-(proj1 Hs4), (recovered_out _ [] b); [| |apply not_elem_of_nil].
    2: { apply head_blocks_nil. change (head_n (on_disk s4 start) = 0).
         by rewrite (on_disk_insert s3 s4 _ _ _ (cp_blocks _ _ _ _ C4)), decide_True. }
    change (view s4 b = on_disk s4 b). destruct (clean_or_dirty s4 b) as [Hd|]; [by apply (cp_ok _ _ _ _ C4)| | |done].
    + intros Hu%(cp_use _ _ _ _ C4). by apply (qt_use _ Q1 b), U2.
    + apply (cp_dirty _ _ _ _ C4) in Hd as [Hd _]. change (dirty s2 b) in Hd. apply D2 in Hd as [Hd _]. by destruct (qt_clean _ Q1 b).
  - exists (home_writes bl (logged s1 bl) ++ [(1, start, h0)]). split_and!; [done| |intros k b Hb; by apply install_crash].
    intros x v [?%home_writes_dest|[[= -> ->]|?%not_elem_of_nil]%elem_of_cons]%elem_of_app; [by left|by right|done].
Qed.

(** ** The theorems *)

(** The disk [m] if the machine stops while [s] goes to [s']: some of the
    writes are done, in order. *)
Definition crash_of s s' m : Prop :=
  ∃ ws k, d_writes s' = rev ws ++ d_writes s ∧ m = apply_writes (d_blocks s) (take k ws).

Lemma crash_steps s s' ws m : steps s s' ws → crash_of s s' m → ∃ k, m = apply_writes (d_blocks s) (take k ws).
Proof.
  intros [_ Hw] (ws' & k & Hw' & ->). exists k. do 2 f_equal. rewrite Hw in Hw'. apply app_inv_tail in Hw'.
  by rewrite <-(rev_involutive ws), Hw', rev_involutive.
Qed.

(** The disk has a superblock with this log, and a header that the log code
    wrote. *)
Record disk_ok m : Prop := {
  dk_start : rd32 (block_at m (1, 1)) 16 = start;
  dk_size : rd32 (block_at m (1, 1)) 12 = size;
  dk_area : 0 ≤ start ∧ start + size ≤ FSSIZE ∧ ¬ in_log 1;
  dk_n : 0 ≤ head_n (block_at m (1, start));
  dk_bl : loggable (head_blocks (block_at m (1, start))) ∧ 1 ∉ head_blocks (block_at m (1, start));
}.

Lemma head_blocks_length d : 0 ≤ head_n d → head_n d = Z.of_nat (length (head_blocks d)).
Proof. intros H. unfold head_blocks. rewrite length_fmap, length_seqZ. lia. Qed.

(** Reading a block from a quiet state. *)
Lemma readsb_spec s :
  quiet s → wp (readsb 1) (λ sb s', quiet s' ∧ same_rest s s' ∧ d_blocks s' = d_blocks s ∧ d_writes s' = d_writes s ∧
    sb = get_super (on_disk s 1)) s.
Proof.
  intros Hq. pose proof Hq as [Q1 Q2 Q3 Q4]. unfold readsb. apply wp_bind.
  eapply wp_mono; [apply bread_spec; [done|unfold FSSIZE; lia|done|lia]|].
  intros p s1 (F1 & H1 & B1 & D1 & N1 & _ & W1). rewrite quiet_view in H1 by done. apply wp_bind. eapply bdata_spec; [exact H1|].
  apply wp_bind. eapply wp_mono; [eapply brelse_spec; [exact H1|right; symmetry; by apply sf_on_disk]|].
  intros [] s4 (F4 & V4 & B4 & D4 & U4 & N4 & N4' & W4). apply wp_ret. rewrite D1 in N4'. specialize (N4' (Q2 1)).
  split_and!; [split|..]; try done; [apply (sf_ok _ _ _ F4)|..].
  - intros k. destruct (decide (k = 1)) as [->|Hk]; [by rewrite D4, D1|]. by rewrite (sf_dirty _ _ _ F4), (sf_dirty _ _ _ F1).
  - intros k. destruct (decide (k = 1)) as [->|Hk]; [done|]. by rewrite (sf_use _ _ _ F4), (sf_use _ _ _ F1).
  - lia.
  - by rewrite <-(sf_rest _ _ _ F4), <-(sf_rest _ _ _ F1).
  - congruence.
  - congruence.
Qed.

Lemma initlog_spec s :
  quiet s → disk_ok (d_blocks s) → length (lh_block (d_log s)) = Z.to_nat LOGSIZE →
  wp (initlog 1) (λ _ s', log_ok s' [] ∧ head_n (on_disk s' start) = 0 ∧
    (∀ b, ¬ in_log b → view s' b = recovered start (d_blocks s) b) ∧
    (quiet s' ∧ same_rest (s <| d_log := d_log s' |> <| d_log_lock := false |>) s' ∧
     d_log s' = Log start size (lg_outstanding (d_log s)) (lg_committing (d_log s)) 1 0 (lh_block (d_log s')) ∧
     length (lh_block (d_log s')) = Z.to_nat LOGSIZE) ∧
    ∃ ws, steps s s' ws ∧ recovery_writes (head_blocks (block_at (d_blocks s) (1, start))) ws ∧
      ∀ k b, ¬ in_log b → recovered start (apply_writes (d_blocks s) (take k ws)) b = recovered start (d_blocks s) b) s.
Proof.
  intros Hq [K1 K2 K3 K4 K5] Hlen. unfold initlog. apply wp_bind, wp_modify. set (s0 := s <| d_log_lock := false |>).
  assert (quiet s0) as Hq0.
  { destruct Hq as [Q1 Q2 Q3 Q4]. split; try done. destruct Q1 as [H1 H2 H3 H4 H5 H6 H7 H8]. split; try done.
    intros i b Hb. destruct (H3 i b Hb). by split. }
  apply wp_bind. eapply wp_mono; [by apply readsb_spec|]. intros sb s1 (Q1 & R1 & B1 & W1 & Esb).
  change (on_disk s0 1) with (block_at (d_blocks s) (1, 1)) in Esb.
  assert (sb_logstart sb = start) as E1 by (rewrite Esb; exact K1). assert (sb_nlog sb = size) as E2 by (rewrite Esb; exact K2). apply wp_bind, wp_modify.
  set (s2 := s1 <| d_log ::= _ |>).
  assert (quiet s2) as Q2 by (destruct Q1; split; try done; by apply cache_ok_log).
  assert (d_blocks s2 = d_blocks s) as B2 by exact B1. assert (on_disk s2 start = block_at (d_blocks s) (1, start)) as O2 by (unfold on_disk; by rewrite B2).
  eapply wp_mono; [apply (recover_spec s2 (head_blocks (block_at (d_blocks s) (1, start))))|].
  - done.
  - done.
  - done.
  - change (length (lh_block (d_log s1)) = Z.to_nat LOGSIZE). rewrite (sr_log _ _ R1). exact Hlen.
  - tauto.
  - apply K5.
  - rewrite O2. by apply head_blocks_length.
  - by rewrite O2.
  - intros [] s' (P1 & P2 & P3 & (PX & [[Y1 Y2 Y3 Y4 Y5 Y6 Y7 Y8] L2 L3] & Pn) & ws & [P4 P4'] & P5 & P6). rewrite B2 in *.
    pose proof R1 as [Z1 Z2 Z3 Z4 Z5 Z6 Z7 Z8]. simpl in *. split_and!; try done.
    + split; [done|simpl; congruence..].
    + rewrite Pn in L2. rewrite L2, Z1, E1, E2. by destruct (d_log s).
    + rewrite L3. rewrite Z1. by destruct (d_log s).
    + exists ws. split_and!; [|done..]. split; [done|]. rewrite P4'. f_equal. exact W1.
Qed.

Lemma block_at_apply m ws k : block_at (apply_writes m ws) k = block_at m k ∨ (k, block_at (apply_writes m ws) k) ∈ ws.
Proof.
  revert m. induction ws as [|[k' v] ws IH]; intros m; simpl; [by left|]. unfold apply_writes in *. simpl.
  destruct (IH (<[k' := v]> m)) as [E|E]; [|right; by apply elem_of_cons; right]. rewrite E.
  destruct (decide (k = k')) as [->|Hk]; [right|left; unfold block_at; by rewrite lookup_insert_ne].
  unfold block_at. rewrite lookup_insert_eq. by apply elem_of_cons; left.
Qed.

Lemma disk_ok_crash m ws k :
  disk_ok m → (∀ v, (1, 1, v) ∉ ws) →
  (∀ v, (1, start, v) ∈ ws → 0 ≤ head_n v ∧ loggable (head_blocks v) ∧ 1 ∉ head_blocks v) →
  disk_ok (apply_writes m (take k ws)).
Proof.
  intros [K1 K2 K3 K4 [K5 K6]] H1 Hs. assert (∀ x, x ∈ take k ws → x ∈ ws) as Ht.
  { intros x (j & Hj & _)%elem_of_take. by eapply list_elem_of_lookup_2. }
  assert (block_at (apply_writes m (take k ws)) (1, 1) = block_at m (1, 1)) as E1.
  { destruct (block_at_apply m (take k ws) (1, 1)) as [|E]; [done|]. by apply Ht, H1 in E. }
  split; rewrite ?E1; try done.
  all: destruct (block_at_apply m (take k ws) (1, start)) as [->|(? & ? & ?)%Ht%Hs]; try done.
Qed.

Lemma loggable_nil : 0 < size → loggable [].
Proof. intros H. split; [apply NoDup_nil_2|by intros b ?%not_elem_of_nil|simpl; unfold LOGSIZE, MAXOPBLOCKS; lia]. Qed.

Lemma size_pos bl : loggable bl → 0 < size.
Proof. intros [_ _ [? _]]. lia. Qed.

(** Where a commit writes. *)
Lemma commit_writes_dest s bl x v :
  loggable bl → (1, x, v) ∈ commit_writes s bl →
  (in_log x ∧ x ≠ start) ∨ x ∈ bl ∨
  (x = start ∧ let h := put_head (d_log s) (view s start) in v = h ∨ v = put_head ((d_log s) <| lh_n := 0 |>) h).
Proof.
  intros Hbl. unfold commit_writes. rewrite !elem_of_app, !list_elem_of_singleton.
  intros [H|[[= -> ->]|[?%home_writes_dest|[= -> ->]]]]; [left|by right; right; split; [|left]|by right; left|by right; right; split; [|right]].
  apply (list_elem_of_fmap_2 fst) in H. apply log_writes_keys in H as (i & Hi & [= ->]). rewrite length_fmap in Hi.
  destruct (lb_len bl Hbl). unfold in_log. lia.
Qed.

Lemma commit_writes_home m s bl b :
  loggable bl → b ∈ bl → block_at (apply_writes m (commit_writes s bl)) (1, b) = view s b.
Proof.
  intros Hbl [i Hi]%list_elem_of_lookup. assert (b ≠ start) as Hb.
  { intros ->. apply list_elem_of_lookup_2, (lb_home bl Hbl) in Hi as [_ []]. by eapply in_log_start. }
  unfold commit_writes. rewrite !apply_writes_app. rewrite block_at_out.
  - apply block_at_in; [|eapply home_writes_in; [done|by rewrite list_lookup_fmap, Hi]].
    rewrite home_writes_keys by (by rewrite length_fmap). apply NoDup_fmap_2; [by intros ?? [= ->]|apply Hbl].
  - simpl. by intros [[= ->]|?%not_elem_of_nil]%elem_of_cons.
Qed.

(** C21: A crash during recovery does no harm: if the machine stops at any
    point of [initlog], the next [initlog] restores every block outside the
    log to what the interrupted one would have restored it to. *)
Theorem recovery_restartable s :
  quiet s → disk_ok (d_blocks s) → length (lh_block (d_log s)) = Z.to_nat LOGSIZE →
  wp (initlog 1) (λ _ s', (∀ b, ¬ in_log b → view s' b = recovered start (d_blocks s) b) ∧ head_n (on_disk s' start) = 0 ∧
    ∀ m, crash_of s s' m → ∀ r, quiet r → d_blocks r = m → length (lh_block (d_log r)) = Z.to_nat LOGSIZE →
      wp (initlog 1) (λ _ r', ∀ b, ¬ in_log b → view r' b = recovered start (d_blocks s) b) r) s.
Proof.
  intros Hq Hdk Hlen. pose proof Hdk as [K1 K2 K3 K4 [K5 K6]]. pose proof (size_pos _ K5) as Hsz.
  eapply wp_mono; [by apply initlog_spec|]. intros [] s' (P1 & P2 & P3 & _ & ws & P4 & P5 & P6).
  split_and!; [done|done|]. intros m (k & ->)%(crash_steps _ _ ws _ P4) r Qr Er Lr.
  eapply wp_mono; [apply initlog_spec; [done| |done]|].
  - rewrite Er. apply disk_ok_crash; [done|..].
    + intros v [Hb|[E _]]%P5; [done|]. apply K3. rewrite E. apply in_log_start with []. by apply loggable_nil.
    + intros v [Hb|[_ Hv]]%P5; [apply (lb_home _ K5) in Hb as [_ Hb]; destruct Hb; unfold in_log; lia|].
      rewrite (head_blocks_nil v), Hv by done. split_and!; [done|by apply loggable_nil|apply not_elem_of_nil].
  - intros [] r' (_ & _ & V & _) b Hb. rewrite V, Er by done. by apply P6.
Qed.

(** C3: Transactions are atomic.  [commit] brings every block of the
    transaction to its home location and empties the log; and if the machine
    stops at any point of it, the next [initlog] gives either the disk before
    the transaction or the disk with all of it, outside the log. *)
Theorem commit_atomic s bl :
  log_ok s bl → bl ≠ [] → 1 ∉ bl → disk_ok (d_blocks s) → head_n (on_disk s start) = 0 →
  wp commit (λ _ s', lh_n (d_log s') = 0 ∧ (∀ b, ¬ in_log b → view s' b = view s b) ∧ (∀ b, b ∈ bl → on_disk s' b = view s b ∧ ¬ dirty s' b) ∧
    ∀ m, crash_of s s' m → ∀ r, quiet r → d_blocks r = m → length (lh_block (d_log r)) = Z.to_nat LOGSIZE →
      wp (initlog 1) (λ _ r', (∀ b, ¬ in_log b → view r' b = on_disk s b) ∨
        (∀ b, ¬ in_log b → view r' b = if decide (b ∈ bl) then view s b else on_disk s b)) r) s.
Proof.
  intros Hok Hne H1 Hdk Hn. pose proof (lo_bl _ _ Hok) as Hbl. pose proof (in_log_start bl Hbl) as Hst.
  assert (¬ in_log 1) as Hl1 by apply Hdk. destruct (lb_len bl Hbl) as [L1 L2].
  assert (length (view s start) = Z.to_nat BSIZE) as Hvl by (rewrite (log_view s bl) by done; apply length_on_disk, Hok).
  set (h := put_head (d_log s) (view s start)). set (h0 := put_head ((d_log s) <| lh_n := 0 |>) h).
  assert (head_blocks h = bl) as Hh.
  { apply put_head_blocks; try done; [apply Hok|apply Hok|]. apply Forall_forall. by intros b [? _]%(lb_home bl Hbl). }
  assert (head_n h0 = 0) as Hh0 by (apply put_head_n; [simpl; unfold LOGSIZE, MAXOPBLOCKS; lia|by unfold h; rewrite length_put_head]).
  assert (0 ≤ head_n h) as Hhn by (unfold h; rewrite put_head_n, (lo_n _ _ Hok) by (rewrite ?(lo_n _ _ Hok); done || lia); lia).
  eapply wp_mono; [by apply commit_spec|]. intros [] s' (O' & S' & V' & D' & _).
  split_and!; [exact (lo_n _ _ O')|done| |].
  - intros b Hb. split; [|by intros [_ ?]%D']. unfold on_disk at 1. rewrite (proj1 S'). by apply commit_writes_home.
  - intros m (k & ->)%(crash_steps _ _ _ _ S') r Qr Er Lr. eapply wp_mono; [apply initlog_spec; [done| |done]|].
    + rewrite Er. apply disk_ok_crash; [done|..].
      * intros v Hv. destruct (commit_writes_dest s bl 1 v Hbl Hv) as [[? _]|[?|[E _]]]; [done..|]. by rewrite <-E in Hst.
      * intros v Hv. destruct (commit_writes_dest s bl start v Hbl Hv) as [[_ ?]|[Hb|[_ [->| ->]]]]; [done| | |].
        { by apply (lb_home bl Hbl) in Hb as [_ ?]. }
        { fold h. rewrite Hh. done. }
        { fold h. fold h0. rewrite (head_blocks_nil h0), Hh0 by done. split_and!; [done|apply loggable_nil; lia|apply not_elem_of_nil]. }
    + intros [] r' (_ & _ & V & _). rewrite Er in V.
      destruct (commit_crash (d_blocks s) bl (view s) h h0 k Hbl Hn Hh Hh0) as [X|X]; [left|right]; intros b Hb; rewrite V by done; by apply X.
Qed.
End log.

(** ** Examples *)

Module LogExamples.
(** A disk with a superblock for a log at blocks 2 to 31. *)
Definition ex_sb : list Z := wr32 (wr32 zero_block 16 2) 12 30.
Definition ex_log (n : Z) (bl : list Z) : logstate := Log 2 30 0 false 1 n bl.
Definition ex_state (bufs : list buf) (l : logstate) : fsys :=
  Fsys {[(1, 1) := ex_sb]} [] true false [] false bufs (rev (seq 0 30)) false l
    (Superblock 0 0 0 0 0 0 0) false [] false [] ∅ [] [] [].
(** Block 100 has new contents in the cache. *)
Definition ex_new : list Z := replicate 512 7.
Definition ex_buf : buf := Buf true true 1 100 false 0 ex_new.
Definition ex_dirty : fsys := ex_state (ex_buf :: replicate 29 buf0) (ex_log 1 (100 :: replicate 29 0)).
Definition ex_boot : fsys := ex_state (replicate 30 buf0) (ex_log 0 (replicate 30 0)).

Lemma buf0_no_key k : ¬ has_key buf0 k.
Proof. by intros [? _]. Qed.

Lemma ex_cache_ok bufs l :
  length bufs = 30%nat → (∀ i b, bufs !! i = Some b → b = buf0 ∨ (i = O ∧ b = ex_buf)) → cache_ok (ex_state bufs l).
Proof.
  intros Hlen Hb. split; try done.
  - symmetry. apply Permutation_rev.
  - intros i b [->|[_ ->]]%Hb; split; try done; [by right|by left].
  - intros i j b c bn [->|[-> ->]]%Hb [->|[-> ->]]%Hb Hk Hk'; try done; by apply buf0_no_key in Hk || by apply buf0_no_key in Hk'.
  - simpl. intros k v [_ <-]%lookup_singleton_Some. done.
Qed.

Lemma ex_dirty_bufs i b : d_bufs ex_dirty !! i = Some b → b = buf0 ∨ (i = O ∧ b = ex_buf).
Proof.
  destruct i as [|i]; [intros [= <-]; by right|]. intros H. change (replicate 29 buf0 !! i = Some b) in H.
  apply lookup_replicate in H as [-> _]. by left.
Qed.

Lemma ex_log_ok : log_ok 2 30 ex_dirty [100].
Proof.
  split; try done.
  - apply ex_cache_ok; [done|exact ex_dirty_bufs].
  - by exists (replicate 29 0).
  - split; [apply NoDup_singleton|intros b ->%list_elem_of_singleton; unfold in_log, FSSIZE; lia|done].
  - intros b _ (i & c & [->|[_ ->]]%ex_dirty_bufs & Hk & Hl); done.
  - intros b Hb (i & c & [->|[_ ->]]%ex_dirty_bufs & Hk & Hl); [done|]. destruct Hk as [_ <-]. unfold in_log in Hb. simpl in Hb. lia.
Qed.

Lemma ex_disk_ok : disk_ok 2 30 (d_blocks ex_dirty).
Proof.
  split; try done; [unfold in_log, FSSIZE; lia|]. split; [by apply loggable_nil|apply not_elem_of_nil].
Qed.

Lemma ex_quiet : quiet ex_boot.
Proof.
  split; [|intros k|intros k|done]; [|intros (i & c & [-> _]%lookup_replicate & Hk & _); by apply buf0_no_key in Hk..].
  apply ex_cache_ok; [done|]. intros i b [-> _]%lookup_replicate. by left.
Qed.

Lemma commit_atomic_witness : ∃ s', commit ex_dirty = Ok tt s' ∧ on_disk s' 100 = ex_new.
Proof.
  pose proof (commit_atomic 2 30 ex_dirty [100] ex_log_ok) as H.
  destruct (proj1 (wp_ok _ _ _) (H ltac:(done) ltac:(by intros E%list_elem_of_singleton) ex_disk_ok eq_refl))
    as ([] & s' & E & _ & _ & Hb & _).
  exists s'. split; [exact E|]. apply (Hb 100). by apply list_elem_of_singleton.
Defined.

Lemma recovery_restartable_witness : ∃ s', initlog 1 ex_boot = Ok tt s' ∧ head_n (on_disk s' 2) = 0.
Proof.
  destruct (proj1 (wp_ok _ _ _) (recovery_restartable 2 30 ex_boot ex_quiet ex_disk_ok eq_refl)) as ([] & s' & E & _ & Hh & _).
  exists s'. split; [exact E|exact Hh].
Defined.
End LogExamples.
