(* ===== verification/Txn.v ===== *)
(** Transactions on the blocks of the disk.

    Between [begin_op] and [end_op] a file system call reads and writes blocks
    through the buffer cache and records each block it changes with
    [log_write].  [tx] is the state of the cache and of the log in between: the
    dirty buffers are those of the logged blocks, they stay pinned, and there
    is room for the [MAXOPBLOCKS] blocks that a call may log.  The lemmas give
    [bread], [log_write] and [brelse] in these terms: an operation changes the
    [view] of the blocks it logs and of no other. *)

From S2P Require Import Prelude Memory Machine Disk Bio Log LogCrash.
From stdpp Require Import options.
Implicit Types s : fsys.
Implicit Types U W : gset Z.

(** ** The blocks of the transaction *)

Definition logged_list s : list Z := take (Z.to_nat (lh_n (d_log s))) (lh_block (d_log s)).
Definition logged s : gset Z := list_to_set (logged_list s).

(** The blocks of [U] are in use. *)
Record tx s U : Prop := {
  tx_cache : cache_ok s;
  tx_use k : in_use s k → k ∈ U;
  tx_loglock : d_log_lock s = false;
  tx_n : 0 ≤ lh_n (d_log s) ≤ LOGSIZE;
  tx_len : length (lh_block (d_log s)) = Z.to_nat LOGSIZE;
  tx_nodup : NoDup (logged_list s);
  tx_dirty k : dirty s k ↔ k ∈ logged s;
  tx_size : (size (logged s) ≤ Z.to_nat MAXOPBLOCKS)%nat;
  tx_lgsize : MAXOPBLOCKS < lg_size (d_log s) - 1;
  tx_free : NBUF ≤ nfree s + Z.of_nat (size (logged s ∪ U));
}.

(** A call is between [begin_op] and [end_op]. *)
Definition in_op s : Prop := 1 ≤ lg_outstanding (d_log s).

(** What an operation of a transaction that holds [U] leaves alone; it logs at
    most [W]. *)
Record tx_frame U s s' W : Prop := {
  tf_view k : k ∉ W → view s' k = view s k;
  tf_grow : logged s ⊆ logged s';
  tf_logged : logged s' ⊆ logged s ∪ W;
  tf_handle j k d : k ∈ U → k ∉ W → handle s j k d → handle s' j k d;
  tf_blocks : d_blocks s' = d_blocks s;
  tf_writes : d_writes s' = d_writes s;
  tf_sb : d_sb s' = d_sb s;
  tf_icache : d_icache_lock s' = d_icache_lock s;
  tf_ftable : d_ftable_lock s' = d_ftable_lock s;
  tf_files : d_files s' = d_files s;
  tf_pipes : d_pipes s' = d_pipes s;
  tf_log : d_log s' = (d_log s) <| lh_n := lh_n (d_log s') |> <| lh_block := lh_block (d_log s') |>;
}.

Lemma tx_frame_refl U s : tx_frame U s s ∅.
Proof. split; try done; [set_solver|]. by destruct (d_log s). Qed.

Lemma tx_frame_trans U s1 s2 s3 W1 W2 :
  tx_frame U s1 s2 W1 → tx_frame U s2 s3 W2 → tx_frame U s1 s3 (W1 ∪ W2).
Proof.
  intros [A1 A2 A3 A4 A5 A6 A7 A8 A9 A10 A11 A12] [B1 B2 B3 B4 B5 B6 B7 B8 B9 B10 B11 B12]. split; try congruence.
  - intros k Hk. rewrite B1, A1 by set_solver. done.
  - clear -A2 B2. set_solver.
  - clear -A3 B3. set_solver.
  - intros j k d HU Hk H. apply B4; [set_solver..|]. apply A4; [set_solver..|done].
  - rewrite B12, A12. by destruct (d_log s1).
Qed.

Lemma tx_frame_mono U U' s s' W W' : tx_frame U s s' W → U' ⊆ U → W ⊆ W' → tx_frame U' s s' W'.
Proof. intros [A1 A2 A3 A4 A5 A6 A7 A8 A9 A10 A11 A12] HU HW. split; try done; [intros; apply A1; set_solver|set_solver|].
  intros j k d Hk Hk' H. apply A4; [set_solver..|done].
Qed.

Lemma in_op_frame U s s' W : tx_frame U s s' W → in_op s → in_op s'.
Proof. intros F. unfold in_op. rewrite (tf_log _ _ _ _ F). by destruct (d_log s). Qed.

Lemma length_view s bn : cache_ok s → length (view s bn) = Z.to_nat BSIZE.
Proof.
  intros Hok. unfold view. destruct (find_key _ _) as [b|] eqn:E; [|by apply length_on_disk].
  destruct (b_valid b); [|by apply length_on_disk]. apply find_key_Some in E as (i & Hi & _). by apply (co_bufs s Hok i b).
Qed.

Lemma length_logged s U : tx s U → lh_n (d_log s) = Z.of_nat (size (logged s)).
Proof.
  intros H. unfold logged. rewrite size_list_to_set by apply (tx_nodup s U H). unfold logged_list.
  rewrite length_take, (tx_len s U H). pose proof (tx_n s U H). lia.
Qed.

(** ** The log *)

Lemma absorb_spec (n : nat) (i : Z) (bl : list Z) (b : Z) :
  (n ≤ length bl)%nat →
  (b ∈ take n bl ∧ ∃ j : nat, (j < n)%nat ∧ bl !! j = Some b ∧ absorb n i bl b = i + Z.of_nat j) ∨
  ((b ∉ take n bl) ∧ absorb n i bl b = i + Z.of_nat n).
Proof.
  revert i bl. induction n as [|n IH]; intros i [|x bl] Hn; simpl in *; [right; split; [by apply not_elem_of_nil|lia]..|lia|].
  destruct (Z.eqb_spec x b) as [->|Hne].
  - left. split; [by left|]. exists O. split_and!; [lia|done|lia].
  - destruct (IH (i + 1) bl) as [(Hin & j & Hj & Hl & E)|(Hin & E)]; [lia| |].
    + left. split; [by right|]. exists (S j). split_and!; [lia|done|lia].
    + right. rewrite elem_of_cons, E. split; [naive_solver|lia].
Qed.

Lemma wp_set_lh_block i v (Q : unit → fsys → Prop) s :
  0 ≤ i < Z.of_nat (length (lh_block (d_log s))) →
  Q tt (s <| d_log ::= λ l, l <| lh_block ::= λ bl, aset bl i v |> |>) → wp (set_lh_block i v) Q s.
Proof.
  intros Hi HQ. unfold set_lh_block, lh_block_at. apply wp_bind, wp_bind, wp_gets.
  destruct (aget_is_Some (lh_block (d_log s)) i) as [x Hx]; [done|]. eapply wp_of_option; [done|]. by apply wp_modify.
Qed.

(** The log after [log_write] on block [b]. *)
Definition log_add (b : Z) (l : logstate) : logstate :=
  if decide (b ∈ take (Z.to_nat (lh_n l)) (lh_block l)) then l
  else l <| lh_block ::= λ bl, aset bl (lh_n l) b |> <| lh_n ::= λ n, n + 1 |>.

Lemma log_write_state s f h :
  d_log_lock s = false →
  s <| d_log_lock := true |> <| d_log ::= f |> <| d_bufs ::= h |> <| d_log_lock := false |> = s <| d_log ::= f |> <| d_bufs ::= h |>.
Proof. intros E. apply fsys_eq; try reflexivity. by symmetry. Qed.
Lemma mod_log_comp s f g : s <| d_log ::= f |> <| d_log ::= g |> = s <| d_log ::= λ l, g (f l) |>.
Proof. done. Qed.
Lemma mod_log_ext s f g : f (d_log s) = g (d_log s) → s <| d_log ::= f |> = s <| d_log ::= g |>.
Proof. intros E. by apply fsys_eq. Qed.

Lemma log_write_eq s U i bn d b :
  tx s U → in_op s → handle s i bn d → d_bufs s !! i = Some b →
  wp (log_write i) (λ _ s', s' = s <| d_log ::= log_add bn |> <| d_bufs ::= <[i := b <| b_dirty := true |>]> |>) s.
Proof.
  intros T Hop Hh Hb. destruct (handle_locked_ok _ _ _ _ _ Hh Hb) as (_ & _ & _ & _ & [_ Hbn] & _).
  pose proof (tx_size s U T) as Hsz. pose proof (length_logged s U T) as Hn. pose proof (tx_lgsize s U T). pose proof (tx_len s U T) as Hlen.
  unfold log_write. apply wp_bind, wp_gets. unfold LOGSIZE, MAXOPBLOCKS in *.
  destruct (Z.leb_spec (10 * 3) (lh_n (d_log s))); [lia|]. destruct (Z.leb_spec (lg_size (d_log s) - 1) (lh_n (d_log s))); [lia|].
  unfold in_op in Hop. destruct (Z.ltb_spec (lg_outstanding (d_log s)) 1); [lia|]. simpl.
  apply wp_bind, wp_acquire; [apply T|]. apply wp_bind. eapply wp_getbuf; [done|]. rewrite Hbn.
  pose proof (tx_n s U T). apply wp_bind.
  destruct (absorb_spec (Z.to_nat (lh_n (d_log s))) 0 (lh_block (d_log s)) bn) as [(Hin & j & Hj & Hl & ->)|(Hin & ->)];
    [lia|rewrite Z.add_0_l..].
  - apply wp_set_lh_block; [simpl; lia|]. apply wp_bind. destruct (Z.eqb_spec (Z.of_nat j) (lh_n (d_log s))); [lia|].
    apply wp_ret. apply wp_bind. eapply wp_modbuf; [done|]. apply wp_release; [done|].
    rewrite log_write_state by apply T. erewrite mod_log_ext; [reflexivity|]. unfold log_add. rewrite decide_True by done.
    destruct (d_log s). unfold upd. simpl in *. by rewrite aset_id by (by rewrite aget_nat).
  - apply wp_set_lh_block; [simpl; lia|]. apply wp_bind. destruct (Z.eqb_spec (Z.of_nat (Z.to_nat (lh_n (d_log s)))) (lh_n (d_log s))); [|lia].
    apply wp_modify. apply wp_bind. eapply wp_modbuf; [done|]. apply wp_release; [done|].
    rewrite mod_log_comp, log_write_state by apply T. erewrite mod_log_ext; [reflexivity|]. unfold log_add.
    by rewrite decide_False, Z2Nat.id by done || lia.
Qed.

Lemma handle_log s f i bn d : handle s i bn d → handle (s <| d_log ::= f |>) i bn d.
Proof. intros [H1 H2]. split; [by apply cache_ok_log|done]. Qed.

(** ** One block at a time *)

(** A step on the buffer of [bn] that does not touch the log. *)
Lemma tx_step s s' U U' bn :
  tx s U → step_frame s s' bn → (dirty s' bn ↔ dirty s bn) → (in_use s' bn → bn ∈ U') → (∀ k, k ≠ bn → k ∈ U → k ∈ U') →
  NBUF ≤ nfree s' + Z.of_nat (size (logged s ∪ U')) → tx s' U'.
Proof.
  intros T [F1 F2 F3 F4 F5 F6 F7] Hd Hu HU Hfree. pose proof (sr_log _ _ F2) as Hl.
  assert (logged_list s' = logged_list s) as E1 by (unfold logged_list; by rewrite Hl).
  assert (logged s' = logged s) as E2 by (unfold logged; by rewrite E1). destruct T as [T1 T2 T3 T5 T6 T7 T8 T9 T10 T11].
  split; rewrite ?Hl, ?E1, ?E2; try done.
  - intros k Hk. destruct (decide (k = bn)) as [->|]; [by apply Hu|]. apply HU; [done|]. apply T2. by apply F7.
  - by rewrite (sr_loglock _ _ F2).
  - intros k. destruct (decide (k = bn)) as [->|]; [by rewrite Hd|by rewrite F5].
Qed.

Lemma tx_frame_step U s s' bn W :
  step_frame s s' bn → d_blocks s' = d_blocks s → d_writes s' = d_writes s → bn ∉ U → bn ∈ W ∨ view s' bn = view s bn →
  tx_frame U s s' W.
Proof.
  intros [F1 [R1 R2 R3 R4 R5 R6 R7 R8] F3 F4 F5 F6 F7] Hb Hw HU Hv.
  assert (logged s' = logged s) as E by (unfold logged, logged_list; by rewrite R1). split; rewrite ?E; try done.
  - intros k Hk. destruct (decide (k = bn)) as [->|]; [|by apply F3]. by destruct Hv.
  - clear. set_solver.
  - intros j k d HkU _. apply F6. by intros ->.
  - rewrite R1. by destruct (d_log s).
Qed.

(** A buffer that may be given back: logged, or as it is on disk. *)
Definition held s (i : nat) (bn : Z) (d : list Z) : Prop := handle s i bn d ∧ (bn ∈ logged s ∨ d = on_disk s bn).

Lemma held_frame U s s' W i bn d : tx_frame U s s' W → bn ∈ U → bn ∉ W → held s i bn d → held s' i bn d.
Proof.
  intros F HU HW [Hh Hc]. split; [by apply (tf_handle _ _ _ _ F)|]. destruct Hc as [Hc|Hc]; [left|right].
  - by apply (tf_grow _ _ _ _ F).
  - unfold on_disk in *. by rewrite (tf_blocks _ _ _ _ F).
Qed.

Lemma size_union_ub U V : (size (U ∪ V) ≤ size U + size V)%nat.
Proof. rewrite size_union_alt. pose proof (subseteq_size (V ∖ U) V ltac:(set_solver)). lia. Qed.

Lemma bread_tx s U bn :
  tx s U → 0 ≤ bn < FSSIZE → bn ∉ U → (size U ≤ 10)%nat →
  wp (bread 1 bn) (λ i s', tx s' ({[bn]} ∪ U) ∧ held s' i bn (view s bn) ∧ tx_frame U s s' ∅ ∧ d_inodes s' = d_inodes s) s.
Proof.
  intros T Hbn HU HU10. pose proof (tx_free s U T) as Hfree. pose proof (tx_size s U T) as Hsz.
  pose proof (size_union_ub (logged s) U) as Hun. unfold NBUF, MAXOPBLOCKS in *.
  assert (¬ in_use s bn) as Hnu by (intros ?%(tx_use s U T); done).
  eapply wp_mono; [apply bread_spec; [apply T|done|done|lia]|]. intros i s' (F & Hh & Hb & Hd & Hf1 & Hf2 & Hw).
  assert (tx_frame U s s' ∅) as Fr by (apply (tx_frame_step _ _ _ bn); try done; right; by apply handle_view in Hh).
  split_and!; [|split; [done|]|done|by rewrite (sr_inodes _ _ (sf_rest _ _ _ F))].
  - apply (tx_step s s' U _ bn); try done; [intros _; set_solver|intros k _; set_solver|]. unfold NBUF, MAXOPBLOCKS.
    destruct (decide (bn ∈ logged s)) as [Hin|Hin].
    + replace (logged s ∪ ({[bn]} ∪ U)) with (logged s ∪ U) by set_solver. assert (nfree s ≤ nfree s') by (apply Hf2; by apply (tx_dirty s U T)). lia.
    + replace (logged s ∪ ({[bn]} ∪ U)) with ({[bn]} ∪ (logged s ∪ U)) by set_solver.
      rewrite size_union, size_singleton by set_solver. lia.
  - destruct (clean_or_dirty s bn) as [D| ->]; [apply T|done|left|right].
    + apply (tf_grow _ _ _ _ Fr). by apply (tx_dirty s U T).
    + unfold on_disk. by rewrite Hb.
Qed.

Lemma brelse_tx s U i bn d :
  tx s ({[bn]} ∪ U) → bn ∉ U → held s i bn d →
  wp (brelse i) (λ _ s', tx s' U ∧ tx_frame U s s' ∅ ∧ d_inodes s' = d_inodes s) s.
Proof.
  intros T HU [Hh Hc]. pose proof (tx_free s _ T) as Hfree.
  eapply wp_mono; [apply brelse_spec; [done|destruct Hc as [Hc| ->]; [left; by apply (tx_dirty s _ T)|by right]]|].
  intros _ s' (F & Hv & Hb & Hd & Hu & Hf1 & Hf2 & Hw).
  split_and!; [|apply (tx_frame_step _ _ _ bn); try done; right; by rewrite (handle_view _ _ _ _ Hh)|by rewrite (sr_inodes _ _ (sf_rest _ _ _ F))].
  apply (tx_step s s' _ _ bn T); try done; [intros k; set_solver|].
  destruct (decide (bn ∈ logged s)) as [Hin|Hin].
  - replace (logged s ∪ U) with (logged s ∪ ({[bn]} ∪ U)) by set_solver. lia.
  - rewrite Hf2 by (by rewrite (tx_dirty s _ T)).
    replace (logged s ∪ ({[bn]} ∪ U)) with ({[bn]} ∪ (logged s ∪ U)) in Hfree by set_solver.
    rewrite size_union, size_singleton in Hfree by set_solver. lia.
Qed.

Lemma take_log_add bn (l : logstate) :
  0 ≤ lh_n l < Z.of_nat (length (lh_block l)) → let l' := log_add bn l in
  take (Z.to_nat (lh_n l')) (lh_block l') =
    let bl := take (Z.to_nat (lh_n l)) (lh_block l) in if decide (bn ∈ bl) then bl else bl ++ [bn].
Proof.
  intros Hn. unfold log_add. simpl. case_decide; [done|]. destruct l as [? ? ? ? ? n bl]. unfold upd. simpl in *.
  replace (Z.to_nat (n + 1)) with (S (Z.to_nat n)) by lia. unfold aset. destruct (Z.ltb_spec n 0); [lia|].
  rewrite (take_S_r _ _ bn) by (apply list_lookup_insert_eq; lia). by rewrite take_insert_ge by lia.
Qed.

Lemma log_add_rest bn (l : logstate) :
  log_add bn l = l <| lh_n := lh_n (log_add bn l) |> <| lh_block := lh_block (log_add bn l) |> ∧
  length (lh_block (log_add bn l)) = length (lh_block l) ∧ lh_n l ≤ lh_n (log_add bn l) ≤ lh_n l + 1.
Proof. unfold log_add. destruct l. case_decide; unfold upd; simpl; rewrite ?length_aset; (split_and!; [done|done|lia|lia]). Qed.

(** The log alone changes. *)
Lemma tx_log_add s U bn :
  tx s U → bn ∈ logged s ∨ (size (logged s) < Z.to_nat MAXOPBLOCKS)%nat →
  let s' := s <| d_log ::= log_add bn |> in
  logged s' = {[bn]} ∪ logged s ∧ NoDup (logged_list s') ∧ 0 ≤ lh_n (d_log s') ≤ LOGSIZE ∧
  (size (logged s') ≤ Z.to_nat MAXOPBLOCKS)%nat ∧ tx_frame U s s' {[bn]}.
Proof.
  intros T Hsz s'. pose proof (tx_n s U T) as Hn. pose proof (tx_len s U T) as Hlen. pose proof (length_logged s U T) as Hll.
  pose proof (tx_size s U T) as Hs. unfold LOGSIZE, MAXOPBLOCKS in *. pose proof (log_add_rest bn (d_log s)) as (R1 & R2 & R3).
  assert (logged_list s' = if decide (bn ∈ logged_list s) then logged_list s else logged_list s ++ [bn]) as E
    by (apply (take_log_add bn (d_log s)); lia).
  assert (logged s' = {[bn]} ∪ logged s) as E2.
  { unfold logged. rewrite E. case_decide as Hin; [set_solver|]. rewrite list_to_set_app_L. set_solver. }
  assert (size (logged s') ≤ 10)%nat as Hs'.
  { rewrite E2. destruct Hsz as [Hin|]; [by replace ({[bn]} ∪ logged s) with (logged s) by set_solver|].
    pose proof (size_union_ub {[bn]} (logged s)). rewrite size_singleton in *. lia. }
  split_and!; [done| |simpl; unfold upd; simpl in *; lia|simpl; unfold upd; simpl in *; lia|done|].
  - rewrite E. case_decide as Hin; [apply T|]. apply NoDup_app. split_and!; [apply T|set_solver|apply NoDup_singleton].
  - split; try done; [rewrite E2; set_solver|rewrite E2; set_solver|by intros; apply handle_log].
Qed.

Lemma log_write_tx s U i bn d :
  tx s ({[bn]} ∪ U) → in_op s → bn ∉ U → handle s i bn d → bn ∈ logged s ∨ (size (logged s) < Z.to_nat MAXOPBLOCKS)%nat →
  wp (log_write i) (λ _ s', tx s' ({[bn]} ∪ U) ∧ held s' i bn d ∧ tx_frame U s s' {[bn]} ∧ d_inodes s' = d_inodes s) s.
Proof.
  intros T Hop HU Hh Hsz. pose proof Hh as [Hok (b & Hb & Hk & Hl & Hv & Hd)].
  eapply wp_mono; [by eapply log_write_eq|]. intros [] s' Es'. set (b' := b <| b_dirty := true |>) in Es'.
  destruct (tx_log_add s _ bn T Hsz) as (L1 & L2 & L3 & L4 & L5). set (s1 := s <| d_log ::= log_add bn |>) in *.
  pose proof (handle_log s (log_add bn) i bn d Hh : handle s1 i bn d) as Hh1.
  destruct (handle_locked_ok _ _ _ _ _ Hh1 Hb) as ([X1 X2 X3 X4 X5] & _ & _ & _ & _ & Hbn & Hrec).
  assert (step_frame s1 s' bn) as F.
  { apply (handle_insert s1 s' i b b' bn d); subst s'; try done.
    - split; try done. left. destruct Hk. simpl. split; [done|lia].
    - exact (co_disk s Hok).
    - exact (idle_of s Hok).
    - apply (co_locks s Hok). }
  assert (d_bufs s' !! i = Some b') as Hb' by (subst s'; by eapply lookup_insert_self).
  assert (handle s' i bn d) as Hh' by (split; [apply F|by exists b']).
  assert (nfree s' = nfree s) as Hnf.
  { subst s'. unfold nfree. simpl. rewrite (cnt_insert _ _ _ b) by done. rewrite Hrec. unfold recyclable at 2. simpl. rewrite andb_false_r. lia. }
  assert (tx_frame U s1 s' ∅) as F2.
  { apply (tx_frame_step _ _ _ bn); try done; [by subst s'..|]. right.
    rewrite (handle_view _ _ _ _ Hh'). symmetry. apply (handle_view _ _ _ _ Hh1). }
  assert (tx_frame U s s' {[bn]}) as F3.
  { rewrite <-(union_empty_r_L {[bn]}). apply (tx_frame_trans _ _ s1); [|done]. eapply tx_frame_mono; [exact L5|set_solver|done]. }
  split_and!; [|split; [done|left; apply (tf_grow _ _ _ _ F2); rewrite L1; set_solver]|done|by subst s'].
  clear F2 F3. destruct T as [T1 T2 T3 T5 T6 T7 T8 T9 T10 T11]. pose proof (sf_rest _ _ _ F) as R.
  assert (d_log s' = log_add bn (d_log s)) as Hlog by apply (sr_log _ _ R).
  assert (logged s' = {[bn]} ∪ logged s) as Hlg by (rewrite <-L1; unfold logged, logged_list; by rewrite Hlog).
  destruct (log_add_rest bn (d_log s)) as (R1 & R2 & R3). split; rewrite ?Hlog; try done.
  - apply F.
  - intros k Hku. destruct (decide (k = bn)) as [->|]; [set_solver|]. apply T2. by apply (sf_use _ _ _ F) in Hku.
  - by rewrite (sr_loglock _ _ R).
  - by rewrite R2.
  - unfold logged_list. rewrite Hlog. exact L2.
  - intros k. rewrite Hlg. destruct (decide (k = bn)) as [->|].
    + rewrite (handle_dirty _ _ _ _ _ Hh' Hb'). set_solver.
    + rewrite (sf_dirty _ _ _ F) by done. change (dirty s1 k) with (dirty s k). rewrite T8. set_solver.
  - by rewrite Hlg, <-L1.
  - rewrite R1. by destruct (d_log s).
  - rewrite Hnf, Hlg. by replace ({[bn]} ∪ logged s ∪ ({[bn]} ∪ U)) with (logged s ∪ ({[bn]} ∪ U)) by set_solver.
Qed.

Lemma set_bdata_tx f s U i bn d :
  tx s ({[bn]} ∪ U) → bn ∉ U → handle s i bn d → length (f d) = Z.to_nat BSIZE →
  wp (set_bdata i f) (λ _ s', tx s' ({[bn]} ∪ U) ∧ handle s' i bn (f d) ∧ tx_frame U s s' {[bn]} ∧ logged s' = logged s ∧
    d_inodes s' = d_inodes s) s.
Proof.
  intros T HU Hh Hlen. pose proof (tx_free s _ T) as Hfree. eapply wp_mono; [by apply set_bdata_spec|].
  intros [] s' (F & Hh' & Hb & Hd & Hf & Hw). pose proof (sf_rest _ _ _ F) as R. split_and!; [|done| | |by apply (sr_inodes _ _ R)].
  - apply (tx_step s s' _ _ bn T); try done; [set_solver|]. by rewrite Hf.
  - apply (tx_frame_step _ _ _ bn); try done. left. set_solver.
  - unfold logged, logged_list. by rewrite (sr_log _ _ R).
Qed.

(** A block in use is changed and logged. *)
Lemma wp_update {A} f (K : M fsys A) (Q : A → fsys → Prop) s U i bn d :
  tx s ({[bn]} ∪ U) → in_op s → bn ∉ U → handle s i bn d → length (f d) = Z.to_nat BSIZE →
  bn ∈ logged s ∨ (size (logged s) < Z.to_nat MAXOPBLOCKS)%nat →
  (∀ s', tx s' ({[bn]} ∪ U) → held s' i bn (f d) → tx_frame U s s' {[bn]} → d_inodes s' = d_inodes s → wp K Q s') →
  wp (set_bdata i f ;; log_write i ;; K) Q s.
Proof.
  intros T Hop HU Hh Hlen Hsz HK. apply wp_bind. eapply wp_mono; [by apply set_bdata_tx|]. intros [] s1 (T1 & H1 & F1 & L1 & I1).
  apply wp_bind. eapply wp_mono; [apply (log_write_tx s1 U i bn (f d)); try done; [by eapply in_op_frame|by rewrite L1]|].
  intros [] s2 (T2 & H2 & F2 & I2). apply HK; try done; [|congruence].
  rewrite <-(union_idemp_L {[bn]}). by apply (tx_frame_trans _ _ s1).
Qed.

(** A block is read, changed and logged. *)
Lemma wp_rmw f s U bn :
  tx s U → in_op s → 0 ≤ bn < FSSIZE → bn ∉ U → (size U ≤ 10)%nat → length (f (view s bn)) = Z.to_nat BSIZE →
  bn ∈ logged s ∨ (size (logged s) < Z.to_nat MAXOPBLOCKS)%nat →
  wp (bp <- bread 1 bn ;; set_bdata bp f ;; log_write bp ;; brelse bp)
    (λ _ s', tx s' U ∧ tx_frame U s s' {[bn]} ∧ view s' bn = f (view s bn) ∧ d_inodes s' = d_inodes s) s.
Proof.
  intros T Hop Hbn HU H10 Hlen Hsz. apply wp_bind. eapply wp_mono; [by apply bread_tx|]. intros i s1 (T1 & [H1 _] & F1 & I1).
  assert (bn ∈ logged s1 ∨ (size (logged s1) < Z.to_nat MAXOPBLOCKS)%nat) as Hsz1.
  { pose proof (tf_grow _ _ _ _ F1). pose proof (tf_logged _ _ _ _ F1). by replace (logged s1) with (logged s) by set_solver. }
  eapply wp_update; try done; [by eapply in_op_frame|]. intros s2 T2 H2 F2 I2. eapply wp_mono; [by eapply brelse_tx|]. intros [] s3 (T3 & F3 & I3).
  split_and!; [done| | |congruence].
  - eapply tx_frame_mono; [eapply tx_frame_trans; [|eapply tx_frame_trans]; done|done|set_solver].
  - rewrite (tf_view _ _ _ _ F3) by set_solver. apply (handle_view _ _ _ _ (proj1 H2)).
Qed.
