(* ===== verification/Fs.v ===== *)
(** The file system proper: [src/fs.c], with [create] and [isdirempty] of
    [src/sysfile.c].

    Inodes in memory are indices into the inode cache, [None] is the null
    pointer; a string is the list of its characters without the final zero.
    [devread] and [devwrite] are the device switch [devsw]. *)

From S2P Require Import Prelude Memory Machine Disk Log.
From stdpp Require Import options.
Implicit Types s : fsys.

Definition T_DIR := 1.
Definition T_FILE := 2.
Definition T_DEV := 3.
Definition IPB := BSIZE / 64.
Definition BPB := BSIZE * 8.
Definition DIRSIZ := 14.
Definition sizeof_dirent := 16.
Definition IBLOCK (i : Z) (sb : superblock) : Z := i / IPB + sb_inodestart sb.
Definition BBLOCK (b : Z) (sb : superblock) : Z := b / BPB + sb_bmapstart sb.

(** ** Strings *)

(** [strncmp(p, q, n)] *)
Fixpoint lstrncmp (n : nat) (p q : list Z) : Z :=
  match n with
  | O => 0
  | S n => let a := default 0 (head p) in let b := default 0 (head q) in
           if (a =? 0) || negb (a =? b) then a - b else lstrncmp n (tail p) (tail q)
  end.
Definition namecmp (p q : list Z) : Z := lstrncmp (Z.to_nat DIRSIZ) p q.

(** The [n] bytes [strncpy(s, t, n)] stores at [s]. *)
Fixpoint lstrncpy (n : nat) (t : list Z) : list Z :=
  match n with
  | O => []
  | S n => match t with
           | [] => replicate (S n) 0
           | c :: t => if c =? 0 then replicate (S n) 0 else c :: lstrncpy n t
           end
  end.

Definition slash := 47.

Fixpoint skip_slashes (path : list Z) : list Z :=
  match path with
  | c :: path' => if c =? slash then skip_slashes path' else path
  | [] => []
  end.
(** [while( *path != '/' && *path != 0) path++]: the element and the rest. *)
Fixpoint span_elem (path : list Z) : list Z * list Z :=
  match path with
  | [] => ([], [])
  | c :: path' => if (c =? slash) || (c =? 0) then ([], path)
                  else let '(e, r) := span_elem path' in (c :: e, r)
  end.
(** [skipelem]: the rest of the path and the element, cut to [DIRSIZ]. *)
Definition skipelem (path : list Z) : option (list Z * list Z) :=
  let path := skip_slashes path in
  match path with
  | [] => None
  | c :: _ => if c =? 0 then None else
      let '(e, r) := span_elem path in
      let len := Z.of_nat (length e) in
      let name := if DIRSIZ <=? len then take (Z.to_nat DIRSIZ) e else e in
      Some (skip_slashes r, name)
  end.

(** [itoa(i, b)]: the length of the representation, then the digits from the
    last one back. *)
Fixpoint itoa_len (fuel : nat) (shifter p : Z) : Z :=
  match fuel with
  | O => p
  | S fuel => let shifter := shifter / 10 in if shifter =? 0 then p + 1 else itoa_len fuel shifter (p + 1)
  end.
Fixpoint itoa_fill (fuel : nat) (i p : Z) (b : list Z) : list Z :=
  match fuel with
  | O => b
  | S fuel => let b := aset b (p - 1) (48 + i mod 10) in
              let i := i / 10 in if i =? 0 then b else itoa_fill fuel i (p - 1) b
  end.
Definition itoa (i : Z) : list Z :=
  let sign := if i <? 0 then [45] else [] in
  let i := Z.abs i in
  let len := itoa_len 10 i 0 in
  sign ++ itoa_fill 10 i len (replicate (Z.to_nat len) 0).

(** ["/.swap"] and the pid. *)
Definition swap_path (pid : Z) : list Z := [47; 46; 115; 119; 97; 112] ++ itoa pid.

(** ** Blocks *)

Definition bzero (dev bno : Z) : M fsys unit :=
  bp <- bread dev bno ;;
  set_bdata bp (λ _, zero_block) ;;
  log_write bp ;;
  brelse bp.

Definition bit_mask (bi : Z) : Z := Z.shiftl 1 (bi mod 8).
(** [for(bi = 0; bi < BPB && b + bi < sb.size; bi++) if(bit is clear)] *)
Fixpoint free_bit (fuel : nat) (d : list Z) (b size bi : Z) : option Z :=
  match fuel with
  | O => None
  | S fuel => if (bi <? BPB) && (b + bi <? size) then
                if Z.land (rd8 d (bi / 8)) (bit_mask bi) =? 0 then Some bi else free_bit fuel d b size (bi + 1)
              else None
  end.

Definition balloc (dev : Z) : M fsys Z :=
  sb <- gets d_sb ;;
  loop (S (Z.to_nat (sb_size sb / BPB + 1))) (λ b,
    if b <? sb_size sb then
      bp <- bread dev (BBLOCK b sb) ;;
      d <- bdata bp ;;
      match free_bit (Z.to_nat BPB) d b (sb_size sb) 0 with
      | Some bi =>
          set_bdata bp (λ d, wr8 d (bi / 8) (Z.lor (rd8 d (bi / 8)) (bit_mask bi))) ;;
          log_write bp ;;
          brelse bp ;;
          bzero dev (b + bi) ;;
          ret (inr (b + bi))
      | None => brelse bp ;; ret (inl (b + BPB))
      end
    else panic "balloc: out of blocks") 0.

Definition bfree (dev b : Z) : M fsys unit :=
  sb <- readsb dev ;;
  modify (λ s, s <| d_sb := sb |>) ;;
  bp <- bread dev (BBLOCK b sb) ;;
  let bi := b mod BPB in
  d <- bdata bp ;;
  if Z.land (rd8 d (bi / 8)) (bit_mask bi) =? 0 then panic "freeing free block" else
  set_bdata bp (λ d, wr8 d (bi / 8) (Z.land (rd8 d (bi / 8)) (Z.lnot (bit_mask bi)))) ;;
  log_write bp ;;
  brelse bp.

(** ** Inodes *)

Definition getino (i : nat) : M fsys inode := l <- gets d_inodes ;; of_option "inode" (l !! i).
Definition modino (i : nat) (f : inode → inode) : M fsys unit :=
  x <- getino i ;; modify (λ s, s <| d_inodes ::= <[i := f x]> |>).

(** [struct dinode] number [k] of a block. *)
Definition dinode_addrs (d : list Z) (o : Z) : list Z :=
  (λ j, rd32 d (o + 12 + 4 * Z.of_nat j)) <$> seq 0 (Z.to_nat (NDIRECT + 1)).
Definition get_dinode (d : list Z) (k : Z) (ip : inode) : inode :=
  let o := 64 * k in
  ip <| i_type := s16 (rd16 d o) |> <| i_major := s16 (rd16 d (o + 2)) |> <| i_minor := s16 (rd16 d (o + 4)) |>
     <| i_nlink := s16 (rd16 d (o + 6)) |> <| i_size := rd32 d (o + 8) |> <| i_addrs := dinode_addrs d o |>.
Fixpoint put_words (d : list Z) (o : Z) (l : list Z) : list Z :=
  match l with [] => d | x :: l => put_words (wr32 d o x) (o + 4) l end.
Definition put_dinode (ip : inode) (k : Z) (d : list Z) : list Z :=
  let o := 64 * k in
  put_words (wr32 (wr16 (wr16 (wr16 (wr16 d o (i_type ip)) (o + 2) (i_major ip)) (o + 4) (i_minor ip)) (o + 6) (i_nlink ip))
               (o + 8) (i_size ip)) (o + 12) (i_addrs ip).

Definition iinit (dev : Z) : M fsys unit :=
  modify (λ s, s <| d_icache_lock := false |>) ;;
  for_all (Z.to_nat NINODE) 0 (λ i, modino (Z.to_nat i) (λ ip, ip <| i_locked := false |>)) ;;
  sb <- readsb dev ;;
  modify (λ s, s <| d_sb := sb |>
    <| d_out ::= cons ("sb: size %d nblocks %d ninodes %d nlog %d logstart %d inodestart %d bmap start %d\n"%string,
         ints [sb_size sb; sb_nblocks sb; sb_ninodes sb; sb_nlog sb; sb_logstart sb; sb_inodestart sb; sb_bmapstart sb]) |>).

(** The scan of [iget]: the cached inode, and the first empty slot. *)
Fixpoint iget_scan (l : list inode) (i : nat) (dev inum : Z) (empty : option nat) : option nat * option nat :=
  match l with
  | [] => (None, empty)
  | ip :: l =>
      if (0 <? i_ref ip) && (i_dev ip =? dev) && (i_inum ip =? inum) then (Some i, empty)
      else iget_scan l (S i) dev inum
             (match empty with Some _ => empty | None => if i_ref ip =? 0 then Some i else None end)
  end.

Definition iget (dev inum : Z) : M fsys nat :=
  acquire d_icache_lock ;;
  l <- gets d_inodes ;;
  match iget_scan l 0 dev inum None with
  | (Some i, _) =>
      modino i (λ ip, ip <| i_ref ::= λ n, n + 1 |>) ;;
      release d_icache_lock ;;
      ret i
  | (None, None) => panic "iget: no inodes"
  | (None, Some i) =>
      modino i (λ ip, ip <| i_dev := dev |> <| i_inum := inum |> <| i_ref := 1 |> <| i_valid := false |>) ;;
      release d_icache_lock ;;
      ret i
  end.

Definition idup (i : nat) : M fsys nat :=
  acquire d_icache_lock ;;
  modino i (λ ip, ip <| i_ref ::= λ n, n + 1 |>) ;;
  release d_icache_lock ;;
  ret i.

Definition ialloc (dev type : Z) : M fsys nat :=
  sb <- gets d_sb ;;
  r <- for_up (Z.to_nat (sb_ninodes sb - 1)) 1 (λ inum,
    bp <- bread dev (IBLOCK inum sb) ;;
    d <- bdata bp ;;
    let o := 64 * (inum mod IPB) in
    if s16 (rd16 d o) =? 0 then
      set_bdata bp (λ d, wr16 (splice d o (replicate 64 0)) o type) ;;
      log_write bp ;;
      brelse bp ;;
      i <- iget dev inum ;;
      ret (Some i)
    else brelse bp ;; ret None) ;;
  match r with Some i => ret i | None => panic "ialloc: no inodes" end.

Definition iupdate (i : nat) : M fsys unit :=
  sb <- gets d_sb ;;
  ip <- getino i ;;
  bp <- bread (i_dev ip) (IBLOCK (i_inum ip) sb) ;;
  set_bdata bp (put_dinode ip (i_inum ip mod IPB)) ;;
  log_write bp ;;
  brelse bp.

Definition acquire_ino (i : nat) : M fsys unit :=
  ip <- getino i ;;
  if i_locked ip then sleep_on (ChInode i) else modino i (λ ip, ip <| i_locked := true |>).
Definition release_ino (i : nat) : M fsys unit :=
  modino i (λ ip, ip <| i_locked := false |>) ;; wakeup_on (ChInode i).

Definition ilock (oi : option nat) : M fsys unit :=
  match oi with
  | None => panic "ilock"
  | Some i =>
      ip <- getino i ;;
      if i_ref ip <? 1 then panic "ilock" else
      acquire_ino i ;;
      ip <- getino i ;;
      if i_valid ip then skip else
      sb <- gets d_sb ;;
      bp <- bread (i_dev ip) (IBLOCK (i_inum ip) sb) ;;
      d <- bdata bp ;;
      modino i (get_dinode d (i_inum ip mod IPB)) ;;
      brelse bp ;;
      modino i (λ ip, ip <| i_valid := true |>) ;;
      ip <- getino i ;;
      if i_type ip =? 0 then panic "ilock: no type" else skip
  end.

Definition iunlock (oi : option nat) : M fsys unit :=
  match oi with
  | None => panic "iunlock"
  | Some i =>
      ip <- getino i ;;
      if negb (i_locked ip) || (i_ref ip <? 1) then panic "iunlock" else release_ino i
  end.

(** [ip->addrs[j]] *)
Definition addr_at (i : nat) (j : Z) : M fsys Z := ip <- getino i ;; of_option "addrs[] index" (aget (i_addrs ip) j).
Definition set_addr (i : nat) (j v : Z) : M fsys unit := modino i (λ ip, ip <| i_addrs ::= λ l, aset l j v |>).

Definition bmap (i : nat) (bn : Z) : M fsys Z :=
  ip <- getino i ;;
  if bn <? NDIRECT then
    addr <- addr_at i bn ;;
    if addr =? 0 then
      addr <- balloc (i_dev ip) ;;
      set_addr i bn addr ;;
      ret addr
    else ret addr
  else
    let bn := bn - NDIRECT in
    if bn <? NINDIRECT then
      addr <- addr_at i NDIRECT ;;
      addr <- (if addr =? 0 then addr <- balloc (i_dev ip) ;; set_addr i NDIRECT addr ;; ret addr else ret addr) ;;
      bp <- bread (i_dev ip) addr ;;
      d <- bdata bp ;;
      let addr := rd32 d (4 * bn) in
      addr <- (if addr =? 0 then
                 addr <- balloc (i_dev ip) ;;
                 set_bdata bp (λ d, wr32 d (4 * bn) addr) ;;
                 log_write bp ;;
                 ret addr
               else ret addr) ;;
      brelse bp ;;
      ret addr
    else panic "bmap: out of range".

Definition itrunc (i : nat) : M fsys unit :=
  ip <- getino i ;;
  for_all (Z.to_nat NDIRECT) 0 (λ j,
    a <- addr_at i j ;;
    if a =? 0 then skip else bfree (i_dev ip) a ;; set_addr i j 0) ;;
  ind <- addr_at i NDIRECT ;;
  (if ind =? 0 then skip else
     bp <- bread (i_dev ip) ind ;;
     for_all (Z.to_nat NINDIRECT) 0 (λ j,
       d <- bdata bp ;;
       let a := rd32 d (4 * j) in
       if a =? 0 then skip else bfree (i_dev ip) a) ;;
     brelse bp ;;
     ind <- addr_at i NDIRECT ;;
     bfree (i_dev ip) ind ;;
     set_addr i NDIRECT 0) ;;
  modino i (λ ip, ip <| i_size := 0 |>) ;;
  iupdate i.

Definition iput (i : nat) : M fsys unit :=
  acquire_ino i ;;
  ip <- getino i ;;
  (if i_valid ip && (i_nlink ip =? 0) then
     acquire d_icache_lock ;;
     ip <- getino i ;;
     let r := i_ref ip in
     release d_icache_lock ;;
     if r =? 1 then
       itrunc i ;;
       modino i (λ ip, ip <| i_type := 0 |>) ;;
       iupdate i ;;
       modino i (λ ip, ip <| i_valid := false |>)
     else skip
   else skip) ;;
  release_ino i ;;
  acquire d_icache_lock ;;
  modino i (λ ip, ip <| i_ref ::= λ n, n - 1 |>) ;;
  release d_icache_lock.

Definition iunlockput (i : nat) : M fsys unit := iunlock (Some i) ;; iput i.

Record stat := Stat { st_type : Z; st_dev : Z; st_ino : Z; st_nlink : Z; st_size : Z }.
Definition stati (i : nat) : M fsys stat :=
  ip <- getino i ;; ret (Stat (i_type ip) (i_dev ip) (i_inum ip) (i_nlink ip) (i_size ip)).

Section fs.
Context (devread : Z → option (nat → Z → M fsys (Z * list Z))).
Context (devwrite : Z → option (nat → list Z → M fsys Z)).

(** The device of an inode, if [devsw] has an entry for it. *)
Definition dev_entry {A} (devsw : Z → option A) (major : Z) : option A :=
  if (major <? 0) || (NDEV <=? major) then None else devsw major.

(** [min(n - tot, BSIZE - off%BSIZE)] *)
Definition chunk (n tot off : Z) : Z := Z.min (n - tot) (BSIZE - off mod BSIZE).

(** [readi]: the result and the bytes stored at [dst]. *)
Definition readi (i : nat) (off n : Z) : M fsys (Z * list Z) :=
  ip <- getino i ;;
  if i_type ip =? T_DEV then
    match dev_entry devread (i_major ip) with
    | None => ret (-1, [])
    | Some f => f i n
    end
  else if (i_size ip <? off) || (u32 (off + n) <? off) then ret (-1, []) else
  let n := if i_size ip <? u32 (off + n) then i_size ip - off else n in
  loop (S (Z.to_nat n)) (λ '(tot, off, acc),
    if tot <? n then
      a <- bmap i (off / BSIZE) ;;
      bp <- bread (i_dev ip) a ;;
      let m := chunk n tot off in
      d <- bdata bp ;;
      brelse bp ;;
      ret (inl (tot + m, off + m, acc ++ slice d (off mod BSIZE) m))
    else ret (inr (n, acc))) (0, off, []).

Definition writei (i : nat) (src : list Z) (off : Z) : M fsys Z :=
  let n := Z.of_nat (length src) in
  ip <- getino i ;;
  if i_type ip =? T_DEV then
    match dev_entry devwrite (i_major ip) with
    | None => ret (-1)
    | Some f => f i src
    end
  else if (i_size ip <? off) || (u32 (off + n) <? off) then ret (-1) else
  if MAXFILE * BSIZE <? u32 (off + n) then ret (-1) else
  off <- loop (S (Z.to_nat n)) (λ '(tot, off),
    if tot <? n then
      a <- bmap i (off / BSIZE) ;;
      bp <- bread (i_dev ip) a ;;
      let m := chunk n tot off in
      set_bdata bp (λ d, splice d (off mod BSIZE) (slice src tot m)) ;;
      log_write bp ;;
      brelse bp ;;
      ret (inl (tot + m, off + m))
    else ret (inr off)) (0, off) ;;
  ip <- getino i ;;
  (if (0 <? n) && (i_size ip <? off) then
     modino i (λ ip, ip <| i_size := off |>) ;; iupdate i
   else skip) ;;
  ret n.

(** ** Directories *)

Definition de_inum (de : list Z) : Z := rd16 de 0.
Definition de_name (de : list Z) : list Z := slice de 2 DIRSIZ.
Definition dirent (name : list Z) (inum : Z) : list Z :=
  wr16 [0; 0] 0 inum ++ lstrncpy (Z.to_nat DIRSIZ) name.

(** The next entry of a directory, or panic. *)
Definition read_dirent (msg : string) (dp : nat) (off : Z) : M fsys (list Z) :=
  r <- readi dp off sizeof_dirent ;;
  if r.1 =? sizeof_dirent then ret r.2 else panic msg.

Definition dir_fuel (size : Z) : nat := S (S (Z.to_nat (size / sizeof_dirent))).

(** [dirlookup(dp, name, &off)]: the inode and the offset of its entry. *)
Definition dirlookup (dp : nat) (name : list Z) : M fsys (option (nat * Z)) :=
  d <- getino dp ;;
  if negb (i_type d =? T_DIR) then panic "dirlookup not DIR" else
  loop (dir_fuel (i_size d)) (λ off,
    d <- getino dp ;;
    if off <? i_size d then
      de <- read_dirent "dirlookup read" dp off ;;
      if de_inum de =? 0 then ret (inl (off + sizeof_dirent)) else
      if namecmp name (de_name de) =? 0 then
        i <- iget (i_dev d) (de_inum de) ;;
        ret (inr (Some (i, off)))
      else ret (inl (off + sizeof_dirent))
    else ret (inr None)) 0.

Definition dirlink (dp : nat) (name : list Z) (inum : Z) : M fsys Z :=
  r <- dirlookup dp name ;;
  match r with
  | Some (i, _) => iput i ;; ret (-1)
  | None =>
      d <- getino dp ;;
      off <- loop (dir_fuel (i_size d)) (λ off,
        d <- getino dp ;;
        if off <? i_size d then
          de <- read_dirent "dirlink read" dp off ;;
          if de_inum de =? 0 then ret (inr off) else ret (inl (off + sizeof_dirent))
        else ret (inr off)) 0 ;;
      r <- writei dp (dirent name inum) off ;;
      if r =? sizeof_dirent then ret 0 else panic "dirlink"
  end.

(** ** Paths *)

(** [namex]: the inode, and the last path element if [nameiparent]. *)
Definition namex (cwd : option nat) (path : list Z) (nameiparent : bool) : M fsys (option (nat * list Z)) :=
  i0 <- (if default 0 (head path) =? slash then iget ROOTDEV ROOTINO
         else c <- of_option "cwd is null" cwd ;; idup c) ;;
  loop (S (length path)) (λ '(i, path),
    match skipelem path with
    | None => if nameiparent then iput i ;; ret (inr None) else ret (inr (Some (i, [])))
    | Some (path, name) =>
        ilock (Some i) ;;
        ip <- getino i ;;
        if negb (i_type ip =? T_DIR) then iunlockput i ;; ret (inr None) else
        if nameiparent && (default 0 (head path) =? 0) then
          iunlock (Some i) ;; ret (inr (Some (i, name)))
        else
          r <- dirlookup i name ;;
          match r with
          | None => iunlockput i ;; ret (inr None)
          | Some (next, _) => iunlockput i ;; ret (inl (next, path))
          end
    end) (i0, path).

Definition namei (cwd : option nat) (path : list Z) : M fsys (option nat) :=
  r <- namex cwd path false ;; ret (fst <$> r).
Definition nameiparent (cwd : option nat) (path : list Z) : M fsys (option (nat * list Z)) := namex cwd path true.

(** ** sysfile.c *)

Definition isdirempty (dp : nat) : M fsys bool :=
  d <- getino dp ;;
  loop (dir_fuel (i_size d)) (λ off,
    d <- getino dp ;;
    if off <? i_size d then
      de <- read_dirent "isdirempty: readi" dp off ;;
      if de_inum de =? 0 then ret (inl (off + sizeof_dirent)) else ret (inr false)
    else ret (inr true)) (2 * sizeof_dirent).

Definition dot : list Z := [46].
Definition dotdot : list Z := [46; 46].

Definition create (cwd : option nat) (path : list Z) (type major minor : Z) : M fsys (option nat) :=
  r <- nameiparent cwd path ;;
  match r with
  | None => ret None
  | Some (dp, name) =>
      ilock (Some dp) ;;
      r <- dirlookup dp name ;;
      match r with
      | Some (i, _) =>
          iunlockput dp ;;
          ilock (Some i) ;;
          ip <- getino i ;;
          if (type =? T_FILE) && (i_type ip =? T_FILE) then ret (Some i)
          else iunlockput i ;; ret None
      | None =>
          d <- getino dp ;;
          i <- ialloc (i_dev d) type ;;
          ilock (Some i) ;;
          modino i (λ ip, ip <| i_major := major |> <| i_minor := minor |> <| i_nlink := 1 |>) ;;
          iupdate i ;;
          ip <- getino i ;;
          (if type =? T_DIR then
             modino dp (λ d, d <| i_nlink ::= λ n, s16 (n + 1) |>) ;;
             iupdate dp ;;
             r <- dirlink i dot (i_inum ip) ;;
             if r <? 0 then panic "create dots" else
             r <- dirlink i dotdot (i_inum d) ;;
             if r <? 0 then panic "create dots" else skip
           else skip) ;;
          r <- dirlink dp name (i_inum ip) ;;
          if r <? 0 then panic "create: dirlink" else
          iunlockput dp ;;
          ret (Some i)
      end
  end.

(** The body of [sys_unlink] after the arguments, shared with
    [removeSwapFile]. *)
Definition unlink (cwd : option nat) (path : list Z) : M fsys Z :=
  begin_op ;;
  r <- nameiparent cwd path ;;
  match r with
  | None => end_op ;; ret (-1)
  | Some (dp, name) =>
      ilock (Some dp) ;;
      let bad := iunlockput dp ;; end_op ;; ret (-1) in
      if (namecmp name dot =? 0) || (namecmp name dotdot =? 0) then bad else
      r <- dirlookup dp name ;;
      match r with
      | None => bad
      | Some (i, off) =>
          ilock (Some i) ;;
          ip <- getino i ;;
          if i_nlink ip <? 1 then panic "unlink: nlink < 1" else
          full <- (if i_type ip =? T_DIR then e <- isdirempty i ;; ret (negb e) else ret false) ;;
          if full then iunlockput i ;; bad else
          r <- writei dp (replicate (Z.to_nat sizeof_dirent) 0) off ;;
          if negb (r =? sizeof_dirent) then panic "unlink: writei" else
          (if i_type ip =? T_DIR then
             modino dp (λ d, d <| i_nlink ::= λ n, s16 (n - 1) |>) ;; iupdate dp
           else skip) ;;
          iunlockput dp ;;
          modino i (λ ip, ip <| i_nlink ::= λ n, s16 (n - 1) |>) ;;
          iupdate i ;;
          iunlockput i ;;
          end_op ;;
          ret 0
      end
  end.
End fs.
