(* ===== verification/Inode.v ===== *)
(** The contents of files.

    An inode maps the blocks of a file to blocks of the disk, directly or
    through its indirect block; the bitmap says which blocks are allocated.
    [fbyte] is the byte of a file at an offset, as the file system sees it
    ([view]).  [balloc], [bmap], [iupdate], [readi] and [writei] are verified
    against it inside a transaction: [writei] stores the bytes it is given and
    changes no other file, and [readi] returns them. *)

From S2P Require Import Prelude Memory Machine Disk Bio Log LogCrash Txn Fs.
From stdpp Require Import options.
Implicit Types s : fsys.
Implicit Types U W : gset Z.
Implicit Types V : Z → list Z.
Implicit Types sb : superblock.
Implicit Types ip : inode.

(** ** The bitmap *)

Definition bit_of (d : list Z) (b : Z) : bool := Z.testbit (rd8 d (b / 8)) (b mod 8).
Definition set_bit (b : Z) (d : list Z) : list Z := wr8 d (b / 8) (Z.lor (rd8 d (b / 8)) (bit_mask b)).

Lemma land_mask x b : 0 ≤ b → (Z.land x (bit_mask b) =? 0) = negb (Z.testbit x (b mod 8)).
Proof.
  intros Hb. pose proof (Z.mod_pos_bound b 8 ltac:(lia)) as Hm. unfold bit_mask. rewrite Z.shiftl_1_l.
  destruct (Z.testbit x (b mod 8)) eqn:E; simpl.
  - apply Z.eqb_neq. intros H0. assert (Z.testbit (Z.land x (2 ^ (b mod 8))) (b mod 8) = false) as H1 by (rewrite H0; apply Z.bits_0).
    rewrite Z.land_spec, E, Z.pow2_bits_true in H1 by lia. done.
  - apply Z.eqb_eq. apply Z.bits_inj'. intros k Hk. rewrite Z.land_spec, Z.bits_0. destruct (Z.eq_dec k (b mod 8)) as [->|Hne].
    + by rewrite E.
    + by rewrite Z.pow2_bits_false, andb_false_r by lia.
Qed.

Lemma set_bit_spec b d b' :
  0 ≤ b → 0 ≤ b' → b / 8 < Z.of_nat (length d) → bit_of (set_bit b d) b' = (b =? b') || bit_of d b'.
Proof.
  intros Hb Hb' Hl. unfold bit_of, set_bit. pose proof (Z.div_pos b 8 ltac:(lia) ltac:(lia)).
  pose proof (Z.mod_pos_bound b 8 ltac:(lia)). pose proof (Z.mod_pos_bound b' 8 ltac:(lia)).
  rewrite rd8_wr8 by lia. case_decide as E.
  - unfold u8. change (2 ^ 8) with (2 ^ 8). rewrite Z.mod_pow2_bits_low by lia. rewrite E, Z.lor_spec, orb_comm. f_equal.
    unfold bit_mask. rewrite Z.shiftl_1_l, Z.pow2_bits_eqb by lia. destruct (Z.eqb_spec b b') as [->|Hne]; [apply Z.eqb_refl|].
    apply Z.eqb_neq. intros Em. apply Hne. rewrite (Z.div_mod b 8), (Z.div_mod b' 8) by lia. congruence.
  - destruct (Z.eqb_spec b b') as [->|]; done.
Qed.

Lemma free_bit_spec fuel d size bi :
  0 ≤ bi → BPB ≤ bi + Z.of_nat fuel →
  match free_bit fuel d 0 size bi with
  | Some r => bi ≤ r < BPB ∧ r < size ∧ bit_of d r = false
  | None => ∀ r, bi ≤ r < BPB → r < size → bit_of d r = true
  end.
Proof.
  revert bi. induction fuel as [|fuel IH]; intros bi Hbi Hf; simpl; [intros; lia|].
  destruct (Z.ltb_spec bi BPB); simpl; [|intros; lia]. rewrite ?Z.add_0_l. destruct (Z.ltb_spec bi size); simpl; [|intros; lia]. rewrite land_mask by done.
  fold (bit_of d bi). destruct (bit_of d bi) eqn:E; simpl; [|done].
  specialize (IH (bi + 1)). destruct (free_bit _ _ _ _ _) as [r|].
  - destruct IH as (? & ? & ?); [lia..|]. split_and!; [lia..|done].
  - intros r Hr Hs. destruct (decide (r = bi)) as [->|]; [done|]. apply IH; lia.
Qed.

(** ** The volume *)

(** Block 0 is unused, block 1 is the superblock, then come the log, the
    inodes, one block of bitmap and the data. *)
Record layout sb : Prop := {
  ly_log : 2 ≤ sb_logstart sb ∧ sb_logstart sb + sb_nlog sb ≤ sb_inodestart sb ∧ 0 ≤ sb_nlog sb;
  ly_inodes : 0 < sb_ninodes sb ∧ sb_inodestart sb + (sb_ninodes sb - 1) / IPB < sb_bmapstart sb;
  ly_size : sb_bmapstart sb < sb_size sb ≤ FSSIZE;
}.

Lemma IBLOCK_range sb n : layout sb → 0 ≤ n < sb_ninodes sb → sb_inodestart sb ≤ IBLOCK n sb < sb_bmapstart sb.
Proof.
  intros [L1 L2 L3] Hn. unfold IBLOCK. change IPB with 8 in *. pose proof (Z.div_pos n 8). pose proof (Z.div_le_mono n (sb_ninodes sb - 1) 8). lia.
Qed.
Lemma layout_pos sb : layout sb → 2 ≤ sb_inodestart sb < sb_bmapstart sb ∧ sb_bmapstart sb < sb_size sb ≤ FSSIZE.
Proof. intros L. pose proof (IBLOCK_range sb 0 L). destruct L as [L1 L2 L3]. lia. Qed.

Definition bitmap V sb : list Z := V (sb_bmapstart sb).
Definition free_blocks V sb : gset Z := filter (λ b, bit_of (bitmap V sb) b = false) (list_to_set (seqZ 0 (sb_size sb))).

Record volume V sb : Prop := {
  vo_layout : layout sb;
  vo_len k : length (V k) = Z.to_nat BSIZE;
  vo_meta b : 0 ≤ b ≤ sb_bmapstart sb → bit_of (bitmap V sb) b = true;
}.

(** A block of the data area that is allocated. *)
Definition is_data V sb (a : Z) : Prop := sb_bmapstart sb < a < sb_size sb ∧ bit_of (bitmap V sb) a = true.

Lemma elem_of_free V sb b : b ∈ free_blocks V sb ↔ bit_of (bitmap V sb) b = false ∧ 0 ≤ b < sb_size sb.
Proof. unfold free_blocks. rewrite elem_of_filter, elem_of_list_to_set, elem_of_seqZ. by rewrite Z.add_0_l. Qed.

(** Block [a] has been taken from the free blocks and cleared. *)
Record took V V' sb (a : Z) : Prop := {
  tk_free : a ∈ free_blocks V sb;
  tk_bitmap : bitmap V' sb = set_bit a (bitmap V sb);
  tk_zero : V' a = zero_block;
  tk_rest k : k ≠ a → k ≠ sb_bmapstart sb → V' k = V k;
}.

Lemma free_is_data V sb b : volume V sb → b ∈ free_blocks V sb → sb_bmapstart sb < b < sb_size sb ∧ ¬ is_data V sb b.
Proof.
  intros Hv [Hb Hr]%elem_of_free. split; [|intros [_ ?]; congruence]. destruct (decide (b ≤ sb_bmapstart sb)); [|lia].
  rewrite (vo_meta _ _ Hv) in Hb by lia. done.
Qed.

Lemma took_bit V V' sb a b :
  volume V sb → took V V' sb a → 0 ≤ b → bit_of (bitmap V' sb) b = (a =? b) || bit_of (bitmap V sb) b.
Proof.
  intros Hv [[_ Ha]%elem_of_free -> _ _] Hb. pose proof (ly_size _ (vo_layout _ _ Hv)). apply set_bit_spec; [lia|lia|].
  unfold bitmap. rewrite (vo_len _ _ Hv). unfold FSSIZE, BSIZE in *. apply Z.div_lt_upper_bound; lia.
Qed.

Lemma took_len V V' sb a k : volume V sb → took V V' sb a → length (V' k) = Z.to_nat BSIZE.
Proof.
  intros Hv [_ Hb Hz Hr]. destruct (decide (k = a)) as [->|Ha]; [by rewrite Hz|].
  destruct (decide (k = sb_bmapstart sb)) as [->|Hk].
  - unfold bitmap in Hb. rewrite Hb. unfold set_bit. rewrite length_wr8. apply Hv.
  - rewrite Hr by done. apply Hv.
Qed.

Lemma took_volume V V' sb a : volume V sb → took V V' sb a → volume V' sb.
Proof.
  intros Hv Ht. split; [apply Hv|intros k; by eapply took_len|]. intros b Hb. rewrite (took_bit V V' sb a) by (lia || done).
  by rewrite (vo_meta _ _ Hv), orb_true_r.
Qed.

Lemma took_free V V' sb a : volume V sb → took V V' sb a → free_blocks V' sb = free_blocks V sb ∖ {[a]}.
Proof.
  intros Hv Ht. apply set_eq. intros b. rewrite elem_of_difference, elem_of_singleton, !elem_of_free.
  split.
  - intros [Hb Hr]. rewrite (took_bit V V' sb a) in Hb by (lia || done). apply orb_false_iff in Hb as [Hb1%Z.eqb_neq Hb2]. split_and!; [done|lia..].
  - intros [[Hb Hr] Hne]. rewrite (took_bit V V' sb a) by (lia || done). rewrite Hb, orb_false_r. split; [by apply Z.eqb_neq|done].
Qed.

Lemma took_data V V' sb a b : volume V sb → took V V' sb a → is_data V' sb b ↔ is_data V sb b ∨ b = a.
Proof.
  intros Hv Ht. destruct (free_is_data V sb a Hv (tk_free _ _ _ _ Ht)) as [Ha _]. pose proof (layout_pos _ (vo_layout _ _ Hv)).
  unfold is_data. destruct (decide (0 ≤ b)); [|split; [intros [? _]; lia|intros [[? _]|]; lia]].
  rewrite (took_bit V V' sb a) by done. destruct (Z.eqb_spec a b) as [->|]; simpl; [|naive_solver]. split; [by right|done].
Qed.

(** ** balloc *)

Lemma BBLOCK_0 sb b : 0 ≤ b < BPB → BBLOCK b sb = sb_bmapstart sb.
Proof. intros Hb. unfold BBLOCK. rewrite Z.div_small by done. lia. Qed.

Lemma bzero_tx s U bn :
  tx s U → in_op s → 0 ≤ bn < FSSIZE → bn ∉ U → (size U ≤ 10)%nat → bn ∈ logged s ∨ (size (logged s) < Z.to_nat MAXOPBLOCKS)%nat →
  wp (bzero 1 bn) (λ _ s', tx s' U ∧ tx_frame U s s' {[bn]} ∧ view s' bn = zero_block ∧ d_inodes s' = d_inodes s) s.
Proof. intros. by apply (wp_rmw (λ _, zero_block)). Qed.

Lemma took_frames V V1 V2 sb a U s s1 s2 :
  view s = V → view s1 = V1 → view s2 = V2 → a ∈ free_blocks V sb → a ≠ sb_bmapstart sb →
  tx_frame U s s1 {[sb_bmapstart sb]} → view s1 (sb_bmapstart sb) = set_bit a (bitmap V sb) →
  tx_frame U s1 s2 {[a]} → view s2 a = zero_block → took V V2 sb a.
Proof.
  intros <- <- <- Ha Hne F1 E1 F2 E2. split; [done| |done|].
  - unfold bitmap. by rewrite (tf_view _ _ _ _ F2), E1 by set_solver.
  - intros k Hk Hk'. by rewrite (tf_view _ _ _ _ F2), (tf_view _ _ _ _ F1) by set_solver.
Qed.

(** [balloc] takes a free block if there is one, and clears it. *)
Lemma balloc_tx s U :
  tx s U → in_op s → volume (view s) (d_sb s) → (∀ k, k ∈ U → is_data (view s) (d_sb s) k) → (size U ≤ 9)%nat →
  free_blocks (view s) (d_sb s) ≠ ∅ → (size ({[sb_bmapstart (d_sb s)]} ∪ logged s) < Z.to_nat MAXOPBLOCKS)%nat →
  wp (balloc 1) (λ a s', tx s' U ∧ tx_frame U s s' {[sb_bmapstart (d_sb s); a]} ∧ took (view s) (view s') (d_sb s) a ∧
    d_inodes s' = d_inodes s) s.
Proof.
  intros T Hop Hv HU HU9 [x Hx]%set_choose_L Hsz. pose proof (layout_pos _ (vo_layout _ _ Hv)) as Hlay.
  apply elem_of_free in Hx as [Hx Hxr]. set (bm := sb_bmapstart (d_sb s)) in *.
  assert (bm ∉ U) as HbU by (intros [? _]%HU; lia).
  assert (bm ∈ logged s ∨ (size (logged s) < Z.to_nat MAXOPBLOCKS)%nat) as Hsz0.
  { right. eapply Nat.le_lt_trans; [|exact Hsz]. apply subseteq_size. set_solver. }
  unfold balloc. apply wp_bind, wp_gets. cbn [loop]. apply wp_bind. destruct (Z.ltb_spec 0 (sb_size (d_sb s))); [|lia].
  rewrite BBLOCK_0 by done. fold bm. apply wp_bind. eapply wp_mono; [apply (bread_tx s U bm); [done|unfold FSSIZE in *; lia|done|lia]|].
  intros i s1 (T1 & H1 & F1 & I1). apply wp_bind. apply (bdata_spec s1 i bm (view s bm)); [apply H1|].
  pose proof (free_bit_spec (Z.to_nat BPB) (view s bm) (sb_size (d_sb s)) 0 ltac:(lia) ltac:(unfold BPB, BSIZE; lia)) as Hfb.
  destruct (free_bit _ _ _ _ _) as [a|]; [|rewrite Hfb in Hx; [done|unfold BPB, BSIZE, FSSIZE in *; lia..]].
  destruct Hfb as (Ha1 & Ha2 & Ha3). rewrite Z.add_0_l.
  assert (a ∈ free_blocks (view s) (d_sb s)) as Haf by (apply elem_of_free; split; [done|lia]).
  destruct (free_is_data _ _ _ Hv Haf) as [Har Hand]. fold bm in Har.
  assert (logged s1 = logged s) as Hlg by (pose proof (tf_grow _ _ _ _ F1); pose proof (tf_logged _ _ _ _ F1); set_solver).
  eapply (wp_update (set_bit a)); [done|by eapply in_op_frame|done|apply H1|unfold set_bit; rewrite length_wr8; apply Hv|by rewrite Hlg|].
  intros s2 T2 H2 F2 I2. apply wp_bind. eapply wp_mono; [by eapply brelse_tx|]. intros [] s3 (T3 & F3 & I3).
  assert (tx_frame U s s3 {[bm]}) as F03 by (eapply tx_frame_mono; [eapply tx_frame_trans; [exact F1|eapply tx_frame_trans; done]|done|set_solver]).
  assert (a ∉ U) as HaU by (by intros ?%HU).
  assert (view s3 bm = set_bit a (view s bm)) as Hbm by (rewrite (tf_view _ _ _ _ F3) by set_solver; apply (handle_view _ _ _ _ (proj1 H2))).
  apply wp_bind. eapply wp_mono; [apply (bzero_tx s3 U a); [done|by eapply in_op_frame|unfold FSSIZE in *; lia|done|lia|right]|].
  { eapply Nat.le_lt_trans; [|exact Hsz]. apply subseteq_size. pose proof (tf_logged _ _ _ _ F03). set_solver. }
  intros [] s4 (T4 & F4 & Hz & I4). apply wp_ret. apply wp_ret. split_and!; [done|by eapply tx_frame_trans| |congruence].
  eapply took_frames; try done. lia.
Qed.

(** ** The blocks of a file *)

Definition ind_addr ip : Z := default 0 (aget (i_addrs ip) NDIRECT).

(** The disk block of block [bn] of the file, 0 if it has none. *)
Definition baddr V ip (bn : Z) : Z :=
  if bn <? NDIRECT then default 0 (aget (i_addrs ip) bn)
  else if ind_addr ip =? 0 then 0 else rd32 (V (ind_addr ip)) (4 * (bn - NDIRECT)).

(** The blocks that an inode refers to: those of the file, and the indirect
    block in slot [MAXFILE]. *)
Definition slot V ip (j : Z) : Z := if j =? MAXFILE then ind_addr ip else baddr V ip j.
Definition owns V ip (a : Z) : Prop := a ≠ 0 ∧ ∃ j, 0 ≤ j ≤ MAXFILE ∧ slot V ip j = a.

Record inode_ok V sb ip : Prop := {
  io_dev : i_dev ip = 1;
  io_inum : 0 ≤ i_inum ip < sb_ninodes sb;
  io_len : length (i_addrs ip) = Z.to_nat (NDIRECT + 1);
  io_size : 0 ≤ i_size ip ≤ MAXFILE * BSIZE;
  io_data j : 0 ≤ j ≤ MAXFILE → slot V ip j = 0 ∨ is_data V sb (slot V ip j);
  io_inj j k : 0 ≤ j ≤ MAXFILE → 0 ≤ k ≤ MAXFILE → slot V ip j = slot V ip k → slot V ip j ≠ 0 → j = k;
  io_covers bn : 0 ≤ bn → bn * BSIZE < i_size ip → baddr V ip bn ≠ 0;
}.

(** The byte at offset [o]. *)
Definition fbyte V ip (o : Z) : Z := rd8 (V (baddr V ip (o / BSIZE))) (o mod BSIZE).

Lemma MAXFILE_eq : MAXFILE = 140.
Proof. done. Qed.
Lemma MAXFILE_slot : 0 ≤ MAXFILE ≤ MAXFILE.
Proof. rewrite MAXFILE_eq. lia. Qed.

Lemma slot_baddr V ip bn : 0 ≤ bn < MAXFILE → slot V ip bn = baddr V ip bn.
Proof. intros Hb. unfold slot. by destruct (Z.eqb_spec bn MAXFILE); [lia|]. Qed.
Lemma slot_ind V ip : slot V ip MAXFILE = ind_addr ip.
Proof. done. Qed.

Lemma data_pos V sb a : layout sb → is_data V sb a → 2 < a < FSSIZE.
Proof. intros L [Ha _]. pose proof (layout_pos _ L). lia. Qed.

Lemma inode_data V sb ip bn : inode_ok V sb ip → 0 ≤ bn < MAXFILE → baddr V ip bn ≠ 0 → is_data V sb (baddr V ip bn).
Proof. intros Hi Hb. rewrite <-slot_baddr by done. destruct (io_data _ _ _ Hi bn); [lia|done..]. Qed.
Lemma inode_ind_data V sb ip : inode_ok V sb ip → ind_addr ip ≠ 0 → is_data V sb (ind_addr ip).
Proof. intros Hi Hb. rewrite <-(slot_ind V). destruct (io_data _ _ _ Hi MAXFILE MAXFILE_slot); done. Qed.
Lemma baddr_ind V sb ip bn :
  inode_ok V sb ip → 0 ≤ bn < MAXFILE → baddr V ip bn ≠ 0 → baddr V ip bn ≠ ind_addr ip.
Proof.
  intros Hi Hb Hn E. assert (bn = MAXFILE); [|lia]. apply (io_inj _ _ _ Hi); rewrite ?slot_ind, ?(slot_baddr V ip bn) by done; try done; lia.
Qed.
Lemma baddr_inj V sb ip bn bn' :
  inode_ok V sb ip → 0 ≤ bn < MAXFILE → 0 ≤ bn' < MAXFILE → baddr V ip bn = baddr V ip bn' → baddr V ip bn ≠ 0 → bn = bn'.
Proof. intros Hi Hb Hb' E Hn. apply (io_inj _ _ _ Hi); rewrite ?slot_baddr by done; try done; lia. Qed.

(** An inode after slots have been filled with the blocks [A] taken from the
    free ones. *)
Record grown V V' sb ip ip' (A : gset Z) : Prop := {
  gr_ip : ip' = ip <| i_addrs := i_addrs ip' |>;
  gr_slot j : 0 ≤ j ≤ MAXFILE → slot V ip j ≠ 0 → slot V' ip' j = slot V ip j;
  gr_new j : 0 ≤ j ≤ MAXFILE → slot V' ip' j = slot V ip j ∨ slot V' ip' j ∈ A;
  gr_rest k : k ∉ A → k ≠ sb_bmapstart sb → k ≠ ind_addr ip' ∨ k = 0 → V' k = V k;
  gr_fresh : A ⊆ free_blocks V sb;
  gr_free : free_blocks V' sb = free_blocks V sb ∖ A;
  gr_data b : is_data V' sb b ↔ is_data V sb b ∨ b ∈ A;
  gr_volume : volume V' sb;
  gr_ok : inode_ok V' sb ip';
}.

Lemma grown_refl V sb ip : volume V sb → inode_ok V sb ip → grown V V sb ip ip ∅.
Proof.
  intros Hv Hi. split; try done; [by destruct ip|by left|set_solver|intros b; set_solver].
Qed.

Lemma grown_trans V1 V2 V3 sb ip1 ip2 ip3 A B :
  grown V1 V2 sb ip1 ip2 A → grown V2 V3 sb ip2 ip3 B → grown V1 V3 sb ip1 ip3 (A ∪ B).
Proof.
  intros [A1 A2 A3 A4 A5 A6 A7 A8 A9] [B1 B2 B3 B4 B5 B6 B7 B8 B9]. split; try done.
  - rewrite B1, A1. done.
  - intros j Hj Hn. rewrite B2, A2; [done..|]. by rewrite A2.
  - intros j Hj. destruct (B3 j Hj) as [->|]; [|set_solver]. destruct (A3 j Hj) as [->|]; [by left|set_solver].
  - intros k Hk Hb Hi. rewrite B4, A4; [done|set_solver|done| |set_solver|done..].
    destruct Hi as [Hi| ->]; [|by right]. destruct (decide (k = 0)) as [->|Hk0]; [by right|left]. intros ->. apply Hi.
    specialize (B2 MAXFILE MAXFILE_slot). rewrite !slot_ind in B2. symmetry. by apply B2.
  - rewrite A6 in B5. set_solver.
  - rewrite B6, A6. set_solver.
  - intros b. rewrite B7, A7. set_solver.
Qed.

(** ** Filling a slot *)

Lemma rd8_zero o : rd8 zero_block o = 0.
Proof.
  unfold rd8, aget. destruct (o <? 0); [done|]. destruct (zero_block !! Z.to_nat o) as [x|] eqn:E; [|done].
  unfold zero_block in E. apply lookup_replicate_1 in E as [-> _]. done.
Qed.
Lemma rd32_zero o : rd32 zero_block o = 0.
Proof. unfold rd32. rewrite !rd8_zero. done. Qed.

Lemma ind_not_bmap V sb ip : inode_ok V sb ip → volume V sb → ind_addr ip ≠ sb_bmapstart sb.
Proof.
  intros Hi Hv E. pose proof (layout_pos _ (vo_layout _ _ Hv)). destruct (inode_ind_data _ _ _ Hi) as [? _]; lia.
Qed.

Lemma took_slot V V' sb ip a j :
  inode_ok V sb ip → volume V sb → took V V' sb a → slot V' ip j = slot V ip j.
Proof.
  intros Hi Hv Ht. unfold slot, baddr. case_match; [done|]. case_match; [done|]. destruct (Z.eqb_spec (ind_addr ip) 0) as [|Hn]; [done|].
  rewrite (tk_rest _ _ _ _ Ht); [done| |by eapply ind_not_bmap]. intros E.
  apply (free_is_data _ _ _ Hv (tk_free _ _ _ _ Ht)). rewrite <-E. by apply inode_ind_data.
Qed.

Lemma grown_fill V V1 V' sb ip ip' a j0 :
  volume V sb → inode_ok V sb ip → took V V1 sb a → 0 ≤ j0 ≤ MAXFILE → slot V ip j0 = 0 →
  ip' = ip <| i_addrs := i_addrs ip' |> → length (i_addrs ip') = length (i_addrs ip) →
  (∀ j, 0 ≤ j ≤ MAXFILE → slot V' ip' j = if decide (j = j0) then a else slot V ip j) →
  (∀ k, k ≠ ind_addr ip ∨ k = 0 → V' k = V1 k) → (∀ k, length (V' k) = Z.to_nat BSIZE) →
  grown V V' sb ip ip' {[a]}.
Proof.
  intros Hv Hi Ht Hj0 H0 Hip Hlen Hslot Hrest HL. destruct (free_is_data V sb a Hv (tk_free _ _ _ _ Ht)) as [Ha Hnd].
  pose proof (layout_pos _ (vo_layout _ _ Hv)) as Hlay. pose proof (took_volume _ _ _ _ Hv Ht) as Hv1.
  assert (bitmap V' sb = bitmap V1 sb) as Hbm.
  { apply Hrest. left. intros E. by apply (ind_not_bmap V sb ip). }
  assert (∀ b, is_data V' sb b ↔ is_data V sb b ∨ b ∈ ({[a]} : gset Z)) as Hdata.
  { intros b. unfold is_data at 1. rewrite Hbm. rewrite elem_of_singleton. by rewrite <-(took_data V V1 sb a b). }
  assert (volume V' sb) as Hv'.
  { split; [apply Hv|done|]. rewrite Hbm. apply Hv1. }
  assert (∀ j, 0 ≤ j ≤ MAXFILE → slot V ip j ≠ a) as Hno.
  { intros j Hj E. destruct (io_data _ _ _ Hi j Hj) as [|Hd]; [lia|]. by rewrite E in Hd. }
  split; try done.
  - intros j Hj Hn. rewrite Hslot by done. case_decide; [congruence|done].
  - intros j Hj. rewrite Hslot by done. case_decide; [right; set_solver|by left].
  - intros k Hk Hb Hk'. rewrite not_elem_of_singleton in Hk. rewrite Hrest; [by rewrite (tk_rest _ _ _ _ Ht)|].
    destruct (decide (k = 0)) as [->|Hk0]; [by right|left]. destruct Hk' as [Hk'|]; [|done]. intros ->. apply Hk'.
    specialize (Hslot MAXFILE MAXFILE_slot). rewrite !slot_ind in Hslot. rewrite Hslot. case_decide as E; [|done]. subst j0. rewrite slot_ind in H0. lia.
  - apply singleton_subseteq_l. by apply Ht.
  - rewrite <-(took_free V V1 sb a) by done. unfold free_blocks. by rewrite Hbm.
  - destruct Hi as [I1 I2 I3 I4 I5 I6 I7]. rewrite Hip. split; simpl; try done; [congruence|rewrite <-Hip..].
    + intros j Hj. rewrite Hslot by done. rewrite Hdata. case_decide; [right; right; set_solver|]. destruct (I5 j Hj); [by left|right; by left].
    + intros j k Hj Hk. rewrite !Hslot by done. repeat case_decide; subst; try done; [intros E|intros E|by apply I6].
      * by destruct (Hno k).
      * by destruct (Hno j).
    + intros bn Hbn Hs. assert (0 ≤ bn < MAXFILE) as Hb by (rewrite MAXFILE_eq in *; unfold BSIZE in *; lia).
      rewrite <-slot_baddr, Hslot by (done || lia). case_decide; [lia|]. rewrite slot_baddr by done. by apply I7.
Qed.

Lemma fill_direct V V1 sb ip a bn :
  volume V sb → inode_ok V sb ip → took V V1 sb a → 0 ≤ bn < NDIRECT → baddr V ip bn = 0 →
  grown V V1 sb ip (ip <| i_addrs ::= λ l, aset l bn a |>) {[a]}.
Proof.
  intros Hv Hi Ht Hbn H0. pose proof (io_len _ _ _ Hi) as Hlen. unfold NDIRECT in *.
  apply (grown_fill V V1 V1 sb ip _ a bn); try done.
  - rewrite MAXFILE_eq. lia.
  - by rewrite slot_baddr by (rewrite MAXFILE_eq; lia).
  - by simpl; rewrite length_aset.
  - assert (ind_addr (ip <| i_addrs ::= λ l, aset l bn a |>) = ind_addr ip) as Hind.
    { unfold ind_addr. simpl. by rewrite aget_aset_ne by (unfold NDIRECT; lia). }
    intros j Hj. rewrite <-(took_slot V V1 sb ip a j) by done. unfold slot. destruct (Z.eqb_spec j MAXFILE) as [->|Hne].
    + rewrite decide_False by (rewrite MAXFILE_eq; lia). done.
    + unfold baddr. rewrite Hind. unfold NDIRECT. destruct (Z.ltb_spec j 12); [|by rewrite decide_False by lia].
      simpl. rewrite aget_aset by lia. repeat case_decide; subst; done.
  - intros k. by eapply took_len.
Qed.

Lemma fill_ind V V1 sb ip a :
  volume V sb → inode_ok V sb ip → took V V1 sb a → ind_addr ip = 0 →
  grown V V1 sb ip (ip <| i_addrs ::= λ l, aset l NDIRECT a |>) {[a]} ∧ ind_addr (ip <| i_addrs ::= λ l, aset l NDIRECT a |>) = a.
Proof.
  intros Hv Hi Ht H0. pose proof (io_len _ _ _ Hi) as Hlen.
  assert (ind_addr (ip <| i_addrs ::= λ l, aset l NDIRECT a |>) = a) as Hind.
  { unfold ind_addr. simpl. rewrite aget_aset_eq; [done|]. rewrite Hlen. unfold NDIRECT. lia. }
  split; [|done]. apply (grown_fill V V1 V1 sb ip _ a MAXFILE); try done; [by simpl; rewrite length_aset| |intros k; by eapply took_len].
  intros j Hj. rewrite <-(took_slot V V1 sb ip a j) by done. unfold slot. destruct (Z.eqb_spec j MAXFILE) as [->|Hne].
  - by rewrite decide_True.
  - rewrite decide_False by done. unfold baddr. rewrite Hind, H0. simpl. destruct (Z.ltb_spec j NDIRECT).
    + by rewrite aget_aset_ne by lia.
    + destruct (Z.eqb_spec a 0); [done|]. by rewrite (tk_zero _ _ _ _ Ht), rd32_zero.
Qed.

Lemma fill_entry V V1 V' sb ip a bn :
  volume V sb → inode_ok V sb ip → took V V1 sb a → NDIRECT ≤ bn < MAXFILE → baddr V ip bn = 0 → ind_addr ip ≠ 0 →
  (∀ k, k ≠ ind_addr ip → V' k = V1 k) → V' (ind_addr ip) = wr32 (V (ind_addr ip)) (4 * (bn - NDIRECT)) a →
  grown V V' sb ip ip {[a]}.
Proof.
  intros Hv Hi Ht Hbn H0 Hn Hrest HV'. destruct (free_is_data V sb a Hv (tk_free _ _ _ _ Ht)) as [Ha _].
  pose proof (layout_pos _ (vo_layout _ _ Hv)) as Hlay. rewrite MAXFILE_eq in Hbn. pose proof (vo_len _ _ Hv (ind_addr ip)) as Hlen.
  unfold NDIRECT, FSSIZE, BSIZE in *. apply (grown_fill V V1 V' sb ip _ a bn); try done.
  - rewrite MAXFILE_eq. lia.
  - by rewrite slot_baddr by (rewrite MAXFILE_eq; lia).
  - by destruct ip.
  - intros j Hj. unfold slot. destruct (Z.eqb_spec j MAXFILE) as [->|Hne]; [rewrite decide_False by (rewrite MAXFILE_eq; lia); done|].
    unfold baddr, NDIRECT. destruct (Z.ltb_spec j 12); [by rewrite decide_False by lia|]. destruct (Z.eqb_spec (ind_addr ip) 0); [done|].
    rewrite MAXFILE_eq in *. rewrite HV'. case_decide as E; [subst j; apply rd32_wr32_eq; lia|apply rd32_wr32_ne; lia].
  - intros k [Hk| ->]; apply Hrest; [done|congruence].
  - intros k. destruct (decide (k = ind_addr ip)) as [->|]; [by rewrite HV', length_wr32|]. rewrite Hrest by done. by eapply took_len.
Qed.

(** ** bmap *)

Lemma wp_getino i ip (Q : inode → fsys → Prop) s : d_inodes s !! i = Some ip → Q ip s → wp (getino i) Q s.
Proof. intros Hi HQ. unfold getino. apply wp_bind, wp_gets. by eapply wp_of_option. Qed.
Lemma wp_modino i f ip (Q : unit → fsys → Prop) s :
  d_inodes s !! i = Some ip → Q tt (s <| d_inodes ::= <[i := f ip]> |>) → wp (modino i f) Q s.
Proof. intros Hi HQ. unfold modino. apply wp_bind. eapply wp_getino; [done|]. by apply wp_modify. Qed.
Lemma wp_addr_at i j ip a (Q : Z → fsys → Prop) s :
  d_inodes s !! i = Some ip → aget (i_addrs ip) j = Some a → Q a s → wp (addr_at i j) Q s.
Proof. intros Hi Ha HQ. unfold addr_at. apply wp_bind. eapply wp_getino; [done|]. by eapply wp_of_option. Qed.

Lemma tx_inodes f s U : tx s U → tx (s <| d_inodes ::= f |>) U ∧ tx_frame U s (s <| d_inodes ::= f |>) ∅.
Proof.
  intros [[H1 H2 H3 H4 H5 H6 H7 H8] T2 T3 T5 T6 T7 T8 T9 T10 T11].
  assert (cache_ok (s <| d_inodes ::= f |>)) by (split; try done; intros i b Hb; destruct (H3 i b Hb); by split).
  split; [by split|]. split; try done; [set_solver|by intros ? ? ? _ _ []|simpl; by destruct (d_log s)].
Qed.

(** The indirect block, if the inode has one. *)
Definition iset ip : gset Z := if ind_addr ip =? 0 then ∅ else {[ind_addr ip]}.
Definition icnt ip : nat := if ind_addr ip =? 0 then 0 else 1.

Lemma size_iset ip : size (iset ip) = icnt ip.
Proof. unfold iset, icnt. case_match; [apply size_empty|apply size_singleton]. Qed.
Lemma iset_some ip : ind_addr ip ≠ 0 → iset ip = {[ind_addr ip]}.
Proof. intros H. unfold iset. by destruct (Z.eqb_spec (ind_addr ip) 0). Qed.

(** [bmap] has returned block [a] for block [bn] of inode [i], which is now
    [ip'], and has taken the blocks [A]. *)
Record bmapped s s' (i : nat) ip ip' (bn a : Z) (A : gset Z) : Prop := {
  bm_tx : tx s' ∅;
  bm_frame : tx_frame ∅ s s' ({[sb_bmapstart (d_sb s); a]} ∪ iset ip');
  bm_grown : grown (view s) (view s') (d_sb s) ip ip' A;
  bm_addr : baddr (view s') ip' bn = a;
  bm_pos : a ≠ 0;
  bm_taken : A ⊆ {[a]} ∪ iset ip';
  bm_old : baddr (view s) ip bn ≠ 0 → A = ∅ ∧ ip' = ip ∧ tx_frame ∅ s s' ∅;
  bm_inodes : d_inodes s' = <[i := ip']> (d_inodes s);
}.

(** The state in which an operation on inode [i] starts. *)
Record iready s (i : nat) ip : Prop := {
  ir_tx : tx s ∅;
  ir_volume : volume (view s) (d_sb s);
  ir_inode : inode_ok (view s) (d_sb s) ip;
  ir_at : d_inodes s !! i = Some ip;
}.

Lemma bmapped_ready s s' i ip ip' bn a A : iready s i ip → bmapped s s' i ip ip' bn a A → iready s' i ip'.
Proof.
  intros [R1 R2 R3 R4] [B1 B2 B3 B4 B5 B6 B7 B8]. pose proof (tf_sb _ _ _ _ B2) as E. split; [done| | |].
  - rewrite E. apply B3.
  - rewrite E. apply B3.
  - rewrite B8. by eapply lookup_insert_self.
Qed.

(** [balloc] for the entry [j] of [ip->addrs]. *)
Lemma alloc_addr s i ip j :
  iready s i ip → in_op s → 0 ≤ j ≤ NDIRECT → aget (i_addrs ip) j = Some 0 → free_blocks (view s) (d_sb s) ≠ ∅ →
  (size ({[sb_bmapstart (d_sb s)]} ∪ logged s) < Z.to_nat MAXOPBLOCKS)%nat →
  wp (addr <- balloc (i_dev ip) ;; set_addr i j addr ;; ret addr) (λ a s',
    ∃ ip', tx s' ∅ ∧ tx_frame ∅ s s' {[sb_bmapstart (d_sb s); a]} ∧ grown (view s) (view s') (d_sb s) ip ip' {[a]} ∧
      d_inodes s' = <[i := ip']> (d_inodes s) ∧ aget (i_addrs ip') j = Some a ∧ a ≠ 0) s.
Proof.
  intros [T Hv Hi Hat] Hop Hj H0 Hfree Hsz. rewrite (io_dev _ _ _ Hi). apply wp_bind.
  eapply wp_mono; [by apply (balloc_tx s ∅); [..|set_solver|rewrite size_empty; lia| |]|]. intros a s1 (T1 & F1 & Tk & I1).
  apply wp_bind. unfold set_addr. eapply wp_modino; [by rewrite I1|]. apply wp_ret.
  set (ip' := ip <| i_addrs ::= _ |>). destruct (tx_inodes (<[i := ip']>) s1 ∅ T1) as [T2 F2]. exists ip'.
  destruct (free_is_data _ _ _ Hv (tk_free _ _ _ _ Tk)) as [Ha _]. pose proof (layout_pos _ (vo_layout _ _ Hv)).
  split_and!; [done|rewrite <-(union_empty_r_L {[_; _]}); by eapply tx_frame_trans| |simpl; by rewrite I1| |lia].
  - change (view (s1 <| d_inodes ::= _ |>)) with (view s1). destruct (decide (j = NDIRECT)) as [->|Hne].
    + apply fill_ind; try done. unfold ind_addr. by rewrite H0.
    + apply fill_direct; try done; [lia|]. unfold baddr. destruct (Z.ltb_spec j NDIRECT); [|lia]. by rewrite H0.
  - simpl. apply aget_aset_eq. rewrite (io_len _ _ _ Hi). unfold NDIRECT in *. lia.
Qed.

(** *** Views that agree on every block *)

Record same_view V V' : Prop := { sv_at k : V k = V' k }.
#[global] Instance same_view_equiv : Equivalence same_view.
Proof. split; [done|by intros V V' [E]; split|intros V1 V2 V3 [E] [E']; split; intros k; by rewrite E]. Qed.

#[global] Instance bitmap_proper : Proper (same_view ==> eq ==> eq) bitmap.
Proof. intros V V' E sb ? <-. unfold bitmap. apply E. Qed.
#[global] Instance free_blocks_proper : Proper (same_view ==> eq ==> eq) free_blocks.
Proof. intros V V' E sb ? <-. unfold free_blocks. by rewrite (bitmap_proper V V' E sb sb). Qed.
#[global] Instance is_data_proper : Proper (same_view ==> eq ==> eq ==> iff) is_data.
Proof. intros V V' E sb ? <- a ? <-. unfold is_data. by rewrite E. Qed.
#[global] Instance baddr_proper : Proper (same_view ==> eq ==> eq ==> eq) baddr.
Proof. intros V V' E ip ? <- a ? <-. unfold baddr. by rewrite (sv_at _ _ E (ind_addr ip)). Qed.
#[global] Instance slot_proper : Proper (same_view ==> eq ==> eq ==> eq) slot.
Proof. intros V V' E ip ? <- a ? <-. unfold slot. by rewrite E. Qed.
#[global] Instance owns_proper : Proper (same_view ==> eq ==> eq ==> iff) owns.
Proof. intros V V' E ip ? <- a ? <-. unfold owns. setoid_rewrite E. done. Qed.
#[global] Instance fbyte_proper : Proper (same_view ==> eq ==> eq ==> eq) fbyte.
Proof. intros V V' E ip ? <- a ? <-. unfold fbyte. by rewrite (sv_at _ _ E), (baddr_proper V V' E ip ip eq_refl _ _ eq_refl). Qed.
#[global] Instance volume_proper : Proper (same_view ==> eq ==> iff) volume.
Proof.
  enough (∀ V V', same_view V V' → ∀ sb, volume V sb → volume V' sb) as H by (intros V V' E sb ? <-; split; apply H; [done|by symmetry]).
  intros V V' E sb [H1 H2 H3]. split; [done|intros k; by rewrite <-(sv_at _ _ E k)|intros b; rewrite <-E; apply H3].
Qed.
#[global] Instance inode_ok_proper : Proper (same_view ==> eq ==> eq ==> iff) inode_ok.
Proof.
  enough (∀ V V', same_view V V' → ∀ sb ip, inode_ok V sb ip → inode_ok V' sb ip) as H
    by (intros V V' E sb ? <- ip ? <-; split; apply H; [done|by symmetry]).
  intros V V' E sb ip [H1 H2 H3 H4 H5 H6 H7]. split; try done; intros j; [|intros k|]; rewrite <-!E; auto.
Qed.
#[global] Instance took_proper : Proper (same_view ==> same_view ==> eq ==> eq ==> iff) took.
Proof.
  enough (∀ V V' V1 V1', same_view V V' → same_view V1 V1' → ∀ sb a, took V V1 sb a → took V' V1' sb a) as H
    by (intros V V' E V1 V1' E1 sb ? <- a ? <-; split; apply H; done || by symmetry).
  intros V V' V1 V1' E E1 sb a [H1 H2 H3 H4]. split; [by rewrite <-E|by rewrite <-E, <-E1|by rewrite <-(sv_at _ _ E1 a)|].
  intros k. rewrite <-(sv_at _ _ E k), <-(sv_at _ _ E1 k). apply H4.
Qed.

Lemma frame_view U s s' : tx_frame U s s' ∅ → same_view (view s') (view s).
Proof. intros F. split. intros k. apply (tf_view _ _ _ _ F). set_solver. Qed.
Lemma frame_logged U s s' : tx_frame U s s' ∅ → logged s' = logged s.
Proof. intros F. pose proof (tf_grow _ _ _ _ F). pose proof (tf_logged _ _ _ _ F). set_solver. Qed.
