(* ===== verification/Bmap.v ===== *)
(** [bmap] and [iupdate] of [src/fs.c]: the block of a file at an index,
    allocated if the file has none there, and the copy of an inode on disk. *)

From S2P Require Import Prelude Memory Machine Disk Bio Log LogCrash Txn Fs Inode.
From stdpp Require Import options.
Implicit Types s : fsys.
Implicit Types U W : gset Z.
Implicit Types V : Z → list Z.
Implicit Types sb : superblock.
Implicit Types ip : inode.

(** What [bmap] needs to allocate [n] blocks: a transaction, free blocks and
    room in the log. *)
Record can_alloc s (n : nat) : Prop := {
  ca_op : in_op s;
  ca_free : (n ≤ size (free_blocks (view s) (d_sb s)))%nat;
  ca_room : (size ({[sb_bmapstart (d_sb s)]} ∪ logged s) + n < Z.to_nat MAXOPBLOCKS)%nat;
}.

Lemma free_nonempty V sb : (1 ≤ size (free_blocks V sb))%nat → free_blocks V sb ≠ ∅.
Proof. intros H E. rewrite E, size_empty in H. lia. Qed.

Lemma grown_same V V' sb ip : same_view V' V → volume V sb → inode_ok V sb ip → grown V V' sb ip ip ∅.
Proof.
  intros E Hv Hi. split; [by destruct ip|intros; by rewrite E|intros; left; by rewrite E|intros; apply E|set_solver| | |by rewrite E|by rewrite E].
  - rewrite E. set_solver.
  - intros b. rewrite E. set_solver.
Qed.

(** ** An entry of the indirect block *)

Definition bmap_entry (dev bn addr : Z) : M fsys Z :=
  bp <- bread dev addr ;;
  d <- bdata bp ;;
  let addr := rd32 d (4 * bn) in
  addr <- (if addr =? 0 then
             addr <- balloc dev ;;
             set_bdata bp (λ d, wr32 d (4 * bn) addr) ;;
             log_write bp ;;
             ret addr
           else ret addr) ;;
  brelse bp ;;
  ret addr.

(** The last steps of a [bmap] that has allocated entry [bn]. *)
Lemma entry_grown s s1 s2 s3 s4 i ip bn a :
  iready s i ip → NDIRECT ≤ bn < MAXFILE → baddr (view s) ip bn = 0 → ind_addr ip ≠ 0 →
  tx_frame ∅ s s1 ∅ → tx_frame {[ind_addr ip]} s1 s2 {[sb_bmapstart (d_sb s); a]} → took (view s1) (view s2) (d_sb s) a →
  tx_frame ∅ s2 s3 {[ind_addr ip]} → view s3 (ind_addr ip) = wr32 (view s (ind_addr ip)) (4 * (bn - NDIRECT)) a →
  tx_frame ∅ s3 s4 ∅ →
  grown (view s) (view s4) (d_sb s) ip ip {[a]} ∧ tx_frame ∅ s s4 ({[sb_bmapstart (d_sb s); a]} ∪ iset ip) ∧
  baddr (view s4) ip bn = a.
Proof.
  intros [T Hv Hi Hat] Hbn H0 Hn F1 F2 Tk F3 E3 F4. rewrite (frame_view _ _ _ F1) in Tk. pose proof (frame_view _ _ _ F4) as V4.
  assert (view s4 (ind_addr ip) = wr32 (view s (ind_addr ip)) (4 * (bn - NDIRECT)) a) as E4 by (by rewrite (sv_at _ _ V4)).
  assert (grown (view s) (view s4) (d_sb s) ip ip {[a]}) as G.
  { apply (fill_entry _ (view s2) _ _ _ _ bn); try done. intros k Hk. rewrite (sv_at _ _ V4). apply (tf_view _ _ _ _ F3). set_solver. }
  split_and!; [done| |].
  - eapply tx_frame_mono; [eapply tx_frame_trans; [exact F1|]; eapply tx_frame_trans; [|eapply tx_frame_trans; [exact F3|exact F4]]|done|].
    + eapply tx_frame_mono; [exact F2|set_solver|done].
    + rewrite iset_some by done. set_solver.
  - unfold baddr. destruct (Z.ltb_spec bn NDIRECT); [lia|]. destruct (Z.eqb_spec (ind_addr ip) 0); [done|]. rewrite E4.
    destruct (free_is_data _ _ _ Hv (tk_free _ _ _ _ Tk)) as [Ha _]. pose proof (layout_pos _ (vo_layout _ _ Hv)).
    pose proof (vo_len _ _ Hv (ind_addr ip)) as HL. rewrite MAXFILE_eq in Hbn. unfold NDIRECT, FSSIZE, BSIZE in *. apply rd32_wr32_eq; lia.
Qed.

Lemma bmap_entry_spec s i ip bn :
  iready s i ip → NDIRECT ≤ bn < MAXFILE → ind_addr ip ≠ 0 → (baddr (view s) ip bn = 0 → can_alloc s 1) →
  wp (bmap_entry (i_dev ip) (bn - NDIRECT) (ind_addr ip)) (λ a s', ∃ A, bmapped s s' i ip ip bn a A ∧ (size A ≤ 1)%nat) s.
Proof.
  intros R Hbn Hn Hca. pose proof R as [T Hv Hi Hat]. set (ind := ind_addr ip) in *. rewrite (io_dev _ _ _ Hi).
  pose proof (inode_ind_data _ _ _ Hi Hn) as Hd. fold ind in Hd. pose proof (data_pos _ _ _ (vo_layout _ _ Hv) Hd) as Hr.
  assert (baddr (view s) ip bn = rd32 (view s ind) (4 * (bn - NDIRECT))) as Hba.
  { unfold baddr. destruct (Z.ltb_spec bn NDIRECT); [lia|]. fold ind. by destruct (Z.eqb_spec ind 0). }
  unfold bmap_entry. apply wp_bind. eapply wp_mono; [apply (bread_tx s ∅ ind); [done|lia|set_solver|rewrite size_empty; lia]|].
  intros b s1 (T1 & H1 & F1 & I1). apply wp_bind. eapply bdata_spec; [apply H1|]. rewrite <-Hba. apply wp_bind.
  destruct (Z.eqb_spec (baddr (view s) ip bn) 0) as [E0|Hne].
  - destruct (Hca E0) as [C1 C2 C3]. pose proof (tf_sb _ _ _ _ F1) as Esb. pose proof (frame_view _ _ _ F1) as V1.
    apply wp_bind. eapply wp_mono; [apply (balloc_tx s1 ({[ind]} ∪ ∅)); [done|by eapply in_op_frame|by rewrite V1, Esb| |..]|].
    { intros k Hk. assert (k = ind) as -> by set_solver. by rewrite V1, Esb. }
    { rewrite union_empty_r_L, size_singleton. lia. }
    { rewrite V1, Esb. by apply free_nonempty. }
    { rewrite Esb, (frame_logged _ _ _ F1). lia. }
    intros a s2 (T2 & F2 & Tk & I2). rewrite Esb in F2, Tk. rewrite union_empty_r_L in F2.
    assert (ind ∉ ({[sb_bmapstart (d_sb s); a]} : gset Z)) as Hni.
    { rewrite V1 in Tk. destruct (free_is_data _ _ _ Hv (tk_free _ _ _ _ Tk)) as [_ Hna]. destruct Hd as [Hd1 Hd2].
      intros [E|E]%elem_of_union; apply elem_of_singleton in E; [lia|subst a]. by apply Hna. }
    pose proof (held_frame _ _ _ _ _ _ _ F2 (elem_of_singleton_2 ind ind eq_refl) Hni H1) as [H2 _].
    eapply (wp_update (λ d, wr32 d (4 * (bn - NDIRECT)) a)); [exact T2|exact (in_op_frame _ _ _ _ F2 (in_op_frame _ _ _ _ F1 C1))|set_solver|done| | |].
    { rewrite length_wr32. apply Hv. }
    { right. eapply Nat.le_lt_trans; [|exact C3]. rewrite <-(frame_logged _ _ _ F1).
      etrans; [apply subseteq_size, (tf_logged _ _ _ _ F2)|].
      replace (logged s1 ∪ {[sb_bmapstart (d_sb s); a]}) with ({[sb_bmapstart (d_sb s)]} ∪ logged s1 ∪ {[a]}) by set_solver.
      etrans; [apply size_union_ub|]. by rewrite size_singleton. }
    intros s3 T3 H3 F3 I3. apply wp_ret. apply wp_bind. eapply wp_mono; [eapply (brelse_tx _ ∅); [done|set_solver|done]|]. intros [] s4 (T4 & F4 & I4).
    apply wp_ret. exists {[a]}. rewrite size_singleton. split; [|done].
    destruct (entry_grown s s1 s2 s3 s4 i ip bn a) as (G & F & Ea); try done; [by apply (handle_view _ _ _ _ (proj1 H3))|].
    assert (d_inodes s4 = <[i := ip]> (d_inodes s)) as I by (rewrite list_insert_id by done; congruence).
    split; try done; [|set_solver]. rewrite V1 in Tk.
    destruct (free_is_data _ _ _ Hv (tk_free _ _ _ _ Tk)) as [Ha _]. pose proof (layout_pos _ (vo_layout _ _ Hv)). lia.
  - apply wp_ret. apply wp_bind. eapply wp_mono; [eapply (brelse_tx _ ∅); [done|set_solver|done]|]. intros [] s2 (T2 & F2 & I2). apply wp_ret.
    assert (tx_frame ∅ s s2 ∅) as F by (rewrite <-(union_empty_r_L ∅); by eapply tx_frame_trans).
    exists ∅. rewrite size_empty. split; [|lia]. pose proof (frame_view _ _ _ F) as V2.
    split; try done; [eapply tx_frame_mono; [done..|set_solver]|by apply grown_same|by rewrite V2|].
    rewrite list_insert_id by done. congruence.
Qed.

(** ** bmap *)

Lemma bmapped_size s s' i ip ip' bn a A :
  iready s i ip → bmapped s s' i ip ip' bn a A → (size A + icnt ip ≤ 1 + icnt ip')%nat.
Proof.
  intros [T Hv Hi Hat] B. pose proof (bm_grown _ _ _ _ _ _ _ _ B) as G. pose proof (bm_taken _ _ _ _ _ _ _ _ B) as HA.
  assert ((0 ∉ A) ∧ (ind_addr ip ∉ A)) as [H0 Hi0].
  { assert (∀ x, x ∈ A → is_data (view s) (d_sb s) x ∨ x = 0 → False) as Hx.
    { intros x Hx%(gr_fresh _ _ _ _ _ _ G). destruct (free_is_data _ _ _ Hv Hx) as [Hr Hn]. pose proof (layout_pos _ (vo_layout _ _ Hv)).
      intros [|]; [done|lia]. }
    split; intros HxA; apply (Hx _ HxA); [by right|]. destruct (decide (ind_addr ip = 0)); [by right|left; by apply inode_ind_data]. }
  pose proof (gr_slot _ _ _ _ _ _ G MAXFILE MAXFILE_slot) as Hs. rewrite !slot_ind in Hs. unfold icnt.
  destruct (Z.eqb_spec (ind_addr ip) 0) as [E|E]; destruct (Z.eqb_spec (ind_addr ip') 0) as [E'|E'].
  1, 4: assert (ind_addr ip' ∉ A) as Hi' by (rewrite ?E', ?Hs by done; done).
  1, 2: assert (A ⊆ {[a]}) as HA' by (intros x Hx; apply HA in Hx as Hx'; unfold iset in *; case_match; set_solver).
  1, 2: apply subseteq_size in HA'; rewrite size_singleton in HA'; lia.
  - apply subseteq_size in HA. pose proof (size_union_ub {[a]} (iset ip')). rewrite size_iset, size_singleton in *. unfold icnt in *.
    destruct (Z.eqb_spec (ind_addr ip') 0); [done|]. lia.
  - rewrite Hs in E' by done. done.
Qed.

Lemma can_alloc_step s s1 a n ip ip1 :
  can_alloc s (S n) → volume (view s) (d_sb s) → tx_frame ∅ s s1 {[sb_bmapstart (d_sb s); a]} →
  grown (view s) (view s1) (d_sb s) ip ip1 {[a]} → can_alloc s1 n.
Proof.
  intros [C1 C2 C3] Hv F G. split; rewrite ?(tf_sb _ _ _ _ F).
  - by eapply in_op_frame.
  - rewrite (gr_free _ _ _ _ _ _ G). pose proof (gr_fresh _ _ _ _ _ _ G). rewrite size_difference by done. rewrite size_singleton. lia.
  - pose proof (tf_logged _ _ _ _ F) as HL.
    assert ({[sb_bmapstart (d_sb s)]} ∪ logged s1 ⊆ {[sb_bmapstart (d_sb s)]} ∪ logged s ∪ {[a]}) as Hs by set_solver.
    apply subseteq_size in Hs. pose proof (size_union_ub ({[sb_bmapstart (d_sb s)]} ∪ logged s) {[a]}). rewrite size_singleton in *. lia.
Qed.

Lemma bmap_spec s i ip bn :
  iready s i ip → 0 ≤ bn < MAXFILE → (baddr (view s) ip bn = 0 → can_alloc s (2 - icnt ip)) →
  wp (bmap i bn) (λ a s', ∃ ip' A, bmapped s s' i ip ip' bn a A) s.
Proof.
  intros R Hbn Hca. pose proof R as [T Hv Hi Hat]. pose proof (io_len _ _ _ Hi) as Hlen. unfold icnt in Hca.
  unfold bmap. apply wp_bind. eapply wp_getino; [done|]. destruct (Z.ltb_spec bn NDIRECT) as [Hd|Hd].
  - destruct (aget_is_Some (i_addrs ip) bn) as [a0 Ha0]; [rewrite Hlen; unfold NDIRECT in *; lia|].
    assert (baddr (view s) ip bn = a0) as Hb by (unfold baddr; destruct (Z.ltb_spec bn NDIRECT); [by rewrite Ha0|lia]).
    apply wp_bind. eapply wp_addr_at; [done..|]. destruct (Z.eqb_spec a0 0) as [->|Hne].
    + destruct (Hca Hb) as [C1 C2 C3]. assert (1 ≤ 2 - (if (ind_addr ip =? 0)%Z then 0 else 1))%nat by (case_match; lia).
      eapply wp_mono; [apply alloc_addr; try done; [lia|apply free_nonempty; lia|lia]|]. intros a s' (ip' & T' & F & G & I & Ha & Hpos).
      exists ip', {[a]}. split; try done; [eapply tx_frame_mono; [done..|set_solver]| |set_solver].
      unfold baddr. destruct (Z.ltb_spec bn NDIRECT); [by rewrite Ha|lia].
    + apply wp_ret. exists ip, ∅. pose proof (tx_frame_refl ∅ s) as F.
      split; try done; [eapply tx_frame_mono; [done..|set_solver]|by apply grown_refl|by rewrite list_insert_id].
  - destruct (Z.ltb_spec (bn - NDIRECT) NINDIRECT) as [Hd2|Hd2]; [|unfold MAXFILE in *; lia].
    destruct (aget_is_Some (i_addrs ip) NDIRECT) as [a0 Ha0]; [rewrite Hlen; unfold NDIRECT; lia|].
    assert (ind_addr ip = a0) as Hind by (unfold ind_addr; by rewrite Ha0). rewrite Hind in Hca.
    apply wp_bind. eapply wp_addr_at; [done..|]. apply wp_bind. destruct (decide (a0 = 0)) as [E0|Hne]; [rewrite E0 in *|]; simpl.
    + assert (baddr (view s) ip bn = 0) as Hb0. { unfold baddr. destruct (Z.ltb_spec bn NDIRECT); [lia|]. by rewrite Hind. }
      pose proof (Hca Hb0 : can_alloc s 2) as C. pose proof C as [C1 C2 C3].
      eapply wp_mono; [apply alloc_addr; try done; [apply free_nonempty; lia|lia]|].
      intros a1 s1 (ip1 & T1 & F1 & G1 & I1 & Ha1 & Hpos1). pose proof (tf_sb _ _ _ _ F1) as Esb.
      assert (ind_addr ip1 = a1) as Hind1 by (unfold ind_addr; by rewrite Ha1).
      assert (iready s1 i ip1) as R1.
      { split; rewrite ?Esb; [done|apply G1|apply G1|rewrite I1; by eapply lookup_insert_self]. }
      assert (i_dev ip = i_dev ip1) as -> by (by rewrite (gr_ip _ _ _ _ _ _ G1)). rewrite <-Hind1.
      eapply wp_mono; [apply (bmap_entry_spec s1 i ip1 bn); [done|lia|by rewrite Hind1|]|].
      { intros _. by eapply can_alloc_step. }
      intros a s2 (A & [B1 B2 B3 B4 B5 B6 B7 B8] & _). rewrite Esb in *. exists ip1, ({[a1]} ∪ A).
      rewrite iset_some, Hind1 in B2, B6 by (by rewrite Hind1). split; try done; rewrite ?iset_some, ?Hind1 by (by rewrite Hind1).
      * eapply tx_frame_mono; [by eapply tx_frame_trans|done|set_solver].
      * by eapply grown_trans.
      * set_solver.
      * rewrite B8, I1. by rewrite list_insert_insert_eq.
    + destruct (Z.eqb_spec a0 0); [done|]. apply wp_ret. rewrite <-Hind. eapply wp_mono; [apply (bmap_entry_spec s i ip bn); [done|lia|by rewrite Hind|]|].
      { intros E. by apply Hca in E. }
      intros a s' (A & B & _). by exists ip, A.
Qed.

(** ** The inode on disk *)

Lemma rd8_wr32_out l o v x : (x < o ∨ o + 4 ≤ x) → rd8 (wr32 l o v) x = rd8 l x.
Proof. intros Hx. unfold wr32, wr8, rd8. by rewrite !aget_aset_ne by lia. Qed.
Lemma rd8_wr16_out l o v x : (x < o ∨ o + 2 ≤ x) → rd8 (wr16 l o v) x = rd8 l x.
Proof. intros Hx. unfold wr16, wr8, rd8. by rewrite !aget_aset_ne by lia. Qed.
Lemma length_wr16 l o v : length (wr16 l o v) = length l.
Proof. unfold wr16. by rewrite !length_wr8. Qed.

Lemma length_put_words l d o : length (put_words d o l) = length d.
Proof. revert d o. induction l as [|x l IH]; intros d o; simpl; [done|]. by rewrite IH, length_wr32. Qed.
Lemma rd8_put_words l d o x : (x < o ∨ o + 4 * Z.of_nat (length l) ≤ x) → rd8 (put_words d o l) x = rd8 d x.
Proof.
  revert d o. induction l as [|v l IH]; intros d o Hx; simpl in *; [done|]. rewrite IH by lia. apply rd8_wr32_out. lia.
Qed.
Lemma rd32_put_words l d o (j : nat) v :
  0 ≤ o → o + 4 * Z.of_nat (length l) ≤ Z.of_nat (length d) → l !! j = Some v → 0 ≤ v < 2 ^ 32 →
  rd32 (put_words d o l) (o + 4 * Z.of_nat j) = v.
Proof.
  revert d o j. induction l as [|x l IH]; intros d o j Ho Hd Hj Hv; simpl in *; [done|]. destruct j as [|j]; simpl in *.
  - injection Hj as ->. unfold rd32. rewrite !rd8_put_words by lia. fold (rd32 (wr32 d o v) o).
    replace (o + 4 * Z.of_nat 0) with o by lia. apply rd32_wr32_eq; lia.
  - replace (o + 4 * Z.of_nat (S j)) with (o + 4 + 4 * Z.of_nat j) by lia. apply IH; [lia|rewrite length_wr32; lia|done|done].
Qed.

(** Reading 16 bits that were just written. *)
Lemma s16_rd16_wr16 l o v :
  0 ≤ o → o + 2 ≤ Z.of_nat (length l) → - 2 ^ 15 ≤ v < 2 ^ 15 → s16 (rd16 (wr16 l o v) o) = v.
Proof.
  intros Ho Hl Hv. unfold rd16, wr16. rewrite !rd8_wr8 by (rewrite ?length_wr8; lia). repeat (case_decide; try lia).
  unfold s16, u16, u8 in *. change (2 ^ 16) with 65536 in *. change (2 ^ 15) with 32768 in *. change (2 ^ 8) with 256 in *.
  assert (v mod 256 + 256 * ((v / 256) mod 256) = v mod 65536) as -> by (symmetry; apply (Z.rem_mul_r v 256 256); lia).
  rewrite Z.mod_mod by lia. destruct (decide (0 ≤ v)).
  - rewrite Z.mod_small by lia. destruct (Z.ltb_spec v 32768); lia.
  - assert (v mod 65536 = v + 65536) as -> by (symmetry; apply (Z.mod_unique_pos v 65536 (-1)); lia).
    destruct (Z.ltb_spec (v + 65536) 32768); lia.
Qed.

(** The fields of an inode fit in the [dinode]. *)
Record dinode_fits ip : Prop := {
  df_type : - 2 ^ 15 ≤ i_type ip < 2 ^ 15;
  df_major : - 2 ^ 15 ≤ i_major ip < 2 ^ 15;
  df_minor : - 2 ^ 15 ≤ i_minor ip < 2 ^ 15;
  df_nlink : - 2 ^ 15 ≤ i_nlink ip < 2 ^ 15;
  df_size : 0 ≤ i_size ip < 2 ^ 32;
  df_len : length (i_addrs ip) = Z.to_nat (NDIRECT + 1);
  df_addrs a : a ∈ i_addrs ip → 0 ≤ a < 2 ^ 32;
}.

Lemma rd8_put_dinode_out ip k d x :
  length (i_addrs ip) = Z.to_nat (NDIRECT + 1) → (x < 64 * k ∨ 64 * k + 64 ≤ x) → rd8 (put_dinode ip k d) x = rd8 d x.
Proof.
  intros Hl Hx. unfold put_dinode. unfold NDIRECT in Hl. rewrite rd8_put_words by (rewrite Hl; lia).
  rewrite rd8_wr32_out by lia. by rewrite !rd8_wr16_out by lia.
Qed.

(** Storing inode [k] of a block leaves the others alone. *)
Lemma get_put_dinode_ne ip k d k' x :
  length (i_addrs ip) = Z.to_nat (NDIRECT + 1) → k ≠ k' → get_dinode (put_dinode ip k d) k' x = get_dinode d k' x.
Proof.
  intros Hl Hk. unfold get_dinode, rd16, rd32. rewrite !(rd8_put_dinode_out ip k d) by (done || lia).
  assert (dinode_addrs (put_dinode ip k d) (64 * k') = dinode_addrs d (64 * k')) as ->; [|done].
  unfold dinode_addrs. apply list_fmap_ext. intros i j Hj. apply lookup_seq in Hj as [-> Hj]. unfold NDIRECT in Hj.
  unfold rd32. by rewrite !(rd8_put_dinode_out ip k d) by (done || lia).
Qed.

Lemma get_put_dinode ip k d :
  dinode_fits ip → 0 ≤ k < IPB → length d = Z.to_nat BSIZE → get_dinode (put_dinode ip k d) k ip = ip.
Proof.
  intros [D1 D2 D3 D4 D5 D6 D7] Hk Hd. change IPB with 8 in Hk. unfold BSIZE, NDIRECT in *. set (o := 64 * k).
  assert (dinode_addrs (put_dinode ip k d) o = i_addrs ip) as E.
  { apply list_eq. intros j. unfold dinode_addrs. rewrite list_lookup_fmap. destruct (i_addrs ip !! j) as [v|] eqn:Ej.
    - pose proof (lookup_lt_Some _ _ _ Ej). rewrite lookup_seq_lt by (unfold NDIRECT; lia). simpl. f_equal. unfold put_dinode. fold o.
      apply rd32_put_words; [lia|rewrite length_wr32, !length_wr16; lia|done|]. apply D7. by eapply list_elem_of_lookup_2.
    - apply lookup_ge_None in Ej. rewrite lookup_seq_ge by (unfold NDIRECT; lia). done. }
  unfold get_dinode. fold o. rewrite E. unfold put_dinode. fold o.
  assert (∀ x d' l, x + 2 ≤ o + 12 → rd16 (put_words d' (o + 12) l) x = rd16 d' x) as P16 by (intros; unfold rd16; by rewrite !rd8_put_words by lia).
  assert (∀ x d' v, x + 2 ≤ o + 8 → rd16 (wr32 d' (o + 8) v) x = rd16 d' x) as Q16 by (intros; unfold rd16; by rewrite !rd8_wr32_out by lia).
  assert (∀ x y d' v, x + 2 ≤ y → rd16 (wr16 d' y v) x = rd16 d' x) as R16 by (intros; unfold rd16; by rewrite !rd8_wr16_out by lia).
  rewrite !P16, !Q16 by lia. rewrite (s16_rd16_wr16 _ (o + 6)) by (rewrite ?length_wr16; lia).
  rewrite !(R16 _ (o + 6)) by lia. rewrite (s16_rd16_wr16 _ (o + 4)) by (rewrite ?length_wr16; lia).
  rewrite !(R16 _ (o + 4)) by lia. rewrite (s16_rd16_wr16 _ (o + 2)) by (rewrite ?length_wr16; lia).
  rewrite !(R16 _ (o + 2)) by lia. rewrite (s16_rd16_wr16 _ o) by (rewrite ?length_wr16; lia).
  assert (∀ d' l, rd32 (put_words d' (o + 12) l) (o + 8) = rd32 d' (o + 8)) as -> by (intros; unfold rd32; by rewrite !rd8_put_words by lia).
  rewrite rd32_wr32_eq by (rewrite ?length_wr16; lia). by destruct ip.
Qed.

Lemma length_put_dinode ip k d : length (put_dinode ip k d) = length d.
Proof. unfold put_dinode. by rewrite length_put_words, length_wr32, !length_wr16. Qed.

(** ** iupdate *)

Lemma iupdate_tx s i ip :
  tx s ∅ → in_op s → layout (d_sb s) → d_inodes s !! i = Some ip → i_dev ip = 1 → 0 ≤ i_inum ip < sb_ninodes (d_sb s) →
  (size (logged s) < Z.to_nat MAXOPBLOCKS)%nat → let ib := IBLOCK (i_inum ip) (d_sb s) in
  wp (iupdate i) (λ _ s', tx s' ∅ ∧ tx_frame ∅ s s' {[ib]} ∧ view s' ib = put_dinode ip (i_inum ip mod IPB) (view s ib) ∧
    d_inodes s' = d_inodes s) s.
Proof.
  intros T Hop Hl Hat Hdev Hin Hsz ib. unfold iupdate. apply wp_bind, wp_gets. apply wp_bind. eapply wp_getino; [done|]. rewrite Hdev.
  pose proof (IBLOCK_range _ _ Hl Hin). pose proof (layout_pos _ Hl).
  apply (wp_rmw (put_dinode ip (i_inum ip mod IPB))); [done|done|lia|set_solver|rewrite size_empty; lia| |by right].
  rewrite length_put_dinode. apply length_view, T.
Qed.
