(* ===== verification/Rdwr.v ===== *)
(** [readi] and [writei] of [src/fs.c]: a file is a list of bytes.

    [content] is what an inode holds.  [writei] splices the bytes it is given
    into the contents of its file, extending it if need be, and leaves every
    other file alone; [readi] returns a slice of the contents. *)

From S2P Require Import Prelude Memory Machine Disk Bio Log LogCrash Txn Fs Inode Bmap.
From stdpp Require Import options.
Implicit Types s : fsys.
Implicit Types U W : gset Z.
Implicit Types V : Z → list Z.
Implicit Types sb : superblock.
Implicit Types ip : inode.

Definition content V ip : list Z := fbyte V ip <$> seqZ 0 (i_size ip).

#[global] Instance content_proper : Proper (same_view ==> eq ==> eq) content.
Proof. intros V V' E ip ? <-. unfold content. apply list_fmap_ext. intros _ o _. by rewrite E. Qed.

(** ** Overwriting part of a block *)

Lemma length_splice l o bs : 0 ≤ o → o + Z.of_nat (length bs) ≤ Z.of_nat (length l) → length (splice l o bs) = length l.
Proof. intros Ho Hl. unfold splice. rewrite !length_app, length_take, length_drop. lia. Qed.

Lemma rd8_splice l o bs x :
  0 ≤ o ≤ Z.of_nat (length l) → 0 ≤ x →
  rd8 (splice l o bs) x = if decide (o ≤ x < o + Z.of_nat (length bs)) then rd8 bs (x - o) else rd8 l x.
Proof.
  intros Ho Hx. unfold rd8, aget, splice. destruct (Z.ltb_spec x 0); [lia|]. case_decide as E.
  - destruct (Z.ltb_spec (x - o) 0); [lia|]. rewrite lookup_app_r, lookup_app_l by (rewrite ?length_take; lia).
    rewrite length_take. do 2 f_equal. lia.
  - destruct (decide (x < o)).
    + rewrite lookup_app_l by (rewrite length_take; lia). by rewrite lookup_take_lt by lia.
    + rewrite !lookup_app_r by (rewrite ?length_take; lia). rewrite length_take, lookup_drop. do 2 f_equal. lia.
Qed.

Lemma length_slice l o n : 0 ≤ o → 0 ≤ n → o + n ≤ Z.of_nat (length l) → Z.of_nat (length (slice l o n)) = n.
Proof. intros Ho Hn Hl. unfold slice. rewrite length_take, length_drop. lia. Qed.
Lemma rd8_slice l o n x : 0 ≤ o → 0 ≤ x < n → rd8 (slice l o n) x = rd8 l (o + x).
Proof.
  intros Ho Hx. unfold rd8, aget, slice. destruct (Z.ltb_spec x 0); [lia|]. destruct (Z.ltb_spec (o + x) 0); [lia|].
  rewrite lookup_take_lt, lookup_drop by lia. do 2 f_equal. lia.
Qed.

Lemma rd8_ext l l' : length l = length l' → (∀ x, 0 ≤ x < Z.of_nat (length l) → rd8 l x = rd8 l' x) → l = l'.
Proof.
  intros Hl H. apply list_eq_same_length with (length l); [done|done|]. intros j x y Hj Hx Hy.
  specialize (H (Z.of_nat j) ltac:(lia)). unfold rd8 in H. rewrite !aget_nat, Hx, Hy in H. done.
Qed.

Lemma length_content V ip : 0 ≤ i_size ip → Z.of_nat (length (content V ip)) = i_size ip.
Proof. intros H. unfold content. rewrite length_fmap, length_seqZ. lia. Qed.
Lemma rd8_content V ip o : 0 ≤ o < i_size ip → rd8 (content V ip) o = fbyte V ip o.
Proof.
  intros Ho. unfold rd8, aget, content. destruct (Z.ltb_spec o 0); [lia|]. rewrite list_lookup_fmap, lookup_seqZ_lt by lia. simpl. f_equal. lia.
Qed.

Lemma same_block off m o : m ≤ BSIZE - off mod BSIZE → off ≤ o < off + m → o / BSIZE = off / BSIZE.
Proof.
  intros Hm Ho. pose proof (Z.div_mod off BSIZE ltac:(done)). pose proof (Z.mod_pos_bound off BSIZE ltac:(done)).
  symmetry. apply (Z.div_unique_pos o BSIZE (off / BSIZE) (o - BSIZE * (off / BSIZE))); unfold BSIZE in *; lia.
Qed.

(** ** Writing a data block *)

Record rewritten V V' sb ip (a : Z) : Prop := {
  rw_volume : volume V' sb;
  rw_inode : inode_ok V' sb ip;
  rw_slot j : slot V' ip j = slot V ip j;
  rw_free : free_blocks V' sb = free_blocks V sb;
  rw_data b : is_data V' sb b ↔ is_data V sb b;
}.

(** A block changes that is neither the bitmap nor the indirect block. *)
Lemma write_other V V' sb ip x :
  volume V sb → inode_ok V sb ip → x ≠ sb_bmapstart sb → x ≠ ind_addr ip ∨ ind_addr ip = 0 →
  (∀ k, k ≠ x → V' k = V k) → length (V' x) = Z.to_nat BSIZE → rewritten V V' sb ip x.
Proof.
  intros Hv Hi Hbm0 Hind Hrest Hlen. assert (bitmap V' sb = bitmap V sb) as Hbm by (by apply Hrest).
  assert (∀ j, slot V' ip j = slot V ip j) as Hslot.
  { intros j. unfold slot, baddr. case_match; [done|]. case_match; [done|]. destruct (Z.eqb_spec (ind_addr ip) 0); [done|].
    rewrite Hrest; [done|]. by destruct Hind. }
  assert (∀ b, is_data V' sb b ↔ is_data V sb b) as Hdat by (intros b; unfold is_data; by rewrite Hbm).
  split; try done.
  - split; [apply Hv| |rewrite Hbm; apply Hv]. intros k. destruct (decide (k = x)) as [->|]; [done|]. rewrite Hrest by done. apply Hv.
  - destruct Hi as [I1 I2 I3 I4 I5 I6 I7]. split; try done.
    + intros j Hj. rewrite Hslot, Hdat. auto.
    + intros j k Hj Hk. rewrite !Hslot. auto.
    + intros bn' Hb Hs. assert (0 ≤ bn' < MAXFILE) as Hr by (rewrite MAXFILE_eq in *; unfold BSIZE in *; lia).
      rewrite <-slot_baddr, Hslot, slot_baddr by done. by apply I7.
  - unfold free_blocks. by rewrite Hbm.
Qed.

Lemma write_data V V' sb ip bn :
  volume V sb → inode_ok V sb ip → 0 ≤ bn < MAXFILE → baddr V ip bn ≠ 0 →
  (∀ k, k ≠ baddr V ip bn → V' k = V k) → length (V' (baddr V ip bn)) = Z.to_nat BSIZE →
  rewritten V V' sb ip (baddr V ip bn).
Proof.
  intros Hv Hi Hbn Hn Hrest Hlen. pose proof (inode_data _ _ _ _ Hi Hbn Hn) as [Hd _].
  apply write_other; try done; [lia|]. left. by apply (baddr_ind V sb ip bn).
Qed.

(** A block of inodes changes. *)
Lemma write_meta V V' sb ip x :
  volume V sb → inode_ok V sb ip → x < sb_bmapstart sb →
  (∀ k, k ≠ x → V' k = V k) → length (V' x) = Z.to_nat BSIZE →
  rewritten V V' sb ip x ∧ ∀ o, 0 ≤ o / BSIZE < MAXFILE → baddr V ip (o / BSIZE) ≠ 0 → fbyte V' ip o = fbyte V ip o.
Proof.
  intros Hv Hi Hx Hrest Hlen. assert (rewritten V V' sb ip x) as Rw.
  { apply write_other; try done; [lia|]. destruct (decide (ind_addr ip = 0)) as [|Hn]; [by right|left].
    destruct (inode_ind_data _ _ _ Hi Hn) as [? _]. lia. }
  split; [done|]. intros o Ho Hn. unfold fbyte. rewrite <-slot_baddr, (rw_slot _ _ _ _ _ Rw), slot_baddr by done.
  rewrite Hrest; [done|]. destruct (inode_data _ _ _ _ Hi Ho Hn) as [? _]. lia.
Qed.

Lemma owns_slot V ip j : 0 ≤ j ≤ MAXFILE → slot V ip j ≠ 0 → owns V ip (slot V ip j).
Proof. intros Hj Hn. split; [done|]. by exists j. Qed.

Lemma grown_byte V V' sb ip ip' A o :
  grown V V' sb ip ip' A → inode_ok V sb ip → volume V sb → 0 ≤ o / BSIZE < MAXFILE → baddr V ip (o / BSIZE) ≠ 0 →
  baddr V' ip' (o / BSIZE) = baddr V ip (o / BSIZE) ∧ fbyte V' ip' o = fbyte V ip o.
Proof.
  intros G Hi Hv Ho Hn. pose proof (gr_slot _ _ _ _ _ _ G (o / BSIZE) ltac:(lia)) as Hs. rewrite !slot_baddr in Hs by done.
  specialize (Hs Hn). split; [done|]. unfold fbyte. rewrite Hs. f_equal. pose proof (inode_data _ _ _ _ Hi Ho Hn) as Hd.
  apply (gr_rest _ _ _ _ _ _ G).
  - intros HA%(gr_fresh _ _ _ _ _ _ G). by apply (free_is_data _ _ _ Hv HA).
  - destruct Hd as [? _]. lia.
  - left. rewrite <-Hs. apply (baddr_ind V' sb); [apply G|done|by rewrite Hs].
Qed.

(** The byte at [o] after [m] bytes of [src] have gone to block [off / BSIZE]. *)
Lemma data_byte V V' sb ip src off tot m o :
  inode_ok V sb ip → volume V sb → rewritten V V' sb ip (baddr V ip (off / BSIZE)) →
  (∀ k, k ≠ baddr V ip (off / BSIZE) → V' k = V k) →
  V' (baddr V ip (off / BSIZE)) = splice (V (baddr V ip (off / BSIZE))) (off mod BSIZE) (slice src tot m) →
  0 ≤ tot → 0 ≤ m ≤ BSIZE - off mod BSIZE → tot + m ≤ Z.of_nat (length src) →
  0 ≤ off / BSIZE < MAXFILE → baddr V ip (off / BSIZE) ≠ 0 → 0 ≤ o / BSIZE < MAXFILE →
  baddr V' ip (o / BSIZE) = baddr V ip (o / BSIZE) ∧
  fbyte V' ip o = if decide (off ≤ o < off + m) then rd8 src (tot + (o - off)) else
                  if decide (baddr V ip (o / BSIZE) = 0) then fbyte V' ip o else fbyte V ip o.
Proof.
  intros Hi Hv Rw Hrest HV' Htot Hm Hsrc Hoff Hn Ho. pose proof (rw_slot _ _ _ _ _ Rw (o / BSIZE)) as Hs. rewrite !slot_baddr in Hs by done.
  split; [done|]. pose proof (Z.mod_pos_bound off BSIZE ltac:(done)) as Hmo. pose proof (Z.mod_pos_bound o BSIZE ltac:(done)) as Hmo'.
  pose proof (Z.div_mod off BSIZE ltac:(done)). pose proof (Z.div_mod o BSIZE ltac:(done)).
  destruct (decide (o / BSIZE = off / BSIZE)) as [E|E].
  - rewrite E in Hs |- *. rewrite (decide_False (P := _ = 0)) by done. unfold fbyte. rewrite E, Hs, HV'.
    pose proof (vo_len _ _ Hv (baddr V ip (off / BSIZE))) as Hl. rewrite rd8_splice by (rewrite ?Hl; unfold BSIZE in *; lia).
    rewrite length_slice by lia. destruct (decide (off ≤ o < off + m)).
    + rewrite decide_True by (unfold BSIZE in *; lia). rewrite rd8_slice by (unfold BSIZE in *; lia). f_equal. unfold BSIZE in *. lia.
    + rewrite decide_False by (unfold BSIZE in *; lia). done.
  - rewrite decide_False.
    + case_decide as E0; [done|]. unfold fbyte. rewrite Hs, Hrest; [done|]. intros Eb. apply E. by eapply (baddr_inj V sb).
    + intros Hr. apply E. apply (same_block off m); [lia|done].
Qed.

(** [wp_rmw], followed by the rest of a function. *)
Lemma wp_rmw_then {A} f (K : M fsys A) (Q : A → fsys → Prop) s U bn :
  tx s U → in_op s → 0 ≤ bn < FSSIZE → bn ∉ U → (size U ≤ 10)%nat → length (f (view s bn)) = Z.to_nat BSIZE →
  bn ∈ logged s ∨ (size (logged s) < Z.to_nat MAXOPBLOCKS)%nat →
  (∀ s', tx s' U → tx_frame U s s' {[bn]} → view s' bn = f (view s bn) → d_inodes s' = d_inodes s → wp K Q s') →
  wp (bp <- bread 1 bn ;; set_bdata bp f ;; log_write bp ;; brelse bp ;; K) Q s.
Proof.
  intros T Hop Hbn HU H10 Hlen Hsz HK. pose proof (wp_rmw f s U bn T Hop Hbn HU H10 Hlen Hsz) as Hw.
  apply wp_bind_inv in Hw. apply wp_bind. eapply wp_mono; [exact Hw|]. intros i s1 Hw1.
  do 2 (apply wp_bind_inv in Hw1; apply wp_bind; eapply wp_mono; [exact Hw1|]; clear Hw1; intros [] ? Hw1).
  apply wp_bind. eapply wp_mono; [exact Hw1|]. intros [] s4 (? & ? & ? & ?). by apply HK.
Qed.

(** ** The loop of writei *)

(** The number of blocks that [n] bytes at [off] touch. *)
Definition nblocks (off n : Z) : Z := (off + n - 1) / BSIZE - off / BSIZE + 1.

Lemma nblocks_pos off n : 0 < n → 1 ≤ nblocks off n.
Proof. intros H. unfold nblocks. pose proof (Z.div_le_mono off (off + n - 1) BSIZE ltac:(done) ltac:(lia)). lia. Qed.

(** The number of blocks of a file of [x] bytes, and the number of blocks that
    a write adds to a file. *)
Definition cdiv (x : Z) : Z := (x + BSIZE - 1) / BSIZE.
Definition new_blocks ip (off n : Z) : Z := Z.max 0 (cdiv (off + n) - cdiv (i_size ip)).

Lemma cdiv_below x bn : bn < cdiv x → bn * BSIZE < x.
Proof.
  unfold cdiv. intros H. pose proof (Z.mul_div_le (x + BSIZE - 1) BSIZE ltac:(done)). unfold BSIZE in *. lia.
Qed.
Lemma cdiv_above x y : x < y → x / BSIZE + 1 ≤ cdiv y.
Proof. intros H. unfold cdiv. rewrite <-Z.div_add by done. apply Z.div_le_mono; [done|]. unfold BSIZE. lia. Qed.
Lemma cdiv_mono x y : x ≤ y → cdiv x ≤ cdiv y.
Proof. intros H. apply Z.div_le_mono; [done|lia]. Qed.

(** There are free blocks for a write of [n] bytes at [off], and room for it
    in the log. *)
Record write_room s ip (off n : Z) : Prop := {
  wm_op : in_op s;
  wm_free : new_blocks ip off n = 0 ∨ new_blocks ip off n + 1 ≤ Z.of_nat (size (free_blocks (view s) (d_sb s))) + Z.of_nat (icnt ip);
  wm_log : Z.of_nat (size ({[sb_bmapstart (d_sb s)]} ∪ logged s)) + nblocks off n + 1 < MAXOPBLOCKS;
}.

Section writei.
Context (s0 : fsys) (i : nat) (ip0 : inode) (off0 : Z) (src : list Z).
#[local] Abbreviation V0 := (view s0).
#[local] Abbreviation sb := (d_sb s0).
#[local] Abbreviation bm := (sb_bmapstart sb).
#[local] Abbreviation n := (Z.of_nat (length src)).

(** [tot] bytes have been written in [D] rounds, [N] of them to new blocks; the
    blocks [A] have been allocated and those of [W] changed. *)
Record wrote s ip (tot : Z) (D N : nat) (A W : gset Z) : Prop := {
  w_ready : iready s i ip;
  w_inodes : d_inodes s = <[i := ip]> (d_inodes s0);
  w_frame : tx_frame ∅ s0 s W;
  w_ip : ip = ip0 <| i_addrs := i_addrs ip |>;
  w_slot j : 0 ≤ j ≤ MAXFILE → slot V0 ip0 j ≠ 0 → slot (view s) ip j = slot V0 ip0 j;
  w_owns k : owns (view s) ip k → owns V0 ip0 k ∨ k ∈ A;
  w_fresh : A ⊆ free_blocks V0 sb;
  w_free : free_blocks (view s) sb = free_blocks V0 sb ∖ A;
  w_data b : is_data (view s) sb b ↔ is_data V0 sb b ∨ b ∈ A;
  w_changed k : k ∈ W → k = bm ∨ owns (view s) ip k;
  w_taken : (size A + icnt ip0 ≤ N + icnt ip)%nat;
  w_log : ∃ L : gset Z, W ⊆ {[bm]} ∪ iset ip ∪ L ∧ (size L ≤ D)%nat;
  w_bytes o : 0 ≤ o < i_size ip0 ∨ off0 ≤ o < off0 + tot →
    baddr (view s) ip (o / BSIZE) ≠ 0 ∧
    fbyte (view s) ip o = if decide (off0 ≤ o < off0 + tot) then rd8 src (o - off0) else fbyte V0 ip0 o;
  w_same : off0 + n ≤ i_size ip0 → ip = ip0;
}.

Lemma wrote_sb s ip tot D N A W : wrote s ip tot D N A W → d_sb s = sb.
Proof using. intros H. apply (tf_sb _ _ _ _ (w_frame _ _ _ _ _ _ _ H)). Qed.

Lemma wrote_bmap s s' ip ip' tot D N N' A W bn a B :
  wrote s ip tot D N A W → i_size ip0 ≤ MAXFILE * BSIZE → 0 ≤ off0 → off0 + tot ≤ MAXFILE * BSIZE → 0 ≤ bn < MAXFILE →
  (off0 + n ≤ i_size ip0 → baddr (view s) ip bn ≠ 0) → (N ≤ N')%nat → (baddr (view s) ip bn = 0 → (S N ≤ N')%nat) →
  bmapped s s' i ip ip' bn a B → wrote s' ip' tot (S D) N' (A ∪ B) (W ∪ ({[bm; a]} ∪ iset ip')).
Proof using.
  intros H Hsz Hoff Htot Hbn Hold HN HN' Bm. pose proof (wrote_sb _ _ _ _ _ _ _ H) as Esb. pose proof (bmapped_ready _ _ _ _ _ _ _ _ (w_ready _ _ _ _ _ _ _ H) Bm) as R'.
  pose proof (bmapped_size _ _ _ _ _ _ _ _ (w_ready _ _ _ _ _ _ _ H) Bm) as HB.
  destruct H as [[R1 R2 R3 R4] H2 H3 H4 H5 H6 H7 H8 H9 H10 H11 H12 H13 H14]. destruct Bm as [B1 B2 G B4 B5 B6 B7 B8]. rewrite Esb in *.
  assert (owns (view s') ip' a) as Ha by (split; [done|]; exists bn; split; [lia|by rewrite slot_baddr]).
  assert (∀ k, k ∈ iset ip' → owns (view s') ip' k) as Hind.
  { intros k Hk. unfold iset in Hk. destruct (Z.eqb_spec (ind_addr ip') 0); [set_solver|]. apply elem_of_singleton in Hk as ->.
    rewrite <-(slot_ind (view s')). apply owns_slot; [apply MAXFILE_slot|done]. }
  assert (∀ k, owns (view s) ip k → owns (view s') ip' k) as Hmono.
  { intros k (Hk & j & Hj & <-). rewrite <-(gr_slot _ _ _ _ _ _ G j) by done. apply owns_slot; [done|]. by rewrite (gr_slot _ _ _ _ _ _ G j). }
  split; try done.
  - by rewrite B8, H2, list_insert_insert_eq.
  - by eapply tx_frame_trans.
  - rewrite (gr_ip _ _ _ _ _ _ G), H4. done.
  - intros j Hj Hn. rewrite (gr_slot _ _ _ _ _ _ G), H5; try done. by rewrite H5.
  - intros k (Hk & j & Hj & <-). destruct (gr_new _ _ _ _ _ _ G j Hj) as [E|E]; [|right; set_solver]. rewrite E in *.
    destruct (H6 (slot (view s) ip j)); [by apply owns_slot|by left|right; set_solver].
  - pose proof (gr_fresh _ _ _ _ _ _ G) as Hf. rewrite H8 in Hf. set_solver.
  - rewrite (gr_free _ _ _ _ _ _ G), H8. set_solver.
  - intros b. rewrite (gr_data _ _ _ _ _ _ G), H9. set_solver.
  - intros k [Hk|[[Hk|Hk]%elem_of_union|Hk]%elem_of_union]%elem_of_union.
    + apply H10 in Hk as [->|]; [by left|right; auto].
    + left. set_solver.
    + right. apply elem_of_singleton in Hk as ->. done.
    + right. by apply Hind.
  - pose proof (size_union_ub A B). destruct (decide (baddr (view s) ip bn = 0)) as [E0|E0]; [specialize (HN' E0); lia|].
    destruct (B7 E0) as (-> & -> & _). rewrite size_empty in *. lia.
  - destruct H12 as (L & HL & HLs). exists (L ∪ {[a]}). split.
    + assert (iset ip ⊆ iset ip') as Hii; [|clear -HL Hii; set_solver]. unfold iset. destruct (Z.eqb_spec (ind_addr ip) 0) as [|Hn]; [set_solver|].
      pose proof (gr_slot _ _ _ _ _ _ G MAXFILE MAXFILE_slot) as E. rewrite !slot_ind in E. rewrite E by done. by destruct (Z.eqb_spec (ind_addr ip) 0).
    + pose proof (size_union_ub L {[a]}). rewrite size_singleton in *. lia.
  - intros o Ho. destruct (H13 o Ho) as [Hn Hb].
    assert (0 ≤ o / BSIZE < MAXFILE) as Hr.
    { rewrite MAXFILE_eq in *. unfold BSIZE in *. split; [apply Z.div_pos; lia|apply Z.div_lt_upper_bound; lia]. }
    destruct (grown_byte _ _ _ _ _ _ o G R3 R2 Hr Hn) as [-> ->]. done.
  - intros Hle. destruct (B7 (Hold Hle)) as (_ & -> & _). by apply H14.
Qed.

Lemma wrote_data s s' ip tot D N A W m :
  wrote s ip tot D N A W → let off := off0 + tot in let a := baddr (view s) ip (off / BSIZE) in
  i_size ip0 ≤ MAXFILE * BSIZE → 0 ≤ off0 → 0 ≤ tot → 0 < m ≤ BSIZE - off mod BSIZE → tot + m ≤ Z.of_nat (length src) →
  off + m ≤ MAXFILE * BSIZE → a ≠ 0 → a ∈ W →
  tx s' ∅ → tx_frame ∅ s s' {[a]} → view s' a = splice (view s a) (off mod BSIZE) (slice src tot m) → d_inodes s' = d_inodes s →
  wrote s' ip (tot + m) D N A W.
Proof using.
  intros H off a Hsz Hoff0 Htot Hm Hsrc Hoff Hn HaW T' F Ha I. pose proof (wrote_sb _ _ _ _ _ _ _ H) as Esb.
  destruct H as [[R1 R2 R3 R4] H2 H3 H4 H5 H6 H7 H8 H9 H10 H11 H12 H13 H14]. rewrite Esb in *.
  assert (∀ x, 0 ≤ x < MAXFILE * BSIZE → 0 ≤ x / BSIZE < MAXFILE) as Hdiv.
  { intros x Hx. rewrite MAXFILE_eq in *. unfold BSIZE in *. split; [apply Z.div_pos; lia|apply Z.div_lt_upper_bound; lia]. }
  pose proof (Hdiv off ltac:(lia)) as Hbn.
  assert (∀ k, k ≠ a → view s' k = view s k) as Hrest by (intros k Hk; apply (tf_view _ _ _ _ F); set_solver).
  pose proof (write_data (view s) (view s') sb ip (off / BSIZE) R2 R3 Hbn Hn Hrest (length_view _ _ (tx_cache _ _ T'))) as Rw. fold a in Rw.
  assert (∀ k, owns (view s') ip k ↔ owns (view s) ip k) as Hown.
  { intros k. unfold owns. by setoid_rewrite (rw_slot _ _ _ _ _ Rw). }
  split; try done.
  - split; rewrite ?(tf_sb _ _ _ _ F), ?Esb; [done|apply Rw|apply Rw|by rewrite I].
  - by rewrite I.
  - rewrite <-(union_empty_r_L W). eapply tx_frame_mono; [eapply tx_frame_trans; [exact H3|exact F]|done|set_solver].
  - intros j Hj Hnj. rewrite (rw_slot _ _ _ _ _ Rw). by apply H5.
  - intros k Hk. apply H6. by apply Hown.
  - by rewrite (rw_free _ _ _ _ _ Rw).
  - intros b. by rewrite (rw_data _ _ _ _ _ Rw).
  - intros k Hk. rewrite Hown. by apply H10.
  - intros o Ho. assert (0 ≤ o / BSIZE < MAXFILE) as Hob by (apply Hdiv; lia).
    destruct (data_byte (view s) (view s') sb ip src off tot m o R3 R2 Rw Hrest Ha Htot ltac:(lia) Hsrc Hbn Hn Hob) as [-> ->].
    destruct (decide (off ≤ o < off + m)) as [Hin|Hout].
    + rewrite (decide_True (P := off0 ≤ _ < _)) by lia. split; [|f_equal; lia].
      by rewrite (same_block off m) by (lia || done).
    + destruct (H13 o) as [Hno Hb]; [lia|]. split; [done|]. rewrite decide_False, Hb by done.
      destruct (decide (off0 ≤ o < off0 + tot)); [by rewrite decide_True by lia|by rewrite decide_False by lia].
Qed.

(** The invariant of the loop. *)
Definition wloop (x : Z * Z) (s : fsys) : Prop :=
  let '(tot, off) := x in
  ∃ ip D N A W, wrote s ip tot D N A W ∧ off = off0 + tot ∧ 0 ≤ tot ≤ n ∧
    (tot < n → Z.of_nat D = off / BSIZE - off0 / BSIZE ∧ Z.of_nat N ≤ Z.max 0 (off / BSIZE - cdiv (i_size ip0))) ∧
    (tot = n → Z.of_nat D ≤ Z.max 0 (nblocks off0 n) ∧ Z.of_nat N ≤ new_blocks ip0 off0 n).

Context (HR : iready s0 i ip0) (Hroom : write_room s0 ip0 off0 n).
Context (Hoff : 0 ≤ off0 ≤ i_size ip0) (Hmax : off0 + n ≤ MAXFILE * BSIZE).

Lemma wloop_init : wloop (0, off0) s0.
Proof using HR Hoff.
  clear Hroom Hmax. exists ip0, O, O, ∅, ∅. destruct HR as [R1 R2 R3 R4]. split_and!; [|unfold new_blocks; lia..]. split; try done.
  - by rewrite list_insert_id.
  - apply tx_frame_refl.
  - by destruct ip0.
  - by left.
  - set_solver.
  - intros b. set_solver.
  - exists ∅. rewrite size_empty. split; [set_solver|lia].
  - intros o Ho. rewrite decide_False by lia. split; [|done]. apply (io_covers _ _ _ R3); [apply Z.div_pos; [lia|done]|].
    pose proof (Z.div_mod o BSIZE ltac:(done)). pose proof (Z.mod_pos_bound o BSIZE ltac:(done)). unfold BSIZE in *. lia.
Qed.

Lemma wrote_log s ip tot D N A W :
  wrote s ip tot D N A W → (size ({[bm]} ∪ logged s) ≤ size ({[bm]} ∪ logged s0) + icnt ip + D)%nat.
Proof using.
  clear HR Hroom Hoff Hmax. intros H. destruct (w_log _ _ _ _ _ _ _ H) as (L & HL & HLs). pose proof (tf_logged _ _ _ _ (w_frame _ _ _ _ _ _ _ H)) as Hlg.
  assert ({[bm]} ∪ logged s ⊆ {[bm]} ∪ logged s0 ∪ iset ip ∪ L) as Hs by (clear -HL Hlg; set_solver).
  apply subseteq_size in Hs. pose proof (size_union_ub ({[bm]} ∪ logged s0 ∪ iset ip) L).
  pose proof (size_union_ub ({[bm]} ∪ logged s0) (iset ip)). rewrite size_iset in *. lia.
Qed.

(** In each round there is room for the blocks of the round. *)
Lemma wrote_room s ip tot D N A W bn :
  wrote s ip tot D N A W → Z.of_nat D < nblocks off0 n →
  cdiv (i_size ip0) ≤ bn → Z.of_nat N ≤ Z.max 0 (bn - cdiv (i_size ip0)) → bn + 1 ≤ cdiv (off0 + n) → can_alloc s (2 - icnt ip).
Proof using Hroom.
  clear HR Hoff Hmax. intros H HD Hbn HN Hc0. pose proof (wrote_log _ _ _ _ _ _ _ H) as HL. pose proof (wrote_sb _ _ _ _ _ _ _ H) as Esb. destruct Hroom as [M1 M2 M3]. unfold new_blocks in M2.
  pose proof (w_taken _ _ _ _ _ _ _ H). assert (icnt ip ≤ 1)%nat as Hc by (unfold icnt; case_match; lia).
  split; rewrite ?Esb.
  - by eapply in_op_frame; [apply H|].
  - rewrite (w_free _ _ _ _ _ _ _ H). rewrite size_difference by apply H. lia.
  - unfold MAXOPBLOCKS in *. lia.
Qed.

Definition wbody (dev : Z) : Z * Z → M fsys (Z * Z + Z) := λ '(tot, off),
  if tot <? n then
    a <- bmap i (off / BSIZE) ;;
    bp <- bread dev a ;;
    let m := chunk n tot off in
    set_bdata bp (λ d, splice d (off mod BSIZE) (slice src tot m)) ;;
    log_write bp ;;
    brelse bp ;;
    ret (inl (tot + m, off + m))
  else ret (inr off).

Lemma wbody_spec x s :
  wloop x s →
  wp (wbody 1 x) (λ y s', match y with
    | inl x' => wloop x' s' ∧ (Z.to_nat (n - x'.1) < Z.to_nat (n - x.1))%nat
    | inr off => off = off0 + n ∧ wloop (n, off) s' end) s.
Proof using HR Hroom Hoff Hmax.
  destruct x as [tot off]. intros Hw. pose proof Hw as (ip & D & N & A & W & H & Eoff & Htot & HD & HD'). simpl.
  destruct (Z.ltb_spec tot n) as [Hlt|Hge]; [|apply wp_ret; assert (tot = n) as -> by lia; done].
  destruct (HD Hlt) as [HD1 HN1]. clear HD HD'. pose proof (io_size _ _ _ (ir_inode _ _ _ HR)) as Hsz0.
  assert (0 ≤ off / BSIZE < MAXFILE) as Hbn.
  { rewrite MAXFILE_eq in *. unfold BSIZE in *. split; [apply Z.div_pos; lia|apply Z.div_lt_upper_bound; lia]. }
  assert (Z.of_nat D < nblocks off0 n) as HDn.
  { unfold nblocks. pose proof (Z.div_le_mono off (off0 + n - 1) BSIZE ltac:(done) ltac:(lia)). lia. }
  pose proof (cdiv_above off (off0 + n) ltac:(lia)) as Hca.
  assert (baddr (view s) ip (off / BSIZE) = 0 → cdiv (i_size ip0) ≤ off / BSIZE) as Hnew.
  { intros E0. destruct (decide (off / BSIZE < cdiv (i_size ip0))) as [Hb%cdiv_below|]; [|lia]. exfalso.
    destruct (w_bytes _ _ _ _ _ _ _ H (off / BSIZE * BSIZE)) as [Hn _]; [left; unfold BSIZE in *; lia|]. by rewrite Z.div_mul in Hn. }
  apply wp_bind. eapply wp_mono; [apply (bmap_spec s i ip); [apply H|done|]|].
  { intros E0. eapply (wrote_room _ _ _ _ _ _ _ (off / BSIZE)); eauto. }
  intros a s1 (ip1 & B & Bm). pose proof (bm_addr _ _ _ _ _ _ _ _ Bm) as Ea. pose proof (bm_pos _ _ _ _ _ _ _ _ Bm) as Hpos.
  set (N' := if decide (baddr (view s) ip (off / BSIZE) = 0) then S N else N).
  assert (Z.of_nat N' ≤ Z.max 0 (off / BSIZE + 1 - cdiv (i_size ip0))) as HN2 by (unfold N'; case_decide as E0; [apply Hnew in E0; lia|lia]).
  assert (wrote s1 ip1 tot (S D) N' (A ∪ B) (W ∪ ({[bm; a]} ∪ iset ip1))) as H1.
  { apply (wrote_bmap s s1 ip ip1 tot D N N' A W (off / BSIZE) a B); try done; [lia..| |unfold N'; case_decide; lia|intros E0; unfold N'; by rewrite decide_True].
    intros Hle. apply (w_bytes _ _ _ _ _ _ _ H off). left. lia. }
  pose proof (wrote_log _ _ _ _ _ _ _ H1) as Hlog. assert (icnt ip1 ≤ 1)%nat as Hc by (unfold icnt; case_match; lia).
  pose proof (wrote_sb _ _ _ _ _ _ _ H1) as Esb. destruct (w_ready _ _ _ _ _ _ _ H1) as [T1 Rv1 Ri1 Rat1]. rewrite Esb in *.
  pose proof (Z.mod_pos_bound off BSIZE ltac:(done)) as Hmod. set (m := chunk n tot off).
  assert (0 < m ≤ BSIZE - off mod BSIZE ∧ m ≤ n - tot ∧ (m < n - tot → m = BSIZE - off mod BSIZE)) as (Hm1 & Hm2 & Hm3) by (unfold m, chunk; lia).
  assert (is_data (view s1) sb a) as Hda by (rewrite <-Ea; apply inode_data; [done..|by rewrite Ea]).
  apply wp_rmw_then with (U := ∅); [done| | |set_solver|rewrite size_empty; lia| | |].
  { eapply in_op_frame; [apply H1|apply Hroom]. }
  { pose proof (data_pos _ _ _ (vo_layout _ _ Rv1) Hda). lia. }
  { rewrite length_splice; [apply Rv1|lia|]. rewrite length_slice, (vo_len _ _ Rv1) by lia. unfold BSIZE in *. lia. }
  { right. pose proof (subseteq_size (logged s1) ({[bm]} ∪ logged s1) ltac:(set_solver)). pose proof (wm_log _ _ _ _ Hroom).
    unfold MAXOPBLOCKS in *. lia. }
  intros s2 T2 F2 V2 I2. apply wp_ret. split; [|simpl; lia].
  exists ip1, (S D), N', (A ∪ B), (W ∪ ({[bm; a]} ∪ iset ip1)). split_and!; [|lia..| |].
  - subst off. rewrite <-Ea in F2, V2. apply (wrote_data s1 s2 ip1 tot _ _ _ _ m); try done; [lia..|by rewrite Ea|rewrite Ea; set_solver].
  - intros Hlt'. assert ((off + m) / BSIZE = off / BSIZE + 1) as ->; [|lia]. rewrite Hm3 by lia.
    pose proof (Z.div_mod off BSIZE ltac:(done)). symmetry. apply (Z.div_unique_pos _ BSIZE _ 0); unfold BSIZE in *; lia.
  - intros _. unfold new_blocks. lia.
Qed.

(** ** The end of writei *)

(** Inode [i] is now [ip'], and its file has [src] at [off0]. *)
Record written s' ip' : Prop := {
  wd_ready : iready s' i ip';
  wd_inodes : d_inodes s' = <[i := ip']> (d_inodes s0);
  wd_ip : ip' = ip0 <| i_size := Z.max (i_size ip0) (off0 + n) |> <| i_addrs := i_addrs ip' |>;
  wd_content : content (view s') ip' = splice (content V0 ip0) off0 src;
  wd_frame : ∃ W, tx_frame ∅ s0 s' W ∧ ∀ k, k ∈ W → k = bm ∨ k = IBLOCK (i_inum ip0) sb ∨ owns (view s') ip' k;
  wd_owns k : owns (view s') ip' k → owns V0 ip0 k ∨ k ∈ free_blocks V0 sb;
  wd_data b : is_data V0 sb b → is_data (view s') sb b;
  wd_dinode : let ib := IBLOCK (i_inum ip0) sb in
    (ip' = ip0 ∧ view s' ib = V0 ib) ∨ view s' ib = put_dinode ip' (i_inum ip0 mod IPB) (V0 ib);
  wd_free : free_blocks (view s') sb ⊆ free_blocks V0 sb ∧
    Z.of_nat (size (free_blocks V0 sb)) + Z.of_nat (icnt ip0) + cdiv (i_size ip0) ≤
      Z.of_nat (size (free_blocks (view s') sb)) + Z.of_nat (icnt ip') + cdiv (i_size ip');
  wd_logged : (size (logged s') ≤ size ({[bm]} ∪ logged s0) + icnt ip' + Z.to_nat (nblocks off0 n) + 1)%nat;
}.

(** The contents, byte by byte. *)
Lemma content_splice V ip :
  i_size ip = Z.max (i_size ip0) (off0 + n) →
  (∀ o, 0 ≤ o < i_size ip0 ∨ off0 ≤ o < off0 + n →
     fbyte V ip o = if decide (off0 ≤ o < off0 + n) then rd8 src (o - off0) else fbyte V0 ip0 o) →
  content V ip = splice (content V0 ip0) off0 src.
Proof using Hoff.
  clear HR Hroom Hmax. intros Hsz Hb. pose proof (length_content V ip ltac:(lia)) as HL. pose proof (length_content V0 ip0 ltac:(lia)) as HL0.
  apply rd8_ext.
  - unfold splice. rewrite !length_app, length_take, length_drop. lia.
  - intros x Hx. rewrite HL in Hx. rewrite rd8_content by lia. rewrite rd8_splice by lia. rewrite Hb by lia.
    case_decide; [done|]. by rewrite rd8_content by lia.
Qed.

Lemma wrote_written s ip D N A W :
  wrote s ip n D N A W → off0 + n ≤ i_size ip0 → Z.of_nat D ≤ Z.max 0 (nblocks off0 n) →
  Z.of_nat N ≤ new_blocks ip0 off0 n → written s ip.
Proof using HR Hroom Hoff Hmax.
  intros H Hge HD HN. pose proof (cdiv_mono _ _ Hge). unfold new_blocks in HN. pose proof (wrote_log _ _ _ _ _ _ _ H) as Hlog. pose proof (w_taken _ _ _ _ _ _ _ H) as Htk.
  pose proof (w_same _ _ _ _ _ _ _ H ltac:(lia)) as Eip. pose proof (w_ip _ _ _ _ _ _ _ H) as Hip. split; try apply H.
  - subst ip. rewrite Z.max_l by lia. by destruct ip0.
  - apply content_splice; [subst ip; lia|]. intros o Ho. apply (w_bytes _ _ _ _ _ _ _ H o Ho).
  - exists W. split; [apply H|]. intros k Hk. destruct (w_changed _ _ _ _ _ _ _ H k Hk); [by left|by right; right].
  - intros k Hk. destruct (w_owns _ _ _ _ _ _ _ H k Hk) as [|Hk']; [by left|right; by apply (w_fresh _ _ _ _ _ _ _ H)].
  - intros b Hb. apply (w_data _ _ _ _ _ _ _ H). by left.
  - left. split; [done|]. apply (tf_view _ _ _ _ (w_frame _ _ _ _ _ _ _ H)). intros Hk.
    pose proof (IBLOCK_range _ _ (vo_layout _ _ (ir_volume _ _ _ HR)) (io_inum _ _ _ (ir_inode _ _ _ HR))) as Hr.
    destruct (w_changed _ _ _ _ _ _ _ H _ Hk) as [|(_ & j & Hj & E)]; [lia|].
    pose proof (wrote_sb _ _ _ _ _ _ _ H) as Esb. destruct (io_data _ _ _ (ir_inode _ _ _ (w_ready _ _ _ _ _ _ _ H)) j Hj) as [E0|[Hd _]]; rewrite ?Esb in *.
    + pose proof (layout_pos _ (vo_layout _ _ (ir_volume _ _ _ HR))). lia.
    + lia.
  - rewrite (w_free _ _ _ _ _ _ _ H). split; [set_solver|]. rewrite size_difference by apply H.
    pose proof (subseteq_size _ _ (w_fresh _ _ _ _ _ _ _ H)). rewrite Eip in Htk |- *. lia.
  - pose proof (subseteq_size (logged s) ({[bm]} ∪ logged s) ltac:(set_solver)). lia.
Qed.

(** The inode with its new size. *)
Lemma wrote_resize s ip D N A W :
  wrote s ip n D N A W → i_size ip0 < off0 + n → inode_ok (view s) sb (ip <| i_size := off0 + n |>).
Proof using Hoff Hmax.
  clear HR Hroom. intros H Hgt. pose proof (ir_inode _ _ _ (w_ready _ _ _ _ _ _ _ H)) as Hi. rewrite (wrote_sb _ _ _ _ _ _ _ H) in Hi.
  destruct Hi as [I1 I2 I3 I4 I5 I6 I7]. split; try done; [simpl; lia|].
  intros bn Hbn Hs. simpl in Hs. change (baddr (view s) ip bn ≠ 0). destruct (decide (bn * BSIZE < i_size ip0)) as [Hlt|Hge].
  - apply I7; [done|]. by rewrite (w_ip _ _ _ _ _ _ _ H).
  - destruct (w_bytes _ _ _ _ _ _ _ H (bn * BSIZE)) as [Hn _]; [lia|]. by rewrite Z.div_mul in Hn.
Qed.

Lemma wrote_written_grow s ip D N A W s' :
  wrote s ip n D N A W → i_size ip0 < off0 + n → Z.of_nat D ≤ Z.max 0 (nblocks off0 n) →
  Z.of_nat N ≤ new_blocks ip0 off0 n → let ip' := ip <| i_size := off0 + n |> in let ib := IBLOCK (i_inum ip0) sb in
  tx s' ∅ → tx_frame ∅ s s' {[ib]} → view s' ib = put_dinode ip' (i_inum ip0 mod IPB) (view s ib) →
  d_inodes s' = <[i := ip']> (d_inodes s) → written s' ip'.
Proof using HR Hroom Hoff Hmax.
  intros H Hgt HD HN ip' ib T' F Hib I. pose proof (wrote_log _ _ _ _ _ _ _ H) as Hlog. pose proof (w_taken _ _ _ _ _ _ _ H) as Htk.
  pose proof (wrote_resize _ _ _ _ _ _ H Hgt) as Hi'. fold ip' in Hi'. pose proof (wrote_sb _ _ _ _ _ _ _ H) as Esb.
  pose proof (w_ready _ _ _ _ _ _ _ H) as [R1 R2 R3 R4]. rewrite Esb in *. pose proof (w_ip _ _ _ _ _ _ _ H) as Hip.
  pose proof (IBLOCK_range _ _ (vo_layout _ _ (ir_volume _ _ _ HR)) (io_inum _ _ _ (ir_inode _ _ _ HR))) as Hr. fold ib in Hr.
  pose proof (layout_pos _ (vo_layout _ _ (ir_volume _ _ _ HR))) as Hlay.
  destruct (write_meta (view s) (view s') sb ip' ib R2 Hi') as [Rw Hby]; [lia|intros k Hk; apply (tf_view _ _ _ _ F); set_solver|by apply length_view, T'|].
  assert (∀ k, owns (view s') ip' k ↔ owns (view s) ip k) as Hown.
  { intros k. unfold owns. setoid_rewrite (rw_slot _ _ _ _ _ Rw). done. }
  assert (ib ∉ W) as HibW.
  { intros Hk. destruct (w_changed _ _ _ _ _ _ _ H _ Hk) as [|(_ & j & Hj & E)]; [lia|].
    destruct (io_data _ _ _ R3 j Hj) as [E0|[Hd _]]; lia. }
  split.
  - split; rewrite ?(tf_sb _ _ _ _ F), ?Esb; [done|apply Rw|apply Rw|rewrite I; by eapply lookup_insert_self].
  - by rewrite I, (w_inodes _ _ _ _ _ _ _ H), list_insert_insert_eq.
  - unfold ip'. rewrite Hip. rewrite Z.max_r by lia. done.
  - apply content_splice; [simpl; lia|]. intros o Ho. destruct (w_bytes _ _ _ _ _ _ _ H o Ho) as [Hn Hb]. rewrite <-Hb. apply Hby; [|done].
    rewrite MAXFILE_eq in *. pose proof (io_size _ _ _ (ir_inode _ _ _ HR)) as Hz. rewrite MAXFILE_eq in Hz.
    unfold BSIZE in *. split; [apply Z.div_pos; lia|apply Z.div_lt_upper_bound; lia].
  - exists (W ∪ {[ib]}). split; [eapply tx_frame_trans; [apply H|exact F]|].
    intros k [Hk|Hk]%elem_of_union; [|right; left; set_solver]. destruct (w_changed _ _ _ _ _ _ _ H k Hk); [by left|right; right; by apply Hown].
  - intros k Hk%Hown. destruct (w_owns _ _ _ _ _ _ _ H k Hk) as [|Hk']; [by left|right; by apply (w_fresh _ _ _ _ _ _ _ H)].
  - intros b Hb. apply (rw_data _ _ _ _ _ Rw). apply (w_data _ _ _ _ _ _ _ H). by left.
  - right. fold ib. rewrite Hib. f_equal. by apply (tf_view _ _ _ _ (w_frame _ _ _ _ _ _ _ H)).
  - rewrite (rw_free _ _ _ _ _ Rw), (w_free _ _ _ _ _ _ _ H). split; [set_solver|]. rewrite size_difference by apply H.
    pose proof (subseteq_size _ _ (w_fresh _ _ _ _ _ _ _ H)). change (icnt ip') with (icnt ip). change (i_size ip') with (off0 + n).
    pose proof (cdiv_mono (i_size ip0) (off0 + n) ltac:(lia)). unfold new_blocks in HN. lia.
  - pose proof (tf_logged _ _ _ _ F) as Hl. apply subseteq_size in Hl. pose proof (size_union_ub (logged s) {[ib]}).
    rewrite size_singleton in *. pose proof (subseteq_size (logged s) ({[bm]} ∪ logged s) ltac:(set_solver)). change (icnt ip') with (icnt ip). lia.
Qed.

Lemma writei_spec devwrite :
  i_type ip0 ≠ T_DEV → wp (writei devwrite i src off0) (λ r s', r = n ∧ ∃ ip', written s' ip') s0.
Proof using HR Hroom Hoff Hmax.
  intros Hty. pose proof HR as [R1 R2 R3 R4]. unfold writei. apply wp_bind. eapply wp_getino; [done|].
  destruct (Z.eqb_spec (i_type ip0) T_DEV) as [|_]; [done|].
  assert (u32 (off0 + n) = off0 + n) as -> by (unfold u32; rewrite MAXFILE_eq in Hmax; unfold BSIZE in *; apply Z.mod_small; lia).
  destruct (Z.ltb_spec (i_size ip0) off0) as [|_]; [lia|]. destruct (Z.ltb_spec (off0 + n) off0) as [|_]; [lia|]. cbn [orb].
  destruct (Z.ltb_spec (MAXFILE * BSIZE) (off0 + n)) as [|_]; [lia|]. apply wp_bind. rewrite (io_dev _ _ _ R3).
  eapply wp_mono; [apply (wp_loop wloop (λ x, Z.to_nat (n - x.1)) (λ off s', off = off0 + n ∧ wloop (n, off) s') _ (wbody 1));
    [apply wloop_init|simpl; lia|apply wbody_spec]|].
  intros off s1 (-> & ip & D & N & A & W & H & _ & _ & _ & HD). destruct (HD eq_refl) as [HD1 HN1].
  pose proof (w_ready _ _ _ _ _ _ _ H) as [S1 S2 S3 S4]. pose proof (wrote_sb _ _ _ _ _ _ _ H) as Esb.
  pose proof (w_ip _ _ _ _ _ _ _ H) as Hip. assert (i_size ip = i_size ip0) as Esz by (by rewrite Hip).
  apply wp_bind. eapply wp_getino; [done|]. rewrite Esz. apply wp_bind.
  destruct (Z.ltb_spec (i_size ip0) (off0 + n)) as [Hgt|Hle].
  - destruct (Z.ltb_spec 0 n); [|lia]. simpl. apply wp_bind. eapply wp_modino; [done|]. set (ip' := ip <| i_size := off0 + n |>).
    destruct (tx_inodes (<[i := ip']>) s1 ∅ S1) as [T2 F2]. set (s2 := s1 <| d_inodes ::= _ |>) in *.
    pose proof (wrote_log _ _ _ _ _ _ _ H) as Hlog. pose proof (wm_log _ _ _ _ Hroom) as Hlg. pose proof (size_iset ip) as Hic.
    assert (icnt ip ≤ 1)%nat as Hc by (unfold icnt; case_match; lia).
    assert (i_inum ip' = i_inum ip0) as Ein by (unfold ip'; by rewrite Hip).
    eapply wp_mono; [apply (iupdate_tx s2 i ip'); [done| | | | | |]|].
    + eapply in_op_frame; [exact F2|]. eapply in_op_frame; [apply H|apply Hroom].
    + apply S2.
    + by eapply lookup_insert_self.
    + apply S3.
    + apply S3.
    + rewrite (frame_logged _ _ _ F2). pose proof (subseteq_size (logged s1) ({[bm]} ∪ logged s1) ltac:(set_solver)).
      pose proof (nblocks_pos off0 n ltac:(lia)). unfold MAXOPBLOCKS in *. lia.
    + intros [] s3 (T3 & F3 & V3 & I3). apply wp_ret. split; [done|]. exists ip'. change (d_sb s2) with (d_sb s1) in *. rewrite Esb, Ein in *.
      eapply wrote_written_grow; try done. rewrite <-(union_empty_l_L {[_]}). by eapply tx_frame_trans.
  - rewrite andb_false_r. apply wp_ret, wp_ret. split; [done|]. exists ip. by eapply wrote_written.
Qed.
End writei.

(** ** readi *)

Lemma frame_trans_same s0 s1 s2 : tx_frame ∅ s0 s1 ∅ → tx_frame ∅ s1 s2 ∅ → tx_frame ∅ s0 s2 ∅.
Proof. intros F1 F2. rewrite <-(union_empty_l_L ∅). by eapply tx_frame_trans. Qed.

Lemma iready_frame s s' i ip : iready s i ip → tx s' ∅ → tx_frame ∅ s s' ∅ → d_inodes s' = d_inodes s → iready s' i ip.
Proof.
  intros [R1 R2 R3 R4] T F I. pose proof (frame_view _ _ _ F) as V. pose proof (tf_sb _ _ _ _ F) as E.
  split; rewrite ?V, ?E, ?I; done.
Qed.

(** The part of block [off / BSIZE] from [off] on is part of the contents. *)
Lemma slice_block V sb ip off m :
  volume V sb → 0 ≤ off → 0 ≤ m ≤ BSIZE - off mod BSIZE → off + m ≤ i_size ip →
  slice (V (baddr V ip (off / BSIZE))) (off mod BSIZE) m = slice (content V ip) off m.
Proof.
  intros Hv Hoff Hm Hs. pose proof (Z.mod_pos_bound off BSIZE ltac:(done)) as Hmod. pose proof (Z.div_mod off BSIZE ltac:(done)) as Hdm.
  pose proof (vo_len _ _ Hv (baddr V ip (off / BSIZE))) as Hl. pose proof (length_content V ip ltac:(lia)) as Hc.
  assert (Z.of_nat (length (slice (V (baddr V ip (off / BSIZE))) (off mod BSIZE) m)) = m) as E1 by (apply length_slice; unfold BSIZE in *; lia).
  assert (Z.of_nat (length (slice (content V ip) off m)) = m) as E2 by (apply length_slice; lia).
  apply rd8_ext; [lia|]. intros x Hx. rewrite !rd8_slice by lia. rewrite rd8_content by lia. unfold fbyte.
  rewrite (same_block off m (off + x)) by lia. f_equal.
  replace (off + x) with (off mod BSIZE + x + off / BSIZE * BSIZE) by lia. rewrite Z.mod_add by done. by rewrite (Z.mod_small (off mod BSIZE + x)) by lia.
Qed.

Lemma slice_app (l : list Z) o a b : 0 ≤ o → 0 ≤ a → 0 ≤ b → slice l o a ++ slice l (o + a) b = slice l o (a + b).
Proof.
  intros Ho Ha Hb. unfold slice. rewrite !Z2Nat.inj_add by lia. rewrite <-drop_drop. set (l' := drop (Z.to_nat o) l).
  rewrite <-(take_take_drop l' (Z.to_nat a) (Z.to_nat b)). done.
Qed.

Definition rbody (i : nat) (dev n : Z) : Z * Z * list Z → M fsys (Z * Z * list Z + Z * list Z) := λ '(tot, off, acc),
  if tot <? n then
    a <- bmap i (off / BSIZE) ;;
    bp <- bread dev a ;;
    let m := chunk n tot off in
    d <- bdata bp ;;
    brelse bp ;;
    ret (inl (tot + m, off + m, acc ++ slice d (off mod BSIZE) m))
  else ret (inr (n, acc)).

(** What the loop of [readi] has done: [acc] is the first [tot] bytes, and the
    file system is as it was. *)
Definition rloop s0 (i : nat) ip (off0 n : Z) (x : Z * Z * list Z) (s : fsys) : Prop :=
  let '(tot, off, acc) := x in
  iready s i ip ∧ tx_frame ∅ s0 s ∅ ∧ d_inodes s = d_inodes s0 ∧ off = off0 + tot ∧ 0 ≤ tot ≤ n ∧
  acc = slice (content (view s0) ip) off0 tot.

Lemma rbody_spec s0 i ip off0 n x s :
  iready s0 i ip → 0 ≤ off0 → off0 + n ≤ i_size ip → rloop s0 i ip off0 n x s →
  wp (rbody i 1 n x) (λ y s', match y with
    | inl x' => rloop s0 i ip off0 n x' s' ∧ (Z.to_nat (n - x'.1.1) < Z.to_nat (n - x.1.1))%nat
    | inr r => r = (n, slice (content (view s0) ip) off0 n) ∧ iready s' i ip ∧ tx_frame ∅ s0 s' ∅ ∧ d_inodes s' = d_inodes s0 end) s.
Proof.
  intros R0 Hoff0 Hn. destruct x as [[tot off] acc]. intros (R & F & I & -> & Htot & ->). simpl. set (off := off0 + tot).
  destruct (Z.ltb_spec tot n) as [Hlt|Hge]; [|apply wp_ret; assert (tot = n) as -> by lia; done].
  pose proof R as [R1 R2 R3 R4]. pose proof (io_size _ _ _ R3) as Hsz. pose proof (frame_view _ _ _ F) as V.
  assert (0 ≤ off / BSIZE < MAXFILE) as Hbn.
  { rewrite MAXFILE_eq in *. unfold BSIZE in *. split; [apply Z.div_pos; lia|apply Z.div_lt_upper_bound; lia]. }
  pose proof (Z.mod_pos_bound off BSIZE ltac:(done)) as Hmod. pose proof (Z.div_mod off BSIZE ltac:(done)) as Hdm.
  assert (baddr (view s) ip (off / BSIZE) ≠ 0) as Hnz by (apply (io_covers _ _ _ R3); unfold BSIZE in *; lia).
  apply wp_bind. eapply wp_mono; [by apply (bmap_spec s i ip)|]. intros a s1 (ip1 & A & Bm).
  destruct (bm_old _ _ _ _ _ _ _ _ Bm Hnz) as (-> & -> & F1). pose proof (bmapped_ready _ _ _ _ _ _ _ _ R Bm) as [S1 S2 S3 S4].
  assert (d_inodes s1 = d_inodes s) as I1 by (rewrite (bm_inodes _ _ _ _ _ _ _ _ Bm); by rewrite list_insert_id).
  pose proof (frame_view _ _ _ F1) as V1. pose proof (bm_addr _ _ _ _ _ _ _ _ Bm) as Ea. pose proof (bm_pos _ _ _ _ _ _ _ _ Bm) as Hpos.
  assert (is_data (view s1) (d_sb s1) a) as Hd by (rewrite <-Ea; apply inode_data; [done..|by rewrite Ea]).
  pose proof (data_pos _ _ _ (vo_layout _ _ S2) Hd). apply wp_bind.
  eapply wp_mono; [apply (bread_tx s1 ∅ a); [done|lia|set_solver|rewrite size_empty; lia]|]. intros b s2 (T2 & H2 & F2 & I2).
  apply wp_bind. eapply bdata_spec; [apply H2|]. apply wp_bind.
  eapply wp_mono; [apply (brelse_tx s2 ∅ b a (view s1 a)); [done|set_solver|done]|]. intros [] s3 (T3 & F3 & I3). apply wp_ret.
  set (m := chunk n tot off). assert (0 < m ≤ BSIZE - off mod BSIZE ∧ m ≤ n - tot) as [Hm1 Hm2] by (unfold m, chunk; lia).
  assert (tx_frame ∅ s s3 ∅) as F03 by (by eapply frame_trans_same; [|eapply frame_trans_same]).
  split; [|simpl; lia]. split_and!; [|by eapply frame_trans_same|congruence|unfold off; lia|lia|lia|].
  - apply (iready_frame s); try done. congruence.
  - rewrite <-slice_app by lia. f_equal. fold off. rewrite (sv_at _ _ V1), (sv_at _ _ V), <-Ea, V1, V.
    apply (slice_block _ (d_sb s0)); [apply R0|lia..].
Qed.

Lemma readi_spec devread s i ip off n :
  iready s i ip → i_type ip ≠ T_DEV → 0 ≤ off ≤ i_size ip → 0 ≤ n → off + n < 2 ^ 32 →
  let n' := Z.min n (i_size ip - off) in
  wp (readi devread i off n) (λ r s', r = (n', slice (content (view s) ip) off n') ∧ iready s' i ip ∧ tx_frame ∅ s s' ∅ ∧
    d_inodes s' = d_inodes s) s.
Proof.
  intros R Hty Hoff Hn Hov n'. pose proof R as [R1 R2 R3 R4]. unfold readi. apply wp_bind. eapply wp_getino; [done|].
  destruct (Z.eqb_spec (i_type ip) T_DEV) as [|_]; [done|]. assert (u32 (off + n) = off + n) as -> by (unfold u32; apply Z.mod_small; lia).
  destruct (Z.ltb_spec (i_size ip) off) as [|_]; [lia|]. destruct (Z.ltb_spec (off + n) off) as [|_]; [lia|]. cbn [orb].
  assert ((if i_size ip <? off + n then i_size ip - off else n) = n') as -> by (unfold n'; destruct (Z.ltb_spec (i_size ip) (off + n)); lia).
  rewrite (io_dev _ _ _ R3).
  apply (wp_loop (rloop s i ip off n') (λ x, Z.to_nat (n' - x.1.1)) _ _ (rbody i 1 n')); [|simpl; lia|].
  - split_and!; [done|apply tx_frame_refl|done|lia|lia|lia|]. by unfold slice.
  - intros x s' H. apply rbody_spec; [done|lia|lia|done].
Qed.
