(* ===== verification/Op.v ===== *)
(** File system calls as transactions: [begin_op] and [end_op] of [src/log.c],
    [ilock] and [iunlock] of [src/fs.c].

    Between calls the file system is [idle]: no buffer is in use or dirty and
    the log is empty.  [begin_op] opens a transaction, [end_op] commits it and
    makes the file system idle again; the blocks outside the log have the
    contents that the transaction gave them. *)

From S2P Require Import Prelude Memory Machine Disk Bio Log LogCrash Txn Fs Inode Bmap Rdwr.
From stdpp Require Import options.
Implicit Types s : fsys.
Implicit Types U W : gset Z.
Implicit Types V : Z → list Z.
Implicit Types sb : superblock.
Implicit Types ip : inode.

Record idle s : Prop := {
  id_tx : tx s ∅;
  id_n : lh_n (d_log s) = 0;
  id_outstanding : lg_outstanding (d_log s) = 0;
  id_committing : lg_committing (d_log s) = false;
  id_dev : lg_dev (d_log s) = 1;
  id_start : lg_start (d_log s) = sb_logstart (d_sb s);
  id_nlog : lg_size (d_log s) = sb_nlog (d_sb s);
}.

(** What a transaction keeps of the log, and its end. *)
Record op_log s : Prop := {
  ol_outstanding : lg_outstanding (d_log s) = 1;
  ol_committing : lg_committing (d_log s) = false;
  ol_dev : lg_dev (d_log s) = 1;
  ol_start : lg_start (d_log s) = sb_logstart (d_sb s);
  ol_nlog : lg_size (d_log s) = sb_nlog (d_sb s);
}.

Lemma op_log_op s : op_log s → in_op s.
Proof. intros [H]. unfold in_op. lia. Qed.

Lemma op_log_frame U s s' W : tx_frame U s s' W → op_log s → op_log s'.
Proof.
  intros F [H1 H2 H3 H4 H5]. pose proof (tf_log _ _ _ _ F) as E. split; rewrite E, ?(tf_sb _ _ _ _ F); by destruct (d_log s).
Qed.

Lemma logged_nil s : lh_n (d_log s) = 0 → logged s = ∅.
Proof. intros H. unfold logged, logged_list. rewrite H. done. Qed.

(** All buffers can be recycled when none is in use or dirty. *)
Lemma nfree_all s : cache_ok s → (∀ k, ¬ in_use s k) → (∀ k, ¬ dirty s k) → nfree s = NBUF.
Proof.
  intros Hok Hu Hd. pose proof (co_len s Hok) as Hl.
  assert (∀ b, b ∈ d_bufs s → recyclable b = true) as Hr.
  { intros b [i Hi]%list_elem_of_lookup. destruct (co_bufs s Hok i b Hi) as [X1 X2 X3 X4 X5].
    assert (b_locked b = false ∧ b_dirty b = false) as [El Ed].
    { destruct X3 as [[Xd _]|(_ & _ & ? & ?)]; [|done]. split; apply not_true_is_false; intros E.
      - apply (Hu (b_blockno b)). by exists i, b.
      - apply (Hd (b_blockno b)). by exists i, b. }
    unfold recyclable. by rewrite X2, El, Ed. }
  unfold nfree, NBUF, MAXOPBLOCKS in *. assert (∀ l : list buf, (∀ b, b ∈ l → recyclable b = true) → cnt recyclable l = Z.of_nat (length l)) as Hc.
  { clear. induction l as [|b l IH]; intros H; [done|]. cbn [cnt length]. rewrite (H b) by left. rewrite IH by (intros c Hc; apply H; by right). lia. }
  rewrite Hc, Hl by done. done.
Qed.

(** ** Changes outside the buffer cache *)

Record cache_same s s' : Prop := {
  cs_bufs : d_bufs s' = d_bufs s;
  cs_blocks : d_blocks s' = d_blocks s;
  cs_lru : d_lru s' = d_lru s;
  cs_locks : d_idelock s' = d_idelock s ∧ d_bcache_lock s' = d_bcache_lock s;
  cs_queue : d_idequeue s' = d_idequeue s;
  cs_have : d_havedisk1 s' = d_havedisk1 s;
}.

Lemma cache_same_ok s s' : cache_same s s' → cache_ok s → cache_ok s'.
Proof.
  intros [C1 C2 C3 [C4 C5] C6 C7] [H1 H2 H3 H4 H5 H6 H7 H8]. split; rewrite ?C1, ?C2, ?C3, ?C4, ?C5, ?C6, ?C7; try done.
  intros i b Hb. destruct (H3 i b Hb) as [X1 X2 X3 X4 X5]. split; try done. unfold on_disk. by rewrite C2.
Qed.

Lemma cache_same_view s s' : cache_same s s' → same_view (view s') (view s).
Proof. intros [C1 C2 _ _ _ _]. split. intros k. unfold view, on_disk. by rewrite C1, C2. Qed.

Lemma cache_same_use s s' : cache_same s s' →
  (∀ k, in_use s' k ↔ in_use s k) ∧ (∀ k, dirty s' k ↔ dirty s k) ∧ nfree s' = nfree s.
Proof. intros [C1 _ _ _ _ _]. unfold in_use, dirty, nfree. by rewrite C1. Qed.

(** The cache and the blocks of the log are the same, and its lock is free. *)
Lemma tx_same s s' U :
  tx s U → cache_same s s' → d_log_lock s' = false → lh_n (d_log s') = lh_n (d_log s) → lh_block (d_log s') = lh_block (d_log s) →
  lg_size (d_log s') = lg_size (d_log s) → tx s' U.
Proof.
  intros T C L E1 E2 E3. destruct (cache_same_use _ _ C) as (Cu & Cd & Cn). destruct T as [T1 T2 T3 T5 T6 T7 T8 T9 T10 T11].
  assert (logged_list s' = logged_list s) as El by (unfold logged_list; by rewrite E1, E2).
  assert (logged s' = logged s) as Eg by (unfold logged; by rewrite El).
  split; rewrite ?E1, ?E2, ?E3, ?El, ?Eg, ?Cn; try done; [by eapply cache_same_ok|intros k; rewrite Cu; apply T2|intros k; by rewrite Cd].
Qed.

(** ** begin_op *)

(** What opening or closing a transaction leaves alone. *)
Record op_rest s s' : Prop := {
  or_sb : d_sb s' = d_sb s;
  or_inodes : d_inodes s' = d_inodes s;
  or_files : d_files s' = d_files s;
  or_pipes : d_pipes s' = d_pipes s;
  or_icache : d_icache_lock s' = d_icache_lock s;
  or_ftable : d_ftable_lock s' = d_ftable_lock s;
}.

Lemma begin_op_spec s :
  idle s → wp begin_op (λ _ s', tx s' ∅ ∧ op_log s' ∧ logged s' = ∅ ∧ same_view (view s') (view s) ∧ op_rest s s') s.
Proof.
  intros [T H1 H2 H3 H4 H5 H6]. unfold begin_op. apply wp_bind, wp_acquire; [apply T|]. apply wp_bind, wp_gets. simpl.
  rewrite H3, H2, H1. unfold LOGSIZE, MAXOPBLOCKS. simpl. apply wp_bind, wp_modify, wp_release; [done|].
  match goal with |- tx ?t _ ∧ _ => set (s' := t) end.
  assert (cache_same s s') as C by done. assert (d_log s' = (d_log s) <| lg_outstanding ::= λ n, n + 1 |>) as El by done.
  split_and!; [|split|by apply logged_nil; rewrite El; destruct (d_log s)|by apply cache_same_view|done].
  - apply (tx_same s); [done..| | |]; rewrite El; by destruct (d_log s).
  - rewrite El. destruct (d_log s). simpl in *. unfold upd. simpl. lia.
  - rewrite El. by destruct (d_log s).
  - rewrite El. by destruct (d_log s).
  - rewrite El. by destruct (d_log s).
  - rewrite El. by destruct (d_log s).
Qed.

(** ** end_op *)

(** The blocks from the inodes on are the same. *)
Definition agree sb V V' : Prop := ∀ k, sb_inodestart sb ≤ k → V' k = V k.

Lemma tx_log_ok s :
  tx s ∅ → lg_dev (d_log s) = 1 → lg_start (d_log s) = sb_logstart (d_sb s) → lg_size (d_log s) = sb_nlog (d_sb s) →
  layout (d_sb s) → (∀ k, k ∈ logged s → sb_inodestart (d_sb s) ≤ k < FSSIZE) →
  log_ok (sb_logstart (d_sb s)) (sb_nlog (d_sb s)) s (logged_list s).
Proof.
  intros T E1 E2 E3 L Hh. pose proof (length_logged s ∅ T) as Hn. pose proof (tx_size _ _ T) as Hsz. pose proof (tx_lgsize _ _ T) as Hlg.
  assert (Z.of_nat (length (logged_list s)) = lh_n (d_log s)) as Hlen.
  { unfold logged_list. rewrite length_take, (tx_len _ _ T). pose proof (tx_n _ _ T). lia. }
  pose proof (layout_pos _ L) as Hp. destruct L as [L1 L2 L3]. rewrite E3 in Hlg. unfold MAXOPBLOCKS in *.
  assert (∀ k, k ∈ logged s → ¬ in_log (sb_logstart (d_sb s)) (sb_nlog (d_sb s)) k) as Hnl by (intros k Hk%Hh; unfold in_log; lia).
  split; try done; [apply T| | | | | |].
  - unfold logged_list. exists (drop (Z.to_nat (lh_n (d_log s))) (lh_block (d_log s))). by rewrite take_drop.
  - split; [apply T| |unfold LOGSIZE, MAXOPBLOCKS; lia]. intros b Hb. assert (b ∈ logged s) as Hb' by (by apply elem_of_list_to_set).
    split; [apply Hh in Hb'; lia|by apply Hnl].
  - unfold FSSIZE in *. lia.
  - intros b _ Hu. apply (tx_use _ _ T) in Hu. set_solver.
  - intros b Hb Hd. apply (tx_dirty _ _ T) in Hd. by apply (Hnl b).
  - pose proof (tx_free _ _ T) as Hf. rewrite union_empty_r_L in Hf. unfold NBUF, MAXOPBLOCKS in Hf. lia.
Qed.

(** [commit], on the log of a transaction that may be empty. *)
Lemma commit_tx s :
  tx s ∅ → lg_dev (d_log s) = 1 → lg_start (d_log s) = sb_logstart (d_sb s) → lg_size (d_log s) = sb_nlog (d_sb s) →
  layout (d_sb s) → (∀ k, k ∈ logged s → sb_inodestart (d_sb s) ≤ k < FSSIZE) →
  wp commit (λ _ s', cache_ok s' ∧ (∀ k, ¬ in_use s' k) ∧ (∀ k, ¬ dirty s' k) ∧ agree (d_sb s) (view s) (view s') ∧
    same_rest (s <| d_log ::= λ l, l <| lh_n := 0 |> |>) s') s.
Proof.
  intros T E1 E2 E3 L Hh. assert (∀ k, ¬ in_use s k) as Hu by (intros k Hk%(tx_use _ _ T); set_solver).
  destruct (decide (logged_list s = [])) as [Hnil|Hne].
  - assert (logged s = ∅) as El by (unfold logged; by rewrite Hnil).
    pose proof (length_logged s ∅ T) as Hn. rewrite El, size_empty in Hn.
    unfold commit. apply wp_bind, wp_gets. rewrite Hn. simpl. apply wp_ret. split_and!; [apply T|done| |done|].
    + intros k Hk%(tx_dirty _ _ T). set_solver.
    + split; try done. simpl. destruct (d_log s). simpl in *. by subst.
  - pose proof (tx_log_ok s T E1 E2 E3 L Hh) as Hok. eapply wp_mono; [by apply commit_spec|].
    intros [] s' (O & _ & V & D & U & R). split_and!; [apply O|intros k Hk; by apply (Hu k), U| | |done].
    + intros k [Hd Hk]%D. apply Hk. apply (tx_dirty _ _ T) in Hd. by apply elem_of_list_to_set in Hd.
    + intros k Hk. apply V. destruct L as [L1 _ _]. unfold in_log. lia.
Qed.

Lemma tx_clean s :
  cache_ok s → (∀ k, ¬ in_use s k) → (∀ k, ¬ dirty s k) → d_log_lock s = false → lh_n (d_log s) = 0 →
  length (lh_block (d_log s)) = Z.to_nat LOGSIZE → MAXOPBLOCKS < lg_size (d_log s) - 1 → tx s ∅.
Proof.
  intros O U D L N Len Sz. pose proof (logged_nil s N) as El. assert (logged_list s = []) as Ell by (unfold logged_list; by rewrite N).
  split; rewrite ?El, ?Ell, ?N; try done; [|apply NoDup_nil_2|intros k; split; [intros []%D|set_solver]| |].
  - intros k []%U.
  - rewrite size_empty. lia.
  - rewrite nfree_all by done. lia.
Qed.

Lemma end_op_spec s :
  tx s ∅ → op_log s → layout (d_sb s) → (∀ k, k ∈ logged s → sb_inodestart (d_sb s) ≤ k < FSSIZE) →
  wp end_op (λ _ s', idle s' ∧ agree (d_sb s) (view s) (view s') ∧ op_rest s s') s.
Proof.
  intros T [H1 H2 H3 H4 H5] L Hh. unfold end_op. apply wp_bind, wp_acquire; [apply T|]. apply wp_bind, wp_modify. apply wp_bind, wp_gets.
  simpl. rewrite H2, H1. simpl. apply wp_bind, wp_modify. apply wp_bind, wp_release; [done|]. apply wp_bind.
  match goal with |- wp commit _ ?t => set (s1 := t) end.
  assert (cache_same s s1) as C1 by done.
  assert (d_log s1 = (d_log s) <| lg_outstanding ::= λ n, n - 1 |> <| lg_committing := true |>) as El by done.
  assert (tx s1 ∅) as T1 by (apply (tx_same s); [done..| | |]; rewrite El; by destruct (d_log s)).
  assert (logged s1 = logged s) as Elg by (unfold logged, logged_list; rewrite El; by destruct (d_log s)).
  eapply wp_mono; [apply (commit_tx s1); [done| | | |done|by rewrite Elg]; rewrite El; by destruct (d_log s)|].
  intros [] s2 (O & U & D & A & R). pose proof (sr_log _ _ R) as El2.
  apply wp_bind, wp_acquire; [by rewrite (sr_loglock _ _ R)|]. apply wp_bind, wp_modify. apply wp_bind, wp_modify. apply wp_release; [done|].
  match goal with |- idle ?t ∧ _ => set (s' := t) end. assert (cache_same s2 s') as C2 by done.
  assert (d_log s' = (d_log s) <| lg_outstanding ::= λ n, n - 1 |> <| lh_n := 0 |> <| lg_committing := false |>) as El'.
  { assert (d_log s' = (d_log s2) <| lg_committing := false |>) as -> by done. rewrite El2. simpl. by destruct (d_log s). }
  destruct (cache_same_use _ _ C2) as (Cu & Cd & Cn). split_and!.
  - assert (d_sb s' = d_sb s) as Esb by apply (sr_sb _ _ R). split; rewrite ?Esb.
    2-7: rewrite El'; destruct (d_log s); simpl in *; unfold upd; simpl; lia || done.
    pose proof (tx_len _ _ T). pose proof (tx_lgsize _ _ T).
    apply tx_clean; [by eapply cache_same_ok|intros k; by rewrite Cu|intros k; by rewrite Cd|done|rewrite El'; by destruct (d_log s)..].
  - intros k Hk. rewrite (sv_at _ _ (cache_same_view _ _ C2)). by apply A.
  - destruct R as [R1 R2 R3 R4 R5 R6 R7 R8]. by split.
Qed.

(** ** Files that are left alone *)

Lemma slot_owned V V' sb ip j :
  inode_ok V sb ip → (∀ k, owns V ip k → V' k = V k) → 0 ≤ j ≤ MAXFILE → slot V' ip j = slot V ip j.
Proof.
  intros Hi Hk Hj. unfold slot, baddr. case_match; [done|]. case_match; [done|]. destruct (Z.eqb_spec (ind_addr ip) 0); [done|].
  rewrite Hk; [done|]. split; [done|]. exists MAXFILE. split; [apply MAXFILE_slot|apply slot_ind].
Qed.

Lemma keeps_inode V V' sb ip :
  inode_ok V sb ip → (∀ k, owns V ip k → V' k = V k) → (∀ b, is_data V sb b → is_data V' sb b) →
  inode_ok V' sb ip ∧ (∀ k, owns V' ip k ↔ owns V ip k) ∧ content V' ip = content V ip.
Proof.
  intros Hi Hk Hd. assert (∀ j, 0 ≤ j ≤ MAXFILE → slot V' ip j = slot V ip j) as Hs by (intros j; by apply (slot_owned V V' sb)).
  assert (∀ bn, 0 ≤ bn → bn * BSIZE < i_size ip → 0 ≤ bn < MAXFILE) as Hr.
  { intros bn Hb Hlt. pose proof (io_size _ _ _ Hi). rewrite MAXFILE_eq in *. unfold BSIZE in *. lia. }
  split_and!.
  - destruct Hi as [I1 I2 I3 I4 I5 I6 I7]. split; try done.
    + intros j Hj. rewrite Hs by done. destruct (I5 j Hj); auto.
    + intros j k Hj Hk'. rewrite !Hs by done. auto.
    + intros bn Hb Hlt. pose proof (Hr bn Hb Hlt). rewrite <-slot_baddr, Hs, slot_baddr by (done || lia). by apply I7.
  - intros k. unfold owns. split; intros (Hn & j & Hj & E); (split; [done|]; exists j; split; [done|]); by rewrite <-E, ?Hs.
  - unfold content. apply list_fmap_ext. intros j o Ho. apply lookup_seqZ in Ho as [-> Ho]. rewrite Z.add_0_l in *. set (o := Z.of_nat j) in *.
    assert (o / BSIZE * BSIZE < i_size ip) as Hlt by (pose proof (Z.mul_div_le o BSIZE ltac:(done)); unfold BSIZE in *; lia).
    pose proof (Hr (o / BSIZE) ltac:(apply Z.div_pos; [lia|done]) Hlt) as Hbn.
    pose proof (io_covers _ _ _ Hi _ (proj1 Hbn) Hlt) as Hnz.
    unfold fbyte. rewrite <-!slot_baddr, Hs by (done || lia). rewrite Hk; [done|]. split; [by rewrite slot_baddr|]. exists (o / BSIZE). split; [lia|done].
Qed.

Lemma owns_data V sb ip k : inode_ok V sb ip → owns V ip k → is_data V sb k.
Proof. intros Hi (Hn & j & Hj & <-). by destruct (io_data _ _ _ Hi j Hj). Qed.

Lemma agree_bitmap sb V V' : layout sb → agree sb V V' → bitmap V' sb = bitmap V sb.
Proof. intros L A. apply A. pose proof (layout_pos _ L). lia. Qed.

Lemma agree_keeps sb V V' :
  volume V sb → (∀ k, length (V' k) = Z.to_nat BSIZE) → agree sb V V' →
  volume V' sb ∧ free_blocks V' sb = free_blocks V sb ∧
  ∀ ip, inode_ok V sb ip → inode_ok V' sb ip ∧ (∀ k, owns V' ip k ↔ owns V ip k) ∧ content V' ip = content V ip.
Proof.
  intros Hv Hl A. pose proof (vo_layout _ _ Hv) as L. pose proof (agree_bitmap _ _ _ L A) as Hb. pose proof (layout_pos _ L).
  split_and!.
  - split; [done|done|]. rewrite Hb. apply Hv.
  - unfold free_blocks. by rewrite Hb.
  - intros ip Hi. apply keeps_inode; [done| |].
    + intros k Hk. apply A. destruct (owns_data _ _ _ _ Hi Hk). lia.
    + intros b. unfold is_data. by rewrite Hb.
Qed.

(** [writei] leaves other files alone. *)
Lemma written_other s0 i ip0 off src s' ip' jp :
  written s0 i ip0 off src s' ip' → iready s0 i ip0 → let V := view s0 in let sb := d_sb s0 in
  inode_ok V sb jp → (∀ k, owns V ip0 k → ¬ owns V jp k) →
  inode_ok (view s') sb jp ∧ (∀ k, owns (view s') jp k ↔ owns V jp k) ∧ content (view s') jp = content V jp ∧
  (∀ k, owns (view s') ip' k → ¬ owns (view s') jp k).
Proof.
  intros Wd R V sb Hj Hdis. pose proof (ir_volume _ _ _ R) as Hv. pose proof (layout_pos _ (vo_layout _ _ Hv)).
  assert (∀ k, owns V jp k → ¬ owns (view s') ip' k) as Hdis'.
  { intros k Hk [Ho|Hf]%(wd_owns _ _ _ _ _ _ _ Wd); [by apply (Hdis k)|].
    destruct (free_is_data _ _ _ Hv Hf) as [_ Hn]. apply Hn. by eapply owns_data. }
  destruct (keeps_inode V (view s') sb jp Hj) as (K1 & K2 & K3).
  - intros k Hk. destruct (wd_frame _ _ _ _ _ _ _ Wd) as (W & F & HW). apply (tf_view _ _ _ _ F). intros Hin.
    destruct (owns_data _ _ _ _ Hj Hk) as [Hr _]. unfold sb in *.
    pose proof (IBLOCK_range _ _ (vo_layout _ _ Hv) (io_inum _ _ _ (ir_inode _ _ _ R))).
    destruct (HW k Hin) as [E|[E|Ho]]; [lia|lia|by apply (Hdis' k)].
  - apply (wd_data _ _ _ _ _ _ _ Wd).
  - split_and!; try done. intros k Ho Hk. apply K2 in Hk. by apply (Hdis' k).
Qed.

(** ** Locking an inode that is in memory *)

Lemma ilock_spec s i ip :
  d_inodes s !! i = Some ip → 1 ≤ i_ref ip → i_locked ip = false → i_valid ip = true →
  wp (ilock (Some i)) (λ _ s', s' = s <| d_inodes ::= <[i := ip <| i_locked := true |>]> |>) s.
Proof.
  intros Hi Hr Hl Hv. unfold ilock. apply wp_bind. eapply wp_getino; [done|]. destruct (Z.ltb_spec (i_ref ip) 1); [lia|].
  apply wp_bind. unfold acquire_ino. apply wp_bind. eapply wp_getino; [done|]. rewrite Hl. eapply wp_modino; [done|].
  apply wp_bind. eapply wp_getino; [simpl; by eapply lookup_insert_self|]. simpl. rewrite Hv. by apply wp_ret.
Qed.

Lemma iunlock_spec s i ip :
  d_inodes s !! i = Some ip → 1 ≤ i_ref ip → i_locked ip = true →
  wp (iunlock (Some i)) (λ _ s', s' = s <| d_inodes ::= <[i := ip <| i_locked := false |>]> |> <| d_woken ::= cons (ChInode i) |>) s.
Proof.
  intros Hi Hr Hl. unfold iunlock. apply wp_bind. eapply wp_getino; [done|]. rewrite Hl. destruct (Z.ltb_spec (i_ref ip) 1); [lia|]. simpl.
  unfold release_ino. apply wp_bind. eapply wp_modino; [done|]. by apply wp_modify.
Qed.
