(* ===== verification/File.v ===== *)
(** Pipes ([src/pipe.c]), open files ([src/file.c]), the swap files of
    [src/fs.c], and the file system as the memory manager and the processes
    see it.

    An open file is an index into [ftable]; a pipe is the address of its page.
    [killed] is [myproc()->killed]. *)

From S2P Require Import Prelude Memory Machine Disk Log Fs.
From stdpp Require Import options.
Implicit Types s : fsys.

(** ** Pipes *)

Definition getpipe (p : Z) : M fsys pipe := m <- gets d_pipes ;; of_option "pipe" (m !! p).
Definition modpipe (p : Z) (f : pipe → pipe) : M fsys unit :=
  x <- getpipe p ;; modify (λ s, s <| d_pipes ::= <[p := f x]> |>).
Definition acquire_pipe (p : Z) : M fsys unit :=
  x <- getpipe p ;; if pi_lock x then panic "acquire" else modpipe p (λ x, x <| pi_lock := true |>).
Definition release_pipe (p : Z) : M fsys unit :=
  x <- getpipe p ;; if pi_lock x then modpipe p (λ x, x <| pi_lock := false |>) else panic "release".

Definition pipeclose (p : Z) (writable : bool) : M fsys unit :=
  acquire_pipe p ;;
  (if writable then modpipe p (λ x, x <| pi_writeopen := false |>) ;; wakeup_on (ChPipeRead p)
   else modpipe p (λ x, x <| pi_readopen := false |>) ;; wakeup_on (ChPipeWrite p)) ;;
  x <- getpipe p ;;
  if negb (pi_readopen x) && negb (pi_writeopen x) then
    release_pipe p ;;
    modify (λ s, s <| d_pipes ::= delete p |> <| d_kfreed ::= cons p |>)
  else release_pipe p.

(** The loop of [pipewrite]: [false] if it gave up. *)
Fixpoint pipewrite_loop (p : Z) (killed : bool) (addr : list Z) : M fsys bool :=
  match addr with
  | [] => ret true
  | c :: addr =>
      x <- getpipe p ;;
      if pi_nwrite x =? u32 (pi_nread x + PIPESIZE) then
        if negb (pi_readopen x) || killed then ret false
        else wakeup_on (ChPipeRead p) ;; release_pipe p ;; sleep_on (ChPipeWrite p)
      else
        modpipe p (λ x, x <| pi_data ::= λ d, aset d (pi_nwrite x mod PIPESIZE) c |>
                          <| pi_nwrite ::= λ n, u32 (n + 1) |>) ;;
        pipewrite_loop p killed addr
  end.

Definition pipewrite (p : Z) (killed : bool) (addr : list Z) : M fsys Z :=
  acquire_pipe p ;;
  ok <- pipewrite_loop p killed addr ;;
  if ok then
    wakeup_on (ChPipeRead p) ;;
    release_pipe p ;;
    ret (Z.of_nat (length addr))
  else release_pipe p ;; ret (-1).

(** The copy loop of [piperead]. *)
Fixpoint piperead_loop (n : nat) (p : Z) : M fsys (list Z) :=
  match n with
  | O => ret []
  | S n =>
      x <- getpipe p ;;
      if pi_nread x =? pi_nwrite x then ret [] else
      c <- of_option "pipe data[] index" (aget (pi_data x) (pi_nread x mod PIPESIZE)) ;;
      modpipe p (λ x, x <| pi_nread ::= λ n, u32 (n + 1) |>) ;;
      r <- piperead_loop n p ;;
      ret (c :: r)
  end.

Definition piperead (p : Z) (killed : bool) (n : Z) : M fsys (Z * list Z) :=
  acquire_pipe p ;;
  x <- getpipe p ;;
  if (pi_nread x =? pi_nwrite x) && pi_writeopen x then
    if killed then release_pipe p ;; ret (-1, [])
    else release_pipe p ;; sleep_on (ChPipeRead p)
  else
    l <- piperead_loop (Z.to_nat n) p ;;
    wakeup_on (ChPipeWrite p) ;;
    release_pipe p ;;
    ret (Z.of_nat (length l), l).

(** ** Open files *)

Definition getfile (f : nat) : M fsys file := l <- gets d_files ;; of_option "file" (l !! f).
Definition modfile (f : nat) (g : file → file) : M fsys unit :=
  x <- getfile f ;; modify (λ s, s <| d_files ::= <[f := g x]> |>).

Fixpoint find_file (l : list file) (i : nat) : option nat :=
  match l with
  | [] => None
  | f :: l => if f_ref f =? 0 then Some i else find_file l (S i)
  end.

Definition filealloc : M fsys (option nat) :=
  acquire d_ftable_lock ;;
  l <- gets d_files ;;
  match find_file l 0 with
  | Some f =>
      modfile f (λ x, x <| f_ref := 1 |>) ;;
      release d_ftable_lock ;;
      ret (Some f)
  | None => release d_ftable_lock ;; ret None
  end.

Definition filedup (f : nat) : M fsys nat :=
  acquire d_ftable_lock ;;
  x <- getfile f ;;
  if f_ref x <? 1 then panic "filedup" else
  modfile f (λ x, x <| f_ref ::= λ n, n + 1 |>) ;;
  release d_ftable_lock ;;
  ret f.

Definition fileclose (f : nat) : M fsys unit :=
  acquire d_ftable_lock ;;
  x <- getfile f ;;
  if f_ref x <? 1 then panic "fileclose" else
  modfile f (λ x, x <| f_ref ::= λ n, n - 1 |>) ;;
  ff <- getfile f ;;
  if 0 <? f_ref ff then release d_ftable_lock else
  modfile f (λ x, x <| f_ref := 0 |> <| f_type := FD_NONE |>) ;;
  release d_ftable_lock ;;
  match f_type ff with
  | FD_PIPE => pipeclose (f_pipe ff) (negb (f_writable ff =? 0))
  | FD_INODE =>
      begin_op ;;
      i <- of_option "iput of a null inode" (f_ip ff) ;;
      iput i ;;
      end_op
  | FD_NONE => skip
  end.

Definition filestat (f : nat) : M fsys (option stat) :=
  x <- getfile f ;;
  match f_type x with
  | FD_INODE =>
      ilock (f_ip x) ;;
      i <- of_option "inode" (f_ip x) ;;
      st <- stati i ;;
      iunlock (f_ip x) ;;
      ret (Some st)
  | _ => ret None
  end.

(** [pipealloc]; [page] is what [kalloc] returned, 0 if it failed. *)
Definition pipealloc (page : Z) : M fsys (option (nat * nat)) :=
  f0 <- filealloc ;;
  match f0 with
  | None => ret None
  | Some f0 =>
      f1 <- filealloc ;;
      match f1 with
      | None => fileclose f0 ;; ret None
      | Some f1 =>
          if page =? 0 then fileclose f0 ;; fileclose f1 ;; ret None else
          modify (λ s, s <| d_pipes ::= <[page := Pipe false (replicate (Z.to_nat PIPESIZE) 0) 0 0 true true]> |>) ;;
          modfile f0 (λ x, x <| f_type := FD_PIPE |> <| f_readable := 1 |> <| f_writable := 0 |> <| f_pipe := page |>) ;;
          modfile f1 (λ x, x <| f_type := FD_PIPE |> <| f_readable := 0 |> <| f_writable := 1 |> <| f_pipe := page |>) ;;
          ret (Some (f0, f1))
      end
  end.

Section file.
Context (devread : Z → option (nat → Z → M fsys (Z * list Z))).
Context (devwrite : Z → option (nat → list Z → M fsys Z)).

Definition fileread (killed : bool) (f : nat) (n : Z) : M fsys (Z * list Z) :=
  x <- getfile f ;;
  if f_readable x =? 0 then ret (-1, []) else
  match f_type x with
  | FD_PIPE => piperead (f_pipe x) killed n
  | FD_INODE =>
      ilock (f_ip x) ;;
      i <- of_option "inode" (f_ip x) ;;
      r <- readi devread i (f_off x) (u32 n) ;;
      (if 0 <? r.1 then modfile f (λ x, x <| f_off ::= λ o, u32 (o + r.1) |>) else skip) ;;
      iunlock (f_ip x) ;;
      ret r
  | FD_NONE => panic "fileread"
  end.

(** [((MAXOPBLOCKS-1-1-2) / 2) * 512] *)
Definition write_max : Z := ((MAXOPBLOCKS - 1 - 1 - 2) / 2) * 512.

Definition filewrite (killed : bool) (f : nat) (addr : list Z) : M fsys Z :=
  x <- getfile f ;;
  if f_writable x =? 0 then ret (-1) else
  match f_type x with
  | FD_PIPE => pipewrite (f_pipe x) killed addr
  | FD_INODE =>
      let n := Z.of_nat (length addr) in
      loop (S (length addr)) (λ i,
        if i <? n then
          let n1 := if write_max <? n - i then write_max else n - i in
          begin_op ;;
          ilock (f_ip x) ;;
          ip <- of_option "inode" (f_ip x) ;;
          y <- getfile f ;;
          r <- writei devwrite ip (slice addr i n1) (f_off y) ;;
          (if 0 <? r then modfile f (λ x, x <| f_off ::= λ o, u32 (o + r) |>) else skip) ;;
          iunlock (f_ip x) ;;
          end_op ;;
          if r <? 0 then ret (inr (if i =? n then n else -1)) else
          if negb (r =? n1) then panic "short filewrite" else
          ret (inl (i + r))
        else ret (inr (if i =? n then n else -1))) 0
  | FD_NONE => panic "filewrite"
  end.

(** ** Swap files *)

(** [char path[DIGITS]], filled with the name of the swap file of [pid]. *)
Definition DIGITS := 14.
Definition swap_path_buf (pid : Z) : M fsys (list Z) :=
  let path := swap_path pid in
  if DIGITS <? Z.of_nat (length path) + 1 then undef "path[] overflows" else ret path.

Definition createSwapFile (cwd : option nat) (pid : Z) : M fsys nat :=
  path <- swap_path_buf pid ;;
  begin_op ;;
  i <- create devread devwrite cwd path T_FILE 0 0 ;;
  iunlock i ;;
  f <- filealloc ;;
  match f with
  | None => panic "no slot for files on /store"
  | Some f =>
      modfile f (λ x, x <| f_ip := i |> <| f_type := FD_INODE |> <| f_off := 0 |>
                        <| f_readable := 1 |> <| f_writable := 2 |>) ;;
      end_op ;;
      ret f
  end.

(** [removeSwapFile] of a process with a swap file; [Proc.removeSwapFile] tests
    [p->swapFile]. *)
Definition removeSwapFile (cwd : option nat) (pid : Z) (f : nat) : M fsys Z :=
  path <- swap_path_buf pid ;;
  fileclose f ;;
  unlink devread devwrite cwd path.

(** ** The file system as the rest of the kernel sees it *)

Definition to_ptr (i : nat) : Z := Z.of_nat i.

#[global] Instance fsys_FileSys : FileSys fsys := {
  fs_readi ip off n := readi devread (Z.to_nat ip) off n;
  fs_namei cwd path := r <- namei devread (Z.to_nat <$> cwd) path ;; ret (to_ptr <$> r);
  fs_ilock ip := ilock (Some (Z.to_nat ip));
  fs_iunlockput ip := iunlockput (Z.to_nat ip);
  fs_idup ip := i <- idup (Z.to_nat ip) ;; ret (to_ptr i);
  fs_iput ip := iput (Z.to_nat ip);
  fs_filedup f := g <- filedup (Z.to_nat f) ;; ret (to_ptr g);
  fs_fileclose f := fileclose (Z.to_nat f);
  fs_init := iinit ROOTDEV ;; initlog ROOTDEV;
  fs_begin_op := begin_op;
  fs_end_op := end_op;
  fs_createSwapFile pid := f <- createSwapFile None pid ;; ret (to_ptr f);
  fs_removeSwapFile pid f := removeSwapFile None pid (Z.to_nat f);
  fs_setoff f off := modfile (Z.to_nat f) (λ x, x <| f_off := off |>);
  fs_filewrite f bs := filewrite false (Z.to_nat f) bs;
  fs_fileread f n := fileread false (Z.to_nat f) n;
}.
End file.
