(* ===== verification/SwapFile.v ===== *)
(** Swap files on the file system.

    The memory manager saves pages with [filewrite] and gets them back with
    [fileread]; [SwapLaws] in [Machine] is what it relies on.  Here the file
    system of [src/fs.c], [src/log.c] and [src/bio.c] is shown to keep these
    laws: [swap_inv] is the invariant of a file system with open swap files,
    among them that the disk has room for all of them to grow to their full
    size, and writing or reading a page through [filewrite] and [fileread]
    stores or returns it and leaves the other swap files alone. *)

From S2P Require Import Prelude Memory Machine Disk Bio Log LogCrash Txn Fs Inode Bmap Rdwr Op File.
From stdpp Require Import options.
Implicit Types s : fsys.
Implicit Types V : Z → list Z.
Implicit Types sb : superblock.
Implicit Types ip : inode.
Implicit Types x : file.

(** ** Open swap files *)

(** [createSwapFile] opens its file with [readable] 1 and [writable] 2. *)
Definition is_swap x : Prop := f_type x = FD_INODE ∧ f_readable x = 1 ∧ f_writable x = 2.
#[global] Instance is_swap_dec x : Decision (is_swap x).
Proof. unfold is_swap. apply _. Defined.

Definition SWAP_BYTES : Z := MAX_SWAP_FILE_SZ * PGSIZE.
(** The blocks of a full swap file, with its indirect block. *)
Definition SWAP_BLOCKS : Z := cdiv SWAP_BYTES + 1.

(** File [g] is a swap file, on inode [i]. *)
Record sfile s (g : nat) x (i : nat) ip : Prop := {
  sf_file : d_files s !! g = Some x;
  sf_swap : is_swap x;
  sf_ip : f_ip x = Some i;
  sf_inode : d_inodes s !! i = Some ip;
}.

Record swap_inode V sb ip : Prop := {
  sn_ok : inode_ok V sb ip;
  sn_type : i_type ip ≠ T_DEV;
  sn_ref : 1 ≤ i_ref ip;
  sn_unlocked : i_locked ip = false;
  sn_valid : i_valid ip = true;
  sn_size : i_size ip ≤ SWAP_BYTES;
}.

(** The blocks a swap file may still need. *)
Definition need s x : Z :=
  if decide (is_swap x) then
    match f_ip x ≫= λ i, d_inodes s !! i with
    | Some ip => SWAP_BLOCKS - cdiv (i_size ip) - Z.of_nat (icnt ip)
    | None => 0
    end
  else 0.

Record swap_inv s : Prop := {
  si_idle : idle s;
  si_volume : volume (view s) (d_sb s);
  si_open g x : d_files s !! g = Some x → is_swap x → ∃ i ip, sfile s g x i ip;
  si_inode g x i ip : sfile s g x i ip → swap_inode (view s) (d_sb s) ip;
  si_apart g h x y i j ip jp : sfile s g x i ip → sfile s h y j jp → g ≠ h →
    i ≠ j ∧ ∀ k, owns (view s) ip k → ¬ owns (view s) jp k;
  si_space : zsum (need s) (d_files s) ≤ Z.of_nat (size (free_blocks (view s) (d_sb s)));
}.

Lemma icnt_le ip : (icnt ip ≤ 1)%nat.
Proof. unfold icnt. case_match; lia. Qed.

Lemma need_sfile s g x i ip : sfile s g x i ip → need s x = SWAP_BLOCKS - cdiv (i_size ip) - Z.of_nat (icnt ip).
Proof. intros [S1 S2 S3 S4]. unfold need. rewrite decide_True by done. by rewrite S3; simpl; rewrite S4. Qed.

Lemma need_pos s : swap_inv s → ∀ g x, d_files s !! g = Some x → 0 ≤ need s x.
Proof.
  intros H g x Hx. destruct (decide (is_swap x)) as [Hs|Hs]; [|unfold need; by rewrite decide_False].
  destruct (si_open s H g x Hx Hs) as (i & ip & Sf). rewrite (need_sfile _ _ _ _ _ Sf).
  pose proof (sn_size _ _ _ (si_inode _ H _ _ _ _ Sf)) as Hsz. pose proof (cdiv_mono _ _ Hsz). pose proof (icnt_le ip).
  unfold SWAP_BLOCKS. lia.
Qed.

(** A swap file has room to grow. *)
Lemma swap_room s g x i ip : swap_inv s → sfile s g x i ip →
  SWAP_BLOCKS ≤ cdiv (i_size ip) + Z.of_nat (icnt ip) + Z.of_nat (size (free_blocks (view s) (d_sb s))).
Proof.
  intros H Sf. pose proof (zsum_ge (need s) (d_files s) g x (sf_file _ _ _ _ _ Sf) (need_pos s H)) as Hge.
  rewrite (need_sfile _ _ _ _ _ Sf) in Hge. pose proof (si_space s H). lia.
Qed.

(** ** One swap file changes *)

(** File [f] is now [x'] and its inode [ip']; the other swap files are the same. *)
Record swap_step s s' (f : nat) x' (i : nat) ip' : Prop := {
  ss_inv : swap_inv s';
  ss_file : sfile s' f x' i ip';
  ss_other g y j jp : g ≠ f → sfile s g y j jp → sfile s' g y j jp ∧ content (view s') jp = content (view s) jp;
}.

Section update.
Context (s s' : fsys) (f : nat) (x : file) (i : nat) (ip : inode) (x' : file) (ip' : inode).
Context (Hinv : swap_inv s) (Hf : sfile s f x i ip) (Hidle : idle s') (Hvol : volume (view s') (d_sb s)).
Context (Hsb : d_sb s' = d_sb s) (Hfiles : d_files s' = <[f := x']> (d_files s)) (Hinodes : d_inodes s' = <[i := ip']> (d_inodes s)).
Context (Hx' : is_swap x') (Hip : f_ip x' = Some i) (Hok : swap_inode (view s') (d_sb s) ip').
Context (Hother : ∀ jp, inode_ok (view s) (d_sb s) jp → (∀ k, owns (view s) ip k → ¬ owns (view s) jp k) →
  inode_ok (view s') (d_sb s) jp ∧ (∀ k, owns (view s') jp k ↔ owns (view s) jp k) ∧ content (view s') jp = content (view s) jp ∧
  (∀ k, owns (view s') ip' k → ¬ owns (view s') jp k)).
Context (Hfree : Z.of_nat (size (free_blocks (view s) (d_sb s))) + Z.of_nat (icnt ip) + cdiv (i_size ip) ≤
  Z.of_nat (size (free_blocks (view s') (d_sb s))) + Z.of_nat (icnt ip') + cdiv (i_size ip')).

#[local] Lemma upd_self : sfile s' f x' i ip'.
Proof using Hf Hfiles Hinodes Hx' Hip.
  destruct Hf as [S1 S2 S3 S4]. split; try done; [rewrite Hfiles|rewrite Hinodes]; by eapply lookup_insert_self.
Qed.

#[local] Lemma upd_fwd g y j jp : g ≠ f → sfile s g y j jp → sfile s' g y j jp.
Proof using Hinv Hf Hfiles Hinodes.
  intros Hg Sg. destruct (si_apart s Hinv _ _ _ _ _ _ _ _ Sg Hf Hg) as [Hij _]. destruct Sg as [S1 S2 S3 S4].
  split; try done; [rewrite Hfiles|rewrite Hinodes]; by rewrite list_lookup_insert_ne.
Qed.

#[local] Lemma upd_bwd g y j jp : g ≠ f → sfile s' g y j jp → sfile s g y j jp.
Proof using Hinv Hf Hfiles Hinodes.
  intros Hg [S1 S2 S3 S4]. rewrite Hfiles, list_lookup_insert_ne in S1 by done.
  destruct (si_open s Hinv g y S1 S2) as (j' & jp' & Sg). assert (j' = j) as -> by (pose proof (sf_ip _ _ _ _ _ Sg); congruence).
  destruct (si_apart s Hinv _ _ _ _ _ _ _ _ Sg Hf Hg) as [Hij _]. rewrite Hinodes, list_lookup_insert_ne in S4 by done. by split.
Qed.

#[local] Lemma upd_keep g y j jp : g ≠ f → sfile s g y j jp →
  inode_ok (view s') (d_sb s) jp ∧ (∀ k, owns (view s') jp k ↔ owns (view s) jp k) ∧ content (view s') jp = content (view s) jp ∧
  (∀ k, owns (view s') ip' k → ¬ owns (view s') jp k).
Proof using Hinv Hf Hother.
  intros Hg Sg. apply Hother; [apply (si_inode s Hinv _ _ _ _ Sg)|].
  by destruct (si_apart s Hinv _ _ _ _ _ _ _ _ Hf Sg (not_eq_sym Hg)).
Qed.

#[local] Lemma upd_need : zsum (need s) (d_files s) = zsum (need s') (d_files s') + need s x - need s' x'.
Proof using Hinv Hf Hfiles Hinodes Hx' Hip.
  apply (zsum_change _ _ _ _ f); [by rewrite Hfiles, length_insert|apply Hf|apply upd_self|].
  intros h y y' Hh Hy Hy'. rewrite Hfiles, list_lookup_insert_ne in Hy' by done. simplify_eq.
  destruct (decide (is_swap y)) as [Hs|Hs]; [|unfold need; by rewrite !decide_False].
  destruct (si_open s Hinv h y Hy Hs) as (j & jp & Sg). rewrite (need_sfile _ _ _ _ _ Sg). by eapply need_sfile, upd_fwd.
Qed.

Lemma swap_inv_update : swap_step s s' f x' i ip'.
Proof using All.
  split; [|apply upd_self|intros g y j jp Hg Sg; split; [by apply upd_fwd|by apply (upd_keep g y j jp)]]. split; rewrite ?Hsb; try done.
  - intros g y Hy Hs. destruct (decide (g = f)) as [->|Hg].
    + exists i, ip'. pose proof upd_self as U. pose proof (sf_file _ _ _ _ _ U). by simplify_eq.
    + rewrite Hfiles, list_lookup_insert_ne in Hy by done. destruct (si_open s Hinv g y Hy Hs) as (j & jp & Sg). exists j, jp. by apply upd_fwd.
  - intros g y j jp Sg. destruct (decide (g = f)) as [->|Hg].
    + assert (jp = ip') as ->; [|done]. destruct Sg as [S1 S2 S3 S4], upd_self as [U1 U2 U3 U4]. congruence.
    + pose proof (upd_bwd g y j jp Hg Sg) as Sg0. destruct (upd_keep g y j jp Hg Sg0) as (K1 & _). destruct (si_inode s Hinv _ _ _ _ Sg0). by split.
  - intros g h y z j k jp kp Sg Sh Hgh. destruct (decide (g = f)) as [->|Hg]; [|destruct (decide (h = f)) as [->|Hh]].
    + pose proof (upd_bwd h z k kp (not_eq_sym Hgh) Sh) as Sh0. destruct (upd_keep h z k kp (not_eq_sym Hgh) Sh0) as (_ & _ & _ & K4).
      destruct (si_apart s Hinv _ _ _ _ _ _ _ _ Hf Sh0 Hgh) as [Hij _].
      destruct Sg as [S1 S2 S3 S4], upd_self as [U1 U2 U3 U4]. assert (j = i) as -> by congruence. assert (jp = ip') as -> by congruence. done.
    + pose proof (upd_bwd g y j jp Hg Sg) as Sg0. destruct (upd_keep g y j jp Hg Sg0) as (_ & _ & _ & K4).
      destruct (si_apart s Hinv _ _ _ _ _ _ _ _ Sg0 Hf Hg) as [Hij _].
      destruct Sh as [S1 S2 S3 S4], upd_self as [U1 U2 U3 U4]. assert (k = i) as -> by congruence. assert (kp = ip') as -> by congruence.
      split; [done|]. intros b Hb Hb'. by apply (K4 b).
    + pose proof (upd_bwd g y j jp Hg Sg) as Sg0. pose proof (upd_bwd h z k kp Hh Sh) as Sh0.
      destruct (upd_keep g y j jp Hg Sg0) as (_ & Kg & _). destruct (upd_keep h z k kp Hh Sh0) as (_ & Kh & _).
      destruct (si_apart s Hinv _ _ _ _ _ _ _ _ Sg0 Sh0 Hgh) as [Hij Hd]. split; [done|]. intros b Hb%Kg Hb'%Kh. by apply (Hd b).
  - pose proof upd_need as Hn. rewrite (need_sfile _ _ _ _ _ Hf), (need_sfile _ _ _ _ _ upd_self) in Hn. pose proof (si_space s Hinv). lia.
Qed.
End update.

(** ** Writing a chunk *)

Lemma wp_getfile f x (Q : file → fsys → Prop) s : d_files s !! f = Some x → Q x s → wp (getfile f) Q s.
Proof. intros Hf HQ. unfold getfile. apply wp_bind, wp_gets. by eapply wp_of_option. Qed.
Lemma wp_modfile f g x (Q : unit → fsys → Prop) s :
  d_files s !! f = Some x → Q tt (s <| d_files ::= <[f := g x]> |>) → wp (modfile f g) Q s.
Proof. intros Hf HQ. unfold modfile. apply wp_bind. eapply wp_getfile; [done|]. by apply wp_modify. Qed.

Lemma inode_ok_locked V sb ip b : inode_ok V sb ip → inode_ok V sb (ip <| i_locked := b |>).
Proof. intros [I1 I2 I3 I4 I5 I6 I7]. by split. Qed.

Lemma nblocks_chunk off n : 0 < n ≤ write_max → nblocks off n ≤ 4.
Proof.
  intros Hn. change write_max with 1536 in Hn. unfold nblocks.
  assert ((off + n - 1) / BSIZE ≤ off / BSIZE + 3); [|lia]. rewrite <-Z.div_add by done. apply Z.div_le_mono; [done|]. unfold BSIZE. lia.
Qed.

Lemma chunk_home i off src s2 ipl s3 ip3 :
  iready s2 i ipl → logged s2 = ∅ → written s2 i ipl off src s3 ip3 → ∀ k, k ∈ logged s3 → sb_inodestart (d_sb s2) ≤ k < FSSIZE.
Proof.
  intros R Lg Wd k Hk. pose proof (ir_volume _ _ _ R) as Hv. pose proof (layout_pos _ (vo_layout _ _ Hv)) as Hl.
  destruct (wd_frame _ _ _ _ _ _ _ Wd) as (W & F & HW). pose proof (tf_logged _ _ _ _ F k Hk) as Hk'. rewrite Lg in Hk'.
  pose proof (IBLOCK_range _ _ (vo_layout _ _ Hv) (io_inum _ _ _ (ir_inode _ _ _ R))).
  destruct (HW k) as [->|[->|Ho]]; [set_solver|lia|lia|]. pose proof (ir_inode _ _ _ (wd_ready _ _ _ _ _ _ _ Wd)) as Hi.
  destruct (owns_data _ _ _ _ Hi Ho) as [Hd _]. rewrite (tf_sb _ _ _ _ F) in Hd. lia.
Qed.

Section chunk.
Context (devwrite : Z → option (nat → list Z → M fsys Z)).
Context (s : fsys) (f : nat) (x : file) (i : nat) (ip : inode) (src : list Z).
Context (Hinv : swap_inv s) (Hf : sfile s f x i ip).
Context (Hoff : 0 ≤ f_off x ≤ i_size ip) (Hlen : 0 < Z.of_nat (length src) ≤ write_max).
Context (Hmax : f_off x + Z.of_nat (length src) ≤ SWAP_BYTES).
#[local] Abbreviation n := (Z.of_nat (length src)).
#[local] Abbreviation off := (f_off x).

(** The inode is locked in a transaction: [writei] may run. *)
Lemma chunk_ready s1 :
  tx s1 ∅ → op_log s1 → logged s1 = ∅ → same_view (view s1) (view s) → op_rest s s1 →
  let ipl := ip <| i_locked := true |> in let s2 := s1 <| d_inodes ::= <[i := ipl]> |> in
  iready s2 i ipl ∧ write_room s2 ipl off n ∧ tx_frame ∅ s1 s2 ∅ ∧ same_view (view s2) (view s).
Proof using Hinv Hf Hoff Hlen Hmax.
  intros T Ol Lg Vw R ipl s2. destruct (si_inode s Hinv _ _ _ _ Hf) as [N1 N2 N3 N4 N5 N6].
  destruct (tx_inodes (<[i := ipl]>) s1 ∅ T) as [T2 F2]. fold s2 in T2, F2.
  assert (same_view (view s2) (view s)) as V2 by (etrans; [by eapply frame_view|done]).
  assert (d_sb s2 = d_sb s) as Esb by apply R.
  assert (d_inodes s2 !! i = Some ipl) as Hi.
  { unfold s2. simpl. eapply lookup_insert_self. rewrite (or_inodes _ _ R). apply Hf. }
  split_and!; [|split| |done].
  - split; rewrite ?V2, ?Esb; [done|apply Hinv|by apply inode_ok_locked|done].
  - eapply in_op_frame; [exact F2|]. by apply op_log_op.
  - right. rewrite V2, Esb. pose proof (swap_room s f x i ip Hinv Hf) as Hr. change (icnt ipl) with (icnt ip).
    unfold new_blocks. change (i_size ipl) with (i_size ip). pose proof (cdiv_mono _ _ Hmax). pose proof (cdiv_mono _ _ N6). unfold SWAP_BLOCKS in *. lia.
  - rewrite (frame_logged _ _ _ F2), Lg, union_empty_r_L, size_singleton. pose proof (nblocks_chunk off n Hlen). unfold MAXOPBLOCKS. lia.
  - done.
Qed.

(** The end of the transaction, in which file and inode are put back. *)
Lemma chunk_done s2 ip3 s3 s5 s6 :
  let ipl := ip <| i_locked := true |> in let ip' := ip3 <| i_locked := false |> in let x' := x <| f_off := off + n |> in
  iready s2 i ipl → same_view (view s2) (view s) → d_sb s2 = d_sb s → d_inodes s2 = <[i := ipl]> (d_inodes s) → d_files s2 = d_files s →
  written s2 i ipl off src s3 ip3 →
  same_view (view s5) (view s3) → d_sb s5 = d_sb s3 → d_files s5 = <[f := x']> (d_files s3) → d_inodes s5 = <[i := ip']> (d_inodes s3) →
  idle s6 → agree (d_sb s5) (view s5) (view s6) → op_rest s5 s6 →
  swap_step s s6 f x' i ip' ∧ content (view s6) ip' = splice (content (view s) ip) off src ∧
  i_size ip' = Z.max (i_size ip) (off + n).
Proof using Hinv Hf Hoff Hlen Hmax.
  intros ipl ip' x' R2 V2 Sb2 I2 Fl2 Wd V5 Sb5 Fl5 I5 Id6 A6 R6. destruct (si_inode s Hinv _ _ _ _ Hf) as [N1 N2 N3 N4 N5 N6].
  destruct (wd_frame _ _ _ _ _ _ _ Wd) as (W & F & _). pose proof (tf_sb _ _ _ _ F) as Sb3.
  pose proof (wd_ready _ _ _ _ _ _ _ Wd) as [W1 W2 W3 W4]. pose proof (wd_ip _ _ _ _ _ _ _ Wd) as Eip.
  assert (d_sb s5 = d_sb s) as E5 by congruence. assert (d_sb s3 = d_sb s) as E3 by congruence. rewrite E5 in A6. rewrite E3 in *.
  assert (volume (view s5) (d_sb s)) as Vo5 by (by rewrite V5).
  destruct (agree_keeps (d_sb s) (view s5) (view s6) Vo5 (λ k, length_view s6 k (tx_cache _ _ (id_tx _ Id6))) A6) as (Vo6 & Fr6 & K6).
  assert (i_size ip' = Z.max (i_size ip) (off + n)) as Esz by (unfold ip'; rewrite Eip; done).
  assert (inode_ok (view s5) (d_sb s) ip') as Hok5 by (rewrite V5; by apply inode_ok_locked).
  destruct (K6 ip' Hok5) as (Hok6 & Own6 & Con6). rewrite Sb2 in *.
  assert (content (view s6) ip' = splice (content (view s) ip) off src) as Hc.
  { rewrite Con6. transitivity (content (view s3) ip3).
    - by rewrite V5.
    - rewrite (wd_content _ _ _ _ _ _ _ Wd). f_equal. by rewrite V2. }
  split_and!; [|done|done].
  apply (swap_inv_update s s6 f x i ip x' ip'); try done.
  - rewrite (or_sb _ _ R6). done.
  - rewrite (or_files _ _ R6), Fl5, (tf_files _ _ _ _ F). by rewrite Fl2.
  - rewrite (or_inodes _ _ R6), I5, (wd_inodes _ _ _ _ _ _ _ Wd), I2. by rewrite !list_insert_insert_eq.
  - destruct (sf_swap _ _ _ _ _ Hf) as (? & ? & ?). by split_and!.
  - apply Hf.
  - split; [done|unfold ip'; rewrite Eip; done..|]. rewrite Esz. lia.
  - intros jp Hj Hd. assert (inode_ok (view s2) (d_sb s2) jp) as Hj2 by (by rewrite V2, Sb2).
    destruct (written_other _ _ _ _ _ _ _ jp Wd R2 Hj2) as (O1 & O2 & O3 & O4); [intros k; rewrite V2; apply Hd|].
    rewrite Sb2 in O1. destruct (K6 jp) as (P1 & P2 & P3); [by rewrite V5|]. setoid_rewrite V5 in P2. setoid_rewrite V2 in O2.
    split_and!; [done|intros k; by rewrite P2, O2|by rewrite P3, V5, O3, V2|].
    intros k Hk Hk'. apply Own6 in Hk. apply P2 in Hk'. rewrite V5 in Hk. by apply (O4 k).
  - destruct (wd_free _ _ _ _ _ _ _ Wd) as [_ Hfr]. rewrite Sb2, V2 in Hfr. rewrite Fr6, V5. change (icnt ip') with (icnt ip3).
    change (i_size ip') with (i_size ip3). exact Hfr.
Qed.

Lemma u32_off : u32 (off + n) = off + n.
Proof using Hoff Hlen Hmax.
  unfold u32. apply Z.mod_small. change SWAP_BYTES with 69632 in Hmax. lia.
Qed.

(** One round of the loop of [filewrite]. *)
Lemma chunk_spec {A} (K : Z → M fsys A) (Q : A → fsys → Prop) :
  (∀ s' ip', swap_step s s' f (x <| f_off := off + n |>) i ip' → content (view s') ip' = splice (content (view s) ip) off src →
     i_size ip' = Z.max (i_size ip) (off + n) → wp (K n) Q s') →
  wp (begin_op ;;
      ilock (Some i) ;;
      j <- of_option "inode" (Some i) ;;
      y <- getfile f ;;
      r <- writei devwrite j src (f_off y) ;;
      (if 0 <? r then modfile f (λ x, x <| f_off ::= λ o, u32 (o + r) |>) else skip) ;;
      iunlock (Some i) ;;
      end_op ;;
      K r) Q s.
Proof using Hinv Hf Hoff Hlen Hmax.
  intros HK. destruct (si_inode s Hinv _ _ _ _ Hf) as [N1 N2 N3 N4 N5 N6]. set (ipl := ip <| i_locked := true |>).
  apply wp_bind. eapply wp_mono; [apply begin_op_spec, Hinv|]. intros [] s1 (T1 & O1 & L1 & V1 & R1).
  destruct (chunk_ready s1 T1 O1 L1 V1 R1) as (Rd2 & Rm2 & F2 & V2). fold ipl in Rd2, Rm2, F2, V2.
  assert (d_inodes s1 !! i = Some ip) as Hi1 by (rewrite (or_inodes _ _ R1); apply Hf).
  apply wp_bind. eapply wp_mono; [by apply (ilock_spec s1 i ip)|]. intros [] s2 ->. fold ipl. set (s2 := s1 <| d_inodes ::= _ |>) in *.
  apply wp_bind. eapply wp_of_option; [done|]. apply wp_bind.
  assert (d_files s2 = d_files s) as Fl2 by apply R1. eapply wp_getfile; [rewrite Fl2; apply Hf|].
  apply wp_bind. eapply wp_mono; [eapply (writei_spec s2 i ipl off src); [done|done|done| |done]|].
  { rewrite MAXFILE_eq. change SWAP_BYTES with 69632 in Hmax. unfold BSIZE. lia. }
  intros r s3 (-> & ip3 & Wd). destruct (Z.ltb_spec 0 n); [|lia]. destruct (wd_frame _ _ _ _ _ _ _ Wd) as (W & F3 & _).
  apply wp_bind. eapply wp_modfile; [rewrite (tf_files _ _ _ _ F3), Fl2; apply Hf|]. set (s4 := s3 <| d_files ::= _ |>).
  pose proof (wd_ready _ _ _ _ _ _ _ Wd) as Rd3. pose proof (wd_ip _ _ _ _ _ _ _ Wd) as Eip.
  apply wp_bind. eapply wp_mono; [apply (iunlock_spec s4 i ip3); [apply Rd3|by rewrite Eip|by rewrite Eip]|].
  intros [] s5 E5. assert (cache_same s3 s5) as C5 by (by subst s5). assert (d_log s5 = d_log s3) as El5 by (by subst s5).
  assert (tx s5 ∅) as T5.
  { apply (tx_same s3); rewrite ?El5; try done; [apply Rd3|]. subst s5. apply (tx_loglock _ _ (ir_tx _ _ _ Rd3)). }
  assert (logged s5 = logged s3) as Lg5 by (unfold logged, logged_list; by rewrite El5).
  assert (d_sb s5 = d_sb s2) as Sb5 by (subst s5; apply (tf_sb _ _ _ _ F3)).
  assert (logged s2 = ∅) as Lg2 by (by rewrite (frame_logged _ _ _ F2)).
  apply wp_bind. eapply wp_mono; [apply (end_op_spec s5); [done| | |]|].
  - assert (op_log s3) as O3 by (eapply op_log_frame; [exact F3|]; eapply op_log_frame; [exact F2|done]).
    destruct O3 as [P1 P2 P3 P4 P5]. split; rewrite ?El5; try done; subst s5; done.
  - rewrite Sb5. apply Rd2.
  - rewrite Lg5, Sb5. by eapply chunk_home.
  - intros [] s6 (Id6 & A6 & R6). destruct (chunk_done s2 ip3 s3 s5 s6) as (St & Ct & Sz); try done.
    + apply R1.
    + unfold s2. simpl. by rewrite (or_inodes _ _ R1).
    + by apply cache_same_view.
    + by subst s5.
    + subst s5. simpl. unfold upd. by rewrite u32_off.
    + by subst s5.
    + by eapply HK.
Qed.
End chunk.

(** ** filewrite *)

Lemma swap_step_refl s f x i ip : swap_inv s → sfile s f x i ip → swap_step s s f x i ip.
Proof. intros H Sf. by split. Qed.
Lemma swap_step_trans s1 s2 s3 f x2 x3 i ip2 ip3 :
  swap_step s1 s2 f x2 i ip2 → swap_step s2 s3 f x3 i ip3 → swap_step s1 s3 f x3 i ip3.
Proof.
  intros [_ _ A] [B1 B2 B]. split; try done. intros g y j jp Hg Sg. destruct (A g y j jp Hg Sg) as [Sg2 C2].
  destruct (B g y j jp Hg Sg2) as [Sg3 C3]. split; [done|congruence].
Qed.

Lemma splice_nil (l : list Z) o : splice l o [] = l.
Proof. unfold splice. simpl. rewrite Nat.add_0_r. apply take_drop. Qed.
Lemma splice_app (l : list Z) o a b :
  0 ≤ o ≤ Z.of_nat (length l) → splice (splice l o a) (o + Z.of_nat (length a)) b = splice l o (a ++ b).
Proof.
  intros Ho. unfold splice. rewrite Z2Nat.inj_add, Nat2Z.id by lia.
  assert (length (take (Z.to_nat o) l) = Z.to_nat o) as Ht by (rewrite length_take; lia).
  rewrite take_app_ge by lia. rewrite Ht. replace (Z.to_nat o + length a - Z.to_nat o)%nat with (length a) by lia.
  rewrite take_app_length. rewrite drop_app_ge by lia. rewrite Ht, drop_app_ge by lia. rewrite drop_drop, length_app.
  rewrite <-!app_assoc. do 4 f_equal. lia.
Qed.

Section filewrite.
Context (devwrite : Z → option (nat → list Z → M fsys Z)).
Context (s0 : fsys) (f : nat) (x0 : file) (i : nat) (ip0 : inode) (bs : list Z).
Context (Hinv : swap_inv s0) (Hf : sfile s0 f x0 i ip0).
Context (Hoff : 0 ≤ f_off x0 ≤ i_size ip0) (Hmax : f_off x0 + Z.of_nat (length bs) ≤ SWAP_BYTES).
#[local] Abbreviation n := (Z.of_nat (length bs)).
#[local] Abbreviation off := (f_off x0).

(** [k] bytes have been written. *)
Definition fw_done (k : Z) (s : fsys) : Prop :=
  ∃ x ip, swap_step s0 s f x i ip ∧ f_off x = off + k ∧ 0 ≤ k ≤ n ∧
    content (view s) ip = splice (content (view s0) ip0) off (slice bs 0 k) ∧ i_size ip = Z.max (i_size ip0) (off + k).

Lemma fw_init : fw_done 0 s0.
Proof using Hinv Hf Hoff.
  clear Hmax. exists x0, ip0. split_and!; [by apply swap_step_refl|lia..| |lia]. change (slice bs 0 0) with (@nil Z). by rewrite splice_nil.
Qed.

Lemma fw_next k s n1 x ip s' ip' :
  swap_step s0 s f x i ip → f_off x = off + k → 0 ≤ k → 0 < n1 → k + n1 ≤ n →
  content (view s) ip = splice (content (view s0) ip0) off (slice bs 0 k) → i_size ip = Z.max (i_size ip0) (off + k) →
  swap_step s s' f (x <| f_off := f_off x + n1 |>) i ip' →
  content (view s') ip' = splice (content (view s) ip) (f_off x) (slice bs k n1) → i_size ip' = Z.max (i_size ip) (f_off x + n1) →
  fw_done (k + n1) s'.
Proof using Hoff.
  clear Hmax Hinv Hf. intros S1 Eo Hk Hn1 Hle C1 Z1 S2 C2 Z2. exists (x <| f_off := f_off x + n1 |>), ip'.
  split_and!; [by eapply swap_step_trans|simpl; lia|lia|lia| |lia].
  rewrite C2, C1, Eo. replace (off + k) with (off + Z.of_nat (length (slice bs 0 k))) by (rewrite length_slice; lia).
  rewrite splice_app by (rewrite length_content; lia). f_equal. rewrite <-(slice_app bs 0 k n1) by lia. by rewrite Z.add_0_l.
Qed.

Lemma filewrite_spec :
  wp (filewrite devwrite false f bs) (λ r s, r = n ∧ fw_done n s) s0.
Proof using Hinv Hf Hoff Hmax.
  pose proof Hf as [F1 F2 F3 F4]. unfold filewrite. apply wp_bind. eapply wp_getfile; [done|]. destruct F2 as (Ety & Er & Ew).
  rewrite Ew, Ety. change (2 =? 0) with false. cbv iota. rewrite F3.
  apply (wp_loop fw_done (λ k, Z.to_nat (n - k)) (λ r s, r = n ∧ fw_done n s)); [apply fw_init|lia|].
  intros k s (x & ip & St & Eo & Hk & Ct & Sz). destruct (Z.ltb_spec k n) as [Hlt|Hge].
  - set (n1 := if write_max <? n - k then write_max else n - k).
    assert (0 < n1 ≤ write_max ∧ k + n1 ≤ n) as [Hn1 Hn2].
    { unfold n1. change write_max with 1536. destruct (Z.ltb_spec 1536 (n - k)); lia. }
    pose proof (length_slice bs k n1 ltac:(lia) ltac:(lia) ltac:(lia)) as Hl.
    eapply (chunk_spec devwrite s f x i ip (slice bs k n1)); [apply St|apply St|lia|by rewrite Hl|rewrite Hl; lia|].
    rewrite Hl. intros s' ip' St' Ct' Sz'. destruct (Z.ltb_spec n1 0); [lia|]. rewrite Z.eqb_refl. simpl. apply wp_ret. split; [|lia].
    by eapply (fw_next k s n1 x ip s' ip'); try lia.
  - apply wp_ret. assert (k = n) as -> by lia. rewrite Z.eqb_refl. split; [done|]. by exists x, ip.
Qed.
End filewrite.

(** ** fileread *)

Lemma idle_same s s' :
  idle s → cache_same s s' → d_log s' = d_log s → d_sb s' = d_sb s → d_log_lock s' = false → idle s'.
Proof. intros [T J2 J3 J4 J5 J6 J7] C L Sb LL. split; rewrite ?L, ?Sb; try done. apply (tx_same s); rewrite ?L; done. Qed.
Lemma idle_frame s s' : idle s → tx s' ∅ → tx_frame ∅ s s' ∅ → idle s'.
Proof.
  intros [T J2 J3 J4 J5 J6 J7] T' F. pose proof (tf_log _ _ _ _ F) as L.
  assert (lh_n (d_log s') = 0) as N by (rewrite (length_logged _ _ T'), (frame_logged _ _ _ F), <-(length_logged _ _ T); done).
  split; rewrite ?(tf_sb _ _ _ _ F); try done; rewrite L; by destruct (d_log s).
Qed.

(** A swap file and the lock of its inode are touched; its contents are not. *)
Lemma swap_touch s s' f x i ip x' :
  swap_inv s → sfile s f x i ip → idle s' → same_view (view s') (view s) → d_sb s' = d_sb s →
  d_files s' = <[f := x']> (d_files s) → d_inodes s' = <[i := ip]> (d_inodes s) → is_swap x' → f_ip x' = Some i →
  swap_step s s' f x' i ip ∧ content (view s') ip = content (view s) ip.
Proof.
  intros H Sf Id V Sb Fl I Sx Ix. split; [|by rewrite V].
  apply (swap_inv_update s s' f x i ip x' ip); try done.
  - rewrite V. apply H.
  - destruct (si_inode s H _ _ _ _ Sf) as [N1 N2 N3 N4 N5 N6]. split; try done. by rewrite V.
  - intros jp Hj Hd. split_and!; [by rewrite V|intros k; by rewrite V|by rewrite V|]. intros k. rewrite !V. apply Hd.
  - by rewrite V.
Qed.

Lemma setoff_spec s f x i ip off :
  swap_inv s → sfile s f x i ip →
  wp (modfile f (λ x, x <| f_off := off |>)) (λ _ s', swap_step s s' f (x <| f_off := off |>) i ip ∧
    content (view s') ip = content (view s) ip) s.
Proof.
  intros H Sf. eapply wp_modfile; [apply Sf|].
  apply (swap_touch s _ f x); try done; [by apply (idle_same s); [apply H|..|apply (si_idle s H)]|by rewrite list_insert_id by apply Sf| |apply Sf].
  destruct (sf_swap _ _ _ _ _ Sf) as (? & ? & ?). by split_and!.
Qed.

(** The end of [fileread]: the offset advances and the inode is unlocked. *)
Lemma fileread_end s s2 f x i ip (r : Z * list Z) :
  let ipl := ip <| i_locked := true |> in
  swap_inv s → sfile s f x i ip → idle s2 → same_view (view s2) (view s) → d_sb s2 = d_sb s → d_files s2 = d_files s →
  d_inodes s2 = <[i := ipl]> (d_inodes s) →
  wp ((if 0 <? r.1 then modfile f (λ x, x <| f_off ::= λ o, u32 (o + r.1) |>) else skip) ;; iunlock (Some i) ;; ret r)
    (λ r' s', r' = r ∧ ∃ x', swap_step s s' f x' i ip ∧ content (view s') ip = content (view s) ip) s2.
Proof.
  intros ipl H Sf Id V Sb Fl I. pose proof Sf as [F1 (Ety & Er & Ew) F3 F4]. destruct (si_inode s H _ _ _ _ Sf) as [N1 N2 N3 N4 N5 N6].
  assert (∀ x' s3, cache_same s2 s3 → d_log s3 = d_log s2 → d_log_lock s3 = d_log_lock s2 → d_sb s3 = d_sb s2 →
    d_files s3 = <[f := x']> (d_files s) → d_inodes s3 = d_inodes s2 → is_swap x' → f_ip x' = Some i →
    wp (iunlock (Some i) ;; ret r) (λ r' s', r' = r ∧ ∃ x', swap_step s s' f x' i ip ∧ content (view s') ip = content (view s) ip) s3) as Hend.
  { intros x' s3 C3 L3 LL3 Sb3 Fl3 I3 Sx Ix. apply wp_bind.
    eapply wp_mono; [apply (iunlock_spec s3 i ipl); [rewrite I3, I; by eapply lookup_insert_self|done|done]|].
    intros [] s4 E4. apply wp_ret. split; [done|]. exists x'. apply (swap_touch s s4 f x); try done.
    - apply (idle_same s2); subst s4; try done; [by destruct C3; split|]. simpl. rewrite LL3. apply (tx_loglock _ _ (id_tx _ Id)).
    - etrans; [apply (cache_same_view s2)|done]. subst s4. by destruct C3; split.
    - subst s4. simpl. congruence.
    - by subst s4.
    - subst s4. simpl. unfold upd. rewrite I3, I, list_insert_insert_eq. f_equal. by destruct ip; simpl in *; subst. }
  apply wp_bind. destruct (0 <? r.1).
  - eapply wp_modfile; [by rewrite Fl|]. apply (Hend (x <| f_off ::= λ o, u32 (o + r.1) |>)); try done. simpl. by rewrite Fl.
  - apply wp_ret. apply (Hend x); try done. by rewrite Fl, list_insert_id.
Qed.

Lemma fileread_spec devread s f x i ip n :
  swap_inv s → sfile s f x i ip → 0 ≤ f_off x ≤ i_size ip → 0 ≤ n < 2 ^ 31 → let n' := Z.min n (i_size ip - f_off x) in
  wp (fileread devread false f n) (λ r s', r = (n', slice (content (view s) ip) (f_off x) n') ∧
    ∃ x', swap_step s s' f x' i ip ∧ content (view s') ip = content (view s) ip) s.
Proof.
  intros H Sf Hoff Hn n'. pose proof Sf as [F1 (Ety & Er & Ew) F3 F4]. destruct (si_inode s H _ _ _ _ Sf) as [N1 N2 N3 N4 N5 N6].
  unfold fileread. apply wp_bind. eapply wp_getfile; [done|]. rewrite Er, Ety. change (1 =? 0) with false. cbv iota. rewrite F3.
  apply wp_bind. eapply wp_mono; [by apply (ilock_spec s i ip)|]. intros [] s1 ->. set (ipl := ip <| i_locked := true |>). set (s1 := s <| d_inodes ::= _ |>).
  destruct (tx_inodes (<[i := ipl]>) s ∅ (id_tx _ (si_idle s H))) as [T1 Fr1]. fold s1 in T1, Fr1. pose proof (frame_view _ _ _ Fr1) as V1.
  assert (iready s1 i ipl) as R1.
  { split; [done|rewrite V1; apply H|rewrite V1; by apply inode_ok_locked|by eapply lookup_insert_self]. }
  apply wp_bind. eapply wp_of_option; [done|]. apply wp_bind. change SWAP_BYTES with 69632 in N6.
  assert (u32 n = n) as -> by (unfold u32; apply Z.mod_small; lia).
  eapply wp_mono; [apply (readi_spec devread s1 i ipl (f_off x) n R1 N2 Hoff); lia|].
  change (i_size ipl) with (i_size ip). fold n'. intros r s2 (-> & R2 & Fr2 & I2).
  assert (d_files s2 = d_files s) as Fl2 by apply (tf_files _ _ _ _ Fr2).
  assert (tx_frame ∅ s s2 ∅) as Fr by (by eapply frame_trans_same). pose proof (frame_view _ _ _ Fr) as V2.
  assert (content (view s1) ipl = content (view s) ip) as -> by (by rewrite V1).
  apply (fileread_end s s2 f x i ip (n', _)); try done; [by apply (idle_frame s); [apply H|apply R2|]|by apply (tf_sb _ _ _ _ Fr)].
Qed.

(** ** The laws of swap space *)

Lemma slice_splice_eq (l bs : list Z) o : 0 ≤ o ≤ Z.of_nat (length l) → slice (splice l o bs) o (Z.of_nat (length bs)) = bs.
Proof.
  intros Ho. unfold slice, splice. assert (length (take (Z.to_nat o) l) = Z.to_nat o) as Ht by (rewrite length_take; lia).
  rewrite drop_app_ge by lia. rewrite Ht, Nat.sub_diag, drop_0, Nat2Z.id. by rewrite take_app_length.
Qed.

Lemma slice_splice_ne (l bs : list Z) o o' m :
  0 ≤ o ≤ Z.of_nat (length l) → 0 ≤ o' → 0 ≤ m → o' + m ≤ Z.of_nat (length l) → o' + m ≤ o ∨ o + Z.of_nat (length bs) ≤ o' →
  slice (splice l o bs) o' m = slice l o' m.
Proof.
  intros Ho Ho' Hm Hl Hd. assert (Z.of_nat (length (splice l o bs)) = Z.max (Z.of_nat (length l)) (o + Z.of_nat (length bs))) as Hs.
  { unfold splice. rewrite !length_app, length_take, length_drop. lia. }
  pose proof (length_slice (splice l o bs) o' m Ho' Hm ltac:(lia)). pose proof (length_slice l o' m Ho' Hm ltac:(lia)).
  apply rd8_ext; [lia|]. intros y Hy. rewrite !rd8_slice by lia. rewrite rd8_splice by lia. by rewrite decide_False by lia.
Qed.

(** The inode of swap file [g]. *)
Definition swap_ip s (g : nat) : option inode :=
  x ← d_files s !! g; if decide (is_swap x) then i ← f_ip x; d_inodes s !! i else None.

Lemma swap_ip_sfile s g x i ip : sfile s g x i ip → swap_ip s g = Some ip.
Proof. intros [F1 F2 F3 F4]. unfold swap_ip. rewrite F1. simpl. rewrite decide_True by done. by rewrite F3. Qed.

Definition fsys_swap_ok s (g : Z) : Prop := 0 ≤ g ∧ swap_inv s ∧ ∃ x i ip, sfile s (Z.to_nat g) x i ip.
Definition fsys_swap_len s (g : Z) : Z := default 0 (i_size <$> swap_ip s (Z.to_nat g)).
Definition fsys_swap_page s (g o : Z) : option (list Z) :=
  ip ← swap_ip s (Z.to_nat g);
  if decide (0 ≤ o ∧ o mod PGSIZE = 0 ∧ o + PGSIZE ≤ i_size ip) then Some (slice (content (view s) ip) o PGSIZE) else None.

(** What the other swap files keep. *)
Lemma swap_step_other s s' f x' i ip' (g : Z) :
  swap_step s s' f x' i ip' → fsys_swap_ok s g → Z.to_nat g ≠ f →
  fsys_swap_len s' g = fsys_swap_len s g ∧ ∀ o, fsys_swap_page s' g o = fsys_swap_page s g o.
Proof.
  intros St (Hg & _ & y & j & jp & Sg) Hne. destruct (ss_other _ _ _ _ _ _ St _ _ _ _ Hne Sg) as [Sg' Ct].
  unfold fsys_swap_len, fsys_swap_page. rewrite (swap_ip_sfile _ _ _ _ _ Sg), (swap_ip_sfile _ _ _ _ _ Sg'). split; [done|].
  intros o. simpl. by rewrite Ct.
Qed.

Lemma swap_step_ok s s' f x' i ip' (g : Z) : swap_step s s' f x' i ip' → fsys_swap_ok s g → fsys_swap_ok s' g.
Proof.
  intros St (Hg & _ & y & j & jp & Sg). split_and!; [done|apply St|]. destruct (decide (Z.to_nat g = f)) as [->|Hne].
  - exists x', i, ip'. apply St.
  - exists y, j, jp. by apply (ss_other _ _ _ _ _ _ St).
Qed.

(** A page written at [off]. *)
Lemma page_splice c (bs : list Z) off o sz :
  Z.of_nat (length c) = sz → length bs = Z.to_nat PGSIZE → 0 ≤ off ≤ sz → off mod PGSIZE = 0 →
  (if decide (0 ≤ o ∧ o mod PGSIZE = 0 ∧ o + PGSIZE ≤ Z.max sz (off + PGSIZE)) then Some (slice (splice c off bs) o PGSIZE) else None) =
  if decide (o = off) then Some bs else
  if decide (0 ≤ o ∧ o mod PGSIZE = 0 ∧ o + PGSIZE ≤ sz) then Some (slice c o PGSIZE) else None.
Proof.
  intros Hc Hb Hoff Hal. destruct (decide (o = off)) as [->|Hne].
  - rewrite decide_True by (split_and!; [lia|done|lia]). pose proof (slice_splice_eq c bs off ltac:(lia)) as E. rewrite Hb in E.
    change (Z.of_nat (Z.to_nat PGSIZE)) with PGSIZE in E. by rewrite E.
  - assert (o mod PGSIZE = 0 → o + PGSIZE ≤ off ∨ off + PGSIZE ≤ o) as Hap.
    { intros Ho. apply Z.mod_divide in Ho as [a ->], Hal as [b ->]; [|done..]. unfold PGSIZE in *. lia. }
    destruct (decide (0 ≤ o ∧ o mod PGSIZE = 0 ∧ o + PGSIZE ≤ sz)) as [(H1 & H2 & H3)|Hn].
    + rewrite decide_True by (split_and!; [done|done|lia]). f_equal. specialize (Hap H2).
      apply slice_splice_ne; rewrite ?Hb; change (Z.of_nat (Z.to_nat PGSIZE)) with PGSIZE; unfold PGSIZE in *; lia.
    + rewrite decide_False; [done|]. intros (H1 & H2 & H3). apply Hn. specialize (Hap H2). split_and!; [done|done|unfold PGSIZE in *; lia].
Qed.

Section laws.
Context (devread : Z → option (nat → Z → M fsys (Z * list Z))).
Context (devwrite : Z → option (nat → list Z → M fsys Z)).
#[local] Instance fsF : FileSys fsys := fsys_FileSys devread devwrite.

Lemma fsys_writeSwap s (f : Z) (bs : list Z) (off : Z) :
  fsys_swap_ok s f → length bs = Z.to_nat PGSIZE → (∃ k, 0 ≤ k < MAX_SWAP_FILE_SZ ∧ off = k * PGSIZE) → off ≤ fsys_swap_len s f →
  ∃ s', (fs_setoff f off ;; fs_filewrite f bs) s = Ok PGSIZE s' ∧ (∀ g, fsys_swap_ok s g → fsys_swap_ok s' g) ∧
    (∀ g, fsys_swap_ok s g → fsys_swap_len s' g = if decide (g = f) then Z.max (fsys_swap_len s f) (off + PGSIZE) else fsys_swap_len s g) ∧
    (∀ g o, fsys_swap_ok s g → fsys_swap_page s' g o = if decide (g = f ∧ o = off) then Some bs else fsys_swap_page s g o).
Proof using.
  intros Hok Hb (k & Hk & Eo) Hle. pose proof Hok as (Hf & Hinv & x & i & ip & Sf). pose proof (swap_ip_sfile _ _ _ _ _ Sf) as Eip.
  assert (fsys_swap_len s f = i_size ip) as El by (unfold fsys_swap_len; by rewrite Eip). rewrite El in *.
  assert (0 ≤ off ∧ off + PGSIZE ≤ SWAP_BYTES) as [H0 H1] by (subst off; unfold SWAP_BYTES, PGSIZE; lia).
  assert (wp (fs_setoff f off ;; fs_filewrite f bs) (λ r s', r = PGSIZE ∧ ∃ x' ip', swap_step s s' (Z.to_nat f) x' i ip' ∧
    content (view s') ip' = splice (content (view s) ip) off bs ∧ i_size ip' = Z.max (i_size ip) (off + PGSIZE)) s) as Hw.
  { apply wp_bind. eapply wp_mono; [by eapply (setoff_spec s (Z.to_nat f) x i ip off)|]. intros [] s1 (St1 & Ct1).
    eapply wp_mono; [apply (filewrite_spec devwrite s1 (Z.to_nat f) _ i ip bs (ss_inv _ _ _ _ _ _ St1) (ss_file _ _ _ _ _ _ St1)); simpl; [lia|]|].
    - rewrite Hb. change (Z.of_nat (Z.to_nat PGSIZE)) with PGSIZE. lia.
    - intros r s' (-> & x' & ip' & St & _ & _ & Ct & Sz). rewrite Hb in *. change (Z.of_nat (Z.to_nat PGSIZE)) with PGSIZE in *.
      split; [done|]. exists x', ip'. split_and!; [by eapply swap_step_trans| |done]. rewrite Ct, Ct1. simpl. f_equal.
      unfold slice. rewrite drop_0. apply take_ge. lia. }
  apply wp_ok in Hw as (r & s' & Er & -> & x' & ip' & St & Ct & Sz). exists s'. pose proof (swap_ip_sfile _ _ _ _ _ (ss_file _ _ _ _ _ _ St)) as Eip'.
  split_and!; [done|intros g; by eapply swap_step_ok| |].
  - intros g Hg. case_decide as E; [subst g; unfold fsys_swap_len; by rewrite Eip'|].
    apply (swap_step_other s s' _ _ _ _ g St Hg). destruct Hg as [Hg _]. lia.
  - intros g o Hg. destruct (decide (g = f)) as [->|Hne].
    + unfold fsys_swap_page. rewrite Eip, Eip'. simpl. rewrite Ct, Sz.
      pose proof (sn_ok _ _ _ (si_inode s Hinv _ _ _ _ Sf)) as Hio. pose proof (io_size _ _ _ Hio) as Hz.
      rewrite (page_splice (content (view s) ip) bs off o (i_size ip)); [|apply length_content; lia|done|lia|subst off; by apply Z.mod_mul].
      destruct (decide (o = off)) as [->|Ho]; [by rewrite decide_True|]. by rewrite (decide_False (P := f = f ∧ _)) by naive_solver.
    + rewrite decide_False by naive_solver. apply (swap_step_other s s' _ _ _ _ g St Hg). destruct Hg as [Hg _]. lia.
Qed.

Lemma fsys_readSwap s (f off : Z) (bs : list Z) :
  fsys_swap_ok s f → fsys_swap_page s f off = Some bs →
  ∃ s', (fs_setoff f off ;; fs_fileread f PGSIZE) s = Ok (PGSIZE, bs) s' ∧ (∀ g, fsys_swap_ok s g → fsys_swap_ok s' g) ∧
    (∀ g, fsys_swap_ok s g → fsys_swap_len s' g = fsys_swap_len s g) ∧
    (∀ g o, fsys_swap_ok s g → fsys_swap_page s' g o = fsys_swap_page s g o).
Proof using.
  intros Hok Hp. pose proof Hok as (Hf & Hinv & x & i & ip & Sf). pose proof (swap_ip_sfile _ _ _ _ _ Sf) as Eip.
  unfold fsys_swap_page in Hp. rewrite Eip in Hp. simpl in Hp. case_decide as Hd; [|done]. injection Hp as <-. destruct Hd as (H0 & H1 & H2).
  assert (wp (fs_setoff f off ;; fs_fileread f PGSIZE) (λ r s', r = (PGSIZE, slice (content (view s) ip) off PGSIZE) ∧
    ∃ x', swap_step s s' (Z.to_nat f) x' i ip ∧ content (view s') ip = content (view s) ip) s) as Hr.
  { apply wp_bind. eapply wp_mono; [by eapply (setoff_spec s (Z.to_nat f) x i ip off)|]. intros [] s1 (St1 & Ct1).
    eapply wp_mono; [apply (fileread_spec devread s1 (Z.to_nat f) _ i ip PGSIZE (ss_inv _ _ _ _ _ _ St1) (ss_file _ _ _ _ _ _ St1)); simpl; unfold PGSIZE in *; lia|].
    simpl. rewrite Ct1. replace (PGSIZE `min` (i_size ip - off)) with PGSIZE by lia. intros r s' (-> & x' & St & Ct).
    split; [done|]. exists x'. split; [by eapply swap_step_trans|congruence]. }
  apply wp_ok in Hr as (r & s' & Er & -> & x' & St & Ct). exists s'. pose proof (swap_ip_sfile _ _ _ _ _ (ss_file _ _ _ _ _ _ St)) as Eip'.
  assert (∀ g, fsys_swap_ok s g → fsys_swap_len s' g = fsys_swap_len s g ∧ ∀ o, fsys_swap_page s' g o = fsys_swap_page s g o) as Hsame.
  { intros g Hg. destruct (decide (g = f)) as [->|Hne].
    - unfold fsys_swap_len, fsys_swap_page. rewrite Eip, Eip'. split; [done|]. intros o. simpl. by rewrite Ct.
    - apply (swap_step_other s s' _ _ _ _ g St Hg). destruct Hg as [Hg _]. lia. }
  split_and!; [done|intros g; by eapply swap_step_ok|intros g Hg; by apply Hsame|intros g o Hg; by apply Hsame].
Qed.

#[global] Instance fsys_SwapLaws : @SwapLaws fsys (fsys_FileSys devread devwrite) := {
  swap_ok := fsys_swap_ok;
  swap_len := fsys_swap_len;
  swap_page := fsys_swap_page;
  writeSwap_ok := fsys_writeSwap;
  readSwap_ok := fsys_readSwap;
}.
End laws.
