(* ===== verification/FileProps.v ===== *)
(** Files and swap files: what the file system promises to its callers.

    [writei] and [readi] are the operations of a byte array per inode, and the
    swap files of the memory manager are a map from files and page numbers to
    pages. *)

From S2P Require Import Prelude Memory Machine Disk Bio Log LogCrash Txn Fs Inode Bmap Rdwr Op File SwapFile.
From stdpp Require Import options.
Implicit Types s : fsys.
Implicit Types V : Z → list Z.
Implicit Types sb : superblock.
Implicit Types ip : inode.

(** ** writei and readi *)

(** The inode on disk is the one in memory. *)
Definition synced V sb ip : Prop := get_dinode (V (IBLOCK (i_inum ip) sb)) (i_inum ip mod IPB) ip = ip.

(** Two inodes have no block in common. *)
Definition apart V ip jp : Prop := ∀ k, owns V ip k → ¬ owns V jp k.

Lemma addrs_fit V sb ip a : layout sb → inode_ok V sb ip → a ∈ i_addrs ip → 0 ≤ a < 2 ^ 32.
Proof.
  intros L Hi [j Hj]%list_elem_of_lookup. pose proof (layout_pos _ L) as Hl. pose proof (lookup_lt_Some _ _ _ Hj) as Hlt.
  rewrite (io_len _ _ _ Hi) in Hlt. unfold NDIRECT in Hlt. destruct (decide (j = 12%nat)) as [->|Hne].
  - destruct (io_data _ _ _ Hi MAXFILE MAXFILE_slot) as [E0|[Hd _]]; rewrite slot_ind in *; unfold ind_addr in *;
      rewrite (aget_nat (i_addrs ip) 12 : aget _ NDIRECT = _), Hj in *; simpl in *; unfold FSSIZE in *; lia.
  - assert (0 ≤ Z.of_nat j < MAXFILE) as Hr by (rewrite MAXFILE_eq; lia).
    assert (baddr V ip (Z.of_nat j) = a) as Eb.
    { unfold baddr, NDIRECT. destruct (Z.ltb_spec (Z.of_nat j) 12); [|lia]. by rewrite aget_nat, Hj. }
    destruct (io_data _ _ _ Hi (Z.of_nat j) ltac:(lia)) as [E0|[Hd _]]; rewrite slot_baddr, Eb in * by done; unfold FSSIZE in *; lia.
Qed.

Lemma written_fits s i ip off src s' ip' :
  iready s i ip → written s i ip off src s' ip' → dinode_fits ip → dinode_fits ip'.
Proof.
  intros R Wd [D1 D2 D3 D4 D5 D6 D7]. pose proof (wd_ip _ _ _ _ _ _ _ Wd) as E. destruct (wd_ready _ _ _ _ _ _ _ Wd) as [_ Hv Hi _].
  pose proof (io_size _ _ _ Hi) as Hz. rewrite MAXFILE_eq in Hz.
  split; try (rewrite E; done); [unfold BSIZE in *; lia|apply Hi|intros a; by eapply addrs_fit, Hi; apply Hv].
Qed.

(** C5: A file is a byte array for [writei]. In a transaction with room in the
    log and enough free blocks, [writei] of [n] bytes at an offset inside the
    file or at its end returns [n]; the file then has these bytes at that
    offset, is extended if they go past its end, and is otherwise as before.
    Every file that shares no block with it keeps its contents and still shares
    none, the blocks that were not free stay allocated, and the copy of the
    inode on disk agrees with the one in memory if it did before, without any
    change to the other inodes on disk. *)
Theorem writei_splices devwrite s i ip off src :
  let n := Z.of_nat (length src) in let V := view s in let sb := d_sb s in
  iready s i ip → write_room s ip off n → i_type ip ≠ T_DEV → 0 ≤ off ≤ i_size ip → off + n ≤ MAXFILE * BSIZE →
  wp (writei devwrite i src off) (λ r s', r = n ∧ ∃ ip', iready s' i ip' ∧ d_inodes s' = <[i := ip']> (d_inodes s) ∧
    content (view s') ip' = splice (content V ip) off src ∧
    (∀ jp, inode_ok V sb jp → apart V ip jp →
       inode_ok (view s') sb jp ∧ apart (view s') ip' jp ∧ content (view s') jp = content V jp) ∧
    (∀ b, is_data V sb b → is_data (view s') sb b) ∧
    (dinode_fits ip → synced V sb ip → synced (view s') sb ip') ∧
    (∀ m x, 0 ≤ m < sb_ninodes sb → m ≠ i_inum ip →
       get_dinode (view s' (IBLOCK m sb)) (m mod IPB) x = get_dinode (V (IBLOCK m sb)) (m mod IPB) x)) s.
Proof.
  intros n V sb R Rm Hty Hoff Hmax. subst n V sb. eapply wp_mono; [by apply (writei_spec s i ip off src R Rm Hoff Hmax)|].
  intros r s' (-> & ip' & Wd). split; [done|]. exists ip'. pose proof (wd_ip _ _ _ _ _ _ _ Wd) as Eip.
  assert (i_inum ip' = i_inum ip) as Ein by (by rewrite Eip).
  split_and!; [apply Wd|apply Wd|apply Wd| |apply Wd| |].
  - intros jp Hj Hd. by destruct (written_other _ _ _ _ _ _ _ jp Wd R Hj Hd) as (K1 & _ & K3 & K4).
  - intros Hfit Hsy. unfold synced. rewrite Ein. destruct (wd_dinode _ _ _ _ _ _ _ Wd) as [[-> ->]| ->]; [done|].
    apply get_put_dinode; [by eapply written_fits|apply Z.mod_pos_bound; done|apply (ir_volume _ _ _ R)].
  - intros m x Hm Hne. destruct (decide (IBLOCK m (d_sb s) = IBLOCK (i_inum ip) (d_sb s))) as [E|E].
    + rewrite E. destruct (wd_dinode _ _ _ _ _ _ _ Wd) as [[-> ->]| ->]; [done|]. apply get_put_dinode_ne; [apply (ir_inode _ _ _ (wd_ready _ _ _ _ _ _ _ Wd))|].
      intros Em. apply Hne. unfold IBLOCK in E. rewrite (Z.div_mod m IPB), (Z.div_mod (i_inum ip) IPB) by done. rewrite <-Em. lia.
    + destruct (wd_frame _ _ _ _ _ _ _ Wd) as (W & F & HW). f_equal. apply (tf_view _ _ _ _ F). intros Hin.
      pose proof (vo_layout _ _ (ir_volume _ _ _ R)) as L. pose proof (IBLOCK_range _ _ L Hm).
      destruct (HW _ Hin) as [E'|[E'|Ho]]; [lia|done|]. destruct (wd_ready _ _ _ _ _ _ _ Wd) as [_ _ Hi _].
      destruct (owns_data _ _ _ _ Hi Ho) as [Hd _]. rewrite (tf_sb _ _ _ _ F) in Hd. lia.
Qed.

(** C6: [readi] returns a slice of the byte array. At an offset inside the file
    it returns the bytes from there on, as many as were asked for or up to the
    end of the file, and changes no file. *)
Theorem readi_slices devread s i ip off n :
  iready s i ip → i_type ip ≠ T_DEV → 0 ≤ off ≤ i_size ip → 0 ≤ n → off + n < 2 ^ 32 →
  let m := Z.min n (i_size ip - off) in
  wp (readi devread i off n) (λ r s', r = (m, slice (content (view s) ip) off m) ∧ iready s' i ip ∧
    d_inodes s' = d_inodes s ∧ d_blocks s' = d_blocks s ∧ (∀ k, view s' k = view s k) ∧ logged s' = logged s) s.
Proof.
  intros R Hty Hoff Hn Hov m. eapply wp_mono; [by apply readi_spec|]. intros r s' (-> & R' & F & I).
  split_and!; try done; [apply (tf_blocks _ _ _ _ F)|intros k; apply (sv_at _ _ (frame_view _ _ _ F))|by eapply frame_logged].
Qed.

(** ** Swap files as a map of pages *)

(** What the memory manager does with swap files: page [k] of file [f] is saved
    or read back. *)
Inductive swop := SWrite (f k : Z) (bs : list Z) | SRead (f k : Z).

Section swap.
Context (devread : Z → option (nat → Z → M fsys (Z * list Z))).
Context (devwrite : Z → option (nat → list Z → M fsys Z)).
#[local] Instance fsP : FileSys fsys := fsys_FileSys devread devwrite.

Definition exec_swop (o : swop) : M fsys (Z * list Z) :=
  match o with
  | SWrite f k bs => r <- (fs_setoff f (k * PGSIZE) ;; fs_filewrite f bs) ;; ret (r, [])
  | SRead f k => fs_setoff f (k * PGSIZE) ;; fs_fileread f PGSIZE
  end.
Fixpoint exec_swops (l : list swop) : M fsys (list (Z * list Z)) :=
  match l with
  | [] => ret []
  | o :: l => r <- exec_swop o ;; rs <- exec_swops l ;; ret (r :: rs)
  end.

(** The abstract swap space: the size of each swap file, and its pages. *)
Record aswap := ASwap { as_len : gmap Z Z; as_pages : gmap (Z * Z) (list Z) }.

Definition aswap_step (o : swop) (a : aswap) : option (aswap * (Z * list Z)) :=
  match o with
  | SWrite f k bs =>
      n ← as_len a !! f;
      if decide (length bs = Z.to_nat PGSIZE ∧ 0 ≤ k < MAX_SWAP_FILE_SZ ∧ k * PGSIZE ≤ n) then
        Some (ASwap (<[f := Z.max n (k * PGSIZE + PGSIZE)]> (as_len a)) (<[(f, k) := bs]> (as_pages a)), (PGSIZE, []))
      else None
  | SRead f k => _ ← as_len a !! f; bs ← as_pages a !! (f, k); Some (a, (PGSIZE, bs))
  end.
Fixpoint aswap_steps (l : list swop) (a : aswap) : option (aswap * list (Z * list Z)) :=
  match l with
  | [] => Some (a, [])
  | o :: l => '(a1, r) ← aswap_step o a; '(a2, rs) ← aswap_steps l a1; Some (a2, r :: rs)
  end.

Definition swap_rep s (a : aswap) : Prop :=
  ∀ f n, as_len a !! f = Some n →
    fsys_swap_ok s f ∧ fsys_swap_len s f = n ∧ ∀ k, fsys_swap_page s f (k * PGSIZE) = as_pages a !! (f, k).

Lemma exec_swop_refines o s a a' r :
  swap_rep s a → aswap_step o a = Some (a', r) → ∃ s', exec_swop o s = Ok r s' ∧ swap_rep s' a'.
Proof using.
  intros Hr. destruct o as [f k bs|f k]; simpl.
  - destruct (as_len a !! f) as [n|] eqn:Ef; simpl; [|done]. case_decide as Hd; [|done]. intros [= <- <-]. destruct Hd as (Hb & Hk & Hle).
    destruct (Hr f n Ef) as (Hok & Hln & Hpg).
    destruct (fsys_writeSwap devread devwrite s f bs (k * PGSIZE) Hok Hb) as (s' & E & K1 & K2 & K3); [by exists k|lia|].
    exists s'. split; [by rewrite (bind_ok _ _ _ _ _ E)|]. intros g m. simpl. destruct (decide (g = f)) as [->|Hne].
    + rewrite lookup_insert_eq. intros [= <-]. split_and!; [by apply K1|by rewrite K2, decide_True, Hln|].
      intros j. rewrite K3 by done. destruct (decide (j = k)) as [->|Hj]; [by rewrite decide_True, lookup_insert_eq|].
      rewrite decide_False, lookup_insert_ne by (intros [= ?] || (intros [_ ?%Z.mul_cancel_r]); done). apply Hpg.
    + rewrite lookup_insert_ne by done. intros Hm. destruct (Hr g m Hm) as (Hokg & Hlng & Hpgg).
      split_and!; [by apply K1|by rewrite K2, decide_False|]. intros j. rewrite K3, decide_False by naive_solver.
      rewrite lookup_insert_ne by congruence. apply Hpgg.
  - destruct (as_len a !! f) as [n|] eqn:Ef; simpl; [|done]. destruct (as_pages a !! (f, k)) as [bs|] eqn:Ep; simpl; [|done]. intros [= <- <-].
    destruct (Hr f n Ef) as (Hok & Hln & Hpg).
    destruct (fsys_readSwap devread devwrite s f (k * PGSIZE) bs Hok) as (s' & E & K1 & K2 & K3); [by rewrite Hpg|].
    exists s'. split; [done|]. intros g m Hm. destruct (Hr g m Hm) as (Hokg & Hlng & Hpgg).
    split_and!; [by apply K1|by rewrite K2|]. intros j. by rewrite K3.
Qed.

(** C2: The disk file system implements the swap space of the memory manager,
    as long as the disk has the free blocks for every open swap file to grow to
    its full size ([si_space] of [swap_inv]; nothing in fs.c reserves them).
    From such a state any sequence of page writes and page reads on the open
    swap files, each write at a page inside its file or right after its last
    one and each read of a page that was written, succeeds on the file system
    of log, inodes and disk blocks: no call panics, blocks or runs out of log
    space, every read returns the bytes last written to that page of that file,
    and the files keep representing the abstract map, with the blocks for the
    rest of their growth still free. *)
Theorem swap_space_on_disk l s a a' rs :
  swap_rep s a → aswap_steps l a = Some (a', rs) → ∃ s', exec_swops l s = Ok rs s' ∧ swap_rep s' a'.
Proof using.
  revert s a rs. induction l as [|o l IH]; intros s a rs Hr; simpl; [intros [= <- <-]; by exists s|].
  destruct (aswap_step o a) as [[a1 r]|] eqn:E1; simpl; [|done]. destruct (aswap_steps l a1) as [[a2 rs2]|] eqn:E2; simpl; [|done].
  intros [= <- <-]. destruct (exec_swop_refines o s a a1 r Hr E1) as (s1 & X1 & R1). destruct (IH s1 a1 rs2 R1 E2) as (s2 & X2 & R2).
  exists s2. split; [|done]. rewrite (bind_ok _ _ _ _ _ X1), (bind_ok _ _ _ _ _ X2). done.
Qed.
End swap.

(** ** Examples *)

Module FileExamples.
(** A disk whose bitmap has the 59 blocks of meta data and block 59, the only
    block of a file of five bytes; two empty swap files are open. *)
Definition ex_bitmap : list Z := replicate 7 255 ++ [15] ++ replicate 504 0.
Definition ex_block : list Z := [104; 101; 108; 108; 111] ++ replicate 507 0.
Definition ex_hello : inode := Inode 1 4 1 false true T_FILE 0 0 1 5 (59 :: replicate 12 0).
Definition ex_super : superblock := Superblock 1000 941 200 30 2 32 58.
Definition ex_inode (n : Z) : inode := Inode 1 n 1 false true T_FILE 0 0 1 0 (replicate 13 0).
Definition ex_file (i : nat) : file := File FD_INODE 1 1 2 0 (Some i) 0.
Definition ex_lg (n : Z) : logstate := Log 2 30 n false 1 0 (replicate 30 0).
Definition ex_fs (n : Z) : fsys :=
  Fsys (<[(1, 59) := ex_block]> {[(1, 58) := ex_bitmap]}) [] true false [] false (replicate 30 buf0) (rev (seq 0 30)) false (ex_lg n)
    ex_super false [ex_inode 2; ex_inode 3; ex_hello] false [ex_file 0; ex_file 1] ∅ [] [] [].

Lemma ex_bufs n i b : d_bufs (ex_fs n) !! i = Some b → b = buf0.
Proof. intros [-> _]%lookup_replicate. done. Qed.
Lemma ex_no_key n k : (¬ in_use (ex_fs n) k) ∧ (¬ dirty (ex_fs n) k).
Proof. split; intros (i & b & ->%ex_bufs & [? _] & _); done. Qed.

Lemma ex_cache n : cache_ok (ex_fs n).
Proof.
  split; try done.
  - symmetry. apply Permutation_rev.
  - intros i b ->%ex_bufs. split; try done. by right.
  - intros i j b c bn ->%ex_bufs _ [? _]. done.
  - simpl. intros k v [[_ <-]|[_ [_ <-]%lookup_singleton_Some]]%lookup_insert_Some; done.
Qed.

Lemma ex_tx n : tx (ex_fs n) ∅.
Proof. apply tx_clean; try done; [apply ex_cache|intros k; apply (ex_no_key n k)..]. Qed.

Lemma ex_bit b : 0 ≤ b < 1000 → bit_of ex_bitmap b = bool_decide (b < 60).
Proof.
  intros Hb. assert (forallb (λ b, Bool.eqb (bit_of ex_bitmap b) (bool_decide (b < 60))) (seqZ 0 1000) = true) as H by (vm_compute; reflexivity).
  rewrite forallb_forall in H. apply eqb_prop, H. apply list_elem_of_In, elem_of_seqZ. lia.
Qed.

Lemma ex_view_bitmap n : bitmap (view (ex_fs n)) ex_super = ex_bitmap.
Proof.
  unfold bitmap. rewrite view_uncached; [reflexivity|]. intros i b ->%ex_bufs. done.
Qed.

Lemma ex_volume n : volume (view (ex_fs n)) ex_super.
Proof.
  split; [by split; vm_compute|intros k; apply length_view, ex_cache|]. intros b Hb. simpl in Hb. rewrite ex_view_bitmap, ex_bit by lia.
  by apply bool_decide_eq_true_2; lia.
Qed.

Lemma ex_slot V n j : slot V (ex_inode n) j = 0.
Proof.
  assert (ind_addr (ex_inode n) = 0) as E by reflexivity. unfold slot, baddr. rewrite E. case_match; [done|]. case_match; [|done].
  unfold aget. case_match; [done|]. destruct (i_addrs (ex_inode n) !! Z.to_nat j) eqn:El; [|done]. by apply lookup_replicate in El as [-> _].
Qed.

Lemma ex_inode_ok V n : 0 ≤ n < 200 → inode_ok V ex_super (ex_inode n).
Proof.
  intros Hn. split; try done; [intros j _; left; apply ex_slot|intros j k _ _ _ []; apply ex_slot|].
  intros bn H1 H2. simpl in H2. unfold BSIZE in H2. lia.
Qed.

Lemma ex_hello_slot V j : slot V ex_hello j = if decide (j = 0) then 59 else 0.
Proof.
  assert (ind_addr ex_hello = 0) as E by reflexivity. unfold slot, baddr. rewrite E. destruct (Z.eqb_spec j MAXFILE) as [->|]; [done|].
  case_decide as Ej; [by subst|]. case_match; [|done]. unfold aget. case_match; [done|]. destruct (Z.to_nat j) as [|k] eqn:Ek; [lia|]. change (i_addrs ex_hello !! S k) with ((replicate 12 0 : list Z) !! k).
  destruct (replicate 12 0 !! k) eqn:El; [|done]. by apply lookup_replicate in El as [-> _].
Qed.

Lemma ex_hello_ok n : inode_ok (view (ex_fs n)) ex_super ex_hello.
Proof.
  split; try done.
  - intros j _. rewrite ex_hello_slot. case_decide; [right|by left]. split; [done|]. by rewrite ex_view_bitmap, ex_bit.
  - intros j k _ _. rewrite !ex_hello_slot. repeat case_decide; congruence.
  - intros bn H1 H2. simpl in H2. unfold BSIZE in H2. assert (bn = 0) as -> by lia. done.
Qed.

Lemma ex_free n : (940 ≤ size (free_blocks (view (ex_fs n)) ex_super))%nat.
Proof.
  transitivity (size (list_to_set (seqZ 60 940) : gset Z)).
  - rewrite size_list_to_set by apply NoDup_seqZ. by rewrite length_seqZ.
  - apply subseteq_size. intros b [H1 H2]%elem_of_list_to_set%elem_of_seqZ. apply elem_of_free. simpl.
    rewrite ex_view_bitmap, ex_bit by lia. split; [apply bool_decide_eq_false_2; lia|lia].
Qed.

Lemma ex_sfile n g x i ip : sfile (ex_fs n) g x i ip → x = ex_file g ∧ i = g ∧ ip = ex_inode (2 + Z.of_nat g) ∧ (g < 2)%nat.
Proof.
  intros [F1 F2 F3 F4]. destruct g as [|[|g]]; simpl in *; simplify_eq; simpl in *; simplify_eq; simpl in *; simplify_eq.
  all: split_and!; done || lia.
Qed.
Lemma ex_sfile_is n g : (g < 2)%nat → sfile (ex_fs n) g (ex_file g) g (ex_inode (2 + Z.of_nat g)).
Proof. intros Hg. destruct g as [|[|g]]; [by split..|lia]. Qed.

Lemma ex_swap_inv : swap_inv (ex_fs 0).
Proof.
  split.
  - split; try done. apply ex_tx.
  - apply ex_volume.
  - intros g x Hx _. pose proof (lookup_lt_Some _ _ _ Hx). exists g, (ex_inode (2 + Z.of_nat g)).
    assert (x = ex_file g) as -> by (destruct g as [|[|g]]; simpl in *; simplify_eq; done || lia). by apply ex_sfile_is.
  - intros g x i ip (_ & _ & -> & Hg)%ex_sfile. split; try done. apply ex_inode_ok. lia.
  - intros g h x y i j ip jp (_ & -> & -> & _)%ex_sfile (_ & -> & _)%ex_sfile Hne. split; [done|].
    intros k [Hk (l & _ & E)]. by rewrite ex_slot in E.
  - pose proof (ex_free 0). change (zsum (need (ex_fs 0)) (d_files (ex_fs 0))) with 274. simpl d_sb. lia.
Qed.

Lemma ex_ready n : iready (ex_fs n) 0 (ex_inode 2) ∧ iready (ex_fs n) 2 ex_hello.
Proof. split; split; try done; [apply ex_tx|apply ex_volume|by apply ex_inode_ok|apply ex_tx|apply ex_volume|apply ex_hello_ok]. Qed.

Lemma ex_content n : content (view (ex_fs n)) ex_hello = [104; 101; 108; 108; 111].
Proof.
  assert (view (ex_fs n) 59 = ex_block) as E by (rewrite view_uncached; [reflexivity|]; by intros i b ->%ex_bufs).
  unfold content. change (i_size ex_hello) with 5. change (seqZ 0 5) with [0; 1; 2; 3; 4]. simpl.
  unfold fbyte, baddr. simpl. by rewrite !E.
Qed.

Definition nodev_r : Z → option (nat → Z → M fsys (Z * list Z)) := λ _, None.
Definition nodev_w : Z → option (nat → list Z → M fsys Z) := λ _, None.

Lemma writei_splices_witness : ∃ s' ip', writei nodev_w 2 [112; 33] 3 (ex_fs 1) = Ok 2 s' ∧
  content (view s') ip' = [104; 101; 108; 112; 33].
Proof.
  assert (write_room (ex_fs 1) ex_hello 3 2) as Rm by (split; [done|left; reflexivity|vm_compute; reflexivity]).
  pose proof (writei_splices nodev_w (ex_fs 1) 2 ex_hello 3 [112; 33] (proj2 (ex_ready 1)) Rm ltac:(done) ltac:(done) ltac:(done)) as H.
  apply wp_ok in H as (r & s' & E & -> & ip' & _ & _ & C & _). exists s', ip'. split; [exact E|]. rewrite C, ex_content. reflexivity.
Defined.

Lemma readi_slices_witness : ∃ s', readi nodev_r 2 1 100 (ex_fs 0) = Ok (4, [101; 108; 108; 111]) s'.
Proof.
  pose proof (readi_slices nodev_r (ex_fs 0) 2 ex_hello 1 100 (proj2 (ex_ready 0)) ltac:(done) ltac:(done) ltac:(done) ltac:(done)) as H.
  apply wp_ok in H as (r & s' & E & -> & _). exists s'. rewrite E, ex_content. reflexivity.
Defined.

(** The two swap files. *)
Definition ex_aswap : aswap := ASwap {[0 := 0; 1 := 0]} ∅.
Definition ex_page (b : Z) : list Z := replicate (Z.to_nat PGSIZE) b.
Definition ex_ops : list swop := [SWrite 0 0 (ex_page 1); SWrite 1 0 (ex_page 2); SWrite 0 1 (ex_page 3); SRead 0 0; SRead 1 0; SRead 0 1].

Lemma ex_swap_rep : swap_rep (ex_fs 0) ex_aswap.
Proof.
  assert (∀ g : nat, (g < 2)%nat → fsys_swap_ok (ex_fs 0) (Z.of_nat g) ∧ fsys_swap_len (ex_fs 0) (Z.of_nat g) = 0 ∧
    ∀ k, fsys_swap_page (ex_fs 0) (Z.of_nat g) (k * PGSIZE) = None) as H.
  { intros g Hg. pose proof (ex_sfile_is 0 g Hg) as Sf. pose proof (swap_ip_sfile _ _ _ _ _ Sf) as E. unfold fsys_swap_ok, fsys_swap_len, fsys_swap_page.
    rewrite Nat2Z.id, E. split_and!; [lia|apply ex_swap_inv|by eexists _, _, _|done|]. intros k. simpl.
    rewrite decide_False; [done|]. unfold PGSIZE. lia. }
  intros f n. unfold ex_aswap. simpl. intros [[<- <-]|[_ [<- <-]%lookup_singleton_Some]]%lookup_insert_Some.
  - destruct (H 0%nat ltac:(lia)) as (H1 & H2 & H3). split_and!; [done..|]. intros k. rewrite H3. by rewrite lookup_empty.
  - destruct (H 1%nat ltac:(lia)) as (H1 & H2 & H3). split_and!; [done..|]. intros k. rewrite H3. by rewrite lookup_empty.
Qed.

Lemma swap_space_on_disk_witness : ∃ s', exec_swops nodev_r nodev_w ex_ops (ex_fs 0) =
  Ok [(PGSIZE, []); (PGSIZE, []); (PGSIZE, []); (PGSIZE, ex_page 1); (PGSIZE, ex_page 2); (PGSIZE, ex_page 3)] s'.
Proof.
  assert (∃ a', aswap_steps ex_ops ex_aswap =
    Some (a', [(PGSIZE, []); (PGSIZE, []); (PGSIZE, []); (PGSIZE, ex_page 1); (PGSIZE, ex_page 2); (PGSIZE, ex_page 3)])) as [a' E].
  { eexists. vm_compute. reflexivity. }
  destruct (swap_space_on_disk nodev_r nodev_w ex_ops (ex_fs 0) ex_aswap a' _ ex_swap_rep E) as (s' & X & _). by exists s'.
Defined.
End FileExamples.
