(* ===== verification/Path.v ===== *)
(** Path names: [namei] of [src/fs.c] follows the tree of directories on disk.

    The inode cache is described by [icache]: an inode that is in memory and
    valid is the one on disk.  [iget], [ilock], [dirlookup] and [iput] keep it,
    and together they walk down the tree without changing the disk or the
    references of other users of the cache. *)

From S2P Require Import Prelude Memory Machine Disk Bio Log LogCrash Txn Fs Inode Bmap Rdwr Op FileProps.
From stdpp Require Import options.
Implicit Types s : fsys.
Implicit Types V : Z → list Z.
Implicit Types sb : superblock.
Implicit Types ip : inode.
Implicit Types i j k : nat.

(** ** The tree on disk *)

(** Inode [n] as it is on disk; the fields that are only in memory are those of
    [ip]. *)
Definition load V sb (n : Z) ip : inode := get_dinode (V (IBLOCK n sb)) (n mod IPB) ip.

Lemma get_dinode_eq d (m : Z) ip : get_dinode d m ip =
  Inode (i_dev ip) (i_inum ip) (i_ref ip) (i_locked ip) (i_valid ip) (s16 (rd16 d (64 * m))) (s16 (rd16 d (64 * m + 2)))
    (s16 (rd16 d (64 * m + 4))) (s16 (rd16 d (64 * m + 6))) (rd32 d (64 * m + 8)) (dinode_addrs d (64 * m)).
Proof. destruct ip. cbv -[Z.add Z.mul rd16 rd32 s16 dinode_addrs]. reflexivity. Qed.
#[local] Opaque get_dinode.

(** The entries of a directory with contents [c]. *)
Definition entries (c : list Z) : list (list Z) :=
  (λ k, slice c (Z.of_nat k * sizeof_dirent) sizeof_dirent) <$> seq 0 (Z.to_nat (Z.of_nat (length c) / sizeof_dirent)).

(** The first entry in use with name [name]. *)
Definition names (name de : list Z) : Prop := de_inum de ≠ 0 ∧ namecmp name (de_name de) = 0.
#[global] Instance names_dec name de : Decision (names name de).
Proof. unfold names. apply _. Defined.
Definition dir_find (c name : list Z) : option (nat * list Z) := list_find (names name) (entries c).

(** The files of a disk, by inode number: type and contents. *)
Definition disktree := Z → option (Z * list Z).

(** The names of a path. *)
Fixpoint path_elems (fuel : nat) (path : list Z) : list (list Z) :=
  match fuel with
  | O => []
  | S fuel => match skipelem path with None => [] | Some (rest, name) => name :: path_elems fuel rest end
  end.

(** The inode that a list of names leads to. *)
Fixpoint resolve (t : disktree) (n : Z) (l : list (list Z)) : option Z :=
  match l with
  | [] => Some n
  | name :: l =>
      '(ty, c) ← t n;
      if decide (ty = T_DIR) then '(_, de) ← dir_find c name; resolve t (de_inum de) l else None
  end.

(** The disk holds the tree [t]. *)
Record holds V sb (t : disktree) : Prop := {
  ho_ok n ty c ip : t n = Some (ty, c) → i_dev ip = 1 → i_inum ip = n → inode_ok V sb (load V sb n ip);
  ho_type n ty c ip : t n = Some (ty, c) → i_type (load V sb n ip) = ty ∧ ty ≠ 0;
  ho_nlink n ty c ip : t n = Some (ty, c) → i_nlink (load V sb n ip) ≠ 0;
  ho_content n ty c ip : t n = Some (ty, c) → content V (load V sb n ip) = c;
  ho_dir n c : t n = Some (T_DIR, c) → Z.of_nat (length c) mod sizeof_dirent = 0;
  ho_closed n c de : t n = Some (T_DIR, c) → de ∈ entries c → de_inum de ≠ 0 → is_Some (t (de_inum de));
}.

(** ** The inode cache *)

(** No other inode than [lk] is locked; valid inodes are as on disk. *)
Record icache s (lk : option nat) : Prop := {
  ic_lock : d_icache_lock s = false;
  ic_ref i ip : d_inodes s !! i = Some ip → 0 ≤ i_ref ip;
  ic_dev i ip : d_inodes s !! i = Some ip → 0 < i_ref ip → i_dev ip = 1;
  ic_uniq i j ip jp : d_inodes s !! i = Some ip → d_inodes s !! j = Some jp → 0 < i_ref ip → 0 < i_ref jp → i_inum ip = i_inum jp → i = j;
  ic_valid i ip : d_inodes s !! i = Some ip → 0 < i_ref ip → i_valid ip = true → load (view s) (d_sb s) (i_inum ip) ip = ip;
  ic_locked i ip : d_inodes s !! i = Some ip → lk ≠ Some i → i_locked ip = false;
}.

(** [refs l l' o]: the cache [l'] has the references of [l], and [o i] more to
    inode [i]. *)
Record refs (l l' : list inode) (o : nat → Z) : Prop := {
  rf_len : length l' = length l;
  rf_ref i ip ip' : l !! i = Some ip → l' !! i = Some ip' → i_ref ip' = i_ref ip + o i;
  rf_same i ip ip' : l !! i = Some ip → l' !! i = Some ip' → 0 < i_ref ip → i_inum ip' = i_inum ip;
}.

Lemma refs_refl l : refs l l (λ _, 0).
Proof. split; try done; intros i ip ip' H H'; simplify_eq; [lia|done]. Qed.
Lemma refs_ext l l' o o' : (∀ i, o i = o' i) → refs l l' o → refs l l' o'.
Proof. intros E [H1 H2 H3]. split; try done. intros i ip ip' H H'. rewrite <-E. by apply H2. Qed.

(** One entry of the cache changes. *)
Lemma refs_update l l' o i ip ip' d :
  refs l l' o → l' !! i = Some ip → i_ref ip' = i_ref ip + d →
  (∀ ip0, l !! i = Some ip0 → 0 < i_ref ip0 → i_inum ip' = i_inum ip) →
  refs l (<[i := ip']> l') (λ j, o j + if decide (j = i) then d else 0).
Proof.
  intros [H1 H2 H3] Hi Hr Hs. pose proof (lookup_lt_Some _ _ _ Hi) as Hl. split.
  - by rewrite length_insert.
  - intros j jp jp' Hj Hj'. case_decide as E; [subst j; rewrite list_lookup_insert_eq in Hj' by done; simplify_eq|].
    + specialize (H2 i jp ip Hj Hi). lia.
    + rewrite list_lookup_insert_ne in Hj' by done. specialize (H2 j jp jp' Hj Hj'). lia.
  - intros j jp jp' Hj Hj' Hp. destruct (decide (j = i)) as [->|E].
    + rewrite list_lookup_insert_eq in Hj' by done. simplify_eq. rewrite (Hs jp Hj Hp). by eapply H3.
    + rewrite list_lookup_insert_ne in Hj' by done. by eapply H3.
Qed.

(** ** iget *)

Definition matches (dev inum : Z) ip : Prop := 0 < i_ref ip ∧ i_dev ip = dev ∧ i_inum ip = inum.

Lemma iget_scan_spec l k dev inum e :
  match iget_scan l k dev inum e with
  | (Some i, _) => ∃ ip, (k ≤ i)%nat ∧ l !! (i - k)%nat = Some ip ∧ matches dev inum ip
  | (None, o) => (∀ j ip, l !! j = Some ip → ¬ matches dev inum ip) ∧
      match o with
      | Some i => e = Some i ∨ ∃ ip, (k ≤ i)%nat ∧ l !! (i - k)%nat = Some ip ∧ i_ref ip = 0
      | None => e = None ∧ ∀ j ip, l !! j = Some ip → i_ref ip ≠ 0
      end
  end.
Proof.
  revert k e. induction l as [|ip l IH]; intros k e; cbn [iget_scan].
  - split; [done|]. destruct e; [by left|done].
  - destruct ((0 <? i_ref ip) && (i_dev ip =? dev) && (i_inum ip =? inum)) eqn:E.
    + exists ip. split; [done|]. rewrite Nat.sub_diag. split; [done|]. unfold matches. lia.
    + assert (¬ matches dev inum ip) as Hno by (unfold matches; lia).
      specialize (IH (S k) (match e with Some _ => e | None => if i_ref ip =? 0 then Some k else None end)).
      destruct (iget_scan l (S k) dev inum _) as [[i|] o].
      * destruct IH as (jp & Hk & Hj & Hm). exists jp. split; [lia|]. by replace (i - k)%nat with (S (i - S k)) by lia.
      * destruct IH as [IH1 IH2]. split; [intros [|j] jp Hj; simpl in Hj; [by simplify_eq|by eapply IH1]|].
        destruct o as [i|].
        -- destruct IH2 as [IH2|(jp & Hk & Hj & Hr)].
           ++ destruct e as [e|]; [by left|]. destruct (Z.eqb_spec (i_ref ip) 0); [|done]. simplify_eq. right. exists ip. by rewrite Nat.sub_diag.
           ++ right. exists jp. split; [lia|]. by replace (i - k)%nat with (S (i - S k)) by lia.
        -- destruct IH2 as [IH2 IH3]. destruct e; [done|]. split; [done|]. intros [|j] jp Hj; simpl in Hj; [|by eapply IH3].
           simplify_eq. by destruct (Z.eqb_spec (i_ref jp) 0).
Qed.

(** A state that differs in the inode cache only. *)
Record ichange s s' : Prop := {
  ich_eq : s' = s <| d_inodes := d_inodes s' |> <| d_woken := d_woken s' |>;
}.
Lemma ichange_tx s s' : ichange s s' → tx s ∅ → tx s' ∅ ∧ tx_frame ∅ s s' ∅.
Proof.
  intros [->] [[H1 H2 H3 H4 H5 H6 H7 H8] T2 T3 T5 T6 T7 T8 T9 T10 T11]. match goal with |- tx ?t _ ∧ _ => set (s1 := t) end.
  assert (cache_ok s1) by (split; try done; intros i b Hb; destruct (H3 i b Hb); by split).
  split; [by split|]. split; try done; [set_solver|]. simpl. by destruct (d_log s).
Qed.
Lemma frame_none_trans U s1 s2 s3 : tx_frame U s1 s2 ∅ → tx_frame U s2 s3 ∅ → tx_frame U s1 s3 ∅.
Proof. intros F G. rewrite <-(union_empty_l_L ∅). by eapply tx_frame_trans. Qed.
Lemma ichange_set s f : ichange s (s <| d_inodes ::= f |>).
Proof. split. by destruct s. Qed.

(** One entry of the cache changes. *)
Lemma icache_update s s' lk lk' i ip ip' :
  icache s lk → tx_frame ∅ s s' ∅ → d_inodes s !! i = Some ip → d_inodes s' = <[i := ip']> (d_inodes s) → 0 ≤ i_ref ip' →
  (0 < i_ref ip' → i_dev ip' = 1 ∧ (∀ j jp, j ≠ i → d_inodes s !! j = Some jp → 0 < i_ref jp → i_inum jp ≠ i_inum ip') ∧
     (i_valid ip' = true → load (view s) (d_sb s) (i_inum ip') ip' = ip')) →
  (lk' ≠ Some i → i_locked ip' = false) → (∀ j, j ≠ i → lk' ≠ Some j → lk ≠ Some j) → icache s' lk'.
Proof.
  intros [C1 C2 C3 C4 C5 C6] F Hi E Hr Hp Hlk Hl. pose proof (lookup_lt_Some _ _ _ Hi) as Hlt.
  assert (∀ j jp, d_inodes s' !! j = Some jp → (j = i ∧ jp = ip') ∨ (j ≠ i ∧ d_inodes s !! j = Some jp)) as Hc.
  { intros j jp. rewrite E. destruct (decide (j = i)) as [->|Hne]; [rewrite list_lookup_insert_eq by done; intros [= <-]; by left|].
    rewrite list_lookup_insert_ne by done. by right. }
  assert (∀ n jp, load (view s') (d_sb s') n jp = load (view s) (d_sb s) n jp) as Hload.
  { intros n jp. unfold load. rewrite (tf_sb _ _ _ _ F). by rewrite (tf_view _ _ _ _ F). }
  split.
  - by rewrite (tf_icache _ _ _ _ F).
  - intros j jp [[-> ->]|[? Hj]]%Hc; [done|by eapply C2].
  - intros j jp [[-> ->]|[? Hj]]%Hc Hpos; [by apply Hp|by eapply C3].
  - intros j k jp kp [[-> ->]|[Hj Ej]]%Hc [[-> ->]|[Hk Ek]]%Hc Pj Pk En; [done| | |by eapply C4].
    + by destruct (proj1 (proj2 (Hp Pj)) k kp Hk Ek Pk).
    + by destruct (proj1 (proj2 (Hp Pk)) j jp Hj Ej Pj).
  - intros j jp [[-> ->]|[? Hj]]%Hc Hpos Hv; rewrite Hload; [by apply Hp|by eapply C5].
  - intros j jp [[-> ->]|[Hne Hj]]%Hc Hn; [by apply Hlk|]. eapply C6; [done|]. by apply Hl.
Qed.

Lemma load_ref V sb n ip f : load V sb n (ip <| i_ref ::= f |>) = (load V sb n ip) <| i_ref ::= f |>.
Proof. unfold load. by rewrite !get_dinode_eq. Qed.
Lemma load_valid V sb n ip b : load V sb n (ip <| i_valid := b |>) = (load V sb n ip) <| i_valid := b |>.
Proof. unfold load. by rewrite !get_dinode_eq. Qed.
Lemma load_locked V sb n ip b : load V sb n (ip <| i_locked := b |>) = (load V sb n ip) <| i_locked := b |>.
Proof. unfold load. by rewrite !get_dinode_eq. Qed.

(** [iget] has returned [i] for inode [n]. *)
Record got s s' (i : nat) (n : Z) ip ip' : Prop := {
  go_tx : tx s' ∅;
  go_frame : tx_frame ∅ s s' ∅;
  go_old : d_inodes s !! i = Some ip;
  go_new : d_inodes s' = <[i := ip']> (d_inodes s);
  go_dev : i_dev ip' = 1;
  go_inum : i_inum ip' = n;
  go_ref : 0 ≤ i_ref ip ∧ i_ref ip' = i_ref ip + 1;
  go_hit : 0 < i_ref ip → ip' = ip <| i_ref ::= λ n, n + 1 |>;
  go_miss : i_ref ip = 0 → i_valid ip' = false ∧ i_locked ip' = i_locked ip ∧ ∀ j jp, d_inodes s !! j = Some jp → 0 < i_ref jp → i_inum jp ≠ n;
}.

Definition free_slot s : Prop := ∃ j jp, d_inodes s !! j = Some jp ∧ i_ref jp = 0.

Lemma iget_step s i ip f :
  d_icache_lock s = false → tx s ∅ → d_inodes s !! i = Some ip →
  wp (modino i f ;; release d_icache_lock ;; ret i)
    (λ r s', r = i ∧ tx s' ∅ ∧ tx_frame ∅ s s' ∅ ∧ d_inodes s' = <[i := f ip]> (d_inodes s)) (s <| d_icache_lock := true |>).
Proof.
  intros Hl T Hi. apply wp_bind. eapply wp_modino; [done|]. apply wp_bind, wp_release; [done|]. apply wp_ret. split; [done|].
  match goal with |- tx ?t _ ∧ _ => set (s1 := t) end. assert (ichange s s1) as Ich by (split; destruct s; simpl in *; subst; done).
  by destruct (ichange_tx s s1 Ich T).
Qed.

Lemma iget_spec s lk n :
  icache s lk → tx s ∅ → free_slot s → wp (iget 1 n) (λ i s', ∃ ip ip', got s s' i n ip ip') s.
Proof.
  intros C T (j0 & jp0 & Hj0 & Hr0). pose proof (ic_lock _ _ C) as Hlk. unfold iget. apply wp_bind, wp_acquire; [done|]. apply wp_bind, wp_gets.
  change (d_inodes (s <| d_icache_lock := true |>)) with (d_inodes s).
  pose proof (iget_scan_spec (d_inodes s) 0 1 n None) as Hsc. destruct (iget_scan (d_inodes s) 0 1 n None) as [[i|] e].
  - destruct Hsc as (ip & _ & Hi & Hm1 & Hm2 & Hm3). rewrite Nat.sub_0_r in Hi.
    eapply wp_mono; [by apply iget_step|]. intros r s' (-> & T' & F & E). eexists ip, _. split; [done|done|exact Hi|exact E|done|done|simpl; lia|done|lia].
  - destruct Hsc as [Hno He]. destruct e as [i|]; [|destruct He as [_ He]; by destruct (He j0 jp0)].
    destruct He as [Hs|(ip & _ & Hi & Hr)]; [done|]. rewrite Nat.sub_0_r in Hi.
    eapply wp_mono; [by apply iget_step|]. intros r s' (-> & T' & F & E). eexists ip, _. split; [done|done|exact Hi|exact E|done|done|simpl; lia|lia|].
    intros _. split_and!; [done|done|]. intros j jp Hj Hp Ej. apply (Hno j jp Hj). split_and!; [done|by eapply (ic_dev _ _ C)|done].
Qed.

Lemma got_icache s s' lk i n ip ip' :
  icache s lk → got s s' i n ip ip' → icache s' lk.
Proof.
  intros C [G1 G2 G3 G4 G5 G6 [G7 G8] G9 G10]. apply (icache_update s s' lk lk i ip ip'); try done; [lia| |].
  - intros _. destruct (decide (0 < i_ref ip)) as [Hp|Hp].
    + rewrite (G9 Hp) in *. simpl in *. split; [done|]. split.
      * intros j jp Hne Hj Hjp E. apply Hne. by eapply (ic_uniq _ _ C).
      * intros Hv. rewrite load_ref. by rewrite (ic_valid _ _ C i ip G3 Hp Hv).
    + destruct G10 as (Hv & _ & Hno); [lia|]. split; [done|]. split; [|by rewrite Hv]. intros j jp _ Hj Hjp. rewrite G6. by eapply Hno.
  - intros Hne. destruct (decide (0 < i_ref ip)) as [Hp|Hp]; [rewrite (G9 Hp); simpl; by apply (ic_locked _ _ C i ip)|].
    destruct G10 as (_ & -> & _); [lia|]. by apply (ic_locked _ _ C i ip).
Qed.

(** ** ilock, iunlock, iput *)

Definition loaded s ip : inode := (load (view s) (d_sb s) (i_inum ip) ip) <| i_locked := true |> <| i_valid := true |>.

Lemma loaded_fields s ip :
  i_dev (loaded s ip) = i_dev ip ∧ i_inum (loaded s ip) = i_inum ip ∧ i_ref (loaded s ip) = i_ref ip ∧
  i_locked (loaded s ip) = true ∧ i_valid (loaded s ip) = true.
Proof. unfold loaded, load. by rewrite !get_dinode_eq. Qed.

Lemma ilock_load_spec s i ip :
  icache s None → tx s ∅ → layout (d_sb s) → d_inodes s !! i = Some ip → 0 < i_ref ip → 0 ≤ i_inum ip < sb_ninodes (d_sb s) →
  i_type (loaded s ip) ≠ 0 →
  wp (ilock (Some i)) (λ _ s', tx s' ∅ ∧ tx_frame ∅ s s' ∅ ∧ d_inodes s' = <[i := loaded s ip]> (d_inodes s)) s.
Proof.
  intros C T L Hi Hr Hn Hty. unfold ilock. apply wp_bind. eapply wp_getino; [done|]. destruct (Z.ltb_spec (i_ref ip) 1); [lia|].
  apply wp_bind. unfold acquire_ino. apply wp_bind. eapply wp_getino; [done|]. rewrite (ic_locked _ _ C i ip Hi) by done. eapply wp_modino; [done|].
  set (ip1 := ip <| i_locked := true |>). set (s1 := s <| d_inodes ::= <[i := ip1]> |>). pose proof (lookup_lt_Some _ _ _ Hi) as Hlt.
  destruct (ichange_tx s s1 (ichange_set s _) T) as [T1 F1].
  assert (d_inodes s1 !! i = Some ip1) as Hi1 by (by apply list_lookup_insert_eq).
  apply wp_bind. eapply wp_getino; [done|]. change (i_valid ip1) with (i_valid ip). destruct (i_valid ip) eqn:Hv.
  - apply wp_ret. split_and!; [done|done|]. simpl. f_equal. unfold loaded. rewrite (ic_valid _ _ C i ip Hi Hr Hv). unfold ip1. destruct ip. simpl in *. by subst.
  - apply wp_bind, wp_gets. change (i_dev ip1) with (i_dev ip). rewrite (ic_dev _ _ C i ip Hi Hr). change (d_sb s1) with (d_sb s). change (i_inum ip1) with (i_inum ip).
    set (ib := IBLOCK (i_inum ip) (d_sb s)). pose proof (IBLOCK_range _ _ L Hn) as Hib. fold ib in Hib. pose proof (layout_pos _ L).
    apply wp_bind. eapply wp_mono; [by apply (bread_tx s1 ∅ ib); [|lia|set_solver|rewrite size_empty; lia]|]. intros b s2 (T2 & H2 & F2 & I2).
    apply wp_bind. eapply bdata_spec; [apply H2|]. apply wp_bind. eapply wp_modino; [by rewrite I2|].
    change (view s1 ib) with (view s ib). set (ip2 := get_dinode (view s ib) (i_inum ip mod IPB) ip1).
    set (s3 := s2 <| d_inodes ::= <[i := ip2]> |>). destruct (tx_inodes (<[i := ip2]>) s2 _ T2) as [T3 F3].
    apply wp_bind. eapply wp_mono; [apply (brelse_tx s3 ∅ b ib (view s ib)); [exact T3|set_solver|by eapply held_frame; [exact F3|set_solver|set_solver|]]|].
    intros [] s4 (T4 & F4 & I4). assert (d_inodes s4 = <[i := ip2]> (d_inodes s)) as E4 by (rewrite I4; simpl; rewrite I2; simpl; apply list_insert_insert_eq).
    apply wp_bind. eapply wp_modino; [rewrite E4; by apply list_lookup_insert_eq|]. set (s5 := s4 <| d_inodes ::= _ |>).
    assert (d_inodes s5 = <[i := loaded s ip]> (d_inodes s)) as E5 by (simpl; rewrite E4; apply list_insert_insert_eq).
    destruct (ichange_tx s4 s5 (ichange_set s4 _) T4) as [T5 F5].
    apply wp_bind. eapply wp_getino; [rewrite E5; by apply list_lookup_insert_eq|]. destruct (Z.eqb_spec (i_type (loaded s ip)) 0); [done|].
    apply wp_ret. split_and!; [done| |done]. eapply frame_none_trans; [exact F1|]. eapply frame_none_trans; [exact F2|].
    eapply frame_none_trans; [by eapply tx_frame_mono; [exact F3|set_solver|]|]. by eapply frame_none_trans.
Qed.

Lemma load_loaded s ip : load (view s) (d_sb s) (i_inum ip) (loaded s ip) = loaded s ip.
Proof. unfold loaded, load. by rewrite !get_dinode_eq. Qed.

Lemma ilock_icache s s' i ip :
  icache s None → tx_frame ∅ s s' ∅ → d_inodes s !! i = Some ip → 0 < i_ref ip → d_inodes s' = <[i := loaded s ip]> (d_inodes s) → icache s' (Some i).
Proof.
  intros C F Hi Hr E. destruct (loaded_fields s ip) as (L1 & L2 & L3 & L4 & L5).
  apply (icache_update s s' None (Some i) i ip (loaded s ip) C F Hi E); [lia| |congruence|congruence]. intros _. rewrite L1, L2, load_loaded.
  split; [by apply (ic_dev _ _ C i ip)|]. split; [|done]. intros j jp Hne Hj Hjp En. apply Hne. by eapply (ic_uniq _ _ C).
Qed.

Lemma acquire_ino_spec s i ip :
  tx s ∅ → d_inodes s !! i = Some ip → i_locked ip = false →
  wp (acquire_ino i) (λ _ s', tx s' ∅ ∧ tx_frame ∅ s s' ∅ ∧ d_inodes s' = <[i := ip <| i_locked := true |>]> (d_inodes s)) s.
Proof.
  intros T Hi Hl. unfold acquire_ino. apply wp_bind. eapply wp_getino; [done|]. rewrite Hl. eapply wp_modino; [done|].
  by destruct (ichange_tx _ _ (ichange_set s (<[i := ip <| i_locked := true |>]>)) T).
Qed.
Lemma release_ino_spec s i ip :
  tx s ∅ → d_inodes s !! i = Some ip →
  wp (release_ino i) (λ _ s', tx s' ∅ ∧ tx_frame ∅ s s' ∅ ∧ d_inodes s' = <[i := ip <| i_locked := false |>]> (d_inodes s)) s.
Proof.
  intros T Hi. unfold release_ino. apply wp_bind. eapply wp_modino; [done|]. apply wp_modify.
  match goal with |- tx ?t _ ∧ _ => set (s1 := t) end. assert (ichange s s1) as Ich by (split; by destruct s). by destruct (ichange_tx s s1 Ich T).
Qed.
Lemma drop_ref_spec s i ip :
  d_icache_lock s = false → tx s ∅ → d_inodes s !! i = Some ip →
  wp (acquire d_icache_lock ;; modino i (λ ip, ip <| i_ref ::= λ n, n - 1 |>) ;; release d_icache_lock)
    (λ _ s', tx s' ∅ ∧ tx_frame ∅ s s' ∅ ∧ d_inodes s' = <[i := ip <| i_ref ::= λ n, n - 1 |>]> (d_inodes s)) s.
Proof.
  intros Hl T Hi. apply wp_bind, wp_acquire; [done|]. apply wp_bind. eapply wp_modino; [done|]. apply wp_release; [done|].
  match goal with |- tx ?t _ ∧ _ => set (s1 := t) end. assert (ichange s s1) as Ich by (split; destruct s; simpl in *; subst; done).
  by destruct (ichange_tx s s1 Ich T).
Qed.

Lemma iput_spec s i ip :
  icache s None → tx s ∅ → d_inodes s !! i = Some ip → 0 < i_ref ip → i_nlink ip ≠ 0 ∨ i_valid ip = false →
  wp (iput i) (λ _ s', tx s' ∅ ∧ tx_frame ∅ s s' ∅ ∧ d_inodes s' = <[i := ip <| i_ref ::= λ n, n - 1 |>]> (d_inodes s)) s.
Proof.
  intros C T Hi Hr Hn. pose proof (ic_lock _ _ C) as Hl. pose proof (lookup_lt_Some _ _ _ Hi) as Hlt. pose proof (ic_locked _ _ C i ip Hi ltac:(done)) as Hul.
  unfold iput. apply wp_bind. eapply wp_mono; [by apply acquire_ino_spec|]. intros [] s1 (T1 & F1 & I1).
  assert (d_inodes s1 !! i = Some (ip <| i_locked := true |>)) as Hi1 by (rewrite I1; by apply list_lookup_insert_eq).
  apply wp_bind. eapply wp_getino; [exact Hi1|]. change (i_valid (ip <| i_locked := true |>)) with (i_valid ip). change (i_nlink (ip <| i_locked := true |>)) with (i_nlink ip).
  assert (i_valid ip && (i_nlink ip =? 0) = false) as -> by (destruct Hn as [Hn| ->]; [apply Z.eqb_neq in Hn; rewrite Hn; apply andb_false_r|done]).
  apply wp_bind, wp_ret. apply wp_bind. eapply wp_mono; [by apply release_ino_spec|]. intros [] s2 (T2 & F2 & I2).
  rewrite I1, list_insert_insert_eq in I2. assert (ip <| i_locked := true |> <| i_locked := false |> = ip) as E by (destruct ip; simpl in *; by subst). rewrite E in I2.
  assert (d_inodes s2 = d_inodes s) as I2' by (rewrite I2; by apply list_insert_id). pose proof (frame_none_trans _ _ _ _ F1 F2) as F02.
  eapply wp_mono; [apply (drop_ref_spec s2 i ip); [by rewrite (tf_icache _ _ _ _ F02)|done|by rewrite I2']|]. intros [] s3 (T3 & F3 & I3).
  split_and!; [done|by eapply frame_none_trans|by rewrite I3, I2'].
Qed.

Lemma iput_icache s s' i ip :
  icache s None → tx_frame ∅ s s' ∅ → d_inodes s !! i = Some ip → 0 < i_ref ip →
  d_inodes s' = <[i := ip <| i_ref ::= λ n, n - 1 |>]> (d_inodes s) → icache s' None.
Proof.
  intros C F Hi Hr E. apply (icache_update s s' None None i ip _ C F Hi E); [simpl; lia| |by intros _; apply (ic_locked _ _ C i ip)|done].
  intros _. change (i_inum (ip <| i_ref ::= λ n, n - 1 |>)) with (i_inum ip). split; [by apply (ic_dev _ _ C i ip)|]. split; [intros j jp Hne Hj Hjp En; apply Hne; by eapply (ic_uniq _ _ C)|].
  intros Hv. rewrite load_ref. by rewrite (ic_valid _ _ C i ip Hi Hr Hv).
Qed.

Lemma iunlockput_spec s i ip :
  icache s (Some i) → tx s ∅ → d_inodes s !! i = Some ip → 0 < i_ref ip → i_locked ip = true → i_nlink ip ≠ 0 →
  wp (iunlockput i) (λ _ s', tx s' ∅ ∧ tx_frame ∅ s s' ∅ ∧ icache s' None ∧
    d_inodes s' = <[i := ip <| i_locked := false |> <| i_ref ::= λ n, n - 1 |>]> (d_inodes s)) s.
Proof.
  intros C T Hi Hr Hlk Hn. pose proof (lookup_lt_Some _ _ _ Hi) as Hlt. unfold iunlockput. apply wp_bind. eapply wp_mono; [apply (iunlock_spec s i ip); [done|lia|done]|].
  intros [] s1 E1. set (ip1 := ip <| i_locked := false |>) in *. assert (d_inodes s1 = <[i := ip1]> (d_inodes s)) as I1 by (by subst s1).
  assert (ichange s s1) as Ich by (split; subst s1; by destruct s). destruct (ichange_tx s s1 Ich T) as [T1 F1].
  assert (icache s1 None) as C1.
  { apply (icache_update s s1 (Some i) None i ip ip1 C F1 Hi I1); [simpl; lia| |done|congruence]. change (i_inum ip1) with (i_inum ip). intros _. split; [by apply (ic_dev _ _ C i ip)|].
    split; [intros j jp Hne Hj Hjp En; apply Hne; by eapply (ic_uniq _ _ C)|]. intros Hv. pose proof (ic_valid _ _ C i ip Hi Hr Hv) as Hl.
    unfold ip1. rewrite load_locked. by rewrite Hl. }
  assert (d_inodes s1 !! i = Some ip1) as Hi1 by (rewrite I1; by apply list_lookup_insert_eq).
  eapply wp_mono; [apply (iput_spec s1 i ip1); try done; by left|]. intros [] s2 (T2 & F2 & I2).
  split_and!; [done|by eapply frame_none_trans|by eapply iput_icache|]. by rewrite I2, I1, list_insert_insert_eq.
Qed.

(** ** dirlookup *)

Section dirs.
Context (devread : Z → option (nat → Z → M fsys (Z * list Z))).

Lemma lookup_entries c (m : nat) :
  Z.of_nat m < Z.of_nat (length c) / sizeof_dirent → entries c !! m = Some (slice c (Z.of_nat m * sizeof_dirent) sizeof_dirent).
Proof using. intros Hm. unfold entries. rewrite list_lookup_fmap, lookup_seq_lt by lia. done. Qed.
Lemma length_entries c : length (entries c) = Z.to_nat (Z.of_nat (length c) / sizeof_dirent).
Proof using. unfold entries. by rewrite length_fmap, length_seq. Qed.

Lemma read_dirent_spec s i ip msg off :
  iready s i ip → i_type ip = T_DIR → 0 ≤ off → off + sizeof_dirent ≤ i_size ip →
  wp (read_dirent devread msg i off) (λ de s', de = slice (content (view s) ip) off sizeof_dirent ∧ iready s' i ip ∧
    tx_frame ∅ s s' ∅ ∧ d_inodes s' = d_inodes s) s.
Proof using.
  intros R Hty Hoff Hle. pose proof (io_size _ _ _ (ir_inode _ _ _ R)) as Hsz. rewrite MAXFILE_eq in Hsz. unfold read_dirent, sizeof_dirent, BSIZE in *.
  apply wp_bind. eapply wp_mono; [apply (readi_spec devread s i ip off 16); [done|by rewrite Hty|lia..]|].
  intros r s' (-> & R' & F & I). rewrite Z.min_l by lia. simpl. by apply wp_ret.
Qed.

Lemma got_before s s1 s' i n ip ip' :
  tx_frame ∅ s s1 ∅ → d_inodes s1 = d_inodes s → got s1 s' i n ip ip' → got s s' i n ip ip'.
Proof using. intros F E [G1 G2 G3 G4 G5 G6 G7 G8 G9]. rewrite E in *. split; try done. by eapply frame_none_trans. Qed.

(** The entries before [m] do not have the name. *)
Definition looked s i ip name (off : Z) s1 : Prop :=
  ∃ m : nat, off = Z.of_nat m * sizeof_dirent ∧ Z.of_nat m ≤ i_size ip / sizeof_dirent ∧
    (∀ k de, (k < m)%nat → entries (content (view s) ip) !! k = Some de → ¬ names name de) ∧
    iready s1 i ip ∧ tx_frame ∅ s s1 ∅ ∧ d_inodes s1 = d_inodes s.

Lemma icache_frame s s' lk : icache s lk → tx_frame ∅ s s' ∅ → d_inodes s' = d_inodes s → icache s' lk.
Proof using.
  intros [C1 C2 C3 C4 C5 C6] F E. split; rewrite ?E; try done; [by rewrite (tf_icache _ _ _ _ F)|].
  intros i ip Hi Hr Hv. unfold load. rewrite (tf_sb _ _ _ _ F), (tf_view _ _ _ _ F) by set_solver. by apply (C5 i ip).
Qed.

Lemma dirlookup_spec s i ip name c :
  iready s i ip → i_type ip = T_DIR → content (view s) ip = c → Z.of_nat (length c) mod sizeof_dirent = 0 →
  icache s (Some i) → free_slot s →
  wp (dirlookup devread i name) (λ r s',
    match dir_find c name with
    | None => r = None ∧ tx s' ∅ ∧ tx_frame ∅ s s' ∅ ∧ d_inodes s' = d_inodes s
    | Some (m, de) => ∃ k kp kp', r = Some (k, Z.of_nat m * sizeof_dirent) ∧ got s s' k (de_inum de) kp kp'
    end) s.
Proof using.
  intros R Hty Ec Hm C (j0 & jp0 & Hj0 & Hr0). pose proof (io_size _ _ _ (ir_inode _ _ _ R)) as Hsz.
  pose proof (length_content (view s) ip ltac:(lia)) as Hl. rewrite Ec in Hl. rewrite Hl in Hm.
  pose proof (Z.div_mod (i_size ip) sizeof_dirent ltac:(done)) as Hdm. rewrite Hm, Z.add_0_r in Hdm.
  unfold dirlookup. apply wp_bind. eapply wp_getino; [apply R|]. rewrite Hty. simpl negb. cbv iota.
  apply (wp_loop (looked s i ip name) (λ off, Z.to_nat (i_size ip / sizeof_dirent - off / sizeof_dirent))).
  - exists 0%nat. split_and!; [done|apply Z.div_pos; [lia|done]|intros k de Hk; lia|done|apply tx_frame_refl|done].
  - unfold dir_fuel. rewrite Z.div_0_l by done. lia.
  - intros off s1 (m & -> & Hmle & Hno & R1 & F1 & I1). apply wp_bind. eapply wp_getino; [apply R1|].
    destruct (Z.ltb_spec (Z.of_nat m * sizeof_dirent) (i_size ip)) as [Hlt|Hge].
    + assert (Z.of_nat m < i_size ip / sizeof_dirent) as Hml by (unfold sizeof_dirent in *; lia).
      assert (content (view s1) ip = c) as Ec1 by (rewrite (frame_view _ _ _ F1); done).
      apply wp_bind. eapply wp_mono; [apply (read_dirent_spec s1 i ip); [done|done|unfold sizeof_dirent; lia|unfold sizeof_dirent in *; lia]|].
      rewrite Ec1. intros de s2 (Ede & R2 & F2 & I2). pose proof (lookup_entries c m ltac:(by rewrite Hl)) as Hen. rewrite <-Ede in Hen.
      pose proof (frame_none_trans _ _ _ _ F1 F2) as F02. assert (d_inodes s2 = d_inodes s) as I02 by congruence.
      assert (¬ names name de → looked s i ip name (Z.of_nat m * sizeof_dirent + sizeof_dirent) s2 ∧
        (Z.to_nat (i_size ip / sizeof_dirent - (Z.of_nat m * sizeof_dirent + sizeof_dirent) / sizeof_dirent) <
         Z.to_nat (i_size ip / sizeof_dirent - (Z.of_nat m * sizeof_dirent) / sizeof_dirent))%nat) as Hnext.
      { intros Hn. replace (Z.of_nat m * sizeof_dirent + sizeof_dirent) with (Z.of_nat (S m) * sizeof_dirent) by (unfold sizeof_dirent; lia).
        rewrite !Z.div_mul by done. split; [|lia]. exists (S m). split_and!; [done|lia| |done..]. intros k dk Hk Hdk. rewrite Ec in Hdk.
        destruct (decide (k = m)) as [->|]; [by simplify_eq|]. apply (Hno k); [lia|by rewrite Ec]. }
      destruct (Z.eqb_spec (de_inum de) 0) as [E0|E0]; [apply wp_ret; apply Hnext; by intros [? _]|].
      destruct (Z.eqb_spec (namecmp name (de_name de)) 0) as [En|En]; [|apply wp_ret; apply Hnext; by intros [_ ?]].
      apply wp_bind. rewrite (io_dev _ _ _ (ir_inode _ _ _ R)).
      eapply wp_mono; [apply (iget_spec s2 (Some i)); [by eapply icache_frame|apply R2|exists j0, jp0; by rewrite I02]|].
      intros k s3 (kp & kp' & G). apply wp_ret.
      assert (dir_find c name = Some (m, de)) as ->.
      { apply list_find_Some. split_and!; [done|done|]. intros k' de' Hk' Hlt'. apply (Hno k'); [done|by rewrite Ec]. }
      exists k, kp, kp'. split; [done|]. by eapply got_before.
    + assert (Z.of_nat m = i_size ip / sizeof_dirent) as Em by (unfold sizeof_dirent in *; lia).
      apply wp_ret. assert (dir_find c name = None) as ->.
      { apply list_find_None, Forall_forall. intros de [k Hk]%list_elem_of_lookup. apply (Hno k); [|by rewrite Ec].
        apply lookup_lt_Some in Hk. rewrite length_entries, Hl in Hk. lia. }
      split_and!; [done|apply R1|done|done].
Qed.

(** ** Paths *)

Lemma skip_slashes_length path : (length (skip_slashes path) ≤ length path)%nat.
Proof using. induction path as [|x path IH]; simpl; [done|]. destruct (x =? slash); simpl; lia. Qed.
Lemma span_elem_length path e r : span_elem path = (e, r) → (length e + length r = length path)%nat.
Proof using.
  revert e r. induction path as [|x path IH]; intros e r; simpl; [by intros [= <- <-]|]. destruct ((x =? slash) || (x =? 0)); [by intros [= <- <-]|].
  destruct (span_elem path) as [e' r'] eqn:E. intros [= <- <-]. specialize (IH e' r' eq_refl). simpl. lia.
Qed.
Lemma skip_slashes_head path x r : skip_slashes path = x :: r → x ≠ slash.
Proof using. induction path as [|y path IH]; simpl; [done|]. destruct (Z.eqb_spec y slash); [done|]. by intros [= <- <-]. Qed.
Lemma skipelem_length path rest name : skipelem path = Some (rest, name) → (length rest < length path)%nat.
Proof using.
  unfold skipelem. pose proof (skip_slashes_length path) as Hl. destruct (skip_slashes path) as [|x q] eqn:E; [done|]. pose proof (skip_slashes_head _ _ _ E) as Hx.
  destruct (Z.eqb_spec x 0); [done|]. destruct (span_elem (x :: q)) as [e r] eqn:Es. intros [= <- _]. pose proof (span_elem_length _ _ _ Es) as Hsp.
  assert (e ≠ []) as He.
  { intros ->. simpl in Es. destruct (Z.eqb_spec x slash); [done|]. destruct (Z.eqb_spec x 0); [done|]. simpl in Es. by destruct (span_elem q). }
  pose proof (skip_slashes_length r). destruct e; [done|]. simpl in *. lia.
Qed.

Lemma path_elems_fuel f1 f2 path : (length path < f1)%nat → (length path < f2)%nat → path_elems f1 path = path_elems f2 path.
Proof using.
  revert f2 path. induction f1 as [|f1 IH]; intros [|f2] path H1 H2; [lia..|]. simpl. destruct (skipelem path) as [[rest name]|] eqn:E; [|done].
  pose proof (skipelem_length _ _ _ E). f_equal. apply IH; lia.
Qed.
Definition elems (path : list Z) : list (list Z) := path_elems (S (length path)) path.
Lemma elems_eq path : elems path = match skipelem path with None => [] | Some (rest, name) => name :: elems rest end.
Proof using.
  destruct (skipelem path) as [[rest name]|] eqn:E; unfold elems at 1; cbn [path_elems]; rewrite E; [|done].
  pose proof (skipelem_length _ _ _ E). unfold elems. f_equal. apply path_elems_fuel; lia.
Qed.

(** The walk from the state [s0] holds inode [n], at [i] in the cache. *)
Record at_inode s0 s i (n : Z) : Prop := {
  ai_icache : icache s None;
  ai_tx : tx s ∅;
  ai_frame : tx_frame ∅ s0 s ∅;
  ai_refs : refs (d_inodes s0) (d_inodes s) (λ j, if decide (j = i) then 1 else 0);
  ai_at : ∃ ip, d_inodes s !! i = Some ip ∧ i_inum ip = n ∧ 0 < i_ref ip;
}.

(** The walk has let go of every inode. *)
Record let_go s0 s : Prop := {
  lg_icache : icache s None;
  lg_tx : tx s ∅;
  lg_frame : tx_frame ∅ s0 s ∅;
  lg_refs : refs (d_inodes s0) (d_inodes s) (λ _, 0);
}.

Definition two_free s : Prop := ∃ j k jp kp, j ≠ k ∧ d_inodes s !! j = Some jp ∧ d_inodes s !! k = Some kp ∧ i_ref jp = 0 ∧ i_ref kp = 0.

Lemma refs_got l s s' o k n kp kp' :
  refs l (d_inodes s) o → (∀ j, 0 ≤ o j) → got s s' k n kp kp' → refs l (d_inodes s') (λ j, o j + if decide (j = k) then 1 else 0).
Proof using.
  intros R Ho [G1 G2 G3 G4 G5 G6 [G7 G8] G9 G10]. rewrite G4. apply (refs_update l _ o k kp); [done|done|lia|].
  intros ip0 Hi0 Hp0. pose proof (rf_ref _ _ _ R k ip0 kp Hi0 G3). specialize (Ho k). rewrite G9 by lia. done.
Qed.

Lemma two_free_slot s0 l i :
  two_free s0 → refs (d_inodes s0) l (λ j, if decide (j = i) then 1 else 0) → ∃ j jp, l !! j = Some jp ∧ i_ref jp = 0.
Proof using.
  intros (j & k & jp & kp & Hne & Hj & Hk & Rj & Rk) [H1 H2 H3].
  assert (∀ m mp, d_inodes s0 !! m = Some mp → i_ref mp = 0 → m ≠ i → ∃ j jp, l !! j = Some jp ∧ i_ref jp = 0) as H.
  { intros m mp Hm Rm Hmi. destruct (lookup_lt_is_Some_2 l m) as [mp' Hm']; [rewrite H1; by eapply lookup_lt_Some|].
    exists m, mp'. split; [done|]. rewrite (H2 m mp mp') by done. rewrite decide_False by done. lia. }
  destruct (decide (j = i)) as [->|]; [by eapply (H k)|by eapply (H j)].
Qed.

Section walk.
Context (s0 : fsys) (t : disktree).
Context (Hv : volume (view s0) (d_sb s0)) (Ht : holds (view s0) (d_sb s0) t) (Hf : two_free s0).

(** The inode as [ilock] leaves it. *)
Lemma loaded_ok s n ty c ip :
  tx_frame ∅ s0 s ∅ → t n = Some (ty, c) → i_dev ip = 1 → i_inum ip = n →
  inode_ok (view s) (d_sb s) (loaded s ip) ∧ i_type (loaded s ip) = ty ∧ ty ≠ 0 ∧ i_nlink (loaded s ip) ≠ 0 ∧ content (view s) (loaded s ip) = c.
Proof using Ht.
  intros F Hn Hd Hi. pose proof (frame_view _ _ _ F) as E. pose proof (tf_sb _ _ _ _ F) as Esb.
  set (ip1 := ip <| i_locked := true |> <| i_valid := true |>).
  assert (loaded s ip = load (view s0) (d_sb s0) n ip1) as ->.
  { unfold ip1, loaded. rewrite load_valid, load_locked. unfold load. by rewrite Esb, Hi, (sv_at _ _ E). }
  rewrite Esb, E. split_and!; [by apply (ho_ok _ _ _ Ht n ty c)|by apply (ho_type _ _ _ Ht n ty c)|by apply (ho_type _ _ _ Ht n ty c ip1)|by apply (ho_nlink _ _ _ Ht n ty c)|by apply (ho_content _ _ _ Ht n ty c)].
Qed.

(** [ilock] on the way: the directory can be read. *)
Lemma walk_lock s i n ty c ip :
  at_inode s0 s i n → t n = Some (ty, c) → d_inodes s !! i = Some ip →
  wp (ilock (Some i)) (λ _ s1, iready s1 i (loaded s ip) ∧ tx_frame ∅ s0 s1 ∅ ∧ icache s1 (Some i) ∧ content (view s1) (loaded s ip) = c ∧
    d_inodes s1 = <[i := loaded s ip]> (d_inodes s) ∧ refs (d_inodes s0) (d_inodes s1) (λ j, if decide (j = i) then 1 else 0)) s.
Proof using Hv Ht.
  intros [C T F Rf (ip' & Hi' & Hn & Hr)] Htn Hi. rewrite Hi in Hi'. injection Hi' as <-. subst n. destruct (loaded_fields s ip) as (L1 & L2 & L3 & L4 & L5).
  pose proof (ic_dev _ _ C i ip Hi Hr) as Hd. destruct (loaded_ok s _ ty c ip F Htn Hd eq_refl) as (O1 & O2 & O3 & O4 & O5).
  pose proof (io_inum _ _ _ O1) as Hin. rewrite L2 in Hin. pose proof (lookup_lt_Some _ _ _ Hi) as Hlt.
  eapply wp_mono; [apply (ilock_load_spec s i ip); try done; [rewrite (tf_sb _ _ _ _ F); apply Hv|by rewrite O2]|].
  intros [] s1 (T1 & F1 & I1). pose proof (frame_none_trans _ _ _ _ F F1) as F01.
  assert (same_view (view s1) (view s)) as E1 by (by apply (frame_view ∅)).
  split_and!; [|done|by eapply ilock_icache|by rewrite E1|done|].
  - split; [done| | |rewrite I1; by apply list_lookup_insert_eq].
    + rewrite (tf_sb _ _ _ _ F01), (frame_view _ _ _ F01). done.
    + rewrite (tf_sb _ _ _ _ F1), E1. done.
  - rewrite I1. eapply refs_ext; [|apply (refs_update _ _ _ i ip (loaded s ip) 0 Rf Hi); [lia|by intros]]. intros j. simpl. case_decide; lia.
Qed.

(** [iunlockput] at the end of a step. *)
Lemma walk_put s i x o :
  icache s (Some i) → tx s ∅ → tx_frame ∅ s0 s ∅ → d_inodes s !! i = Some x → 0 < i_ref x → i_locked x = true → i_nlink x ≠ 0 →
  refs (d_inodes s0) (d_inodes s) o →
  wp (iunlockput i) (λ _ s', tx s' ∅ ∧ tx_frame ∅ s0 s' ∅ ∧ icache s' None ∧
    d_inodes s' = <[i := x <| i_locked := false |> <| i_ref ::= λ n, n - 1 |>]> (d_inodes s) ∧
    refs (d_inodes s0) (d_inodes s') (λ j, o j + if decide (j = i) then -1 else 0)) s.
Proof using.
  intros C T F Hi Hr Hl Hn Rf. eapply wp_mono; [by apply (iunlockput_spec s i x)|]. intros [] s' (T' & F' & C' & I').
  split_and!; [done|by eapply frame_none_trans|done|done|]. rewrite I'. by apply (refs_update _ _ _ i x).
Qed.

(** One turn of the loop of [namex]. *)
Definition namex_step i (name rest : list Z) : M fsys (nat * list Z + option (nat * list Z)) :=
  ilock (Some i) ;;
  ip <- getino i ;;
  if negb (i_type ip =? T_DIR) then iunlockput i ;; ret (inr None) else
  if false && (default 0 (head rest) =? 0) then
    iunlock (Some i) ;; ret (inr (Some (i, name)))
  else
    r <- dirlookup devread i name ;;
    match r with
    | None => iunlockput i ;; ret (inr None)
    | Some (next, _) => iunlockput i ;; ret (inl (next, rest))
    end.

(** The walk goes on to [next], which [dirlookup] has found. *)
Lemma walk_next s1 s2 i k n m ip kp kp' :
  icache s1 (Some i) → tx_frame ∅ s0 s1 ∅ → d_inodes s1 !! i = Some ip → i_inum ip = n → 0 < i_ref ip → i_locked ip = true → i_nlink ip ≠ 0 →
  refs (d_inodes s0) (d_inodes s1) (λ j, if decide (j = i) then 1 else 0) → got s1 s2 k m kp kp' →
  wp (iunlockput i) (λ _ s3, at_inode s0 s3 k m) s2.
Proof using.
  intros C F Hi Hn Hr Hlk Hnl Rf G. pose proof (got_icache _ _ _ _ _ _ _ C G) as C2. assert (∀ j, 0 ≤ if decide (j = i) then 1 else 0) as Ho by (intros j; case_decide; lia). pose proof (refs_got _ _ _ _ _ _ _ _ Rf Ho G) as R2.
  pose proof G as [G1 G2 G3 G4 G5 G6 [G7 G8] G9 G10]. pose proof (lookup_lt_Some _ _ _ Hi) as Hlt. pose proof (lookup_lt_Some _ _ _ G3) as Hltk.
  assert (∃ x, d_inodes s2 !! i = Some x ∧ i_locked x = true ∧ i_nlink x ≠ 0 ∧ i_ref x = i_ref ip + (if decide (k = i) then 1 else 0)) as (x & Hx & X1 & X2 & X3).
  { rewrite G4. destruct (decide (k = i)) as [->|Hne].
    - exists kp'. rewrite list_lookup_insert_eq by done. simplify_eq. rewrite G9 by done. by split_and!.
    - exists ip. rewrite list_lookup_insert_ne by done. split_and!; try done. lia. }
  eapply wp_mono; [eapply (walk_put s2 i x _ C2 G1); [by eapply frame_none_trans|done|rewrite X3; case_decide; lia|done|done|exact R2]|].
  intros [] s3 (T3 & F3 & C3 & I3 & R3). split; [done|done|done| |].
  - eapply refs_ext; [|exact R3]. intros j. simpl. repeat case_decide; lia.
  - destruct (decide (k = i)) as [->|Hne].
    + eexists. rewrite I3. split; [by apply list_lookup_insert_eq; rewrite G4, length_insert|]. rewrite G4, list_lookup_insert_eq in Hx by done. injection Hx as <-.
      split; [done|]. simpl. lia.
    + exists kp'. rewrite I3, list_lookup_insert_ne, G4, list_lookup_insert_eq by done. split_and!; [done|done|lia].
Qed.

Lemma walk_step s i n name rest l :
  at_inode s0 s i n → is_Some (t n) →
  wp (namex_step i name rest) (λ y s',
    match y with
    | inl (k, rest') => rest' = rest ∧ ∃ m, resolve t n (name :: l) = resolve t m l ∧ at_inode s0 s' k m ∧ is_Some (t m)
    | inr r => r = None ∧ resolve t n (name :: l) = None ∧ let_go s0 s'
    end) s.
Proof using Hf Ht Hv.
  intros A [[ty c] Htn]. pose proof A as [C T F Rf (ip & Hi & Hn & Hr)]. unfold namex_step. apply wp_bind.
  eapply wp_mono; [by apply (walk_lock s i n ty c ip)|]. intros [] s1 (R1 & F1 & C1 & Ec & I1 & Rf1).
  destruct (loaded_fields s ip) as (L1 & L2 & L3 & L4 & L5).
  destruct (loaded_ok s n ty c ip F Htn (ic_dev _ _ C i ip Hi Hr) Hn) as (_ & O2 & O3 & O4 & _).
  set (lp := loaded s ip) in *. assert (d_inodes s1 !! i = Some lp) as Hi1 by apply R1.
  assert (∀ s', tx s' ∅ → tx_frame ∅ s0 s' ∅ → icache s' (Some i) → d_inodes s' = d_inodes s1 →
    wp (iunlockput i ;; ret (inr None)) (λ y s'', y = (inr None : nat * list Z + option (nat * list Z)) ∧ let_go s0 s'') s') as Hend.
  { intros s' T' F' C' I'. apply wp_bind. eapply wp_mono; [apply (walk_put s' i lp (λ j, if decide (j = i) then 1 else 0)); [done|done|done|by rewrite I'|by rewrite L3|done|done|by rewrite I']|].
    intros [] s2 (T2 & F2 & C2 & I2 & R2). apply wp_ret. split; [done|]. split; [done|done|done|]. eapply refs_ext; [|exact R2]. intros j. simpl. case_decide; lia. }
  apply wp_bind. eapply wp_getino; [done|]. rewrite O2. cbn [resolve]. rewrite Htn. cbn [mbind option_bind]. destruct (Z.eqb_spec ty T_DIR) as [->|Hty]; cbn [negb andb].
  - rewrite decide_True by done. pose proof (ho_dir _ _ _ Ht n c Htn) as Hmod. apply wp_bind.
    eapply wp_mono; [apply (dirlookup_spec s1 i lp name c); try done; by eapply two_free_slot|].
    intros r s2 H2. destruct (dir_find c name) as [[m de]|] eqn:Efind; cbn [mbind option_bind].
    + destruct H2 as (k & kp & kp' & -> & G). apply list_find_Some in Efind as (Hde & [Hde0 _] & _). apply wp_bind.
      eapply wp_mono; [apply (walk_next s1 s2 i k n (de_inum de) lp kp kp'); [done|done|done|by rewrite L2|by rewrite L3|done|done|done|done]|].
      intros [] s3 A3. apply wp_ret. split; [done|]. exists (de_inum de). split_and!; [done|done|].
      apply (ho_closed _ _ _ Ht n c); [done|by eapply list_elem_of_lookup_2|done].
    + destruct H2 as (-> & T2 & F2 & I2). eapply wp_mono; [apply (Hend s2); [done|by eapply frame_none_trans|by eapply icache_frame|done]|].
      intros y s3 [-> Lg]. done.
  - rewrite decide_False by done. eapply wp_mono; [by apply (Hend s1); [apply R1|..]|]. intros y s2 [-> Lg]. done.
Qed.

(** Where a path starts: the root, or the current directory. *)
Definition starts (cwd : option nat) (path : list Z) (n : Z) : Prop :=
  if decide (default 0 (head path) = slash) then n = ROOTINO
  else ∃ i ip, cwd = Some i ∧ d_inodes s0 !! i = Some ip ∧ 0 < i_ref ip ∧ i_inum ip = n.

Lemma namex_start cwd path n :
  icache s0 None → tx s0 ∅ → starts cwd path n →
  wp (if default 0 (head path) =? slash then iget ROOTDEV ROOTINO else c <- of_option "cwd is null" cwd ;; idup c) (λ i s, at_inode s0 s i n) s0.
Proof using Hf.
  intros C T Hs. unfold starts in Hs. destruct (Z.eqb_spec (default 0 (head path)) slash) as [E|E].
  - rewrite decide_True in Hs by done. subst n. destruct Hf as (j & _ & jp & _ & _ & Hj & _ & Rj & _).
    eapply wp_mono; [apply (iget_spec s0 None ROOTINO C T); by exists j, jp|]. intros i s1 (ip & ip' & G).
    pose proof (refs_got _ _ _ _ _ _ _ _ (refs_refl _) ltac:(done) G) as R1. pose proof G as [G1 G2 G3 G4 G5 G6 [G7 G8] G9 G10].
    split; [by eapply got_icache|done|done|by eapply refs_ext; [|exact R1]|]. exists ip'. rewrite G4. split; [apply list_lookup_insert_eq; by eapply lookup_lt_Some|].
    split; [done|lia].
  - rewrite decide_False in Hs by done. destruct Hs as (i & ip & -> & Hi & Hr & Hn). apply wp_bind. eapply wp_of_option; [done|]. unfold idup.
    pose proof (ic_lock _ _ C) as Hl. apply wp_bind, wp_acquire; [done|]. eapply wp_mono; [by apply (iget_step s0 i ip)|].
    intros r s1 (-> & T1 & F1 & I1). pose proof (lookup_lt_Some _ _ _ Hi).
    assert (got s0 s1 i n ip (ip <| i_ref ::= λ n, n + 1 |>)) as G.
    { split; try done; [by apply (ic_dev _ _ C i ip)|simpl; lia|lia]. }
    pose proof (refs_got _ _ _ _ _ _ _ _ (refs_refl _) ltac:(done) G) as R1.
    split; [by eapply got_icache|done|done|by eapply refs_ext; [|exact R1]|]. eexists. rewrite I1. split; [by apply list_lookup_insert_eq|]. split; [done|simpl; lia].
Qed.
End walk.
End dirs.

Lemma namei_spec devread s t cwd path n :
  icache s None → tx s ∅ → volume (view s) (d_sb s) → holds (view s) (d_sb s) t → two_free s → starts s cwd path n → is_Some (t n) →
  wp (namei devread cwd path) (λ r s',
    match resolve t n (elems path) with
    | Some m => ∃ i, r = Some i ∧ at_inode s s' i m
    | None => r = None ∧ let_go s s'
    end) s.
Proof.
  intros C T Hv Ht Hf Hs Hn. unfold namei, namex. apply wp_bind, wp_bind. eapply wp_mono; [by apply namex_start|].
  intros i1 s1 A1. apply (wp_loop (λ '(i, p) s', ∃ m, resolve t n (elems path) = resolve t m (elems p) ∧ at_inode s s' i m ∧ is_Some (t m))
    (λ '(i, p), length p)); [by exists n|lia|].
  intros [i p] s2 (m & Em & A2 & Hm). rewrite (elems_eq p) in Em. destruct (skipelem p) as [[rest name]|] eqn:E.
  - eapply wp_mono; [by apply (walk_step devread s t Hv Ht Hf s2 i m name rest (elems rest))|].
    intros [[k rest']|r] s3 H3.
    + destruct H3 as (-> & m' & E' & A3 & Hm'). split; [|by eapply skipelem_length]. exists m'. split; [congruence|done].
    + destruct H3 as (-> & E' & Lg). apply wp_ret. rewrite Em, E'. done.
  - cbn [resolve] in Em. rewrite Em. apply wp_ret. apply wp_ret. exists i. done.
Qed.
