(* ===== verification/Mkfs.v ===== *)
(** The program that builds the first disk image, [src/mkfs.c].

    The state is the image file and the static variables.  The structures of
    [fs.h] are those of the kernel: a block of the image is laid out with the
    same [put_dinode], [get_dinode] and [dirent] as in [Fs].  The host is little
    endian and its disk does not fail; what [open] and [read] give for the
    files on the command line are arguments of [main].  [exit(1)] and a failed
    [assert] are the outcome [Panic]. *)

From S2P Require Import Prelude Memory Machine Disk Bio Log LogCrash Txn Fs Inode Bmap Rdwr Op FileProps.
From stdpp Require Import options.

(** ** The program *)

Definition NINODES := 200.
Definition nbitmap := FSSIZE / (BSIZE * 8) + 1.
Definition ninodeblocks := NINODES / IPB + 1.
Definition nlog := LOGSIZE.

(** The image: the sectors that have been written and the size of the file in
    sectors; [sb], [freeinode], [freeblock]; and what was printed. *)
Record mkfs := Mkfs {
  mk_img : gmap Z (list Z);
  mk_nsect : Z;
  mk_sb : superblock;
  mk_freeinode : Z;
  mk_freeblock : Z;
  mk_out : list (string * list farg);
}.
#[global] Instance eta_mkfs : Eta mkfs := λ s,
  Mkfs (mk_img s) (mk_nsect s) (mk_sb s) (mk_freeinode s) (mk_freeblock s) (mk_out s).
Implicit Types s : mkfs.

Definition mkfs0 : mkfs := Mkfs ∅ 0 (Superblock 0 0 0 0 0 0 0) 1 0 [].

(** [xshort] and [xint]: the integer whose bytes in memory are given. *)
Definition xshort (x : Z) : Z := rd16 [u8 x; u8 (x / 2 ^ 8)] 0.
Definition xint (x : Z) : Z := rd32 [u8 x; u8 (x / 2 ^ 8); u8 (x / 2 ^ 16); u8 (x / 2 ^ 24)] 0.

Definition printf (fmt : string) (l : list Z) : M mkfs unit := modify (λ s, s <| mk_out ::= cons (fmt, ints l) |>).

(** [sec * BSIZE] is an [uint]. *)
Definition seek (sec : Z) : Z := u32 (sec * BSIZE) / BSIZE.
Definition sector s (sec : Z) : list Z := default zero_block (mk_img s !! sec).

Definition wsect (sec : Z) (buf : list Z) : M mkfs unit :=
  modify (λ s, s <| mk_img ::= <[seek sec := buf]> |> <| mk_nsect ::= Z.max (seek sec + 1) |>).
Definition rsect (sec : Z) : M mkfs (list Z) :=
  n <- gets mk_nsect ;;
  if seek sec <? n then gets (λ s, sector s (seek sec)) else panic "read".

(** A [struct dinode]; the fields of a [struct inode] that are not part of it
    are those the kernel gives to the inode. *)
Definition dinode0 (inum : Z) : inode := Inode 1 inum 0 false false 0 0 0 0 0 (replicate 13 0).

Definition winode (inum : Z) (ip : inode) : M mkfs unit :=
  sb <- gets mk_sb ;;
  let bn := IBLOCK inum sb in
  buf <- rsect bn ;;
  wsect bn (put_dinode ip (inum mod IPB) buf).

Definition rinode (inum : Z) : M mkfs inode :=
  sb <- gets mk_sb ;;
  let bn := IBLOCK inum sb in
  buf <- rsect bn ;;
  ret (get_dinode buf (inum mod IPB) (dinode0 inum)).

Definition ialloc (type : Z) : M mkfs Z :=
  inum <- gets mk_freeinode ;;
  modify (λ s, s <| mk_freeinode := u32 (inum + 1) |>) ;;
  winode inum ((dinode0 inum) <| i_type := xshort type |> <| i_nlink := xshort 1 |> <| i_size := xint 0 |>) ;;
  ret inum.

(** The bitmap in which the first [used] bits are set. *)
Definition used_bits (used : Z) : list Z :=
  foldl (λ buf i, wr8 buf (i / 8) (Z.lor (rd8 buf (i / 8)) (Z.shiftl 1 (i mod 8)))) zero_block (seqZ 0 used).

Definition balloc (used : Z) : M mkfs unit :=
  printf "balloc: first %d blocks have been allocated\n" [used] ;;
  if negb (used <? BSIZE * 8) then panic "used < BSIZE*8" else
  sb <- gets mk_sb ;;
  printf "balloc: write bitmap block at sector %d\n" [sb_bmapstart sb] ;;
  wsect (sb_bmapstart sb) (used_bits used).

(** [freeblock++] *)
Definition next_block : M mkfs Z :=
  fb <- gets mk_freeblock ;; modify (λ s, s <| mk_freeblock := u32 (fb + 1) |>) ;; ret fb.

Definition din_addr (din : inode) (j : Z) : Z := default 0 (aget (i_addrs din) j).
Definition din_alloc (din : inode) (j : Z) : M mkfs inode :=
  if xint (din_addr din j) =? 0 then
    fb <- next_block ;;
    ret (din <| i_addrs ::= λ l, aset l j (xint fb) |>)
  else ret din.

(** The entry at [o] of the indirect block [ind], allocated if it is 0. *)
Definition ientry (ind o : Z) : M mkfs Z :=
  indirect <- rsect ind ;;
  indirect <- (if rd32 indirect o =? 0 then
                 fb <- next_block ;;
                 wsect ind (wr32 indirect o (xint fb)) ;;
                 ret (wr32 indirect o (xint fb))
               else ret indirect) ;;
  ret (xint (rd32 indirect o)).

(** The block [x] of [iappend] for block [fbn] of the file, allocated if it has
    none. *)
Definition iblock (din : inode) (fbn : Z) : M mkfs (inode * Z) :=
  if fbn <? NDIRECT then
    din <- din_alloc din fbn ;;
    ret (din, xint (din_addr din fbn))
  else
    din <- din_alloc din NDIRECT ;;
    x <- ientry (xint (din_addr din NDIRECT)) (4 * (fbn - NDIRECT)) ;;
    ret (din, x).

(** One turn of the loop: [p] are the bytes that are left. *)
Definition iappend_body : inode * Z * list Z → M mkfs (inode * Z * list Z + inode * Z) := λ '(din, off, p),
  let n := Z.of_nat (length p) in
  if 0 <? n then
    let fbn := off / BSIZE in
    if negb (fbn <? MAXFILE) then panic "fbn < MAXFILE" else
    r <- iblock din fbn ;;
    let '(din, x) := r in
    let n1 := Z.min n ((fbn + 1) * BSIZE - off) in
    buf <- rsect x ;;
    wsect x (splice buf (off - fbn * BSIZE) (take (Z.to_nat n1) p)) ;;
    ret (inl (din, off + n1, drop (Z.to_nat n1) p))
  else ret (inr (din, off)).

Definition iappend (inum : Z) (xp : list Z) : M mkfs unit :=
  din <- rinode inum ;;
  r <- loop (S (length xp)) iappend_body (din, xint (i_size din), xp) ;;
  let '(din, off) := r in
  winode inum (din <| i_size := xint off |>).

(** [while((cc = read(fd, buf, sizeof(buf))) > 0) iappend(inum, buf, cc)], where
    [reads] is what the calls of [read] give. *)
Fixpoint append_reads (inum : Z) (reads : list (list Z)) : M mkfs unit :=
  match reads with
  | [] => skip
  | [] :: _ => skip
  | buf :: reads => iappend inum buf ;; append_reads inum reads
  end.

(** A file of the command line: its name and what reading it gives, [None] if
    it cannot be opened. *)
Definition arg : Type := list Z * option (list (list Z)).

(** Without the leading [_]. *)
Definition fs_name (name : list Z) : list Z :=
  match name with c :: r => if c =? 95 then r else name | [] => [] end.

Definition add_file (rootino : Z) (a : arg) : M mkfs unit :=
  let '(name, reads) := a in
  if existsb (Z.eqb slash) name then panic "index(argv[i], '/') == 0" else
  match reads with
  | None => panic "open"
  | Some reads =>
      inum <- ialloc T_FILE ;;
      iappend rootino (dirent (fs_name name) (xshort inum)) ;;
      append_reads inum reads
  end.
Fixpoint add_files (rootino : Z) (l : list arg) : M mkfs unit :=
  match l with [] => skip | a :: l => add_file rootino a ;; add_files rootino l end.

Definition fix_root (rootino : Z) : M mkfs unit :=
  din <- rinode rootino ;;
  let off := xint (i_size din) in
  let off := (off / BSIZE + 1) * BSIZE in
  winode rootino (din <| i_size := xint off |>).

(** The superblock and the zeroed image. *)
Definition format : M mkfs unit :=
  let nmeta := 2 + nlog + ninodeblocks + nbitmap in
  let nblocks := FSSIZE - nmeta in
  let sb := Superblock (xint FSSIZE) (xint nblocks) (xint NINODES) (xint nlog) (xint 2) (xint (2 + nlog)) (xint (2 + nlog + ninodeblocks)) in
  modify (λ s, s <| mk_sb := sb |>) ;;
  printf "nmeta %d (boot, super, log blocks %u inode blocks %u, bitmap blocks %u) blocks %d total %d\n"
    [nmeta; nlog; ninodeblocks; nbitmap; nblocks; FSSIZE] ;;
  modify (λ s, s <| mk_freeblock := nmeta |>) ;;
  for_all (Z.to_nat FSSIZE) 0 (λ i, wsect i zero_block) ;;
  wsect 1 (put_words zero_block 0
    [sb_size sb; sb_nblocks sb; sb_ninodes sb; sb_nlog sb; sb_logstart sb; sb_inodestart sb; sb_bmapstart sb]).

(** The root directory and the files. *)
Definition make_files (files : list arg) : M mkfs Z :=
  rootino <- ialloc T_DIR ;;
  if negb (rootino =? ROOTINO) then panic "rootino == ROOTINO" else
  iappend rootino (dirent [46] (xshort rootino)) ;;
  iappend rootino (dirent [46; 46] (xshort rootino)) ;;
  add_files rootino files ;;
  ret rootino.

(** [image] is [argv[1]], if there is one, and whether it can be opened. *)
Definition main (image : option bool) (files : list arg) : M mkfs unit :=
  match image with
  | None => panic "Usage: mkfs fs.img files...\n"
  | Some false => panic "open"
  | Some true =>
      modify (λ s, s <| mk_img := ∅ |> <| mk_nsect := 0 |>) ;;
      format ;;
      rootino <- make_files files ;;
      fix_root rootino ;;
      fb <- gets mk_freeblock ;;
      balloc fb
  end.
