(* ===== verification/MkfsProps.v ===== *)
(** The image that [mkfs] builds is a file system for the kernel.

    While [mkfs] runs, the blocks below [freeblock] are those in use; the
    bitmap is written at the end.  [mview] is the image with the bitmap that
    [freeblock] stands for, so that the notions of the kernel's files apply to
    it from the beginning: taking a block with [freeblock++] is [took], and
    [iappend] grows an inode the way [bmap] does. *)

From S2P Require Import Prelude Memory Machine Disk Bio Log LogCrash Txn Fs Inode Bmap Rdwr Op FileProps Mkfs.
From stdpp Require Import options.
Implicit Types s : mkfs.
Implicit Types V : Z → list Z.
Implicit Types ip jp din : inode.
Implicit Types c bs : list Z.

(** ** Integers *)

Lemma xint_id x : 0 ≤ x < 2 ^ 32 → xint x = x.
Proof.
  intros Hx. unfold xint, rd32, rd8, aget. simpl. unfold u8. change (2 ^ 8) with 256. change (2 ^ 16) with (256 * 256). change (2 ^ 24) with (256 * 256 * 256).
  rewrite <-!Z.div_div by lia. set (y := x / 256). set (z := y / 256). set (w := z / 256).
  rewrite (Z.mod_small w 256). 2: { subst w z y. split; [repeat apply Z.div_pos; lia|]. rewrite !Z.div_div by lia. apply Z.div_lt_upper_bound; lia. }
  rewrite (Z.div_mod x 256) at 2 by lia. rewrite (Z.div_mod (x / 256) 256) by lia. rewrite (Z.div_mod (x / 256 / 256) 256) by lia.
  fold y. fold z. fold w. lia.
Qed.
Lemma xshort_id x : 0 ≤ x < 2 ^ 16 → xshort x = x.
Proof.
  intros Hx. unfold xshort, rd16, rd8, aget. simpl. unfold u8. change (2 ^ 8) with 256. rewrite (Z.mod_small (x / 256)).
  - pose proof (Z.div_mod x 256). lia.
  - split; [apply Z.div_pos; lia|]. apply Z.div_lt_upper_bound; lia.
Qed.
Lemma seek_id x : 0 ≤ x < FSSIZE → seek x = x.
Proof. intros Hx. unfold seek, FSSIZE, BSIZE in *. rewrite u32_id by lia. apply Z.div_mul. lia. Qed.

Lemma rd8_out c o : Z.of_nat (length c) ≤ o → rd8 c o = 0.
Proof. intros Ho. unfold rd8, aget. case_match; [done|]. by rewrite lookup_ge_None_2 by lia. Qed.
Lemma rd8_app_l c bs o : o < Z.of_nat (length c) → rd8 (c ++ bs) o = rd8 c o.
Proof. intros Ho. unfold rd8, aget. case_match; [done|]. by rewrite lookup_app_l by lia. Qed.
Lemma rd8_app_r c bs o : Z.of_nat (length c) ≤ o → rd8 (c ++ bs) o = rd8 bs (o - Z.of_nat (length c)).
Proof.
  intros Ho. unfold rd8, aget. destruct (Z.ltb_spec o 0); [lia|]. destruct (Z.ltb_spec (o - Z.of_nat (length c)) 0); [lia|].
  rewrite lookup_app_r by lia. do 2 f_equal. lia.
Qed.

(** ** The bitmap *)

Definition sb0 : superblock := Superblock FSSIZE 941 NINODES LOGSIZE 2 32 58.

Lemma layout0 : layout sb0.
Proof. by split; vm_compute. Qed.

Lemma used_bits_next fb : 0 ≤ fb → used_bits (fb + 1) = set_bit fb (used_bits fb).
Proof.
  intros H. unfold used_bits. assert (seqZ 0 (fb + 1) = seqZ 0 fb ++ [fb]) as ->; [|by rewrite foldl_app].
  rewrite seqZ_app by lia. by rewrite Z.add_0_l.
Qed.
Lemma length_used_bits fb : length (used_bits fb) = Z.to_nat BSIZE.
Proof.
  unfold used_bits. assert (length zero_block = Z.to_nat BSIZE) as <- by done. generalize zero_block (seqZ 0 fb). intros b l.
  revert b. induction l as [|x l IH]; intros b; [done|]. simpl. by rewrite IH, length_wr8.
Qed.
Lemma bit_used fb b : 0 ≤ fb ≤ FSSIZE → 0 ≤ b → bit_of (used_bits fb) b = bool_decide (b < fb).
Proof.
  intros Hfb Hb. destruct Hfb as [H0 Hm]. revert fb H0 Hm. apply (natlike_ind (λ fb, fb ≤ FSSIZE → bit_of (used_bits fb) b = bool_decide (b < fb))).
  - intros _. unfold used_bits, bit_of. simpl. rewrite rd8_zero, Z.bits_0. symmetry. apply bool_decide_eq_false_2. lia.
  - intros fb H0 IH Hm. rewrite <-Z.add_1_r, used_bits_next, set_bit_spec, IH by (try rewrite length_used_bits; unfold FSSIZE, BSIZE in *; try apply Z.div_lt_upper_bound; lia).
    destruct (Z.eqb_spec fb b) as [->|Hne]; simpl; [symmetry; apply bool_decide_eq_true_2; lia|]. apply bool_decide_ext. lia.
Qed.

(** ** The image *)

Definition mview s (k : Z) : list Z := if k =? sb_bmapstart sb0 then used_bits (mk_freeblock s) else sector s k.

Record image s : Prop := {
  im_sb : mk_sb s = sb0;
  im_nsect : mk_nsect s = FSSIZE;
  im_free : 58 < mk_freeblock s ≤ FSSIZE;
  im_len k : length (sector s k) = Z.to_nat BSIZE;
  im_zero k : mk_freeblock s ≤ k → sector s k = zero_block;
}.

Lemma image_bit s b : image s → 0 ≤ b → bit_of (bitmap (mview s) sb0) b = bool_decide (b < mk_freeblock s).
Proof. intros Hi Hb. pose proof (im_free _ Hi). unfold bitmap, mview. simpl. apply bit_used; lia. Qed.
Lemma image_volume s : image s → volume (mview s) sb0.
Proof.
  intros Hi. pose proof (im_free _ Hi). split; [apply layout0| |].
  - intros k. unfold mview. case_match; [apply length_used_bits|apply Hi].
  - intros b Hb. simpl in Hb. rewrite image_bit by (done || lia). apply bool_decide_eq_true_2. lia.
Qed.
Lemma image_data s b : image s → is_data (mview s) sb0 b ↔ 58 < b < mk_freeblock s.
Proof.
  intros Hi. pose proof (im_free _ Hi). unfold is_data. split.
  - intros [H1 H2]. simpl in H1. rewrite image_bit in H2 by (done || lia). apply bool_decide_eq_true_1 in H2. lia.
  - intros Hb. split; [simpl; lia|]. rewrite image_bit by (done || lia). apply bool_decide_eq_true_2. lia.
Qed.
Lemma mview_sector s k : k ≠ 58 → mview s k = sector s k.
Proof. intros H. unfold mview. by destruct (Z.eqb_spec k (sb_bmapstart sb0)). Qed.

(** Writing a sector below [freeblock]. *)
Definition put (k : Z) (b : list Z) s : mkfs := s <| mk_img ::= <[k := b]> |>.
Lemma sector_put s k b j : sector (put k b s) j = if decide (j = k) then b else sector s j.
Proof. unfold sector, put. simpl. case_decide as E; [subst; by rewrite lookup_insert_eq|by rewrite lookup_insert_ne]. Qed.
Lemma mview_put s k b j : k ≠ 58 → mview (put k b s) j = if decide (j = k) then b else mview s j.
Proof. intros Hk. unfold mview. rewrite sector_put. destruct (Z.eqb_spec j (sb_bmapstart sb0)) as [->|]; [by rewrite decide_False|done]. Qed.
Lemma image_put s k b : image s → 0 ≤ k < mk_freeblock s → length b = Z.to_nat BSIZE → image (put k b s).
Proof.
  intros [I1 I2 I3 I4 I5] Hk Hb. split; try done.
  - intros j. rewrite sector_put. by case_decide.
  - intros j Hj. rewrite sector_put. simpl in Hj. rewrite decide_False by lia. by apply I5.
Qed.

Lemma wp_rsect s k (Q : list Z → mkfs → Prop) : image s → 0 ≤ k < FSSIZE → Q (sector s k) s → wp (rsect k) Q s.
Proof.
  intros Hi Hk HQ. unfold rsect. apply wp_bind, wp_gets. rewrite seek_id, (im_nsect _ Hi) by done. destruct (Z.ltb_spec k FSSIZE); [|lia]. by apply wp_gets.
Qed.
Lemma wp_wsect s k b (Q : unit → mkfs → Prop) : image s → 0 ≤ k < FSSIZE → Q tt (put k b s) → wp (wsect k b) Q s.
Proof.
  intros Hi Hk HQ. unfold wsect. apply wp_modify. rewrite seek_id by done.
  match goal with |- Q tt ?t => assert (t = put k b s) as E; [|by rewrite E] end.
  pose proof (im_nsect _ Hi) as En. destruct s. simpl in *. unfold put, upd. simpl. f_equal. lia.
Qed.

(** [freeblock++] *)
Definition bump s : mkfs := s <| mk_freeblock ::= λ n, n + 1 |>.
Lemma image_bump s : image s → mk_freeblock s < FSSIZE → image (bump s) ∧ took (mview s) (mview (bump s)) sb0 (mk_freeblock s).
Proof.
  intros Hi Hfb. pose proof Hi as [I1 I2 I3 I4 I5]. split.
  - split; try done; [simpl; lia|]. intros k Hk. apply I5. simpl in Hk. lia.
  - split.
    + apply elem_of_free. rewrite image_bit by (done || lia). split; [apply bool_decide_eq_false_2; lia|simpl; unfold FSSIZE in *; lia].
    + unfold bitmap, mview. simpl. apply used_bits_next. lia.
    + rewrite mview_sector by lia. apply I5. done.
    + intros k _ Hk. by rewrite !mview_sector.
Qed.
Lemma wp_next_block s (Q : Z → mkfs → Prop) :
  image s → mk_freeblock s < FSSIZE → Q (mk_freeblock s) (bump s) → wp next_block Q s.
Proof.
  intros Hi Hfb HQ. pose proof (im_free _ Hi). unfold next_block. apply wp_bind, wp_gets. apply wp_bind, wp_modify. apply wp_ret.
  rewrite u32_id by (unfold FSSIZE in *; lia). done.
Qed.

(** ** A file while it grows *)

(** [c] fills the first [N] blocks of the file, up to zeros at the end; [I]
    says whether it has an indirect block. *)
Record afile V ip c (N : Z) (I : bool) : Prop := {
  af_ok : inode_ok V sb0 ip;
  af_len : Z.of_nat (length c) ≤ N * BSIZE;
  af_N : 0 ≤ N ≤ MAXFILE;
  af_slot bn : 0 ≤ bn < MAXFILE → baddr V ip bn ≠ 0 ↔ bn < N;
  af_ind : ind_addr ip ≠ 0 ↔ I = true;
  af_byte o : 0 ≤ o < N * BSIZE → fbyte V ip o = rd8 c o;
}.

(** The blocks of a file with [N] blocks of data. *)
Definition used (N : Z) : Z := N + if NDIRECT <? N then 1 else 0.

(** A step of [iappend]: only the blocks of the file change, and those it did
    not have before are new. *)
Record step s s' din din' : Prop := {
  sp_changed k : k ≠ 58 → mview s' k ≠ mview s k → owns (mview s') din' k;
  sp_owns k : owns (mview s') din' k → owns (mview s) din k ∨ mk_freeblock s ≤ k;
  sp_keep k : owns (mview s) din k → owns (mview s') din' k;
  sp_fb : mk_freeblock s ≤ mk_freeblock s';
  sp_inum : mk_freeinode s' = mk_freeinode s;
  sp_din : din' = din <| i_addrs := i_addrs din' |>;
}.

Lemma step_refl s din : step s s din din.
Proof. split; try done; [by left|by destruct din]. Qed.
Lemma step_trans s1 s2 s3 d1 d2 d3 : step s1 s2 d1 d2 → step s2 s3 d2 d3 → step s1 s3 d1 d3.
Proof.
  intros [A1 A2 A3 A4 A5 A6] [B1 B2 B3 B4 B5 B6]. split; try lia.
  - intros k Hk Hne. destruct (decide (mview s3 k = mview s2 k)) as [E|E]; [|auto]. rewrite E in Hne. auto.
  - intros k [Hk|Hk]%B2; [auto|right; lia].
  - auto.
  - rewrite B6, A6. done.
Qed.

Lemma slot_fill V V' din din' a j0 j :
  grown V V' sb0 din din' {[a]} → slot V' din' j0 = a → a ≠ 0 → 0 ≤ j0 ≤ MAXFILE → 0 ≤ j ≤ MAXFILE →
  slot V' din' j = if decide (j = j0) then a else slot V din j.
Proof.
  intros G Hj0 Ha Hr Hj. case_decide as E; [by subst|]. destruct (gr_new _ _ _ _ _ _ G j Hj) as [|Hin%elem_of_singleton]; [done|].
  destruct E. apply (io_inj _ _ _ (gr_ok _ _ _ _ _ _ G)); congruence.
Qed.

Lemma step_fill s s' din din' a j0 :
  grown (mview s) (mview s') sb0 din din' {[a]} → slot (mview s') din' j0 = a → a ≠ 0 → 0 ≤ j0 ≤ MAXFILE →
  mk_freeblock s ≤ a → mk_freeblock s ≤ mk_freeblock s' → mk_freeinode s' = mk_freeinode s → step s s' din din'.
Proof.
  intros G Hj0 Ha Hr Hfb Hle Hin. split; try done.
  - intros k Hk Hne. destruct (decide (k = a)) as [->|Hka]; [rewrite <-Hj0; apply owns_slot; [done|congruence]|].
    destruct (decide (k = ind_addr din' ∧ k ≠ 0)) as [[-> H0]|Hn].
    + rewrite <-(slot_ind (mview s')). apply owns_slot; [apply MAXFILE_slot|done].
    + destruct Hne. apply (gr_rest _ _ _ _ _ _ G); [set_solver|done|]. destruct (decide (k = 0)); [by right|left; naive_solver].
  - intros k (Hk & j & Hj & <-). destruct (gr_new _ _ _ _ _ _ G j Hj) as [E|E%elem_of_singleton]; [|right; lia].
    rewrite E in *. left. by apply owns_slot.
  - intros k (Hk & j & Hj & <-). rewrite <-(gr_slot _ _ _ _ _ _ G j Hj) by done. apply owns_slot; [done|]. by rewrite (gr_slot _ _ _ _ _ _ G j Hj).
  - apply (gr_ip _ _ _ _ _ _ G).
Qed.

Lemma BSIZE_div o N : 0 ≤ o < N * BSIZE → 0 ≤ o / BSIZE < N.
Proof. intros Ho. unfold BSIZE in *. split; [apply Z.div_pos; lia|apply Z.div_lt_upper_bound; lia]. Qed.

(** The bytes of the blocks the file had. *)
Lemma afile_bytes V V' din din' c N I a o :
  volume V sb0 → afile V din c N I → grown V V' sb0 din din' {[a]} → 0 ≤ o < N * BSIZE → fbyte V' din' o = rd8 c o.
Proof.
  intros Hv [A1 A2 A3 A4 A5 A6] G Ho. pose proof (BSIZE_div o N Ho) as Hd. rewrite <-A6 by done.
  destruct (grown_byte V V' sb0 din din' {[a]} o G A1 Hv) as [_ ->]; [lia| |done]. apply A4; lia.
Qed.

(** The next block of data has been added. *)
Lemma afile_fill V V' din din' c N I a :
  volume V sb0 → afile V din c N I → grown V V' sb0 din din' {[a]} → baddr V' din' N = a → a ≠ 0 → V' a = zero_block → N < MAXFILE →
  afile V' din' c (N + 1) I.
Proof.
  intros Hv A G Hj0 Ha Hz HN. pose proof A as [A1 A2 A3 A4 A5 A6].
  assert (∀ j, 0 ≤ j ≤ MAXFILE → slot V' din' j = if decide (j = N) then a else slot V din j) as Hs.
  { intros j Hj. apply (slot_fill V V' din din' a N j G); [by rewrite slot_baddr by lia|done|lia|done]. }
  split; [apply G|unfold BSIZE in *; lia|lia| | |].
  - intros bn Hbn. rewrite <-slot_baddr, Hs, slot_baddr by lia. case_decide; [subst; intuition lia|]. rewrite A4 by done. lia.
  - specialize (Hs MAXFILE MAXFILE_slot). rewrite !slot_ind, decide_False in Hs by lia. by rewrite Hs.
  - intros o Ho. destruct (decide (o < N * BSIZE)); [eapply afile_bytes; [done..|lia]|]. unfold fbyte.
    assert (o / BSIZE = N) as -> by (symmetry; apply (Z.div_unique_pos o BSIZE N (o - BSIZE * N)); unfold BSIZE in *; lia).
    rewrite Hj0, Hz, rd8_zero. symmetry. apply rd8_out. lia.
Qed.

(** The indirect block has been added. *)
Lemma afile_ind V V' din din' c N a :
  volume V sb0 → afile V din c N false → grown V V' sb0 din din' {[a]} → ind_addr din' = a → a ≠ 0 → afile V' din' c N true.
Proof.
  intros Hv A G Hj0 Ha. pose proof A as [A1 A2 A3 A4 A5 A6]. split; [apply G|done|done| | |].
  - intros bn Hbn. rewrite <-slot_baddr by done. rewrite (slot_fill V V' din din' a MAXFILE), decide_False, slot_baddr by (done || lia). by apply A4.
  - by rewrite Hj0.
  - intros o Ho. by eapply afile_bytes.
Qed.

(** ** iappend *)

Lemma din_addr_range V din c N I j : afile V din c N I → 0 ≤ j ≤ NDIRECT → 0 ≤ din_addr din j < FSSIZE.
Proof.
  intros A Hj. assert (∃ k, 0 ≤ k ≤ MAXFILE ∧ din_addr din j = slot V din k) as (k & Hk & ->).
  { rewrite MAXFILE_eq. destruct (decide (j = NDIRECT)) as [->|Hne]; [by exists MAXFILE|]. exists j. split; [unfold NDIRECT in *; lia|].
    rewrite slot_baddr by (rewrite MAXFILE_eq; unfold NDIRECT in *; lia). unfold baddr. by destruct (Z.ltb_spec j NDIRECT); [|lia]. }
  destruct (io_data _ _ _ (af_ok _ _ _ _ _ A) k Hk) as [->|[Hd _]]; simpl in *; unfold FSSIZE in *; lia.
Qed.
Lemma xint_small x : 0 ≤ x < FSSIZE → xint x = x.
Proof. intros H. apply xint_id. unfold FSSIZE in H. lia. Qed.

Lemma baddr_direct V din j : j < NDIRECT → baddr V din j = din_addr din j.
Proof. intros H. unfold baddr. by destruct (Z.ltb_spec j NDIRECT); [|lia]. Qed.

(** The first part of [iblock], for a direct block. *)
Lemma alloc_direct s din c N fbn :
  image s → afile (mview s) din c N (NDIRECT <? N) → 0 ≤ fbn ≤ N → fbn < NDIRECT → let N' := Z.max N (fbn + 1) in
  mk_freeblock s + (used N' - used N) ≤ FSSIZE →
  wp (din_alloc din fbn) (λ din' s', image s' ∧ step s s' din din' ∧ afile (mview s') din' c N' (NDIRECT <? N') ∧
    mk_freeblock s' = mk_freeblock s + (used N' - used N)) s.
Proof.
  intros Hi A Hf Hd N' Hfb. pose proof (din_addr_range _ _ _ _ _ fbn A ltac:(lia)) as Hr. unfold din_alloc. rewrite xint_small by done.
  assert (NDIRECT < MAXFILE) as Hnd by done. pose proof (af_slot _ _ _ _ _ A fbn ltac:(lia)) as Hs. rewrite baddr_direct in Hs by done.
  destruct (Z.eqb_spec (din_addr din fbn) 0) as [E|E].
  - assert (fbn = N) as -> by lia. assert (N' = N + 1) as EN by lia. rewrite EN in *.
    assert ((NDIRECT <? N + 1) = (NDIRECT <? N)) as EI by (destruct (Z.ltb_spec NDIRECT (N + 1)), (Z.ltb_spec NDIRECT N); done || lia).
    assert (used (N + 1) = used N + 1) as EU by (unfold used; rewrite EI; lia). rewrite EU in *. rewrite EI.
    apply wp_bind. apply wp_next_block; [done|lia|]. apply wp_ret. destruct (image_bump s Hi ltac:(lia)) as [Hi' Tk].
    pose proof (im_free _ Hi). rewrite xint_small by lia. set (fb := mk_freeblock s) in *.
    pose proof (fill_direct _ _ _ _ _ N (image_volume _ Hi) (af_ok _ _ _ _ _ A) Tk ltac:(lia) ltac:(by rewrite baddr_direct)) as G.
    assert (din_addr (din <| i_addrs ::= λ l, aset l N fb |>) N = fb) as Ead.
    { unfold din_addr. simpl. rewrite aget_aset_eq; [done|]. rewrite (io_len _ _ _ (af_ok _ _ _ _ _ A)). unfold NDIRECT in *. lia. }
    split_and!; [done| | |simpl; lia].
    + eapply (step_fill s (bump s) _ _ fb N); try done; [|lia|lia|simpl; lia]. by rewrite slot_baddr, baddr_direct by lia.
    + apply (afile_fill _ _ _ _ _ _ _ fb (image_volume _ Hi) A G); [by rewrite baddr_direct|lia|apply Tk|lia].
  - assert (N' = N) as -> by lia. apply wp_ret. split_and!; [done|apply step_refl|done|lia].
Qed.

(** The indirect block. *)
Lemma alloc_ind s din c N fbn :
  image s → afile (mview s) din c N (NDIRECT <? N) → 0 ≤ fbn ≤ N → NDIRECT ≤ fbn →
  mk_freeblock s + (if NDIRECT <? N then 0 else 1) ≤ FSSIZE →
  wp (din_alloc din NDIRECT) (λ din' s', image s' ∧ step s s' din din' ∧ afile (mview s') din' c N true ∧
    mk_freeblock s' = mk_freeblock s + (if NDIRECT <? N then 0 else 1)) s.
Proof.
  intros Hi A Hf Hd Hfb. pose proof (din_addr_range _ _ _ _ _ NDIRECT A ltac:(done)) as Hr. unfold din_alloc. rewrite xint_small by done.
  change (din_addr din NDIRECT) with (ind_addr din) in *. pose proof (af_ind _ _ _ _ _ A) as Hs.
  destruct (Z.eqb_spec (ind_addr din) 0) as [E|E].
  - destruct (NDIRECT <? N); [by destruct (proj2 Hs eq_refl)|].
    apply wp_bind. apply wp_next_block; [done|lia|]. apply wp_ret. destruct (image_bump s Hi ltac:(lia)) as [Hi' Tk].
    pose proof (im_free _ Hi). rewrite xint_small by lia. set (fb := mk_freeblock s) in *.
    destruct (fill_ind _ _ _ _ _ (image_volume _ Hi) (af_ok _ _ _ _ _ A) Tk E) as [G Ea].
    split_and!; [done| | |simpl; lia].
    + apply (step_fill s (bump s) _ _ fb MAXFILE); try done; [lia|simpl; lia].
    + apply (afile_ind _ _ _ _ _ _ fb (image_volume _ Hi) A G Ea). lia.
  - apply Hs in E. rewrite E in A |- *. apply wp_ret. split_and!; [done|apply step_refl|done|lia].
Qed.

Lemma ientry_spec s din c N fbn :
  image s → afile (mview s) din c N true → 0 ≤ fbn ≤ N → NDIRECT ≤ fbn < MAXFILE → let N' := Z.max N (fbn + 1) in
  mk_freeblock s + (N' - N) ≤ FSSIZE →
  wp (ientry (ind_addr din) (4 * (fbn - NDIRECT))) (λ x s', image s' ∧ step s s' din din ∧ afile (mview s') din c N' true ∧
    mk_freeblock s' = mk_freeblock s + (N' - N) ∧ x = baddr (mview s') din fbn) s.
Proof.
  intros Hi A Hf Hd N' Hfb. pose proof (af_ok _ _ _ _ _ A) as Ok. pose proof (proj2 (af_ind _ _ _ _ _ A) eq_refl) as Hn. set (ind := ind_addr din) in *.
  destruct (proj1 (image_data s ind Hi) (inode_ind_data _ _ _ Ok Hn)) as [Hi1 Hi2]. pose proof (im_free _ Hi) as Hfr.
  pose proof (af_slot _ _ _ _ _ A fbn ltac:(unfold NDIRECT in *; lia)) as Hs.
  assert (∀ V, baddr V din fbn = rd32 (V ind) (4 * (fbn - NDIRECT))) as Hb.
  { intros V. unfold baddr. destruct (Z.ltb_spec fbn NDIRECT); [lia|]. fold ind. by destruct (Z.eqb_spec ind 0). }
  unfold ientry. apply wp_bind. apply wp_rsect; [done|lia|]. rewrite <-mview_sector by lia.
  apply wp_bind. rewrite <-Hb. destruct (Z.eqb_spec (baddr (mview s) din fbn) 0) as [E|E].
  - assert (fbn = N) as -> by lia. assert (N' = N + 1) as EN by lia. rewrite EN in *.
    apply wp_bind. apply wp_next_block; [done|lia|]. destruct (image_bump s Hi ltac:(lia)) as [Hi' Tk].
    rewrite xint_small by lia. set (fb := mk_freeblock s) in *. set (b := wr32 (mview s ind) (4 * (N - NDIRECT)) fb).
    apply wp_bind. apply wp_wsect; [done|lia|]. apply wp_ret. apply wp_ret.
    assert (length b = Z.to_nat BSIZE) as Hlb by (subst b; rewrite length_wr32; apply (vo_len _ _ (image_volume _ Hi))).
    pose proof (image_put (bump s) ind b Hi' ltac:(simpl; lia) Hlb) as Hi''.
    assert (mview (put ind b (bump s)) ind = b) as Eb by (rewrite mview_put, decide_True by (done || lia); done).
    assert (grown (mview s) (mview (put ind b (bump s))) sb0 din din {[fb]}) as G.
    { apply (fill_entry _ (mview (bump s)) _ _ _ _ N (image_volume _ Hi)); try done. intros k Hk. rewrite mview_put by lia. by rewrite decide_False. }
    assert (rd32 b (4 * (N - NDIRECT)) = fb) as Er.
    { apply rd32_wr32_eq; [|rewrite (vo_len _ _ (image_volume _ Hi)); rewrite MAXFILE_eq in *|]; unfold BSIZE, NDIRECT, FSSIZE in *; lia. }
    split_and!; [done| | |simpl; lia|rewrite Hb, Eb, Er; apply xint_small; lia].
    + apply (step_fill s _ _ _ fb N); try done; [rewrite slot_baddr by (unfold NDIRECT in *; lia); by rewrite Hb, Eb|lia|unfold NDIRECT in *; lia|simpl; lia].
    + apply (afile_fill _ _ _ _ _ _ _ fb (image_volume _ Hi) A G); [by rewrite Hb, Eb|lia| |lia].
      rewrite mview_put, decide_False by lia. apply Tk.
  - assert (N' = N) as -> by lia. apply wp_ret. apply wp_ret. split_and!; [done|apply step_refl|done|lia|]. rewrite <-Hb. apply xint_small.
    destruct (proj1 (image_data s _ Hi) (inode_data _ _ _ fbn Ok ltac:(unfold NDIRECT in *; lia) E)). lia.
Qed.

Lemma iblock_spec s din c N fbn :
  image s → afile (mview s) din c N (NDIRECT <? N) → 0 ≤ fbn ≤ N → fbn < MAXFILE → let N' := Z.max N (fbn + 1) in
  mk_freeblock s + (used N' - used N) ≤ FSSIZE →
  wp (iblock din fbn) (λ r s', image s' ∧ step s s' din r.1 ∧ afile (mview s') r.1 c N' (NDIRECT <? N') ∧
    mk_freeblock s' = mk_freeblock s + (used N' - used N) ∧ r.2 = baddr (mview s') r.1 fbn) s.
Proof.
  intros Hi A Hf Hm N' Hfb. unfold iblock. destruct (Z.ltb_spec fbn NDIRECT).
  - apply wp_bind. eapply wp_mono; [by apply (alloc_direct s din c N)|]. intros din' s1 (Hi1 & S1 & A1 & F1). fold N' in A1, F1.
    apply wp_ret. split_and!; try done. simpl. rewrite baddr_direct by done. apply xint_small. eapply din_addr_range; [done|lia].
  - assert (used N' - used N = (if NDIRECT <? N then 0 else 1) + (N' - N)) as EU.
    { unfold used. destruct (Z.ltb_spec NDIRECT N'), (Z.ltb_spec NDIRECT N); lia. }
    rewrite EU in *. apply wp_bind. eapply wp_mono; [apply (alloc_ind s din c N fbn); try done; lia|].
    intros din' s1 (Hi1 & S1 & A1 & F1). rewrite xint_small by (eapply din_addr_range; done). change (din_addr din' NDIRECT) with (ind_addr din').
    assert ((NDIRECT <? N') = true) as -> by (apply Z.ltb_lt; lia).
    apply wp_bind. eapply wp_mono; [apply (ientry_spec s1 din' c N fbn); try done; lia|]. intros x s2 (Hi2 & S2 & A2 & F2 & E2).
    apply wp_ret. split_and!; try done; [by eapply step_trans|fold N' in F2; lia].
Qed.

Lemma cdiv_eq x k : k * BSIZE < x ≤ (k + 1) * BSIZE → cdiv x = k + 1.
Proof. intros H. unfold cdiv. symmetry. apply (Z.div_unique_pos _ _ _ (x - k * BSIZE - 1)); unfold BSIZE in *; lia. Qed.
Lemma cdiv_full x : 0 ≤ x → x ≤ cdiv x * BSIZE.
Proof.
  intros H. unfold cdiv. pose proof (Z.div_mod (x + BSIZE - 1) BSIZE ltac:(done)). pose proof (Z.mod_pos_bound (x + BSIZE - 1) BSIZE ltac:(done)).
  unfold BSIZE in *. lia.
Qed.
Lemma used_mono N N' : N ≤ N' → used N ≤ used N'.
Proof. intros H. unfold used. destruct (Z.ltb_spec NDIRECT N), (Z.ltb_spec NDIRECT N'); lia. Qed.

(** Bytes go to the last block. *)
Lemma afile_write s din c I bs fbn :
  let off := Z.of_nat (length c) in let x := baddr (mview s) din fbn in
  image s → afile (mview s) din c (fbn + 1) I → fbn = off / BSIZE → 0 < Z.of_nat (length bs) → off + Z.of_nat (length bs) ≤ (fbn + 1) * BSIZE →
  let s' := put x (splice (sector s x) (off - fbn * BSIZE) bs) s in
  58 < x < mk_freeblock s ∧ image s' ∧ step s s' din din ∧ afile (mview s') din (c ++ bs) (fbn + 1) I.
Proof.
  intros off x Hi A Ef Hb Hle s'. pose proof A as [A1 A2 A3 A4 A5 A6]. pose proof (Z.mod_pos_bound off BSIZE ltac:(done)) as Hm.
  pose proof (Z.div_mod off BSIZE ltac:(done)) as Hdm. rewrite <-Ef in Hdm. assert (off - fbn * BSIZE = off mod BSIZE) as Eo by lia.
  assert (0 ≤ fbn < MAXFILE) as Hf by (subst off; rewrite Ef; split; [apply Z.div_pos; unfold BSIZE; lia|lia]).
  assert (x ≠ 0) as Hx by (apply A4; lia). pose proof (proj1 (image_data s x Hi) (inode_data _ _ _ fbn A1 Hf Hx)) as Hxr.
  pose proof (im_free _ Hi) as Hfr. pose proof (im_len _ Hi x) as Hlx. rewrite <-mview_sector in Hlx by lia.
  assert (length (splice (sector s x) (off - fbn * BSIZE) bs) = Z.to_nat BSIZE) as Hls.
  { rewrite length_splice; rewrite <-?mview_sector, ?Hlx by lia; unfold BSIZE in *; lia. }
  assert (image s') as Hi' by (apply image_put; [done|lia|done]).
  assert (∀ k, k ≠ x → mview s' k = mview s k) as Hrest by (intros k Hk; unfold s'; rewrite mview_put, decide_False by (done || lia); done).
  assert (mview s' x = splice (mview s x) (off mod BSIZE) (slice bs 0 (Z.of_nat (length bs)))) as Hw.
  { unfold s'. rewrite mview_put, decide_True, Eo, <-mview_sector by (done || lia). f_equal. unfold slice. rewrite Nat2Z.id. simpl. by rewrite firstn_all. }
  pose proof (write_data _ (mview s') _ _ fbn (image_volume _ Hi) A1 Hf Hx Hrest (vo_len _ _ (image_volume _ Hi') _)) as Rw. fold x in Rw.
  assert (∀ k, owns (mview s') din k ↔ owns (mview s) din k) as Hown by (intros k; unfold owns; by setoid_rewrite (rw_slot _ _ _ _ _ Rw)).
  split_and!; [lia|lia|done| |].
  - split; try done; [|intros k; rewrite Hown; by left|intros k; by rewrite Hown|by destruct din].
    intros k Hk Hne. destruct (decide (k = x)) as [->|]; [|by rewrite Hrest in Hne]. rewrite Hown. split; [done|]. exists fbn. by rewrite slot_baddr by lia; split; [lia|].
  - split; [apply Rw|rewrite length_app; lia|done| |done|].
    + intros bn Hbn. rewrite <-slot_baddr, (rw_slot _ _ _ _ _ Rw), slot_baddr by done. by apply A4.
    + intros o Ho. pose proof (BSIZE_div o _ Ho) as Hob.
      destruct (data_byte (mview s) (mview s') sb0 din bs off 0 (Z.of_nat (length bs)) o A1 (image_volume _ Hi)) as [_ ->]; rewrite <-?Ef; try done; try (unfold BSIZE in *; lia).
      assert (baddr (mview s) din (o / BSIZE) ≠ 0) as Hno by (apply A4; lia). rewrite (decide_False (P := _ = 0)) by done.
      rewrite A6 by done. unfold off. case_decide as Hd; [symmetry; rewrite Z.add_0_l; apply rd8_app_r; lia|].
      destruct (decide (o < Z.of_nat (length c))); [symmetry; apply rd8_app_l; lia|]. rewrite !rd8_out by (rewrite ?length_app; lia). done.
Qed.

(** The loop of [iappend]: [c] is in the file. *)
Record appending s0 din0 c0 (x : inode * Z * list Z) s (c : list Z) : Prop := {
  ap_off : x.1.2 = Z.of_nat (length c);
  ap_image : image s;
  ap_step : step s0 s din0 x.1.1;
  ap_file : afile (mview s) x.1.1 c (cdiv x.1.2) (NDIRECT <? cdiv x.1.2);
  ap_fb : mk_freeblock s = mk_freeblock s0 + (used (cdiv x.1.2) - used (cdiv (Z.of_nat (length c0))));
}.

Lemma iappend_turn s0 din0 c0 s x c total :
  appending s0 din0 c0 x s c → x.2 ≠ [] → total = Z.of_nat (length (c ++ x.2)) → total ≤ MAXFILE * BSIZE →
  mk_freeblock s0 + (used (cdiv total) - used (cdiv (Z.of_nat (length c0)))) ≤ FSSIZE →
  wp (iappend_body x) (λ y s', ∃ x' c', y = inl x' ∧ appending s0 din0 c0 x' s' c' ∧ c' ++ x'.2 = c ++ x.2 ∧ (length x'.2 < length x.2)%nat) s.
Proof.
  destruct x as [[din off] p]. intros [H1 Hi St A Efb] Hp Et Htot Hfb. simpl in *. rewrite length_app in Et.
  assert (0 < Z.of_nat (length p)) as Hlp by (destruct p; simpl; [done|lia]). destruct (Z.ltb_spec 0 (Z.of_nat (length p))); [|lia].
  set (fbn := off / BSIZE). pose proof (Z.div_mod off BSIZE ltac:(done)) as Hdm. pose proof (Z.mod_pos_bound off BSIZE ltac:(done)) as Hm. fold fbn in Hdm.
  assert (0 ≤ fbn < MAXFILE) as Hf by (apply BSIZE_div; lia). destruct (Z.ltb_spec fbn MAXFILE); [|lia]. simpl.
  assert (fbn ≤ cdiv off ≤ fbn + 1 ∧ Z.max (cdiv off) (fbn + 1) = fbn + 1) as [Hc EN].
  { assert (fbn ≤ cdiv off ≤ fbn + 1); [|lia]. unfold cdiv. split; [apply Z.div_le_lower_bound|apply Z.lt_succ_r, Z.div_lt_upper_bound]; unfold BSIZE in *; lia. }
  set (n1 := Z.min (Z.of_nat (length p)) ((fbn + 1) * BSIZE - off)). assert (0 < n1 ≤ Z.of_nat (length p)) as Hn1 by (unfold BSIZE in *; lia).
  assert (cdiv (off + n1) = fbn + 1) as Ec by (apply cdiv_eq; unfold BSIZE in *; lia).
  pose proof (used_mono (fbn + 1) (cdiv total) ltac:(rewrite <-Ec; apply cdiv_mono; lia)) as Hu.
  apply wp_bind. eapply wp_mono; [apply (iblock_spec s din c (cdiv off) fbn); try done; [lia|rewrite EN; lia]|].
  rewrite EN. intros [din' x] s1 (Hi1 & St1 & A1 & F1 & E1). simpl in *. subst x.
  assert (length (take (Z.to_nat n1) p) = Z.to_nat n1) as Hl1 by (rewrite length_take; lia).
  destruct (afile_write s1 din' c _ (take (Z.to_nat n1) p) fbn Hi1 A1) as (Hx & Hi2 & St2 & A2); [by rewrite <-H1|lia|lia|].
  pose proof (im_free _ Hi1). apply wp_bind. apply wp_rsect; [done|lia|]. apply wp_bind. apply wp_wsect; [done|lia|]. apply wp_ret. rewrite H1.
  eexists _, (c ++ take (Z.to_nat n1) p). split; [done|]. split; [|simpl; split; [by rewrite <-app_assoc, take_drop|rewrite length_drop; lia]].
  rewrite H1 in Ec. split; simpl; [rewrite length_app; lia|done|eapply step_trans; [exact St|by eapply step_trans]|by rewrite Ec|rewrite Ec; lia].
Qed.

Lemma iappend_loop s din c xp :
  let off := Z.of_nat (length c) in let total := off + Z.of_nat (length xp) in
  image s → afile (mview s) din c (cdiv off) (NDIRECT <? cdiv off) → total ≤ MAXFILE * BSIZE →
  mk_freeblock s + (used (cdiv total) - used (cdiv off)) ≤ FSSIZE →
  wp (loop (S (length xp)) iappend_body (din, off, xp)) (λ r s', appending s din c (r, []) s' (c ++ xp)) s.
Proof.
  intros off total Hi A Ht Hfb.
  apply (wp_loop (λ x s', ∃ c', appending s din c x s' c' ∧ c' ++ x.2 = c ++ xp) (λ x, length x.2)); [|simpl; lia|].
  - exists c. split; [|done]. split; simpl; try done; [apply step_refl|unfold off; lia].
  - intros x s' (c' & Ap & E). destruct (decide (x.2 = [])) as [E0|E0].
    + destruct x as [[din' off'] p]. simpl in *. subst p. apply wp_ret. rewrite app_nil_r in E. by rewrite <-E.
    + eapply wp_mono; [apply (iappend_turn s din c s' x c' total); try done; rewrite E, length_app; lia|].
      intros y s'' (x' & c'' & -> & Ap' & E' & Hlt). split; [|done]. exists c''. split; [done|congruence].
Qed.
