(* ===== verification/MkfsImage.v ===== *)
(** What the functions of [mkfs] do to the files of the image, and the image
    that [main] leaves.

    [built] relates the image to the list of files on it, by inode number; it
    is kept by [ialloc], which adds an empty file, and [iappend], which extends
    one. *)

From S2P Require Import Prelude Memory Machine Disk Bio Log LogCrash Txn Fs Inode Bmap Rdwr Op SwapFile FileProps Mkfs MkfsProps.
From stdpp Require Import options.
Implicit Types s : mkfs.
Implicit Types V : Z → list Z.
Implicit Types ip jp din : inode.
Implicit Types c bs : list Z.

(** The inode [n] on the image. *)
Definition dino s (n : Z) : inode := get_dinode (sector s (IBLOCK n sb0)) (n mod IPB) (dinode0 n).

(** Inode [n] is a file of type [ty] with contents [c]. *)
Record filed s (n ty : Z) c : Prop := {
  fl_file : afile (mview s) (dino s n) c (cdiv (Z.of_nat (length c))) (NDIRECT <? cdiv (Z.of_nat (length c)));
  fl_size : i_size (dino s n) = Z.of_nat (length c);
  fl_type : i_type (dino s n) = ty ∧ - 2 ^ 15 ≤ ty < 2 ^ 15;
  fl_rest : i_major (dino s n) = 0 ∧ i_minor (dino s n) = 0 ∧ i_nlink (dino s n) = 1;
}.

Definition blocks (f : Z * list Z) : Z := used (cdiv (Z.of_nat (length f.2))).

Definition super_bytes (sb : superblock) : list Z := put_words zero_block 0
  [sb_size sb; sb_nblocks sb; sb_ninodes sb; sb_nlog sb; sb_logstart sb; sb_inodestart sb; sb_bmapstart sb].

(** The files of the image, from inode 1 on. *)
Record built s (L : list (Z * list Z)) : Prop := {
  bu_image : image s;
  bu_next : mk_freeinode s = 1 + Z.of_nat (length L);
  bu_count : Z.of_nat (length L) < NINODES;
  bu_file i f : L !! i = Some f → filed s (1 + Z.of_nat i) f.1 f.2;
  bu_apart i j : (i < length L)%nat → (j < length L)%nat → i ≠ j → apart (mview s) (dino s (1 + Z.of_nat i)) (dino s (1 + Z.of_nat j));
  bu_fb : mk_freeblock s = 59 + zsum blocks L;
  bu_super : sector s 1 = super_bytes sb0;
  bu_log : sector s 2 = zero_block;
}.

(** ** Files that are left alone *)

Lemma afile_keep V V' jp c N I :
  afile V jp c N I → (∀ k, owns V jp k → V' k = V k) → (∀ b, is_data V sb0 b → is_data V' sb0 b) →
  afile V' jp c N I ∧ ∀ k, owns V' jp k ↔ owns V jp k.
Proof.
  intros [A1 A2 A3 A4 A5 A6] Hk Hd. destruct (keeps_inode V V' sb0 jp A1 Hk Hd) as (K1 & K2 & _). split; [|done].
  assert (∀ bn, 0 ≤ bn < MAXFILE → baddr V' jp bn = baddr V jp bn) as Hb.
  { intros bn Hbn. rewrite <-!slot_baddr by done. apply (slot_owned V V' sb0); [done|done|lia]. }
  split; try done.
  - intros bn Hbn. rewrite Hb by done. by apply A4.
  - intros o Ho. pose proof (BSIZE_div o _ Ho) as Hd'. rewrite <-A6 by done. unfold fbyte. rewrite Hb by lia. rewrite Hk; [done|].
    rewrite <-slot_baddr by lia. apply owns_slot; [lia|]. rewrite slot_baddr by lia. apply A4; lia.
Qed.

Lemma image_owns s jp c N I k : image s → afile (mview s) jp c N I → owns (mview s) jp k → 58 < k < mk_freeblock s.
Proof. intros Hi A Ho. apply (image_data s k Hi). eapply owns_data; [apply A|done]. Qed.

(** A file that shares no block with the one that grows. *)
Lemma step_other s s' din din' jp c N I :
  image s → image s' → step s s' din din' → afile (mview s) jp c N I → apart (mview s) din jp →
  afile (mview s') jp c N I ∧ (∀ k, owns (mview s') jp k ↔ owns (mview s) jp k) ∧ apart (mview s') din' jp.
Proof.
  intros Hi Hi' St A Ap. assert (∀ k, owns (mview s) jp k → ¬ owns (mview s') din' k) as Hno.
  { intros k Hk [Ho|Ho]%(sp_owns _ _ _ _ St); [by apply (Ap k)|]. pose proof (image_owns _ _ _ _ _ _ Hi A Hk). lia. }
  destruct (afile_keep (mview s) (mview s') jp c N I A) as [A' Ho'].
  - intros k Hk. pose proof (image_owns _ _ _ _ _ _ Hi A Hk). destruct (decide (mview s' k = mview s k)) as [|Hne]; [done|].
    destruct (Hno k Hk). apply (sp_changed _ _ _ _ St); [lia|done].
  - intros b. rewrite !image_data by done. pose proof (sp_fb _ _ _ _ St). lia.
  - split_and!; [done..|]. intros k Hk Hj. apply (Hno k); [by apply Ho'|done].
Qed.

Lemma step_low s s' din din' c N I k :
  image s' → step s s' din din' → afile (mview s') din' c N I → k < 58 → sector s' k = sector s k.
Proof.
  intros Hi St A Hk. rewrite <-!mview_sector by lia. destruct (decide (mview s' k = mview s k)) as [|Hne]; [done|].
  pose proof (image_owns _ _ _ _ _ _ Hi A (sp_changed _ _ _ _ St k ltac:(lia) Hne)). lia.
Qed.

(** ** winode *)

Lemma inode_block n : 0 ≤ n < NINODES → 32 ≤ IBLOCK n sb0 < 58.
Proof. intros Hn. pose proof (IBLOCK_range sb0 n layout0 Hn). simpl in *. lia. Qed.

Definition put_inode (n : Z) ip s : mkfs := put (IBLOCK n sb0) (put_dinode ip (n mod IPB) (sector s (IBLOCK n sb0))) s.

Lemma wp_winode s n ip (Q : unit → mkfs → Prop) : image s → 0 ≤ n < NINODES → Q tt (put_inode n ip s) → wp (winode n ip) Q s.
Proof.
  intros Hi Hn HQ. pose proof (inode_block n Hn). unfold winode. apply wp_bind, wp_gets. rewrite (im_sb _ Hi).
  apply wp_bind. apply wp_rsect; [done|unfold FSSIZE; lia|]. apply wp_wsect; [done|unfold FSSIZE; lia|done].
Qed.
Lemma wp_rinode s n (Q : inode → mkfs → Prop) : image s → 0 ≤ n < NINODES → Q (dino s n) s → wp (rinode n) Q s.
Proof.
  intros Hi Hn HQ. pose proof (inode_block n Hn). unfold rinode. apply wp_bind, wp_gets. rewrite (im_sb _ Hi).
  apply wp_bind. apply wp_rsect; [done|unfold FSSIZE; lia|]. by apply wp_ret.
Qed.

Lemma image_put_inode s n ip : image s → 0 ≤ n < NINODES → image (put_inode n ip s).
Proof.
  intros Hi Hn. pose proof (inode_block n Hn). pose proof (im_free _ Hi). apply image_put; [done|lia|]. rewrite length_put_dinode. apply Hi.
Qed.

Lemma afile_put_inode s n ip jp c N I :
  image s → 0 ≤ n < NINODES → afile (mview s) jp c N I →
  afile (mview (put_inode n ip s)) jp c N I ∧ ∀ k, owns (mview (put_inode n ip s)) jp k ↔ owns (mview s) jp k.
Proof.
  intros Hi Hn A. pose proof (inode_block n Hn). apply (afile_keep (mview s)); [done| |].
  - intros k Hk. pose proof (image_owns _ _ _ _ _ _ Hi A Hk). unfold put_inode. by rewrite mview_put, decide_False by lia.
  - intros b. rewrite !image_data by (done || by apply image_put_inode). done.
Qed.

Lemma filed_apart s n ip m1 ty1 c1 m2 ty2 c2 :
  image s → 0 ≤ n < NINODES → filed s m1 ty1 c1 → filed s m2 ty2 c2 → apart (mview s) (dino s m1) (dino s m2) →
  apart (mview (put_inode n ip s)) (dino s m1) (dino s m2).
Proof.
  intros Hi Hn F1 F2 Ap k Hk1 Hk2. destruct (afile_put_inode s n ip _ _ _ _ Hi Hn (fl_file _ _ _ _ F1)) as [_ E1].
  destruct (afile_put_inode s n ip _ _ _ _ Hi Hn (fl_file _ _ _ _ F2)) as [_ E2]. exact (Ap k (proj1 (E1 k) Hk1) (proj1 (E2 k) Hk2)).
Qed.

Lemma dino_other s n ip m :
  0 ≤ n < NINODES → 0 ≤ m < NINODES → m ≠ n → length (i_addrs ip) = Z.to_nat (NDIRECT + 1) → dino (put_inode n ip s) m = dino s m.
Proof.
  intros Hn Hm Hne Hl. unfold dino, put_inode. rewrite sector_put. case_decide as E; [|done]. rewrite E. apply get_put_dinode_ne; [done|].
  intros Em. apply Hne. unfold IBLOCK in E. rewrite (Z.div_mod m IPB), (Z.div_mod n IPB) by done. rewrite Em. lia.
Qed.
Lemma dino_self s n ip :
  image s → dinode_fits ip → (∀ d k, get_dinode d k (dinode0 n) = get_dinode d k ip) → dino (put_inode n ip s) n = ip.
Proof.
  intros Hi Hf Hr. unfold dino, put_inode. rewrite sector_put, decide_True, Hr by done. apply get_put_dinode; [done|by apply Z.mod_pos_bound|apply Hi].
Qed.

(** ** ialloc and iappend *)

(** The inodes of a table are left alone by a write of another inode. *)
Lemma filed_put_inode s n ip m ty c :
  image s → 0 ≤ n < NINODES → 0 ≤ m < NINODES → m ≠ n → length (i_addrs ip) = Z.to_nat (NDIRECT + 1) → filed s m ty c →
  filed (put_inode n ip s) m ty c.
Proof.
  intros Hi Hn Hm Hne Hl [F1 F2 F3 F4]. pose proof (dino_other s n ip m Hn Hm Hne Hl) as E.
  split; rewrite E; [by apply afile_put_inode|done..].
Qed.

Lemma step_filed s s' din din' m ty c c' N I :
  image s → image s' → step s s' din din' → afile (mview s') din' c' N I → 0 ≤ m < NINODES → apart (mview s) din (dino s m) → filed s m ty c →
  dino s' m = dino s m ∧ filed s' m ty c.
Proof.
  intros Hi Hi' St A Hm Ap [F1 F2 F3 F4]. assert (dino s' m = dino s m) as E.
  { unfold dino. pose proof (inode_block m Hm). by rewrite (step_low s s' din din' c' N I) by (done || lia). }
  split; [done|]. split; rewrite E; [by apply (step_other s s' din din')|done..].
Qed.

Lemma no_slots V ip j : i_addrs ip = replicate 13 0 → slot V ip j = 0.
Proof.
  intros E. assert (∀ k, default 0 (aget (i_addrs ip) k) = 0) as H.
  { intros k. unfold aget. case_match; [done|]. rewrite E. destruct (replicate 13 0 !! Z.to_nat k) eqn:El; [|done]. by apply lookup_replicate in El as [-> _]. }
  unfold slot, baddr, ind_addr. rewrite !H. by repeat case_match.
Qed.

Lemma afile_empty V ip :
  i_dev ip = 1 → 0 ≤ i_inum ip < NINODES → i_size ip = 0 → i_addrs ip = replicate 13 0 → afile V ip [] 0 false.
Proof.
  intros H1 H2 H3 H4. assert (ind_addr ip = 0) as Hind by (rewrite <-(slot_ind V); by apply no_slots).
  assert (inode_ok V sb0 ip) as Hok.
  { split; try done; [by rewrite H4|by rewrite H3|intros j _; left; by apply no_slots|intros j k _ _ _ []; by apply no_slots|].
    intros bn Hb. rewrite H3. unfold BSIZE. lia. }
  split; [done|done|done| |by rewrite Hind|unfold BSIZE; lia]. intros bn Hb. rewrite <-slot_baddr, no_slots by done. lia.
Qed.

Lemma ok_fits V ip :
  inode_ok V sb0 ip → - 2 ^ 15 ≤ i_type ip < 2 ^ 15 → i_major ip = 0 → i_minor ip = 0 → i_nlink ip = 1 → dinode_fits ip.
Proof.
  intros Hi Ht Hma Hmi Hnl. pose proof (io_size _ _ _ Hi) as Hz. rewrite MAXFILE_eq in Hz.
  split; rewrite ?Hma, ?Hmi, ?Hnl; try done; [unfold BSIZE in *; lia|apply Hi|intros a; by eapply addrs_fit; [apply layout0|]].
Qed.

Lemma lookup_lt_apart {A} (L : list A) x i : (i < length (L ++ [x]))%nat → (i < length L)%nat ∨ i = length L.
Proof. rewrite length_app. simpl. lia. Qed.

Lemma ialloc_built s L ty :
  built s L → Z.of_nat (length L) + 1 < NINODES → 0 ≤ ty < 2 ^ 15 →
  wp (ialloc ty) (λ n s', n = 1 + Z.of_nat (length L) ∧ built s' (L ++ [(ty, [])])) s.
Proof.
  intros B Hlen Hty. pose proof (bu_next _ _ B) as En. unfold ialloc. apply wp_bind, wp_gets. apply wp_bind, wp_modify.
  rewrite En, u32_id by (unfold NINODES in *; lia). set (n := 1 + Z.of_nat (length L)) in *. set (s1 := s <| mk_freeinode := n + 1 |>).
  assert (image s1) as Hi1 by (destruct (bu_image _ _ B); by split). assert (0 ≤ n < NINODES) as Hn by lia.
  rewrite !xint_id, !xshort_id by lia. set (ip := (dinode0 n) <| i_type := ty |> <| i_nlink := 1 |> <| i_size := 0 |>).
  apply wp_bind. apply wp_winode; [done|done|]. apply wp_ret. split; [done|].
  assert (∀ V, afile V ip [] 0 false) as A0 by (intros V; by apply afile_empty).
  assert (dinode_fits ip) as Hf by (apply (ok_fits (mview s1)); [apply A0|simpl; lia|done..]).
  assert (dino (put_inode n ip s1) n = ip) as Eip by (by apply dino_self).
  assert (length (i_addrs ip) = Z.to_nat (NDIRECT + 1)) as Hl by done.
  pose proof (inode_block n Hn) as Hb.
  assert (∀ i f, L !! i = Some f → filed s1 (1 + Z.of_nat i) f.1 f.2) as Hfl by (intros i f [F1 F2 F3 F4]%(bu_file _ _ B); by split).
  assert (∀ i, (i < length L)%nat → 0 ≤ 1 + Z.of_nat i < NINODES ∧ 1 + Z.of_nat i ≠ n) as Hne by (intros i Hlt; unfold NINODES in *; lia).
  split.
  - by apply image_put_inode.
  - rewrite length_app. simpl. lia.
  - rewrite length_app. simpl. lia.
  - intros i f [Hf'|[Hge Hf']]%lookup_app_Some.
    + destruct (Hne i (lookup_lt_Some _ _ _ Hf')). apply filed_put_inode; try done. by apply Hfl.
    + apply list_lookup_singleton_Some in Hf' as [E0 <-]. assert (i = length L) as -> by lia. fold n. split; rewrite Eip; [apply A0|done|simpl; lia|done].
  - intros i j [Hlt|Hj]%lookup_lt_apart [Hlt'|Hj']%lookup_lt_apart Hij; try lia; [destruct (Hne i Hlt), (Hne j Hlt')|subst j|subst i].
    + rewrite !dino_other by done. destruct (lookup_lt_is_Some_2 L i Hlt) as [f1 Hf1], (lookup_lt_is_Some_2 L j Hlt') as [f2 Hf2].
      apply (filed_apart s1 n ip _ _ _ _ _ _ Hi1 Hn (Hfl _ _ Hf1) (Hfl _ _ Hf2)). exact (bu_apart _ _ B i j Hlt Hlt' Hij).
    + fold n. rewrite Eip. intros k _ (H0 & l & _ & E). by rewrite no_slots in E.
    + fold n. rewrite Eip. intros k (H0 & l & _ & E). by rewrite no_slots in E.
  - simpl. rewrite zsum_app, (bu_fb _ _ B). simpl. change (blocks (ty, [])) with 0. lia.
  - unfold put_inode. rewrite sector_put, decide_False by lia. apply (bu_super _ _ B).
  - unfold put_inode. rewrite sector_put, decide_False by lia. apply (bu_log _ _ B).
Qed.

Lemma afile_resize V ip c N I sz : afile V ip c N I → 0 ≤ sz ≤ N * BSIZE → afile V (ip <| i_size := sz |>) c N I.
Proof.
  intros [[I1 I2 I3 I4 I5 I6 I7] A2 A3 A4 A5 A6] Hsz. split; try done. split; try done; [simpl; unfold BSIZE in *; lia|].
  intros bn Hb Hlt. simpl in Hlt. apply A4; unfold BSIZE in *; lia.
Qed.

(** The file of inode [n] has grown to [c'], and its inode is written. *)
Lemma grow_built s s1 L i ty c c' din N I sz :
  let n := 1 + Z.of_nat i in let ip := din <| i_size := sz |> in
  built s L → L !! i = Some (ty, c) → image s1 → step s s1 (dino s n) din → afile (mview s1) din c' N I → 0 ≤ sz ≤ N * BSIZE →
  image (put_inode n ip s1) ∧ dino (put_inode n ip s1) n = ip ∧ afile (mview (put_inode n ip s1)) ip c' N I ∧
  i_type ip = ty ∧ i_major ip = 0 ∧ i_minor ip = 0 ∧ i_nlink ip = 1 ∧
  (∀ j f, j ≠ i → L !! j = Some f → filed (put_inode n ip s1) (1 + Z.of_nat j) f.1 f.2 ∧
     apart (mview (put_inode n ip s1)) ip (dino (put_inode n ip s1) (1 + Z.of_nat j))) ∧
  (∀ j k, j ≠ i → k ≠ i → j ≠ k → (j < length L)%nat → (k < length L)%nat →
     apart (mview (put_inode n ip s1)) (dino (put_inode n ip s1) (1 + Z.of_nat j)) (dino (put_inode n ip s1) (1 + Z.of_nat k))) ∧
  (∀ k, k < 32 → sector (put_inode n ip s1) k = sector s k).
Proof.
  intros n ip B Hi Im1 St A1 Hsz. pose proof (bu_image _ _ B) as Im. pose proof (bu_file _ _ B _ _ Hi) as [F1 F2 F3 F4]. fold n in F1, F2, F3, F4. cbn [fst snd] in *.
  pose proof (lookup_lt_Some _ _ _ Hi) as Hlt. pose proof (bu_count _ _ B) as Hcnt. assert (0 ≤ n < NINODES) as Hn by lia.
  assert (∀ j, (j < length L)%nat → j ≠ i → 0 ≤ 1 + Z.of_nat j < NINODES ∧ 1 + Z.of_nat j ≠ n) as Hj by (intros j Hj Hne; unfold NINODES in *; lia).
  pose proof (afile_resize _ _ _ _ _ sz A1 Hsz) as A2. fold ip in A2. pose proof (sp_din _ _ _ _ St) as Ed.
  assert (i_type ip = ty ∧ i_major ip = 0 ∧ i_minor ip = 0 ∧ i_nlink ip = 1) as (T1 & T2 & T3 & T4) by (unfold ip; rewrite Ed; naive_solver).
  assert (dinode_fits ip) as Hf by (apply (ok_fits (mview s1)); [apply A2|rewrite T1; apply F3|done..]).
  assert (length (i_addrs ip) = Z.to_nat (NDIRECT + 1)) as Hl by apply A2.
  assert (∀ j f, j ≠ i → L !! j = Some f → dino s1 (1 + Z.of_nat j) = dino s (1 + Z.of_nat j) ∧ filed s1 (1 + Z.of_nat j) f.1 f.2) as H1.
  { intros j f Hne Hf'. pose proof (lookup_lt_Some _ _ _ Hf') as Hjl. destruct (Hj j Hjl Hne).
    eapply step_filed; try done; [by apply (bu_apart _ _ B)|by apply (bu_file _ _ B)]. }
  split_and!; try done.
  - by apply image_put_inode.
  - apply dino_self; [done..|]. intros d k. unfold ip. rewrite Ed. done.
  - by apply afile_put_inode.
  - intros j f Hne Hf'. destruct (H1 j f Hne Hf') as [Ej Fj]. destruct (Hj j (lookup_lt_Some _ _ _ Hf') Hne). split; [by apply filed_put_inode|].
    rewrite dino_other by done. destruct (step_other s s1 _ _ _ _ _ _ Im Im1 St (fl_file _ _ _ _ (bu_file _ _ B _ _ Hf'))) as (_ & _ & Ap).
    { apply (bu_apart _ _ B); [done|by eapply lookup_lt_Some|done]. }
    intros k Hk1 Hk2. destruct (afile_put_inode s1 n ip _ _ _ _ Im1 Hn A2) as [_ E1].
    destruct (afile_put_inode s1 n ip _ _ _ _ Im1 Hn (fl_file _ _ _ _ Fj)) as [_ E2]. rewrite Ej in E2, Hk2. exact (Ap k (proj1 (E1 k) Hk1) (proj1 (E2 k) Hk2)).
  - intros j k Hji Hki Hjk Hjl Hkl. destruct (lookup_lt_is_Some_2 L j Hjl) as [f1 Hf1], (lookup_lt_is_Some_2 L k Hkl) as [f2 Hf2].
    destruct (Hj j Hjl Hji), (Hj k Hkl Hki), (H1 j f1 Hji Hf1) as [Ej Fj], (H1 k f2 Hki Hf2) as [Ek Fk]. rewrite !dino_other by done.
    eapply filed_apart; [done|done|exact Fj|exact Fk|]. rewrite Ej, Ek. intros b Hb1 Hb2.
    destruct (step_other s s1 _ _ _ _ _ _ Im Im1 St (fl_file _ _ _ _ (bu_file _ _ B _ _ Hf1))) as (_ & O1 & _); [by apply (bu_apart _ _ B)|].
    destruct (step_other s s1 _ _ _ _ _ _ Im Im1 St (fl_file _ _ _ _ (bu_file _ _ B _ _ Hf2))) as (_ & O2 & _); [by apply (bu_apart _ _ B)|].
    exact (bu_apart _ _ B j k Hjl Hkl Hjk b (proj1 (O1 b) Hb1) (proj1 (O2 b) Hb2)).
  - intros k Hk. pose proof (inode_block n Hn). unfold put_inode. rewrite sector_put, decide_False by lia. eapply step_low; [done..|lia].
Qed.

Lemma iappend_built s L i ty c xp :
  built s L → L !! i = Some (ty, c) → Z.of_nat (length (c ++ xp)) ≤ MAXFILE * BSIZE →
  mk_freeblock s + (blocks (ty, c ++ xp) - blocks (ty, c)) ≤ FSSIZE →
  wp (iappend (1 + Z.of_nat i) xp) (λ _ s', built s' (<[i := (ty, c ++ xp)]> L)) s.
Proof.
  intros B Hi Hmax Hfb. pose proof (bu_image _ _ B) as Im. pose proof (bu_file _ _ B _ _ Hi) as [F1 F2 F3 F4]. cbn [fst snd] in *.
  pose proof (lookup_lt_Some _ _ _ Hi) as Hlt. pose proof (bu_count _ _ B) as Hcnt. set (n := 1 + Z.of_nat i) in *. assert (0 ≤ n < NINODES) as Hn by lia.
  unfold blocks in Hfb. cbn [snd] in Hfb. rewrite length_app, Nat2Z.inj_add in *.
  unfold iappend. apply wp_bind. apply wp_rinode; [done|done|]. rewrite F2, xint_id by (rewrite MAXFILE_eq in Hmax; unfold BSIZE in *; lia).
  apply wp_bind. eapply wp_mono; [by apply iappend_loop|]. intros [din off] s1 [E1 Im1 St A1 Fb1]. cbn [fst snd] in *.
  rewrite length_app, Nat2Z.inj_add in E1. rewrite xint_id by (rewrite MAXFILE_eq in Hmax; unfold BSIZE in *; lia).
  apply wp_winode; [done|done|].
  destruct (grow_built s s1 L i ty c (c ++ xp) din _ _ off B Hi Im1 St A1) as (G1 & G2 & G3 & G4 & G5 & G6 & G7 & G8 & G9 & G10); [pose proof (cdiv_full off); lia|].
  fold n in G1, G2, G3, G8, G9, G10. set (ip := din <| i_size := off |>) in *. set (s2 := put_inode n ip s1) in *.
  split.
  - done.
  - rewrite length_insert. change (mk_freeinode s2) with (mk_freeinode s1). rewrite (sp_inum _ _ _ _ St). apply B.
  - by rewrite length_insert.
  - intros j f Hj. destruct (decide (j = i)) as [->|Hne]; [|rewrite list_lookup_insert_ne in Hj by done; by apply (G8 j f)].
    rewrite list_lookup_insert_eq in Hj by done. injection Hj as <-. fold n. cbn [fst snd].
    split; rewrite G2; rewrite ?length_app, ?Nat2Z.inj_add, <-?E1; [done|done|split; [done|apply F3]|done].
  - intros j k. rewrite length_insert. intros Hj Hk Hne. destruct (lookup_lt_is_Some_2 L j Hj) as [f1 Hf1], (lookup_lt_is_Some_2 L k Hk) as [f2 Hf2].
    destruct (decide (j = i)) as [->|Hji]; [fold n; rewrite G2; by eapply G8|]. destruct (decide (k = i)) as [->|Hki]; [|by apply G9].
    fold n. rewrite G2. intros b Hb1 Hb2. by eapply (proj2 (G8 j f1 Hji Hf1)).
  - rewrite (zsum_insert blocks L i (ty, c) (ty, c ++ xp)) by done. change (mk_freeblock s2) with (mk_freeblock s1). rewrite Fb1, (bu_fb _ _ B).
    assert (blocks (ty, c ++ xp) = used (cdiv off)) as -> by (unfold blocks; cbn [snd]; by rewrite length_app, Nat2Z.inj_add, E1). unfold blocks at 3. cbn [snd]. lia.
  - rewrite G10 by lia. apply (bu_super _ _ B).
  - rewrite G10 by lia. apply (bu_log _ _ B).
Qed.

(** ** format *)

Lemma wsect_zero s i :
  0 ≤ i < FSSIZE → mk_nsect s = i → (∀ k, sector s k = zero_block) →
  wp (wsect i zero_block) (λ _ s', mk_nsect s' = i + 1 ∧ (∀ k, sector s' k = zero_block) ∧
    mk_sb s' = mk_sb s ∧ mk_freeblock s' = mk_freeblock s ∧ mk_freeinode s' = mk_freeinode s) s.
Proof.
  intros Hi Hn Hz. unfold wsect. apply wp_modify. rewrite seek_id by done. split_and!; try done; [simpl; lia|].
  intros k. specialize (Hz k). unfold sector in *. simpl. destruct (decide (k = i)) as [->|]; [by rewrite lookup_insert_eq|by rewrite lookup_insert_ne].
Qed.

Lemma format_built : wp format (λ _ s, built s []) mkfs0.
Proof.
  unfold format. apply wp_bind, wp_modify. apply wp_bind. unfold printf. apply wp_modify. apply wp_bind, wp_modify.
  match goal with |- wp _ _ ?t => set (s := t) end. apply wp_bind.
  eapply wp_mono; [apply (wp_for_all (λ i s', mk_nsect s' = i ∧ (∀ k, sector s' k = zero_block) ∧ mk_sb s' = mk_sb s ∧
    mk_freeblock s' = mk_freeblock s ∧ mk_freeinode s' = mk_freeinode s))|].
  - split_and!; done.
  - intros j s' Hj (H1 & H2 & H3 & H4 & H5). eapply wp_mono; [apply (wsect_zero s' j); [unfold FSSIZE in *; lia|done..]|].
    intros [] s'' (? & ? & ? & ? & ?). split_and!; congruence || done.
  - intros [] s1 (H1 & H2 & H3 & H4 & H5). change (mk_sb s) with sb0 in H3. change (mk_freeblock s) with 59 in H4.
    assert (image s1) as Im. { split; [done|done|rewrite H4; done|intros k; by rewrite H2|intros k _; apply H2]. }
    apply wp_wsect; [done|done|]. change (put_words _ _ _) with (super_bytes sb0).
    split; [apply image_put; [done|rewrite H4; done|done]|by rewrite (H5 : mk_freeinode (put _ _ _) = _)|done|done|intros i j Hi; simpl in Hi; lia|by rewrite (H4 : mk_freeblock (put _ _ _) = _)| |].
    + by rewrite sector_put, decide_True.
    + rewrite sector_put, decide_False by done. apply H2.
Qed.

(** ** The files of the command line *)

(** What the loop reads from a file. *)
Fixpoint file_bytes (reads : list (list Z)) : list Z :=
  match reads with
  | [] => []
  | [] :: _ => []
  | buf :: reads => buf ++ file_bytes reads
  end.

Lemma blocks_mono ty ty' c c' : (length c ≤ length c')%nat → blocks (ty, c) ≤ blocks (ty', c').
Proof. intros H. apply used_mono, cdiv_mono. cbn [snd]. lia. Qed.

Lemma append_reads_built reads s L i ty c :
  built s L → L !! i = Some (ty, c) → Z.of_nat (length (c ++ file_bytes reads)) ≤ MAXFILE * BSIZE →
  mk_freeblock s + (blocks (ty, c ++ file_bytes reads) - blocks (ty, c)) ≤ FSSIZE →
  wp (append_reads (1 + Z.of_nat i) reads) (λ _ s', built s' (<[i := (ty, c ++ file_bytes reads)]> L)) s.
Proof.
  revert s L c. induction reads as [|[|x buf] reads IH]; intros s L c B Hi Hmax Hfb.
  1,2: simpl; apply wp_ret; rewrite app_nil_r; by rewrite list_insert_id.
  cbn [append_reads file_bytes] in *. set (b := x :: buf) in *. rewrite app_assoc in *.
  pose proof (blocks_mono ty ty (c ++ b) ((c ++ b) ++ file_bytes reads) ltac:(rewrite (length_app (c ++ b)); lia)).
  apply wp_bind. eapply wp_mono; [apply (iappend_built s L i ty c b B Hi); [rewrite (length_app (c ++ b)) in Hmax; lia|lia]|].
  intros [] s1 B1. pose proof (bu_fb _ _ B1) as E1. rewrite (zsum_insert blocks L i (ty, c)), <-Z.add_sub_assoc, Z.add_assoc, <-(bu_fb _ _ B) in E1 by done.
  eapply wp_mono; [apply (IH s1 _ (c ++ b) B1); [apply list_lookup_insert_eq; by eapply lookup_lt_Some|done|lia]|].
  intros [] s2 B2. by rewrite list_insert_insert_eq in B2.
Qed.

Lemma length_lstrncpy n t : length (lstrncpy n t) = n.
Proof.
  revert t. induction n as [|n IH]; intros [|c t]; cbn [lstrncpy]; try done; [by rewrite length_replicate|].
  destruct (c =? 0); [by rewrite length_replicate|]. simpl. by rewrite IH.
Qed.
Lemma length_dirent name inum : length (dirent name inum) = 16%nat.
Proof. unfold dirent. by rewrite length_app, length_lstrncpy, length_wr16. Qed.

(** The image with a root directory [rc] and files [cs]. *)
Definition tree (rc : list Z) (cs : list (list Z)) : list (Z * list Z) := (T_DIR, rc) :: (pair T_FILE <$> cs).

(** A file that is added: its name and what is read of it. *)
Definition ok_file (f : list Z * list (list Z)) : Prop :=
  existsb (Z.eqb slash) f.1 = false ∧ Z.of_nat (length (file_bytes f.2)) ≤ MAXFILE * BSIZE.
Definition to_arg (f : list Z * list (list Z)) : arg := (f.1, Some f.2).

(** The root directory and the files after [fl] has been added to [k] files. *)
Fixpoint root_entries (k : Z) (fl : list (list Z * list (list Z))) : list Z :=
  match fl with [] => [] | f :: fl => dirent (fs_name f.1) (2 + k) ++ root_entries (k + 1) fl end.

Lemma length_root_entries k fl : Z.of_nat (length (root_entries k fl)) = 16 * Z.of_nat (length fl).
Proof. revert k. induction fl as [|f fl IH]; intros k; [done|]. cbn [root_entries length]. rewrite length_app, length_dirent. specialize (IH (k + 1)). lia. Qed.

Lemma zsum_pos (l : list (list Z)) : 0 ≤ zsum blocks (pair T_FILE <$> l).
Proof. induction l as [|c l IH]; cbn [fmap list_fmap zsum]; [lia|]. pose proof (blocks_mono T_FILE T_FILE [] c ltac:(simpl; lia)) as H. change (blocks (T_FILE, [])) with 0 in H. lia. Qed.

Lemma zsum_tree rc cs : zsum blocks (tree rc cs) = blocks (T_DIR, rc) + zsum blocks (pair T_FILE <$> cs).
Proof. done. Qed.

Lemma add_file_built s rc cs f :
  built s (tree rc cs) → ok_file f → Z.of_nat (length cs) + 2 < NINODES → Z.of_nat (length rc) ≤ 16 * Z.of_nat (length cs) + 32 →
  let rc' := rc ++ dirent (fs_name f.1) (2 + Z.of_nat (length cs)) in let cs' := cs ++ [file_bytes f.2] in
  59 + zsum blocks (tree rc' cs') ≤ FSSIZE → wp (add_file ROOTINO (to_arg f)) (λ _ s', built s' (tree rc' cs')) s.
Proof.
  destruct f as [name reads]. intros B [Hs Hm] Hc Hrc rc' cs' Hsp. cbn [fst snd] in *. unfold to_arg, add_file. cbn [fst snd]. rewrite Hs.
  assert (length (tree rc cs) = S (length cs)) as Hl by (unfold tree; simpl; by rewrite length_fmap).
  set (d := dirent (fs_name name) (2 + Z.of_nat (length cs))) in *.
  assert (length rc' = length rc + 16)%nat as Hlr by (unfold rc'; rewrite length_app; f_equal; apply length_dirent).
  unfold cs' in Hsp. rewrite zsum_tree, fmap_app, zsum_app in Hsp. cbn [zsum fmap list_fmap] in Hsp.
  pose proof (blocks_mono T_FILE T_FILE [] (file_bytes reads) ltac:(simpl; lia)) as Hb0. change (blocks (T_FILE, [])) with 0 in Hb0.
  apply wp_bind. eapply wp_mono; [apply (ialloc_built s _ T_FILE B); [rewrite Hl; lia|done]|]. rewrite Hl. intros n s1 [-> B1].
  replace (1 + Z.of_nat (S (length cs))) with (2 + Z.of_nat (length cs)) by lia. rewrite xshort_id by (unfold NINODES in *; lia). fold d.
  assert (tree rc cs ++ [(T_FILE, [])] = tree rc (cs ++ [[]])) as E1 by (unfold tree; rewrite fmap_app; done). rewrite E1 in B1.
  pose proof (bu_fb _ _ B1) as F1. rewrite zsum_tree, fmap_app, zsum_app in F1. cbn [zsum fmap list_fmap] in F1. change (blocks (T_FILE, [])) with 0 in F1.
  apply wp_bind. eapply wp_mono; [apply (iappend_built s1 _ 0 T_DIR rc d B1 eq_refl); fold rc'; [rewrite MAXFILE_eq; unfold NINODES, BSIZE in *; lia|lia]|].
  fold rc'. intros [] s2 B2. change (<[0%nat := _]> (tree rc _)) with (tree rc' (cs ++ [[]])) in B2.
  pose proof (bu_fb _ _ B2) as F2. rewrite zsum_tree, fmap_app, zsum_app in F2. cbn [zsum fmap list_fmap] in F2. change (blocks (T_FILE, [])) with 0 in F2.
  assert (∀ c, <[S (length cs) := (T_FILE, c)]> (tree rc' (cs ++ [[]])) = tree rc' (cs ++ [c])) as E2.
  { intros c. unfold tree. simpl. f_equal. rewrite !fmap_app. rewrite insert_app_r_alt by (rewrite length_fmap; lia). f_equal. rewrite length_fmap, Nat.sub_diag. done. }
  replace (2 + Z.of_nat (length cs)) with (1 + Z.of_nat (S (length cs))) by lia.
  eapply wp_mono; [apply (append_reads_built reads s2 _ (S (length cs)) T_FILE [] B2); [|done|cbn [app]; change (blocks (T_FILE, [])) with 0; lia]|].
  - simpl. rewrite list_lookup_fmap, lookup_app_r, Nat.sub_diag by lia. done.
  - intros [] s3 B3. unfold cs'. rewrite <-E2. exact B3.
Qed.

Lemma add_files_built fl s rc cs :
  built s (tree rc cs) → Forall ok_file fl → Z.of_nat (length cs) + Z.of_nat (length fl) + 1 < NINODES →
  Z.of_nat (length rc) ≤ 16 * Z.of_nat (length cs) + 32 →
  let rc' := rc ++ root_entries (Z.of_nat (length cs)) fl in let cs' := cs ++ (file_bytes ∘ snd <$> fl) in
  59 + zsum blocks (tree rc' cs') ≤ FSSIZE → wp (add_files ROOTINO (to_arg <$> fl)) (λ _ s', built s' (tree rc' cs')) s.
Proof.
  revert s rc cs. induction fl as [|f fl IH]; intros s rc cs B Hok Hc Hrc rc' cs' Hsp.
  - unfold rc', cs'. simpl. rewrite !app_nil_r. by apply wp_ret.
  - inversion_clear Hok as [|? ? Hf Hok']. cbn [add_files fmap list_fmap]. set (rc1 := rc ++ dirent (fs_name f.1) (2 + Z.of_nat (length cs))).
    set (cs1 := cs ++ [file_bytes f.2]). assert (Z.of_nat (length cs1) = Z.of_nat (length cs) + 1) as Hl1 by (unfold cs1; rewrite length_app; simpl; lia).
    assert (rc' = rc1 ++ root_entries (Z.of_nat (length cs1)) fl) as Er by (unfold rc', rc1; cbn [root_entries]; by rewrite Hl1, <-app_assoc).
    assert (cs' = cs1 ++ (file_bytes ∘ snd <$> fl)) as Ec by (unfold cs', cs1; rewrite <-app_assoc; done).
    rewrite Er, Ec in Hsp |- *. apply wp_bind. eapply wp_mono.
    + apply (add_file_built s rc cs f B Hf); [cbn [length] in Hc; lia|done|]. fold rc1 cs1.
      rewrite !zsum_tree, ?fmap_app, ?zsum_app in *. pose proof (zsum_pos (file_bytes ∘ snd <$> fl)).
      pose proof (blocks_mono T_DIR T_DIR rc1 (rc1 ++ root_entries (Z.of_nat (length cs1)) fl) ltac:(rewrite length_app; lia)). lia.
    + fold rc1 cs1. intros [] s1 B1. apply IH; [done|done|cbn [length] in Hc; lia| |done].
      unfold rc1. rewrite length_app, length_dirent. lia.
Qed.

(** ** main *)

(** [.] and [..], and the entries of the files. *)
Definition root_dir (fl : list (list Z * list (list Z))) : list Z :=
  dirent [46] ROOTINO ++ dirent [46; 46] ROOTINO ++ root_entries 0 fl.
Definition the_tree (fl : list (list Z * list (list Z))) : list (Z * list Z) := tree (root_dir fl) (file_bytes ∘ snd <$> fl).

Record fits (fl : list (list Z * list (list Z))) : Prop := {
  ft_files : Forall ok_file fl;
  ft_count : Z.of_nat (length fl) + 1 < NINODES;
  ft_space : 59 + zsum blocks (the_tree fl) ≤ FSSIZE;
}.

Lemma length_root_dir fl : Z.of_nat (length (root_dir fl)) = 16 * (Z.of_nat (length fl) + 2).
Proof. unfold root_dir. rewrite !length_app, !length_dirent. pose proof (length_root_entries 0 fl). lia. Qed.

Lemma make_files_built s1 fl :
  built s1 [] → fits fl → wp (make_files (to_arg <$> fl)) (λ r s, r = ROOTINO ∧ built s (the_tree fl)) s1.
Proof.
  intros B1 [Hok Hc Hsp]. unfold make_files. apply wp_bind. eapply wp_mono; [apply (ialloc_built s1 [] T_DIR B1); done|]. intros n s2 [-> B2]. simpl negb. cbv iota.
  change (1 + Z.of_nat (length [])) with (1 + Z.of_nat 0). change (xshort (1 + Z.of_nat 0)) with 1. change (([] : list (Z * list Z)) ++ [(T_DIR, [])]) with (tree [] []) in B2.
  pose proof (bu_fb _ _ B2) as F2. change (zsum blocks (tree [] [])) with 0 in F2.
  apply wp_bind. eapply wp_mono; [apply (iappend_built s2 _ 0 T_DIR [] (dirent [46] 1) B2 eq_refl); [done|rewrite F2; done]|].
  intros [] s3 B3. cbn [app] in B3. change (<[0%nat := _]> (tree [] [])) with (tree (dirent [46] 1) []) in B3.
  pose proof (bu_fb _ _ B3) as F3. change (zsum blocks (tree _ [])) with 1 in F3.
  apply wp_bind. eapply wp_mono; [apply (iappend_built s3 _ 0 T_DIR _ (dirent [46; 46] 1) B3 eq_refl); [done|rewrite F3; done]|].
  intros [] s4 B4. change (<[0%nat := ?x]> (tree _ [])) with (tree (dirent [46] 1 ++ dirent [46; 46] 1) []) in B4.
  change (1 + Z.of_nat 0) with ROOTINO.
  apply wp_bind. eapply wp_mono; [apply (add_files_built fl s4 _ [] B4); [done|simpl; lia|done|]|]; cbn [length app Z.of_nat]; rewrite <-app_assoc; [done|].
  intros [] s5 B5. by apply wp_ret.
Qed.

(** ** The finished image *)

Definition dnode V (n : Z) : inode := get_dinode (V (IBLOCK n sb0)) (n mod IPB) (dinode0 n).

(** Inode [n] on disk is a file of type [ty] with contents [c]. *)
Record stored V (n ty : Z) c : Prop := {
  od_ok : inode_ok V sb0 (dnode V n);
  od_type : i_type (dnode V n) = ty;
  od_nlink : i_nlink (dnode V n) = 1;
  od_content : content V (dnode V n) = c;
}.

(** The disk holds the files [L], from inode 1 on. *)
Record fs_image V (L : list (Z * list Z)) : Prop := {
  fi_volume : volume V sb0;
  fi_super : get_super (V 1) = sb0;
  fi_log : V 2 = zero_block;
  fi_file i f : L !! i = Some f → stored V (1 + Z.of_nat i) f.1 f.2;
  fi_apart i j : (i < length L)%nat → (j < length L)%nat → i ≠ j → apart V (dnode V (1 + Z.of_nat i)) (dnode V (1 + Z.of_nat j));
}.

Lemma afile_content V ip c N I :
  afile V ip c N I → Z.of_nat (length c) ≤ i_size ip ≤ N * BSIZE → content V ip = c ++ replicate (Z.to_nat (i_size ip - Z.of_nat (length c))) 0.
Proof.
  intros [A1 A2 A3 A4 A5 A6] Hsz. assert (Z.of_nat (length (content V ip)) = i_size ip) as Hl by (apply length_content; lia).
  apply rd8_ext; [rewrite length_app, length_replicate; lia|]. intros o Ho. rewrite rd8_content, A6 by lia.
  destruct (decide (o < Z.of_nat (length c))); [by rewrite rd8_app_l|]. rewrite rd8_app_r, rd8_out by lia.
  unfold rd8, aget. case_match; [done|]. destruct (replicate _ 0 !! _) eqn:E; [|done]. by apply lookup_replicate_1 in E as [-> _].
Qed.

Definition root_size (fl : list (list Z * list (list Z))) : Z := (Z.of_nat (length (root_dir fl)) / BSIZE + 1) * BSIZE.

(** The state after [balloc]: the bitmap is on the image. *)
Definition with_bitmap s : mkfs := put 58 (used_bits (mk_freeblock s)) s.

Lemma with_bitmap_view s : same_view (sector (with_bitmap s)) (mview s).
Proof. split. intros k. unfold with_bitmap. rewrite sector_put. unfold mview. destruct (Z.eqb_spec k (sb_bmapstart sb0)) as [->|]; [done|]. by case_decide. Qed.

Lemma dnode_mview s n : 0 ≤ n < NINODES → dnode (sector (with_bitmap s)) n = dino s n.
Proof. intros Hn. pose proof (inode_block n Hn). unfold dnode, dino, with_bitmap. by rewrite sector_put, decide_False by lia. Qed.

Lemma balloc_image s (Q : unit → mkfs → Prop) :
  image s → (∀ out, Q tt ((with_bitmap s) <| mk_out := out |>)) → wp (fb <- gets mk_freeblock ;; balloc fb) Q s.
Proof.
  intros Hi HQ. pose proof (im_free _ Hi) as Hf. apply wp_bind, wp_gets. unfold balloc, printf. apply wp_bind, wp_modify.
  destruct (Z.ltb_spec (mk_freeblock s) (BSIZE * 8)); [|unfold FSSIZE, BSIZE in *; lia]. simpl negb. cbv iota. apply wp_bind, wp_gets.
  apply wp_bind, wp_modify. simpl mk_sb. rewrite (im_sb _ Hi). match goal with |- wp _ _ ?t => set (s1 := t) end.
  assert (image s1) as Hi1 by (destruct Hi; by split). apply wp_wsect; [done|done|]. apply HQ.
Qed.

Lemma fix_root_spec s fl (Q : unit → mkfs → Prop) :
  built s (the_tree fl) → Z.of_nat (length fl) + 1 < NINODES →
  Q tt (put_inode 1 ((dino s 1) <| i_size := root_size fl |>) s) → wp (fix_root ROOTINO) Q s.
Proof.
  intros B Hc HQ. pose proof (bu_image _ _ B) as Im. pose proof (fl_size _ _ _ _ (bu_file _ _ B 0 _ eq_refl)) as Hsz. cbn [fst snd] in Hsz.
  change (1 + Z.of_nat 0) with 1 in Hsz. pose proof (length_root_dir fl) as Hl. unfold NINODES in *.
  unfold fix_root. apply wp_bind. apply wp_rinode; [done|done|]. change ROOTINO with 1. rewrite Hsz, (xint_id (Z.of_nat (length (root_dir fl)))) by lia. fold (root_size fl).
  rewrite xint_id. 2: { unfold root_size. rewrite Hl. pose proof (Z.div_le_upper_bound (16 * (Z.of_nat (length fl) + 2)) BSIZE 10 ltac:(done) ltac:(unfold BSIZE; lia)).
    pose proof (Z.div_pos (16 * (Z.of_nat (length fl) + 2)) BSIZE ltac:(lia) ltac:(done)). unfold BSIZE in *. lia. }
  apply wp_winode; [done|done|done].
Qed.

(** What [main] leaves. *)
Lemma main_spec fl (Q : unit → mkfs → Prop) :
  fits fl →
  (∀ s out, built s (the_tree fl) → image (put_inode 1 ((dino s 1) <| i_size := root_size fl |>) s) →
     Q tt ((with_bitmap (put_inode 1 ((dino s 1) <| i_size := root_size fl |>) s)) <| mk_out := out |>)) →
  wp (main (Some true) (to_arg <$> fl)) Q mkfs0.
Proof.
  intros Hf HQ. unfold main. apply wp_bind, wp_modify. change (mkfs0 <| mk_img := ∅ |> <| mk_nsect := 0 |>) with mkfs0.
  apply wp_bind. eapply wp_mono; [apply format_built|]. intros [] s1 B1. apply wp_bind. eapply wp_mono; [by apply make_files_built|].
  intros r s2 [-> B2]. apply wp_bind. apply (fix_root_spec s2 fl); [done|apply Hf|].
  pose proof (image_put_inode s2 1 ((dino s2 1) <| i_size := root_size fl |>) (bu_image _ _ B2) ltac:(done)) as Im.
  apply balloc_image; [done|]. intros out. by apply HQ.
Qed.

Lemma root_size_full fl : (Z.of_nat (length fl) + 2) mod 32 ≠ 0 → root_size fl = cdiv (Z.of_nat (length (root_dir fl))) * BSIZE.
Proof.
  intros Hm. pose proof (length_root_dir fl) as Hl. unfold root_size. f_equal. set (x := Z.of_nat (length (root_dir fl))) in *. symmetry. apply cdiv_eq.
  pose proof (Z.div_mod x BSIZE ltac:(done)). pose proof (Z.mod_pos_bound x BSIZE ltac:(done)).
  assert (x mod BSIZE ≠ 0) as Hx; [|lia]. rewrite Hl. change BSIZE with (16 * 32). rewrite Z.mul_mod_distr_l by done. lia.
Qed.

(** The contents of the root directory: its size is rounded up. *)
Definition root_content (fl : list (list Z * list (list Z))) : list Z :=
  root_dir fl ++ replicate (Z.to_nat (root_size fl - Z.of_nat (length (root_dir fl)))) 0.

(** The files that the image has. *)
Definition files_of (fl : list (list Z * list (list Z))) : list (Z * list Z) := tree (root_content fl) (file_bytes ∘ snd <$> fl).

Lemma built_stored s n ty c N I pad :
  image s → 0 ≤ n < NINODES → afile (mview s) (dino s n) c N I → i_type (dino s n) = ty → i_nlink (dino s n) = 1 →
  Z.of_nat (length c) ≤ i_size (dino s n) ≤ N * BSIZE → pad = replicate (Z.to_nat (i_size (dino s n) - Z.of_nat (length c))) 0 →
  stored (sector (with_bitmap s)) n ty (c ++ pad).
Proof.
  intros Hi Hn A Ht Hl Hsz ->. pose proof (with_bitmap_view s) as E. split; rewrite dnode_mview by done; try done.
  - rewrite E. apply A.
  - rewrite E. by eapply afile_content.
Qed.

Lemma main_image fl :
  fits fl → (Z.of_nat (length fl) + 2) mod 32 ≠ 0 →
  wp (main (Some true) (to_arg <$> fl)) (λ _ s, fs_image (sector s) (files_of fl) ∧
    ∀ b, b ∈ free_blocks (sector s) sb0 ↔ 59 + zsum blocks (the_tree fl) ≤ b < FSSIZE) mkfs0.
Proof.
  intros Hf Hm. apply main_spec; [done|]. intros s out B Im.
  change (sector ((with_bitmap ?t) <| mk_out := out |>)) with (sector (with_bitmap t)).
  pose proof (fl_file _ _ _ _ (bu_file _ _ B 0 _ eq_refl)) as A0. cbn [fst snd] in A0. change (1 + Z.of_nat 0) with 1 in A0.
  pose proof (root_size_full fl Hm) as Hr. pose proof (cdiv_full (Z.of_nat (length (root_dir fl))) ltac:(lia)) as Hcf.
  destruct (grow_built s s (the_tree fl) 0 T_DIR (root_dir fl) _ (dino s 1) _ _ (root_size fl) B eq_refl (bu_image _ _ B) (step_refl _ _) A0)
    as (_ & G2 & G3 & G4 & _ & _ & G7 & G8 & G9 & G10); [lia|]. change (1 + Z.of_nat 0) with 1 in *.
  set (ip := (dino s 1) <| i_size := root_size fl |>) in *. set (s2 := put_inode 1 ip s) in *.
  pose proof (with_bitmap_view s2) as E. assert (length (files_of fl) = length (the_tree fl)) as El by (unfold files_of, the_tree, tree; done).
  assert (∀ i, (i < length (files_of fl))%nat → 0 ≤ 1 + Z.of_nat i < NINODES) as Hn by (intros i Hi; pose proof (bu_count _ _ B); lia).
  split; [split|].
  - rewrite E. by apply image_volume.
  - unfold with_bitmap. rewrite sector_put, decide_False, G10, (bu_super _ _ B) by done. vm_compute. done.
  - unfold with_bitmap. rewrite sector_put, decide_False, G10 by done. apply (bu_log _ _ B).
  - intros [|i] f Hi.
    + injection Hi as <-. cbn [fst snd]. change (1 + Z.of_nat 0) with 1. unfold root_content.
      eapply built_stored; [done|done|rewrite G2; exact G3|by rewrite G2|by rewrite G2|rewrite G2; change (i_size ip) with (root_size fl); lia|by rewrite G2].
    + assert (the_tree fl !! S i = Some f) as Hi' by exact Hi. destruct (G8 (S i) f ltac:(done) Hi') as [[F1 F2 F3 F4] _].
      rewrite <-(app_nil_r f.2). pose proof (cdiv_full (Z.of_nat (length f.2)) ltac:(lia)).
      eapply built_stored; [done|apply Hn; by eapply lookup_lt_Some|exact F1|apply F3|apply F4|lia|by rewrite F2, Z.sub_diag].
  - intros i j Hi Hj Hne. rewrite !dnode_mview by auto. unfold apart. setoid_rewrite E. rewrite El in *.
    destruct (lookup_lt_is_Some_2 _ i Hi) as [f1 Hf1], (lookup_lt_is_Some_2 _ j Hj) as [f2 Hf2].
    destruct (decide (i = 0%nat)) as [->|Hi0]; [change (1 + Z.of_nat 0) with 1; rewrite G2; by eapply G8|].
    destruct (decide (j = 0%nat)) as [->|Hj0]; [|by apply G9]. change (1 + Z.of_nat 0) with 1. rewrite G2. intros k Hk1 Hk2. by eapply (proj2 (G8 i f1 Hi0 Hf1)).
  - intros b. rewrite E, elem_of_free. pose proof (bu_fb _ _ B) as Fb. change (mk_freeblock s) with (mk_freeblock s2) in Fb. rewrite <-Fb.
    pose proof (im_free _ Im). simpl sb_size. split.
    + intros [H1 H2]. rewrite image_bit in H1 by (done || lia). apply bool_decide_eq_false_1 in H1. lia.
    + intros Hb. rewrite image_bit by (done || lia). split; [apply bool_decide_eq_false_2; lia|lia].
Qed.

(** C10: The image that [mkfs] builds is the file system it is meant to be. For
    any files with names without a slash that fit on the disk, and whatever the
    pieces in which they are read, [main] returns; the superblock and the log
    header are those the kernel expects, the bitmap marks exactly the blocks in
    use, inode 1 is a directory with [.], [..] and an entry for each file,
    inode [2 + i] is a regular file with exactly the bytes of file [i], every
    inode satisfies the kernel's invariant and no two share a block. (The
    number of root entries is not a multiple of 32; see the next theorem.) *)
Theorem mkfs_image fl :
  fits fl → (Z.of_nat (length fl) + 2) mod 32 ≠ 0 →
  wp (main (Some true) (to_arg <$> fl)) (λ _ s, fs_image (sector s) (files_of fl) ∧
    ∀ b, b ∈ free_blocks (sector s) sb0 ↔ 59 + zsum blocks (the_tree fl) ≤ b < FSSIZE) mkfs0.
Proof. apply main_image. Qed.

(** C30: [mkfs] leaves a hole in the root directory when the number of its
    entries is a multiple of 32: the size is rounded up past a last block that
    is full, to a block that the inode does not have. *)
Theorem mkfs_root_hole fl :
  fits fl → (Z.of_nat (length fl) + 2) mod 32 = 0 →
  wp (main (Some true) (to_arg <$> fl)) (λ _ s, let ip := dnode (sector s) 1 in
    i_type ip = T_DIR ∧ i_size ip = Z.of_nat (length (root_dir fl)) + BSIZE ∧
    baddr (sector s) ip (i_size ip / BSIZE - 1) = 0 ∧ ¬ inode_ok (sector s) sb0 ip) mkfs0.
Proof.
  intros Hf Hm. apply main_spec; [done|]. intros s out B Im.
  change (sector ((with_bitmap ?t) <| mk_out := out |>)) with (sector (with_bitmap t)).
  pose proof (bu_file _ _ B 0 _ eq_refl) as [A0 F2 F3 F4]. cbn [fst snd] in A0, F2, F3, F4. change (1 + Z.of_nat 0) with 1 in *.
  pose proof (length_root_dir fl) as Hl. set (x := Z.of_nat (length (root_dir fl))) in *.
  assert (x mod BSIZE = 0) as Hx by (rewrite Hl; change BSIZE with (16 * 32); rewrite Z.mul_mod_distr_l, Hm by done; done).
  pose proof (Z.div_mod x BSIZE ltac:(done)) as Hd. assert (root_size fl = x + BSIZE) as Hr by (unfold root_size; fold x; unfold BSIZE in *; lia).
  assert (cdiv x = x / BSIZE) as Hc by (unfold cdiv; symmetry; apply (Z.div_unique_pos _ _ _ (BSIZE - 1)); unfold BSIZE in *; lia).
  set (ip := (dino s 1) <| i_size := root_size fl |>) in *.
  assert (x ≤ 3200) as Hx2 by (pose proof (ft_count _ Hf); unfold NINODES in *; lia).
  assert (dinode_fits ip) as Hfit.
  { pose proof (ok_fits _ _ (af_ok _ _ _ _ _ A0)) as [D1 D2 D3 D4 D5 D6 D7]; [rewrite (proj1 F3); apply F3|apply F4..|].
    split; try done. change (i_size ip) with (root_size fl). rewrite Hr. unfold BSIZE. lia. }
  cbv zeta. rewrite !dnode_mview by done. rewrite (dino_self s 1 ip (bu_image _ _ B) Hfit) by done.
  pose proof (with_bitmap_view (put_inode 1 ip s)) as E. change (i_size ip) with (root_size fl). rewrite Hr.
  assert (baddr (sector (with_bitmap (put_inode 1 ip s))) ip ((x + BSIZE) / BSIZE - 1) = 0) as H0.
  { destruct (afile_put_inode s 1 ip _ _ _ _ (bu_image _ _ B) ltac:(done) A0) as [A1 _]. rewrite E.
    replace (x + BSIZE) with (x + 1 * BSIZE) by lia. rewrite Z.div_add by done. replace (x / BSIZE + 1 - 1) with (x / BSIZE) by lia.
    pose proof (Z.div_lt_upper_bound x BSIZE 7 ltac:(done) ltac:(unfold BSIZE; lia)). pose proof (Z.div_pos x BSIZE ltac:(lia) ltac:(done)).
    pose proof (af_slot _ _ _ _ _ A1 (x / BSIZE) ltac:(rewrite MAXFILE_eq; lia)) as Hs. change (baddr ?V (dino s 1)) with (baddr V ip) in Hs. lia. }
  split_and!; [apply F3|done|done|]. intros Hok. apply (io_covers _ _ _ Hok ((x + BSIZE) / BSIZE - 1)); [|change (i_size ip) with (root_size fl)|done].
  all: replace (x + BSIZE) with (x + 1 * BSIZE) by lia; rewrite Z.div_add by done; pose proof (Z.div_pos x BSIZE ltac:(lia) ltac:(done)); unfold BSIZE in *; lia.
Qed.

Module MkfsExamples.
(** Two files, one of them larger than its direct blocks, read in uneven
    pieces. *)
Definition ex_args : list (list Z * list (list Z)) :=
  [([95; 97], [replicate 512 7; replicate 100 8; []]); ([98], replicate 20 (replicate 500 9))].

Lemma ex_fits : fits ex_args.
Proof. split; [repeat constructor; vm_compute; done|vm_compute; done|vm_compute; done]. Qed.

Lemma mkfs_image_witness : ∃ s, main (Some true) (to_arg <$> ex_args) mkfs0 = Ok tt s ∧
  fs_image (sector s) (files_of ex_args).
Proof.
  pose proof (mkfs_image ex_args ex_fits ltac:(vm_compute; done)) as H. destruct (proj1 (wp_ok _ _ _) H) as ([] & s & E & Fi & _). exists s. split; [exact E|exact Fi].
Defined.

(** Thirty empty files: with [.] and [..] the root has 32 entries. *)
Definition ex_thirty : list (list Z * list (list Z)) := replicate 30 ([97], []).

Lemma ex_thirty_fits : fits ex_thirty.
Proof. split; [by apply Forall_replicate|vm_compute; done|vm_compute; done]. Qed.

Lemma mkfs_root_hole_witness : ∃ s, main (Some true) (to_arg <$> ex_thirty) mkfs0 = Ok tt s ∧
  i_size (dnode (sector s) 1) = 1024 ∧ baddr (sector s) (dnode (sector s) 1) 1 = 0.
Proof.
  pose proof (mkfs_root_hole ex_thirty ex_thirty_fits ltac:(vm_compute; done)) as H. destruct (proj1 (wp_ok _ _ _) H) as ([] & s & E & _ & Hs & H0 & _). exists s. split; [exact E|].
  rewrite length_root_dir in Hs. change (16 * (Z.of_nat (length ex_thirty) + 2) + BSIZE) with 1024 in Hs. rewrite Hs in H0. split; [exact Hs|exact H0].
Defined.
End MkfsExamples.
