(* ===== verification/Boot.v ===== *)
(** Booting the file system, and booting it on an image of [mkfs].

    [fs_boot] is what [main] and the first process do to the file system:
    [binit], [iinit] and [initlog].  From a machine that was switched on with
    any disk that the log code left, it ends in an idle file system on the
    recovered disk; on the image that [mkfs] made, the kernel then finds every
    file under its name and reads its bytes. *)

From S2P Require Import Prelude Memory Machine Disk Bio Log LogCrash Txn Fs Inode Bmap Rdwr Op SwapFile FileProps Path Mkfs MkfsProps MkfsImage.
From stdpp Require Import options.
Implicit Types s : fsys.
Implicit Types m : gmap (Z * Z) (list Z).
Implicit Types V : Z → list Z.
Implicit Types ip : inode.

(** [binit()] of [main], [iinit(ROOTDEV)] and [initlog(ROOTDEV)] of [forkret]. *)
Definition fs_boot : M fsys unit := binit ;; iinit ROOTDEV ;; initlog ROOTDEV.

(** The state of the file system when the machine is switched on with disks
    [m]: static data is zero. *)
Definition inode0 : inode := Inode 0 0 0 false false 0 0 0 0 0 (replicate 13 0).
Definition file0 : file := File FD_NONE 0 0 0 0 None 0.
Definition power_on m : fsys :=
  Fsys m [] true false [] false (replicate (Z.to_nat NBUF) buf0) [] false (Log 0 0 0 false 0 0 (replicate (Z.to_nat LOGSIZE) 0))
    (Superblock 0 0 0 0 0 0 0) false (replicate (Z.to_nat NINODE) inode0) false (replicate (Z.to_nat NFILE) file0) ∅ [] [] [].

Definition powered m : fsys := (power_on m) <| d_lru := rev (seq 0 (Z.to_nat NBUF)) |>.

Lemma binit_spec m : binit (power_on m) = Ok tt (powered m).
Proof. reflexivity. Qed.

Lemma powered_quiet m : (∀ k v, m !! k = Some v → length v = Z.to_nat BSIZE) → quiet (powered m).
Proof.
  intros Hm. assert (∀ i b, d_bufs (powered m) !! i = Some b → b = buf0) as Hb by (by intros i b [-> _]%lookup_replicate).
  assert (cache_ok (powered m)) as C.
  { split; try done; [symmetry; apply Permutation_rev|intros i b ->%Hb; split; try done; by right|by intros i j b c bn ->%Hb _ [? _]]. }
  split; [done|by intros k (i & b & ->%Hb & [? _] & _)..|].
  rewrite nfree_all; [done|done|by intros k (i & b & ->%Hb & [? _] & _)..].
Qed.

Lemma iinit_unlock s :
  d_inodes s = replicate (Z.to_nat NINODE) inode0 →
  for_all (Z.to_nat NINODE) 0 (λ i, modino (Z.to_nat i) (λ ip, ip <| i_locked := false |>)) s = Ok tt s.
Proof. destruct s. simpl. intros ->. reflexivity. Qed.

Lemma empty_icache s : d_icache_lock s = false → d_inodes s = replicate (Z.to_nat NINODE) inode0 → icache s None ∧ two_free s.
Proof.
  intros Hl E. assert (∀ i ip, d_inodes s !! i = Some ip → ip = inode0) as H by (rewrite E; by intros i ip [-> _]%lookup_replicate).
  split.
  - split; try done; [by intros i ip ->%H|by intros i ip ->%H|by intros i j ip jp ->%H|by intros i ip ->%H|by intros i ip ->%H].
  - exists 0%nat, 1%nat, inode0, inode0. by rewrite E.
Qed.

(** A disk as the log code left it, with the superblock [sb]. *)
Record bootable m sb : Prop := {
  bt_len k v : m !! k = Some v → length v = Z.to_nat BSIZE;
  bt_super : get_super (block_at m (1, 1)) = sb;
  bt_disk : disk_ok (sb_logstart sb) (sb_nlog sb) m;
  bt_size : MAXOPBLOCKS < sb_nlog sb - 1;
}.

Lemma fs_boot_spec m sb :
  bootable m sb →
  wp fs_boot (λ _ s, idle s ∧ icache s None ∧ two_free s ∧ d_sb s = sb ∧
    ∀ b, ¬ in_log (sb_logstart sb) (sb_nlog sb) b → view s b = recovered (sb_logstart sb) m b) (power_on m).
Proof.
  intros [Hm Hsb Hd Hsz]. unfold fs_boot. apply wp_bind. eapply wp_eq; [apply binit_spec|].
  pose proof (powered_quiet m Hm) as Q0. unfold iinit. apply wp_bind, wp_bind, wp_modify.
  change ((powered m) <| d_icache_lock := false |>) with (powered m). apply wp_bind. eapply wp_eq; [by apply iinit_unlock|].
  apply wp_bind. eapply wp_mono; [by apply readsb_spec|]. intros sb' s1 (Q1 & R1 & B1 & W1 & E1).
  change (on_disk (powered m) 1) with (block_at m (1, 1)) in E1. rewrite Hsb in E1. subst sb'. apply wp_modify.
  set (s2 := s1 <| d_sb := sb |> <| d_out ::= _ |>).
  assert (quiet s2) as Q2.
  { destruct Q1 as [[H1 H2 H3 H4 H5 H6 H7 H8] X2 X3 X4]. split; try done. split; try done. intros i b Hb. destruct (H3 i b Hb). by split. }
  assert (d_log s2 = Log 0 0 0 false 0 0 (replicate (Z.to_nat LOGSIZE) 0)) as El by exact (sr_log _ _ R1).
  eapply wp_mono; [apply (initlog_spec (sb_logstart sb) (sb_nlog sb) s2 Q2)|].
  - change (d_blocks s2) with (d_blocks s1). rewrite B1. exact Hd.
  - by rewrite El.
  - intros [] s3 (O3 & _ & V3 & (Q3 & R3 & L3 & Len3) & _). change (d_blocks s2) with (d_blocks s1) in V3. rewrite B1 in V3.
    rewrite El in L3. simpl in L3. pose proof R3 as [_ Y2 Y3 Y4 Y5 Y6 Y7 Y8]. simpl in Y2, Y3, Y4, Y5.
    assert (d_inodes s3 = replicate (Z.to_nat NINODE) inode0) as Ei by (rewrite Y5; exact (sr_inodes _ _ R1)).
    destruct (empty_icache s3) as [Ic Tf]; [rewrite Y4; exact (sr_icache _ _ R1)|done|].
    split_and!; try done. pose proof Q3 as [C3 D3 U3 _]. generalize dependent (lh_block (d_log s3)). intros hb L3 Hl.
    split; rewrite ?L3, ?Y3; try done. by apply tx_clean; rewrite ?L3.
Qed.

(** C9: The file system boots on what a crash leaves. Switched on with any disk
    whose superblock describes its log and whose log header the log code wrote,
    [binit], [iinit] and [initlog] return; the log is empty and closed, the
    inode cache is empty, and every block outside the log reads as its
    committed contents. *)
Theorem boot_recovers m sb :
  bootable m sb →
  ∃ s, fs_boot (power_on m) = Ok tt s ∧ idle s ∧ icache s None ∧ d_sb s = sb ∧
    ∀ b, ¬ in_log (sb_logstart sb) (sb_nlog sb) b → view s b = recovered (sb_logstart sb) m b.
Proof.
  intros Hb. destruct (proj1 (wp_ok _ _ _) (fs_boot_spec m sb Hb)) as ([] & s & E & H1 & H2 & _ & H3 & H4). exists s.
  exact (conj E (conj H1 (conj H2 (conj H3 H4)))).
Qed.

(** ** Directories of an image *)

Lemma lstrncmp_ncpy n p q : lstrncmp n p (lstrncpy n q) = lstrncmp n p q.
Proof.
  revert p q. induction n as [|n IH]; intros p q; [done|]. destruct q as [|c q]; cbn [lstrncpy].
  - cbn [lstrncmp head tail replicate]. change (default 0 (Some 0)) with 0. change (default 0 None) with 0. by destruct (default 0 (head p) =? 0).
  - destruct (Z.eqb_spec c 0) as [->|Hc]; cbn [lstrncmp head tail replicate]; [|by rewrite IH].
    change (default 0 (Some 0)) with 0. by destruct (default 0 (head p) =? 0).
Qed.
Lemma lstrncmp_refl n p : lstrncmp n p p = 0.
Proof. revert p. induction n as [|n IH]; intros p; [done|]. cbn [lstrncmp]. rewrite Z.eqb_refl, Z.sub_diag, orb_false_r. by case_match. Qed.
Lemma lstrncmp_take n p q : lstrncmp n (take n p) q = lstrncmp n p q.
Proof.
  revert p q. induction n as [|n IH]; intros p q; [done|]. destruct p as [|c p]; cbn [take lstrncmp head tail default]; [done|]. by rewrite IH.
Qed.

Lemma de_inum_dirent name n : 0 ≤ n < 2 ^ 16 → de_inum (dirent name n) = n.
Proof.
  intros Hn. unfold de_inum, dirent. assert (∀ a b l, rd16 ([a; b] ++ l) 0 = a + 2 ^ 8 * b) as H by done.
  assert (wr16 [0; 0] 0 n = [u8 n; u8 (n / 2 ^ 8)]) as -> by done. rewrite H. unfold u8. change (2 ^ 8) with 256.
  rewrite (Z.mod_small (n / 256)); [pose proof (Z.div_mod n 256); lia|]. split; [apply Z.div_pos; lia|apply Z.div_lt_upper_bound; lia].
Qed.
Lemma de_name_dirent name n : de_name (dirent name n) = lstrncpy (Z.to_nat DIRSIZ) name.
Proof.
  unfold de_name, dirent, slice. assert (wr16 [0; 0] 0 n = [u8 n; u8 (n / 2 ^ 8)]) as -> by done.
  change (drop (Z.to_nat 2) ([u8 n; u8 (n / 2 ^ 8)] ++ ?l)) with l. rewrite take_ge; [done|]. by rewrite length_lstrncpy.
Qed.
Lemma names_dirent nm name n : 0 < n < 2 ^ 16 → names nm (dirent name n) ↔ namecmp nm name = 0.
Proof. intros Hn. unfold names. rewrite de_inum_dirent, de_name_dirent by lia. unfold namecmp. rewrite lstrncmp_ncpy. lia. Qed.

(** A directory that is made of entries. *)
Lemma entries_concat (ds : list (list Z)) : Forall (λ d, length d = 16%nat) ds → entries (concat ds) = ds.
Proof.
  intros Hd. assert (length (concat ds) = 16 * length ds)%nat as Hl.
  { clear -Hd. induction Hd as [|d ds Hd Hds IH]; [done|]. simpl. rewrite length_app. lia. }
  unfold entries. rewrite Hl. replace (Z.to_nat (Z.of_nat (16 * length ds) / sizeof_dirent)) with (length ds).
  2: { rewrite Nat2Z.inj_mul, (Z.mul_comm (Z.of_nat 16)). change (Z.of_nat 16) with sizeof_dirent. rewrite Z.div_mul by done. lia. }
  clear Hl. induction Hd as [|d ds Hd Hds IH]; [done|]. cbn [length seq concat fmap list_fmap]. f_equal.
  - unfold slice. change (Z.to_nat (Z.of_nat 0 * sizeof_dirent)) with 0%nat. rewrite drop_0, take_app_le, take_ge by (rewrite Hd; unfold sizeof_dirent; lia). done.
  - rewrite <-IH at 2. rewrite <-fmap_S_seq, <-list_fmap_compose. apply list_fmap_ext. intros j k Hk. simpl. unfold slice.
    replace (Z.to_nat (Z.of_nat (S k) * sizeof_dirent)) with (16 + Z.to_nat (Z.of_nat k * sizeof_dirent))%nat by (unfold sizeof_dirent; lia).
    f_equal. rewrite drop_app, (drop_ge d), Hd by lia. rewrite Nat.add_sub_swap, Nat.sub_diag by lia. done.
Qed.

(** The entries of the root directory. *)
Definition file_entry (i : nat) (f : list Z * list (list Z)) : list Z := dirent (fs_name f.1) (2 + Z.of_nat i).
Definition root_list (fl : list (list Z * list (list Z))) : list (list Z) :=
  [dirent [46] ROOTINO; dirent [46; 46] ROOTINO] ++ imap file_entry fl.

Lemma root_entries_imap (k : nat) fl : root_entries (Z.of_nat k) fl = concat (imap (λ i, file_entry (k + i)) fl).
Proof.
  revert k. induction fl as [|f fl IH]; intros k; [done|]. cbn [root_entries imap concat]. rewrite Nat.add_0_r. f_equal.
  replace (Z.of_nat k + 1) with (Z.of_nat (S k)) by lia. rewrite IH. f_equal. apply imap_ext. intros i x _. simpl. f_equal. lia.
Qed.
Lemma root_dir_list fl : root_dir fl = concat (root_list fl).
Proof. unfold root_dir, root_list. rewrite concat_app, (root_entries_imap 0). cbn [concat]. by rewrite <-!app_assoc, app_nil_l. Qed.

Definition root_pad (fl : list (list Z * list (list Z))) : nat := Z.to_nat ((root_size fl - 16 * (Z.of_nat (length fl) + 2)) / 16).

Lemma root_content_list fl :
  (Z.of_nat (length fl) + 2) mod 32 ≠ 0 → root_content fl = concat (root_list fl ++ replicate (root_pad fl) (replicate 16 0)).
Proof.
  intros Hm. unfold root_content. rewrite concat_app, root_dir_list. f_equal. rewrite <-root_dir_list, length_root_dir.
  assert (∀ k, concat (replicate k (replicate 16 0)) = replicate (16 * k) (0 : Z)) as H.
  { intros k. induction k as [|k IH]; [done|]. replace (16 * S k)%nat with (16 + 16 * k)%nat by lia. by rewrite replicate_S, replicate_add, concat_cons, IH. }
  rewrite H. f_equal. unfold root_pad. pose proof (root_size_full fl Hm) as Hr. pose proof (length_root_dir fl) as Hl.
  pose proof (cdiv_full (Z.of_nat (length (root_dir fl))) ltac:(lia)) as Hc. rewrite <-Hr, Hl in Hc. set (n := Z.of_nat (length fl)) in *.
  assert ((root_size fl - 16 * (n + 2)) mod 16 = 0) as Hmod.
  { rewrite Hr. change BSIZE with (32 * 16). rewrite Z.mul_assoc. generalize (cdiv (Z.of_nat (length (root_dir fl))) * 32). intros q.
    replace (q * 16 - 16 * (n + 2)) with ((q - (n + 2)) * 16) by lia. by apply Z.mod_mul. }
  pose proof (Z.div_mod (root_size fl - 16 * (n + 2)) 16 ltac:(done)). lia.
Qed.

Lemma root_list_len fl : Forall (λ d, length d = 16%nat) (root_list fl).
Proof.
  apply Forall_app. split; [by repeat constructor|]. apply Forall_forall. intros d [i Hi]%list_elem_of_lookup.
  rewrite list_lookup_imap in Hi. destruct (fl !! i); [|done]. simpl in Hi. injection Hi as <-. apply length_dirent.
Qed.
Lemma root_entries_list fl :
  (Z.of_nat (length fl) + 2) mod 32 ≠ 0 → entries (root_content fl) = root_list fl ++ replicate (root_pad fl) (replicate 16 0).
Proof.
  intros Hm. rewrite root_content_list by done. apply entries_concat. apply Forall_app. split; [apply root_list_len|by apply Forall_replicate].
Qed.

Lemma root_content_whole fl : (Z.of_nat (length fl) + 2) mod 32 ≠ 0 → Z.of_nat (length (root_content fl)) mod sizeof_dirent = 0.
Proof.
  intros Hm. rewrite root_content_list by done. generalize (proj2 (Forall_app _ _ _) (conj (root_list_len fl) (Forall_replicate _ (root_pad fl) _ (eq_refl : length (replicate 16 0) = 16%nat)))).
  generalize (root_list fl ++ replicate (root_pad fl) (replicate 16 0)). intros ds Hd. assert (length (concat ds) = length ds * 16)%nat as ->.
  { induction Hd as [|d ds Hd Hds IH]; [done|]. simpl. rewrite length_app. lia. }
  rewrite Nat2Z.inj_mul. by apply Z.mod_mul.
Qed.
Lemma root_entry_inum fl de :
  (Z.of_nat (length fl) + 2) mod 32 ≠ 0 → Z.of_nat (length fl) + 1 < NINODES → de ∈ entries (root_content fl) →
  de_inum de = 0 ∨ 1 ≤ de_inum de ≤ Z.of_nat (length fl) + 1.
Proof.
  intros Hm Hc. unfold NINODES in *. rewrite root_entries_list by done. intros [[[->|[->|[]%elem_of_nil]%elem_of_cons]%elem_of_cons|[i Hi]%list_elem_of_lookup]%elem_of_app| ->%elem_of_replicate_inv]%elem_of_app.
  - right. rewrite de_inum_dirent by done. unfold ROOTINO. lia.
  - right. rewrite de_inum_dirent by done. unfold ROOTINO. lia.
  - rewrite list_lookup_imap in Hi. destruct (fl !! i) eqn:E; [|done]. injection Hi as <-. apply lookup_lt_Some in E. right. unfold file_entry. rewrite de_inum_dirent; lia.
  - by left.
Qed.

(** File [i] of the command line can be found as [nm]. *)
Record findable (fl : list (list Z * list (list Z))) (i : nat) (f : list Z * list (list Z)) (nm : list Z) : Prop := {
  fd_at : fl !! i = Some f;
  fd_name : fs_name f.1 = nm;
  fd_chars : Forall (λ c, c ≠ slash ∧ c ≠ 0) nm;
  fd_ne : nm ≠ [];
  fd_dots : namecmp nm [46] ≠ 0 ∧ namecmp nm [46; 46] ≠ 0;
  fd_first j g : (j < i)%nat → fl !! j = Some g → namecmp nm (fs_name g.1) ≠ 0;
}.

Lemma namecmp_take nm q : namecmp (take (Z.to_nat DIRSIZ) nm) q = namecmp nm q.
Proof. apply lstrncmp_take. Qed.

Lemma find_file fl i f nm :
  (Z.of_nat (length fl) + 2) mod 32 ≠ 0 → Z.of_nat (length fl) + 1 < NINODES → findable fl i f nm →
  dir_find (root_content fl) (take (Z.to_nat DIRSIZ) nm) = Some (S (S i), dirent nm (2 + Z.of_nat i)).
Proof.
  intros Hm Hc [F1 F2 F3 F4 [F5 F6] F7]. pose proof (lookup_lt_Some _ _ _ F1) as Hlt. unfold NINODES in *. unfold dir_find. rewrite root_entries_list by done.
  assert (∀ k d, (root_list fl ++ replicate (root_pad fl) (replicate 16 0)) !! S (S k) = Some d → (k < length fl)%nat →
    ∃ g, fl !! k = Some g ∧ d = dirent (fs_name g.1) (2 + Z.of_nat k)) as Hen.
  { intros k d Hd Hk. destruct (lookup_lt_is_Some_2 fl k Hk) as [g Hg]. exists g. split; [done|].
    rewrite lookup_app_l in Hd by (unfold root_list; rewrite length_app, length_imap; simpl; lia). unfold root_list in Hd. simpl in Hd.
    rewrite list_lookup_imap, Hg in Hd. simpl in Hd. by injection Hd as <-. }
  apply list_find_Some. split_and!.
  - rewrite lookup_app_l by (unfold root_list; rewrite length_app, length_imap; simpl; lia). unfold root_list. simpl. rewrite list_lookup_imap, F1. simpl.
    unfold file_entry. by rewrite F2.
  - apply names_dirent; [lia|]. rewrite namecmp_take. apply lstrncmp_refl.
  - intros [|[|k]] d Hd Hk Hn.
    + injection Hd as <-. apply names_dirent in Hn; [|done]. by rewrite namecmp_take in Hn.
    + injection Hd as <-. apply names_dirent in Hn; [|done]. by rewrite namecmp_take in Hn.
    + destruct (Hen k d Hd ltac:(lia)) as (g & Hg & ->). apply names_dirent in Hn; [|lia]. rewrite namecmp_take in Hn. by apply (F7 k g); [lia|..].
Qed.

Lemma elems_root nm : Forall (λ c, c ≠ slash ∧ c ≠ 0) nm → nm ≠ [] → elems (slash :: nm) = [take (Z.to_nat DIRSIZ) nm].
Proof.
  intros Hc Hne. assert (skip_slashes nm = nm) as E1.
  { destruct Hc as [|c nm [Hc _] _]; [done|]. simpl. by destruct (Z.eqb_spec c slash). }
  assert (span_elem nm = (nm, [])) as E2.
  { clear -Hc. induction Hc as [|c nm [H1 H2] Hc IH]; [done|]. simpl. destruct (Z.eqb_spec c slash); [done|]. destruct (Z.eqb_spec c 0); [done|]. simpl. by rewrite IH. }
  assert (skipelem (slash :: nm) = Some ([], take (Z.to_nat DIRSIZ) nm)) as E3.
  { unfold skipelem. change (skip_slashes (slash :: nm)) with (skip_slashes nm). rewrite E1. destruct nm as [|c nm]; [done|].
    inversion_clear Hc as [|? ? [_ H0] _]. destruct (Z.eqb_spec c 0); [done|]. rewrite E2. simpl skip_slashes. do 2 f_equal.
    destruct (Z.leb_spec DIRSIZ (Z.of_nat (length (c :: nm)))); [done|]. rewrite take_ge; [done|]. lia. }
  rewrite elems_eq, E3. done.
Qed.

(** ** The tree of an image *)

Definition tree_of (L : list (Z * list Z)) : disktree := λ n, if decide (1 ≤ n) then L !! Z.to_nat (n - 1) else None.

Lemma inode_ok_ext V sb ip ip' :
  inode_ok V sb ip → i_dev ip' = i_dev ip → i_inum ip' = i_inum ip → i_addrs ip' = i_addrs ip → i_size ip' = i_size ip →
  inode_ok V sb ip' ∧ content V ip' = content V ip.
Proof.
  intros [I1 I2 I3 I4 I5 I6 I7] E1 E2 E3 E4.
  assert (ind_addr ip' = ind_addr ip) as Ei by (unfold ind_addr; by rewrite E3).
  assert (∀ bn, baddr V ip' bn = baddr V ip bn) as Eb by (intros bn; unfold baddr; by rewrite E3, Ei).
  assert (∀ j, slot V ip' j = slot V ip j) as Es by (intros j; unfold slot; by rewrite Eb, Ei).
  split; [split; rewrite ?E1, ?E2, ?E3, ?E4; try done|].
  - intros j Hj. rewrite Es. by apply I5.
  - intros j k Hj Hk. rewrite !Es. by apply I6.
  - intros bn Hb Hlt. rewrite Eb. by apply I7.
  - unfold content. rewrite E4. apply list_fmap_ext. intros k o _. unfold fbyte. by rewrite Eb.
Qed.

Lemma load_fields V sb n ip ip' :
  i_addrs (load V sb n ip) = i_addrs (load V sb n ip') ∧ i_size (load V sb n ip) = i_size (load V sb n ip') ∧
  i_type (load V sb n ip) = i_type (load V sb n ip') ∧ i_nlink (load V sb n ip) = i_nlink (load V sb n ip') ∧
  i_dev (load V sb n ip) = i_dev ip ∧ i_inum (load V sb n ip) = i_inum ip.
Proof. unfold load. by rewrite !get_dinode_eq. Qed.

Lemma image_holds V V' fl :
  fs_image V (files_of fl) → agree sb0 V V' → (∀ k, length (V' k) = Z.to_nat BSIZE) → (Z.of_nat (length fl) + 2) mod 32 ≠ 0 →
  Z.of_nat (length fl) + 1 < NINODES → holds V' sb0 (tree_of (files_of fl)).
Proof.
  intros Fi Ag Hl Hm Hc. destruct (agree_keeps sb0 V V' (fi_volume _ _ Fi) Hl Ag) as (_ & _ & Hk).
  assert (length (files_of fl) = S (length fl)) as Hlen by (unfold files_of, tree; simpl; by rewrite !length_fmap).
  assert (∀ n ty c, tree_of (files_of fl) n = Some (ty, c) → 1 ≤ n < NINODES ∧ stored V n ty c) as Hst.
  { intros n ty c. unfold tree_of. case_decide as Hn; [|done]. intros Hf. pose proof (lookup_lt_Some _ _ _ Hf) as Hlt. rewrite Hlen in Hlt.
    pose proof (fi_file _ _ Fi _ _ Hf) as Hs. rewrite Z2Nat.id in Hs by lia. replace (1 + (n - 1)) with n in Hs by lia. split; [lia|done]. }
  assert (∀ n ip, 1 ≤ n < NINODES → load V' sb0 n ip = load V sb0 n ip) as Hld.
  { intros n ip Hn. pose proof (inode_block n ltac:(lia)). unfold load. rewrite (Ag (IBLOCK n sb0)); [done|]. change (sb_inodestart sb0) with 32. lia. }
  assert (∀ n c, tree_of (files_of fl) n = Some (T_DIR, c) → c = root_content fl) as Hroot.
  { intros n c. unfold tree_of. case_decide; [|done]. unfold files_of, tree. destruct (Z.to_nat (n - 1)) as [|k]; [by intros [= <-]|].
    simpl. rewrite list_lookup_fmap. destruct (_ !! k); done. }
  split.
  - intros n ty c ip Hn Hd Hi. destruct (Hst n ty c Hn) as [Hr [S1 S2 S3 S4]]. rewrite Hld by done. destruct (load_fields V sb0 n ip (dinode0 n)) as (L1 & L2 & _ & _ & L5 & L6).
    destruct (load_fields V sb0 n (dinode0 n) ip) as (_ & _ & _ & _ & L5' & L6').
    apply Hk. by apply (inode_ok_ext V sb0 (dnode V n)); [|rewrite L5, Hd; symmetry; exact L5'|rewrite L6, Hi; symmetry; exact L6'|..].
  - intros n ty c ip Hn. destruct (Hst n ty c Hn) as [Hr [S1 S2 S3 S4]]. rewrite Hld by done. destruct (load_fields V sb0 n ip (dinode0 n)) as (_ & _ & L3 & _).
    rewrite L3. split; [done|]. unfold tree_of in Hn. case_decide; [|done]. unfold files_of, tree in Hn. destruct (Z.to_nat (n - 1)) as [|k]; [by injection Hn as <-|].
    simpl in Hn. rewrite list_lookup_fmap in Hn. destruct (_ !! k); [|done]. by injection Hn as <-.
  - intros n ty c ip Hn. destruct (Hst n ty c Hn) as [Hr [S1 S2 S3 S4]]. rewrite Hld by done. destruct (load_fields V sb0 n ip (dinode0 n)) as (_ & _ & _ & L4 & _).
    rewrite L4. by rewrite (S3 : i_nlink (load V sb0 n (dinode0 n)) = 1).
  - intros n ty c ip Hn. destruct (Hst n ty c Hn) as [Hr [S1 S2 S3 S4]]. rewrite Hld by done. destruct (load_fields V sb0 n ip (dinode0 n)) as (L1 & L2 & _).
    rewrite <-S4. destruct (Hk _ S1) as (S1' & _ & <-). unfold content. rewrite L2. apply list_fmap_ext. intros k o _. unfold fbyte, baddr, ind_addr. by rewrite L1.
  - intros n c ->%Hroot. by apply root_content_whole.
  - intros n c de ->%Hroot Hde Hne. destruct (root_entry_inum fl de) as [E0|Hr]; [done..|].
    unfold tree_of. rewrite decide_True by lia. apply lookup_lt_is_Some_2. rewrite Hlen. lia.
Qed.

(** ** The kernel on an image of [mkfs] *)

(** Disk 1 with the image that [mkfs] wrote to its file. *)
Definition disk_of (s : mkfs) : gmap (Z * Z) (list Z) := kmap (pair 1) (mk_img s).

Lemma disk_of_at (s : mkfs) k : block_at (disk_of s) (1, k) = sector s k.
Proof. unfold block_at, disk_of, sector. by rewrite lookup_kmap by apply _. Qed.

Lemma image_bootable (s : mkfs) L : fs_image (sector s) L → bootable (disk_of s) sb0.
Proof.
  intros [Hv Hs Hl _ _].
  split; [|by rewrite disk_of_at| |done].
  - intros [dv k] v. unfold disk_of. intros (k' & [= -> ->] & Hk)%lookup_kmap_Some; [|apply _].
    pose proof (vo_len _ _ Hv k') as Hlen. unfold sector in Hlen. by rewrite Hk in Hlen.
  - assert (head_blocks zero_block = []) as Hz by (by vm_compute). split; rewrite ?disk_of_at; simpl sb_logstart; rewrite ?Hl, ?Hz.
    + exact (f_equal sb_logstart Hs).
    + exact (f_equal sb_nlog Hs).
    + split_and!; [done|done|]. unfold in_log. change (sb_logstart sb0) with 2. lia.
    + done.
    + split; [|by intros ?%elem_of_nil]. split; [apply NoDup_nil_2|by intros b ?%elem_of_nil|done].
Qed.
Lemma image_recovered (s : mkfs) L b : fs_image (sector s) L → recovered (sb_logstart sb0) (disk_of s) b = sector s b.
Proof.
  intros Fi. unfold recovered. rewrite !disk_of_at. simpl sb_logstart. rewrite (fi_log _ _ Fi). assert (head_blocks zero_block = []) as -> by (by vm_compute). done.
Qed.


Lemma tree_of_root fl : tree_of (files_of fl) ROOTINO = Some (T_DIR, root_content fl).
Proof. done. Qed.

Lemma resolve_file fl i f nm :
  (Z.of_nat (length fl) + 2) mod 32 ≠ 0 → Z.of_nat (length fl) + 1 < NINODES → findable fl i f nm →
  resolve (tree_of (files_of fl)) ROOTINO (elems (slash :: nm)) = Some (2 + Z.of_nat i).
Proof.
  intros Hm Hc F. pose proof (lookup_lt_Some _ _ _ (fd_at _ _ _ _ F)) as Hlt. rewrite elems_root by apply F. cbn [resolve]. rewrite tree_of_root. cbn [mbind option_bind]. rewrite decide_True by done.
  rewrite (find_file fl i f nm) by done. cbn [mbind option_bind]. rewrite de_inum_dirent; [done|]. unfold NINODES in *. lia.
Qed.


(** The kernel after booting on an image. *)
Record serves (t : disktree) s : Prop := {
  sv_icache : icache s None;
  sv_tx : tx s ∅;
  sv_free : two_free s;
  sv_volume : volume (view s) (d_sb s);
  sv_holds : holds (view s) (d_sb s) t;
}.

Lemma boot_image img fl :
  fs_image (sector img) (files_of fl) → (Z.of_nat (length fl) + 2) mod 32 ≠ 0 → Z.of_nat (length fl) + 1 < NINODES →
  wp fs_boot (λ _ s, serves (tree_of (files_of fl)) s) (power_on (disk_of img)).
Proof.
  intros Fi Hm Hc. eapply wp_mono; [apply (fs_boot_spec _ sb0), (image_bootable _ _ Fi)|]. intros [] s (Id & Ic & Tf & Es & Hview).
  assert (agree sb0 (sector img) (view s)) as Ag.
  { intros k Hk. rewrite Hview, (image_recovered _ _ _ Fi); [done|]. unfold in_log. change (sb_inodestart sb0) with 32 in Hk.
    change (sb_logstart sb0) with 2. change (sb_nlog sb0) with 30. lia. }
  pose proof (λ k, length_view s k (tx_cache _ _ (id_tx _ Id))) as Hl. split.
  - exact Ic.
  - apply (id_tx _ Id).
  - exact Tf.
  - rewrite Es. exact (proj1 (agree_keeps sb0 (sector img) (view s) (fi_volume _ _ Fi) Hl Ag)).
  - rewrite Es. exact (image_holds (sector img) (view s) fl Fi Ag Hl Hm Hc).
Qed.

(** C8: [namei] follows the directories on disk. When the disk holds a tree of
    directories and files, the inode cache is consistent with it and has two
    free entries, then looking up any path, absolute or relative to the current
    directory, ends: it returns an inode of the cache for the inode number that
    the names of the path lead to, with one reference more, or nothing if a
    name is missing or is not that of a directory. The disk is not changed,
    and no other reference is gained or lost. *)
Theorem namei_resolves devread s t cwd path n :
  icache s None → tx s ∅ → volume (view s) (d_sb s) → holds (view s) (d_sb s) t → two_free s → starts s cwd path n → is_Some (t n) →
  wp (namei devread cwd path) (λ r s',
    match resolve t n (elems path) with
    | Some m => ∃ i, r = Some i ∧ at_inode s s' i m
    | None => r = None ∧ let_go s s'
    end) s.
Proof. apply namei_spec. Qed.


(** ** Examples *)

Module BootExamples.
Import MkfsExamples.

(** A disk with a committed transaction in its log: block 100 is to become
    [ex_data]. *)
Definition ex_data : list Z := replicate 512 5.
Definition ex_head : list Z := wr32 (wr32 zero_block 0 1) 4 100.
Definition ex_crashed : gmap (Z * Z) (list Z) := <[(1, 1) := super_bytes sb0]> (<[(1, 2) := ex_head]> {[(1, 3) := ex_data]}).

Lemma ex_head_blocks : head_blocks (block_at ex_crashed (1, 2)) = [100].
Proof. by vm_compute. Qed.

Lemma ex_bootable : bootable ex_crashed sb0.
Proof.
  split; [|by vm_compute| |done].
  - unfold ex_crashed. intros k v [[_ <-]|[_ [[_ <-]|[_ [_ <-]%lookup_singleton_Some]]%lookup_insert_Some]]%lookup_insert_Some; by vm_compute.
  - split; [by vm_compute|by vm_compute|split_and!; [done|done|vm_compute; intros [H _]; by apply H]|by vm_compute|].
    change (sb_logstart sb0) with 2. change (sb_nlog sb0) with 30. rewrite ex_head_blocks. split; [|by intros H%list_elem_of_singleton].
    split; [apply NoDup_singleton|intros b ->%list_elem_of_singleton; unfold in_log, FSSIZE; lia|done].
Qed.

Lemma boot_recovers_witness : ∃ s, fs_boot (power_on ex_crashed) = Ok tt s ∧ view s 100 = ex_data.
Proof.
  destruct (boot_recovers ex_crashed sb0 ex_bootable) as (s & E & _ & _ & _ & Hv). exists s. split; [exact E|].
  rewrite Hv; [by vm_compute|]. unfold in_log. change (sb_logstart sb0) with 2. change (sb_nlog sb0) with 30. lia.
Defined.

Lemma ex_findable : findable ex_args 1 ([98], replicate 20 (replicate 500 9)) [98].
Proof.
  split; [done|done|by repeat constructor|done|by vm_compute|]. intros j g Hj. destruct j; [|lia]. intros [= <-]. by vm_compute.
Qed.

Lemma namei_resolves_witness : ∃ s, serves (tree_of (files_of ex_args)) s ∧
  wp (namei (λ _, None) None (slash :: [98])) (λ r s', ∃ i, r = Some i ∧ at_inode s s' i 3) s.
Proof.
  destruct (proj1 (wp_ok _ _ _) (main_image ex_args ex_fits ltac:(by vm_compute))) as ([] & img & _ & Fi & _).
  destruct (proj1 (wp_ok _ _ _) (boot_image img ex_args Fi ltac:(by vm_compute) ltac:(by vm_compute))) as ([] & s & _ & [S1 S2 S3 S4 S5]).
  exists s. split; [by split|]. eapply wp_mono; [apply (namei_resolves (λ _, None) s (tree_of (files_of ex_args)) None (slash :: [98]) ROOTINO S1 S2 S4 S5 S3)|].
  - unfold starts. by rewrite decide_True.
  - by rewrite tree_of_root.
  - intros r s' H. rewrite (resolve_file ex_args 1 _ [98] ltac:(by vm_compute) ltac:(by vm_compute) ex_findable) in H. exact H.
Defined.

End BootExamples.
