(* ===== verification/Ring.v ===== *)
(** Ring buffers indexed by counters that wrap around at [2 ^ 32], as pipes
    and the console input use them. *)

From S2P Require Import Prelude.
From stdpp Require Import options.

Section ring.
Context (size : Z) (Hsize : 0 < size) (Hdiv : (size | 2 ^ 32)).
Implicit Types (data : list Z) (r n : Z).

(** The [n] bytes from counter [r] on. *)
Definition ring_at data r (i : Z) : Z := default 0 (aget data ((r + i) mod size)).
Definition ring_list data r n : list Z := ring_at data r <$> seqZ 0 n.

Lemma length_ring_list data r n : 0 ≤ n → Z.of_nat (length (ring_list data r n)) = n.
Proof using. intros Hn. unfold ring_list. rewrite length_fmap, length_seqZ. lia. Qed.

Lemma u32_mod_ring z : u32 z mod size = z mod size.
Proof using Hdiv. by apply Z.mod_mod_divide. Qed.

Lemma ring_mod_inj a b : - size < a - b < size → a mod size = b mod size → a = b.
Proof using Hsize.
  intros Hab E. pose proof (Z.div_mod a size ltac:(lia)) as Ha. pose proof (Z.div_mod b size ltac:(lia)) as Hb.
  assert (a - b = size * (a / size - b / size)) as Hd by lia. assert (a / size = b / size) by nia. congruence.
Qed.

Lemma ring_list_ext data data' r n :
  (∀ i, 0 ≤ i < n → ring_at data r i = ring_at data' r i) → ring_list data r n = ring_list data' r n.
Proof using. intros H. apply list_fmap_ext. intros j i Hj. apply lookup_seqZ in Hj as [-> Hj]. apply H. lia. Qed.

(** The last byte. *)
Lemma ring_list_snoc data r n : 0 ≤ n → ring_list data r (n + 1) = ring_list data r n ++ [ring_at data r n].
Proof using.
  intros Hn. unfold ring_list. replace (n + 1) with (Z.of_nat (S (Z.to_nat n))) by lia. rewrite seqZ_S, fmap_app, !Z2Nat.id by lia. done.
Qed.

(** A byte written at the end. *)
Lemma ring_push data r n w c :
  length data = Z.to_nat size → 0 ≤ n < size → w mod size = (r + n) mod size →
  ring_list (aset data (w mod size) c) r (n + 1) = ring_list data r n ++ [c].
Proof using Hsize.
  intros Hd Hn Hw. rewrite ring_list_snoc by lia. pose proof (Z.mod_pos_bound (r + n) size Hsize). f_equal.
  - apply ring_list_ext. intros i Hi. unfold ring_at. rewrite aget_aset_ne; [done|]. rewrite Hw. intros E.
    apply ring_mod_inj in E; lia.
  - unfold ring_at. rewrite Hw, aget_aset_eq; [done|]. rewrite Hd. lia.
Qed.

(** The first byte. *)
Lemma ring_pop data r n :
  0 < n → ring_list data r n = ring_at data r 0 :: ring_list data (u32 (r + 1)) (n - 1).
Proof using Hdiv.
  intros Hn. unfold ring_list. rewrite seqZ_cons, fmap_cons by lia. f_equal.
  rewrite <-(fmap_add_seqZ 1 0), <-list_fmap_compose. unfold Z.pred. apply list_fmap_ext. intros j i _. unfold compose, ring_at.
  do 2 f_equal. rewrite <-(Zplus_mod_idemp_l (u32 _)), u32_mod_ring, Zplus_mod_idemp_l. f_equal. lia.
Qed.

Lemma ring_at_get data r i : length data = Z.to_nat size → aget data ((r + i) mod size) = Some (ring_at data r i).
Proof using Hsize.
  intros Hd. unfold ring_at. pose proof (Z.mod_pos_bound (r + i) size Hsize).
  destruct (aget_is_Some data ((r + i) mod size)) as [c ->]; [lia|done].
Qed.
End ring.
