(* ===== verification/Pipe.v ===== *)
(** Pipes are bounded queues.

    [pipe_queue] is the queue a pipe's buffer and counters stand for.  The
    counters only grow and wrap around at [2 ^ 32]; their difference is the
    number of bytes in the pipe. *)

From S2P Require Import Prelude Memory Machine Disk Log Fs File Ring.
From stdpp Require Import options.
Implicit Types s : fsys.
Implicit Types x : pipe.

Definition pipe_len x : Z := u32 (pi_nwrite x - pi_nread x).
Definition pipe_queue x : list Z := ring_list PIPESIZE (pi_data x) (pi_nread x) (pipe_len x).

Record pipe_ok x : Prop := {
  po_data : length (pi_data x) = Z.to_nat PIPESIZE;
  po_nread : 0 ≤ pi_nread x < 2 ^ 32;
  po_nwrite : 0 ≤ pi_nwrite x < 2 ^ 32;
  po_len : pipe_len x ≤ PIPESIZE;
}.

Lemma pipesize_pos : 0 < PIPESIZE.
Proof. done. Qed.
Lemma pipesize_div : (PIPESIZE | 2 ^ 32).
Proof. by exists (2 ^ 23). Qed.

Lemma pipe_len_range x : 0 ≤ pipe_len x.
Proof. apply u32_range. Qed.
Lemma length_pipe_queue x : Z.of_nat (length (pipe_queue x)) = pipe_len x.
Proof. apply length_ring_list, pipe_len_range. Qed.

Lemma pipe_full x : pipe_ok x → (pi_nwrite x =? u32 (pi_nread x + PIPESIZE)) = (pipe_len x =? PIPESIZE).
Proof.
  intros [_ H1 H2 H3]. unfold pipe_len, u32, PIPESIZE in *. apply eq_true_iff_eq. rewrite !Z.eqb_eq.
  Z.div_mod_to_equations. lia.
Qed.
Lemma pipe_empty x : pipe_ok x → (pi_nread x =? pi_nwrite x) = (pipe_len x =? 0).
Proof.
  intros [_ H1 H2 H3]. unfold pipe_len, u32, PIPESIZE in *. apply eq_true_iff_eq. rewrite !Z.eqb_eq.
  Z.div_mod_to_equations. lia.
Qed.

(** [p->data[p->nwrite++ % PIPESIZE] = c] *)
Definition pipe_push c x : pipe :=
  x <| pi_data ::= λ d, aset d (pi_nwrite x mod PIPESIZE) c |> <| pi_nwrite ::= λ n, u32 (n + 1) |>.
Definition pipe_pop x : pipe := x <| pi_nread ::= λ n, u32 (n + 1) |>.

Lemma pipe_push_len c x : pipe_ok x → pipe_len x < PIPESIZE → pipe_len (pipe_push c x) = pipe_len x + 1.
Proof.
  intros [_ H1 H2 H3] Hl. unfold pipe_len, pipe_push in *. simpl. unfold u32, PIPESIZE in *. Z.div_mod_to_equations. lia.
Qed.
Lemma pipe_pop_len x : pipe_ok x → 0 < pipe_len x → pipe_len (pipe_pop x) = pipe_len x - 1.
Proof.
  intros [_ H1 H2 H3] Hl. unfold pipe_len, pipe_pop in *. simpl. unfold u32, PIPESIZE in *. Z.div_mod_to_equations. lia.
Qed.

(** The byte goes to the end of the queue. *)
Lemma pipe_push_queue c x : pipe_ok x → pipe_len x < PIPESIZE → pipe_queue (pipe_push c x) = pipe_queue x ++ [c].
Proof.
  intros Hok Hl. unfold pipe_queue. rewrite (pipe_push_len c x Hok Hl). pose proof (pipe_len_range x).
  apply (ring_push PIPESIZE pipesize_pos); [apply Hok|lia|]. unfold pipe_len.
  rewrite <-Zplus_mod_idemp_r, (u32_mod_ring _ pipesize_div), Zplus_mod_idemp_r. f_equal. lia.
Qed.

Lemma pipe_push_ok c x : pipe_ok x → pipe_len x < PIPESIZE → pipe_ok (pipe_push c x).
Proof.
  intros Hok Hl. pose proof (pipe_push_len c x Hok Hl). destruct Hok as [Hd H1 H2 H3]. split; simpl; [by rewrite length_aset|done|apply u32_range|lia].
Qed.
Lemma pipe_pop_ok x : pipe_ok x → 0 < pipe_len x → pipe_ok (pipe_pop x).
Proof.
  intros Hok Hl. pose proof (pipe_pop_len x Hok Hl). destruct Hok as [Hd H1 H2 H3]. split; simpl; [done|apply u32_range|done|lia].
Qed.

(** The first byte of the queue. *)
Lemma pipe_pop_queue x :
  pipe_ok x → 0 < pipe_len x →
  ∃ c, aget (pi_data x) (pi_nread x mod PIPESIZE) = Some c ∧ pipe_queue x = c :: pipe_queue (pipe_pop x).
Proof.
  intros Hok Hl. exists (ring_at PIPESIZE (pi_data x) (pi_nread x) 0). split.
  - rewrite <-(Z.add_0_r (pi_nread x)) at 1. apply (ring_at_get PIPESIZE pipesize_pos), Hok.
  - unfold pipe_queue. rewrite (pipe_pop_len x Hok Hl). exact (ring_pop PIPESIZE pipesize_div _ _ _ Hl).
Qed.

(** ** Writing and reading *)

(** The call returns with [Q] or sleeps with [B]. *)
Definition wpb {A} (m : M fsys A) (Q : A → fsys → Prop) (B : Z → fsys → Prop) s : Prop :=
  match m s with Ok a s' => Q a s' | Blocked c s' => B c s' | _ => False end.

Lemma wpb_bind {A C} (m : M fsys A) (k : A → M fsys C) Q B s : wpb m (λ a, wpb (k a) Q B) B s → wpb (bind m k) Q B s.
Proof. unfold wpb, bind. by destruct (m s). Qed.
Lemma wpb_mono {A} (m : M fsys A) (Q Q' : A → fsys → Prop) (B B' : Z → fsys → Prop) s :
  wpb m Q B s → (∀ a s', Q a s' → Q' a s') → (∀ c s', B c s' → B' c s') → wpb m Q' B' s.
Proof. unfold wpb. destruct (m s); naive_solver. Qed.
Lemma wpb_wp {A} (m : M fsys A) (Q : A → fsys → Prop) B s : wp m Q s → wpb m Q B s.
Proof. unfold wp, wpb. by destruct (m s). Qed.

Lemma wp_getpipe p x (Q : pipe → fsys → Prop) s : d_pipes s !! p = Some x → Q x s → wp (getpipe p) Q s.
Proof. intros Hx HQ. unfold getpipe. apply wp_bind, wp_gets. by eapply wp_of_option. Qed.
Lemma wp_modpipe p f x (Q : unit → fsys → Prop) s :
  d_pipes s !! p = Some x → Q tt (s <| d_pipes ::= <[p := f x]> |>) → wp (modpipe p f) Q s.
Proof. intros Hx HQ. unfold modpipe. apply wp_bind. eapply wp_getpipe; [done|]. by apply wp_modify. Qed.

Abbreviation unlocked x := (x <| pi_lock := false |>).

Lemma wp_acquire_pipe p x (Q : unit → fsys → Prop) s :
  d_pipes s !! p = Some x → pi_lock x = false → Q tt (s <| d_pipes ::= <[p := x <| pi_lock := true |>]> |>) → wp (acquire_pipe p) Q s.
Proof.
  intros Hx Hl HQ. unfold acquire_pipe. apply wp_bind. eapply wp_getpipe; [done|]. rewrite Hl. by eapply wp_modpipe.
Qed.
Lemma wp_release_pipe p x (Q : unit → fsys → Prop) s :
  d_pipes s !! p = Some x → pi_lock x = true → Q tt (s <| d_pipes ::= <[p := unlocked x]> |>) → wp (release_pipe p) Q s.
Proof.
  intros Hx Hl HQ. unfold release_pipe. apply wp_bind. eapply wp_getpipe; [done|]. rewrite Hl. by eapply wp_modpipe.
Qed.

(** [y] is [x] after [bs] was written. *)
Record pushed x y (bs : list Z) : Prop := {
  pu_ok : pipe_ok y;
  pu_queue : pipe_queue y = pipe_queue x ++ bs;
  pu_nread : pi_nread y = pi_nread x;
  pu_nwrite : pi_nwrite y = u32 (pi_nwrite x + Z.of_nat (length bs));
  pu_open : pi_readopen y = pi_readopen x ∧ pi_writeopen y = pi_writeopen x ∧ pi_lock y = pi_lock x;
}.

Lemma pushed_nil x : pipe_ok x → pushed x x [].
Proof. intros Hok. split; try done; [by rewrite app_nil_r|]. simpl. rewrite Z.add_0_r, u32_id; [done|apply Hok]. Qed.
Lemma pushed_cons x c y bs : pipe_ok x → pipe_len x < PIPESIZE → pushed (pipe_push c x) y bs → pushed x y (c :: bs).
Proof.
  intros Hok Hl [H1 H2 H3 H4 H5]. split; try done.
  - by rewrite H2, (pipe_push_queue c x Hok Hl), <-app_assoc.
  - rewrite H4. simpl. unfold u32. rewrite Zplus_mod_idemp_l. f_equal. lia.
Qed.

Lemma pipewrite_loop_spec p killed bs s x :
  d_pipes s !! p = Some x → pipe_ok x → pi_lock x = true →
  wpb (pipewrite_loop p killed bs)
    (λ r s', ∃ y k, d_pipes s' !! p = Some y ∧ pushed x y (take k bs) ∧
       if r then take k bs = bs else pipe_len y = PIPESIZE ∧ (pi_readopen x = false ∨ killed = true))
    (λ c s', c = chan_id (ChPipeWrite p) ∧ ∃ y k, d_pipes s' !! p = Some (unlocked y) ∧ pushed x y (take k bs) ∧
       (k < length bs)%nat ∧ pipe_len y = PIPESIZE ∧ pi_readopen x = true ∧ killed = false) s.
Proof.
  revert s x. induction bs as [|b bs IH]; intros s x Hx Hok Hl.
  { exists x, O. split_and!; [done|by apply pushed_nil|done]. }
  simpl. apply wpb_bind, wpb_wp. eapply wp_getpipe; [done|]. rewrite pipe_full by done.
  destruct (Z.eqb_spec (pipe_len x) PIPESIZE) as [Hf|Hf].
  - destruct (negb (pi_readopen x) || killed) eqn:Eg.
    + exists x, O. split_and!; [done|by apply pushed_nil|done|]. apply orb_true_iff in Eg as [?%negb_true_iff|?]; auto.
    + apply orb_false_iff in Eg as [Ero%negb_false_iff Ek]. apply wpb_bind, wpb_wp, wp_modify, wpb_bind, wpb_wp.
      eapply wp_release_pipe; [done|done|]. split; [done|]. exists x, O. simpl. rewrite lookup_insert_eq.
      split_and!; [done|by apply pushed_nil|lia|done..].
  - assert (pipe_len x < PIPESIZE) as Hlt by (destruct Hok; lia). apply wpb_bind, wpb_wp. apply (wp_modpipe p (pipe_push b) x); [done|].
    eapply wpb_mono; [apply (IH _ (pipe_push b x)); [simpl; by rewrite lookup_insert_eq|by apply pipe_push_ok|done]|..].
    + intros r s' (y & k & Hy & Hp & Hr). exists y, (S k). split_and!; [done|by apply pushed_cons|]. destruct r; [simpl; by f_equal|done].
    + intros c s' (-> & y & k & Hy & Hp & Hk & Hr). split; [done|]. exists y, (S k). split_and!; [done|by apply pushed_cons|simpl; lia|naive_solver..].
Qed.

Lemma pushed_lock x y bs b : pushed (x <| pi_lock := b |>) y bs → pushed x (y <| pi_lock := pi_lock x |>) bs.
Proof. intros [[] H2 H3 H4 (H5 & H6 & H7)]. by split; [split|..]. Qed.

Lemma pipewrite_spec p killed bs s x :
  d_pipes s !! p = Some x → pipe_ok x → pi_lock x = false →
  wpb (pipewrite p killed bs)
    (λ r s', ∃ y k, d_pipes s' !! p = Some y ∧ pushed x y (take k bs) ∧
       ((r = Z.of_nat (length bs) ∧ take k bs = bs) ∨ (r = -1 ∧ pipe_len y = PIPESIZE ∧ (pi_readopen x = false ∨ killed = true))))
    (λ c s', c = chan_id (ChPipeWrite p) ∧ ∃ y k, d_pipes s' !! p = Some y ∧ pushed x y (take k bs) ∧
       (k < length bs)%nat ∧ pipe_len y = PIPESIZE ∧ pi_readopen x = true ∧ killed = false) s.
Proof.
  intros Hx Hok Hl. unfold pipewrite. apply wpb_bind, wpb_wp. eapply wp_acquire_pipe; [done|done|].
  apply wpb_bind. eapply wpb_mono; [apply (pipewrite_loop_spec p killed bs _ (x <| pi_lock := true |>)); [simpl; by rewrite lookup_insert_eq|by destruct Hok; split|done]|..].
  - intros r s1 (y & k & Hy & Hp & Hr). assert (pi_lock y = true) as Hly by apply Hp. apply pushed_lock in Hp. rewrite Hl in Hp.
    destruct r.
    + apply wpb_bind, wpb_wp, wp_modify, wpb_bind, wpb_wp. eapply wp_release_pipe; [done|done|]. exists (unlocked y), k.
      simpl. rewrite lookup_insert_eq. split_and!; [done|done|]. by left.
    + apply wpb_bind, wpb_wp. eapply wp_release_pipe; [done|done|]. exists (unlocked y), k. simpl. rewrite lookup_insert_eq.
      split_and!; [done|done|]. right. by split.
  - intros c s1 (-> & y & k & Hy & Hp & Hr). split; [done|]. exists (unlocked y), k. apply pushed_lock in Hp. rewrite Hl in Hp. done.
Qed.

(** [y] is [x] after [bs] was read. *)
Record popped x y (bs : list Z) : Prop := {
  pp_ok : pipe_ok y;
  pp_queue : pipe_queue x = bs ++ pipe_queue y;
  pp_open : pi_readopen y = pi_readopen x ∧ pi_writeopen y = pi_writeopen x ∧ pi_lock y = pi_lock x;
}.

Lemma piperead_loop_spec p n s x :
  d_pipes s !! p = Some x → pipe_ok x →
  wp (piperead_loop n p) (λ l s', l = take n (pipe_queue x) ∧ ∃ y, d_pipes s' !! p = Some y ∧ popped x y l) s.
Proof.
  revert s x. induction n as [|n IH]; intros s x Hx Hok; simpl.
  { split; [done|]. exists x. split; [done|by split]. }
  apply wp_bind. eapply wp_getpipe; [done|]. rewrite pipe_empty by done. pose proof (length_pipe_queue x) as Hlq.
  pose proof (u32_range (pi_nwrite x - pi_nread x)) as Hr. fold (pipe_len x) in Hr. destruct (Z.eqb_spec (pipe_len x) 0) as [E|E].
  - apply wp_ret. destruct (pipe_queue x) eqn:Eq; [|simpl in Hlq; lia]. split; [done|]. exists x. split; [done|by split].
  - destruct (pipe_pop_queue x Hok) as (c & Hc & Hq); [lia|]. apply wp_bind. eapply wp_of_option; [done|].
    apply wp_bind. apply (wp_modpipe p pipe_pop x); [done|]. apply wp_bind.
    eapply wp_mono; [apply (IH _ (pipe_pop x)); [simpl; by rewrite lookup_insert_eq|apply pipe_pop_ok; [done|lia]]|].
    intros l s' (-> & y & Hy & [P1 P2 P3]). apply wp_ret. rewrite Hq. simpl. split; [done|]. exists y. split; [done|].
    split; [done| |done]. rewrite Hq. simpl. f_equal. exact P2.
Qed.

Lemma piperead_spec p killed n s x :
  d_pipes s !! p = Some x → pipe_ok x → pi_lock x = false →
  wpb (piperead p killed n)
    (λ r s', ∃ y, d_pipes s' !! p = Some y ∧ popped x y r.2 ∧
       ((r.1 = Z.of_nat (length r.2) ∧ r.2 = take (Z.to_nat n) (pipe_queue x) ∧ (pipe_queue x = [] → pi_writeopen x = false)) ∨
        (r = (-1, []) ∧ pipe_queue x = [] ∧ pi_writeopen x = true ∧ killed = true)))
    (λ c s', c = chan_id (ChPipeRead p) ∧ pipe_queue x = [] ∧ pi_writeopen x = true ∧ killed = false ∧
       ∃ y, d_pipes s' !! p = Some y ∧ popped x y []) s.
Proof.
  intros Hx Hok Hl. unfold piperead. apply wpb_bind, wpb_wp. eapply wp_acquire_pipe; [done|done|].
  set (x1 := x <| pi_lock := true |>). assert (pipe_ok x1) as Hok1 by (by destruct Hok; split).
  apply wpb_bind, wpb_wp. eapply wp_getpipe; [simpl; by rewrite lookup_insert_eq|]. rewrite pipe_empty by done.
  change (pipe_len x1) with (pipe_len x). pose proof (length_pipe_queue x) as Hlq.
  assert (popped x (unlocked x1) []) as Hpop0 by (split; [by destruct Hok; split|done|split_and!; [done|done|by rewrite Hl]]).
  assert (pipe_len x = 0 ↔ pipe_queue x = []) as Hnil by (rewrite <-Hlq; destruct (pipe_queue x); [done|simpl; split; [lia|done]]).
  destruct ((pipe_len x =? 0) && pi_writeopen x1) eqn:Ec.
  - apply andb_true_iff in Ec as [E%Z.eqb_eq%Hnil Ew].
    destruct killed; apply wpb_bind, wpb_wp; (eapply wp_release_pipe; [simpl; by rewrite lookup_insert_eq|done|]).
    + exists (unlocked x1). simpl. rewrite lookup_insert_eq. split_and!; [done|done|by right].
    + split_and!; try done. exists (unlocked x1). simpl. by rewrite lookup_insert_eq.
  - apply wpb_bind, wpb_wp. eapply wp_mono; [apply (piperead_loop_spec p _ _ x1); [simpl; by rewrite lookup_insert_eq|done]|].
    intros l s1 (El & y & Hy & [P1 P2 (P3 & P4 & P5)]). apply wpb_bind, wpb_wp, wp_modify, wpb_bind, wpb_wp.
    eapply wp_release_pipe; [exact Hy|by rewrite P5|]. exists (unlocked y). cbn [fst snd]. split_and!.
    + simpl. by rewrite lookup_insert_eq.
    + split; [by destruct P1; split|exact P2|split_and!; [done|done|by rewrite Hl]].
    + left. split_and!; [done|exact El|]. intros Eq%Hnil. by rewrite Eq in Ec.
Qed.

(** ** Any number of readers and writers *)

(** The bytes that a call of [pipewrite] put into the pipe. *)
Definition sent (p : Z) s s' (bs : list Z) : list Z :=
  match d_pipes s !! p, d_pipes s' !! p with
  | Some x, Some y => take (Z.to_nat (u32 (pi_nwrite y - pi_nwrite x))) bs
  | _, _ => []
  end.

(** One critical section of a reader or writer: up to its return or to its
    [sleep].  A writer that sleeps goes on later with the bytes it has left.
    The lists are what was written to and read from the pipe so far. *)
Inductive pipe_step (p : Z) : fsys * list Z * list Z → fsys * list Z * list Z → Prop :=
  | step_write killed bs s s' w r n :
      pipewrite p killed bs s = Ok n s' → pipe_step p (s, w, r) (s', w ++ sent p s s' bs, r)
  | step_write_sleep killed bs s s' w r c :
      pipewrite p killed bs s = Blocked c s' → pipe_step p (s, w, r) (s', w ++ sent p s s' bs, r)
  | step_read killed n s s' w r v l :
      piperead p killed n s = Ok (v, l) s' → pipe_step p (s, w, r) (s', w, r ++ l)
  | step_read_sleep killed n s s' w r c :
      piperead p killed n s = Blocked c s' → pipe_step p (s, w, r) (s', w, r).

(** The queue holds what was written and not yet read. *)
Definition pipe_inv (p : Z) (c : fsys * list Z * list Z) : Prop :=
  ∃ x, d_pipes c.1.1 !! p = Some x ∧ pipe_ok x ∧ pi_lock x = false ∧ c.1.2 = c.2 ++ pipe_queue x.

Lemma pushed_sent p s s' x y k bs :
  d_pipes s !! p = Some x → d_pipes s' !! p = Some y → pipe_ok x → pushed x y (take k bs) → sent p s s' bs = take k bs.
Proof.
  intros Hx Hy Hok [P1 P2 P3 P4 P5]. unfold sent. rewrite Hx, Hy, P4.
  assert (Z.of_nat (length (take k bs)) ≤ PIPESIZE) as Hl.
  { apply (f_equal length) in P2. rewrite length_app in P2. pose proof (length_pipe_queue y). destruct P1. lia. }
  replace (u32 (u32 (pi_nwrite x + Z.of_nat (length (take k bs))) - pi_nwrite x)) with (Z.of_nat (length (take k bs))).
  - rewrite Nat2Z.id, length_take. destruct (decide (k ≤ length bs)%nat); [by rewrite Nat.min_l|]. by rewrite Nat.min_r, !take_ge by lia.
  - unfold u32. rewrite Zminus_mod_idemp_l. replace (_ - _) with (Z.of_nat (length (take k bs))) by lia. unfold PIPESIZE in Hl. symmetry. apply Z.mod_small. lia.
Qed.

Lemma pipe_step_inv p c c' : pipe_step p c c' → pipe_inv p c → pipe_inv p c'.
Proof.
  intros Hstep (x & Hx & Hok & Hl & Hw). destruct Hstep as [killed bs s s' w r n E|killed bs s s' w r n E|killed n s s' w r v l E|killed n s s' w r n' E].
  all: cbn [fst snd] in *.
  - pose proof (pipewrite_spec p killed bs s x Hx Hok Hl) as H. unfold wpb in H. rewrite E in H. destruct H as (y & k & Hy & Hp & _).
    exists y. cbn [fst snd]. split_and!; [done|apply Hp|destruct (pu_open _ _ _ Hp) as (_ & _ & ->); done|].
    by rewrite (pushed_sent p s s' x y k), (pu_queue _ _ _ Hp), Hw, app_assoc.
  - pose proof (pipewrite_spec p killed bs s x Hx Hok Hl) as H. unfold wpb in H. rewrite E in H. destruct H as (_ & y & k & Hy & Hp & _).
    exists y. cbn [fst snd]. split_and!; [done|apply Hp|destruct (pu_open _ _ _ Hp) as (_ & _ & ->); done|].
    by rewrite (pushed_sent p s s' x y k), (pu_queue _ _ _ Hp), Hw, app_assoc.
  - pose proof (piperead_spec p killed n s x Hx Hok Hl) as H. unfold wpb in H. rewrite E in H. destruct H as (y & Hy & [P1 P2 (_ & _ & P3)] & _).
    exists y. cbn [fst snd] in *. split_and!; [done|done|by rewrite P3|]. by rewrite Hw, P2, app_assoc.
  - pose proof (piperead_spec p killed n s x Hx Hok Hl) as H. unfold wpb in H. rewrite E in H. destruct H as (_ & _ & _ & _ & y & Hy & [P1 P2 (_ & _ & P3)]).
    exists y. cbn [fst snd] in *. split_and!; [done|done|by rewrite P3|]. by rewrite Hw, P2.
Qed.

(** C37: A pipe is a first-in first-out queue of at most [PIPESIZE] bytes: after
    any interleaving of reads and writes by any number of processes, including
    ones that sleep on the way, what was written is what was read followed by
    the contents of the pipe.  The counters may wrap around. *)
Theorem pipe_fifo p s w r s' w' r' :
  pipe_inv p (s, w, r) → rtc (pipe_step p) (s, w, r) (s', w', r') →
  ∃ x, d_pipes s' !! p = Some x ∧ w' = r' ++ pipe_queue x ∧ Z.of_nat (length (pipe_queue x)) ≤ PIPESIZE.
Proof.
  intros HI Hr. assert (pipe_inv p (s', w', r')) as (x & Hx & Hok & _ & Hw).
  { revert HI. induction Hr; eauto using pipe_step_inv. }
  exists x. split_and!; [done|done|]. rewrite length_pipe_queue. apply Hok.
Qed.

(** A reader sleeps only while the pipe is empty and open for writing, a
    writer only while it is full and open for reading; otherwise a read
    returns as many bytes as there are, up to the number asked for (none only
    at the end of the file), and a write stores all its bytes or, when nobody
    can read them, fails. *)
Theorem pipe_calls p killed bs n s x :
  d_pipes s !! p = Some x → pipe_ok x → pi_lock x = false →
  wpb (pipewrite p killed bs)
    (λ v s', ∃ y, d_pipes s' !! p = Some y ∧
       ((v = Z.of_nat (length bs) ∧ pipe_queue y = pipe_queue x ++ bs) ∨
        (v = -1 ∧ pipe_len y = PIPESIZE ∧ (pi_readopen x = false ∨ killed = true))))
    (λ c s', c = chan_id (ChPipeWrite p) ∧ pi_readopen x = true ∧ ∃ y, d_pipes s' !! p = Some y ∧ pipe_len y = PIPESIZE) s ∧
  wpb (piperead p killed n)
    (λ r s', (r.2 = take (Z.to_nat n) (pipe_queue x) ∧ r.1 = Z.of_nat (length r.2) ∧ (pipe_queue x = [] → pi_writeopen x = false)) ∨
       (r = (-1, []) ∧ killed = true))
    (λ c s', c = chan_id (ChPipeRead p) ∧ pipe_queue x = [] ∧ pi_writeopen x = true) s.
Proof.
  intros Hx Hok Hl. split.
  - eapply wpb_mono; [by apply pipewrite_spec|..].
    + intros v s' (y & k & Hy & Hp & [[-> E]|H]); exists y; (split; [done|]); [left|by right]. by rewrite (pu_queue _ _ _ Hp), E.
    + intros c s' (-> & y & k & Hy & _ & _ & Hf & Ho & _). split_and!; try done. by exists y.
  - eapply wpb_mono; [by apply piperead_spec|..].
    + intros r s' (y & _ & _ & [(E1 & E2 & H)|(-> & _ & _ & ->)]); [by left|by right].
    + intros c s' (-> & -> & -> & _). done.
Qed.

(** ** Examples *)

Module PipeExamples.
(** A pipe whose counters are about to wrap around. *)
Definition ex_pipe : pipe := Pipe false (replicate 512 0) (2 ^ 32 - 1) (2 ^ 32 - 1) true true.
Definition ex_pipes (x : pipe) : fsys :=
  Fsys ∅ [] true false [] false [] [] false (Log 0 0 0 false 0 0 []) (Superblock 0 0 0 0 0 0 0) false [] false [] {[0x1000 := x]} [] [] [].
Definition after {A} (m : M fsys A) s : fsys := match m s with Ok _ s' | Blocked _ s' => s' | _ => s end.
Definition ex_s1 : fsys := after (pipewrite 0x1000 false [7; 8; 9]) (ex_pipes ex_pipe).
Definition ex_s2 : fsys := after (piperead 0x1000 false 2) ex_s1.

Lemma ex_pipe_ok : pipe_ok ex_pipe.
Proof. split; vm_compute; intuition congruence. Qed.

Lemma pipe_fifo_witness : ∃ x, d_pipes ex_s2 !! 0x1000 = Some x ∧ pipe_queue x = [9].
Proof.
  destruct (pipe_fifo 0x1000 (ex_pipes ex_pipe) [] [] ex_s2 [7; 8; 9] [7; 8]) as (x & Hx & E & _).
  - exists ex_pipe. split_and!; [reflexivity|apply ex_pipe_ok|reflexivity|reflexivity].
  - apply (rtc_l _ _ (ex_s1, [7; 8; 9], [])); [|apply rtc_once].
    + assert (sent 0x1000 (ex_pipes ex_pipe) ex_s1 [7; 8; 9] = [7; 8; 9]) as Es by (vm_compute; reflexivity).
      rewrite <-Es. apply (step_write _ false [7; 8; 9] (ex_pipes ex_pipe) ex_s1 [] [] 3). vm_compute. reflexivity.
    + apply (step_read 0x1000 false 2 ex_s1 ex_s2 [7; 8; 9] [] 2). vm_compute. reflexivity.
  - exists x. split; [exact Hx|]. simpl in E. by injection E as <-.
Defined.

Lemma pipe_calls_witness : ∃ s', piperead 0x1000 false 2 ex_s1 = Ok (2, [7; 8]) s'.
Proof.
  destruct (pipe_calls 0x1000 false [] 2 ex_s1 (Pipe false (aset (aset (aset (replicate 512 0) 511 7) 0 8) 1 9) (2 ^ 32 - 1) 2 true true)) as [_ H].
  - vm_compute. reflexivity.
  - split; vm_compute; intuition congruence.
  - reflexivity.
  - unfold wpb in H. destruct (piperead 0x1000 false 2 ex_s1) as [[v l] s'| |c s'| | |] eqn:E; try contradiction.
    + exists s'. destruct H as [(E1 & E2 & _)|(_ & E1)]; [|discriminate E1]. cbn [fst snd] in *. subst l v. reflexivity.
    + destruct H as (_ & H & _). vm_compute in H. discriminate H.
Defined.
End PipeExamples.
