(* ===== verification/Grep.v ===== *)
(** The text utilities [grep] and [wc] ([src/grep.c], [src/wc.c]) and the
    string functions of the user library they use ([src/ulib.c]).

    A C string is the list of its bytes without the terminating NUL. *)

From S2P Require Import Prelude.
From stdpp Require Import options.

(** ** Strings *)

Definition NL : Z := 10.

(** Index of the first [c] before the end of the string, as the byte list
    [s] may have a NUL in it. *)
Fixpoint strchr (s : list Z) (c : Z) : option nat :=
  match s with
  | [] => None
  | x :: s => if x =? 0 then None else if x =? c then Some O else S <$> strchr s c
  end.

Fixpoint strcmp (p q : list Z) : Z :=
  match p, q with
  | x :: p', y :: q' => if x =? y then strcmp p' q' else x - y
  | [], y :: _ => - y
  | x :: _, [] => x
  | [], [] => 0
  end.

Fixpoint atoi_loop (n : Z) (s : list Z) : Z :=
  match s with
  | c :: s => if (48 <=? c) && (c <=? 57) then atoi_loop (s32 (s32 (s32 (n * 10) + c) - 48)) s else n
  | [] => n
  end.
Definition atoi (s : list Z) : Z := atoi_loop 0 s.

(** ** The pattern matcher *)

Section matchstar.
Variable matchhere : list Z → bool.

(** [matchstar(c, re, text)], where [matchhere] is [matchhere(re, .)]. *)
Fixpoint matchstar (c : Z) (text : list Z) : bool :=
  if matchhere text then true else
  match text with
  | [] => false
  | x :: text => if (x =? c) || (c =? 46) then matchstar c text else false
  end.
End matchstar.

Fixpoint matchhere (re text : list Z) : bool :=
  match re with
  | [] => true
  | c :: re1 =>
      let one := match text with
                 | x :: text => if (c =? 46) || (c =? x) then matchhere re1 text else false
                 | [] => false
                 end in
      match re1 with
      | [] => if c =? 36 then match text with [] => true | _ => false end else one
      | d :: re2 => if d =? 42 then matchstar (matchhere re2) c text else one
      end
  end.

(** The loop of [match]: [matchhere] at every position of the text. *)
Fixpoint match_loop (re text : list Z) : bool :=
  if matchhere re text then true else
  match text with
  | [] => false
  | _ :: text => match_loop re text
  end.

Definition gmatch (re text : list Z) : bool :=
  match re with
  | c :: re1 => if c =? 94 then matchhere re1 text else match_loop re text
  | [] => match_loop re text
  end.

(** ** [grep] *)

(** [read(fd, p, req)] of a file with [input] left, where at most [S k]
    bytes are available at once. *)
Definition read_some (req : Z) (k : nat) (input : list Z) : list Z := take (Z.to_nat req `min` S k) input.

(** The inner loop: [p] is the rest of the buffer; the result is what was
    written and the final [p]. *)
Fixpoint grep_lines (fuel : nat) (re p : list Z) : list Z * list Z :=
  match fuel with
  | O => ([], p)
  | S fuel =>
      match strchr p NL with
      | None => ([], p)
      | Some i =>
          let line := take i p in
          let r := grep_lines fuel re (drop (S i) p) in
          ((if gmatch re line then line ++ [NL] else []) ++ r.1, r.2)
      end
  end.

Definition GREPBUF : Z := 1024.

(** The outer loop: [b] is [buf[0 .. m-1]], [avail i] limits the [i]th read. *)
Fixpoint grep_loop (fuel : nat) (re : list Z) (avail : nat → nat) (i : nat) (input b : list Z) : option (list Z) :=
  match fuel with
  | O => None
  | S fuel =>
      let r := read_some (GREPBUF - Z.of_nat (length b) - 1) (avail i) input in
      match r with
      | [] => Some []
      | _ =>
          let b := b ++ r in
          let '(out, p) := grep_lines (S (length b)) re b in
          let b' := if (length p =? length b)%nat then [] else p in
          app out <$> grep_loop fuel re avail (S i) (drop (length r) input) b'
      end
  end.
Definition grep (re : list Z) (avail : nat → nat) (input : list Z) : option (list Z) :=
  grep_loop (S (length input)) re avail 0 input [].

(** ** [wc] *)

(** [strchr(" \r\t\n\v", c)] *)
Definition wc_space (c : Z) : bool := bool_decide (is_Some (strchr [32; 13; 9; 10; 11] c)).

Record wc_counts := Wc { wc_l : Z; wc_w : Z; wc_c : Z; wc_inword : bool }.

Definition wc_char (st : wc_counts) (x : Z) : wc_counts :=
  let c := s32 (wc_c st + 1) in
  let l := if x =? NL then s32 (wc_l st + 1) else wc_l st in
  if wc_space x then Wc l (wc_w st) c false
  else if wc_inword st then Wc l (wc_w st) c true
  else Wc l (s32 (wc_w st + 1)) c true.

Fixpoint wc_loop (fuel : nat) (avail : nat → nat) (i : nat) (input : list Z) (st : wc_counts) : option wc_counts :=
  match fuel with
  | O => None
  | S fuel =>
      match read_some 512 (avail i) input with
      | [] => Some st
      | b => wc_loop fuel avail (S i) (drop (length b) input) (foldl wc_char st b)
      end
  end.
Definition wc (avail : nat → nat) (input : list Z) : option wc_counts :=
  wc_loop (S (length input)) avail 0 input (Wc 0 0 0 false).

(** ** What patterns mean *)

(** A pattern character matches a text character. *)
Definition char_ok (c x : Z) : Prop := c = 46 ∨ c = x.

(** [denotes re pre post]: the pattern [re] matches [pre], followed by
    [post]. *)
Inductive denotes : list Z → list Z → list Z → Prop :=
  | den_nil post : denotes [] [] post
  | den_star c re xs pre post :
      Forall (char_ok c) xs → denotes re pre post → denotes (c :: 42 :: re) (xs ++ pre) post
  | den_end : denotes [36] [] []
  | den_char c re x pre post :
      head re ≠ Some 42 → (c = 36 → re ≠ []) → char_ok c x → denotes re pre post → denotes (c :: re) (x :: pre) post.

(** The pattern matches at the beginning of the text. *)
Definition matches_here (re text : list Z) : Prop := ∃ pre post, text = pre ++ post ∧ denotes re pre post.

Lemma char_ok_star x c : (x =? c) || (c =? 46) = true ↔ char_ok c x.
Proof. unfold char_ok. rewrite orb_true_iff, !Z.eqb_eq. naive_solver. Qed.
Lemma char_ok_one x c : (c =? 46) || (c =? x) = true ↔ char_ok c x.
Proof. unfold char_ok. rewrite orb_true_iff, !Z.eqb_eq. naive_solver. Qed.

Lemma matchstar_spec mh c text :
  matchstar mh c text = true ↔ ∃ xs rest, text = xs ++ rest ∧ Forall (char_ok c) xs ∧ mh rest = true.
Proof.
  induction text as [|x text IH]; simpl.
  - destruct (mh []) eqn:E; [|split; [done|]].
    + split; [intros _; by exists [], []|done].
    + intros (xs & rest & H & _ & Hm). symmetry in H. apply app_eq_nil in H as [-> ->]. congruence.
  - destruct (mh (x :: text)) eqn:E; [split; [intros _; by exists [], (x :: text)|done]|].
    destruct ((x =? c) || (c =? 46)) eqn:Ec; rewrite ?IH.
    + apply char_ok_star in Ec. split.
      * intros (xs & rest & -> & Hf & Hm). exists (x :: xs), rest. by rewrite Forall_cons.
      * intros ([|y xs] & rest & H & Hf & Hm); simpl in H; [subst; congruence|]. injection H as -> ->.
        apply Forall_cons in Hf as [_ Hf]. by exists xs, rest.
    + split; [done|]. intros ([|y xs] & rest & H & Hf & Hm); simpl in H; [subst; congruence|]. injection H as -> ->.
      apply Forall_cons in Hf as [Hy _]. apply char_ok_star in Hy. congruence.
Qed.

Lemma one_spec c re text (mh : list Z → bool) :
  head re ≠ Some 42 → (c = 36 → re ≠ []) → (∀ t, mh t = true ↔ matches_here re t) →
  match text with x :: text => if (c =? 46) || (c =? x) then mh text else false | [] => false end = true ↔
  matches_here (c :: re) text.
Proof.
  intros H1 H2 IH. split.
  - destruct text as [|x text]; [done|]. destruct (_ || _) eqn:E; [|done]. apply char_ok_one in E.
    intros (pre & post & -> & Hd)%IH. exists (x :: pre), post. split; [done|]. by constructor.
  - intros (pre & post & -> & Hd). inversion Hd as [|? ? xs ? ? Hf Hd' |E|? ? x ? ? _ _ Hc Hd']; subst; [done|by destruct H2|].
    simpl. apply char_ok_one in Hc as ->. apply IH. by exists pre0, post.
Qed.


Lemma matchhere_spec re : ∀ text, matchhere re text = true ↔ matches_here re text.
Proof.
  induction re as [[|c [|d re]] IH] using (well_founded_induction (well_founded_ltof _ (@length Z))); intros text; simpl.
  - split; [|done]. intros _. exists [], text. split; [done|constructor].
  - destruct (Z.eqb_spec c 36) as [->|Hc].
    + split; [destruct text; [|done]; intros _; exists [], []; split; [done|constructor]|].
      intros (pre & post & -> & Hd). inversion Hd as [| | |? ? x ? ? _ He]; subst; [done|]. by destruct He.
    + apply (one_spec c [] text (λ t, true)); [done|done|]. intros t. split; [|done]. intros _. exists [], t. split; [done|constructor].
  - destruct (Z.eqb_spec d 42) as [->|Hd].
    + rewrite matchstar_spec. setoid_rewrite IH; [|unfold ltof; simpl; lia]. split.
      * intros (xs & rest & -> & Hf & pre & post & -> & Hd). exists (xs ++ pre), post. split; [by rewrite app_assoc|by constructor].
      * intros (pre & post & -> & Hd). inversion Hd as [|? ? xs ? ? Hf Hd'| |? ? x ? ? Hh]; subst; [|by destruct Hh].
        exists xs, (pre0 ++ post). split; [by rewrite app_assoc|]. split; [done|]. by exists pre0, post.
    + apply (one_spec c (d :: re) text (matchhere (d :: re))); [simpl; congruence|done|]. apply IH. unfold ltof. simpl. lia.
Qed.

Lemma match_loop_spec re text : match_loop re text = true ↔ ∃ a b, text = a ++ b ∧ matches_here re b.
Proof.
  assert (∀ re t, matchhere re t = true → ∃ a b, t = a ++ b ∧ matches_here re b) as H0 by (intros ?? ?%matchhere_spec; by exists [], t).
  induction text as [|x text IH]; simpl.
  - destruct (matchhere re []) eqn:E; split; try done; [by intros _; apply H0|].
    intros (a & b & H & Hm). symmetry in H. apply app_eq_nil in H as [-> ->]. apply matchhere_spec in Hm. congruence.
  - destruct (matchhere re (x :: text)) eqn:E; [split; [intros _; by apply H0|done]|]. rewrite IH. split.
    + intros (a & b & -> & Hm). by exists (x :: a), b.
    + intros ([|y a] & b & H & Hm); simpl in H; [subst; apply matchhere_spec in Hm; congruence|]. injection H as -> ->. by exists a, b.
Qed.

(** C25: The matcher of [grep] is right: with a leading [^] the rest of the
    pattern must match at the beginning of the line, otherwise anywhere in
    it; [c*] stands for any number of characters that [c] matches, [.] for any
    character, a final [$] for the end of the line. *)
Theorem match_correct re text :
  gmatch re text = true ↔
  (∃ re', re = 94 :: re' ∧ matches_here re' text) ∨
  (head re ≠ Some 94 ∧ ∃ a b, text = a ++ b ∧ matches_here re b).
Proof.
  destruct re as [|c re]; simpl; [rewrite match_loop_spec; naive_solver|].
  destruct (Z.eqb_spec c 94) as [->|Hc]; rewrite ?matchhere_spec, ?match_loop_spec; naive_solver.
Qed.

(** ** What [grep] prints *)

(** The complete lines of a text, and the rest. *)
Fixpoint split_lines (acc l : list Z) : list (list Z) * list Z :=
  match l with
  | [] => ([], acc)
  | x :: l => if x =? NL then (acc :: (split_lines [] l).1, (split_lines [] l).2) else split_lines (acc ++ [x]) l
  end.
Definition matching (re : list Z) (ls : list (list Z)) : list Z :=
  concat ((λ l, l ++ [NL]) <$> filter (λ l, gmatch re l = true) ls).

Lemma split_lines_app acc l1 l2 :
  split_lines acc (l1 ++ l2) =
  ((split_lines acc l1).1 ++ (split_lines (split_lines acc l1).2 l2).1, (split_lines (split_lines acc l1).2 l2).2).
Proof.
  revert acc. induction l1 as [|x l1 IH]; intros acc; simpl; [by destruct (split_lines acc l2)|].
  destruct (x =? NL); [|apply IH]. by rewrite IH.
Qed.

Lemma split_lines_none acc l : NL ∉ l → split_lines acc l = ([], acc ++ l).
Proof.
  revert acc. induction l as [|x l IH]; intros acc Hl; simpl; [by rewrite app_nil_r|].
  apply not_elem_of_cons in Hl as [Hx Hl]. destruct (Z.eqb_spec x NL); [congruence|]. rewrite IH by done. by rewrite <-app_assoc.
Qed.

Lemma split_lines_rest acc l : NL ∉ acc → NL ∉ (split_lines acc l).2.
Proof.
  revert acc. induction l as [|x l IH]; intros acc Ha; simpl; [done|]. destruct (Z.eqb_spec x NL); simpl.
  - apply IH, not_elem_of_nil.
  - apply IH. rewrite not_elem_of_app, list_elem_of_singleton. naive_solver.
Qed.

Lemma strchr_NL p :
  0 ∉ p → (if strchr p NL is Some i then (∃ a c, p = a ++ (NL :: c) ∧ (NL ∉ a) ∧ i = length a) else (NL ∉ p)).
Proof.
  induction p as [|x p IH]; simpl; [intros _; apply not_elem_of_nil|]. intros [Hx Hp]%not_elem_of_cons.
  destruct (Z.eqb_spec x 0); [congruence|]. destruct (Z.eqb_spec x NL) as [->|Hn].
  - exists [], p. split_and!; [done|apply not_elem_of_nil|done].
  - specialize (IH Hp). destruct (strchr p NL) as [i|]; simpl.
    + destruct IH as (a & c & -> & Ha & ->). exists (x :: a), c. split_and!; [done|by apply not_elem_of_cons|done].
    + by apply not_elem_of_cons.
Qed.

Lemma matching_cons re l ls : matching re (l :: ls) = (if gmatch re l then l ++ [NL] else []) ++ matching re ls.
Proof. unfold matching. rewrite filter_cons. by destruct (gmatch re l). Qed.
Lemma matching_app re ls ls' : matching re (ls ++ ls') = matching re ls ++ matching re ls'.
Proof. unfold matching. by rewrite filter_app, fmap_app, concat_app. Qed.

Lemma grep_lines_spec fuel re p :
  0 ∉ p → (length p < fuel)%nat → grep_lines fuel re p = (matching re (split_lines [] p).1, (split_lines [] p).2).
Proof.
  revert p. induction fuel as [|fuel IH]; intros p Hp Hf; simpl; [lia|].
  pose proof (strchr_NL p Hp) as H. destruct (strchr p NL) as [i|].
  - destruct H as (a & c & -> & Ha & ->). rewrite take_app_length. rewrite length_app in Hf. simpl in Hf.
    replace (drop (S (length a)) (a ++ NL :: c)) with c by (rewrite <-Nat.add_1_r, drop_app_add'; done).
    rewrite IH; [|apply not_elem_of_app in Hp as [_ [_ ?]%not_elem_of_cons]; done|lia]. simpl.
    rewrite split_lines_app, (split_lines_none [] a) by done. simpl. by rewrite matching_cons.
  - by rewrite (split_lines_none [] p).
Qed.

(** One turn of the outer loop. *)
Lemma grep_loop_step fuel re avail i input b r :
  0 ∉ input → 0 ∉ b → read_some (GREPBUF - Z.of_nat (length b) - 1) (avail i) input = r → r ≠ [] →
  grep_loop (S fuel) re avail i input b =
    let '(ls, p) := split_lines [] (b ++ r) in
    app (matching re ls) <$> grep_loop fuel re avail (S i) (drop (length r) input) (if (length p =? length (b ++ r))%nat then [] else p).
Proof.
  intros Hi Hb Hr Hne. cbn [grep_loop]. rewrite Hr. destruct r as [|x r]; [done|].
  rewrite grep_lines_spec; [by destruct (split_lines [] _)| |lia]. rewrite not_elem_of_app. split; [done|].
  rewrite <-Hr. unfold read_some. intros (j & Hj & _)%elem_of_take. by apply list_elem_of_lookup_2 in Hj.
Qed.

Lemma read_some_prefix req k input :
  read_some req k input = [] ∨
  ∃ r, read_some req k input = r ∧ r ≠ [] ∧ input = r ++ drop (length r) input ∧ (length (drop (length r) input) < length input)%nat.
Proof.
  destruct (read_some req k input) as [|x r] eqn:E; [by left|right]. exists (x :: r). rewrite <-E. unfold read_some in *.
  set (n := (_ `min` _)%nat) in *. split_and!; [done|by rewrite E| |].
  - rewrite length_take. destruct (decide (n ≤ length input)%nat).
    + by rewrite Nat.min_l, take_drop.
    + rewrite Nat.min_r, drop_all, app_nil_r, take_ge by lia. done.
  - rewrite E, length_drop. destruct input; [by rewrite take_nil in E|]. simpl. lia.
Qed.

(** Once there are no more newlines nothing is printed. *)
Lemma grep_loop_none fuel re avail i input b :
  0 ∉ input → 0 ∉ b → NL ∉ input → NL ∉ b → (length input < fuel)%nat → grep_loop fuel re avail i input b = Some [].
Proof.
  revert i input b. induction fuel as [|fuel IH]; intros i input b Hi Hb Ni Nb Hf; [lia|].
  destruct (read_some_prefix (GREPBUF - Z.of_nat (length b) - 1) (avail i) input) as [E|(r & E & Hne & Hin & Hlen)].
  - cbn [grep_loop]. by rewrite E.
  - rewrite (grep_loop_step _ _ _ _ _ _ r) by done. rewrite Hin in Hi, Ni. rewrite not_elem_of_app in Hi, Ni.
    rewrite split_lines_none by (rewrite not_elem_of_app; naive_solver). rewrite Nat.eqb_refl.
    rewrite IH; [done|naive_solver|apply not_elem_of_nil|naive_solver|apply not_elem_of_nil|lia].
Qed.

Lemma split_lines_first acc l x : NL ∉ acc → head (split_lines acc l).1 = Some x → ∃ t, acc ++ l = x ++ NL :: t ∧ NL ∉ x.
Proof.
  revert acc. induction l as [|y l IH]; intros acc Ha; simpl; [done|]. destruct (Z.eqb_spec y NL) as [->|Hy]; simpl.
  - intros [= <-]. by exists l.
  - intros H. destruct (IH (acc ++ [y])) as (t & E & Hx); [rewrite not_elem_of_app, list_elem_of_singleton; naive_solver|done|].
    exists t. by rewrite <-app_assoc in E.
Qed.

Lemma split_lines_long acc l : NL ∉ acc → (split_lines acc l).1 = [] → NL ∉ l.
Proof.
  revert acc. induction l as [|y l IH]; intros acc Ha; simpl; [intros _; apply not_elem_of_nil|].
  destruct (Z.eqb_spec y NL) as [->|Hy]; simpl; [done|]. intros H. apply not_elem_of_cons. split; [congruence|].
  apply (IH (acc ++ [y])); [rewrite not_elem_of_app, list_elem_of_singleton; naive_solver|done].
Qed.

Lemma split_lines_concat acc l :
  acc ++ l = concat ((λ x, x ++ [NL]) <$> (split_lines acc l).1) ++ (split_lines acc l).2.
Proof.
  revert acc. induction l as [|x l IH]; intros acc; simpl; [apply app_nil_r|]. destruct (Z.eqb_spec x NL) as [->|Hx]; simpl.
  - rewrite <-!app_assoc, <-IH. done.
  - rewrite <-IH, <-app_assoc. done.
Qed.

(** A line that fills the buffer is too long. *)
Lemma split_lines_full p l :
  NL ∉ p → Forall (λ x, (length x < length p)%nat) (split_lines p l).1 → (split_lines p l).1 = [].
Proof.
  intros Hp Hf. destruct (split_lines p l).1 as [|x ls] eqn:E; [done|]. exfalso. apply Forall_cons in Hf as [Hx _].
  destruct (split_lines_first p l x Hp) as (t & Et & _); [by rewrite E|]. apply Hp.
  assert (NL ∈ take (length p) (x ++ NL :: t)) as H; [|rewrite <-Et, take_app_length in H; done].
  rewrite take_app, take_ge by lia. apply elem_of_app. right. destruct (length p - length x)%nat eqn:En; [lia|]. simpl. by left.
Qed.

(** The buffer [b] holds the beginning of a line. *)
Lemma grep_loop_full fuel re avail i input b :
  0 ∉ input → 0 ∉ b → NL ∉ b → Z.of_nat (length b) < GREPBUF - 1 → (∀ j, GREPBUF ≤ Z.of_nat (avail j)) →
  Forall (λ l, Z.of_nat (length l) < GREPBUF - 1) (split_lines b input).1 → (length input < fuel)%nat →
  grep_loop fuel re avail i input b = Some (matching re (split_lines b input).1).
Proof.
  revert i input b. induction fuel as [|fuel IH]; intros i input b Hi Hb Nb Hlb Hav Hls Hf; [lia|].
  destruct (read_some_prefix (GREPBUF - Z.of_nat (length b) - 1) (avail i) input) as [E|(r & E & Hne & Hin & Hlen)].
  { cbn [grep_loop]. rewrite E. unfold read_some in E. destruct input as [|x input]; [done|]. exfalso.
    specialize (Hav i). unfold GREPBUF in *. destruct (_ `min` _)%nat eqn:En in E; [lia|done]. }
  rewrite (grep_loop_step _ _ _ _ _ _ r) by done. unfold read_some in E. rewrite Nat.min_l in E by (specialize (Hav i); lia).
  set (rest := drop (length r) input) in *.
  assert (Z.of_nat (length r) ≤ GREPBUF - Z.of_nat (length b) - 1) as Hrl by (rewrite <-E, length_take; lia).
  assert (rest = [] ∨ Z.of_nat (length (b ++ r)) = GREPBUF - 1) as Hrest.
  { rewrite length_app. destruct (decide (length input ≤ Z.to_nat (GREPBUF - Z.of_nat (length b) - 1))%nat).
    - left. unfold rest. rewrite <-E, take_ge by lia. apply drop_all.
    - right. rewrite <-E, length_take. lia. }
  assert (split_lines b input = split_lines [] ((b ++ r) ++ rest)) as Es.
  { rewrite <-app_assoc, <-Hin, (split_lines_app [] b), (split_lines_none [] b) by done. simpl. by destruct (split_lines b input). }
  rewrite Es in Hls |- *. clear Es. rewrite (split_lines_app [] (b ++ r) rest) in Hls |- *. pose proof (split_lines_rest [] (b ++ r) (not_elem_of_nil _)) as Np.
  pose proof (split_lines_concat [] (b ++ r)) as Hcat. rewrite Hin, not_elem_of_app in Hi. destruct Hi as [Hr Hr0].
  destruct (split_lines [] (b ++ r)) as [ls p]. simpl in *. rewrite Forall_app in Hls. destruct Hls as [Hls1 Hls2].
  assert (0 ∉ p) as Hp0 by (intros Hp; assert (0 ∈ b ++ r) as [?|?]%elem_of_app by (rewrite Hcat; apply elem_of_app; by right); done).
  destruct (Nat.eqb_spec (length p) (length (b ++ r))) as [El|El].
  - assert ((split_lines p rest).1 = []) as En.
    { destruct Hrest as [-> |Hfull]; [done|]. apply split_lines_full; [done|]. eapply Forall_impl; [exact Hls2|]. simpl. lia. }
    rewrite En, app_nil_r. rewrite grep_loop_none; [simpl; by rewrite app_nil_r|done|apply not_elem_of_nil| |apply not_elem_of_nil|lia].
    by eapply split_lines_long.
  - rewrite IH; try done; [simpl; by rewrite matching_app| |lia]. apply (f_equal length) in Hcat. rewrite length_app in Hcat, El.
    rewrite (length_app (concat _)) in Hcat. lia.
Qed.

(** C26: On input without NUL bytes whose complete lines are shorter than 1023
    bytes, [grep] prints exactly the complete lines that match, in order, when
    every read returns as much as was asked for (as from a file). *)
Theorem grep_prints_matching re avail input :
  0 ∉ input → (∀ i, GREPBUF ≤ Z.of_nat (avail i)) →
  Forall (λ l, Z.of_nat (length l) < GREPBUF - 1) (split_lines [] input).1 →
  grep re avail input = Some (matching re (split_lines [] input).1).
Proof. intros. unfold grep. apply grep_loop_full; try done; try apply not_elem_of_nil; lia. Qed.

(** When a read returns less than a line, as from a pipe or the console,
    [grep] forgets the beginning of the line: of the text [ab], read one
    byte at a time, the line [ab] is not printed for the pattern [ab]. *)
Theorem grep_short_read : grep [97; 98] (λ _, O) [97; 98; NL] = Some [] ∧ matching [97; 98] (split_lines [] [97; 98; NL]).1 = [97; 98; NL].
Proof. done. Qed.

(** ** What [wc] counts *)

(** Words: maximal runs of characters that are not white space; [inw] says
    that the text continues a word. *)
Fixpoint words (inw : bool) (l : list Z) : Z :=
  match l with
  | [] => 0
  | x :: l => if wc_space x then words false l else (if inw then 0 else 1) + words true l
  end.

Lemma words_range inw l : 0 ≤ words inw l ≤ Z.of_nat (length l).
Proof. revert inw. induction l as [|x l IH]; intros inw; simpl; [lia|]. pose proof (IH true). pose proof (IH false). destruct (wc_space x), inw; lia. Qed.

Lemma wc_fold input l w c inw :
  0 ≤ l → 0 ≤ w → 0 ≤ c → l + Z.of_nat (length input) < 2 ^ 31 → w + Z.of_nat (length input) < 2 ^ 31 → c + Z.of_nat (length input) < 2 ^ 31 →
  let st := foldl wc_char (Wc l w c inw) input in
  wc_l st = l + cnt (λ x, x =? NL) input ∧ wc_w st = w + words inw input ∧ wc_c st = c + Z.of_nat (length input).
Proof.
  revert l w c inw. induction input as [|x input IH]; intros l w c inw Hl Hw Hc H1 H2 H3; cbn [foldl length] in *; [simpl; lia|].
  assert (wc_char (Wc l w c inw) x = Wc (if x =? NL then l + 1 else l)
    (if wc_space x then w else if inw then w else w + 1) (c + 1) (negb (wc_space x))) as ->.
  { unfold wc_char. cbn [wc_l wc_w wc_c wc_inword]. rewrite !s32_id by lia. by destruct (wc_space x), inw. }
  cbn [words cnt]. destruct (x =? NL), (wc_space x), inw; cbn [negb].
  all: match goal with |- context [foldl _ (Wc ?l ?w ?c ?i) _] => destruct (IH l w c i) as (? & ? & ?); [lia..|]; cbn zeta; lia end.
Qed.

Lemma wc_loop_fold fuel avail i input st : (length input < fuel)%nat → wc_loop fuel avail i input st = Some (foldl wc_char st input).
Proof.
  revert i input st. induction fuel as [|fuel IH]; intros i input st Hf; [lia|]. cbn [wc_loop].
  destruct (read_some_prefix 512 (avail i) input) as [E|(r & E & Hne & Hin & Hlen)].
  - rewrite E. unfold read_some in E. destruct input as [|x input]; [done|]. by destruct (Z.to_nat 512) eqn:E5 in E.
  - rewrite E. destruct r as [|x r]; [done|]. rewrite IH by lia. f_equal. rewrite Hin at 2. by rewrite foldl_app.
Qed.

(** [wc] counts the newlines, words and bytes of its input, however the
    reads divide it. *)
Theorem wc_counts_input avail input :
  Z.of_nat (length input) < 2 ^ 31 →
  ∃ st, wc avail input = Some st ∧ wc_l st = cnt (λ x, x =? NL) input ∧ wc_w st = words false input ∧
    wc_c st = Z.of_nat (length input).
Proof.
  intros Hl. unfold wc. rewrite wc_loop_fold by lia. eexists. split; [done|].
  destruct (wc_fold input 0 0 0 false) as (-> & -> & ->); lia.
Qed.

(** ** Examples *)

(** The pattern [a.*c$]. *)
Definition ex_re : list Z := [97; 46; 42; 99; 36].
(** The lines [abc], [xyz] and an incomplete line. *)
Definition ex_text : list Z := [97; 98; 99; NL; 120; 121; 122; NL; 97; 99].

Lemma grep_prints_matching_witness : grep ex_re (λ _, Z.to_nat GREPBUF) ex_text = Some [97; 98; 99; NL].
Proof.
  rewrite (grep_prints_matching ex_re (λ _, Z.to_nat GREPBUF) ex_text); [vm_compute; reflexivity|vm_compute; set_solver|done|].
  repeat constructor.
Defined.

Lemma wc_counts_input_witness : ∃ st, wc (λ _, O) ex_text = Some st ∧ wc_w st = 3.
Proof.
  destruct (wc_counts_input (λ _, O) ex_text) as (st & E & _ & W & _); [vm_compute; reflexivity|]. exists st. split; [exact E|exact W].
Defined.
