(* ===== verification/Sh.v ===== *)
(** The command parser of the shell ([src/sh.c]).

    The parser works on a buffer: [s] is the string up to its NUL, [es] its
    end, and the state is the position that [*ps] points to.  A parsed command
    refers to words by their positions [q] and [eq] in the buffer;
    [nulterminate] ends them there. *)

From S2P Require Import Prelude Grep.
From stdpp Require Import options.

(** ** Commands *)

Definition MAXARGS : Z := 10.
Definition O_RDONLY : Z := 0.
Definition O_WRONLY : Z := 1.
Definition O_RDWR : Z := 2.
Definition O_CREATE : Z := 0x200.

(** [A] is how the command refers to a string. *)
Inductive cmd (A : Type) :=
  | EXEC (argv : list A)
  | REDIR (c : cmd A) (file : A) (mode fd : Z)
  | PIPE (left right : cmd A)
  | LIST (left right : cmd A)
  | BACK (c : cmd A).
Arguments EXEC {A} argv.
Arguments REDIR {A} c file mode fd.
Arguments PIPE {A} left right.
Arguments LIST {A} left right.
Arguments BACK {A} c.

Fixpoint cmd_map {A B} (f : A → B) (c : cmd A) : cmd B :=
  match c with
  | EXEC argv => EXEC (f <$> argv)
  | REDIR c file mode fd => REDIR (cmd_map f c) (f file) mode fd
  | PIPE l r => PIPE (cmd_map f l) (cmd_map f r)
  | LIST l r => LIST (cmd_map f l) (cmd_map f r)
  | BACK c => BACK (cmd_map f c)
  end.

(** The redirections around a command, innermost first. *)
Definition redir (A : Type) : Type := A * Z * Z.
Definition wrap {A} (c : cmd A) (rs : list (redir A)) : cmd A :=
  foldl (λ c r, REDIR c r.1.1 r.1.2 r.2) c rs.

(** ** Parsing *)

Definition whitespace : list Z := [32; 9; 13; 10; 11].
Definition symbols : list Z := [60; 124; 62; 38; 59; 40; 41].
Definition is_in (cs : list Z) (c : Z) : bool := bool_decide (is_Some (strchr cs c)).
Definition is_ws : Z → bool := is_in whitespace.
Definition is_word (c : Z) : bool := negb (is_ws c) && negb (is_in symbols c).

(** Number of leading elements that satisfy [f]. *)
Fixpoint span_len (f : Z → bool) (l : list Z) : nat :=
  match l with
  | [] => O
  | x :: l => if f x then S (span_len f l) else O
  end.

Section parser.
Variable s : list Z.

Definition es : nat := length s.
(** [ *i ]; the NUL is at [es]. *)
Definition ch (i : nat) : Z := default 0 (s !! i).
(** [while(s < es && f( *s)) s++;] *)
Definition scan (f : Z → bool) (i : nat) : nat := (i + span_len f (drop i s))%nat.

Definition gettoken : M nat (Z * (nat * nat)) :=
  p <- get ;;
  let q := scan is_ws p in
  let '(r, eq) :=
    if ch q =? 0 then (0, q)
    else if is_in [124; 40; 41; 59; 38; 60] (ch q) then (ch q, S q)
    else if ch q =? 62 then (if ch (S q) =? 62 then (43, S (S q)) else (62, S q))
    else (97, scan is_word q) in
  modify (λ _, scan is_ws eq) ;;
  ret (r, (q, eq)).

Definition peek (toks : list Z) : M nat bool :=
  p <- get ;;
  let q := scan is_ws p in
  modify (λ _, q) ;;
  ret (negb (ch q =? 0) && is_in toks (ch q)).

(** The [switch] of [parseredirs]. *)
Definition add_redir {A} (tok : Z) (w : A) (rs : list (redir A)) : list (redir A) :=
  if tok =? 60 then rs ++ [(w, O_RDONLY, 0)]
  else if tok =? 62 then rs ++ [(w, Z.lor O_WRONLY O_CREATE, 1)]
  else if tok =? 43 then rs ++ [(w, Z.lor O_WRONLY O_CREATE, 1)]
  else rs.

(** [rs] are the redirections put around the command so far. *)
Fixpoint parseredirs (fuel : nat) (rs : list (redir (nat * nat))) : M nat (list (redir (nat * nat))) :=
  match fuel with
  | O => nofuel
  | S fuel =>
      b <- peek [60; 62] ;;
      if negb b then ret rs else
      t <- gettoken ;;
      u <- gettoken ;;
      if negb (u.1 =? 97) then panic "missing file for redirection" else
      parseredirs fuel (add_redir t.1 u.2 rs)
  end.

(** The loop of [parseexec]: the [EXEC] node that [argv] is stored in is
    inside the redirections [rs]. *)
Fixpoint parseargs (fuel : nat) (argv : list (nat * nat)) (rs : list (redir (nat * nat))) :
    M nat (list (nat * nat) * list (redir (nat * nat))) :=
  match fuel with
  | O => nofuel
  | S fuel =>
      b <- peek [124; 41; 38; 59] ;;
      if b then ret (argv, rs) else
      t <- gettoken ;;
      if t.1 =? 0 then ret (argv, rs) else
      if negb (t.1 =? 97) then panic "syntax" else
      let argv := argv ++ [t.2] in
      if MAXARGS <=? Z.of_nat (length argv) then panic "too many args" else
      rs <- parseredirs fuel rs ;;
      parseargs fuel argv rs
  end.

(** [while(peek(ps, es, "&")){ gettoken(...); cmd = backcmd(cmd); }] *)
Fixpoint parseback (fuel : nat) (c : cmd (nat * nat)) : M nat (cmd (nat * nat)) :=
  match fuel with
  | O => nofuel
  | S fuel =>
      b <- peek [38] ;;
      if b then gettoken ;; parseback fuel (BACK c) else ret c
  end.

Fixpoint parseline (fuel : nat) : M nat (cmd (nat * nat)) :=
  match fuel with
  | O => nofuel
  | S fuel =>
      c <- parsepipe fuel ;;
      c <- parseback fuel c ;;
      b <- peek [59] ;;
      if b then gettoken ;; r <- parseline fuel ;; ret (LIST c r) else ret c
  end
with parsepipe (fuel : nat) : M nat (cmd (nat * nat)) :=
  match fuel with
  | O => nofuel
  | S fuel =>
      c <- parseexec fuel ;;
      b <- peek [124] ;;
      if b then gettoken ;; r <- parsepipe fuel ;; ret (PIPE c r) else ret c
  end
with parseblock (fuel : nat) : M nat (cmd (nat * nat)) :=
  match fuel with
  | O => nofuel
  | S fuel =>
      b <- peek [40] ;;
      if negb b then panic "parseblock" else
      gettoken ;;
      c <- parseline fuel ;;
      b <- peek [41] ;;
      if negb b then panic "syntax - missing )" else
      gettoken ;;
      rs <- parseredirs fuel [] ;;
      ret (wrap c rs)
  end
with parseexec (fuel : nat) : M nat (cmd (nat * nat)) :=
  match fuel with
  | O => nofuel
  | S fuel =>
      b <- peek [40] ;;
      if b then parseblock fuel else
      rs <- parseredirs fuel [] ;;
      r <- parseargs fuel [] rs ;;
      ret (wrap (EXEC r.1) r.2)
  end.

(** Up to the call of [nulterminate]. *)
Definition parsecmd : M nat (cmd (nat * nat)) :=
  c <- parseline (4 * S es) ;;
  peek [] ;;
  p <- get ;;
  if negb (p =? es)%nat then panic "syntax" else ret c.
End parser.

(** The buffer [buf] after [nulterminate(cmd)]. *)
Fixpoint nulterminate (c : cmd (nat * nat)) (buf : list Z) : list Z :=
  match c with
  | EXEC argv => foldl (λ buf w, <[w.2 := 0]> buf) buf argv
  | REDIR c file _ _ => <[file.2 := 0]> (nulterminate c buf)
  | PIPE l r | LIST l r => nulterminate r (nulterminate l buf)
  | BACK c => nulterminate c buf
  end.

(** The C string at [q]. *)
Definition cstring (buf : list Z) (q : nat) : list Z := take (span_len (λ c, negb (c =? 0)) (drop q buf)) (drop q buf).

(** What [runcmd] gets for the line [s]. *)
Definition sh_parse (s : list Z) : option (cmd (list Z)) :=
  match parsecmd s O with
  | Ok c _ => Some (cmd_map (λ w, cstring (nulterminate c (s ++ [0])) w.1) c)
  | _ => None
  end.

(** ** The language of commands *)

Inductive tok := TWord (w : list Z) | TSym (c : Z).
#[global] Instance tok_eq : EqDecision tok.
Proof. solve_decision. Defined.

(** The next token of a text; [>>] is the symbol [+]. *)
Definition lex1 (l : list Z) : option (tok * list Z) :=
  let l := drop (span_len is_ws l) l in
  match l with
  | [] => None
  | c :: l' =>
      if c =? 62 then
        match l' with
        | d :: l'' => if d =? 62 then Some (TSym 43, l'') else Some (TSym 62, l')
        | [] => Some (TSym 62, l')
        end
      else if is_in symbols c then Some (TSym c, l')
      else Some (TWord (take (span_len is_word l) l), drop (span_len is_word l) l)
  end.

Inductive lexes : list Z → list tok → Prop :=
  | lexes_nil l : lex1 l = None → lexes l []
  | lexes_cons l t l' ts : lex1 l = Some (t, l') → lexes l' ts → lexes l (t :: ts).

(** Redirections. *)
Inductive gredirs : list tok → list (redir (list Z)) → Prop :=
  | gr_nil : gredirs [] []
  | gr_in f ts rs : gredirs ts rs → gredirs (TSym 60 :: TWord f :: ts) ((f, O_RDONLY, 0) :: rs)
  | gr_out c f ts rs :
      c = 62 ∨ c = 43 → gredirs ts rs → gredirs (TSym c :: TWord f :: ts) ((f, Z.lor O_WRONLY O_CREATE, 1) :: rs).

(** Arguments, with redirections after each. *)
Inductive gargs : list tok → list (list Z) → list (redir (list Z)) → Prop :=
  | ga_nil : gargs [] [] []
  | ga_word w t1 rs1 t2 argv rs2 :
      gredirs t1 rs1 → gargs t2 argv rs2 → gargs (TWord w :: t1 ++ t2) (w :: argv) (rs1 ++ rs2).

Definition backs {A} (k : nat) (c : cmd A) : cmd A := Nat.iter k BACK c.

Inductive gline : list tok → cmd (list Z) → Prop :=
  | gl_end t c k : gpipe t c → gline (t ++ replicate k (TSym 38)) (backs k c)
  | gl_list t c k t2 r : gpipe t c → gline t2 r → gline (t ++ replicate k (TSym 38) ++ TSym 59 :: t2) (LIST (backs k c) r)
with gpipe : list tok → cmd (list Z) → Prop :=
  | gp_exec t c : gexec t c → gpipe t c
  | gp_pipe t1 t2 l r : gexec t1 l → gpipe t2 r → gpipe (t1 ++ TSym 124 :: t2) (PIPE l r)
with gexec : list tok → cmd (list Z) → Prop :=
  | ge_exec t1 rs1 t2 argv rs2 :
      gredirs t1 rs1 → gargs t2 argv rs2 → Z.of_nat (length argv) < MAXARGS →
      gexec (t1 ++ t2) (wrap (EXEC argv) (rs1 ++ rs2))
  | ge_block t1 c t2 rs : gline t1 c → gredirs t2 rs → gexec (TSym 40 :: t1 ++ TSym 41 :: t2) (wrap c rs).

(** ** Tokens *)

Lemma span_len_le f l : (span_len f l ≤ length l)%nat.
Proof. induction l as [|x l IH]; simpl; [lia|]. destruct (f x); lia. Qed.
Lemma span_len_stop f l : span_len f (drop (span_len f l) l) = O.
Proof. induction l as [|x l IH]; simpl; [done|]. destruct (f x) eqn:E; [done|]. simpl. by rewrite E. Qed.
Lemma span_len_head f l x : head (drop (span_len f l) l) = Some x → f x = false.
Proof. induction l as [|y l IH]; simpl; [done|]. destruct (f y) eqn:E; [done|]. by intros [= <-]. Qed.
Lemma span_len_all f l : Forall (λ x, f x = true) (take (span_len f l) l).
Proof. induction l as [|y l IH]; simpl; [done|]. destruct (f y) eqn:E; simpl; constructor; done. Qed.

Lemma is_in_spec cs c : 0 ∉ cs → is_in cs c = true ↔ c ∈ cs.
Proof.
  unfold is_in. rewrite bool_decide_eq_true. induction cs as [|x cs IH]; simpl; [intros _; split; [by intros []|by intros ?%not_elem_of_nil]|].
  intros [Hx Hcs]%not_elem_of_cons. destruct (Z.eqb_spec x 0); [congruence|]. rewrite elem_of_cons.
  destruct (Z.eqb_spec x c) as [->|Hne]; [split; [by left|by eexists]|]. rewrite fmap_is_Some, IH by done. naive_solver.
Qed.

Lemma lex1_ws l : lex1 (drop (span_len is_ws l) l) = lex1 l.
Proof. unfold lex1. rewrite span_len_stop. done. Qed.

Lemma lexes_ws l ts : lexes (drop (span_len is_ws l) l) ts ↔ lexes l ts.
Proof.
  split; intros H; inversion H; subst; econstructor; try done; by rewrite ?lex1_ws in *.
Qed.

Lemma lex1_shorter l t l' : lex1 l = Some (t, l') → (length l' < length l)%nat.
Proof.
  unfold lex1. pose proof (span_len_le is_ws l) as Hle. pose proof (length_drop l (span_len is_ws l)) as Hd.
  destruct (drop (span_len is_ws l) l) as [|c m] eqn:E; [done|]. simpl in Hd. destruct (c =? 62).
  - destruct m as [|d m]; [intros [= <- <-]; simpl in *; lia|]. destruct (d =? 62); intros [= <- <-]; simpl in *; lia.
  - destruct (is_in symbols c) eqn:Es; [intros [= <- <-]; lia|]. intros [= <- <-]. rewrite length_drop.
    assert (is_ws c = false) as Hc by (apply (span_len_head is_ws l); by rewrite E).
    assert (is_word c = true) as Hw by (unfold is_word; by rewrite Hc, Es). cbn [span_len length]. rewrite Hw. lia.
Qed.

Lemma lexes_total l : ∃ ts, lexes l ts ∧ (length ts ≤ length l)%nat.
Proof.
  induction l as [l IH] using (well_founded_induction (well_founded_ltof _ (@length Z))).
  destruct (lex1 l) as [[t l']|] eqn:E; [|exists []; split; [by constructor|simpl; lia]].
  pose proof (lex1_shorter l t l' E). destruct (IH l') as (ts & Hts & Hl); [done|]. exists (t :: ts). split; [by econstructor|simpl; lia].
Qed.

Lemma lexes_fun l ts ts' : lexes l ts → lexes l ts' → ts = ts'.
Proof.
  intros H. revert ts'. induction H as [|l t l' ts E _ IH]; intros ts' H'; inversion H'; subst; try congruence.
  rewrite E in *. simplify_eq. f_equal. by apply IH.
Qed.

(** The number [gettoken] returns for a token. *)
Definition code (t : tok) : Z := match t with TWord _ => 97 | TSym c => c end.

Section tokens.
Variable s : list Z.
Hypothesis Hs : 0 ∉ s.

Definition at_toks (p : nat) (ts : list tok) : Prop := (p ≤ length s)%nat ∧ lexes (drop p s) ts.
(** The text of a word, and the positions that bound one. *)
Definition text (w : nat * nat) : list Z := take (w.2 - w.1) (drop w.1 s).
Definition word_ok (w : nat * nat) : Prop :=
  (w.1 ≤ w.2 ≤ length s)%nat ∧ Forall (λ c, is_word c = true) (text w) ∧ (w.2 = length s ∨ is_word (ch s w.2) = false).

Lemma ch_head p : ch s p = default 0 (head (drop p s)).
Proof. unfold ch. rewrite head_lookup, lookup_drop. by rewrite Nat.add_0_r. Qed.
Lemma scan_drop f p : drop (scan s f p) s = drop (span_len f (drop p s)) (drop p s).
Proof. unfold scan. by rewrite drop_drop. Qed.
Lemma scan_le f p : (p ≤ scan s f p)%nat ∧ ((p ≤ length s)%nat → (scan s f p ≤ length s)%nat).
Proof. unfold scan. pose proof (span_len_le f (drop p s)) as H. rewrite length_drop in H. lia. Qed.
Lemma at_scan p ts : at_toks (scan s is_ws p) ts ↔ at_toks p ts.
Proof. unfold at_toks. rewrite scan_drop, lexes_ws. destruct (scan_le is_ws p). naive_solver lia. Qed.
Lemma ch_zero p : ch s p = 0 → drop p s = [].
Proof using Hs.
  rewrite ch_head. destruct (drop p s) as [|x l] eqn:E; [done|]. simpl. intros ->. destruct Hs.
  apply (list_elem_of_lookup_2 _ p). by rewrite <-(Nat.add_0_r p), <-lookup_drop, E.
Qed.

(** [gettoken] at a token and at the end. *)
Lemma gettoken_cons p t ts :
  at_toks p (t :: ts) →
  wp (gettoken s) (λ r p', r.1 = code t ∧ at_toks p' ts ∧ (∀ w, t = TWord w → text r.2 = w ∧ word_ok r.2)) p.
Proof using Hs.
  intros [Hple H]. inversion H as [|? ? l' ? El Hl']; subst. unfold gettoken. apply wp_bind, wp_get. set (q := scan s is_ws p).
  pose proof (proj2 (scan_le is_ws p) Hple) as Hqle. fold q in Hqle. pose proof (length_drop s q) as Hdl.
  pose proof (ch_head q) as Hq. pose proof (ch_head (S q)) as Hq1. pose proof (ch_zero q) as Hz.
  assert (drop (S q) s = tail (drop q s)) as Htl by (rewrite <-Nat.add_1_r, <-drop_drop; by destruct (drop q s)).
  assert (drop (S (S q)) s = tail (tail (drop q s))) as Htl2.
  { rewrite <-Htl, <-(Nat.add_1_r (S q)), <-drop_drop. by destruct (drop (S q) s). }
  unfold lex1 in El. rewrite <-scan_drop in El. fold q in El.
  pose proof (span_len_head is_ws (drop p s)) as Hws. rewrite <-scan_drop in Hws. fold q in Hws.
  destruct (drop q s) as [|c m] eqn:Ed; [done|]. cbn [head from_option tail id length] in *. specialize (Hws c eq_refl).
  destruct (Z.eqb_spec (ch s q) 0) as [E0|_]; [by specialize (Hz E0)|]. rewrite Hq in *.
  destruct (Z.eqb_spec c 62) as [->|Hc].
  - change (is_in [124; 40; 41; 59; 38; 60] 62) with false. cbn match. rewrite Hq1, Htl.
    destruct m as [|d m].
    + injection El as <- <-. apply wp_bind, wp_modify, wp_ret. split_and!; [done|rewrite at_scan; split; [lia|by rewrite Htl]|done].
    + cbn [head from_option id]. destruct (d =? 62); injection El as <- <-; apply wp_bind, wp_modify, wp_ret;
        (split_and!; [done|rewrite at_scan; split; [simpl in *; lia|by rewrite ?Htl, ?Htl2]|done]).
  - assert (is_in [124; 40; 41; 59; 38; 60] c = is_in symbols c) as ->.
    { apply eq_true_iff_eq. rewrite !is_in_spec by (unfold symbols; set_solver). unfold symbols. rewrite !elem_of_cons. naive_solver. }
    destruct (is_in symbols c) eqn:Es.
    + injection El as <- <-. apply wp_bind, wp_modify, wp_ret. split_and!; [done|rewrite at_scan; split; [lia|by rewrite Htl]|done].
    + apply wp_bind, wp_modify, wp_ret. injection El as <- <-. cbn [fst snd code]. split_and!; [done| |].
      * rewrite at_scan. split; [by apply scan_le|]. by rewrite scan_drop, Ed.
      * intros w [= <-]. unfold text, word_ok. cbn [fst snd]. rewrite Ed. unfold scan at 1 3. rewrite Ed.
        replace (q + span_len is_word (c :: m) - q)%nat with (span_len is_word (c :: m)) by lia. split; [done|].
        pose proof (span_len_le is_word (c :: m)) as Hle. pose proof (length_drop s q) as Hlen. rewrite Ed in Hlen.
        cbn [length] in Hle, Hlen. split_and!; [unfold scan; lia|unfold scan; rewrite ?Ed; lia|unfold text; cbn [fst snd]; rewrite ?Ed; unfold scan; rewrite ?Ed|].
        { replace (q + span_len is_word (c :: m) - q)%nat with (span_len is_word (c :: m)) by lia. apply span_len_all. }
        destruct (drop (span_len is_word (c :: m)) (c :: m)) as [|x r] eqn:Er.
        { left. apply (f_equal length) in Er. rewrite length_drop in Er. simpl in Er, Hlen, Hle |- *. unfold scan. rewrite Ed. simpl. lia. }
        { right. rewrite ch_head, scan_drop, Ed, Er. simpl. apply (span_len_head is_word (c :: m)). by rewrite Er. }
Qed.

Lemma at_end p : at_toks p [] → drop (scan s is_ws p) s = [].
Proof.
  intros [_ H]. inversion H as [? El|]; subst. rewrite scan_drop. unfold lex1 in El.
  destruct (drop (span_len is_ws (drop p s)) (drop p s)) as [|c l]; [done|]. repeat case_match; done.
Qed.

Lemma gettoken_nil p : at_toks p [] → wp (gettoken s) (λ r p', r.1 = 0 ∧ at_toks p' []) p.
Proof.
  intros [Hple H]. inversion H as [? El|]; subst. unfold gettoken. apply wp_bind, wp_get. set (q := scan s is_ws p).
  pose proof (at_end p (conj Hple H) : drop q s = []) as Hq.
  rewrite ch_head, Hq. cbn. split; [done|]. rewrite at_scan. split; [by apply scan_le|]. rewrite Hq. by constructor.
Qed.

(** What [peek] sees. *)
Definition peeks (cs : list Z) (ts : list tok) : bool :=
  match ts with TSym c :: _ => is_in cs (if c =? 43 then 62 else c) | _ => false end.

Lemma peek_spec cs p ts :
  (∀ c, is_in cs c = true → is_in symbols c = true) → at_toks p ts →
  wp (peek s cs) (λ b p', b = peeks cs ts ∧ at_toks p' ts) p.
Proof using Hs.
  intros Hcs Hat. unfold peek. apply wp_bind, wp_get, wp_bind, wp_modify, wp_ret. rewrite at_scan. split; [|done]. destruct Hat as [_ H].
  set (q := scan s is_ws p). pose proof (ch_head q) as Hq.
  assert (lex1 (drop p s) = lex1 (drop q s)) as E by (unfold q; by rewrite scan_drop, lex1_ws).
  assert (span_len is_ws (drop q s) = O) as E0 by (unfold q; rewrite scan_drop; apply span_len_stop).
  inversion H as [? El|? t l' ts' El Hl']; subst; rewrite E in El; unfold lex1 in El; rewrite E0, drop_0 in El.
  - destruct (drop q s) as [|c m] eqn:Ed; [by rewrite Hq|]. repeat case_match; done.
  - destruct (Z.eqb_spec (ch s q) 0) as [Ez|Hz]; [by rewrite (ch_zero q Ez) in El|].
    destruct (drop q s) as [|c m] eqn:Ed; [done|]. cbn [head from_option negb andb id] in *. rewrite Hq. destruct (Z.eqb_spec c 62) as [->|Hc].
    + destruct m as [|d m]; [by injection El as <- <-|]. destruct (d =? 62); by injection El as <- <-.
    + destruct (is_in symbols c) eqn:Es.
      * injection El as <- <-. simpl. destruct (Z.eqb_spec c 43) as [->|]; [done|done].
      * injection El as <- <-. simpl. apply not_true_is_false. intros Hin. apply Hcs in Hin. congruence.
Qed.

Lemma peek_end cs p : at_toks p [] → wp (peek s cs) (λ _ p', p' = length s) p.
Proof.
  intros Hat. pose proof (at_end p Hat) as E. destruct Hat as [Hp _]. unfold peek. apply wp_bind, wp_get, wp_bind, wp_modify, wp_ret.
  apply (f_equal length) in E. rewrite length_drop in E. simpl in E. destruct (scan_le is_ws p) as [_ H]. specialize (H Hp). lia.
Qed.

Lemma at_sym p c ts : at_toks p (TSym c :: ts) → c = 43 ∨ is_in symbols c = true.
Proof.
  intros [_ H]. inversion H as [|? ? l' ? El _]; subst. unfold lex1 in El. destruct (drop _ (drop p s)) as [|d m]; [done|].
  destruct (d =? 62); [destruct m as [|e m]; [|destruct (e =? 62)]|destruct (is_in symbols d) eqn:E]; simplify_eq; auto.
Qed.
End tokens.

(** The words of a command. *)
Fixpoint cmd_words {A} (c : cmd A) : list A :=
  match c with
  | EXEC argv => argv
  | REDIR c file _ _ => cmd_words c ++ [file]
  | PIPE l r | LIST l r => cmd_words l ++ cmd_words r
  | BACK c => cmd_words c
  end.

Definition redir_map {A B} (f : A → B) (r : redir A) : redir B := (f r.1.1, r.1.2, r.2).

Lemma cmd_map_wrap {A B} (f : A → B) c rs : cmd_map f (wrap c rs) = wrap (cmd_map f c) (redir_map f <$> rs).
Proof. revert c. induction rs as [|r rs IH]; intros c; [done|]. apply IH. Qed.
Lemma cmd_map_backs {A B} (f : A → B) k c : cmd_map f (backs k c) = backs k (cmd_map f c).
Proof. induction k as [|k IH]; [done|]. simpl. by f_equal. Qed.
Lemma cmd_words_wrap {A} (c : cmd A) rs : cmd_words (wrap c rs) = cmd_words c ++ ((λ r, r.1.1) <$> rs).
Proof. revert c. induction rs as [|r rs IH]; intros c; simpl; [by rewrite app_nil_r|]. unfold wrap in *. simpl. rewrite IH. simpl. by rewrite <-app_assoc. Qed.
Lemma cmd_words_backs {A} k (c : cmd A) : cmd_words (backs k c) = cmd_words c.
Proof. by induction k. Qed.

Lemma add_redir_spec {A} c (w : A) (f : list Z) rs :
  c = 60 ∨ c = 62 ∨ c = 43 →
  ∃ m o, add_redir c w rs = rs ++ [(w, m, o)] ∧ ∀ ts rs, gredirs ts rs → gredirs (TSym c :: TWord f :: ts) ((f, m, o) :: rs).
Proof.
  intros [->|Hc]; [exists O_RDONLY, 0; split; [done|by constructor]|].
  exists (Z.lor O_WRONLY O_CREATE), 1. split; [by destruct Hc as [-> | ->]|]. intros ts rs' Hr. by constructor.
Qed.

(** Returns with [Q], or reports a syntax error. *)
Definition wpp {A} (m : M nat A) (Q : A → nat → Prop) (p : nat) : Prop :=
  match m p with Ok a p' => Q a p' | Panic _ => True | _ => False end.

Lemma wpp_bind {A B} (m : M nat A) (k : A → M nat B) Q p : wpp m (λ a, wpp (k a) Q) p → wpp (bind m k) Q p.
Proof. unfold wpp, bind. by destruct (m p). Qed.
Lemma wpp_mono {A} (m : M nat A) (Q Q' : A → nat → Prop) p : wpp m Q p → (∀ a p', Q a p' → Q' a p') → wpp m Q' p.
Proof. unfold wpp. destruct (m p); naive_solver. Qed.
Lemma wpp_wp {A} (m : M nat A) (Q Q' : A → nat → Prop) p : wp m Q p → (∀ a p', Q a p' → Q' a p') → wpp m Q' p.
Proof. unfold wp, wpp. destruct (m p); naive_solver. Qed.

(** The token that a successful [peek] for one symbol saw. *)
Lemma peeks_one c ts : peeks [c] ts = true → c ≠ 62 → c ≠ 0 → ∃ ts', ts = TSym c :: ts'.
Proof.
  intros H Hc H0. destruct ts as [|[w|d] ts]; [done..|]. simpl in H. apply is_in_spec in H; [|set_solver]. apply list_elem_of_singleton in H.
  destruct (Z.eqb_spec d 43); [congruence|]. subst. eauto.
Qed.

(** ** What the parser accepts is in the language *)

Section sound.
Variable s : list Z.
Hypothesis Hs : 0 ∉ s.
Abbreviation at_toks := (at_toks s).
Abbreviation text := (text s).
Abbreviation word_ok := (word_ok s).
Abbreviation rtext := (redir_map text).

Lemma sub_symbols cs : Forall (λ c, is_in symbols c = true) cs → 0 ∉ cs → ∀ c, is_in cs c = true → is_in symbols c = true.
Proof. intros Hf H0 c Hc%is_in_spec; [|done]. rewrite Forall_forall in Hf. by apply Hf. Qed.

Ltac peek_at H :=
  apply wpp_bind; eapply wpp_wp; [eapply (peek_spec _ ltac:(eassumption)); [apply sub_symbols; [repeat constructor|set_solver]|exact H]|];
  clear H; let q := fresh "q" in intros ? q [-> H].

Lemma redirs_sound n rs p ts :
  at_toks p ts → (length ts < n)%nat →
  wpp (parseredirs s n rs) (λ rs' p', ∃ t1 t2 rs1, ts = t1 ++ t2 ∧ rs' = rs ++ rs1 ∧ at_toks p' t2 ∧ gredirs t1 (rtext <$> rs1) ∧
    Forall (λ r, word_ok r.1.1) rs1) p.
Proof using Hs.
  revert rs p ts. induction n as [|n IH]; intros rs p ts Hp Hn; [lia|]. simpl. peek_at Hp.
  destruct (peeks [60; 62] ts) eqn:Epk.
  2: { exists [], ts, []. rewrite app_nil_r. split_and!; try done; constructor. }
  destruct ts as [|[w|c] ts]; [done..|]. simpl in Epk, Hn. simpl.
  apply wpp_bind. eapply wpp_wp; [by apply (gettoken_cons s Hs _ _ _ Hp)|]. intros [c' w] p1 (Ec & Hp1 & _). cbn [fst snd code] in *. subst c'.
  apply wpp_bind. destruct ts as [|t ts].
  { eapply wpp_wp; [by apply (gettoken_nil s _ Hp1)|]. intros [d w'] p2 [Ed _]. simpl in *. by subst. }
  eapply wpp_wp; [by apply (gettoken_cons s Hs _ _ _ Hp1)|]. intros [d w'] p2 (Ed & Hp2 & Hw). simpl in *. subst d. destruct t as [f|d].
  2: { apply at_sym in Hp1. simpl. destruct (Z.eqb_spec d 97) as [->|]; [|done]. by destruct Hp1. }
  destruct (Hw f eq_refl) as [Hf Hok]. simpl.
  assert (c = 60 ∨ c = 62 ∨ c = 43) as Hc.
  { destruct (Z.eqb_spec c 43); [auto|]. apply is_in_spec in Epk; [|set_solver]. set_solver. }
  destruct (add_redir_spec c w' f rs Hc) as (m & o & -> & Hg).
  eapply wpp_mono; [apply (IH _ p2 ts Hp2); lia|]. intros rs' p3 (t1 & t2 & rs1 & -> & -> & Hp' & Hgr & Hall).
  exists (TSym c :: TWord f :: t1), t2, ((w', m, o) :: rs1). split_and!; try done.
  - by rewrite <-app_assoc.
  - simpl. unfold redir_map at 1. simpl. rewrite Hf. by apply Hg.
  - by constructor.
Qed.

Lemma args_sound n argv rs p ts :
  at_toks p ts → (length ts < n)%nat → Z.of_nat (length argv) < MAXARGS →
  wpp (parseargs s n argv rs) (λ r p', ∃ t1 t2 argv1 rs1, ts = t1 ++ t2 ∧ r = (argv ++ argv1, rs ++ rs1) ∧ at_toks p' t2 ∧
    gargs t1 (text <$> argv1) (rtext <$> rs1) ∧ Forall word_ok argv1 ∧ Forall (λ r, word_ok r.1.1) rs1 ∧
    Z.of_nat (length (argv ++ argv1)) < MAXARGS) p.
Proof using Hs.
  revert argv rs p ts. induction n as [|n IH]; intros argv rs p ts Hp Hn Hl; [lia|]. simpl. peek_at Hp.
  assert (∀ p1, at_toks p1 ts → ∃ t1 t2 argv1 rs1, ts = t1 ++ t2 ∧ (argv, rs) = (argv ++ argv1, rs ++ rs1) ∧ at_toks p1 t2 ∧
    gargs t1 (text <$> argv1) (rtext <$> rs1) ∧ Forall word_ok argv1 ∧ Forall (λ r, word_ok r.1.1) rs1 ∧
    Z.of_nat (length (argv ++ argv1)) < MAXARGS) as Hstop.
  { intros p1 Hp1. exists [], ts, [], []. rewrite !app_nil_r. split_and!; try done; constructor. }
  destruct (peeks [124; 41; 38; 59] ts) eqn:Epk; [by apply Hstop|]. apply wpp_bind. destruct ts as [|t ts].
  { eapply wpp_wp; [by apply (gettoken_nil s _ Hp)|]. intros [d w'] p2 [Ed Hp2]. simpl in *. subst d. by apply Hstop. }
  eapply wpp_wp; [by apply (gettoken_cons s Hs _ _ _ Hp)|]. intros [d w] p2 (Ed & Hp2 & Hw). simpl in Ed, Hn. subst d. cbn [fst snd].
  destruct t as [f|d].
  2: { apply at_sym in Hp. simpl. destruct (Z.eqb_spec d 0) as [->|]; [by destruct Hp|].
       destruct (Z.eqb_spec d 97) as [->|]; [by destruct Hp|done]. }
  destruct (Hw f eq_refl) as [Hf Hok]. simpl. cbn [snd] in *. destruct (Z.leb_spec MAXARGS (Z.of_nat (length (argv ++ [w])))) as [|Hl']; [done|].
  apply wpp_bind. eapply wpp_mono; [apply (redirs_sound n rs p2 ts Hp2); lia|].
  intros rs' p3 (t1 & t2 & rs1 & -> & -> & Hp3 & Hgr & Hall). rewrite length_app in Hn.
  eapply wpp_mono; [apply (IH _ _ p3 t2 Hp3); [lia|done]|].
  intros r p4 (t3 & t4 & argv1 & rs2 & -> & -> & Hp4 & Hga & Ha1 & Ha2 & Hla).
  exists (TWord f :: t1 ++ t3), t4, (w :: argv1), (rs1 ++ rs2). split_and!; try done.
  - simpl. by rewrite <-app_assoc.
  - by rewrite <-!app_assoc.
  - rewrite fmap_cons, fmap_app, Hf. by constructor.
  - by constructor.
  - by apply Forall_app.
  - by rewrite <-app_assoc in Hla.
Qed.

Lemma back_sound n c p ts :
  at_toks p ts → (length ts < n)%nat →
  wpp (parseback s n c) (λ c' p', ∃ k t2, ts = replicate k (TSym 38) ++ t2 ∧ c' = backs k c ∧ at_toks p' t2) p.
Proof using Hs.
  revert c p ts. induction n as [|n IH]; intros c p ts Hp Hn; [lia|]. simpl. peek_at Hp. destruct (peeks [38] ts) eqn:Epk; [|by exists O, ts].
  destruct ts as [|[w|d] ts]; [done..|]. simpl in Epk, Hn. apply is_in_spec in Epk; [|set_solver]. apply list_elem_of_singleton in Epk.
  assert (d = 38) as -> by (destruct (Z.eqb_spec d 43); congruence).
  apply wpp_bind. eapply wpp_wp; [by apply (gettoken_cons s Hs _ _ _ Hp)|]. intros r p2 (_ & Hp2 & _).
  eapply wpp_mono; [apply (IH _ p2 ts Hp2); lia|]. intros c' p3 (k & t2 & -> & -> & Hp3). exists (S k), t2.
  split_and!; [done| |done]. unfold backs. by rewrite Nat.iter_succ_r.
Qed.

(** The tokens consumed by a parse of [c]. *)
Definition parsed (g : list tok → cmd (list Z) → Prop) (ts : list tok) (c : cmd (nat * nat)) (p' : nat) : Prop :=
  ∃ t1 t2, ts = t1 ++ t2 ∧ at_toks p' t2 ∧ g t1 (cmd_map text c) ∧ Forall word_ok (cmd_words c).

Lemma exec_sound n p ts :
  at_toks p ts → (4 * length ts + 2 ≤ n)%nat →
  (∀ p ts, at_toks p ts → (4 * length ts + 1 ≤ n - 1)%nat → wpp (parseblock s (n - 1)) (parsed gexec ts) p) →
  wpp (parseexec s n) (parsed gexec ts) p.
Proof using Hs.
  intros Hp Hn IH. destruct n as [|n]; [lia|]. simpl in *. rewrite Nat.sub_0_r in IH. peek_at Hp.
  destruct (peeks [40] ts) eqn:Epk; [apply IH; [done|lia]|].
  apply wpp_bind. eapply wpp_mono; [apply (redirs_sound n [] _ ts Hp); lia|].
  intros rs' p3 (t1 & t2 & rs1 & -> & -> & Hp3 & Hgr & Hall). rewrite length_app in Hn. apply wpp_bind.
  eapply wpp_mono; [apply (args_sound n [] _ p3 t2 Hp3); [lia|done]|].
  intros r p4 (t3 & t4 & argv1 & rs2 & -> & -> & Hp4 & Hga & Ha1 & Ha2 & Hla). cbn [fst snd app] in *. exists (t1 ++ t3), t4. split_and!.
  - by rewrite <-app_assoc.
  - done.
  - rewrite cmd_map_wrap, fmap_app. simpl. constructor; [done..|]. by rewrite length_fmap.
  - rewrite cmd_words_wrap, fmap_app, !Forall_app, !Forall_fmap. done.
Qed.

Lemma block_sound n p ts :
  at_toks p ts → (4 * length ts + 1 ≤ n)%nat →
  (∀ p ts, at_toks p ts → (4 * length ts + 4 ≤ n - 1)%nat → wpp (parseline s (n - 1)) (parsed gline ts) p) →
  wpp (parseblock s n) (parsed gexec ts) p.
Proof using Hs.
  intros Hp Hn IH. destruct n as [|n]; [lia|]. simpl in *. rewrite Nat.sub_0_r in IH. peek_at Hp.
  destruct (peeks [40] ts) eqn:Epk; [|done]. apply peeks_one in Epk as [ts' ->]; [|done..]. simpl in Hn.
  apply wpp_bind. eapply wpp_wp; [by apply (gettoken_cons s Hs _ _ _ Hp)|]. intros r p2 (_ & Hp2 & _).
  apply wpp_bind. eapply wpp_mono; [apply (IH _ ts' Hp2); lia|]. intros c p3 (t1 & t2 & -> & Hp3 & Hg & Hw). rewrite length_app in Hn.
  peek_at Hp3. destruct (peeks [41] t2) eqn:Epk; [|done]. apply peeks_one in Epk as [t3 ->]; [|done..]. simpl in Hn. simpl.
  apply wpp_bind. eapply wpp_wp; [by apply (gettoken_cons s Hs _ _ _ Hp3)|]. intros r' p4 (_ & Hp4 & _).
  apply wpp_bind. eapply wpp_mono; [apply (redirs_sound n [] _ t3 Hp4); lia|].
  intros rs' p5 (t4 & t5 & rs1 & -> & -> & Hp5 & Hgr & Hall). exists (TSym 40 :: t1 ++ TSym 41 :: t4), t5. split_and!.
  - simpl. by rewrite <-app_assoc.
  - done.
  - rewrite cmd_map_wrap. by constructor.
  - by rewrite cmd_words_wrap, Forall_app, Forall_fmap.
Qed.

Lemma pipe_sound n p ts :
  at_toks p ts → (4 * length ts + 3 ≤ n)%nat →
  (∀ p ts, at_toks p ts → (4 * length ts + 2 ≤ n - 1)%nat → wpp (parseexec s (n - 1)) (parsed gexec ts) p) →
  (∀ p ts, at_toks p ts → (4 * length ts + 3 ≤ n - 1)%nat → wpp (parsepipe s (n - 1)) (parsed gpipe ts) p) →
  wpp (parsepipe s n) (parsed gpipe ts) p.
Proof using Hs.
  intros Hp Hn IH1 IH2. destruct n as [|n]; [lia|]. simpl in *. rewrite Nat.sub_0_r in *.
  apply wpp_bind. eapply wpp_mono; [apply (IH1 _ ts Hp); lia|]. intros c p1 (t1 & t2 & -> & Hp1 & Hg & Hw). rewrite length_app in Hn.
  peek_at Hp1. destruct (peeks [124] t2) eqn:Epk; [|exists t1, t2; split_and!; try done; by constructor].
  apply peeks_one in Epk as [t3 ->]; [|done..]. simpl in Hn.
  apply wpp_bind. eapply wpp_wp; [by apply (gettoken_cons s Hs _ _ _ Hp1)|]. intros r p2 (_ & Hp2 & _).
  apply wpp_bind. eapply wpp_mono; [apply (IH2 _ t3 Hp2); lia|]. intros c' p3 (t4 & t5 & -> & Hp3 & Hg' & Hw').
  exists (t1 ++ TSym 124 :: t4), t5. split_and!; [by rewrite <-app_assoc|done|by constructor|by apply Forall_app].
Qed.

Lemma line_sound n p ts :
  at_toks p ts → (4 * length ts + 4 ≤ n)%nat →
  (∀ p ts, at_toks p ts → (4 * length ts + 3 ≤ n - 1)%nat → wpp (parsepipe s (n - 1)) (parsed gpipe ts) p) →
  (∀ p ts, at_toks p ts → (4 * length ts + 4 ≤ n - 1)%nat → wpp (parseline s (n - 1)) (parsed gline ts) p) →
  wpp (parseline s n) (parsed gline ts) p.
Proof using Hs.
  intros Hp Hn IH1 IH2. destruct n as [|n]; [lia|]. simpl in *. rewrite Nat.sub_0_r in *.
  apply wpp_bind. eapply wpp_mono; [apply (IH1 _ ts Hp); lia|]. intros c p1 (t1 & t2 & -> & Hp1 & Hg & Hw). rewrite length_app in Hn.
  apply wpp_bind. eapply wpp_mono; [apply (back_sound n c p1 t2 Hp1); lia|]. intros c' p2 (k & t3 & -> & -> & Hp2).
  rewrite length_app in Hn. peek_at Hp2. destruct (peeks [59] t3) eqn:Epk.
  - apply peeks_one in Epk as [t4 ->]; [|done..]. simpl in Hn.
    apply wpp_bind. eapply wpp_wp; [by apply (gettoken_cons s Hs _ _ _ Hp2)|]. intros r p3 (_ & Hp3 & _).
    apply wpp_bind. eapply wpp_mono; [apply (IH2 _ t4 Hp3); lia|]. intros c' p4 (t5 & t6 & -> & Hp4 & Hg' & Hw').
    exists (t1 ++ replicate k (TSym 38) ++ TSym 59 :: t5), t6. split_and!; [by rewrite <-!app_assoc|done| |].
    + simpl. rewrite cmd_map_backs. by constructor.
    + simpl. rewrite cmd_words_backs. by apply Forall_app.
  - exists (t1 ++ replicate k (TSym 38)), t3. split_and!; [by rewrite <-app_assoc|done| |].
    + rewrite cmd_map_backs. by constructor.
    + by rewrite cmd_words_backs.
Qed.

Lemma parse_sound n p ts :
  at_toks p ts →
  ((4 * length ts + 4 ≤ n)%nat → wpp (parseline s n) (parsed gline ts) p) ∧
  ((4 * length ts + 3 ≤ n)%nat → wpp (parsepipe s n) (parsed gpipe ts) p) ∧
  ((4 * length ts + 2 ≤ n)%nat → wpp (parseexec s n) (parsed gexec ts) p) ∧
  ((4 * length ts + 1 ≤ n)%nat → wpp (parseblock s n) (parsed gexec ts) p).
Proof using Hs.
  revert p ts. induction (lt_wf n) as [n _ IH]. intros p ts Hp.
  split_and!; intros Hn; [apply line_sound|apply pipe_sound|apply exec_sound|apply block_sound]; try done.
  all: intros p' ts' Hp' Hn'; destruct (IH (n - 1)%nat ltac:(lia) p' ts' Hp') as (? & ? & ? & ?); auto.
Qed.
End sound.

(** ** What is in the language is accepted *)

Scheme gline_mind := Minimality for gline Sort Prop
  with gpipe_mind := Minimality for gpipe Sort Prop
  with gexec_mind := Minimality for gexec Sort Prop.
Combined Scheme grammar_mind from gline_mind, gpipe_mind, gexec_mind.

(** What may follow. *)
Definition follows (cs : list Z) (ts : list tok) : Prop := ts = [] ∨ ∃ c ts', ts = TSym c :: ts' ∧ c ∈ cs.

Lemma follows_peeks cs cs' ts : follows cs ts → Forall (λ c, is_in cs' c = false ∧ c ≠ 43) cs → peeks cs' ts = false.
Proof.
  intros [->|(c & ts' & -> & Hc)] Hf; [done|]. rewrite Forall_forall in Hf. destruct (Hf c Hc) as [H1 H2]. simpl.
  by destruct (Z.eqb_spec c 43).
Qed.

Lemma follows_mono cs cs' ts : follows cs ts → Forall (λ c, c ∈ cs') cs → follows cs' ts.
Proof. intros [->|(c & ts' & -> & Hc)] Hf; [by left|]. right. rewrite Forall_forall in Hf. eauto. Qed.

Lemma peeks_redirs cs t1 rs t2 :
  gredirs t1 rs → is_in cs 60 = false → is_in cs 62 = false → peeks cs t2 = false → peeks cs (t1 ++ t2) = false.
Proof. intros [|f ts rs' _|c f ts rs' [-> | ->] _] H1 H2 H3; done. Qed.
Lemma peeks_args cs t1 argv rs t2 : gargs t1 argv rs → peeks cs t2 = false → peeks cs (t1 ++ t2) = false.
Proof. by intros []. Qed.

Section complete.
Variable s : list Z.
Hypothesis Hs : 0 ∉ s.
Abbreviation at_toks := (at_toks s).
Abbreviation text := (text s).
Abbreviation rtext := (redir_map text).

Ltac peek_at H :=
  apply wp_bind; eapply wp_mono; [eapply (peek_spec _ ltac:(eassumption)); [apply sub_symbols; [repeat constructor|set_solver]|exact H]|];
  clear H; let q := fresh "q" in intros ? q [-> H].
Ltac token_at H r :=
  apply wp_bind; eapply wp_mono; [by apply (gettoken_cons s Hs _ _ _ H)|];
  let q := fresh "q" in let Hc := fresh "Hc" in let Hw := fresh "Hw" in clear H; intros r q (Hc & H & Hw); cbn [code] in Hc.

Lemma redirs_step c f m o ts rs :
  peeks [60; 62] [TSym c] = true → (∀ (w : nat * nat) rs0, add_redir c w rs0 = rs0 ++ [(w, m, o)]) →
  (∀ n rs0 p t2, at_toks p (ts ++ t2) → peeks [60; 62] t2 = false → (length (ts ++ t2) < n)%nat →
     wp (parseredirs s n rs0) (λ r p', ∃ rs1, r = rs0 ++ rs1 ∧ rtext <$> rs1 = rs ∧ at_toks p' t2) p) →
  ∀ n rs0 p t2, at_toks p ((TSym c :: TWord f :: ts) ++ t2) → peeks [60; 62] t2 = false →
    (length ((TSym c :: TWord f :: ts) ++ t2) < n)%nat →
    wp (parseredirs s n rs0) (λ r p', ∃ rs1, r = rs0 ++ rs1 ∧ rtext <$> rs1 = (f, m, o) :: rs ∧ at_toks p' t2) p.
Proof using Hs.
  intros Hc Hm IH [|n] rs0 p t2 Hp Hf Hn; simpl in Hn; [lia|]. simpl. peek_at Hp. simpl in Hc |- *. rewrite Hc. simpl.
  token_at Hp u. token_at Hp v. rewrite Hc1. simpl. rewrite Hc0, Hm. destruct (Hw0 f eq_refl) as [Hfe _].
  eapply wp_mono; [apply (IH n _ _ t2 Hp Hf); lia|]. intros r p' (rs1 & -> & E & Hp'). exists ((v.2, m, o) :: rs1).
  split_and!; [by rewrite <-app_assoc| |done]. rewrite fmap_cons, E. unfold redir_map. cbn [fst snd]. by rewrite Hfe.
Qed.

Lemma redirs_complete t1 rs :
  gredirs t1 rs → ∀ n rs0 p t2, at_toks p (t1 ++ t2) → peeks [60; 62] t2 = false → (length (t1 ++ t2) < n)%nat →
  wp (parseredirs s n rs0) (λ r p', ∃ rs1, r = rs0 ++ rs1 ∧ rtext <$> rs1 = rs ∧ at_toks p' t2) p.
Proof using Hs.
  induction 1 as [|f ts rs' _ IH|c f ts rs' Hc _ IH].
  - intros [|n] rs0 p t2 Hp Hf Hn; [lia|]. simpl in *. peek_at Hp. rewrite Hf. exists []. by rewrite app_nil_r.
  - apply redirs_step; [done|by intros|done].
  - apply redirs_step; [|intros|done]; by destruct Hc as [-> | ->].
Qed.

Lemma args_complete t1 argv rs :
  gargs t1 argv rs → ∀ n argv0 rs0 p t2, at_toks p (t1 ++ t2) → follows [124; 41; 38; 59] t2 → (length (t1 ++ t2) < n)%nat →
  Z.of_nat (length argv0) + Z.of_nat (length argv) < MAXARGS →
  wp (parseargs s n argv0 rs0) (λ r p', ∃ argv1 rs1, r = (argv0 ++ argv1, rs0 ++ rs1) ∧ text <$> argv1 = argv ∧ rtext <$> rs1 = rs ∧ at_toks p' t2) p.
Proof using Hs.
  induction 1 as [|w t1 rs1 t2 argv rs2 Hr Ha IH]; intros [|n] argv0 rs0 p t Hp Hf Hn Hl; simpl in Hn, Hl; try lia; simpl; peek_at Hp.
  - assert (∀ p, at_toks p t → ∃ argv1 rs1, (argv0, rs0) = (argv0 ++ argv1, rs0 ++ rs1) ∧ text <$> argv1 = [] ∧ rtext <$> rs1 = [] ∧ at_toks p t) as Hstop.
    { intros p1 Hp1. exists [], []. by rewrite !app_nil_r. }
    destruct (peeks _ _) eqn:Epk; [by apply Hstop|]. simpl in Hp. destruct Hf as [->|(c & ts & -> & Hc)].
    + apply wp_bind. eapply wp_mono; [by apply (gettoken_nil s _ Hp)|]. intros [d w] p1 [Ed Hp1]. simpl in *. subst d. by apply Hstop.
    + simpl in Epk. exfalso. destruct (Z.eqb_spec c 43) as [->|]; [set_solver|]. apply not_true_iff_false in Epk. apply Epk, is_in_spec; set_solver.
  - simpl in Hp |- *. token_at Hp u. destruct (Hw w eq_refl) as [Hwt _]. rewrite Hc. simpl.
    destruct (Z.leb_spec MAXARGS (Z.of_nat (length (argv0 ++ [u.2])))) as [Hbig|_]; [rewrite length_app in Hbig; simpl in Hbig; lia|].
    apply wp_bind. rewrite <-app_assoc in Hp, Hn. eapply wp_mono; [apply (redirs_complete t1 rs1 Hr n rs0 _ (t2 ++ t) Hp)|].
    + eapply peeks_args; [done|]. eapply follows_peeks; [done|]. repeat constructor; done.
    + lia.
    + intros r p1 (rs3 & -> & E & Hp1). eapply wp_mono; [apply (IH n _ _ _ _ Hp1 Hf)|].
      * rewrite !length_app in *. lia.
      * rewrite length_app. simpl. lia.
      * intros r p2 (argv1 & rs4 & -> & E1 & E2 & Hp2). exists (u.2 :: argv1), (rs3 ++ rs4).
        split_and!; [by rewrite <-!app_assoc|by rewrite fmap_cons, Hwt, E1|by rewrite fmap_app, E, E2|done].
Qed.

Lemma back_complete k n c p t2 :
  at_toks p (replicate k (TSym 38) ++ t2) → peeks [38] t2 = false → (length (replicate k (TSym 38) ++ t2) < n)%nat →
  wp (parseback s n c) (λ c' p', c' = backs k c ∧ at_toks p' t2) p.
Proof using Hs.
  revert n c p. induction k as [|k IH]; intros [|n] c p Hp Hf Hn; simpl in Hn; try lia; simpl; peek_at Hp.
  - simpl in *. by rewrite Hf.
  - simpl. token_at Hp u. eapply wp_mono; [apply (IH n _ _ Hp Hf); lia|]. intros c' p' [-> Hp']. split; [|done].
    unfold backs. by rewrite <-Nat.iter_succ_r.
Qed.

(** A parser function accepts the texts of [g] that [cs] may follow. *)
Definition accepts (f : nat → M nat (cmd (nat * nat))) (k : nat) (cs : list Z) (t1 : list tok) (c : cmd (list Z)) : Prop :=
  ∀ n p t2, at_toks p (t1 ++ t2) → follows cs t2 → (4 * length (t1 ++ t2) + k ≤ n)%nat →
    wp (f n) (λ c' p', cmd_map text c' = c ∧ at_toks p' t2) p.

Lemma exec_complete t1 rs1 t2 argv rs2 :
  gredirs t1 rs1 → gargs t2 argv rs2 → Z.of_nat (length argv) < MAXARGS →
  accepts (parseexec s) 2 [124; 41; 38; 59] (t1 ++ t2) (wrap (EXEC argv) (rs1 ++ rs2)).
Proof using Hs.
  intros Hr Ha Hl [|n] p t Hp Hf Hn; [lia|]. rewrite <-app_assoc in Hp, Hn. simpl. peek_at Hp.
  assert (∀ cs, peeks cs t = false → peeks cs (t2 ++ t) = false) as Hpa by (intros cs; by eapply peeks_args).
  rewrite (peeks_redirs _ t1 rs1); [|done|done|done|apply Hpa; eapply follows_peeks; [exact Hf|repeat constructor; done]].
  apply wp_bind. eapply wp_mono; [apply (redirs_complete t1 rs1 Hr n [] _ _ Hp); [|lia]|].
  { apply Hpa. eapply follows_peeks; [exact Hf|repeat constructor; done]. }
  intros r p1 (rs3 & -> & E & Hp1). rewrite length_app in Hn. apply wp_bind.
  eapply wp_mono; [apply (args_complete t2 argv rs2 Ha n [] _ _ _ Hp1 Hf); [lia|simpl; lia]|].
  intros r p2 (argv1 & rs4 & -> & E1 & E2 & Hp2). split; [|done]. cbn [fst snd app]. rewrite cmd_map_wrap, fmap_app, E, E2.
  simpl. by rewrite E1.
Qed.

Lemma parse_complete :
  (∀ t c, gline t c → accepts (parseline s) 4 [41] t c) ∧
  (∀ t c, gpipe t c → accepts (parsepipe s) 3 [41; 38; 59] t c) ∧
  (∀ t c, gexec t c → accepts (parseexec s) 2 [124; 41; 38; 59] t c).
Proof using Hs.
  apply grammar_mind.
  - intros t c k _ IH [|n] p t2 Hp Hf Hn; [lia|]. rewrite <-app_assoc in Hp, Hn. simpl. apply wp_bind.
    eapply wp_mono; [apply (IH n p _ Hp); [|lia]|].
    { destruct k as [|k]; [by eapply follows_mono; [exact Hf|repeat constructor; set_solver]|right; simpl; eexists _, _; split; [done|set_solver]]. }
    intros c1 p1 [E1 Hp1]. rewrite length_app in Hn. apply wp_bind.
    eapply wp_mono; [apply (back_complete k n c1 p1 t2 Hp1); [eapply follows_peeks; [exact Hf|repeat constructor; done]|lia]|].
    intros c2 p2 [-> Hp2]. peek_at Hp2. rewrite (follows_peeks [41] [59]) by (done || (repeat constructor; done)).
    split; [|done]. by rewrite cmd_map_backs, E1.
  - intros t c k t2 r _ IH1 _ IH2 [|n] p t3 Hp Hf Hn; [lia|]. rewrite <-!app_assoc in Hp, Hn. simpl. apply wp_bind.
    eapply wp_mono; [apply (IH1 n p _ Hp); [|lia]|].
    { destruct k as [|k]; right; simpl; eexists _, _; (split; [done|set_solver]). }
    intros c1 p1 [E1 Hp1]. rewrite length_app in Hn. apply wp_bind.
    eapply wp_mono; [apply (back_complete k n c1 p1 _ Hp1); [done|lia]|].
    intros c2 p2 [-> Hp2]. rewrite length_app in Hn. simpl in Hn. peek_at Hp2. simpl. token_at Hp2 u. apply wp_bind.
    eapply wp_mono; [apply (IH2 n _ t3 Hp2 Hf); lia|]. intros c3 p3 [E3 Hp3]. split; [|done]. simpl. by rewrite cmd_map_backs, E1, E3.
  - intros t c _ IH [|n] p t2 Hp Hf Hn; [lia|]. simpl. apply wp_bind. eapply wp_mono; [apply (IH n p t2 Hp); [|lia]|].
    { eapply follows_mono; [exact Hf|repeat constructor; set_solver]. }
    intros c1 p1 [E1 Hp1]. peek_at Hp1. by rewrite (follows_peeks [41; 38; 59] [124]) by (done || (repeat constructor; done)).
  - intros t1 t2 l r _ IH1 _ IH2 [|n] p t3 Hp Hf Hn; [lia|]. rewrite <-app_assoc in Hp, Hn. simpl. apply wp_bind.
    eapply wp_mono; [apply (IH1 n p _ Hp); [|lia]|]. { right. simpl. eexists _, _. split; [done|set_solver]. }
    intros c1 p1 [E1 Hp1]. rewrite length_app in Hn. simpl in Hn. peek_at Hp1. simpl. token_at Hp1 u. apply wp_bind.
    eapply wp_mono; [apply (IH2 n _ t3 Hp1 Hf); lia|]. intros c3 p3 [E3 Hp3]. split; [|done]. simpl. by rewrite E1, E3.
  - apply exec_complete.
  - intros t1 c t2 rs _ IH Hr [|[|n]] p t3 Hp Hf Hn; [simpl in Hn; lia..|]. cbn [parseexec parseblock]. simpl in Hp, Hn.
    rewrite <-app_assoc in Hp, Hn. peek_at Hp. simpl. peek_at Hp. simpl. token_at Hp u. apply wp_bind. simpl in Hp, Hn.
    eapply wp_mono; [apply (IH n _ _ Hp); [|lia]|]. { right. simpl. eexists _, _. split; [done|set_solver]. }
    intros c1 p1 [E1 Hp1]. rewrite length_app in Hn. simpl in Hn. peek_at Hp1. simpl. token_at Hp1 v. apply wp_bind.
    eapply wp_mono; [apply (redirs_complete t2 rs Hr n [] _ t3 Hp1); [eapply follows_peeks; [exact Hf|repeat constructor; done]|lia]|].
    intros r p3 (rs1 & -> & E3 & Hp3). split; [|done]. by rewrite cmd_map_wrap, E1, app_nil_l, E3.
Qed.
End complete.

(** ** [nulterminate] *)

Lemma nulterminate_words c (buf : list Z) : nulterminate c buf = foldl (λ buf w, <[w.2 := 0]> buf) buf (cmd_words c).
Proof.
  revert buf. induction c as [argv|c IH file m o|l IHl r IHr|l IHl r IHr|c IH]; intros buf; simpl; rewrite ?foldl_app; try done.
  - by rewrite IH.
  - by rewrite IHl, IHr.
  - by rewrite IHl, IHr.
Qed.

Lemma zero_lookup (ws : list (nat * nat)) (buf : list Z) i :
  foldl (λ buf w, <[w.2 := 0]> buf) buf ws !! i = if decide (i ∈ ws.*2) then (λ _, 0) <$> buf !! i else buf !! i.
Proof.
  revert buf. induction ws as [|w ws IH]; intros buf; [by case_decide as H; [apply not_elem_of_nil in H|]|]. cbn [foldl]. rewrite fmap_cons, IH.
  destruct (decide (i = w.2)) as [->|Hi].
  - rewrite (decide_True (P := w.2 ∈ w.2 :: ws.*2)) by (by left). destruct (decide (w.2 < length buf)%nat).
    + rewrite list_lookup_insert_eq by done. destruct (lookup_lt_is_Some_2 buf w.2) as [x ->]; [done|]. by case_decide.
    + rewrite (lookup_ge_None_2 (<[_ := _]> _)) by (rewrite length_insert; lia). rewrite lookup_ge_None_2 by lia. by case_decide.
  - rewrite list_lookup_insert_ne by done. repeat case_decide; set_solver.
Qed.

Lemma span_len_at f l n : (∀ i x, (i < n)%nat → l !! i = Some x → f x = true) → (n ≤ length l)%nat →
  (∀ x, l !! n = Some x → f x = false) → span_len f l = n.
Proof.
  revert n. induction l as [|x l IH]; intros n H1 Hn H2; simpl in *; [lia|]. destruct n as [|n]; [by rewrite H2|].
  rewrite (H1 O x) by (done || lia). f_equal. apply IH; [|lia|exact H2]. intros i y Hi. apply (H1 (S i)). lia.
Qed.

Lemma nulterminate_text s c w :
  0 ∉ s → Forall (word_ok s) (cmd_words c) → w ∈ cmd_words c → cstring (nulterminate c (s ++ [0])) w.1 = text s w.
Proof.
  intros Hs Hall Hw. rewrite Forall_forall in Hall. destruct (Hall w Hw) as (Hle & Hchars & Hend).
  rewrite nulterminate_words. set (buf := foldl _ _ _).
  assert (∀ i, (w.1 ≤ i < w.2)%nat → buf !! i = s !! i ∧ ∀ x, s !! i = Some x → x ≠ 0) as Hin.
  { intros i Hi. split; [|by intros x Hx ->; apply list_elem_of_lookup_2 in Hx]. unfold buf. rewrite zero_lookup, decide_False.
    - apply lookup_app_l. lia.
    - intros (w' & -> & Hw')%list_elem_of_fmap. destruct (Hall w' Hw') as (_ & _ & [E|E]); [lia|].
      destruct (lookup_lt_is_Some_2 s w'.2) as [x Hx]; [lia|]. unfold ch in E. rewrite Hx in E. simpl in E.
      rewrite Forall_lookup in Hchars. rewrite (Hchars (w'.2 - w.1)%nat x) in E; [done|]. unfold text.
      rewrite lookup_take_lt, lookup_drop by lia. by replace (w.1 + (w'.2 - w.1))%nat with w'.2 by lia. }
  assert (buf !! w.2 = Some 0) as Hnul.
  { unfold buf. rewrite zero_lookup, decide_True by (apply list_elem_of_fmap; by exists w).
    destruct (lookup_lt_is_Some_2 (s ++ [0]) w.2) as [x ->]; [rewrite length_app; simpl; lia|done]. }
  unfold cstring, text. rewrite (span_len_at _ _ (w.2 - w.1)).
  - apply list_eq. intros i. destruct (decide (i < w.2 - w.1)%nat) as [Hi|Hi].
    + rewrite !lookup_take_lt, !lookup_drop by lia. apply Hin. lia.
    + rewrite !lookup_take_ge by lia. done.
  - intros i x Hi. rewrite lookup_drop. intros Hx. destruct (Hin (w.1 + i)%nat ltac:(lia)) as [E Hz]. rewrite E in Hx.
    destruct (Z.eqb_spec x 0) as [->|]; [by destruct (Hz 0)|done].
  - rewrite length_drop. apply lookup_lt_Some in Hnul. lia.
  - intros x. rewrite lookup_drop. replace (w.1 + (w.2 - w.1))%nat with w.2 by lia. rewrite Hnul. by intros [= <-].
Qed.

Lemma cmd_map_ext {A B} (f g : A → B) c : (∀ w, w ∈ cmd_words c → f w = g w) → cmd_map f c = cmd_map g c.
Proof.
  induction c as [argv|c IH file m o|l IHl r IHr|l IHl r IHr|c IH]; intros H; simpl in *.
  - f_equal. apply list_fmap_ext. intros i w Hw. apply H. by eapply list_elem_of_lookup_2.
  - rewrite IH, H; [done|set_solver..].
  - rewrite IHl, IHr; [done|set_solver..].
  - rewrite IHl, IHr; [done|set_solver..].
  - by rewrite IH.
Qed.

(** Every [EXEC] has room for its arguments and the final null pointer. *)
Fixpoint few_args {A} (c : cmd A) : Prop :=
  match c with
  | EXEC argv => Z.of_nat (length argv) < MAXARGS
  | REDIR c _ _ _ | BACK c => few_args c
  | PIPE l r | LIST l r => few_args l ∧ few_args r
  end.

Lemma few_args_map {A B} (f : A → B) c : few_args (cmd_map f c) ↔ few_args c.
Proof. induction c; simpl; rewrite ?length_fmap; tauto. Qed.
Lemma few_args_wrap {A} (c : cmd A) rs : few_args (wrap c rs) ↔ few_args c.
Proof. revert c. induction rs as [|r rs IH]; intros c; [done|]. exact (IH (REDIR c r.1.1 r.1.2 r.2)). Qed.
Lemma few_args_backs {A} k (c : cmd A) : few_args (backs k c) ↔ few_args c.
Proof. by induction k. Qed.

Lemma grammar_few_args :
  (∀ t c, gline t c → few_args c) ∧ (∀ t c, gpipe t c → few_args c) ∧ (∀ t c, gexec t c → few_args c).
Proof. apply grammar_mind; intros; simpl; rewrite ?few_args_wrap, ?few_args_backs; simpl; done. Qed.

(** ** The theorems *)

Lemma parsecmd_spec s ts :
  0 ∉ s → lexes s ts →
  wpp (parsecmd s) (λ c _, gline ts (cmd_map (text s) c) ∧ Forall (word_ok s) (cmd_words c)) O.
Proof.
  intros Hs Hts. assert (at_toks s O ts) as Hp by (split; [lia|done]). unfold parsecmd.
  assert (length ts ≤ es s)%nat as Hlen by (destruct (lexes_total s) as (ts' & H' & ?); by rewrite (lexes_fun s ts ts')).
  apply wpp_bind. eapply wpp_mono; [apply (parse_sound s Hs _ O ts Hp); lia|]. intros c p (t1 & t2 & -> & Hp1 & Hg & Hw).
  apply wpp_bind. eapply wpp_wp; [apply (peek_spec s Hs [] p t2); [done|exact Hp1]|]. intros b p2 [_ [Hle Hp2]].
  apply wpp_bind. change (wpp (if negb (p2 =? es s)%nat then panic "syntax" else ret c)
    (λ c _, gline (t1 ++ t2) (cmd_map (text s) c) ∧ Forall (word_ok s) (cmd_words c)) p2).
  destruct (Nat.eqb_spec p2 (es s)) as [->|]; [|done]. unfold es in Hp2. rewrite drop_all in Hp2.
  inversion Hp2 as [|? ? ? ? El]; [subst|done]. rewrite app_nil_r. done.
Qed.

Lemma sh_parse_grammar s ts c : 0 ∉ s → lexes s ts → sh_parse s = Some c ↔ gline ts c.
Proof.
  intros Hs Hts. pose proof (parsecmd_spec s ts Hs Hts) as Hsound. unfold sh_parse, wpp in *. split.
  - destruct (parsecmd s O) as [pc p| | | | |]; try done. intros [= <-]. destruct Hsound as [Hg Hw].
    rewrite (cmd_map_ext _ (text s)); [done|]. intros w Hin. by apply nulterminate_text.
  - intros Hg.
    assert (wp (parsecmd s) (λ pc _, cmd_map (text s) pc = c) O) as Hwp.
    { assert (length ts ≤ es s)%nat as Hlen by (destruct (lexes_total s) as (ts' & H' & ?); by rewrite (lexes_fun s ts ts')).
      unfold parsecmd. apply wp_bind. eapply wp_mono; [apply (proj1 (parse_complete s Hs) ts c Hg _ O [])|].
      - rewrite app_nil_r. split; [lia|done].
      - by left.
      - rewrite app_nil_r. lia.
      - intros pc p1 [E Hp1]. apply wp_bind. eapply wp_mono; [by apply (peek_end s [] p1)|].
        intros b p2 ->. apply wp_bind, wp_get. unfold es. by rewrite Nat.eqb_refl. }
    apply wp_ok in Hwp as (pc & p & E & Ec). rewrite E in Hsound |- *. destruct Hsound as [_ Hw]. f_equal. rewrite <-Ec.
    apply cmd_map_ext. intros w Hin. by apply nulterminate_text.
Qed.

(** C19: The shell's parser is correct: it accepts exactly the command lines of
    the grammar, and the command it returns, with the words that
    [nulterminate] has cut out of the line, is the one the grammar gives. *)
Theorem sh_parse_correct s ts c : 0 ∉ s → lexes s ts → sh_parse s = Some c ↔ gline ts c.
Proof. apply sh_parse_grammar. Qed.

(** The parser always returns, with a command or with a syntax error;
    every word of a command lies inside the line, so that [nulterminate]
    writes inside the buffer, and no command has more arguments than fit. *)
Theorem sh_parse_returns s :
  0 ∉ s →
  (∃ c p, parsecmd s O = Ok c p ∧ Forall (λ w, (w.1 ≤ w.2 ≤ length s)%nat) (cmd_words c) ∧ few_args c) ∨
  (∃ msg, parsecmd s O = Panic msg).
Proof.
  intros Hs. destruct (lexes_total s) as (ts & Hts & _). pose proof (parsecmd_spec s ts Hs Hts) as H. unfold wpp in H.
  destruct (parsecmd s O) as [c p|msg| | | |] eqn:E; try done; [left|right; by exists msg].
  destruct H as [Hg Hw]. exists c, p. split_and!; [done| |].
  - eapply Forall_impl; [exact Hw|]. by intros w [? _].
  - rewrite <-(few_args_map (text s)). by apply (proj1 grammar_few_args ts).
Qed.

(** ** Examples *)

(** [(a b <f | c) >g &; d] *)
Definition ex_line : list Z :=
  [40; 97; 32; 98; 32; 60; 102; 32; 124; 32; 99; 41; 32; 62; 103; 32; 38; 59; 32; 100; 10].
Definition ex_toks : list tok :=
  [TSym 40; TWord [97]; TWord [98]; TSym 60; TWord [102]; TSym 124; TWord [99]; TSym 41; TSym 62; TWord [103]; TSym 38; TSym 59; TWord [100]].
Definition ex_cmd : cmd (list Z) :=
  LIST (BACK (REDIR (PIPE (REDIR (EXEC [[97]; [98]]) [102] O_RDONLY 0) (EXEC [[99]])) [103] (Z.lor O_WRONLY O_CREATE) 1)) (EXEC [[100]]).

Lemma ex_lexes : lexes ex_line ex_toks.
Proof. unfold ex_line, ex_toks. repeat (eapply lexes_cons; [vm_compute; reflexivity|]). constructor. vm_compute. reflexivity. Qed.

Lemma sh_parse_correct_witness : (0 ∉ ex_line) ∧ gline ex_toks ex_cmd.
Proof.
  assert (0 ∉ ex_line) as H0 by (unfold ex_line; set_solver). split; [exact H0|].
  apply (sh_parse_correct ex_line ex_toks ex_cmd H0 ex_lexes). vm_compute. reflexivity.
Defined.

Lemma sh_parse_returns_witness : ∃ c p, parsecmd ex_line O = Ok c p.
Proof.
  destruct (sh_parse_returns ex_line) as [(c & p & E & _)|(msg & E)]; [unfold ex_line; set_solver|exists c, p; exact E|].
  vm_compute in E. discriminate E.
Defined.
