(* ===== verification/Spinlock.v ===== *)
(** Spin locks between processors ([src/spinlock.c]).

    The other files take [acquire] and [release] as single steps.  Here any
    number of processors execute them one memory access at a time, in any
    order.  Memory is sequentially consistent: the fences and the locked
    [xchg] of the code are there to make it so.  [c_held] and [c_extra] are
    ghost state: the locks a processor has acquired and not yet released, and
    its [pushcli] calls outside of [acquire]. *)

From S2P Require Import Prelude.
From stdpp Require Import options.

(** ** State *)

(** [struct spinlock]: [locked] and [cpu]. *)
Record lock := Lock { lk_locked : bool; lk_cpu : option nat }.
#[global] Instance eta_lock : Eta lock := λ l, Lock (lk_locked l) (lk_cpu l).

(** Where a processor is in [acquire] or [release]. *)
Inductive lpc :=
  | Idle                 (* in neither *)
  | AcqHolding (l : nat) (* at the test of lk->locked in holding() *)
  | AcqCpu (l : nat)     (* at the test of lk->cpu in holding() *)
  | AcqXchg (l : nat)    (* at the xchg loop *)
  | AcqSet (l : nat)     (* at lk->cpu = mycpu() *)
  | RelHolding (l : nat)
  | RelCpu (l : nat)
  | RelClear (l : nat)   (* at lk->cpu = 0 *)
  | RelStore (l : nat)   (* at lk->locked = 0 *)
  | RelPop               (* at popcli() *)
  | Panicked (msg : string).

(** The fields of [struct cpu] that locks use, and the [IF] flag. *)
Record cpu := Cpu { c_if : bool; c_ncli : Z; c_intena : bool; c_pc : lpc; c_held : gset nat; c_extra : Z }.
#[global] Instance eta_cpu : Eta cpu := λ c, Cpu (c_if c) (c_ncli c) (c_intena c) (c_pc c) (c_held c) (c_extra c).

Definition initlock : lock := Lock false None.

(** ** Operations *)

Definition pushcli (c : cpu) : cpu :=
  let eflags := c_if c in
  let c := c <| c_if := false |> in
  let c := if c_ncli c =? 0 then c <| c_intena := eflags |> else c in
  c <| c_ncli ::= λ n, n + 1 |>.

Definition popcli (c : cpu) : cpu :=
  if c_if c then c <| c_pc := Panicked "popcli - interruptible" |> else
  let c := c <| c_ncli ::= λ n, n - 1 |> in
  if c_ncli c <? 0 then c <| c_pc := Panicked "popcli" |> else
  if (c_ncli c =? 0) && c_intena c then c <| c_if := true |> else c.

(** The start of [acquire(lk)] and of [release(lk)]. *)
Definition acquire_start (l : nat) (c : cpu) : cpu := (pushcli c) <| c_pc := AcqHolding l |>.
Definition release_start (l : nat) (c : cpu) : cpu := c <| c_pc := RelHolding l |>.

(** The next memory access of processor [me] in [acquire] or [release]. *)
Definition lock_access (me : nat) (c : cpu) (ls : list lock) : option (cpu * list lock) :=
  match c_pc c with
  | Idle | Panicked _ => None
  | AcqHolding l => lk ← ls !! l; Some (c <| c_pc := if lk_locked lk then AcqCpu l else AcqXchg l |>, ls)
  | AcqCpu l => lk ← ls !! l; Some (c <| c_pc := if bool_decide (lk_cpu lk = Some me) then Panicked "acquire" else AcqXchg l |>, ls)
  | AcqXchg l => lk ← ls !! l;
      Some (if lk_locked lk then c else c <| c_pc := AcqSet l |>, <[l := lk <| lk_locked := true |>]> ls)
  | AcqSet l => lk ← ls !! l;
      Some (c <| c_pc := Idle |> <| c_held ::= λ h, {[l]} ∪ h |>, <[l := lk <| lk_cpu := Some me |>]> ls)
  | RelHolding l => lk ← ls !! l; Some (c <| c_pc := if lk_locked lk then RelCpu l else Panicked "release" |>, ls)
  | RelCpu l => lk ← ls !! l; Some (c <| c_pc := if bool_decide (lk_cpu lk = Some me) then RelClear l else Panicked "release" |>, ls)
  | RelClear l => lk ← ls !! l; Some (c <| c_pc := RelStore l |>, <[l := lk <| lk_cpu := None |>]> ls)
  | RelStore l => lk ← ls !! l;
      Some (c <| c_pc := RelPop |> <| c_held ::= λ h, h ∖ {[l]} |>, <[l := lk <| lk_locked := false |>]> ls)
  | RelPop => Some (popcli (c <| c_pc := Idle |>), ls)
  end.

(** ** Executions *)

Definition smp : Type := list cpu * list lock.

(** What a processor that is in neither function does next.  It acquires
    locks it does not hold, releases locks it holds, uses [pushcli] and
    [popcli] in pairs, and turns interrupts on and off outside of these. *)
Inductive client (nlocks : nat) : cpu → cpu → Prop :=
  | cl_acquire c l : (l < nlocks)%nat → l ∉ c_held c → client nlocks c (acquire_start l c)
  | cl_release c l : l ∈ c_held c → client nlocks c (release_start l c)
  | cl_pushcli c : client nlocks c ((pushcli c) <| c_extra ::= λ n, n + 1 |>)
  | cl_popcli c : 0 < c_extra c → client nlocks c ((popcli c) <| c_extra ::= λ n, n - 1 |>)
  | cl_flag c b : c_ncli c = 0 → client nlocks c (c <| c_if := b |>).

Inductive smp_step : smp → smp → Prop :=
  | ss_client cs ls i c c' : cs !! i = Some c → c_pc c = Idle → client (length ls) c c' → smp_step (cs, ls) (<[i := c']> cs, ls)
  | ss_access cs ls i c c' ls' : cs !! i = Some c → lock_access i c ls = Some (c', ls') → smp_step (cs, ls) (<[i := c']> cs, ls').

(** Boot: no locks are held and interrupts are off. *)
Definition cpu0 : cpu := Cpu false 0 false Idle ∅ 0.
Definition smp0 (ncpu nlocks : nat) : smp := (replicate ncpu cpu0, replicate nlocks initlock).

(** ** The invariant *)

(** The lock is taken by this processor. *)
Definition owns (c : cpu) (l : nat) : Prop := l ∈ c_held c ∨ c_pc c = AcqSet l.

(** [pushcli] calls of an [acquire] or [release] under way. *)
Definition pending (c : cpu) : Z :=
  match c_pc c with AcqHolding _ | AcqCpu _ | AcqXchg _ | AcqSet _ | RelPop => 1 | _ => 0 end.

Record cpu_ok (nlocks : nat) (c : cpu) : Prop := {
  ck_ncli : c_ncli c = Z.of_nat (size (c_held c)) + pending c + c_extra c;
  ck_extra : 0 ≤ c_extra c;
  ck_if : 0 < c_ncli c → c_if c = false;
  ck_pc : match c_pc c with
          | Panicked _ => False
          | AcqHolding l | AcqCpu l | AcqXchg l | AcqSet l => (l < nlocks)%nat ∧ l ∉ c_held c
          | RelHolding l | RelCpu l | RelClear l | RelStore l => l ∈ c_held c
          | Idle | RelPop => True
          end;
  ck_held l : l ∈ c_held c → (l < nlocks)%nat;
}.

(** The lock agrees with the processors. *)
Record lock_ok (cs : list cpu) (l : nat) (lk : lock) : Prop := {
  lo_free : lk_locked lk = false → ∀ i c, cs !! i = Some c → ¬ owns c l;
  lo_one i j c d : cs !! i = Some c → cs !! j = Some d → owns c l → owns d l → i = j;
  lo_cpu i : lk_cpu lk = Some i → ∃ c, cs !! i = Some c ∧ l ∈ c_held c;
  lo_set i c : cs !! i = Some c → l ∈ c_held c → c_pc c = RelStore l ∨ lk_cpu lk = Some i;
  lo_taken : lk_locked lk = true → ∃ i c, cs !! i = Some c ∧ owns c l;
  lo_store i c : cs !! i = Some c → c_pc c = RelStore l → lk_cpu lk = None;
}.

Record smp_ok (st : smp) : Prop := {
  so_cpu i c : st.1 !! i = Some c → cpu_ok (length st.2) c;
  so_lock l lk : st.2 !! l = Some lk → lock_ok st.1 l lk;
}.

Lemma insert_cpu (cs : list cpu) i c c' j d :
  cs !! i = Some c → <[i := c']> cs !! j = Some d ↔ (j = i ∧ d = c') ∨ (j ≠ i ∧ cs !! j = Some d).
Proof.
  intros Hc. apply lookup_lt_Some in Hc. destruct (decide (i = j)) as [->|].
  - rewrite list_lookup_insert_eq by done. naive_solver.
  - rewrite list_lookup_insert_ne by done. naive_solver.
Qed.

(** A step that does not concern the lock. *)
Lemma lock_frame cs i c c' l lk :
  cs !! i = Some c → c_held c' = c_held c ∨ (∀ k, k = l → k ∈ c_held c' ↔ k ∈ c_held c) →
  (c_pc c' = AcqSet l ↔ c_pc c = AcqSet l) → (c_pc c' = RelStore l ↔ c_pc c = RelStore l) →
  lock_ok cs l lk → lock_ok (<[i := c']> cs) l lk.
Proof.
  intros Hc Hh Hp Hr [H1 H2 H3 H4 H5 H6]. assert (l ∈ c_held c' ↔ l ∈ c_held c) as Hl by (destruct Hh as [->|Hh]; [done|by apply Hh]).
  assert (owns c' l ↔ owns c l) as Ho by (unfold owns; by rewrite Hl, Hp).
  assert (∀ j d, <[i := c']> cs !! j = Some d → ∃ d', cs !! j = Some d' ∧ (owns d l ↔ owns d' l) ∧ (l ∈ c_held d ↔ l ∈ c_held d') ∧
    (c_pc d = RelStore l ↔ c_pc d' = RelStore l)) as Hd.
  { intros j d [[-> ->]|[_ Hj]]%(insert_cpu _ _ c); [by exists c|by exists d|done]. }
  split.
  - intros Hf j d (d' & Hj & -> & _)%Hd. by eapply H1.
  - intros j k d e (d' & Hj & -> & _)%Hd (e' & Hk & -> & _)%Hd. by apply H2.
  - intros j (d & Hj & Hd')%H3. destruct (decide (j = i)) as [->|Hne].
    + exists c'. rewrite (insert_cpu _ _ c) by done. simplify_eq. naive_solver.
    + exists d. rewrite (insert_cpu _ _ c) by done. naive_solver.
  - intros j d (d' & Hj & _ & -> & Hpc)%Hd Hin. rewrite Hpc. by apply H4.
  - intros (j & d & Hj & Hown)%H5. destruct (decide (j = i)) as [->|Hne].
    + exists i, c'. rewrite (insert_cpu _ _ c) by done. simplify_eq. naive_solver.
    + exists j, d. rewrite (insert_cpu _ _ c) by done. naive_solver.
  - intros j d (d' & Hj & _ & _ & ->)%Hd. by eapply H6.
Qed.

Lemma pushcli_fields c : c_pc (pushcli c) = c_pc c ∧ c_held (pushcli c) = c_held c ∧ c_extra (pushcli c) = c_extra c ∧
  c_ncli (pushcli c) = c_ncli c + 1 ∧ c_if (pushcli c) = false.
Proof. unfold pushcli. simpl. by destruct (c_ncli c =? 0). Qed.

Lemma popcli_fields c : 0 < c_ncli c → c_if c = false →
  c_pc (popcli c) = c_pc c ∧ c_held (popcli c) = c_held c ∧ c_extra (popcli c) = c_extra c ∧ c_ncli (popcli c) = c_ncli c - 1 ∧
  (0 < c_ncli c - 1 → c_if (popcli c) = false).
Proof.
  intros Hn Hi. unfold popcli. rewrite Hi. simpl. destruct (Z.ltb_spec (c_ncli c - 1) 0); [lia|].
  destruct (Z.eqb_spec (c_ncli c - 1) 0); simpl; [|done]. destruct (c_intena c); simpl; split_and!; try done; lia.
Qed.

Lemma client_ok n c c' : cpu_ok n c → c_pc c = Idle → client n c c' → cpu_ok n c'.
Proof.
  intros [H1 H2 H3 H4 H5] Hpc Hcl. unfold pending in H1. rewrite Hpc in H1, H4.
  destruct Hcl as [c l Hl Hn|c l Hl|c|c He|c b Hz].
  - destruct (pushcli_fields c) as (E1 & E2 & E3 & E4 & E5). unfold acquire_start. generalize dependent (pushcli c). intros d E1 E2 E3 E4 E5.
    split; simpl; rewrite ?E2, ?E3, ?E4, ?E5; try done; unfold pending; simpl; lia.
  - split; simpl; try done; unfold pending; simpl; lia.
  - destruct (pushcli_fields c) as (E1 & E2 & E3 & E4 & E5). generalize dependent (pushcli c). intros d E1 E2 E3 E4 E5.
    split; simpl; rewrite ?E1, ?E2, ?E3, ?E4, ?E5, ?Hpc; try done; unfold pending; simpl; rewrite ?E1, ?Hpc; lia.
  - destruct (popcli_fields c) as (E1 & E2 & E3 & E4 & E5); [lia|apply H3; lia|].
    generalize dependent (popcli c). intros d E1 E2 E3 E4 E5. split; simpl; rewrite ?E1, ?E2, ?E3, ?E4, ?Hpc; try done; unfold pending; simpl; rewrite ?E1, ?Hpc; lia.
  - split; simpl; try done; unfold pending; simpl; rewrite ?Hpc; try done; lia.
Qed.

Lemma client_frame n c c' l : c_pc c = Idle → cpu_ok n c → client n c c' →
  c_held c' = c_held c ∧ c_pc c' ≠ AcqSet l ∧ c_pc c' ≠ RelStore l.
Proof.
  intros Hpc [H1 H2 H3 H4 H5] Hcl. unfold pending in H1. rewrite Hpc in H1. destruct Hcl as [c k Hk Hn|c k Hk|c|c He|c b Hz].
  - destruct (pushcli_fields c) as (E1 & E2 & _). done.
  - done.
  - destruct (pushcli_fields c) as (E1 & E2 & _). generalize dependent (pushcli c). intros d E1 E2. simpl. by rewrite E1, E2, Hpc.
  - destruct (popcli_fields c) as (E1 & E2 & _); [lia|apply H3; lia|]. generalize dependent (popcli c). intros d E1 E2. simpl. by rewrite E1, E2, Hpc.
  - simpl. by rewrite Hpc.
Qed.

(** One processor is at [pc] and goes to [pc']. *)
Lemma pc_ok n c pc' :
  cpu_ok n c → pending (c <| c_pc := pc' |>) = pending c →
  match pc' with
  | Panicked _ => False
  | AcqHolding l | AcqCpu l | AcqXchg l | AcqSet l => (l < n)%nat ∧ l ∉ c_held c
  | RelHolding l | RelCpu l | RelClear l | RelStore l => l ∈ c_held c
  | Idle | RelPop => True
  end → cpu_ok n (c <| c_pc := pc' |>).
Proof. intros [H1 H2 H3 H4 H5] Hp Hpc. split; try done. simpl. by rewrite Hp. Qed.

(** The owner of a lock has set it. *)
Lemma held_locked cs l lk i c : lock_ok cs l lk → cs !! i = Some c → owns c l → lk_locked lk = true.
Proof. intros H Hc Ho. apply not_false_is_true. intros Hf. by apply (lo_free _ _ _ H Hf i c). Qed.

Lemma xchg_ok cs i c l lk :
  cs !! i = Some c → c_pc c = AcqXchg l → l ∉ c_held c → lk_locked lk = false → lock_ok cs l lk →
  lock_ok (<[i := c <| c_pc := AcqSet l |>]> cs) l (lk <| lk_locked := true |>).
Proof.
  intros Hc Hpc Hl Hf [H1 H2 H3 H4 H5 H6]. specialize (H1 Hf).
  assert (∀ j d, <[i := c <| c_pc := AcqSet l |>]> cs !! j = Some d → owns d l → j = i ∧ l ∉ c_held d) as Hown.
  { intros j d [[-> ->]|[_ Hj]]%(insert_cpu _ _ c) Ho; [done|by destruct (H1 j d)|done]. }
  split; simpl.
  - done.
  - intros j k d e Hd He [-> _]%(Hown j d Hd) [-> _]%(Hown k e He). done.
  - intros j (d & Hj & Hin)%H3. destruct (H1 j d Hj). by left.
  - intros j d Hj Hin. by destruct (Hown j d Hj (or_introl Hin)).
  - intros _. exists i. eexists. rewrite (insert_cpu _ _ c) by done. split; [by left|]. by right.
  - intros j d [[-> ->]|[_ Hj]]%(insert_cpu _ _ c) Hp; [done|by eapply H6|done].
Qed.

Lemma set_ok cs i c l lk :
  cs !! i = Some c → c_pc c = AcqSet l → (∀ j d, cs !! j = Some d → c_pc d = RelStore l → l ∈ c_held d) → lock_ok cs l lk →
  lock_ok (<[i := c <| c_pc := Idle |> <| c_held ::= λ h, {[l]} ∪ h |>]> cs) l (lk <| lk_cpu := Some i |>).
Proof.
  intros Hc Hpc Hrel Hok. assert (owns c l) as Ho by (by right). pose proof (held_locked _ _ _ _ _ Hok Hc Ho) as Hlk.
  destruct Hok as [H1 H2 H3 H4 H5 H6]. set (c' := c <| c_pc := Idle |> <| c_held ::= λ h, {[l]} ∪ h |>).
  assert (∀ j d, <[i := c']> cs !! j = Some d → owns d l → j = i) as Hown.
  { intros j d [[-> ->]|[_ Hj]]%(insert_cpu _ _ c) Hd; [done| |done]. by eapply (H2 j i d c). }
  assert (<[i := c']> cs !! i = Some c') as Hc' by (rewrite (insert_cpu _ _ c) by done; by left).
  split; simpl.
  - congruence.
  - intros j k d e Hd He Hod Hoe. by rewrite (Hown j d Hd Hod), (Hown k e He Hoe).
  - intros j [= <-]. exists c'. split; [done|]. unfold c'. simpl. set_solver.
  - intros j d Hj Hin. right. f_equal. symmetry. apply (Hown j d Hj). by left.
  - intros _. exists i, c'. split; [done|]. left. unfold c'. simpl. set_solver.
  - intros j d [[-> ->]|[Hne Hj]]%(insert_cpu _ _ c) Hp; [done| |done]. destruct Hne. eapply (H2 j i d c); [done..| |done].
    left. by eapply Hrel.
Qed.

Lemma clear_ok cs i c l lk :
  cs !! i = Some c → c_pc c = RelClear l → l ∈ c_held c → lock_ok cs l lk →
  lock_ok (<[i := c <| c_pc := RelStore l |>]> cs) l (lk <| lk_cpu := None |>).
Proof.
  intros Hc Hpc Hl Hok. pose proof (held_locked _ _ _ _ _ Hok Hc (or_introl Hl)) as Hlk.
  destruct Hok as [H1 H2 H3 H4 H5 H6]. set (c' := c <| c_pc := RelStore l |>).
  assert (∀ j d, <[i := c']> cs !! j = Some d → owns d l → j = i) as Hown.
  { intros j d [[-> ->]|[_ Hj]]%(insert_cpu _ _ c) Hd; [done| |done]. eapply (H2 j i d c); [done..|]. by left. }
  assert (<[i := c']> cs !! i = Some c') as Hc' by (rewrite (insert_cpu _ _ c) by done; by left).
  split; simpl.
  - congruence.
  - intros j k d e Hd He Hod Hoe. by rewrite (Hown j d Hd Hod), (Hown k e He Hoe).
  - done.
  - intros j d Hj Hin. left. assert (j = i) as -> by (apply (Hown j d Hj); by left). rewrite Hc' in Hj. by injection Hj as <-.
  - intros _. exists i, c'. split; [done|]. by left.
  - done.
Qed.

Lemma store_ok cs i c l lk :
  cs !! i = Some c → c_pc c = RelStore l → l ∈ c_held c → (∀ j d, cs !! j = Some d → c_pc d = RelStore l → l ∈ c_held d) →
  lock_ok cs l lk →
  lock_ok (<[i := c <| c_pc := RelPop |> <| c_held ::= λ h, h ∖ {[l]} |>]> cs) l (lk <| lk_locked := false |>).
Proof.
  intros Hc Hpc Hl Hrel [H1 H2 H3 H4 H5 H6]. pose proof (H6 i c Hc Hpc) as Hcpu.
  set (c' := c <| c_pc := RelPop |> <| c_held ::= λ h, h ∖ {[l]} |>).
  assert (∀ j d, <[i := c']> cs !! j = Some d → ¬ owns d l) as Hown.
  { intros j d [[-> ->]|[Hne Hj]]%(insert_cpu _ _ c) Hd; [| |done].
    - destruct Hd as [Hd|Hd]; [|done]. unfold c' in Hd. simpl in Hd. set_solver.
    - apply Hne. eapply (H2 j i d c); [done..|]. by left. }
  split; simpl.
  - intros _. exact Hown.
  - intros j k d e Hd He Hod. by destruct (Hown j d Hd).
  - by rewrite Hcpu.
  - intros j d Hj Hin. destruct (Hown j d Hj). by left.
  - done.
  - by intros.
Qed.

Lemma size_pos_elem_of (l : nat) (h : gset nat) : l ∈ h → (0 < size h)%nat.
Proof. intros Hl. destruct (decide (size h = 0)%nat) as [E|]; [|lia]. apply size_empty_inv in E. set_solver. Qed.

(** [acquire] and [release] keep the invariant. *)
Lemma access_ok i c c' cs ls ls' :
  smp_ok (cs, ls) → cs !! i = Some c → lock_access i c ls = Some (c', ls') → smp_ok (<[i := c']> cs, ls').
Proof.
  intros [Hcpus Hlocks] Hc Hacc. simpl in Hcpus, Hlocks. pose proof (Hcpus i c Hc) as Hck.
  assert (∀ l j d, cs !! j = Some d → c_pc d = RelStore l → l ∈ c_held d) as Hrel.
  { intros l j d Hj E. pose proof (ck_pc _ _ (Hcpus j d Hj)) as H. by rewrite E in H. }
  assert (∀ c2, cpu_ok (length ls) c2 → ∀ j d, <[i := c2]> cs !! j = Some d → cpu_ok (length ls) d) as Hcs.
  { intros c2 H2 j d [[-> ->]|[_ Hj]]%(insert_cpu _ _ c); [done|by eapply Hcpus|done]. }
  (* the accesses that change only the processor *)
  assert (∀ c2, cpu_ok (length ls) c2 → c_held c2 = c_held c → (∀ l, c_pc c2 = AcqSet l ↔ c_pc c = AcqSet l) →
    (∀ l, c_pc c2 = RelStore l ↔ c_pc c = RelStore l) → smp_ok (<[i := c2]> cs, ls)) as Hread.
  { intros c2 H2 Hh Ha Hr. split; simpl; [by apply Hcs|]. intros l lk Hl. eapply lock_frame; [done|by left|done|done|by apply Hlocks]. }
  (* and those that change a lock *)
  assert (∀ c2 l lk2, (l < length ls)%nat → cpu_ok (length ls) c2 → lock_ok (<[i := c2]> cs) l lk2 →
    (∀ k, k ≠ l → k ∈ c_held c2 ↔ k ∈ c_held c) → (∀ k, k ≠ l → (c_pc c2 = AcqSet k ↔ c_pc c = AcqSet k) ∧
    (c_pc c2 = RelStore k ↔ c_pc c = RelStore k)) → smp_ok (<[i := c2]> cs, <[l := lk2]> ls)) as Hwrite.
  { intros c2 l lk2 Hl H2 Hlk Hh Hp. split; simpl; [rewrite length_insert; by apply Hcs|]. intros k lk Hk.
    destruct (decide (l = k)) as [->|Hne]; [rewrite list_lookup_insert_eq in Hk by done; by injection Hk as <-|].
    rewrite list_lookup_insert_ne in Hk by done. eapply lock_frame; [done| | | |by apply Hlocks].
    - right. intros ? ->. apply Hh. congruence.
    - apply Hp. congruence.
    - apply Hp. congruence. }
  pose proof Hck as [N1 N2 N3 N4 N5]. unfold lock_access in Hacc. unfold pending in N1.
  destruct (c_pc c) as [|l|l|l|l|l|l|l|l| |msg] eqn:Epc; try done; try (destruct (ls !! l) as [lk|] eqn:El; [simpl in Hacc|done]).
  all: try (pose proof (lookup_lt_Some _ _ _ El) as Hll; pose proof (Hlocks l lk El) as Hlk).
  - destruct (lk_locked lk); injection Hacc as <- <-; (apply Hread; try done; split; try done; unfold pending; simpl; lia).
  - injection Hacc as <- <-. rewrite bool_decide_eq_false_2.
    + apply Hread; try done; split; try done; unfold pending; simpl; lia.
    + intros (d & Hd & Hin)%(lo_cpu _ _ _ Hlk). simplify_eq. by destruct N4.
  - destruct (lk_locked lk) eqn:Elk; injection Hacc as <- <-.
    + rewrite (list_insert_id cs), (list_insert_id ls); [by split| |done]. rewrite El. f_equal. destruct lk. simpl in *. by subst.
    + apply Hwrite; [done|apply pc_ok; [done|unfold pending; by rewrite Epc|done]|by apply xchg_ok; [..|destruct N4| |]|done|].
      intros k Hk. split; [|done]. simpl. split; [congruence|done].
  - injection Hacc as <- <-. apply Hwrite; [done| |by apply set_ok; [..|apply Hrel|]| |].
    + split; simpl; try done; [rewrite size_union, size_singleton by set_solver; unfold pending; simpl; lia|].
      intros k [->%elem_of_singleton|Hk]%elem_of_union; [done|by apply N5].
    + intros k Hk. simpl. set_solver.
    + intros k Hk. simpl. split; [|done]. split; [done|congruence].
  - injection Hacc as <- <-. rewrite (held_locked _ _ _ _ _ Hlk Hc) by (by left).
    apply Hread; try done; split; try done; unfold pending; simpl; lia.
  - injection Hacc as <- <-. rewrite bool_decide_eq_true_2.
    + apply Hread; try done; split; try done; unfold pending; simpl; lia.
    + destruct (lo_set _ _ _ Hlk i c Hc N4); [congruence|done].
  - injection Hacc as <- <-. apply Hwrite; [done|apply pc_ok; [done|unfold pending; by rewrite Epc|done]|by apply clear_ok|done|].
    intros k Hk. simpl. split; [done|]. split; [congruence|done].
  - injection Hacc as <- <-. apply Hwrite; [done| |by apply store_ok; [..|apply Hrel|]| |].
    + split; simpl; try done; [|intros k Hk; apply N5; set_solver]. unfold pending. simpl.
      rewrite size_difference, size_singleton by set_solver. pose proof (size_pos_elem_of l (c_held c) N4). lia.
    + intros k Hk. simpl. set_solver.
    + intros k Hk. simpl. split; [done|]. split; [done|congruence].
  - injection Hacc as <- <-. destruct (popcli_fields (c <| c_pc := Idle |>)) as (E1 & E2 & E3 & E4 & E5); [simpl; lia|simpl; apply N3; lia|].
    simpl in E1, E2, E3, E4, E5. generalize dependent (popcli (c <| c_pc := Idle |>)). intros d E1 E2 E3 E4 E5. apply Hread.
    + split; rewrite ?E1, ?E2, ?E3, ?E4; try done. unfold pending. rewrite E1. lia.
    + done.
    + intros l. by rewrite E1.
    + intros l. by rewrite E1.
Qed.

Lemma smp_step_ok st st' : smp_step st st' → smp_ok st → smp_ok st'.
Proof.
  intros [cs ls i c c' Hc Hpc Hcl|cs ls i c c' ls' Hc Hacc] Hok; [|by eapply access_ok]. destruct Hok as [Hcpus Hlocks]. simpl in *.
  pose proof (Hcpus i c Hc) as Hck. split; simpl.
  - intros j d [[-> ->]|[_ Hj]]%(insert_cpu _ _ c); [by eapply client_ok|by eapply Hcpus|done].
  - intros l lk Hl. destruct (client_frame _ c c' l Hpc Hck Hcl) as (Hh & Ha & Hr).
    eapply lock_frame; [done|by left|by rewrite Hpc|by rewrite Hpc|by apply Hlocks].
Qed.

Lemma smp0_ok ncpu nlocks : smp_ok (smp0 ncpu nlocks).
Proof.
  assert (∀ i c, replicate ncpu cpu0 !! i = Some c → c = cpu0) as Hc by (by intros i c [-> _]%lookup_replicate).
  split; simpl.
  - intros i c ->%Hc. split; try done; set_solver.
  - intros l lk [-> _]%lookup_replicate. assert (∀ k, ¬ owns cpu0 k) as Ho by (intros k [H|H]; [set_solver|done]). split; try done.
    + by intros _ i c ->%Hc.
    + intros i j c d ->%Hc ->%Hc Hl. by apply Ho in Hl.
    + intros i c ->%Hc H. set_solver.
Qed.

Lemma smp_reach ncpu nlocks st : rtc smp_step (smp0 ncpu nlocks) st → smp_ok st.
Proof.
  intros Hr. pose proof (smp0_ok ncpu nlocks) as H. revert H. induction Hr; eauto using smp_step_ok.
Qed.

(** C31: Spin locks exclude.  However the processors' memory accesses are
    interleaved, at most one of them holds a lock at any time, interrupts are
    off on a processor that holds one, and neither [acquire] nor [release] nor
    [popcli] panics as long as every processor acquires only locks it does not
    hold and releases only locks it holds. *)
Theorem spinlock_mutex ncpu nlocks cs ls :
  rtc smp_step (smp0 ncpu nlocks) (cs, ls) →
  (∀ l i j c d, cs !! i = Some c → cs !! j = Some d → l ∈ c_held c → l ∈ c_held d → i = j) ∧
  (∀ l i c, cs !! i = Some c → l ∈ c_held c → c_if c = false) ∧
  (∀ i c msg, cs !! i = Some c → c_pc c ≠ Panicked msg).
Proof.
  intros [Hcpus Hlocks]%smp_reach. simpl in *. split_and!.
  - intros l i j c d Hc Hd Hl Hl'. destruct (lookup_lt_is_Some_2 ls l) as [lk Hlk]; [by eapply (ck_held _ _ (Hcpus i c Hc))|].
    eapply (lo_one _ _ _ (Hlocks l lk Hlk)); [done..|by left|by left].
  - intros l i c Hc Hl. pose proof (Hcpus i c Hc) as [N1 N2 N3 N4 N5]. apply N3. pose proof (size_pos_elem_of l _ Hl).
    unfold pending in N1. destruct (c_pc c); lia.
  - intros i c msg Hc E. pose proof (ck_pc _ _ (Hcpus i c Hc)) as H. by rewrite E in H.
Qed.

(** No processor waits for a lock that is free: one that spins in
    [acquire] takes the lock with its next access unless another processor
    has taken it, and everywhere else in [acquire] and [release] a processor
    goes on with every access it makes. *)
Theorem spinlock_progress ncpu nlocks cs ls i c :
  rtc smp_step (smp0 ncpu nlocks) (cs, ls) → cs !! i = Some c → c_pc c ≠ Idle →
  ∃ c' ls', lock_access i c ls = Some (c', ls') ∧
    (c_pc c' ≠ c_pc c ∨ ∃ l j d, c_pc c = AcqXchg l ∧ j ≠ i ∧ cs !! j = Some d ∧ owns d l).
Proof.
  intros [Hcpus Hlocks]%smp_reach Hc Hpc. simpl in *. pose proof (Hcpus i c Hc) as [N1 N2 N3 N4 N5].
  assert (∀ l, (l < length ls)%nat → is_Some (ls !! l)) as Hls by apply lookup_lt_is_Some_2. unfold lock_access.
  destruct (c_pc c) as [|l|l|l|l|l|l|l|l| |msg] eqn:E; try done.
  3: { destruct N4 as [Hll Hnl]. destruct (Hls l Hll) as [lk Hlk]. rewrite Hlk. simpl. destruct (lk_locked lk) eqn:El; eexists _, _; (split; [done|]).
       - right. destruct (lo_taken _ _ _ (Hlocks l lk Hlk) El) as (j & d & Hj & Ho). exists l, j, d. split_and!; try done.
         intros ->. simplify_eq. destruct Ho; congruence.
       - by left. }
  1-3: destruct N4 as [Hll Hnl]; destruct (Hls l Hll) as [lk Hlk]; rewrite Hlk; simpl; eexists _, _; (split; [done|]); left; simpl;
    repeat case_match; congruence.
  1-4: destruct (Hls l (N5 l N4)) as [lk Hlk]; rewrite Hlk; simpl; eexists _, _; (split; [done|]); left; simpl;
    repeat case_match; congruence.
  eexists _, _. split; [done|]. left. unfold pending in N1. rewrite E in N1.
  destruct (popcli_fields (c <| c_pc := Idle |>)) as (E1 & _); [simpl; lia|simpl; apply N3; lia|]. by rewrite E1.
Qed.

(** [pushcli] and [popcli] nest: after any number of [pushcli] and fewer
    [popcli] interrupts are off, after as many they are as before. *)
Theorem pushcli_popcli_nest c n k :
  c_ncli c = 0 → (k ≤ n)%nat →
  let c' := Nat.iter k popcli (Nat.iter n pushcli c) in
  c_pc c' = c_pc c ∧ c_ncli c' = Z.of_nat n - Z.of_nat k ∧ c_if c' = if (k =? n)%nat then c_if c else false.
Proof.
  intros Hz Hk.
  assert (let d := Nat.iter n pushcli c in c_pc d = c_pc c ∧ c_ncli d = Z.of_nat n ∧ c_if d = (if (n =? 0)%nat then c_if c else false) ∧
    ((0 < n)%nat → c_intena d = c_if c)) as (P1 & P2 & P3 & P4).
  { clear k Hk. induction n as [|n IH]; [split_and!; [done|done|done|lia]|]. cbn zeta in *.
    change (Nat.iter (S n) pushcli c) with (pushcli (Nat.iter n pushcli c)). set (d := Nat.iter n pushcli c) in *. destruct IH as (I1 & I2 & I3 & I4). destruct (pushcli_fields d) as (E1 & _ & _ & E4 & E5).
    split_and!; [congruence|lia|done|]. intros _. unfold pushcli. simpl. destruct (Z.eqb_spec (c_ncli d) 0); simpl; [|apply I4; lia].
    rewrite I3. destruct n; [done|lia]. }
  generalize dependent (Nat.iter n pushcli c). intros d P1 P2 P3 P4.
  assert (let e := Nat.iter k popcli d in c_pc e = c_pc c ∧ c_ncli e = Z.of_nat n - Z.of_nat k ∧ c_if e = (if (k =? n)%nat then c_if c else false) ∧
    c_intena e = c_intena d) as (? & ? & ? & _); [|done].
  induction k as [|k IH]; cbn zeta in *.
  - simpl. split_and!; [done|lia| |done]. rewrite P3. by destruct n.
  - change (Nat.iter (S k) popcli d) with (popcli (Nat.iter k popcli d)). destruct IH as (I1 & I2 & I3 & I4); [lia|]. set (e := Nat.iter k popcli d) in *.
    rewrite (proj2 (Nat.eqb_neq k n)) in I3 by lia. unfold popcli. rewrite I3. simpl. rewrite I2.
    destruct (Z.ltb_spec (Z.of_nat n - Z.of_nat k - 1) 0); [lia|]. destruct (Z.eqb_spec (Z.of_nat n - Z.of_nat k - 1) 0).
    + assert (n = S k) as -> by lia. rewrite Nat.eqb_refl. simpl. rewrite I4, P4 by lia.
      destruct (c_if c) eqn:Ei; simpl; split_and!; try done; try lia; rewrite I4; apply P4; lia.
    + simpl. destruct (Nat.eqb_spec (S k) n); [lia|]. destruct n as [|n']; [lia|]. simpl in *. split_and!; try done; try lia.
      destruct (Nat.eqb_spec k n'); [lia|done].
Qed.

(** ** Examples *)

Module SpinlockExamples.
(** Processor [i] executes its next access. *)
Definition access (i : nat) (st : smp) : smp :=
  match st.1 !! i with
  | Some c => match lock_access i c st.2 with Some (c', ls') => (<[i := c']> st.1, ls') | None => st end
  | None => st
  end.
Definition start (i l : nat) (st : smp) : smp :=
  match st.1 !! i with Some c => (<[i := acquire_start l c]> st.1, st.2) | None => st end.

(** Both processors want the lock; the first gets it, the second spins. *)
Definition ex_smp : smp :=
  access 1 (access 1 (access 0 (access 0 (access 0 (start 1 0 (start 0 0 (smp0 2 1))))))).

Lemma access_step i st c c' ls' :
  st.1 !! i = Some c → lock_access i c st.2 = Some (c', ls') → smp_step st (access i st).
Proof. intros Hc Ha. unfold access. rewrite Hc, Ha. destruct st. by eapply ss_access. Qed.
Lemma start_step i l st c :
  st.1 !! i = Some c → c_pc c = Idle → (l < length st.2)%nat → l ∉ c_held c → smp_step st (start i l st).
Proof. intros Hc Hi Hl Hn. unfold start. rewrite Hc. destruct st. eapply ss_client; [done|done|by constructor]. Qed.

Lemma ex_reach : rtc smp_step (smp0 2 1) ex_smp.
Proof.
  unfold ex_smp. eapply rtc_l; [apply (start_step 0 0 _ cpu0); [done|done|simpl; lia|set_solver]|].
  eapply rtc_l; [apply (start_step 1 0 _ cpu0); [done|done|simpl; lia|set_solver]|].
  do 3 (eapply rtc_l; [eapply (access_step 0); [vm_compute; reflexivity..]|]).
  do 2 (eapply rtc_l; [eapply (access_step 1); [vm_compute; reflexivity..]|]). apply rtc_refl.
Qed.

Lemma spinlock_mutex_witness : ∃ c d, ex_smp.1 !! 0%nat = Some c ∧ ex_smp.1 !! 1%nat = Some d ∧ (0%nat ∈ c_held c) ∧ c_if c = false.
Proof.
  destruct (spinlock_mutex 2 1 ex_smp.1 ex_smp.2 ex_reach) as (_ & H & _).
  eexists _, _. split; [reflexivity|]. split; [reflexivity|]. assert (0%nat ∈ c_held (default cpu0 (ex_smp.1 !! 0%nat))) as Hin by (vm_compute; reflexivity).
  split; [exact Hin|]. exact (H 0%nat 0%nat _ eq_refl Hin).
Defined.

Lemma spinlock_progress_witness : ∃ c, ex_smp.1 !! 1%nat = Some c ∧ ∃ l j d, c_pc c = AcqXchg l ∧ j ≠ 1%nat ∧ ex_smp.1 !! j = Some d ∧ owns d l.
Proof.
  eexists. split; [reflexivity|].
  destruct (spinlock_progress 2 1 ex_smp.1 ex_smp.2 1 _ ex_reach eq_refl) as (c' & ls' & E & [H|H]).
  - discriminate.
  - vm_compute in E. injection E as <- <-. destruct H. reflexivity.
  - exact H.
Defined.

Lemma pushcli_popcli_nest_witness : c_if (Nat.iter 2 popcli (Nat.iter 2 pushcli (cpu0 <| c_if := true |>))) = true.
Proof. destruct (pushcli_popcli_nest (cpu0 <| c_if := true |>) 2 2) as (_ & _ & H); [reflexivity|lia|exact H]. Defined.
End SpinlockExamples.
