(* ===== verification/Console.v ===== *)
(** The console ([src/console.c]) and formatted output ([src/printf.c]).

    Characters are numbers.  The screen is the character memory of the display
    and its cursor register; the keyboard is the sequence of characters that
    [getc] returns. *)

From S2P Require Import Prelude Machine Ring.
From stdpp Require Import options.

(** ** Numbers *)

Definition digits_lower : list Z := [48; 49; 50; 51; 52; 53; 54; 55; 56; 57; 97; 98; 99; 100; 101; 102].
Definition digits_upper : list Z := [48; 49; 50; 51; 52; 53; 54; 55; 56; 57; 65; 66; 67; 68; 69; 70].

(** [do { buf[i++] = digits[x % base]; } while((x /= base) != 0);] *)
Fixpoint digit_loop (fuel : nat) (digits : list Z) (x base : Z) : list Z :=
  match fuel with
  | O => []
  | S fuel =>
      default 0 (aget digits (x mod base)) ::
      (if x / base =? 0 then [] else digit_loop fuel digits (x / base) base)
  end.

(** What [printint] prints; 32 turns are enough for any base. *)
Definition printint (digits : list Z) (xx base : Z) (sign : bool) : list Z :=
  let neg := sign && (xx <? 0) in
  let x := if neg then u32 (- xx) else u32 xx in
  rev (digit_loop 32 digits x base ++ (if neg then [45] else [])).

(** ** Formats *)

Definition nullstr : list Z := [40; 110; 117; 108; 108; 41].

Section format.
(** The string at an address. *)
Variable str_at : Z → list Z.

(** [cprintf(fmt, args)], with the arguments as 32-bit words; [None] when the
    format uses more arguments than there are. *)
Fixpoint cprintf_out (fmt : list Z) (args : list Z) : option (list Z) :=
  match fmt with
  | [] => Some []
  | c :: fmt1 =>
      if negb (c =? 37) then app [c] <$> cprintf_out fmt1 args else
      match fmt1 with
      | [] => Some []
      | d :: fmt =>
          if d =? 100 then
            match args with a :: args => app (printint digits_lower (s32 a) 10 true) <$> cprintf_out fmt args | [] => None end
          else if (d =? 120) || (d =? 112) then
            match args with a :: args => app (printint digits_lower (s32 a) 16 false) <$> cprintf_out fmt args | [] => None end
          else if d =? 115 then
            match args with a :: args => app (if a =? 0 then nullstr else str_at a) <$> cprintf_out fmt args | [] => None end
          else if d =? 37 then app [37] <$> cprintf_out fmt args
          else app [37; d] <$> cprintf_out fmt args
      end
  end.

(** [printf] of the user library; [pct] is [state == '%']. *)
Fixpoint printf_out (pct : bool) (fmt : list Z) (ap : list Z) : option (list Z) :=
  match fmt with
  | [] => Some []
  | c :: fmt =>
      if negb pct then
        if c =? 37 then printf_out true fmt ap else app [c] <$> printf_out false fmt ap
      else if c =? 100 then
        match ap with a :: ap => app (printint digits_upper (s32 a) 10 true) <$> printf_out false fmt ap | [] => None end
      else if (c =? 120) || (c =? 112) then
        match ap with a :: ap => app (printint digits_upper (s32 a) 16 false) <$> printf_out false fmt ap | [] => None end
      else if c =? 115 then
        match ap with a :: ap => app (if a =? 0 then nullstr else str_at a) <$> printf_out false fmt ap | [] => None end
      else if c =? 99 then
        match ap with a :: ap => app [u8 a] <$> printf_out false fmt ap | [] => None end
      else if c =? 37 then app [c] <$> printf_out false fmt ap
      else app [37; c] <$> printf_out false fmt ap
  end.
End format.

(** ** The screen *)

Definition BACKSPACE : Z := 0x100.

Record cga := Cga { cg_pos : Z; cg_crt : list Z }.

(** The second half of [cgaputc]: the cursor has moved to [pos]. *)
Definition cga_show (pos : Z) (crt : list Z) : M cga unit :=
  if (pos <? 0) || (25 * 80 <? pos) then panic "pos under/overflow" else
  let '(pos, crt) :=
    if 24 <=? pos / 80 then
      let crt := take (Z.to_nat (23 * 80)) (drop 80 crt) ++ drop (Z.to_nat (23 * 80)) crt in
      let pos := pos - 80 in
      (pos, take (Z.to_nat pos) crt ++ replicate (Z.to_nat (24 * 80 - pos)) 0 ++ drop (Z.to_nat (24 * 80)) crt)
    else (pos, crt) in
  of_option "crt[]" (aget crt pos) ;;
  modify (λ _, Cga pos (aset crt pos (Z.lor 32 0x0700))).

(** [cgaputc(c)] on the display's 25 lines of 80 cells. *)
Definition cgaputc (c : Z) : M cga unit :=
  s <- get ;;
  let pos := cg_pos s in
  let crt := cg_crt s in
  if c =? 10 then cga_show (pos + (80 - pos mod 80)) crt
  else if c =? BACKSPACE then cga_show (if 0 <? pos then pos - 1 else pos) crt
  else of_option "crt[]" (aget crt pos) ;; cga_show (pos + 1) (aset crt pos (Z.lor (Z.land c 0xff) 0x0700)).

(** ** Line input *)

Definition INPUT_BUF : Z := 128.
Definition ctrl (x : Z) : Z := x - 64.

Record inputbuf := Input { in_buf : list Z; in_r : Z; in_w : Z; in_e : Z }.
#[global] Instance eta_inputbuf : Eta inputbuf := λ i, Input (in_buf i) (in_r i) (in_w i) (in_e i).

(** The characters [consputc] echoed, and whether readers were woken. *)
Record echo := Echo { ec_out : list Z; ec_woken : bool }.

(** [while(input.e != input.w && input.buf[(input.e-1) % INPUT_BUF] != '\n')] *)
Fixpoint kill_line (fuel : nat) (i : inputbuf) (out : list Z) : inputbuf * list Z :=
  match fuel with
  | O => (i, out)
  | S fuel =>
      if negb (in_e i =? in_w i) && negb (default 0 (aget (in_buf i) (u32 (in_e i - 1) mod INPUT_BUF)) =? 10)
      then kill_line fuel (i <| in_e ::= λ e, u32 (e - 1) |>) (out ++ [BACKSPACE])
      else (i, out)
  end.

(** One character of [consoleintr]. *)
Definition input_char (c : Z) (i : inputbuf) : inputbuf * echo :=
  if c =? ctrl 80 then (i, Echo [] false)
  else if c =? ctrl 85 then
    let '(i, out) := kill_line (Z.to_nat INPUT_BUF) i [] in (i, Echo out false)
  else if (c =? ctrl 72) || (c =? 0x7f) then
    if negb (in_e i =? in_w i) then (i <| in_e ::= λ e, u32 (e - 1) |>, Echo [BACKSPACE] false) else (i, Echo [] false)
  else if negb (c =? 0) && (u32 (in_e i - in_r i) <? INPUT_BUF) then
    let c := if c =? 13 then 10 else c in
    let i := i <| in_buf ::= λ b, aset b (in_e i mod INPUT_BUF) (u8 c) |> <| in_e ::= λ e, u32 (e + 1) |> in
    if (c =? 10) || (c =? ctrl 68) || (in_e i =? u32 (in_r i + INPUT_BUF))
    then (i <| in_w := in_e i |>, Echo [c] true) else (i, Echo [c] false)
  else (i, Echo [] false).

(** The loop of [consoleintr]: the characters typed until [getc] has no more;
    [true] if the process listing was asked for. *)
Fixpoint consoleintr (cs : list Z) (i : inputbuf) : inputbuf * list Z * bool :=
  match cs with
  | [] => (i, [], false)
  | c :: cs =>
      let '(i, e) := input_char c i in
      let '(i, out, dump) := consoleintr cs i in
      (i, ec_out e ++ out, (c =? ctrl 80) || dump)
  end.

(** How a read ends: with the bytes it copied, because the process was killed,
    or asleep, with [n] bytes still to go. *)
Inductive read_end := Returned | Killed | Asleep (n : nat).

(** The loop of [consoleread]; [some] is [n < target]. *)
Fixpoint consoleread_loop (n : nat) (killed some : bool) (i : inputbuf) : inputbuf * list Z * read_end :=
  match n with
  | O => (i, [], Returned)
  | S n' =>
      if in_r i =? in_w i then (i, [], if killed then Killed else Asleep n) else
      let c := default 0 (aget (in_buf i) (in_r i mod INPUT_BUF)) in
      let i := i <| in_r ::= λ r, u32 (r + 1) |> in
      if c =? ctrl 68 then (if some then i <| in_r ::= λ r, u32 (r - 1) |> else i, [], Returned)
      else if c =? 10 then (i, [c], Returned)
      else let '(i, l, e) := consoleread_loop n' killed true i in (i, c :: l, e)
  end.
Definition consoleread (n : Z) (killed : bool) (i : inputbuf) : inputbuf * list Z * read_end :=
  consoleread_loop (Z.to_nat n) killed false i.

(** ** Printed numbers read back *)

(** The value of a digit, and of a string of digits. *)
Definition digit_val (digits : list Z) (c : Z) : Z :=
  match list_find (λ d, d = c) digits with Some (i, _) => Z.of_nat i | None => 0 end.
Definition read_digits (digits : list Z) (base : Z) (l : list Z) : Z := foldl (λ n c, n * base + digit_val digits c) 0 l.
Definition read_int (digits : list Z) (base : Z) (l : list Z) : Z :=
  match l with
  | c :: l' => if c =? 45 then - read_digits digits base l' else read_digits digits base l
  | [] => 0
  end.

(** The two tables of digits. *)
Definition is_digits (digits : list Z) : Prop := digits = digits_lower ∨ digits = digits_upper.

Lemma digit_val_get digits i : is_digits digits → 0 ≤ i < 16 →
  digit_val digits (default 0 (aget digits i)) = i ∧ default 0 (aget digits i) ≠ 45.
Proof.
  intros Hd Hi. assert (i ∈ seqZ 0 16) as Hin by (apply elem_of_seqZ; lia).
  assert (Forall (λ i, digit_val digits (default 0 (aget digits i)) = i ∧ default 0 (aget digits i) ≠ 45) (seqZ 0 16)) as Hf
    by (destruct Hd as [-> | ->]; apply (bool_decide_eq_true_1 _); vm_compute; done).
  rewrite Forall_forall in Hf. by apply Hf.
Qed.

Lemma read_digits_snoc digits base l c : read_digits digits base (l ++ [c]) = read_digits digits base l * base + digit_val digits c.
Proof. unfold read_digits. by rewrite foldl_app. Qed.

Lemma digit_loop_spec fuel digits x base :
  is_digits digits → 2 ≤ base ≤ 16 → 0 ≤ x < base ^ Z.of_nat fuel → (0 < fuel)%nat →
  read_digits digits base (rev (digit_loop fuel digits x base)) = x ∧
  Forall (λ c, c ≠ 45) (digit_loop fuel digits x base) ∧ digit_loop fuel digits x base ≠ [].
Proof.
  intros Hd Hb. revert x. induction fuel as [|fuel IH]; intros x Hx Hf; [lia|]. cbn [digit_loop rev].
  pose proof (Z.mod_pos_bound x base ltac:(lia)) as Hm. destruct (digit_val_get digits (x mod base) Hd ltac:(lia)) as [Ev Ene].
  pose proof (Z.div_mod x base ltac:(lia)) as Hdm. rewrite Nat2Z.inj_succ, Z.pow_succ_r in Hx by lia.
  assert (0 ≤ x / base < base ^ Z.of_nat fuel) as Hq by (split; [apply Z.div_pos; lia|apply Z.div_lt_upper_bound; lia]).
  destruct (Z.eqb_spec (x / base) 0) as [E|E].
  - rewrite read_digits_snoc, Ev. split_and!; [|by repeat constructor|done]. unfold read_digits. simpl. lia.
  - destruct (IH (x / base) Hq) as (I1 & I2 & I3); [destruct fuel; [simpl in Hq; lia|lia]|].
    rewrite read_digits_snoc, Ev, I1. split_and!; [lia|by constructor|done].
Qed.

Lemma digit_loop_length fuel digits x base k :
  2 ≤ base → 0 ≤ x < base ^ Z.of_nat k → (0 < k)%nat → (length (digit_loop fuel digits x base) ≤ k)%nat.
Proof.
  intros Hb. revert x k. induction fuel as [|fuel IH]; intros x k Hx Hk; simpl; [lia|]. destruct (Z.eqb_spec (x / base) 0) as [E|E]; [simpl; lia|].
  destruct k as [|k]; [lia|]. rewrite Nat2Z.inj_succ, Z.pow_succ_r in Hx by lia.
  assert (0 ≤ x / base < base ^ Z.of_nat k) as Hq by (split; [apply Z.div_pos; lia|apply Z.div_lt_upper_bound; lia]).
  destruct k as [|k]; [simpl in Hq; lia|]. specialize (IH (x / base) (S k) Hq ltac:(lia)). simpl in *. lia.
Qed.

Lemma digit_loop_fuel fuel digits x base k :
  2 ≤ base → 0 ≤ x < base ^ Z.of_nat k → (0 < k ≤ fuel)%nat → digit_loop fuel digits x base = digit_loop k digits x base.
Proof.
  intros Hb. revert x fuel. induction k as [|k IH]; intros x fuel Hx Hk; [lia|]. destruct fuel as [|fuel]; [lia|]. cbn [digit_loop]. f_equal.
  destruct (Z.eqb_spec (x / base) 0) as [E|E]; [done|]. rewrite Nat2Z.inj_succ, Z.pow_succ_r in Hx by lia.
  assert (0 ≤ x / base < base ^ Z.of_nat k) as Hq by (split; [apply Z.div_pos; lia|apply Z.div_lt_upper_bound; lia]).
  apply IH; [done|]. destruct k; [simpl in Hq|]; lia.
Qed.

Lemma printint_value digits xx base sign :
  is_digits digits → base = 10 ∨ base = 16 → - 2 ^ 31 ≤ xx < 2 ^ 31 →
  read_int digits base (printint digits xx base sign) = (if sign then xx else u32 xx) ∧
  (length (printint digits xx base sign) ≤ 16)%nat.
Proof.
  intros Hd Hb Hx. unfold printint. set (neg := sign && (xx <? 0)). set (x := if neg then u32 (- xx) else u32 xx).
  assert (0 ≤ x < 2 ^ 32) as Hr by (unfold x; destruct neg; apply u32_range).
  assert (2 ≤ base ≤ 16) as Hb' by lia.
  assert (∀ k, (10 ≤ k)%nat → x < base ^ Z.of_nat k) as Hpow.
  { intros k Hk. apply Z.lt_le_trans with (base ^ 10); [destruct Hb as [-> | ->]; lia|]. apply Z.pow_le_mono_r; lia. }
  destruct (digit_loop_spec 32 digits x base Hd Hb') as (V & F & N); [split; [lia|apply Hpow; lia]|lia|].
  pose proof (digit_loop_length 32 digits x base 10 ltac:(lia) (conj (proj1 Hr) (Hpow 10%nat ltac:(lia))) ltac:(lia)) as Hl.
  generalize dependent (digit_loop 32 digits x base). intros l V F N Hl.
  split; [|rewrite length_rev, length_app; destruct neg; simpl; lia]. rewrite rev_app_distr. destruct neg eqn:En; simpl.
  - rewrite V. unfold neg in En. apply andb_true_iff in En as [-> En%Z.ltb_lt]. unfold x. rewrite u32_id; lia.
  - assert (∃ c m, rev l = c :: m ∧ c ≠ 45) as (c & m & E & Hc).
    { destruct (rev l) as [|c m] eqn:E; [destruct N; by apply (f_equal (@rev Z)) in E; rewrite rev_involutive in E|]. exists c, m. split; [done|].
      rewrite Forall_forall in F. apply F. apply list_elem_of_In, in_rev. rewrite E. by left. }
    rewrite E. simpl. destruct (Z.eqb_spec c 45); [done|].
    assert (x = if sign then xx else u32 xx) as Ex; [|rewrite <-E, V; done].
    unfold x. destruct sign; [|done]. simpl in *. apply Z.ltb_ge in En. apply u32_id. lia.
Qed.

(** [printint] prints a number that reads back as the one given, signed
    in base 10 or unsigned, and its digits and sign fit the 16 bytes of
    [buf], for every 32-bit argument (also the most negative one). *)
Theorem printint_reads_back digits xx base sign :
  is_digits digits → base = 10 ∨ base = 16 → - 2 ^ 31 ≤ xx < 2 ^ 31 →
  read_int digits base (printint digits xx base sign) = (if sign then xx else u32 xx) ∧
  (length (printint digits xx base sign) ≤ 16)%nat.
Proof. apply printint_value. Qed.

(** ** The screen stays in bounds *)

Definition CELLS : Z := 24 * 80.
Definition blank : Z := Z.lor 32 0x0700.
Definition cga_ok (s : cga) : Prop := 0 ≤ cg_pos s < CELLS ∧ length (cg_crt s) = Z.to_nat (25 * 80).

(** The cells before the cursor, and what a character makes of them. *)
Definition shown (s : cga) : list Z := take (Z.to_nat (cg_pos s)) (cg_crt s).
Definition typed (c : Z) (s : cga) : list Z :=
  if c =? 10 then take (Z.to_nat (cg_pos s + (80 - cg_pos s mod 80))) (cg_crt s)
  else if c =? BACKSPACE then take (Z.to_nat (cg_pos s - 1)) (cg_crt s)
  else shown s ++ [Z.lor (Z.land c 0xff) 0x0700].
Definition scroll (l : list Z) : list Z := if (length l <? Z.to_nat CELLS)%nat then l else drop 80 l.

Lemma take_aset (l : list Z) i (v : Z) : take (Z.to_nat i) (aset l i v) = take (Z.to_nat i) l.
Proof.
  unfold aset. destruct (i <? 0) eqn:E; [done|]. apply take_insert_ge. lia.
Qed.

Lemma cga_show_spec pos crt s :
  0 ≤ pos ≤ CELLS → length crt = Z.to_nat (25 * 80) →
  wp (cga_show pos crt) (λ _ s',
    cga_ok s' ∧ shown s' = scroll (take (Z.to_nat pos) crt) ∧ aget (cg_crt s') (cg_pos s') = Some blank) s.
Proof.
  unfold CELLS. intros Hp Hl. unfold cga_show.
  replace ((pos <? 0) || (25 * 80 <? pos)) with false by (symmetry; apply orb_false_iff; split; apply Z.ltb_ge; lia).
  assert (∀ q crt', 0 ≤ q < 24 * 80 → length crt' = Z.to_nat (25 * 80) → take (Z.to_nat q) crt' = scroll (take (Z.to_nat pos) crt) →
    wp (of_option "crt[]" (aget crt' q) ;; modify (λ _, Cga q (aset crt' q (Z.lor 32 0x0700)))) (λ _ s',
      cga_ok s' ∧ shown s' = scroll (take (Z.to_nat pos) crt) ∧ aget (cg_crt s') (cg_pos s') = Some blank) s) as Hend.
  { intros q crt' Hq Hl' E. destruct (aget_is_Some crt' q) as [v Ev]; [lia|]. rewrite Ev. wp_steps.
    unfold cga_ok, shown, CELLS, blank. simpl. rewrite length_aset, take_aset. split_and!; [lia|lia|done|done|].
    apply aget_aset_eq. lia. }
  destruct (Z.leb_spec 24 (pos / 80)) as [H|H].
  - assert (pos = 24 * 80) as -> by (pose proof (Z.mul_div_le pos 80 ltac:(lia)); lia).
    apply Hend; [lia| |]; rewrite ?length_app, ?length_take, ?length_replicate, ?length_drop, ?length_app, ?length_take, ?length_drop; [lia|].
    unfold scroll, CELLS. rewrite length_take. destruct (Nat.ltb_spec (Z.to_nat (24 * 80) `min` length crt) (Z.to_nat (24 * 80))); [lia|].
    rewrite !take_app_le by (rewrite ?length_take, ?length_app, ?length_take, ?length_drop; lia).
    rewrite !take_take, take_drop_commute. by do 2 f_equal.
  - assert (pos < 24 * 80) by (apply Z.nle_gt; intros ?; pose proof (Z.div_le_lower_bound pos 80 24); lia).
    apply Hend; [lia|lia|]. unfold scroll, CELLS. rewrite length_take.
    destruct (Nat.ltb_spec (Z.to_nat pos `min` length crt) (Z.to_nat (24 * 80))); [done|lia].
Qed.

(** On a screen of 25 lines with the cursor on one of the first 24,
    [cgaputc] never panics nor leaves the character memory: the cursor stays
    there, the cells before it are those it left with the character appended,
    the line completed or the last one dropped, scrolled up by a line when
    line 25 is reached, and the cell under the cursor is blank. *)
Theorem cgaputc_shows c s :
  cga_ok s →
  wp (cgaputc c) (λ _ s', cga_ok s' ∧ shown s' = scroll (typed c s) ∧ aget (cg_crt s') (cg_pos s') = Some blank) s.
Proof.
  intros [Hp Hl]. unfold cgaputc, typed, shown, CELLS in *. wp_steps. destruct (c =? 10).
  { pose proof (Z.mod_pos_bound (cg_pos s) 80 ltac:(lia)). pose proof (Z.div_mod (cg_pos s) 80 ltac:(lia)).
    pose proof (Z.div_lt_upper_bound (cg_pos s) 80 24 ltac:(lia) ltac:(lia)). apply cga_show_spec; unfold CELLS; [lia|done]. }
  destruct (c =? BACKSPACE).
  { destruct (Z.ltb_spec 0 (cg_pos s)); [apply cga_show_spec; unfold CELLS; [lia|done]|].
    replace (cg_pos s) with 0 in * by lia. replace (Z.to_nat (0 - 1)) with (Z.to_nat 0) by lia. apply cga_show_spec; unfold CELLS; [lia|done]. }
  destruct (aget_is_Some (cg_crt s) (cg_pos s)) as [v Ev]; [lia|]. wp_steps; [done|].
  set (x := Z.lor (Z.land c 255) 1792).
  replace (take (Z.to_nat (cg_pos s)) (cg_crt s) ++ [x]) with (take (Z.to_nat (cg_pos s + 1)) (aset (cg_crt s) (cg_pos s) x)).
  { apply cga_show_spec; unfold CELLS; [lia|by rewrite length_aset]. }
  replace (Z.to_nat (cg_pos s + 1)) with (S (Z.to_nat (cg_pos s))) by lia.
  rewrite (take_S_r _ _ x), take_aset; [done|]. unfold aset. destruct (Z.ltb_spec (cg_pos s) 0); [lia|]. apply list_lookup_insert_eq. lia.
Qed.

(** ** Line input is a line editor

    What the three counters and the ring mean: [cq] are the characters of
    finished lines that no one has read, [eq] those of the line being typed. *)

Definition in_len (i : inputbuf) : Z := u32 (in_e i - in_r i).
Definition in_com (i : inputbuf) : Z := u32 (in_w i - in_r i).
Record holds (i : inputbuf) (cq eq : list Z) : Prop := {
  h_buf : length (in_buf i) = Z.to_nat INPUT_BUF;
  h_r : 0 ≤ in_r i < 2 ^ 32;
  h_w : 0 ≤ in_w i < 2 ^ 32;
  h_e : 0 ≤ in_e i < 2 ^ 32;
  h_all : ring_list INPUT_BUF (in_buf i) (in_r i) (in_len i) = cq ++ eq;
  h_com : in_com i = Z.of_nat (length cq);
  h_len : in_len i = Z.of_nat (length cq) + Z.of_nat (length eq);
  h_max : in_len i ≤ INPUT_BUF;
  h_nl : 10 ∉ eq
}.

(** The editor: a typed character, with what it echoes; and a read of at most
    [n] characters of the finished lines. *)
Definition ed_char (c : Z) (cq eq : list Z) : list Z * list Z * list Z :=
  if c =? ctrl 80 then (cq, eq, [])
  else if c =? ctrl 85 then (cq, [], replicate (length eq) BACKSPACE)
  else if (c =? ctrl 72) || (c =? 0x7f) then
    if bool_decide (eq = []) then (cq, [], []) else (cq, removelast eq, [BACKSPACE])
  else if negb (c =? 0) && (Z.of_nat (length cq) + Z.of_nat (length eq) <? INPUT_BUF) then
    let c := if c =? 13 then 10 else c in
    if (c =? 10) || (c =? ctrl 68) || (Z.of_nat (length cq) + Z.of_nat (length eq) + 1 =? INPUT_BUF)
    then (cq ++ eq ++ [c], [], [c]) else (cq, eq ++ [c], [c])
  else (cq, eq, []).
Fixpoint ed_chars (cs cq eq : list Z) : list Z * list Z * list Z :=
  match cs with
  | [] => (cq, eq, [])
  | c :: cs => let '(cq, eq, o) := ed_char c cq eq in let '(cq, eq, out) := ed_chars cs cq eq in (cq, eq, o ++ out)
  end.
Fixpoint ed_read (n : nat) (killed some : bool) (cq : list Z) : list Z * list Z * read_end :=
  match n, cq with
  | O, _ => (cq, [], Returned)
  | S _, [] => ([], [], if killed then Killed else Asleep n)
  | S n', c :: cq' =>
      if c =? ctrl 68 then (if some then cq else cq', [], Returned)
      else if c =? 10 then (cq', [c], Returned)
      else let '(q, l, e) := ed_read n' killed true cq' in (q, c :: l, e)
  end.

Lemma input_pos : 0 < INPUT_BUF. Proof. done. Qed.
Lemma input_div : (INPUT_BUF | 2 ^ 32). Proof. by exists (2 ^ 25). Qed.

Lemma u32_shift a b k : 0 ≤ u32 (a - b) + k < 2 ^ 32 → u32 (u32 (a + k) - b) = u32 (a - b) + k.
Proof.
  intros H. rewrite <-(u32_id (u32 (a - b) + k)) by done. unfold u32. rewrite Zminus_mod_idemp_l, Zplus_mod_idemp_l. f_equal. lia.
Qed.
Lemma u32_shift_r a b k : 0 ≤ u32 (a - b) - k < 2 ^ 32 → u32 (a - u32 (b + k)) = u32 (a - b) - k.
Proof.
  intros H. rewrite <-(u32_id (u32 (a - b) - k)) by done. unfold u32. rewrite Zminus_mod_idemp_r, Zminus_mod_idemp_l. f_equal. lia.
Qed.
Lemma u32_sub_inj a b r : 0 ≤ a < 2 ^ 32 → 0 ≤ b < 2 ^ 32 → u32 (a - r) = u32 (b - r) → a = b.
Proof. unfold u32. intros. Z.div_mod_to_equations. lia. Qed.

Lemma holds_ew i cq eq : holds i cq eq → (in_e i =? in_w i) = bool_decide (eq = []).
Proof.
  intros [_ Hr Hw He _ Hc Hl Hm _]. unfold in_com, in_len in *. case_bool_decide as E.
  - subst. apply Z.eqb_eq. apply (u32_sub_inj _ _ (in_r i)); try done. simpl in *. lia.
  - apply Z.eqb_neq. intros Ee. apply E, nil_length_inv. rewrite Ee in Hl. lia.
Qed.

Lemma holds_rw i cq eq : holds i cq eq → (in_r i =? in_w i) = bool_decide (cq = []).
Proof.
  intros [_ Hr Hw He _ Hc Hl Hm _]. unfold in_com, in_len in *. case_bool_decide as E.
  - subst. apply Z.eqb_eq. symmetry. apply (u32_sub_inj _ _ (in_r i)); try done. by rewrite Z.sub_diag.
  - apply Z.eqb_neq. intros Ee. apply E, nil_length_inv. rewrite <-Ee, Z.sub_diag in Hc. change (u32 0) with 0 in Hc. lia.
Qed.

(** The last character of the line is dropped. *)
Lemma holds_back i cq eq c : holds i cq (eq ++ [c]) →
  holds (i <| in_e ::= λ e, u32 (e - 1) |>) cq eq ∧ aget (in_buf i) (u32 (in_e i - 1) mod INPUT_BUF) = Some c.
Proof.
  intros [Hb Hr Hw He Ha Hc Hl Hm Hn]. rewrite length_app in Hl. simpl in Hl.
  assert (in_len i = in_len (i <| in_e ::= λ e, u32 (e - 1) |>) + 1) as Hlen.
  { unfold in_len in *. simpl. change (in_e i - 1) with (in_e i + -1). rewrite (u32_shift _ _ (-1)); unfold INPUT_BUF in *; lia. }
  rewrite Hlen, (ring_list_snoc INPUT_BUF), app_assoc in Ha by (unfold in_len; apply u32_range). apply app_inj_tail in Ha as [Ha Hx]. split.
  - split; simpl; try done; [apply u32_range|lia|lia|set_solver].
  - rewrite <-Hx, <-(ring_at_get INPUT_BUF input_pos) by done. f_equal. rewrite (u32_mod_ring _ input_div).
    unfold in_len. simpl. rewrite <-(Zplus_mod_idemp_r (u32 _)), (u32_mod_ring _ input_div), Zplus_mod_idemp_r.
    rewrite <-(Zplus_mod_idemp_r (u32 _ - _)), <-(Zminus_mod_idemp_l (u32 _)), (u32_mod_ring _ input_div), Zminus_mod_idemp_l, Zplus_mod_idemp_r. f_equal. lia.
Qed.

(** A character is typed at the end of the line. *)
Definition in_push (c : Z) (i : inputbuf) : inputbuf :=
  i <| in_buf ::= λ b, aset b (in_e i mod INPUT_BUF) (u8 c) |> <| in_e ::= λ e, u32 (e + 1) |>.
Lemma in_push_len c i : in_len i < INPUT_BUF → in_len (in_push c i) = in_len i + 1.
Proof. intros H. unfold in_len, in_push in *. simpl. pose proof (u32_range (in_e i - in_r i)). apply u32_shift. unfold INPUT_BUF in *. lia. Qed.

Lemma in_push_all c i : length (in_buf i) = Z.to_nat INPUT_BUF → in_len i < INPUT_BUF → 0 ≤ c < 256 →
  ring_list INPUT_BUF (in_buf (in_push c i)) (in_r (in_push c i)) (in_len (in_push c i)) =
  ring_list INPUT_BUF (in_buf i) (in_r i) (in_len i) ++ [c].
Proof.
  intros Hb Hl Hc. rewrite in_push_len by done. simpl. unfold u8. rewrite (Z.mod_small c) by done. apply (ring_push INPUT_BUF input_pos); [done| |].
  - split; [apply u32_range|done].
  - unfold in_len. rewrite <-Zplus_mod_idemp_r, (u32_mod_ring _ input_div), Zplus_mod_idemp_r. f_equal. lia.
Qed.

Lemma holds_push i cq eq c : holds i cq eq → in_len i < INPUT_BUF → 0 ≤ c < 256 → c ≠ 10 → holds (in_push c i) cq (eq ++ [c]).
Proof.
  intros [Hb Hr Hw He Ha Hc Hl Hm Hn] Hlt Hbyte Hc10. pose proof (in_push_len c i Hlt) as Hlen. split; try done.
  - simpl. by rewrite length_aset.
  - simpl. apply u32_range.
  - rewrite in_push_all, Ha by done. by rewrite app_assoc.
  - rewrite length_app. simpl. lia.
  - lia.
  - set_solver.
Qed.

Lemma holds_commit i cq eq c : holds i cq eq → in_len i < INPUT_BUF → 0 ≤ c < 256 →
  holds (in_push c i <| in_w := in_e (in_push c i) |>) (cq ++ eq ++ [c]) [].
Proof.
  intros [Hb Hr Hw He Ha Hc Hl Hm Hn] Hlt Hbyte. pose proof (in_push_len c i Hlt) as Hlen.
  assert (Z.of_nat (length (cq ++ eq ++ [c])) = in_len (in_push c i)) as Hall by (rewrite !length_app; simpl; lia).
  split; try done.
  - simpl. by rewrite length_aset.
  - apply u32_range.
  - apply u32_range.
  - rewrite app_nil_r, !app_assoc, <-Ha, <-in_push_all by done. done.
  - unfold in_len in *. simpl in *. lia.
  - change (in_len (in_push c i) ≤ INPUT_BUF). lia.
  - set_solver.
Qed.

Lemma holds_full i cq eq c : holds i cq eq → in_len i < INPUT_BUF →
  (in_e (in_push c i) =? u32 (in_r i + INPUT_BUF)) = (Z.of_nat (length cq) + Z.of_nat (length eq) + 1 =? INPUT_BUF).
Proof.
  intros [Hb Hr Hw He Ha Hc Hl Hm Hn] Hlt. pose proof (in_push_len c i Hlt) as Hlen. rewrite <-Hl, <-Hlen. unfold in_len, in_push. simpl.
  apply eq_true_iff_eq. rewrite !Z.eqb_eq. generalize (in_e i + 1). intros e. unfold u32, INPUT_BUF. Z.div_mod_to_equations. lia.
Qed.

(** The kill character drops the line. *)
Lemma kill_line_spec fuel i cq eq out :
  holds i cq eq → (length eq ≤ fuel)%nat →
  ∃ i', kill_line fuel i out = (i', out ++ replicate (length eq) BACKSPACE) ∧ holds i' cq [].
Proof.
  revert i eq out. induction fuel as [|fuel IH]; intros i eq out H Hf.
  { apply Nat.le_0_r, nil_length_inv in Hf as ->. exists i. by rewrite app_nil_r. }
  cbn [kill_line]. rewrite (holds_ew _ _ _ H). case_bool_decide as E; [subst; exists i; by rewrite app_nil_r|].
  destruct (exists_last E) as (l & c & ->). destruct (holds_back _ _ _ _ H) as [H' Ec]. rewrite Ec.
  assert (c ≠ 10) as Hc by (pose proof (h_nl _ _ _ H); set_solver). apply Z.eqb_neq in Hc. cbn [default from_option id negb andb]. rewrite Hc. cbn [negb].
  rewrite length_app in *. simpl in Hf. destruct (IH _ _ (out ++ [BACKSPACE]) H' ltac:(lia)) as (i' & -> & Hi'). exists i'. split; [|done].
  rewrite Nat.add_1_r, <-app_assoc. done.
Qed.

Lemma input_char_spec c i cq eq : holds i cq eq → 0 ≤ c < 256 →
  let '(i', e) := input_char c i in let '(cq', eq', out) := ed_char c cq eq in holds i' cq' eq' ∧ ec_out e = out.
Proof.
  intros H Hc. unfold input_char, ed_char. destruct (c =? ctrl 80); [done|]. destruct (c =? ctrl 85).
  { destruct (kill_line_spec (Z.to_nat INPUT_BUF) i cq eq [] H) as (i' & -> & Hi'); [|done]. destruct H. unfold INPUT_BUF in *. lia. }
  destruct ((c =? ctrl 72) || (c =? 127)).
  { rewrite (holds_ew _ _ _ H). case_bool_decide as E; simpl; [by subst|]. destruct (exists_last E) as (l & x & ->).
    rewrite removelast_last. split; [|done]. by apply (holds_back _ _ _ x). }
  pose proof (h_len _ _ _ H) as Hl. fold (in_len i). rewrite <-Hl.
  destruct (negb (c =? 0) && (in_len i <? INPUT_BUF)) eqn:Eg; [|done]. apply andb_true_iff in Eg as [_ Hlt%Z.ltb_lt].
  set (d := if c =? 13 then 10 else c). assert (0 ≤ d < 256) as Hd by (unfold d; destruct (c =? 13); lia).
  fold (in_push d i). change (in_r (in_push d i)) with (in_r i). rewrite (holds_full i cq eq d H Hlt), Hl.
  destruct ((d =? 10) || _ || _) eqn:Ed; (split; [|done]); [by apply holds_commit|].
  apply holds_push; try done. intros ->. by rewrite Z.eqb_refl in Ed.
Qed.

Lemma consoleintr_spec cs i cq eq : holds i cq eq → Forall (λ c, 0 ≤ c < 256) cs →
  let '(i', out, _) := consoleintr cs i in let '(cq', eq', out') := ed_chars cs cq eq in holds i' cq' eq' ∧ out = out'.
Proof.
  revert i cq eq. induction cs as [|c cs IH]; intros i cq eq H Hc; [done|]. apply Forall_cons_1 in Hc as [Hc Hcs]. cbn [consoleintr ed_chars].
  pose proof (input_char_spec c i cq eq H Hc) as Hi. destruct (input_char c i) as [i1 e], (ed_char c cq eq) as [[cq1 eq1] o]. destruct Hi as [H1 ->].
  specialize (IH i1 cq1 eq1 H1 Hcs). destruct (consoleintr cs i1) as [[i2 o2] d], (ed_chars cs cq1 eq1) as [[cq2 eq2] o3]. by destruct IH as [? ->].
Qed.

(** A character is read. *)
Lemma holds_pop i cq eq c : holds i (c :: cq) eq →
  holds (i <| in_r ::= λ r, u32 (r + 1) |>) cq eq ∧ aget (in_buf i) (in_r i mod INPUT_BUF) = Some c.
Proof.
  intros [Hb Hr Hw He Ha Hc Hl Hm Hn]. simpl in Hc, Hl.
  assert (in_len (i <| in_r ::= λ r, u32 (r + 1) |>) = in_len i - 1) as Hlen by (unfold in_len in *; simpl; apply u32_shift_r; unfold INPUT_BUF in *; lia).
  rewrite (ring_pop INPUT_BUF input_div) in Ha by lia. injection Ha as Hx Ha. split.
  - split; simpl; try done; [apply u32_range|by rewrite Hlen| |lia|lia].
    unfold in_com in *. simpl. rewrite u32_shift_r; unfold INPUT_BUF in *; lia.
  - rewrite <-Hx, <-(ring_at_get INPUT_BUF input_pos) by done. by rewrite Z.add_0_r.
Qed.

Lemma unread_char i : 0 ≤ in_r i < 2 ^ 32 → i <| in_r ::= λ r, u32 (r + 1) |> <| in_r ::= λ r, u32 (r - 1) |> = i.
Proof.
  intros Hr. transitivity (Input (in_buf i) (u32 (u32 (in_r i + 1) - 1)) (in_w i) (in_e i)); [done|].
  unfold u32. rewrite Zminus_mod_idemp_l, Z.add_simpl_r, Z.mod_small by done. by destruct i.
Qed.

Lemma consoleread_loop_spec n killed some i cq eq : holds i cq eq →
  let '(i', l, e) := consoleread_loop n killed some i in let '(cq', l', e') := ed_read n killed some cq in holds i' cq' eq ∧ l = l' ∧ e = e'.
Proof.
  revert some i cq. induction n as [|n IH]; intros some i cq H; [done|]. cbn [consoleread_loop]. rewrite (holds_rw _ _ _ H).
  destruct cq as [|c cq]; [done|]. rewrite bool_decide_false by done. destruct (holds_pop _ _ _ _ H) as [H1 ->]. cbn [default from_option id ed_read].
  destruct (c =? ctrl 68). { destruct some; [|done]. split; [|done]. by rewrite (unread_char i) by apply H. }
  destruct (c =? 10); [done|]. specialize (IH true _ _ H1).
  destruct (consoleread_loop n killed true _) as [[i' l] e], (ed_read n killed true cq) as [[q l'] e']. by destruct IH as (? & -> & ->).
Qed.

(** C36: The ring buffer with its three counters implements a line editor: a
    burst of typed bytes changes the finished lines and the line being typed,
    and echoes, as the editor does (also when the counters wrap and when the
    buffer is full), and a read takes from the finished lines what the editor
    gives: up to [n] characters, through a newline at most, stopping before an
    end-of-file character that would follow bytes already read. *)
Theorem console_refines_editor i cq eq :
  holds i cq eq →
  (∀ cs, Forall (λ c, 0 ≤ c < 256) cs →
    let '(i', out, _) := consoleintr cs i in let '(cq', eq', out') := ed_chars cs cq eq in holds i' cq' eq' ∧ out = out') ∧
  (∀ n killed,
    let '(i', l, e) := consoleread n killed i in
    let '(cq', l', e') := ed_read (Z.to_nat n) killed false cq in holds i' cq' eq ∧ l = l' ∧ e = e').
Proof. intros H. split; [intros; by apply consoleintr_spec|intros; by apply consoleread_loop_spec]. Qed.

(** ** Examples *)

Module ConsoleExamples.
Definition input0 : inputbuf := Input (replicate 128 0) (2 ^ 32 - 3) (2 ^ 32 - 3) (2 ^ 32 - 3).
Definition screen0 : cga := Cga (24 * 80 - 1) (replicate 2000 0).

Lemma printint_reads_back_witness :
  printint digits_lower (- 2 ^ 31) 10 true = [45; 50; 49; 52; 55; 52; 56; 51; 54; 52; 56] ∧
  read_int digits_lower 10 (printint digits_lower (- 2 ^ 31) 10 true) = - 2 ^ 31 ∧
  (length (printint digits_lower (- 2 ^ 31) 10 true) ≤ 16)%nat.
Proof.
  split; [by vm_compute|]. apply (printint_reads_back digits_lower (- 2 ^ 31) 10 true); [by left|by left|lia].
Defined.

Lemma cgaputc_shows_witness :
  wp (cgaputc 65) (λ _ s', cga_ok s' ∧ shown s' = scroll (typed 65 screen0) ∧ aget (cg_crt s') (cg_pos s') = Some blank) screen0.
Proof. apply (cgaputc_shows 65 screen0). split; [by vm_compute|by vm_compute]. Defined.

Lemma holds_input0 : holds input0 [] [].
Proof. split; try (by vm_compute); apply not_elem_of_nil. Qed.

(** Typed at counters about to wrap: "ab", backspace, "c", newline, "d"; then
    a read of 10. *)
Lemma console_refines_editor_witness :
  ed_chars [97; 98; 8; 99; 13; 100] [] [] = ([97; 99; 10], [100], [97; 98; 256; 99; 10; 100]) ∧
  ed_read 10 false false [97; 99; 10] = ([], [97; 99; 10], Returned) ∧
  (let '(i', out, _) := consoleintr [97; 98; 8; 99; 13; 100] input0 in
   let '(cq', eq', out') := ed_chars [97; 98; 8; 99; 13; 100] [] [] in holds i' cq' eq' ∧ out = out').
Proof.
  split; [done|]. split; [done|]. apply (console_refines_editor input0 [] [] holds_input0). repeat constructor; done.
Defined.
End ConsoleExamples.
