(* ===== verification/SwapName.v ===== *)
(** The names of the swap files ([itoa], [createSwapFile] and [removeSwapFile]
    of [src/fs.c]): every process has one of its own, and the buffer they are
    built in bounds the process ids. *)

From S2P Require Import Prelude Machine Disk Fs File Console.
From stdpp Require Import options.

(** The process ids whose path fits the buffer: at most seven digits. *)
Definition path_fits (pid : Z) : bool := pid <? 10 ^ 7.

(** The length that [itoa] counts. *)
Lemma itoa_len_spec fuel i p : itoa_len fuel i p = p + Z.of_nat (length (digit_loop fuel digits_lower i 10)).
Proof.
  revert i p. induction fuel as [|fuel IH]; intros i p; cbn [itoa_len digit_loop length]; [lia|].
  destruct (i / 10 =? 0); [simpl; lia|]. rewrite IH. lia.
Qed.

Lemma digit_char i : 0 ≤ i < 10 → default 0 (aget digits_lower i) = 48 + i.
Proof.
  intros Hi. assert (i ∈ seqZ 0 10) as Hin by (apply elem_of_seqZ; lia).
  assert (Forall (λ i, default 0 (aget digits_lower i) = 48 + i) (seqZ 0 10)) as Hf by (apply (bool_decide_eq_true_1 _); vm_compute; done).
  rewrite Forall_forall in Hf. by apply Hf.
Qed.

Lemma aset_last (b1 b2 : list Z) x c : aset ((b1 ++ [x]) ++ b2) (Z.of_nat (length (b1 ++ [x])) - 1) c = b1 ++ c :: b2.
Proof.
  unfold aset. rewrite length_app. simpl. destruct (Z.ltb_spec (Z.of_nat (length b1 + 1) - 1) 0); [lia|].
  replace (Z.to_nat (Z.of_nat (length b1 + 1) - 1)) with (length b1 + 0)%nat by lia. by rewrite <-app_assoc, insert_app_r.
Qed.

(** The digits go in from the last one back. *)
Lemma itoa_fill_spec fuel i (b1 b2 : list Z) :
  0 ≤ i → length b1 = length (digit_loop fuel digits_lower i 10) →
  itoa_fill fuel i (Z.of_nat (length b1)) (b1 ++ b2) = rev (digit_loop fuel digits_lower i 10) ++ b2.
Proof.
  revert i b1 b2. induction fuel as [|fuel IH]; intros i b1 b2 Hi Hl; cbn [itoa_fill digit_loop] in *.
  { apply nil_length_inv in Hl. by subst. }
  destruct (exists_last (l := b1)) as (b & x & ->); [by intros ->|]. rewrite aset_last.
  rewrite digit_char in * by (apply Z.mod_pos_bound; lia). rewrite length_app in Hl. simpl in Hl. destruct (i / 10 =? 0) eqn:E.
  - simpl in Hl. assert (b = []) as -> by (apply nil_length_inv; lia). done.
  - cbn [rev]. replace (Z.of_nat (length (b ++ [x])) - 1) with (Z.of_nat (length b)) by (rewrite length_app; simpl; lia).
    rewrite IH; [by rewrite <-app_assoc|apply Z.div_pos; lia|lia].
Qed.

(** [itoa] writes what the kernel's [printint] prints. *)
Lemma itoa_printint i : - 2 ^ 31 < i < 2 ^ 31 → itoa i = printint digits_lower i 10 true.
Proof.
  intros Hi. unfold itoa, printint. rewrite itoa_len_spec, Z.add_0_l, Nat2Z.id. cbn [andb].
  set (l := digit_loop 10 digits_lower (Z.abs i) 10).
  pose proof (itoa_fill_spec 10 (Z.abs i) (replicate (length l) 0) [] ltac:(lia) (length_replicate _ _)) as H.
  rewrite length_replicate, !app_nil_r in H. rewrite H, rev_app_distr.
  replace (if i <? 0 then u32 (- i) else u32 i) with (Z.abs i) by (destruct (Z.ltb_spec i 0); rewrite u32_id; lia).
  rewrite (digit_loop_fuel 32 _ (Z.abs i) 10 10) by lia. by destruct (i <? 0).
Qed.

Lemma itoa_read i : - 2 ^ 31 < i < 2 ^ 31 → read_int digits_lower 10 (itoa i) = i.
Proof. intros Hi. rewrite itoa_printint by done. apply (printint_value digits_lower i 10 true); [by left|by left|lia]. Qed.

Lemma digit_loop_long fuel digits x base k :
  2 ≤ base → base ^ Z.of_nat k ≤ x → (k < fuel)%nat → (k < length (digit_loop fuel digits x base))%nat.
Proof.
  intros Hb. revert x fuel. induction k as [|k IH]; intros x fuel Hx Hk; (destruct fuel as [|fuel]; [lia|]); cbn [digit_loop length]; [lia|].
  rewrite Nat2Z.inj_succ, Z.pow_succ_r in Hx by lia. pose proof (Z.pow_pos_nonneg base (Z.of_nat k) ltac:(lia) ltac:(lia)).
  assert (base ^ Z.of_nat k ≤ x / base) as Hq by (apply Z.div_le_lower_bound; lia).
  destruct (Z.eqb_spec (x / base) 0); [lia|]. specialize (IH (x / base) fuel Hq ltac:(lia)). lia.
Qed.

(** A number has at most [k] digits if it is below [10 ^ k], and only then. *)
Lemma itoa_length i k : 0 ≤ i < 2 ^ 31 → (0 < k < 10)%nat → (length (itoa i) ≤ k)%nat ↔ i < 10 ^ Z.of_nat k.
Proof.
  intros Hi Hk. rewrite itoa_printint by lia. unfold printint. destruct (Z.ltb_spec i 0); [lia|]. cbn [andb].
  rewrite app_nil_r, length_rev, u32_id by lia. split.
  - intros Hl. apply Z.nle_gt. intros Hge. apply (digit_loop_long 32 digits_lower) in Hge; lia.
  - intros Hlt. apply digit_loop_length; lia.
Qed.

(** Every process has a swap file of its own: different process ids give
    different paths.  The buffer of [DIGITS] bytes that the path is built in
    holds it for the ids below ten million, and overflows for the others. *)
Theorem swap_paths_distinct pid pid' :
  0 ≤ pid < 2 ^ 31 → 0 ≤ pid' < 2 ^ 31 →
  (swap_path pid = swap_path pid' → pid = pid') ∧
  swap_path_buf pid = (if path_fits pid then ret (swap_path pid) else undef "path[] overflows").
Proof.
  intros H H'. split.
  - unfold swap_path. intros E%(inj (app _))%(f_equal (read_int digits_lower 10)). by rewrite !itoa_read in E by lia.
  - unfold path_fits, swap_path_buf, DIGITS, swap_path. rewrite length_app. change (length [47; 46; 115; 119; 97; 112]) with 6%nat.
    pose proof (itoa_length pid 7 H ltac:(lia)) as Hl. change (10 ^ Z.of_nat 7) with (10 ^ 7) in Hl.
    destruct (Z.ltb_spec pid (10 ^ 7)), (Z.ltb_spec 14 (Z.of_nat (6 + length (itoa pid)) + 1)); try done; lia.
Qed.

(** ** Examples *)

Module SwapNameExamples.
Lemma swap_paths_distinct_witness :
  swap_path 12 = [47; 46; 115; 119; 97; 112; 49; 50] ∧
  (swap_path 12 = swap_path 21 → 12 = 21) ∧ swap_path_buf 12 = (if path_fits 12 then ret (swap_path 12) else undef "path[] overflows").
Proof. split; [by vm_compute|]. apply (swap_paths_distinct 12 21); lia. Defined.
End SwapNameExamples.
