(* ===== verification/Umalloc.v ===== *)
(** The user library's allocator ([src/umalloc.c]), Kernighan and Ritchie's:
    a circular list of free blocks in order of address, first fit from where
    the last search stopped, adjacent free blocks joined.

    A block starts with a header, [s.ptr] and [s.size], of 8 bytes; sizes count
    headers.  [u_ptr] and [u_size] give the two words of the 8-byte cell at an
    address, whether it is a header now or part of what a client was given. *)

From stdpp Require Import sorting.
From S2P Require Import Prelude Machine.
From stdpp Require Import options.

Record uheap := UHeap { u_ptr : Z → Z; u_size : Z → Z; u_freep : Z; u_brk : Z }.
#[global] Instance eta_uheap : Eta uheap := λ h, UHeap (u_ptr h) (u_size h) (u_freep h) (u_brk h).
Implicit Types (h : uheap).

Definition HEADER : Z := 8.

(** [*a = v] in one of the two words, and [p + n] on header pointers. *)
Definition fset (a v : Z) (f : Z → Z) (x : Z) : Z := if x =? a then v else f x.
Definition hplus (p n : Z) : Z := u32 (p + HEADER * n).

Section umalloc.
(** The address of [base], and what [allocuvm(pgdir, oldsz, newsz)] returns for
    the process. *)
Context (base : Z) (allocuvm : Z → Z → Z).

(** [sbrk(n)] as [sys_sbrk] and [growproc] do it; the result is [-1] or the
    old break. *)
Definition sbrk (n : Z) h : Z * uheap :=
  let addr := u_brk h in
  let sz := if 0 <? n then allocuvm addr (u32 (addr + n))
            else if n <? 0 then (if addr <=? u32 (addr + n) then addr else u32 (addr + n))
            else addr in
  if negb (n =? 0) && (sz =? 0) then (-1, h) else (addr, h <| u_brk := sz |>).

(** [for(p = freep; !(bp > p && bp < p->s.ptr); p = p->s.ptr)] *)
Fixpoint free_find (fuel : nat) (bp p : Z) h : option Z :=
  match fuel with
  | O => None
  | S fuel =>
      let q := u_ptr h p in
      if (p <? bp) && (bp <? q) then Some p
      else if (q <=? p) && ((p <? bp) || (bp <? q)) then Some p
      else free_find fuel bp q h
  end.

(** The freed block [bp] takes in the one after it, or links to it; the block
    [p] before takes in [bp], or links to it. *)
Definition join_next (bp p : Z) h : uheap :=
  let q := u_ptr h p in
  if hplus bp (u_size h bp) =? q
  then h <| u_size ::= fset bp (u32 (u_size h bp + u_size h q)) |> <| u_ptr ::= fset bp (u_ptr h q) |>
  else h <| u_ptr ::= fset bp q |>.
Definition join_prev (bp p : Z) h : uheap :=
  if hplus p (u_size h p) =? bp
  then h <| u_size ::= fset p (u32 (u_size h p + u_size h bp)) |> <| u_ptr ::= fset p (u_ptr h bp) |>
  else h <| u_ptr ::= fset p bp |>.

Definition free (fuel : nat) (ap : Z) h : option uheap :=
  let bp := ap - HEADER in
  p ← free_find fuel bp (u_freep h) h;
  Some ((join_prev bp p (join_next bp p h)) <| u_freep := p |>).

(** [morecore(nu)]; 0 if there is no more memory. *)
Definition morecore (fuel : nat) (nu : Z) h : option (Z * uheap) :=
  let nu := if nu <? 4096 then 4096 else nu in
  let '(p, h) := sbrk (s32 (u32 (nu * HEADER))) h in
  if p =? -1 then Some (0, h) else
  h ← free fuel (p + HEADER) (h <| u_size ::= fset p nu |>);
  Some (u_freep h, h).

(** [malloc] takes [nunits] from the block [p], whole or from its end. *)
Definition malloc_take (nunits prevp p : Z) h : Z * uheap :=
  let size := u_size h p in
  if size =? nunits then (p + HEADER, h <| u_ptr ::= fset prevp (u_ptr h p) |> <| u_freep := prevp |>)
  else
    let size := size - nunits in
    let r := hplus p size in
    (r + HEADER, h <| u_size ::= fset p size |> <| u_size ::= fset r nunits |> <| u_freep := prevp |>).

(** The loop of [malloc]. *)
Fixpoint malloc_loop (fuel : nat) (nunits prevp p : Z) h : option (Z * uheap) :=
  match fuel with
  | O => None
  | S fuel =>
      if nunits <=? u_size h p then Some (malloc_take nunits prevp p h)
      else if p =? u_freep h then
        '(p, h) ← morecore fuel nunits h;
        if p =? 0 then Some (0, h) else malloc_loop fuel nunits p (u_ptr h p) h
      else malloc_loop fuel nunits p (u_ptr h p) h
  end.

Definition nunits (nbytes : Z) : Z := u32 (nbytes + HEADER - 1) / HEADER + 1.

Definition malloc (fuel : nat) (nbytes : Z) h : option (Z * uheap) :=
  let h := if u_freep h =? 0 then h <| u_ptr ::= fset base base |> <| u_freep := base |> <| u_size ::= fset base 0 |> else h in
  let prevp := u_freep h in
  malloc_loop fuel (nunits nbytes) prevp (u_ptr h prevp) h.

End umalloc.

(** ** Blocks *)

#[local] Abbreviation block := (Z * Z)%type.
Implicit Types (b : block) (fl al : list block).

(** The addresses of the cells of a block. *)
Definition cells b : list Z := (λ k, b.1 + HEADER * k) <$> seqZ 0 b.2.
Definition all_cells (l : list block) : list Z := l ≫= cells.

(** A path of [s.ptr] links from [x] through [l] to [y]. *)
Fixpoint seg (ptr : Z → Z) (x : Z) (l : list Z) (y : Z) : Prop :=
  match l with [] => ptr x = y | z :: l => ptr x = z ∧ seg ptr z l y end.

(** Free blocks in order of address, no two of them adjacent. *)
Definition before b b' : Prop := b.1 + HEADER * b.2 < b'.1.

Definition apart b b' : Prop := b.1 + HEADER * b.2 ≤ b'.1 ∨ b'.1 + HEADER * b'.2 ≤ b.1.

(** The free list: the blocks [fl] linked in a circle through [base]. *)
Record ring (base : Z) h fl : Prop := {
  ri_seg : seg (u_ptr h) base fl.*1 base;
  ri_base : u_size h base = 0;
  ri_sizes : Forall (λ b, u_size h b.1 = b.2 ∧ 0 < b.2) fl;
  ri_range : Forall (λ b, base + HEADER ≤ b.1 ∧ b.1 + HEADER * b.2 ≤ KERNBASE) fl;
  ri_sorted : StronglySorted before fl;
  ri_freep : u_freep h ∈ base :: fl.*1;
  ri_pos : 0 < base
}.

(** The heap from [lo] up to the break: free blocks [fl], and blocks [al] that
    clients have. *)
Record uinv (base lo : Z) h fl al : Prop := {
  ui_ring : ring base h fl;
  ui_sizes : Forall (λ b, u_size h b.1 = b.2 ∧ 0 < b.2) al;
  ui_cells : ∃ n, u_brk h = lo + HEADER * n ∧ 0 ≤ n ∧ all_cells (fl ++ al) ≡ₚ cells (lo, n);
  ui_brk : u_brk h < KERNBASE;
  ui_lo : base + HEADER ≤ lo
}.

(** Nothing changes but at the addresses [l]. *)
Definition same_but (l : list Z) h h' : Prop := ∀ x, x ∉ l → u_ptr h' x = u_ptr h x ∧ u_size h' x = u_size h x.

(** ** Segments *)

Fixpoint lst (x : Z) (l : list Z) : Z := match l with [] => x | z :: l => lst z l end.

Lemma lst_in x l : lst x l ∈ x :: l.
Proof. revert x. induction l as [|z l IH]; intros x; simpl; [set_solver|]. specialize (IH z). set_solver. Qed.

Lemma lst_snoc x l z : lst x (l ++ [z]) = z.
Proof. revert x. induction l as [|y l IH]; intros x; simpl; [done|apply IH]. Qed.

Lemma seg_app ptr x l1 z l2 y : seg ptr x (l1 ++ z :: l2) y ↔ seg ptr x l1 z ∧ seg ptr z l2 y.
Proof. revert x. induction l1 as [|w l1 IH]; intros x; simpl; [done|]. rewrite IH. naive_solver. Qed.

Lemma seg_ext ptr ptr' x x' l y : ptr' x' = ptr x → (∀ a, a ∈ l → ptr' a = ptr a) → seg ptr x l y → seg ptr' x' l y.
Proof.
  revert x x'. induction l as [|z l IH]; intros x x' Hx H; simpl; [congruence|].
  intros [<- Hs]. split; [done|]. rewrite <-Hx in *. apply (IH (ptr' x')); [apply H|intros a Ha; apply H|done]; set_solver.
Qed.

Lemma seg_lst ptr x l y : seg ptr x l y → ptr (lst x l) = y.
Proof. revert x. induction l as [|z l IH]; intros x; simpl; [done|]. intros [_ H]. by apply IH. Qed.

Lemma lst_app x l1 l2 : lst x (l1 ++ l2) = lst (lst x l1) l2.
Proof. revert x. induction l1 as [|z l IH]; intros x; simpl; [done|apply IH]. Qed.

Lemma lst_suffix x l1 l2 : ∃ pre, x :: l1 ++ l2 = pre ++ lst x l1 :: l2.
Proof. revert x. induction l1 as [|z l1 IH]; intros x; simpl; [by exists []|]. destruct (IH z) as [pre ->]. by exists (x :: pre). Qed.

Lemma lst_elem x l a : a ∈ x :: l → ∃ l1 l2, l = l1 ++ l2 ∧ a = lst x l1.
Proof.
  revert x. induction l as [|z l IH]; intros x [->|Ha]%elem_of_cons; [by exists [], []|set_solver|by exists [], (z :: l)|].
  destruct (IH z Ha) as (l1 & l2 & -> & ->). by exists (z :: l1), l2.
Qed.

Lemma seg_app_lst ptr x l1 l2 y : seg ptr x (l1 ++ l2) y → seg ptr (lst x l1) l2 y.
Proof. revert x. induction l1 as [|z l1 IH]; intros x; simpl; [done|]. intros [_ ?]. by apply IH. Qed.

Lemma seg_prefix ptr x l1 l2 y : seg ptr x (l1 ++ l2) y → ∃ z, seg ptr x l1 z.
Proof. destruct l2 as [|z l2]; [rewrite app_nil_r; eauto|]. intros [? _]%seg_app. eauto. Qed.

Lemma seg_set_last ptr x l y y' : NoDup (x :: l) → seg ptr x l y → seg (fset (lst x l) y' ptr) x l y'.
Proof.
  revert x. induction l as [|z l IH]; intros x Hd; simpl.
  - intros _. unfold fset. by rewrite Z.eqb_refl.
  - intros [Hx Hs]. apply NoDup_cons in Hd as [Hn Hd]. split; [|by apply IH]. unfold fset. pose proof (lst_in z l).
    destruct (Z.eqb_spec x (lst z l)); [set_solver|done].
Qed.

(** Two nodes do not link to the same one. *)
Lemma seg_next_in ptr x l y a : seg ptr x l y → a ∈ x :: l → ptr a ∈ l ++ [y].
Proof.
  revert x. induction l as [|z l IH]; intros x; simpl.
  - intros <- ->%list_elem_of_singleton. set_solver.
  - intros [<- Hs] [->|Ha]%elem_of_cons; [set_solver|]. specialize (IH _ Hs Ha). set_solver.
Qed.

Lemma seg_pred ptr x l y a z :
  seg ptr x l y → NoDup (l ++ [y]) → a ∈ x :: l → ptr a = z → z ∈ l → ∃ l1 l2, l = l1 ++ z :: l2 ∧ a = lst x l1.
Proof.
  revert x. induction l as [|w l IH]; intros x Hs Hd Ha Hz Hin; simpl in *; [set_solver|]. destruct Hs as [Hx Hs].
  apply NoDup_cons in Hd as [Hw Hd]. apply elem_of_cons in Ha as [->|Ha].
  - exists [], l. simplify_eq. by split.
  - apply elem_of_cons in Hin as [->|Hin].
    + pose proof (seg_next_in _ _ _ _ _ Hs Ha). congruence.
    + destruct (IH w Hs Hd Ha Hz Hin) as (l1 & l2 & -> & ->). by exists (w :: l1), l2.
Qed.

(** ** The free list *)

Section ring.
Context (base : Z).

(** Sizes and places of blocks; in order of address, perhaps touching. *)
Definition sized h (b : block) : Prop := u_size h b.1 = b.2 ∧ 0 < b.2.
Definition placed (b : block) : Prop := base + HEADER ≤ b.1 ∧ b.1 + HEADER * b.2 ≤ KERNBASE.
Definition upto (b b' : block) : Prop := b.1 + HEADER * b.2 ≤ b'.1.

Lemma nodup_addrs h (fl : list block) :
  Forall (sized h) fl → Forall placed fl → StronglySorted upto fl → NoDup (base :: fl.*1).
Proof.
  intros Hs Hr Ho. apply NoDup_cons. split.
  - intros (b & Hb & Hin)%list_elem_of_fmap. rewrite Forall_forall in Hr. destruct (Hr b Hin). unfold HEADER in *. lia.
  - clear Hr. induction Ho as [|b fl Ho IH Hb]; simpl; [constructor|]. apply Forall_cons in Hs as [[_ Hb'] Hs]. apply NoDup_cons. split; [|by apply IH].
    intros (b' & Hx & Hin)%list_elem_of_fmap. rewrite Forall_forall in Hb. specialize (Hb b' Hin). unfold upto, HEADER in *. lia.
Qed.

Lemma before_upto (fl : list block) : StronglySorted before fl → StronglySorted upto fl.
Proof. induction 1 as [|b fl _ IH Hb]; constructor; [done|]. eapply Forall_impl; [exact Hb|]. unfold before, upto. lia. Qed.

Lemma ring_nodup h fl : ring base h fl → NoDup (base :: fl.*1).
Proof. intros [_ _ Hs Hr Ho _ _]. by eapply nodup_addrs, before_upto. Qed.

Lemma freelist_ext h h' fl :
  ring base h fl → u_freep h' = u_freep h → (∀ x, x ∈ base :: fl.*1 → u_ptr h' x = u_ptr h x ∧ u_size h' x = u_size h x) → ring base h' fl.
Proof.
  intros [H1 H2 H3 H4 H5 H6 H7] Hf H. split; try done.
  - apply (seg_ext (u_ptr h) _ base); [apply H; by left|intros a Ha; apply H; by right|done].
  - rewrite <-H2. apply H. by left.
  - rewrite Forall_forall in H3 |- *. intros b Hb. rewrite (proj2 (H b.1 ltac:(right; by apply list_elem_of_fmap_2))). by apply H3.
  - by rewrite Hf.
Qed.

(** A block apart from the free ones has its place among them. *)
Lemma ring_split (fl : list block) (bp m : Z) :
  StronglySorted before fl → Forall (λ b, 0 < b.2) fl → 0 < m → Forall (apart (bp, m)) fl →
  ∃ fl1 fl2, fl = fl1 ++ fl2 ∧ Forall (λ b, b.1 + HEADER * b.2 ≤ bp) fl1 ∧ Forall (λ b, bp + HEADER * m ≤ b.1) fl2.
Proof.
  intros Ho Hs Hm Ha. induction Ho as [|b fl Ho IH Hb]; [by exists [], []|].
  apply Forall_cons in Hs as [Hbs Hs]. apply Forall_cons in Ha as [Hba Ha]. unfold apart in Hba. simpl in Hba. destruct Hba as [Hba|Hba].
  - exists [], (b :: fl). split_and!; [done|constructor|]. apply Forall_cons. split; [done|].
    rewrite Forall_forall in Hb |- *. intros b' Hin. specialize (Hb b' Hin). unfold before, HEADER in *. lia.
  - destruct (IH Hs Ha) as (fl1 & fl2 & -> & H1 & H2). exists (b :: fl1), fl2. split_and!; [done|by constructor|done].
Qed.

(** The search walks over the blocks before [bp] to the last one, *)
Lemma free_find_low fuel bp x l y h :
  seg (u_ptr h) x l y → Forall (λ a, a < bp) (x :: l) → StronglySorted Z.lt (x :: l) → (bp < y ∨ y ≤ x) →
  (length l < fuel)%nat → free_find fuel bp x h = Some (lst x l).
Proof.
  revert x fuel. induction l as [|z l IH]; intros x fuel Hs Hb Ho Hy Hf; (destruct fuel as [|fuel]; [simpl in Hf; lia|]); simpl in *; apply Forall_cons in Hb as [Hx Hb].
  - subst y. destruct (Z.ltb_spec x bp); [|lia]. destruct (Z.ltb_spec bp (u_ptr h x)); [done|]. destruct (Z.leb_spec (u_ptr h x) x); [done|lia].
  - destruct Hs as [-> Hs]. apply StronglySorted_cons in Ho as [Hz Ho]. apply Forall_cons in Hz as [Hz _]. pose proof Hb as Hb'. apply Forall_cons in Hb' as [Hzb _].
    destruct (Z.ltb_spec x bp); [|lia]. destruct (Z.ltb_spec bp z); [lia|]. destruct (Z.leb_spec z x); [lia|]. simpl. apply IH; try done; lia.
Qed.

(** and over those after it back to [base]. *)
Lemma free_find_high fuel bp x l h :
  seg (u_ptr h) x l base → Forall (λ a, bp < a) (x :: l) → StronglySorted Z.lt (x :: l) → base < bp →
  free_find (S (length l) + fuel) bp x h = free_find fuel bp base h.
Proof.
  revert x. induction l as [|z l IH]; intros x Hs Hb Ho Hy; simpl in *; apply Forall_cons in Hb as [Hx Hb].
  - rewrite Hs. destruct (Z.ltb_spec x bp); [lia|]. simpl. destruct (Z.leb_spec base x); [|lia]. destruct (Z.ltb_spec bp base); [lia|done].
  - destruct Hs as [-> Hs]. apply StronglySorted_cons in Ho as [Hz Ho]. apply Forall_cons in Hz as [Hz _].
    destruct (Z.ltb_spec x bp); [lia|]. simpl. destruct (Z.leb_spec z x); [lia|]. simpl. by apply IH.
Qed.

Lemma sorted_addrs (fl : list block) : StronglySorted before fl → Forall (λ b, 0 < b.2) fl → StronglySorted Z.lt fl.*1.
Proof.
  intros Ho Hs. induction Ho as [|b fl Ho IH Hb]; simpl; [constructor|]. apply Forall_cons in Hs as [Hb0 Hs]. constructor; [by apply IH|].
  apply Forall_fmap. eapply Forall_impl; [exact Hb|]. intros b' H. unfold before, HEADER, compose in *. lia.
Qed.

(** The block that precedes [bp] is found from wherever the last call left [freep]. *)
Lemma free_find_spec fuel h fl1 fl2 bp m :
  ring base h (fl1 ++ fl2) → base < bp → 0 < m →
  Forall (λ b, b.1 + HEADER * b.2 ≤ bp) fl1 → Forall (λ b, bp + HEADER * m ≤ b.1) fl2 → (length (fl1 ++ fl2) + 2 ≤ fuel)%nat →
  free_find fuel bp (u_freep h) h = Some (lst base fl1.*1).
Proof.
  intros [Hseg _ Hs Hr Ho Hf _] Hb Hm H1 H2 Hfuel. unfold HEADER in *. rewrite fmap_app in *. rewrite length_app in Hfuel.
  assert (Forall (λ b, 0 < b.2) (fl1 ++ fl2)) as Hpos by (eapply Forall_impl; [exact Hs|naive_solver]).
  pose proof (sorted_addrs _ Ho Hpos) as Hlt. rewrite fmap_app in Hlt.
  assert (StronglySorted Z.lt (base :: fl1.*1 ++ fl2.*1)) as Hall.
  { constructor; [done|]. rewrite <-fmap_app. apply Forall_fmap. eapply Forall_impl; [exact Hr|]. unfold compose. simpl. lia. }
  assert (Forall (λ a, a < bp) fl1.*1) as L1.
  { apply Forall_app in Hpos as [Hpos _]. apply Forall_fmap. rewrite Forall_forall in *. intros b Hin. specialize (H1 b Hin). specialize (Hpos b Hin). unfold compose. lia. }
  assert (Forall (λ a, bp < a) fl2.*1) as L2 by (apply Forall_fmap; eapply Forall_impl; [exact H2|unfold compose; lia]).
  assert (∀ a, a ∈ base :: fl1.*1 → base ≤ a) as Hge.
  { intros a [->|Ha]%elem_of_cons; [lia|]. apply StronglySorted_cons in Hall as [Hall _]. rewrite Forall_forall in Hall. specialize (Hall a). set_solver by lia. }
  set (y := default base (head fl2.*1)).
  assert (seg (u_ptr h) base fl1.*1 y ∧ (bp < y ∨ y = base)) as [Hseg1 Hy].
  { unfold y. destruct (fl2.*1) as [|z l] eqn:E; simpl; [rewrite app_nil_r in Hseg; by split; [|right]|].
    apply seg_app in Hseg as [? _]. apply Forall_cons in L2 as [? _]. by split; [|left]. }
  assert (∀ fuel l1 l2, fl1.*1 = l1 ++ l2 → (length l2 < fuel)%nat → free_find fuel bp (lst base l1) h = Some (lst base fl1.*1)) as Hlow.
  { clear Hf Hfuel. intros fuel' l1 l2 E Hf. rewrite E in *. apply seg_app_lst in Hseg1. rewrite lst_app.
    destruct (lst_suffix base l1 l2) as [pre Epre]. rewrite app_comm_cons, Epre in Hall. apply StronglySorted_app_1_l, StronglySorted_app_1_r in Hall.
    apply (Forall_cons_2 _ base) in L1; [|done]. rewrite Epre in L1. apply Forall_app in L1 as [_ L1].
    apply (free_find_low _ _ _ _ y); try done. destruct Hy as [?| ->]; [by left|]. right. apply Hge. pose proof (lst_in base l1). set_solver. }
  rewrite app_comm_cons in Hf. apply elem_of_app in Hf as [Hf|Hf].
  - destruct (lst_elem _ _ _ Hf) as (l1 & l2 & E & ->). apply (Hlow _ l1 l2 E). apply (f_equal length) in E. rewrite length_fmap, length_app in E. lia.
  - apply list_elem_of_split in Hf as (l1 & l2 & E). rewrite E in *.
    replace fuel with (S (length l2) + (fuel - S (length l2)))%nat by (apply (f_equal length) in E; rewrite length_fmap, length_app in E; simpl in E; lia).
    rewrite free_find_high; [|by rewrite app_assoc in Hseg; apply seg_app in Hseg as [_ ?]|by apply Forall_app in L2 as [_ ?]| |done].
    + apply (Hlow _ [] fl1.*1); [done|]. apply (f_equal length) in E. rewrite length_fmap, length_app in *. simpl in E. lia.
    + apply StronglySorted_app_1_r in Hlt. by apply StronglySorted_app_1_r in Hlt.
Qed.

Lemma cells_app a n m : 0 ≤ n → 0 ≤ m → cells (a, n + m) = cells (a, n) ++ cells (a + HEADER * n, m).
Proof.
  intros Hn Hm. unfold cells. simpl. rewrite seqZ_app, fmap_app, (Z.add_comm 0 n) by done. f_equal.
  rewrite <-(fmap_add_seqZ n 0), <-list_fmap_compose. apply list_fmap_ext. intros i x _. unfold compose. lia.
Qed.

Lemma elem_of_cells x a n : x ∈ cells (a, n) ↔ ∃ k, x = a + HEADER * k ∧ 0 ≤ k < n.
Proof. unfold cells. rewrite list_elem_of_fmap. setoid_rewrite elem_of_seqZ. simpl. naive_solver lia. Qed.

Lemma fset_eq a v f : fset a v f a = v.
Proof. unfold fset. by rewrite Z.eqb_refl. Qed.
Lemma fset_ne a v f x : x ≠ a → fset a v f x = f x.
Proof. intros H. unfold fset. by rewrite (proj2 (Z.eqb_neq x a) H). Qed.

(** A freed block [(bp, m)] between the free blocks [fl1] and [fl2]. *)
Record between h fl1 fl2 (bp m : Z) : Prop := {
  bt_ring : ring base h (fl1 ++ fl2);
  bt_size : u_size h bp = m;
  bt_pos : 0 < m;
  bt_low : base + HEADER ≤ bp;
  bt_high : bp + HEADER * m ≤ KERNBASE;
  bt_1 : Forall (λ b, b.1 + HEADER * b.2 ≤ bp) fl1;
  bt_2 : Forall (λ b, bp + HEADER * m ≤ b.1) fl2
}.

Lemma between_notin h fl1 fl2 bp m : between h fl1 fl2 bp m → bp ∉ base :: (fl1 ++ fl2).*1.
Proof.
  intros [[_ _ Hs _ _ _ _] _ Hm Hl _ H1 H2] [->|(b & E & Hb)%list_elem_of_fmap]%elem_of_cons; unfold HEADER in *; [lia|].
  rewrite Forall_forall in Hs, H1, H2. specialize (Hs b Hb). apply elem_of_app in Hb as [Hb|Hb]; [specialize (H1 b Hb)|specialize (H2 b Hb)]; lia.
Qed.

Lemma join_next_spec h fl1 fl2 bp m :
  between h fl1 fl2 bp m →
  ∃ m' fl2', let h' := join_next bp (lst base fl1.*1) h in
    (∀ a, a ≠ bp → u_ptr h' a = u_ptr h a ∧ u_size h' a = u_size h a) ∧
    u_freep h' = u_freep h ∧ u_brk h' = u_brk h ∧
    seg (u_ptr h') bp fl2'.*1 base ∧ u_size h' bp = m' ∧ m ≤ m' ∧ bp + HEADER * m' ≤ KERNBASE ∧
    StronglySorted before ((bp, m') :: fl2') ∧ all_cells ((bp, m') :: fl2') = all_cells ((bp, m) :: fl2) ∧
    (∃ pre, fl2 = pre ++ fl2').
Proof.
  intros Hbt. pose proof (between_notin _ _ _ _ _ Hbt) as Hni. destruct Hbt as [[Hseg Hb0 Hs Hr Ho _ Hp] Hsz Hm Hl Hh H1 H2]. unfold join_next.
  rewrite fmap_app in *. unfold hplus. rewrite Hsz, u32_id by (unfold HEADER, KERNBASE in *; lia). apply StronglySorted_app_1_r in Ho.
  apply Forall_app in Hs as [_ Hs]. apply Forall_app in Hr as [_ Hr].
  destruct fl2 as [|[q nq] fl2].
  - simpl in *. rewrite app_nil_r in Hseg. rewrite (seg_lst _ _ _ _ Hseg). destruct (Z.eqb_spec (bp + HEADER * m) base); [unfold HEADER in *; lia|].
    exists m, []. simpl. rewrite fset_eq. split_and!; try done; [intros a Ha; by rewrite fset_ne|by repeat constructor|by exists []].
  - simpl in *. apply seg_app in Hseg as [Hseg1 Hseg2]. rewrite (seg_lst _ _ _ _ Hseg1).
    apply Forall_cons in H2 as [H2 H2']. apply Forall_cons in Hs as [[Hq Hq0] Hs]. apply Forall_cons in Hr as [Hqr Hr]. apply StronglySorted_cons in Ho as [Hoq Ho]. simpl in *.
    destruct (Z.eqb_spec (bp + HEADER * m) q) as [E|E].
    + exists (m + nq), fl2. simpl. rewrite !fset_eq, Hq, u32_id by (unfold HEADER, KERNBASE in *; lia).
      split_and!; try done; [intros a Ha; by rewrite !fset_ne|..].
      * apply (seg_ext (u_ptr h) _ q); [by rewrite fset_eq| |done]. intros a Ha. rewrite fset_ne; [done|set_solver].
      * lia.
      * unfold HEADER in *; lia.
      * constructor; [done|]. eapply Forall_impl; [exact Hoq|]. unfold before, HEADER in *. simpl. lia.
      * rewrite cells_app by lia. rewrite E. by rewrite app_assoc.
      * by exists [(q, nq)].
    + exists m, ((q, nq) :: fl2). simpl. rewrite fset_eq. split_and!; try done; [intros a Ha; by rewrite fset_ne| | |by exists []].
      * apply (seg_ext (u_ptr h) _ q); [|intros a Ha|done]; rewrite fset_ne; set_solver.
      * constructor; [by constructor|]. constructor; [unfold before; simpl; lia|]. eapply Forall_impl; [exact Hoq|]. unfold before, HEADER in *. simpl. lia.
Qed.

(** The state between [join_next] and [join_prev]: [bp] starts the rest of
    the list, but no free block links to it. *)
Record halfway h fl1 fl2 (bp m : Z) : Prop := {
  hw_seg1 : ∃ y, seg (u_ptr h) base fl1.*1 y;
  hw_seg2 : seg (u_ptr h) bp fl2.*1 base;
  hw_base : u_size h base = 0;
  hw_sizes : Forall (sized h) (fl1 ++ (bp, m) :: fl2);
  hw_range : Forall placed (fl1 ++ (bp, m) :: fl2);
  hw_sorted1 : StronglySorted before fl1;
  hw_sorted2 : StronglySorted before ((bp, m) :: fl2);
  hw_sorted : StronglySorted upto (fl1 ++ (bp, m) :: fl2);
  hw_pos : 0 < base
}.

Lemma join_next_halfway h fl1 fl2 bp m :
  between h fl1 fl2 bp m →
  ∃ m' fl2', let h' := join_next bp (lst base fl1.*1) h in
    halfway h' fl1 fl2' bp m' ∧ m ≤ m' ∧ same_but [bp] h h' ∧ u_brk h' = u_brk h ∧
    all_cells (fl1 ++ (bp, m') :: fl2') = all_cells (fl1 ++ (bp, m) :: fl2) ∧ (∃ pre, fl2 = pre ++ fl2').
Proof.
  intros Hbt. pose proof (between_notin _ _ _ _ _ Hbt) as Hni.
  destruct (join_next_spec _ _ _ _ _ Hbt) as (m' & fl2' & Hne & _ & Hbrk & Hseg & Hsz & Hm' & Hh & Ho & Hc & pre & Epre).
  destruct Hbt as [[Hr1 Hr2 Hr3 Hr4 Hr5 _ Hr7] Hs Hm Hl _ H1 _]. exists m', fl2'. cbv zeta. set (h' := join_next bp _ h) in *.
  assert (∀ b, b ∈ fl1 ++ fl2 → b.1 ≠ bp) as Hbp by (intros b Hb E; apply Hni; apply elem_of_cons; right; apply list_elem_of_fmap; eauto).
  assert (∀ b, b ∈ fl1 ++ fl2' → b ∈ fl1 ++ fl2) as Hsub by (subst fl2; set_solver).
  assert (Forall (λ b, sized h' b ∧ placed b) (fl1 ++ fl2')) as Hold.
  { rewrite Forall_forall in Hr3, Hr4 |- *. intros b Hb%Hsub. split; [|by apply Hr4]. unfold sized. rewrite (proj2 (Hne b.1 (Hbp b Hb))). by apply Hr3. }
  apply Forall_app in Hold as [Hold1 Hold2].
  assert (Forall (λ b, sized h' b ∧ placed b) (fl1 ++ (bp, m') :: fl2')) as Hall.
  { apply Forall_app. split; [done|]. constructor; [|done]. unfold sized, placed. simpl. unfold HEADER in *. split_and!; lia. }
  apply Forall_and in Hall as [Hall1 Hall2].
  split_and!; try done; [|intros x Hx; apply Hne; set_solver|unfold all_cells in *; rewrite !bind_app; by f_equal|by exists pre].
  split; try done.
  - rewrite fmap_app in *. apply seg_prefix in Hr1 as [y Hr1]. exists y.
    apply (seg_ext (u_ptr h) _ base); [apply Hne; set_solver|intros a Ha; apply Hne; set_solver|done].
  - rewrite (proj2 (Hne base ltac:(unfold HEADER in *; lia))). done.
  - by apply StronglySorted_app_1_l in Hr5.
  - apply StronglySorted_app. split_and!; [|by apply before_upto, StronglySorted_app_1_l in Hr5|by apply before_upto].
    intros b b' Hb Hb'. rewrite Forall_forall in H1. specialize (H1 b Hb). unfold upto. apply elem_of_cons in Hb' as [->|Hb']; [done|].
    apply StronglySorted_cons in Ho as [Ho _]. rewrite Forall_forall in Ho. specialize (Ho b' Hb'). unfold before, HEADER in *. simpl in *. lia.
Qed.

(** What [free] and [morecore] promise of the list they leave. *)
Record freed h h' (fl : list block) (fl' : list block) (m : Z) : Prop := {
  fr_ring : ring base h' fl';
  fr_cells : all_cells fl' = all_cells fl;
  fr_same : same_but (base :: fl.*1) h h';
  fr_brk : u_brk h' = u_brk h;
  fr_fits : ∃ b, b ∈ fl' ∧ m ≤ b.2;
  fr_len : (length fl' ≤ length fl)%nat
}.

Lemma join_prev_link h fl1 fl2 bp m p :
  halfway h fl1 fl2 bp m → p = lst base fl1.*1 → hplus p (u_size h p) ≠ bp →
  freed h (h <| u_ptr ::= fset p bp |> <| u_freep := p |>) (fl1 ++ (bp, m) :: fl2) (fl1 ++ (bp, m) :: fl2) m.
Proof.
  intros [[y H1] H2 H3 H4 H5 H6 H7 H8 H9] Hp Hne. pose proof (nodup_addrs _ _ H4 H5 H8) as Hd. rewrite fmap_app in Hd. simpl in Hd.
  assert (p ∈ base :: fl1.*1) as Hpin by (subst; apply lst_in).
  split; try done; [|intros x Hx; simpl; rewrite fset_ne; [done|rewrite fmap_app in Hx; set_solver]|exists (bp, m); split; [set_solver|done]].
  split; simpl; try done; [| |rewrite fmap_app; set_solver].
  - rewrite fmap_app. simpl. rewrite app_comm_cons in Hd. apply NoDup_app in Hd as (Hd1 & Hd2 & Hd3). apply seg_app. split.
    + subst p. by apply seg_set_last with y.
    + apply (seg_ext (u_ptr h) _ bp); [|intros a Ha|done]; rewrite fset_ne; try done; intros ->; destruct (Hd2 _ Hpin); set_solver.
  - apply StronglySorted_app. split_and!; [|done|done]. intros b b' Hb Hb'.
    assert (before b (bp, m)) as Hbb.
    { assert (upto b (bp, m)) as Hup by (apply StronglySorted_app in H8 as [H8 _]; apply H8; [done|by left]).
      destruct (exists_last (l := fl1)) as (f & [z nz] & Ef); [by intros ->; apply not_elem_of_nil in Hb|].
      subst fl1. rewrite fmap_app in Hp. simpl in Hp. rewrite lst_snoc in Hp. subst z. apply elem_of_app in Hb as [Hb|Hb%list_elem_of_singleton].
      - apply StronglySorted_app in H6 as [H6 _]. specialize (H6 b (p, nz) Hb ltac:(by left)).
        rewrite <-app_assoc in *. apply StronglySorted_app_1_r, StronglySorted_cons in H8 as [H8 _]. apply Forall_cons in H8 as [H8 _].
        apply Forall_app in H4 as [_ [[_ ?] _]%Forall_cons]. unfold upto, before, HEADER in *. simpl in *. lia.
      - subst b. rewrite <-app_assoc in *. apply Forall_app in H4 as [_ [[Hsz ?] _]%Forall_cons]. apply Forall_app in H5 as [_ [[? ?] _]%Forall_cons]. simpl in *.
        unfold hplus in Hne. rewrite Hsz, u32_id in Hne by (unfold HEADER, KERNBASE in *; lia). unfold upto, before in *. simpl in *. lia. }
    apply elem_of_cons in Hb' as [->|Hb']; [done|]. apply StronglySorted_cons in H7 as [H7 _]. rewrite Forall_forall in H7. specialize (H7 b' Hb').
    apply Forall_app in H4 as [_ H4]. apply Forall_cons in H4 as [[_ ?] _]. unfold before, HEADER in *. simpl in *. lia.
Qed.

Lemma join_prev_merge h f1 np fl2 bp m p :
  halfway h (f1 ++ [(p, np)]) fl2 bp m → p + HEADER * np = bp →
  freed h (h <| u_size ::= fset p (u32 (u_size h p + u_size h bp)) |> <| u_ptr ::= fset p (u_ptr h bp) |> <| u_freep := p |>)
    (f1 ++ (p, np) :: (bp, m) :: fl2) (f1 ++ (p, np + m) :: fl2) m.
Proof.
  intros [[y H1] H2 H3 H4 H5 H6 H7 H8 H9] Hbp. rewrite <-app_assoc in *. simpl in *. pose proof (nodup_addrs _ _ H4 H5 H8) as Hd. rewrite fmap_app in *. simpl in *.
  apply seg_app in H1 as [H1 _]. pose proof H4 as H4'. pose proof H5 as H5'.
  apply Forall_app in H4' as [S1 [[S2 S3] [[S4 S5] S6]%Forall_cons]%Forall_cons]. apply Forall_app in H5' as [P1 [[P2 P3] [[P4 P5] P6]%Forall_cons]%Forall_cons]. simpl in *.
  rewrite S2, S4, u32_id by (unfold HEADER, KERNBASE in *; lia).
  assert (∀ b, b ∈ f1 ∨ b ∈ fl2 → b.1 ≠ p ∧ b.1 ≠ bp) as Hother.
  { intros b Hb. assert (b.1 ∈ f1.*1 ∨ b.1 ∈ fl2.*1) as Hb1 by (destruct Hb; [left|right]; by apply list_elem_of_fmap_2).
    clear -Hd Hb1. rewrite NoDup_cons, NoDup_app, !NoDup_cons in Hd. set_solver. }
  split; simpl; try done.
  - assert (base ≠ p) as Hbasep by (unfold HEADER in *; lia). split; simpl; try done.
    + rewrite fmap_app. simpl. apply seg_app. split.
      * apply (seg_ext (u_ptr h) _ base); [by rewrite fset_ne| |done]. intros a (b & -> & Hb)%list_elem_of_fmap. apply fset_ne, Hother. by left.
      * apply (seg_ext (u_ptr h) _ bp); [by rewrite fset_eq| |done]. intros a (b & -> & Hb)%list_elem_of_fmap. apply fset_ne, Hother. by right.
    + by rewrite fset_ne.
    + rewrite Forall_forall in S1, S6. apply Forall_app. rewrite Forall_cons. simpl. rewrite fset_eq. split_and!; [|done|lia|]; apply Forall_forall; intros b Hb.
      * rewrite fset_ne by (apply Hother; by left). by apply S1.
      * rewrite fset_ne by (apply Hother; by right). by apply S6.
    + apply Forall_app. rewrite Forall_cons. simpl. split_and!; [done|done|unfold HEADER in *; lia|done].
    + apply StronglySorted_app in H6 as (H6 & H6' & _). apply StronglySorted_cons in H7 as [H7 H7'].
      apply StronglySorted_app. split_and!; [|done|].
      * intros b b' Hb [->|Hb']%elem_of_cons; specialize (H6 b (p, np) Hb ltac:(by left)); unfold before in *; simpl in *; [done|].
        rewrite Forall_forall in H7. specialize (H7 b' Hb'). unfold HEADER in *. lia.
      * constructor; [done|]. eapply Forall_impl; [exact H7|]. unfold before, HEADER in *. simpl. lia.
    + apply elem_of_cons. right. rewrite fmap_app. apply elem_of_app. right. by left.
  - unfold all_cells. rewrite !bind_app. f_equal. csimpl. rewrite cells_app, Hbp, app_assoc by lia. done.
  - intros x Hx. simpl. rewrite fmap_app in Hx. rewrite !fset_ne; [done|..]; set_solver.
  - exists (p, np + m). split; [|simpl; lia]. apply elem_of_app. right. by left.
  - rewrite !length_app. simpl. lia.
Qed.

Lemma join_prev_spec h fl1 fl2 bp m p :
  halfway h fl1 fl2 bp m → p = lst base fl1.*1 →
  ∃ fl', freed h ((join_prev bp p h) <| u_freep := p |>) (fl1 ++ (bp, m) :: fl2) fl' m.
Proof.
  intros H Hp. unfold join_prev. destruct (Z.eqb_spec (hplus p (u_size h p)) bp) as [E|E]; [|eexists; by apply join_prev_link].
  destruct (decide (fl1 = [])) as [->|Hfl1].
  - simpl in Hp. subst p. destruct H as [_ _ H3 H4 H5 _ _ _ H9]. apply Forall_cons in H4 as [[_ ?] _]. apply Forall_cons in H5 as [[? ?] _]. simpl in *.
    unfold hplus in E. rewrite H3, u32_id in E; unfold HEADER, KERNBASE in *; lia.
  - destruct (exists_last Hfl1) as (f1 & [z np] & ->). rewrite fmap_app in Hp. simpl in Hp. rewrite lst_snoc in Hp. subst z.
    exists (f1 ++ (p, np + m) :: fl2). rewrite <-app_assoc. apply join_prev_merge; [done|].
    destruct H as [_ _ _ H4 H5 _ _ _ H9]. rewrite <-app_assoc in *. apply Forall_app in H4 as [_ [[Hsz ?] _]%Forall_cons]. apply Forall_app in H5 as [_ [[? ?] _]%Forall_cons]. simpl in *.
    unfold hplus in E. rewrite Hsz, u32_id in E; unfold HEADER, KERNBASE in *; lia.
Qed.

(** [free] puts a block back: it returns, and the list has the cells of the
    block besides those it had. *)
Lemma free_spec fuel h fl1 fl2 bp m :
  between h fl1 fl2 bp m → (length (fl1 ++ fl2) + 2 ≤ fuel)%nat →
  ∃ h' fl', free fuel (bp + HEADER) h = Some h' ∧ freed h h' (fl1 ++ (bp, m) :: fl2) fl' m.
Proof.
  intros Hbt Hf. unfold free. rewrite Z.add_simpl_r. pose proof Hbt as [Hring Hsz Hm Hl _ H1 H2].
  rewrite (free_find_spec _ _ fl1 fl2 bp m) by (try done; unfold HEADER in *; lia). cbn [mbind option_bind].
  destruct (join_next_halfway _ _ _ _ _ Hbt) as (m' & fl2' & Hw & Hmm & Hsame & Hbrk & Hc & pre & Epre). set (h1 := join_next bp _ h) in *.
  destruct (join_prev_spec _ _ _ _ _ _ Hw eq_refl) as (fl' & [F1 F2 F3 F4 (b & Hb & Hmb) F6]). eexists _, fl'. split; [done|].
  split; [done|by rewrite F2| |by rewrite F4|exists b; split; [done|lia]|].
  - intros x Hx. destruct (F3 x) as [-> ->]; [|apply Hsame]; rewrite !fmap_app in *; simpl in *; subst fl2; rewrite ?fmap_app in *; set_solver.
  - rewrite !length_app in *. simpl in *. subst fl2. rewrite length_app. lia.
Qed.

(** What [malloc] promises when it takes the block [(r, n)] from the list. *)
Record taken h h' (fl fl' : list block) (r n : Z) : Prop := {
  tk_ring : ring base h' fl';
  tk_size : u_size h' r = n;
  tk_cells : all_cells fl ≡ₚ all_cells ((r, n) :: fl');
  tk_same : same_but (base :: all_cells fl) h h';
  tk_brk : u_brk h' = u_brk h
}.

Lemma head_in_cells h b fl : Forall (sized h) fl → b ∈ fl → b.1 ∈ all_cells fl.
Proof.
  intros Hs Hb. unfold all_cells. apply list_elem_of_bind. exists b. split; [|done]. rewrite Forall_forall in Hs. destruct (Hs b Hb) as [_ ?].
  destruct b as [a n]. apply elem_of_cells. exists 0. simpl in *. lia.
Qed.

Lemma take_whole h f1 f2 x n :
  ring base h (f1 ++ (x, n) :: f2) →
  let prev := lst base f1.*1 in
  taken h (h <| u_ptr ::= fset prev (u_ptr h x) |> <| u_freep := prev |>) (f1 ++ (x, n) :: f2) (f1 ++ f2) x n.
Proof.
  intros Hring prev. pose proof (ring_nodup _ _ Hring) as Hd. destruct Hring as [H1 H2 H3 H4 H5 H6 H7]. rewrite fmap_app in *. simpl in *.
  assert (prev ∈ base :: f1.*1) as Hprev by apply lst_in. pose proof H3 as H3'. pose proof H4 as H4'.
  apply Forall_app in H3' as [S1 [S2 S3]%Forall_cons]. apply Forall_app in H4' as [P1 [P2 P3]%Forall_cons].
  apply seg_app in H1 as [H1 H1']. rewrite app_comm_cons in Hd. apply NoDup_app in Hd as (Hd1 & Hd2 & Hd3).
  split; simpl; try done.
  - split; simpl; try done; [|by apply Forall_app|by apply Forall_app| |rewrite fmap_app; set_solver].
    + rewrite fmap_app. destruct f2 as [|[z nz] f2]; simpl in *.
      * rewrite app_nil_r, H1'. by apply seg_set_last with x.
      * destruct H1' as [-> H1']. apply seg_app. split; [by apply seg_set_last with x|].
        apply (seg_ext (u_ptr h) _ z); [|intros a Ha|done]; apply fset_ne; intros ->; destruct (Hd2 _ Hprev); set_solver.
    + apply StronglySorted_app in H5 as (O1 & O2 & O3). apply StronglySorted_cons in O3 as [_ O3]. apply StronglySorted_app. split_and!; try done.
      intros b b' Hb Hb'. apply O1; [done|by right].
  - apply S2.
  - unfold all_cells. csimpl. rewrite !bind_app. csimpl. by rewrite Permutation_app_swap_app.
  - intros y Hy. simpl. rewrite fset_ne; [done|]. intros ->. apply Hy, elem_of_cons. apply elem_of_cons in Hprev as [->|(b & -> & Hb)%list_elem_of_fmap]; [by left|right].
    apply (head_in_cells h); [done|]. apply elem_of_app. by left.
Qed.

Lemma take_tail h f1 f2 x sx n :
  ring base h (f1 ++ (x, sx) :: f2) → 0 < n < sx →
  let prev := lst base f1.*1 in let r := x + HEADER * (sx - n) in
  taken h (h <| u_size ::= fset x (sx - n) |> <| u_size ::= fset r n |> <| u_freep := prev |>) (f1 ++ (x, sx) :: f2) (f1 ++ (x, sx - n) :: f2) r n.
Proof.
  intros Hring Hn prev r. pose proof (ring_nodup _ _ Hring) as Hd. destruct Hring as [H1 H2 H3 H4 H5 H6 H7]. rewrite fmap_app in *. simpl in *.
  assert (prev ∈ base :: f1.*1) as Hprev by apply lst_in. pose proof H3 as H3'. pose proof H4 as H4'.
  apply Forall_app in H3' as [S1 [S2 S3]%Forall_cons]. apply Forall_app in H4' as [P1 [P2 P3]%Forall_cons]. simpl in *.
  pose proof H5 as (O1 & O2 & O3)%StronglySorted_app. apply StronglySorted_cons in O3 as [O3 O4].
  assert (∀ b, b ∈ f1 ∨ b ∈ f2 → b.1 ≠ x ∧ b.1 ≠ r) as Hother.
  { intros b Hb. rewrite Forall_forall in S1, S3, O3. unfold before in O1, O3. unfold r, HEADER in *. destruct Hb as [Hb|Hb].
    - specialize (O1 b (x, sx) Hb ltac:(by left)). specialize (S1 b Hb). simpl in *. lia.
    - specialize (O3 b Hb). simpl in *. lia. }
  assert (base ≠ x ∧ base ≠ r) as [Hb1 Hb2] by (unfold r, HEADER in *; lia).
  assert (r ≠ x) as Hrx by (unfold r, HEADER in *; lia).
  split; simpl; try done.
  - split; simpl; try done.
    + rewrite fmap_app. simpl. done.
    + by rewrite !fset_ne.
    + rewrite Forall_forall in S1, S3. apply Forall_app. rewrite Forall_cons. simpl. rewrite fset_ne, fset_eq by done. split_and!; [|done|lia|]; apply Forall_forall; intros b Hb.
      * rewrite !fset_ne by (apply Hother; by left). by apply S1.
      * rewrite !fset_ne by (apply Hother; by right). by apply S3.
    + apply Forall_app. rewrite Forall_cons. simpl. split_and!; [done|lia|unfold HEADER in *; lia|done].
    + apply StronglySorted_app. split_and!; [|done|].
      * intros b b' Hb [->|Hb']%elem_of_cons; [apply (O1 b (x, sx)); [done|by left]|apply O1; [done|by right]].
      * constructor; [done|]. eapply Forall_impl; [exact O3|]. unfold before, HEADER in *. simpl. lia.
    + rewrite fmap_app. simpl. set_solver.
  - by rewrite fset_eq.
  - unfold all_cells. csimpl. rewrite !bind_app. csimpl. replace sx with (sx - n + n) at 1 by lia. rewrite cells_app by lia. fold r.
    rewrite <-!app_assoc. rewrite (Permutation_app_swap_app (cells (r, n))). f_equiv. by rewrite Permutation_app_swap_app.
  - intros y Hy. simpl. rewrite !fset_ne; [done|..]; intros ->; apply Hy, elem_of_cons; right; apply list_elem_of_bind; exists (x, sx); (split; [|set_solver]); apply elem_of_cells.
    + exists 0. lia.
    + exists (sx - n). unfold r. lia.
Qed.

Lemma malloc_take_spec h fl prev x n :
  ring base h fl → prev ∈ base :: fl.*1 → u_ptr h prev = x → 0 < n ≤ u_size h x →
  ∃ r h' fl', malloc_take n prev x h = (r + HEADER, h') ∧ taken h h' fl fl' r n.
Proof.
  intros Hring Hprev Hx Hn. pose proof (ring_nodup _ _ Hring) as Hd.
  assert (x ∈ fl.*1) as Hin.
  { pose proof (seg_next_in _ _ _ _ _ (ri_seg _ _ _ Hring) Hprev) as Hin. rewrite Hx in Hin. apply elem_of_app in Hin as [?| ->%list_elem_of_singleton]; [done|].
    pose proof (ri_base _ _ _ Hring). lia. }
  destruct (seg_pred (u_ptr h) base fl.*1 base prev x) as (l1 & l2 & E & ->); try done; [apply Hring|by rewrite <-Permutation_cons_append|].
  apply fmap_app_inv in E as (f1 & f & -> & E & ->). symmetry in E. apply fmap_cons_inv in E as ([x' sx] & f2 & -> & -> & ->). simpl in *.
  pose proof (ri_sizes _ _ _ Hring) as Hs. apply Forall_app in Hs as [_ [[Hsz ?] _]%Forall_cons]. simpl in *. unfold malloc_take. rewrite Hsz in *.
  destruct (Z.eqb_spec sx n) as [->|E].
  - eexists x', _, (f1 ++ f2). split; [done|]. by apply take_whole.
  - pose proof (ri_range _ _ _ Hring) as Hr. apply Forall_app in Hr as [_ [[? ?] _]%Forall_cons]. pose proof (ri_pos _ _ _ Hring). simpl in *.
    unfold hplus. rewrite u32_id by (unfold HEADER, KERNBASE in *; lia).
    eexists (x' + HEADER * (sx - n)), _, (f1 ++ (x', sx - n) :: f2). split; [done|]. apply take_tail; [done|lia].
Qed.

(** The list once around from [freep]. *)
Lemma ring_rotate h fl : ring base h fl → ∃ c, seg (u_ptr h) (u_freep h) c (u_freep h) ∧ u_freep h :: c ≡ₚ base :: fl.*1.
Proof.
  intros [H1 _ _ _ _ H6 _]. apply elem_of_cons in H6 as [->|H6]; [by exists fl.*1|]. apply list_elem_of_split in H6 as (l1 & l2 & E). rewrite E in *.
  apply seg_app in H1 as [H1 H1']. exists (l2 ++ base :: l1). split; [by apply seg_app|]. solve_Permutation.
Qed.

(** The blocks that are too small are passed over. *)
Lemma malloc_loop_walk allocuvm fuel n h prev l y :
  seg (u_ptr h) prev l y → Forall (λ a, u_size h a < n ∧ a ≠ u_freep h) l →
  malloc_loop allocuvm (length l + fuel) n prev (u_ptr h prev) h = malloc_loop allocuvm fuel n (lst prev l) y h.
Proof.
  revert prev. induction l as [|z l IH]; intros prev; simpl; [by intros ->|]. intros [-> Hs] [[Hz Hf] Hl]%Forall_cons.
  destruct (Z.leb_spec n (u_size h z)); [lia|]. destruct (Z.eqb_spec z (u_freep h)); [done|]. by apply IH.
Qed.

Lemma first_fit (P : Z → Prop) `{!∀ x, Decision (P x)} l :
  (∃ l1 x l2, l = l1 ++ x :: l2 ∧ Forall (λ y, ¬ P y) l1 ∧ P x) ∨ Forall (λ y, ¬ P y) l.
Proof.
  induction l as [|x l IH]; [by right|]. destruct (decide (P x)); [left; by exists [], x, l|].
  destruct IH as [(l1 & y & l2 & -> & ? & ?)|?]; [|right; by constructor]. left. exists (x :: l1), y, l2. split_and!; try done. by constructor.
Qed.

(** The search: a block that fits is taken, or all were tried and [morecore]
    is called. *)
Lemma malloc_loop_spec allocuvm fuel h fl n :
  ring base h fl → 0 < n →
  (∃ r h' fl', malloc_loop allocuvm (S (length fl) + fuel) n (u_freep h) (u_ptr h (u_freep h)) h = Some (r + HEADER, h') ∧ taken h h' fl fl' r n) ∨
  ((∀ b, b ∈ fl → b.2 < n) ∧
   malloc_loop allocuvm (S (length fl) + fuel) n (u_freep h) (u_ptr h (u_freep h)) h =
     '(p, h) ← morecore allocuvm fuel n h;
     if p =? 0 then Some (0, h) else malloc_loop allocuvm fuel n p (u_ptr h p) h).
Proof.
  intros Hring Hn. destruct (ring_rotate _ _ Hring) as (c & Hseg & Hc). pose proof (ring_nodup _ _ Hring) as Hd. rewrite <-Hc in Hd.
  assert (length c = length fl) as Hlen by (apply Permutation_length in Hc; simpl in Hc; rewrite length_fmap in Hc; lia).
  apply NoDup_cons in Hd as [Hf Hd].
  destruct (first_fit (λ a, n ≤ u_size h a) (c ++ [u_freep h])) as [(l1 & x & l2 & E & Hl1 & Hx)|Hall].
  - left. assert (seg (u_ptr h) (u_freep h) l1 x ∧ (∀ a, a ∈ l1 → a ∈ c)) as [Hs1 Hsub].
    { destruct l2 as [|w l2 _] using rev_ind; [apply app_inj_tail in E as [<- <-]; auto|].
      rewrite app_comm_cons, app_assoc in E. apply app_inj_tail in E as [-> _]. apply seg_app in Hseg as [? _]. split; [done|set_solver]. }
    assert (length l1 ≤ length fl)%nat as Hll.
    { apply (f_equal length) in E. rewrite !length_app in E. simpl in E. lia. }
    replace (S (length fl) + fuel)%nat with (length l1 + S (length fl - length l1 + fuel))%nat by lia.
    rewrite (malloc_loop_walk _ _ _ _ _ l1 x); [|done|rewrite Forall_forall in Hl1 |- *; intros a Ha; specialize (Hl1 a Ha); split; [lia|set_solver]].
    simpl. destruct (Z.leb_spec n (u_size h x)); [|lia].
    destruct (malloc_take_spec h fl (lst (u_freep h) l1) x n) as (r & h' & fl' & -> & Ht); [done| |by apply seg_lst|lia|by exists r, h', fl'].
    rewrite <-Hc. pose proof (lst_in (u_freep h) l1). set_solver.
  - right. apply Forall_app in Hall as [Hall [Hfs _]%Forall_cons]. split.
    + intros b Hb. pose proof (ri_sizes _ _ _ Hring) as Hs. rewrite Forall_forall in Hs. rewrite Forall_forall in Hall. destruct (Hs b Hb) as [<- _].
      assert (b.1 ∈ u_freep h :: c) as [->|Hin]%elem_of_cons by (rewrite Hc; right; by apply list_elem_of_fmap_2); [lia|]. specialize (Hall _ Hin). lia.
    + replace (S (length fl) + fuel)%nat with (length c + S fuel)%nat by lia.
      rewrite (malloc_loop_walk _ _ _ _ _ c (u_freep h)); [|done|rewrite Forall_forall in Hall |- *; intros a Ha; specialize (Hall a Ha); split; [lia|set_solver]].
      simpl. destruct (Z.leb_spec n (u_size h (u_freep h))); [lia|]. by rewrite Z.eqb_refl.
Qed.
End ring.
