(* ===== verification/Uheap.v ===== *)
(** The heap that [src/umalloc.c] manages: the free list of [Umalloc] and the
    blocks that clients have cover it without overlapping. *)

From stdpp Require Import sorting.
From S2P Require Import Prelude Machine Umalloc.
From stdpp Require Import options.
Implicit Types (h : uheap).
#[local] Abbreviation block := (Z * Z)%type.

(** What a program sees of [allocuvm] when [sbrk] comes back: the new size, or
    0.  (When the process has no room for another page [allocuvm] returns the
    old size, but kills the process, which does not come back from the system
    call: [sbrk_answers] in [Sbrk].) *)
Definition alloc_law (allocuvm : Z → Z → Z) : Prop :=
  ∀ old new, 0 ≤ old ≤ new → allocuvm old new = 0 ∨ (allocuvm old new = new ∧ new < KERNBASE).

(** What a call may not touch: the cells of clients. *)
Definition keeps (al : list block) h h' : Prop := ∀ x, x ∈ all_cells al → u_ptr h' x = u_ptr h x ∧ u_size h' x = u_size h x.

Section heap.
Context (base lo : Z).

Lemma nodup_cells a n : NoDup (cells (a, n)).
Proof. unfold cells. simpl. apply NoDup_fmap_2; [|apply NoDup_seqZ]. intros i j. unfold HEADER. lia. Qed.

Lemma inv_nodup h fl al : uinv base lo h fl al → NoDup (all_cells fl ++ all_cells al).
Proof. intros [_ _ (n & _ & _ & Hc) _ _]. unfold all_cells in *. rewrite bind_app in Hc. rewrite Hc. apply nodup_cells. Qed.

Lemma inv_sized h fl al b : uinv base lo h fl al → b ∈ fl ++ al → sized h b.
Proof.
  intros [[_ _ H3 _ _ _ _] H2 _ _ _] Hb. rewrite Forall_forall in H2, H3. apply elem_of_app in Hb as [Hb|Hb]; [by apply H3|by apply H2].
Qed.

(** Blocks are made of whole cells of the heap. *)
Lemma inv_block h fl al b : uinv base lo h fl al → b ∈ fl ++ al → ∃ i, b.1 = lo + HEADER * i ∧ 0 ≤ i ∧ b.1 + HEADER * b.2 ≤ u_brk h.
Proof.
  intros Hinv Hb. destruct (inv_sized _ _ _ _ Hinv Hb) as [_ Hpos]. destruct Hinv as [_ _ (n & Hbrk & Hn & Hc) _ _]. destruct b as [a k]. simpl in *.
  assert (∀ j, 0 ≤ j < k → a + HEADER * j ∈ cells (lo, n)) as Hin.
  { intros j Hj. rewrite <-Hc. apply list_elem_of_bind. exists (a, k). split; [|done]. apply elem_of_cells. eauto. }
  destruct (proj1 (elem_of_cells _ _ _) (Hin 0 ltac:(lia))) as (i & Ei & Hi). destruct (proj1 (elem_of_cells _ _ _) (Hin (k - 1) ltac:(lia))) as (j & Ej & Hj).
  exists i. unfold HEADER in *. lia.
Qed.

Lemma inv_apart h fl al b b' : uinv base lo h fl al → b ∈ fl → b' ∈ al → apart b' b.
Proof.
  intros Hinv Hb Hb'. assert (b ∈ fl ++ al) as H by set_solver. assert (b' ∈ fl ++ al) as H' by set_solver.
  destruct (inv_sized _ _ _ _ Hinv H) as [_ Hp], (inv_sized _ _ _ _ Hinv H') as [_ Hp'].
  destruct (inv_block _ _ _ _ Hinv H) as (i & Ei & Hi & _), (inv_block _ _ _ _ Hinv H') as (j & Ej & Hj & _).
  pose proof (inv_nodup _ _ _ Hinv) as (_ & Hdis & _)%NoDup_app. unfold apart. destruct b as [a n], b' as [a' n']. simpl in *.
  assert (∀ x, x ∈ cells (a, n) → x ∉ cells (a', n')) as Hcd.
  { intros x Hx Hx'. apply (Hdis x); apply list_elem_of_bind; eauto. }
  destruct (Z.le_gt_cases i j) as [Hij|Hij].
  - destruct (Z.le_gt_cases (a + HEADER * n) a'); [by right|]. destruct (Hcd a'); apply elem_of_cells; [exists (j - i)|exists 0]; unfold HEADER in *; lia.
  - destruct (Z.le_gt_cases (a' + HEADER * n') a); [by left|]. destruct (Hcd a); apply elem_of_cells; [exists 0|exists (i - j)]; unfold HEADER in *; lia.
Qed.

(** The cells of clients are not among those the allocator changes. *)
Lemma inv_client h fl al x : uinv base lo h fl al → x ∈ all_cells al → x ∉ base :: all_cells fl.
Proof.
  intros Hinv Hx [->|Hx']%elem_of_cons.
  - destruct Hinv as [_ _ (n & _ & _ & Hc) _ Hlo]. assert (base ∈ cells (lo, n)) as (k & ? & ?)%elem_of_cells; [|unfold HEADER in *; lia].
    rewrite <-Hc. unfold all_cells in *. rewrite bind_app. set_solver.
  - pose proof (inv_nodup _ _ _ Hinv) as (_ & Hdis & _)%NoDup_app. by apply (Hdis x).
Qed.

Lemma keeps_sizes al h h' : keeps al h h' → Forall (sized h) al → Forall (sized h') al.
Proof.
  intros Hk Hs. rewrite Forall_forall in Hs |- *. intros b Hb. pose proof (Hs b Hb) as [Hs1 Hs2]. split; [|done]. rewrite <-Hs1. apply Hk.
  eapply head_in_cells; [by apply Forall_forall|done].
Qed.

(** A client's block is freed. *)
Lemma free_inv fuel h fl al a n :
  uinv base lo h fl ((a, n) :: al) → (length fl + 2 ≤ fuel)%nat →
  ∃ h' fl', free fuel (a + HEADER) h = Some h' ∧ uinv base lo h' fl' al ∧ keeps al h h' ∧ (length fl' ≤ S (length fl))%nat ∧
    ∃ b, b ∈ fl' ∧ n ≤ b.2.
Proof.
  intros Hinv Hf. assert ((a, n) ∈ fl ++ (a, n) :: al) as Hin by (apply elem_of_app; right; by left).
  destruct (inv_sized _ _ _ _ Hinv Hin) as [Hsz Hpos]. destruct (inv_block _ _ _ _ Hinv Hin) as (i & Ei & Hi & Hbrk). simpl in *.
  pose proof Hinv as [Hring Hs (k & Ek & Hk & Hc) Hb Hlo].
  destruct (ring_split fl a n) as (fl1 & fl2 & -> & H1 & H2); [apply Hring|eapply Forall_impl; [apply Hring|simpl; tauto]|done|..].
  { apply Forall_forall. intros b Hbf. eapply inv_apart; [done|done|by left]. }
  assert (between base h fl1 fl2 a n) as Hbt by (split; try done; unfold HEADER in *; lia).
  destruct (free_spec base fuel h fl1 fl2 a n Hbt Hf) as (h' & fl' & -> & [F1 F2 F3 F4 F5 F6]). exists h', fl'. split; [done|].
  assert (keeps al h h') as Hkeep.
  { intros x Hx. apply F3. intros Hx'. assert (x ∈ all_cells ((a, n) :: al)) as Hx1 by (unfold all_cells in *; csimpl; set_solver).
    pose proof (inv_client _ _ _ _ Hinv Hx1) as Hno. pose proof (inv_nodup _ _ _ Hinv) as (_ & _ & Hnd)%NoDup_app.
    unfold all_cells in Hnd. csimpl in Hnd. apply NoDup_app in Hnd as (_ & Hnd & _).
    apply elem_of_cons in Hx' as [->|(b & -> & Hbin)%list_elem_of_fmap]; [apply Hno; by left|].
    assert (b ∈ fl1 ++ fl2 ∨ b = (a, n)) as [Hbf| ->] by (apply elem_of_app in Hbin as [?|[?|?]%elem_of_cons]; set_solver).
    - apply Hno. right. eapply head_in_cells; [|done]. apply Hring.
    - apply (Hnd a); [|done]. apply elem_of_cells. exists 0. lia. }
  split_and!; [|done|rewrite !length_app in *; simpl in *; lia|done]. split; try done; [|exists k; split_and!; [by rewrite F4|done|]|by rewrite F4].
  - eapply keeps_sizes; [done|]. by apply Forall_cons in Hs as [_ ?].
  - rewrite <-Hc. unfold all_cells in *. rewrite bind_app, F2. rewrite !bind_app. csimpl. solve_Permutation.
Qed.

(** The list grows by what [sbrk] gives. *)
Lemma morecore_spec allocuvm fuel h fl al nu :
  alloc_law allocuvm → uinv base lo h fl al → 0 < nu < 2 ^ 28 → (length fl + 2 ≤ fuel)%nat →
  morecore allocuvm fuel nu h = Some (0, h) ∨
  ∃ h' fl', morecore allocuvm fuel nu h = Some (u_freep h', h') ∧ uinv base lo h' fl' al ∧ keeps al h h' ∧
    (length fl' ≤ S (length fl))%nat ∧ ∃ b, b ∈ fl' ∧ nu ≤ b.2.
Proof.
  intros Hlaw Hinv Hnu Hf. unfold morecore. set (n := if nu <? 4096 then 4096 else nu).
  assert (nu ≤ n < 2 ^ 28) as Hn by (unfold n; destruct (Z.ltb_spec nu 4096); lia).
  pose proof Hinv as [Hring Hs (k & Ek & Hk & Hc) Hb Hlo]. pose proof (ri_pos _ _ _ Hring) as Hp.
  rewrite u32_id, s32_id by (unfold HEADER; lia). unfold sbrk.
  destruct (Z.ltb_spec 0 (n * HEADER)) as [_|]; [|unfold HEADER in *; lia]. rewrite u32_id by (unfold HEADER, KERNBASE in *; lia).
  destruct (Z.eqb_spec (n * HEADER) 0) as [|_]; [unfold HEADER in *; lia|]. cbn [negb andb].
  destruct (Hlaw (u_brk h) (u_brk h + n * HEADER)) as [-> | [-> Hlt]]; [unfold HEADER in *; lia|by left|right].
  destruct (Z.eqb_spec (u_brk h + n * HEADER) 0) as [|_]; [unfold HEADER in *; lia|]. destruct (Z.eqb_spec (u_brk h) (-1)) as [|_]; [unfold HEADER in *; lia|].
  set (h1 := h <| u_brk := u_brk h + n * HEADER |> <| u_size ::= fset (u_brk h) n |>).
  assert (∀ b, b ∈ fl ++ al → b.1 ≠ u_brk h) as Hne.
  { intros b Hin. destruct (inv_sized _ _ _ _ Hinv Hin) as [_ ?]. destruct (inv_block _ _ _ _ Hinv Hin) as (i & _ & _ & ?). unfold HEADER in *. lia. }
  assert (uinv base lo h1 fl ((u_brk h, n) :: al)) as Hinv1.
  { split; [|..|done].
    - apply (freelist_ext base h); [done..|]. intros x [->|(b & -> & Hin)%list_elem_of_fmap]%elem_of_cons; (split; [done|]); simpl; apply fset_ne; [unfold HEADER in *; lia|apply Hne; set_solver].
    - constructor; [simpl; rewrite fset_eq; lia|]. rewrite Forall_forall in Hs |- *. intros b Hin. simpl. rewrite fset_ne by (apply Hne; set_solver). by apply Hs.
    - exists (k + n). simpl. split_and!; [unfold HEADER in *; lia|lia|]. rewrite cells_app, <-Ek, <-Hc by lia. unfold all_cells. rewrite !bind_app. csimpl. solve_Permutation.
    - done. }
  destruct (free_inv fuel h1 fl al (u_brk h) n Hinv1 Hf) as (h' & fl' & -> & I1 & I2 & I3 & b & I4 & I5). exists h', fl'. split_and!; try done; [|exists b; split; [done|lia]].
  intros x Hx. destruct (I2 x Hx) as [-> ->]. split; [done|]. simpl. apply fset_ne. intros ->.
  apply list_elem_of_bind in Hx as ([a m] & Hx & Hin). apply elem_of_cells in Hx as (j & ? & ?). destruct (inv_block h fl al (a, m) Hinv) as (i & _ & _ & ?); [set_solver|]. unfold HEADER in *. simpl in *. lia.
Qed.

Lemma uinv_taken h h' fl fl' al r n :
  uinv base lo h fl al → taken base h h' fl fl' r n → 0 < n → uinv base lo h' fl' ((r, n) :: al) ∧ keeps al h h'.
Proof.
  intros Hinv [T1 T2 T3 T4 T5] Hn. assert (keeps al h h') as Hk by (intros x Hx; apply T4; by eapply inv_client).
  split; [|done]. destruct Hinv as [_ Hs (k & Ek & Hk0 & Hc) Hb Hlo]. split; try done; [|exists k; split_and!; [by rewrite T5|done|]|by rewrite T5].
  - constructor; [done|]. by eapply keeps_sizes.
  - rewrite <-Hc. unfold all_cells in *. rewrite !bind_app, T3. csimpl. solve_Permutation.
Qed.

Lemma freep_pos h fl : ring base h fl → 0 < u_freep h.
Proof.
  intros [_ _ _ H4 _ H6 H7]. apply elem_of_cons in H6 as [->|(b & -> & Hb)%list_elem_of_fmap]; [done|]. rewrite Forall_forall in H4. specialize (H4 b Hb). unfold HEADER in *. lia.
Qed.

Lemma taken_result h h' fl fl' al r n res :
  uinv base lo h fl al → taken base h h' fl fl' r n → 0 < n → res = Some (r + HEADER, h') →
  res = Some (r + HEADER, h') ∧ keeps al h h' ∧
  ((r + HEADER = 0 ∧ uinv base lo h' fl' al) ∨ (0 < r + HEADER - HEADER ∧ uinv base lo h' fl' ((r + HEADER - HEADER, n) :: al))).
Proof.
  intros Hinv Ht Hn E. destruct (uinv_taken _ _ _ _ _ _ _ Hinv Ht Hn) as [Hinv' Hk]. rewrite Z.add_simpl_r. split_and!; [done|done|right]. split; [|done].
  destruct (inv_block h' fl' ((r, n) :: al) (r, n) Hinv') as (i & Ei & Hi & _); [set_solver|]. pose proof (ui_lo _ _ _ _ _ Hinv). pose proof (ri_pos _ _ _ (ui_ring _ _ _ _ _ Hinv)).
  unfold HEADER in *. simpl in *. lia.
Qed.

(** The search of [malloc] in a heap. *)
Lemma malloc_loop_inv allocuvm fuel h fl al n :
  alloc_law allocuvm → uinv base lo h fl al → 0 < n < 2 ^ 28 → (2 * length fl + 5 ≤ fuel)%nat →
  ∃ r h' fl', malloc_loop allocuvm fuel n (u_freep h) (u_ptr h (u_freep h)) h = Some (r, h') ∧ keeps al h h' ∧
    ((r = 0 ∧ uinv base lo h' fl' al) ∨ (0 < r - HEADER ∧ uinv base lo h' fl' ((r - HEADER, n) :: al))).
Proof.
  intros Hlaw Hinv Hn Hf. destruct (malloc_loop_spec base allocuvm (fuel - S (length fl)) h fl n (ui_ring _ _ _ _ _ Hinv) ltac:(lia)) as [(r & h' & fl' & E & Ht)|[_ E]].
  all: replace (S (length fl) + (fuel - S (length fl)))%nat with fuel in E by lia; rewrite E; clear E.
  - exists (r + HEADER), h', fl'. apply (taken_result h h' fl); [done|done|lia|done].
  - destruct (morecore_spec allocuvm (fuel - S (length fl)) h fl al n Hlaw Hinv Hn ltac:(lia)) as [-> | (h1 & fl1 & -> & Hinv1 & Hk1 & Hlen & b & Hb & Hnb)]; simpl.
    + exists 0, h, fl. split; [done|]. split; [by intros x|by left].
    + pose proof (ui_ring _ _ _ _ _ Hinv1) as Hring1. destruct (Z.eqb_spec (u_freep h1) 0) as [E|_]; [pose proof (freep_pos _ _ Hring1); lia|].
      destruct (malloc_loop_spec base allocuvm (fuel - S (length fl) - S (length fl1)) h1 fl1 n Hring1 ltac:(lia)) as [(r & h' & fl' & E & Ht)|[Hno _]]; [|specialize (Hno b Hb); lia].
      replace (S (length fl1) + (fuel - S (length fl) - S (length fl1)))%nat with (fuel - S (length fl))%nat in E by lia. rewrite E.
      exists (r + HEADER), h', fl'. split; [done|]. destruct (taken_result _ _ _ _ _ _ _ _ Hinv1 Ht ltac:(lia) eq_refl) as (_ & Hk2 & Hres). split; [|done].
      intros x Hx. destruct (Hk2 x Hx) as [-> ->]. by apply Hk1.
Qed.

(** A heap that [malloc] was never called on, or one with blocks [al] at
    clients. *)
Definition heap_ok h (al : list block) : Prop :=
  (u_freep h = 0 ∧ u_brk h = lo ∧ al = [] ∧ 0 < base ∧ base + HEADER ≤ lo < KERNBASE) ∨ ∃ fl, uinv base lo h fl al.

Lemma heap_start h : u_brk h = lo → 0 < base → base + HEADER ≤ lo < KERNBASE →
  uinv base lo (h <| u_ptr ::= fset base base |> <| u_freep := base |> <| u_size ::= fset base 0 |>) [] [].
Proof.
  intros Hb Hp Hlo. split; simpl; try done; [|exists 0; by rewrite Z.mul_0_r, Z.add_0_r|lia|lia].
  split; simpl; try done; [by rewrite fset_eq|by rewrite fset_eq|constructor|by left].
Qed.

Lemma nunits_spec nbytes : 0 ≤ nbytes < 2 ^ 31 - 64 → 0 < nunits nbytes < 2 ^ 28 ∧ nbytes ≤ HEADER * (nunits nbytes - 1).
Proof.
  intros Hn. unfold nunits, HEADER. rewrite u32_id by lia. pose proof (Z.div_mod (nbytes + 8 - 1) 8 ltac:(lia)). pose proof (Z.mod_pos_bound (nbytes + 8 - 1) 8 ltac:(lia)). lia.
Qed.

Lemma malloc_inv allocuvm h al nbytes :
  alloc_law allocuvm → heap_ok h al → 0 ≤ nbytes < 2 ^ 31 - 64 →
  ∃ bound, ∀ fuel, (bound ≤ fuel)%nat → ∃ r h', malloc base allocuvm fuel nbytes h = Some (r, h') ∧ keeps al h h' ∧
    ((r = 0 ∧ heap_ok h' al) ∨ (0 < r - HEADER ∧ heap_ok h' ((r - HEADER, nunits nbytes) :: al))).
Proof.
  intros Hlaw Hok Hn. destruct (nunits_spec nbytes Hn) as [Hu _]. destruct Hok as [(Hf & Hb & -> & Hp & Hlo)|[fl Hinv]].
  - exists 5%nat. intros fuel Hfuel. unfold malloc. rewrite Hf. simpl. pose proof (heap_start h Hb Hp Hlo) as Hinv. set (h1 := h <| u_ptr ::= _ |> <| u_freep := _ |> <| u_size ::= _ |>) in *.
    destruct (malloc_loop_inv allocuvm fuel h1 [] [] _ Hlaw Hinv Hu Hfuel) as (r & h' & fl' & E & _ & Hres). exists r, h'. split; [exact E|]. split; [intros x Hx; by apply not_elem_of_nil in Hx|].
    unfold heap_ok. naive_solver.
  - exists (2 * length fl + 5)%nat. intros fuel Hfuel. unfold malloc. pose proof (freep_pos _ _ (ui_ring _ _ _ _ _ Hinv)) as Hp.
    destruct (Z.eqb_spec (u_freep h) 0) as [|_]; [lia|]. destruct (malloc_loop_inv allocuvm fuel h fl al _ Hlaw Hinv Hu Hfuel) as (r & h' & fl' & E & Hk & Hres).
    exists r, h'. split; [exact E|]. split; [done|]. unfold heap_ok. naive_solver.
Qed.

(** Everything that was freed is one block again. *)
Lemma all_freed h fl : uinv base lo h fl [] → u_brk h ≠ lo → fl = [(lo, (u_brk h - lo) / HEADER)].
Proof.
  intros Hinv Hne. pose proof Hinv as [Hring _ (n & Ebrk & Hn & Hc) _ _]. rewrite app_nil_r in Hc.
  assert (0 < n) as Hn0 by (unfold HEADER in *; lia). replace ((u_brk h - lo) / HEADER) with n by (rewrite Ebrk; unfold HEADER; Z.div_mod_to_equations; lia).
  assert (∀ k, 0 ≤ k < n → ∃ b, b ∈ fl ∧ lo + HEADER * k ∈ cells b) as Hcov.
  { intros k Hk. assert (lo + HEADER * k ∈ cells (lo, n)) as Hin by (apply elem_of_cells; eauto). rewrite <-Hc in Hin. apply list_elem_of_bind in Hin as (b & ? & ?). eauto. }
  destruct fl as [|b fl]; [destruct (Hcov 0 ltac:(lia)) as (b & Hb & _); by apply not_elem_of_nil in Hb|].
  assert (∀ b', b' ∈ b :: fl → ∃ i, b'.1 = lo + HEADER * i ∧ 0 ≤ i ∧ b'.1 + HEADER * b'.2 ≤ u_brk h ∧ 0 < b'.2) as Hblk.
  { intros b' Hb'. assert (b' ∈ (b :: fl) ++ []) as Hb'' by (rewrite app_nil_r; done). destruct (inv_block _ _ _ _ Hinv Hb'') as (i & ? & ? & ?). destruct (inv_sized _ _ _ _ Hinv Hb''). eauto. }
  destruct (Hblk b ltac:(by left)) as (i & Ei & Hi & Hend & Hpos). pose proof (ri_sorted _ _ _ Hring) as [Hbef _]%StronglySorted_cons. rewrite Forall_forall in Hbef.
  destruct b as [a m]. simpl in *. assert (fl = []) as ->.
  { destruct fl as [|b2 fl]; [done|]. destruct (Hblk b2 ltac:(right; by left)) as (i2 & Ei2 & Hi2 & Hend2 & Hpos2). pose proof (Hbef b2 ltac:(by left)) as Hb2. unfold before in Hb2. simpl in Hb2.
    destruct (Hcov (i + m)) as ([a3 m3] & Hin & (k & Ek & Hk)%elem_of_cells); [unfold HEADER in *; lia|].
    apply elem_of_cons in Hin as [E|Hin]; [simplify_eq; unfold HEADER in *; lia|]. specialize (Hbef _ Hin). unfold before, HEADER in Hbef. simpl in Hbef. unfold HEADER in *. lia. }
  destruct (Hcov 0 ltac:(lia)) as (b & Hb%list_elem_of_singleton & Hin). subst b. apply elem_of_cells in Hin as (k & Ek & Hk).
  destruct (Hcov (n - 1) ltac:(lia)) as (b & Hb%list_elem_of_singleton & Hin). subst b. apply elem_of_cells in Hin as (k2 & Ek2 & Hk2).
  f_equal. unfold HEADER in *. f_equal; lia.
Qed.
End heap.

(** ** More fuel changes nothing *)

Lemma free_find_mono fuel fuel' bp p h q : free_find fuel bp p h = Some q → (fuel ≤ fuel')%nat → free_find fuel' bp p h = Some q.
Proof.
  revert p fuel'. induction fuel as [|fuel IH]; intros p fuel' H Hf; [done|]. destruct fuel' as [|fuel']; [lia|]. simpl in *.
  destruct (_ && _); [done|]. destruct (_ && _); [done|]. apply IH; [done|lia].
Qed.
Lemma free_mono fuel fuel' ap h h' : free fuel ap h = Some h' → (fuel ≤ fuel')%nat → free fuel' ap h = Some h'.
Proof. unfold free. intros H Hf. destruct (free_find fuel _ _ h) as [p|] eqn:E; [|done]. by rewrite (free_find_mono _ fuel' _ _ _ _ E Hf). Qed.
Lemma morecore_mono allocuvm fuel fuel' nu h r : morecore allocuvm fuel nu h = Some r → (fuel ≤ fuel')%nat → morecore allocuvm fuel' nu h = Some r.
Proof.
  unfold morecore. intros H Hf. destruct (sbrk _ _ _) as [p h1]. destruct (p =? -1); [done|]. destruct (free fuel _ _) as [h2|] eqn:E; [|done].
  by rewrite (free_mono _ fuel' _ _ _ E Hf).
Qed.
Lemma malloc_loop_mono allocuvm fuel fuel' n prev p h r :
  malloc_loop allocuvm fuel n prev p h = Some r → (fuel ≤ fuel')%nat → malloc_loop allocuvm fuel' n prev p h = Some r.
Proof.
  revert prev p h fuel'. induction fuel as [|fuel IH]; intros prev p h fuel' H Hf; [done|]. destruct fuel' as [|fuel']; [lia|]. simpl in *.
  destruct (n <=? u_size h p); [done|]. destruct (p =? u_freep h); [|apply IH; [done|lia]].
  destruct (morecore allocuvm fuel n h) as [[p' h']|] eqn:E; [|done]. rewrite (morecore_mono _ _ fuel' _ _ _ E ltac:(lia)). simpl in *.
  destruct (p' =? 0); [done|]. apply IH; [done|lia].
Qed.

(** ** Programs *)

Lemma cells_disjoint (al : list block) b b' x : NoDup (all_cells al) → b ∈ al → b' ∈ al → b ≠ b' → x ∈ cells b → x ∉ cells b'.
Proof.
  unfold all_cells. intros Hd (l1 & l2 & ->)%list_elem_of_split Hb' Hne Hx Hx'. rewrite bind_app in Hd. csimpl in Hd.
  apply NoDup_app in Hd as (_ & Hd1 & (_ & Hd2 & _)%NoDup_app). apply elem_of_app in Hb' as [Hb'|[->|Hb']%elem_of_cons]; [|done|].
  - apply (Hd1 x); [apply list_elem_of_bind; eauto|set_solver].
  - apply (Hd2 x); [done|apply list_elem_of_bind; eauto].
Qed.

Section client.
Context (base lo : Z).

(** A program allocates, frees what it was given, and writes to the bytes it
    was given.  The kernel's answers differ from call to call: a request that
    fails may succeed later.  Requests are below 2 GB ([malloc_2gb]). *)
Inductive uclient : uheap * list block → uheap * list block → Prop :=
  | uc_malloc allocuvm fuel nbytes h al r h' :
      alloc_law allocuvm → 0 ≤ nbytes < 2 ^ 31 - 64 → malloc base allocuvm fuel nbytes h = Some (r, h') → r ≠ 0 →
      uclient (h, al) (h', (r - HEADER, nunits nbytes) :: al)
  | uc_null allocuvm fuel nbytes h al h' :
      alloc_law allocuvm → 0 ≤ nbytes < 2 ^ 31 - 64 → malloc base allocuvm fuel nbytes h = Some (0, h') → uclient (h, al) (h', al)
  | uc_free fuel h h' a n al al' : al ≡ₚ (a, n) :: al' → free fuel (a + HEADER) h = Some h' → uclient (h, al) (h', al')
  | uc_write x v w h al a n :
      (a, n) ∈ al → x ∈ cells (a + HEADER, n - 1) → uclient (h, al) (h <| u_ptr ::= fset x v |> <| u_size ::= fset x w |>, al).

Lemma uinv_perm h fl al al' : al ≡ₚ al' → uinv base lo h fl al → uinv base lo h fl al'.
Proof using. intros E [H1 H2 (n & ? & ? & Hc) H4 H5]. split; [done|by rewrite <-E|exists n; unfold all_cells in *; by rewrite <-E|done|done]. Qed.

Lemma write_inv h fl al x v w a n :
  uinv base lo h fl al → (a, n) ∈ al → x ∈ cells (a + HEADER, n - 1) → uinv base lo (h <| u_ptr ::= fset x v |> <| u_size ::= fset x w |>) fl al.
Proof using.
  intros Hinv Hin (k & -> & Hk)%elem_of_cells. set (x := a + HEADER + HEADER * k).
  assert (x ∈ all_cells al) as Hx by (apply list_elem_of_bind; exists (a, n); split; [apply elem_of_cells; exists (k + 1); unfold x; lia|done]).
  pose proof (inv_client _ _ _ _ _ _ Hinv Hx) as Hno. pose proof Hinv as [H1 H2 H3 H4 H5]. split; try done.
  - apply (freelist_ext base h); [done..|]. intros y Hy. simpl. rewrite !fset_ne; [done|..]; intros ->; apply Hno; (apply elem_of_cons in Hy as [->|(b & -> & Hb)%list_elem_of_fmap]; [by left|right]); (eapply head_in_cells; [apply H1|done]).
  - apply Forall_forall. intros [b m] Hb. simpl. pose proof (proj1 (Forall_forall _ _) H2 _ Hb) as [Hbm Hm]. simpl in *. split; [|done]. rewrite fset_ne; [done|].
    intros E. pose proof (inv_nodup _ _ _ _ _ Hinv) as (_ & _ & Hd)%NoDup_app. destruct (decide ((b, m) = (a, n))) as [E'|E']; [injection E' as E1 _; unfold x, HEADER in *; lia|].
    apply (cells_disjoint al (a, n) (b, m) x Hd Hin Hb); [congruence|apply elem_of_cells; exists (k + 1); unfold x; lia|]. apply elem_of_cells. exists 0. lia.
Qed.

Lemma uclient_ok h al h' al' :
  heap_ok base lo h al → uclient (h, al) (h', al') → heap_ok base lo h' al'.
Proof using.
  intros Hok Hstep. inversion Hstep as [allocuvm fuel nb ? ? r ? Hlaw Hn Hm Hr|allocuvm fuel nb ? ? ? Hlaw Hn Hm|fuel ? ? a n ? ? Hp Hf|x v w ? ? a n Hin Hx]; subst.
  - destruct (malloc_inv base lo allocuvm h al nb Hlaw Hok Hn) as (bound & Hb). destruct (Hb (max bound fuel) ltac:(lia)) as (r1 & h1 & E & _ & Hres).
    unfold malloc in *. rewrite (malloc_loop_mono _ _ (max bound fuel) _ _ _ _ _ Hm ltac:(lia)) in E. simplify_eq. naive_solver.
  - destruct (malloc_inv base lo allocuvm h al' nb Hlaw Hok Hn) as (bound & Hb). destruct (Hb (max bound fuel) ltac:(lia)) as (r1 & h1 & E & _ & Hres).
    unfold malloc in *. rewrite (malloc_loop_mono _ _ (max bound fuel) _ _ _ _ _ Hm ltac:(lia)) in E. simplify_eq. destruct Hres as [[_ ?]|[? _]]; [done|unfold HEADER in *; lia].
  - destruct Hok as [(_ & _ & -> & _)|[fl Hinv]]; [by apply Permutation_nil_l in Hp|]. apply (uinv_perm _ _ _ _ Hp) in Hinv.
    destruct (free_inv base lo (max fuel (length fl + 2)) h fl al' a n Hinv ltac:(lia)) as (h1 & fl' & E & Hinv' & _).
    rewrite (free_mono _ (max fuel (length fl + 2)) _ _ _ Hf ltac:(lia)) in E. simplify_eq. right. by exists fl'.
  - destruct Hok as [(_ & _ & -> & _)|[fl Hinv]]; [by apply not_elem_of_nil in Hin|]. right. exists fl. by eapply write_inv.
Qed.

Lemma uclient_run c c' : rtc uclient c c' → heap_ok base lo c.1 c.2 → heap_ok base lo c'.1 c'.2.
Proof using. induction 1 as [|[h al] [h1 al1] c' Hs _ IH]; [done|]. intros Hok. apply IH. by eapply uclient_ok. Qed.

(** C38: The allocator never gives two clients the same memory and loses none:
    after any run of a program that allocates with requests below 2 GB (less
    64 bytes), frees what it was given and writes to what it was given, the
    blocks it has do not overlap, lie in the memory that [sbrk] gave, and still
    have their sizes in their headers; and when it has freed all of them, the
    free list is one block, the whole heap.  Each [sbrk] may fail or grow the
    heap, independently of the others. *)
Theorem umalloc_partition h0 h al :
  0 < base → base + HEADER ≤ lo < KERNBASE → u_freep h0 = 0 → u_brk h0 = lo →
  rtc uclient (h0, []) (h, al) →
  NoDup (all_cells al) ∧
  Forall (λ b, lo ≤ b.1 ∧ b.1 + HEADER * b.2 ≤ u_brk h ∧ u_size h b.1 = b.2 ∧ 0 < b.2) al ∧
  (al = [] → u_brk h ≠ lo → ring base h [(lo, (u_brk h - lo) / HEADER)]).
Proof using.
  intros Hp Hlo Hf Hb Hrun. assert (heap_ok base lo h0 []) as Hok by (left; done).
  pose proof (uclient_run _ _ Hrun Hok) as Hok'. simpl in Hok'. destruct Hok' as [(_ & ? & -> & _)|[fl Hinv]]; [split_and!; [constructor|done|done]|]. split_and!.
  - by pose proof (inv_nodup _ _ _ _ _ Hinv) as (_ & _ & ?)%NoDup_app.
  - apply Forall_forall. intros b Hin. assert (b ∈ fl ++ al) as Hin' by set_solver. destruct (inv_sized _ _ _ _ _ _ Hinv Hin'). destruct (inv_block _ _ _ _ _ _ Hinv Hin') as (i & ? & ? & ?).
    unfold HEADER in *. split_and!; try done; lia.
  - intros -> Hne. rewrite <-(all_freed _ _ _ _ Hinv Hne). apply Hinv.
Qed.

(** [malloc] and [free] return.  On a heap with blocks [al] at clients,
    [malloc] gives 0 or the address of a block of at least [nbytes] bytes
    that is not among them, and [free] takes back any of them; neither changes
    a byte of the other blocks. *)
Theorem malloc_free_return allocuvm h al :
  alloc_law allocuvm → heap_ok base lo h al →
  (∀ nbytes, 0 ≤ nbytes < 2 ^ 31 - 64 →
    ∃ bound, ∀ fuel, (bound ≤ fuel)%nat → ∃ r h', malloc base allocuvm fuel nbytes h = Some (r, h') ∧ keeps al h h' ∧
      ((r = 0 ∧ heap_ok base lo h' al) ∨
       (heap_ok base lo h' ((r - HEADER, nunits nbytes) :: al) ∧ nbytes ≤ HEADER * (nunits nbytes - 1)))) ∧
  (∀ a n al', al ≡ₚ (a, n) :: al' →
    ∃ bound, ∀ fuel, (bound ≤ fuel)%nat → ∃ h', free fuel (a + HEADER) h = Some h' ∧ keeps al' h h' ∧ heap_ok base lo h' al').
Proof using.
  intros Hlaw Hok. split.
  - intros nb Hn. destruct (malloc_inv base lo allocuvm h al nb Hlaw Hok Hn) as (bound & Hb). exists bound. intros fuel Hf.
    destruct (Hb fuel Hf) as (r & h' & E & Hk & Hres). exists r, h'. split_and!; [done|done|]. destruct (nunits_spec nb Hn). naive_solver.
  - intros a n al' Hp. destruct Hok as [(_ & _ & -> & _)|[fl Hinv]]; [by apply Permutation_nil_l in Hp|]. apply (uinv_perm _ _ _ _ Hp) in Hinv.
    exists (length fl + 2)%nat. intros fuel Hf. destruct (free_inv base lo fuel h fl al' a n Hinv Hf) as (h' & fl' & E & Hinv' & Hk & _). exists h'. split_and!; [done|done|]. right. by exists fl'.
Qed.
End client.

(** [malloc] of nearly all of the address space wraps around: for the
    largest sizes it asks for the header alone and succeeds. *)
Lemma malloc_wraps nbytes : 2 ^ 32 - 7 ≤ nbytes < 2 ^ 32 → nunits nbytes = 1.
Proof.
  intros Hn. unfold nunits, HEADER. replace (u32 (nbytes + 8 - 1)) with (nbytes + 7 - 2 ^ 32) by (unfold u32; Z.div_mod_to_equations; lia).
  rewrite Z.div_small; lia.
Qed.

(** ** Examples *)

Module UmallocExamples.
Definition base0 : Z := 0x800.
Definition lo0 : Z := 0x1000.
Definition alloc0 (old new : Z) : Z := if new <? KERNBASE then new else 0.
Definition h0 : uheap := UHeap (λ _, 0) (λ _, 0) 0 lo0.

Lemma alloc0_law : alloc_law alloc0.
Proof. intros old new Hn. unfold alloc0. destruct (Z.ltb_spec new KERNBASE); [by right|by left]. Qed.

(** A request fails for lack of memory; later two blocks are allocated, and
    freed in the order of allocation. *)
Definition get {A} (d : A) (o : option A) : A := default d o.
Definition none0 (old new : Z) : Z := 0.
Lemma none0_law : alloc_law none0.
Proof. by left. Qed.
Definition m0 := get (0, h0) (malloc base0 none0 10 100 h0).
Definition m1 := get (0, h0) (malloc base0 alloc0 10 100 m0.2).
Definition m2 := get (0, h0) (malloc base0 alloc0 10 20 m1.2).
Definition f1 := get h0 (free 10 m1.1 m2.2).
Definition f2 := get h0 (free 10 m2.1 f1).

Lemma umalloc_run : rtc (uclient base0) (h0, []) (f2, []).
Proof.
  apply rtc_l with (m0.2, []); [apply (uc_null _ none0 10 100); [apply none0_law|lia|by vm_compute]|].
  apply rtc_l with (m1.2, [(m1.1 - HEADER, nunits 100)]); [apply (uc_malloc _ alloc0 10 100); [apply alloc0_law|lia|by vm_compute|by vm_compute]|].
  apply rtc_l with (m2.2, [(m2.1 - HEADER, nunits 20); (m1.1 - HEADER, nunits 100)]); [apply (uc_malloc _ alloc0 10 20); [apply alloc0_law|lia|by vm_compute|by vm_compute]|].
  apply rtc_l with (f1, [(m2.1 - HEADER, nunits 20)]); [apply (uc_free _ 10 _ _ (m1.1 - HEADER) (nunits 100)); [apply perm_swap|by vm_compute]|].
  apply rtc_once. apply (uc_free _ 10 _ _ (m2.1 - HEADER) (nunits 20)); [done|by vm_compute].
Qed.

Lemma umalloc_partition_witness :
  NoDup (all_cells []) ∧
  Forall (λ b : block, lo0 ≤ b.1 ∧ b.1 + HEADER * b.2 ≤ u_brk f2 ∧ u_size f2 b.1 = b.2 ∧ 0 < b.2) [] ∧
  ([] = ([] : list block) → u_brk f2 ≠ lo0 → ring base0 f2 [(lo0, (u_brk f2 - lo0) / HEADER)]).
Proof. apply (umalloc_partition base0 lo0 h0 f2 []); [by vm_compute|by vm_compute|done|done|apply umalloc_run]. Defined.

(** Why the requests are bounded: a request of 2 GB makes the argument of
    [sbrk] negative, so that [sbrk] succeeds and leaves the break where it
    is.  The block that [malloc] returns then lies beyond the break, and the
    next [sbrk] gives its memory to another client. *)
Definition b1 := get (0, h0) (malloc base0 alloc0 10 40000 h0).
Definition b2 := get (0, h0) (malloc base0 alloc0 10 (2 ^ 31) b1.2).
Definition b3 := get (0, h0) (malloc base0 alloc0 10 40000 b2.2).
Lemma malloc_2gb : b1.1 ≠ 0 ∧ b2.1 ≠ 0 ∧ u_brk b2.2 = u_brk b1.2 ∧ u_brk b2.2 < b2.1 ∧ b3.1 = b2.1.
Proof. by vm_compute. Qed.

Lemma malloc_free_return_witness :
  ∃ bound, ∀ fuel, (bound ≤ fuel)%nat → ∃ r h', malloc base0 alloc0 fuel 100 h0 = Some (r, h') ∧ keeps [] h0 h' ∧
    ((r = 0 ∧ heap_ok base0 lo0 h' []) ∨ (heap_ok base0 lo0 h' [(r - HEADER, nunits 100)] ∧ 100 ≤ HEADER * (nunits 100 - 1))).
Proof.
  apply (malloc_free_return base0 lo0 alloc0 h0 []); [apply alloc0_law| |lia]. left. split_and!; [done|done|done|by vm_compute|by vm_compute|by vm_compute].
Defined.
End UmallocExamples.
