(* ===== verification/Kbd.v ===== *)
(** The keyboard driver ([src/kbd.c], [src/kbd.h]): scan codes become
    characters for the console.

    The two ports are read by the caller: [st] is the status and [data] the
    scan code. *)

From S2P Require Import Prelude Machine Ring Console.
From stdpp Require Import options.

Definition KBS_DIB : Z := 0x01.
Definition SHIFT : Z := 1.
Definition CTL : Z := 2.
Definition ALT : Z := 4.
Definition CAPSLOCK : Z := 8.
Definition NUMLOCK : Z := 16.
Definition SCROLLLOCK : Z := 32.
Definition E0ESC : Z := 64.

(** An array initialised from its first elements and designators. *)
Definition table (l : list Z) (des : list (Z * Z)) : list Z :=
  foldl (λ t d, aset t d.1 d.2) (l ++ replicate (256 - length l) 0) des.

Definition shiftcode : list Z := table
  []
  [(0x1D, 2); (0x2A, 1); (0x36, 1); (0x38, 4); (0x9D, 2); (0xB8, 4)].
Definition togglecode : list Z := table
  []
  [(0x3A, 8); (0x45, 16); (0x46, 32)].
Definition normalmap : list Z := table
  [0; 27; 49; 50; 51; 52; 53; 54; 55; 56; 57; 48; 45; 61; 8; 9;
   113; 119; 101; 114; 116; 121; 117; 105; 111; 112; 91; 93; 10; 0; 97; 115;
   100; 102; 103; 104; 106; 107; 108; 59; 39; 96; 0; 92; 122; 120; 99; 118;
   98; 110; 109; 44; 46; 47; 0; 42; 0; 32; 0; 0; 0; 0; 0; 0;
   0; 0; 0; 0; 0; 0; 0; 55; 56; 57; 45; 52; 53; 54; 43; 49;
   50; 51; 48; 46; 0; 0; 0; 0]
  [(0x9C, 10); (0xB5, 47); (0xC8, 226); (0xD0, 227); (0xC9, 230); (0xD1, 231); (0xCB, 228); (0xCD, 229); (0x97, 224); (0xCF, 225); (0xD2, 232); (0xD3, 233)].
Definition shiftmap : list Z := table
  [0; 27; 33; 64; 35; 36; 37; 94; 38; 42; 40; 41; 95; 43; 8; 9;
   81; 87; 69; 82; 84; 89; 85; 73; 79; 80; 123; 125; 10; 0; 65; 83;
   68; 70; 71; 72; 74; 75; 76; 58; 34; 126; 0; 124; 90; 88; 67; 86;
   66; 78; 77; 60; 62; 63; 0; 42; 0; 32; 0; 0; 0; 0; 0; 0;
   0; 0; 0; 0; 0; 0; 0; 55; 56; 57; 45; 52; 53; 54; 43; 49;
   50; 51; 48; 46; 0; 0; 0; 0]
  [(0x9C, 10); (0xB5, 47); (0xC8, 226); (0xD0, 227); (0xC9, 230); (0xD1, 231); (0xCB, 228); (0xCD, 229); (0x97, 224); (0xCF, 225); (0xD2, 232); (0xD3, 233)].
Definition ctlmap : list Z := table
  [0; 0; 0; 0; 0; 0; 0; 0; 0; 0; 0; 0; 0; 0; 0; 0;
   17; 23; 5; 18; 20; 25; 21; 9; 15; 16; 0; 0; 13; 0; 1; 19;
   4; 6; 7; 8; 10; 11; 12; 0; 0; 0; 0; 28; 26; 24; 3; 22;
   2; 14; 13; 0; 0; 239; 0; 0]
  [(0x9C, 13); (0xB5, 239); (0xC8, 226); (0xD0, 227); (0xC9, 230); (0xD1, 231); (0xCB, 228); (0xCD, 229); (0x97, 224); (0xCF, 225); (0xD2, 232); (0xD3, 233)].
Definition charcode : list (list Z) := [normalmap; shiftmap; ctlmap; ctlmap].

(** [kbdgetc()] with the static [shift]: the character, 0 for none and -1 if
    there is no data; [None] outside of an array. *)
Definition kbdgetc (st data shift : Z) : option (Z * Z) :=
  if Z.land st KBS_DIB =? 0 then Some (-1, shift)
  else if data =? 0xE0 then Some (0, Z.lor shift E0ESC)
  else if negb (Z.land data 0x80 =? 0) then
    let data := if negb (Z.land shift E0ESC =? 0) then data else Z.land data 0x7F in
    sc ← aget shiftcode data;
    Some (0, Z.land shift (Z.lnot (Z.lor sc E0ESC)))
  else
    let '(data, shift) := if negb (Z.land shift E0ESC =? 0) then (Z.lor data 0x80, Z.land shift (Z.lnot E0ESC)) else (data, shift) in
    sc ← aget shiftcode data;
    let shift := Z.lor shift sc in
    tc ← aget togglecode data;
    let shift := Z.lxor shift tc in
    map ← aget charcode (Z.land shift (Z.lor CTL SHIFT));
    c ← aget map data;
    Some (if negb (Z.land shift CAPSLOCK =? 0) then
            if (97 <=? c) && (c <=? 122) then c + 65 - 97
            else if (65 <=? c) && (c <=? 90) then c + 97 - 65 else c
          else c, shift).

(** The characters [kbdintr] passes to [consoleintr], for the port reads until
    there is no more data. *)
Fixpoint kbd_chars (reads : list (Z * Z)) (shift : Z) : option (list Z * Z) :=
  match reads with
  | [] => Some ([], shift)
  | (st, data) :: reads =>
      '(c, shift) ← kbdgetc st data shift;
      if c <? 0 then Some ([], shift) else
      '(cs, shift) ← kbd_chars reads shift;
      Some (c :: cs, shift)
  end.
Definition kbdintr (reads : list (Z * Z)) (shift : Z) (i : inputbuf) : option (inputbuf * Z) :=
  '(cs, shift) ← kbd_chars reads shift;
  let '(i, _, _) := consoleintr cs i in Some (i, shift).

(** ** The driver stays in its tables *)

Definition kbd_ok (p : Z * Z) : bool :=
  match kbdgetc KBS_DIB p.2 p.1 with
  | Some (c, shift) => (0 <=? c) && (c <? 256) && (0 <=? shift) && (shift <? 128)
  | None => false
  end.

Lemma kbdgetc_range_bool : forallb (λ shift, forallb (λ data, kbd_ok (shift, data)) (seqZ 0 256)) (seqZ 0 128) = true.
Proof. vm_compute. reflexivity. Qed.

Lemma forallb_seqZ f a n i : forallb f (seqZ a n) = true → a ≤ i < a + n → f i = true.
Proof. intros H Hi. rewrite forallb_forall in H. apply H, list_elem_of_In, elem_of_seqZ. lia. Qed.

Lemma kbdgetc_range st data shift : 0 ≤ data < 256 → 0 ≤ shift < 128 →
  ∃ c shift', kbdgetc st data shift = Some (c, shift') ∧ (c = -1 ∨ 0 ≤ c < 256) ∧ 0 ≤ shift' < 128.
Proof.
  intros Hd Hs. destruct (Z.eqb_spec (Z.land st KBS_DIB) 0) as [E|E]; [exists (-1), shift; unfold kbdgetc; rewrite (proj2 (Z.eqb_eq _ _) E); auto|].
  pose proof (forallb_seqZ _ _ _ _ (forallb_seqZ _ _ _ shift kbdgetc_range_bool ltac:(lia)) ltac:(split; apply Hd)) as Hok. unfold kbd_ok in Hok. cbn [fst snd] in Hok.
  replace (kbdgetc KBS_DIB data shift) with (kbdgetc st data shift) in Hok by (unfold kbdgetc; by rewrite (proj2 (Z.eqb_neq _ _) E)).
  destruct (kbdgetc st data shift) as [[c s]|]; [|done]. rewrite !andb_true_iff, !Z.leb_le, !Z.ltb_lt in Hok. exists c, s. split_and!; [done|right; lia|lia|lia].
Qed.

Lemma kbd_chars_bytes reads shift :
  Forall (λ p, 0 ≤ p.2 < 256) reads → 0 ≤ shift < 128 →
  ∃ cs shift', kbd_chars reads shift = Some (cs, shift') ∧ Forall (λ c, 0 ≤ c < 256) cs ∧ 0 ≤ shift' < 128.
Proof.
  revert shift. induction reads as [|[st data] reads IH]; intros shift Hr Hs; [by exists [], shift|]. apply Forall_cons in Hr as [Hd Hr]. cbn [kbd_chars].
  destruct (kbdgetc_range st data shift Hd Hs) as (c & s & -> & Hc & Hs'). cbn [mbind option_bind].
  destruct (Z.ltb_spec c 0); [by exists [], s|]. destruct (IH s Hr Hs') as (cs & s2 & -> & Hcs & Hs2). exists (c :: cs), s2. split_and!; [done|constructor; [lia|done]|lia|lia].
Qed.

(** ** The letter keys *)

Definition is_letter (c : Z) : bool := (97 <=? c) && (c <=? 122).
Definition has (shift bit : Z) : bool := negb (Z.land shift bit =? 0).

(** What a letter key means in a state of the modifier keys. *)
Definition letter_char (c shift : Z) : Z :=
  if has shift CTL then c - 96 else if xorb (has shift SHIFT) (has shift CAPSLOCK) then c - 32 else c.
Definition letter_ok (shift sc : Z) : bool :=
  let c := default 0 (aget normalmap sc) in
  negb (is_letter c) || bool_decide (kbdgetc KBS_DIB sc shift = Some (letter_char c shift, shift)).

Definition keys_of (c : Z) : list Z := filter (λ sc, aget normalmap sc = Some c) (seqZ 0 128).
Lemma letter_key c : is_letter c = true → exists! sc, 0 ≤ sc < 128 ∧ aget normalmap sc = Some c.
Proof.
  intros [Hc1%Z.leb_le Hc2%Z.leb_le]%andb_true_iff.
  assert (forallb (λ c, bool_decide (length (keys_of c) = 1%nat)) (seqZ 97 26) = true) as H by (vm_compute; reflexivity).
  pose proof (forallb_seqZ _ _ _ c H ltac:(lia)) as Hl%bool_decide_eq_true. clear H.
  assert (∀ sc, sc ∈ keys_of c ↔ 0 ≤ sc < 128 ∧ aget normalmap sc = Some c) as Hk.
  { intros sc. unfold keys_of. rewrite list_elem_of_filter, elem_of_seqZ. naive_solver lia. }
  destruct (keys_of c) as [|sc [|sc' l]]; try done. exists sc. split; [apply Hk; by left|]. intros x Hx%Hk. by apply list_elem_of_singleton in Hx.
Qed.

(** Each of the 26 letters has exactly one key; pressed without an escape
    prefix it gives the letter, in upper case if exactly one of Shift and Caps
    Lock is in effect, or the control character if Control is held. *)
Theorem kbd_letters :
  (∀ c, is_letter c = true → exists! sc, 0 ≤ sc < 128 ∧ aget normalmap sc = Some c) ∧
  (∀ sc c shift, 0 ≤ sc < 128 → aget normalmap sc = Some c → is_letter c = true → 0 ≤ shift < 64 →
    kbdgetc KBS_DIB sc shift = Some (letter_char c shift, shift)).
Proof.
  split; [apply letter_key|]. assert (forallb (λ shift, forallb (letter_ok shift) (seqZ 0 128)) (seqZ 0 64) = true) as H by (vm_compute; reflexivity).
  intros sc c shift Hsc Hn Hc Hs. pose proof (forallb_seqZ _ _ _ sc (forallb_seqZ _ _ _ shift H Hs) Hsc) as Hok.
  unfold letter_ok in Hok. rewrite Hn in Hok. cbn [default from_option id] in Hok. rewrite Hc in Hok. by apply bool_decide_eq_true in Hok.
Qed.

(** Whatever bytes the keyboard controller sends, [kbdgetc] stays inside
    its tables and gives the console bytes only, so the interrupt is a burst
    of typed characters for the line editor that the console implements. *)
Theorem kbdintr_types reads shift i cq eq :
  Forall (λ p, 0 ≤ p.2 < 256) reads → 0 ≤ shift < 128 → holds i cq eq →
  ∃ cs i' shift', kbd_chars reads shift = Some (cs, shift') ∧ kbdintr reads shift i = Some (i', shift') ∧ 0 ≤ shift' < 128 ∧
    let '(cq', eq', _) := ed_chars cs cq eq in holds i' cq' eq'.
Proof.
  intros Hr Hs Hi. destruct (kbd_chars_bytes reads shift Hr Hs) as (cs & s & E & Hcs & Hs'). pose proof (consoleintr_spec cs i cq eq Hi Hcs) as Hc.
  unfold kbdintr. rewrite E. simpl. destruct (consoleintr cs i) as [[i' out] d], (ed_chars cs cq eq) as [[cq' eq'] out'] eqn:E2. destruct Hc as [Hh _].
  exists cs, i', s. rewrite E2. split; [done|]. split; [done|]. by split.
Qed.

(** ** Examples *)

Module KbdExamples.
(** Shift pressed, the key [a], shift released, the key [b]. *)
Definition ex_reads : list (Z * Z) := [(1, 0x2A); (1, 0x1E); (1, 0x9E); (1, 0xAA); (1, 0x30); (1, 0xB0); (0, 0)].

Lemma kbdintr_types_witness :
  kbd_chars ex_reads 0 = Some ([0; 65; 0; 0; 98; 0], 0) ∧
  ∃ cs i' shift', kbd_chars ex_reads 0 = Some (cs, shift') ∧ kbdintr ex_reads 0 ConsoleExamples.input0 = Some (i', shift') ∧ 0 ≤ shift' < 128 ∧
    let '(cq', eq', _) := ed_chars cs [] [] in holds i' cq' eq'.
Proof.
  split; [by vm_compute|]. apply (kbdintr_types ex_reads 0 ConsoleExamples.input0 [] []); [|lia|apply ConsoleExamples.holds_input0].
  repeat constructor; done.
Defined.
End KbdExamples.
