(* ===== verification/Trap.v ===== *)
(** Traps, interrupts and system calls: [src/trap.c], [src/syscall.c] and
    [src/sysproc.c].

    A call that gives up the processor (exit, sleep, yield) ends the part that
    is modelled here in the state that the scheduler finds, as in Proc; what
    runs after it is a definition of its own.  The kernel reads arguments
    through the page table of the process: an access to a page that is not
    present traps in kernel mode ([kernel_fault]), into the same code as an
    exception of a program ([trap_exception]). *)

From S2P Require Import Prelude Memory Machine Kalloc Swap Vm Proc Paging.
From stdpp Require Import options.
Import Swap Vm Proc.

Definition T_PGFLT := 14.
Definition T_SYSCALL := 64.
Definition T_IRQ0 := 32.
Definition IRQ_TIMER := 0.
Definition IRQ_KBD := 1.
Definition IRQ_COM1 := 4.
Definition IRQ_IDE := 14.
Definition IRQ_SPURIOUS := 31.
Definition SYS_fork := 1.
Definition SYS_exit := 2.
Definition SYS_wait := 3.
Definition SYS_kill := 6.
Definition SYS_getpid := 11.
Definition SYS_sbrk := 12.
Definition SYS_sleep := 13.
Definition SYS_uptime := 14.
Definition SYS_yield := 22.

(** What a system call does: it returns, or it gives up the processor, to
    sleep, to yield or for good. *)
Inductive sys_next := SysRet (v : Z) | SysSleep | SysYield | SysExit.
Inductive trap_next := TrapRet | TrapSleep | TrapYield | TrapExit.

Module Trap.
Section trap.
Context (SELECTION : policy) (VERBOSE : bool) {F : Type} `{!FileSys F}.
Context (kend kdata forkret_addr trapret_addr ptable_proc sizeof_proc : Z).
Context (ticks_chan : Z).                          (* &ticks *)
Context (sysfile : Z → option (M (kst F) sys_next)). (* the system calls of sysfile.c *)
Context (ideintr kbdintr uartintr : M (kst F) unit).
Implicit Types s : kst F.

(** ** Traps in the kernel *)

Definition trap_unexpected (trapno eip : Z) : M (kst F) unit :=
  cr2 <- gets k_cr2 ;;
  cprintf "unexpected trap %d from cpu %d eip %x (cr2=0x%x)\n" (ints [trapno; 0; eip; cr2]) ;;
  (if decide (SELECTION = AQ) then
     pi <- myproc ;;
     p <- getp pi ;;
     printQueue (Z.to_nat MAX_TOTAL_PAGES) (p_page_queue p) (p_pages p)
   else skip) ;;
  panic "trap".

(** The default case of the switch in [trap]: an exception. *)
Definition trap_exception (tf : trapframe) : M (kst F) unit :=
  c <- gets k_cur ;;
  match c with
  | None => trap_unexpected (tf_trapno tf) (tf_eip tf)
  | Some i =>
      if Z.land (tf_cs tf) 3 =? 0 then trap_unexpected (tf_trapno tf) (tf_eip tf) else
      (if tf_trapno tf =? T_PGFLT then handle_pgflt SELECTION kend else skip) ;;
      p <- getp i ;;
      if p_killed p then
        cr2 <- gets k_cr2 ;;
        cprintf "pid %d %s: trap %d err %d on cpu %d eip 0x%x addr 0x%x--kill proc\n"
          [AI (p_pid p); AS (p_name p); AI (tf_trapno tf); AI (tf_err tf); AI 0; AI (tf_eip tf); AI cr2] ;;
        modp i (λ p, p <| p_killed := true |>)
      else skip
  end.

(** A page fault of the kernel itself: [alltraps] hands [trap] a frame with the
    kernel's code segment ([tf_eip], which is only printed, is left out). *)
Definition kernel_pgflt : trapframe := zero_trapframe <| tf_trapno := T_PGFLT |> <| tf_cs := Z.shiftl SEG_KCODE 3 |>.
Definition kernel_fault (va : Z) : M (kst F) unit :=
  modify (λ s, s <| k_cr2 := va |>) ;;
  trap_exception kernel_pgflt.

(** The byte that the page tables give for an address (the accessed bit that
    the processor sets in the entry is left out). *)
Definition vbyte (m : memory) (pgdir va : Z) : option Z :=
  let pde := load32 m (pgdir + 4 * PDX va) in
  if negb (pte_has pde PTE_P) then None else
  let pte := load32 m (P2V (PTE_ADDR pde) + 4 * PTX va) in
  if negb (pte_has pte PTE_P) then None else
  Some (load8 m (P2V (PTE_ADDR pte) + Z.land va 0xFFF)).

(** The kernel reads a byte at an address of the process.  When the page is
    not present the processor traps, and executes the instruction again if
    [trap] returns; a handler that brings the page in needs one more try. *)
Definition vload8 (va : Z) : M (kst F) Z :=
  loop 2 (λ _,
    pgdir <- my_pgdir ;;
    b <- gets (λ s, vbyte (k_mem s) pgdir va) ;;
    match b with
    | Some b => ret (inr b)
    | None => kernel_fault va ;; ret (inl tt)
    end) tt.
Definition vload32 (va : Z) : M (kst F) Z :=
  b0 <- vload8 va ;; b1 <- vload8 (va + 1) ;; b2 <- vload8 (va + 2) ;; b3 <- vload8 (va + 3) ;;
  ret (b0 + 2 ^ 8 * b1 + 2 ^ 16 * b2 + 2 ^ 24 * b3).

(** ** Arguments of system calls *)

Definition my_sz : M (kst F) Z := pi <- myproc ;; p <- getp pi ;; ret (p_sz p).

Definition fetchint (addr : Z) : M (kst F) (option Z) :=
  sz <- my_sz ;;
  if (sz <=? addr) || (sz <? u32 (addr + 4)) then ret None else
  v <- vload32 addr ;;
  ret (Some (s32 v)).

(** The pointer and the length; the loop ends at [sz]. *)
Definition fetchstr (addr : Z) : M (kst F) (option (Z * Z)) :=
  sz <- my_sz ;;
  if sz <=? addr then ret None else
  loop (S (Z.to_nat (sz - addr))) (λ p,
    if p <? sz then
      c <- vload8 p ;;
      if c =? 0 then ret (inr (Some (addr, p - addr))) else ret (inl (p + 1))
    else ret (inr None)) addr.

Definition argint (n : Z) : M (kst F) (option Z) :=
  pi <- myproc ;;
  p <- getp pi ;;
  fetchint (u32 (tf_esp (p_tf p) + 4 + 4 * n)).

Definition argptr (n size : Z) : M (kst F) (option Z) :=
  sz <- my_sz ;;
  i <- argint n ;;
  match i with
  | None => ret None
  | Some i =>
      if (size <? 0) || (sz <=? u32 i) || (sz <? u32 (u32 i + size)) then ret None
      else ret (Some (u32 i))
  end.

Definition argstr (n : Z) : M (kst F) (option (Z * Z)) :=
  a <- argint n ;;
  match a with None => ret None | Some a => fetchstr (u32 a) end.

(** ** System calls of sysproc.c *)

Definition sys_fork : M (kst F) sys_next := r <- fork SELECTION kend kdata forkret_addr trapret_addr ;; ret (SysRet r).
Definition sys_exit : M (kst F) sys_next := exit_enter VERBOSE ptable_proc sizeof_proc ;; ret SysExit.
Definition sys_wait : M (kst F) sys_next :=
  r <- wait_enter SELECTION kend ptable_proc sizeof_proc ;;
  ret match r with WaitRet pid => SysRet pid | WaitSleep => SysSleep end.
Definition sys_wait_resume : M (kst F) sys_next :=
  r <- wait_resume SELECTION kend ptable_proc sizeof_proc ;;
  ret match r with WaitRet pid => SysRet pid | WaitSleep => SysSleep end.
Definition sys_kill : M (kst F) sys_next :=
  pid <- argint 0 ;;
  match pid with None => ret (SysRet (-1)) | Some pid => r <- kill pid ;; ret (SysRet r) end.
Definition sys_getpid : M (kst F) sys_next := pi <- myproc ;; p <- getp pi ;; ret (SysRet (p_pid p)).
Definition sys_yield : M (kst F) sys_next := yield_enter SELECTION ;; ret SysYield.
Definition sys_sbrk : M (kst F) sys_next :=
  n <- argint 0 ;;
  match n with
  | None => ret (SysRet (-1))
  | Some n =>
      addr <- my_sz ;;
      r <- growproc SELECTION kend n ;;
      if r <? 0 then ret (SysRet (-1)) else ret (SysRet (s32 addr))
  end.

Definition tickslk : sleep_lock (F := F) := LkOther (acquire k_tickslock) (release k_tickslock).
(** [while(ticks - ticks0 < n)], with [n] converted to unsigned. *)
Definition sleep_check (n ticks0 : Z) : M (kst F) sys_next :=
  t <- gets k_ticks ;;
  if u32 (t - ticks0) <? u32 n then
    pi <- myproc ;;
    p <- getp pi ;;
    if p_killed p then release k_tickslock ;; ret (SysRet (-1))
    else sleep_enter ticks_chan tickslk ;; ret SysSleep
  else release k_tickslock ;; ret (SysRet 0).
Definition sys_sleep : M (kst F) sys_next :=
  n <- argint 0 ;;
  match n with
  | None => ret (SysRet (-1))
  | Some n =>
      acquire k_tickslock ;;
      ticks0 <- gets k_ticks ;;
      sleep_check n ticks0
  end.
Definition sys_sleep_resume (n ticks0 : Z) : M (kst F) sys_next := sleep_resume tickslk ;; sleep_check n ticks0.
Definition sys_uptime : M (kst F) sys_next :=
  acquire k_tickslock ;;
  t <- gets k_ticks ;;
  release k_tickslock ;;
  ret (SysRet (s32 t)).

(** [syscalls[num]]. *)
Definition syscalls (num : Z) : option (M (kst F) sys_next) :=
  if num =? SYS_fork then Some sys_fork
  else if num =? SYS_exit then Some sys_exit
  else if num =? SYS_wait then Some sys_wait
  else if num =? SYS_kill then Some sys_kill
  else if num =? SYS_getpid then Some sys_getpid
  else if num =? SYS_sbrk then Some sys_sbrk
  else if num =? SYS_sleep then Some sys_sleep
  else if num =? SYS_uptime then Some sys_uptime
  else if num =? SYS_yield then Some sys_yield
  else if (0 <? num) && (num <=? 22) then sysfile num else None.

Definition set_eax (v : Z) : M (kst F) unit :=
  pi <- myproc ;; modp pi (λ p, p <| p_tf ::= λ tf, tf <| tf_eax := u32 v |> |>).

(** The end of [syscall()], when the call has a result. *)
Definition syscall_end (r : sys_next) : M (kst F) trap_next :=
  match r with
  | SysRet v =>
      set_eax v ;;
      pi <- myproc ;;
      p <- getp pi ;;
      if p_killed p then exit_enter VERBOSE ptable_proc sizeof_proc ;; ret TrapExit else ret TrapRet
  | SysSleep => ret TrapSleep
  | SysYield => ret TrapYield
  | SysExit => ret TrapExit
  end.

Definition syscall : M (kst F) sys_next :=
  pi <- myproc ;;
  p <- getp pi ;;
  let num := s32 (tf_eax (p_tf p)) in
  match syscalls num with
  | Some f => f
  | None =>
      cprintf "%d %s: unknown sys call %d\n" [AI (p_pid p); AS (p_name p); AI num] ;;
      ret (SysRet (-1))
  end.

(** ** [trap()] *)

Definition user_mode (tf : trapframe) : bool := Z.land (tf_cs tf) 3 =? DPL_USER.

(** [if(myproc() && myproc()->killed && (tf->cs&3) == DPL_USER) exit();], and
    the rest. *)
Definition exit_killed (tf : trapframe) (rest : M (kst F) trap_next) : M (kst F) trap_next :=
  c <- gets k_cur ;;
  match c with
  | Some i =>
      p <- getp i ;;
      if p_killed p && user_mode tf then exit_enter VERBOSE ptable_proc sizeof_proc ;; ret TrapExit else rest
  | None => rest
  end.

(** After the switch of [trap]. *)
Definition trap_end (tf : trapframe) : M (kst F) trap_next :=
  exit_killed tf (
    c <- gets k_cur ;;
    yields <- match c with
              | Some i => p <- getp i ;; ret (bool_decide (p_state p = RUNNING) && (tf_trapno tf =? T_IRQ0 + IRQ_TIMER))
              | None => ret false
              end ;;
    if yields : bool then yield_enter SELECTION ;; ret TrapYield
    else exit_killed tf (ret TrapRet)).
(** Back from the [yield()] in [trap]. *)
Definition trap_resume (tf : trapframe) : M (kst F) trap_next := yield_resume ;; exit_killed tf (ret TrapRet).

Definition clock_tick : M (kst F) unit :=
  acquire k_tickslock ;;
  modify (λ s, s <| k_ticks ::= λ t, u32 (t + 1) |>) ;;
  wakeup ticks_chan ;;
  release k_tickslock.

Definition trap (tf : trapframe) : M (kst F) trap_next :=
  let n := tf_trapno tf in
  if n =? T_SYSCALL then
    pi <- myproc ;;
    p <- getp pi ;;
    if p_killed p then exit_enter VERBOSE ptable_proc sizeof_proc ;; ret TrapExit else
    modp pi (λ p, p <| p_tf := tf |>) ;;
    r <- syscall ;;
    syscall_end r
  else
    (if n =? T_IRQ0 + IRQ_TIMER then clock_tick
     else if n =? T_IRQ0 + IRQ_IDE then ideintr
     else if n =? T_IRQ0 + IRQ_IDE + 1 then skip
     else if n =? T_IRQ0 + IRQ_KBD then kbdintr
     else if n =? T_IRQ0 + IRQ_COM1 then uartintr
     else if (n =? T_IRQ0 + 7) || (n =? T_IRQ0 + IRQ_SPURIOUS) then
       cprintf "cpu%d: spurious interrupt at %x:%x\n" (ints [0; tf_cs tf; tf_eip tf])
     else trap_exception tf) ;;
    trap_end tf.

(** ** Reading arguments *)

Lemma my_pgdir_ok pi p s : k_cur s = Some pi → k_procs s !! pi = Some p → my_pgdir s = Ok (p_pgdir p) s.
Proof using. intros Hc Hp. unfold my_pgdir, myproc, getp, bind, gets. simpl. rewrite Hc. simpl. by rewrite Hp. Qed.
Lemma my_sz_ok pi p s : k_cur s = Some pi → k_procs s !! pi = Some p → my_sz s = Ok (p_sz p) s.
Proof using. intros Hc Hp. unfold my_sz, myproc, getp, bind, gets. simpl. rewrite Hc. simpl. by rewrite Hp. Qed.

(** In kernel mode [trap] does not get to [handle_pgflt]. *)
Lemma kernel_fault_eq va s : kernel_fault va s = (modify (λ s, s <| k_cr2 := va |>) ;; trap_unexpected T_PGFLT 0) s.
Proof using. unfold kernel_fault, trap_exception. unfold bind at 1 2 3, modify, gets. cbn -[Z.land trap_unexpected]. by destruct (k_cur s). Qed.

Lemma kernel_fault_panics va s : SELECTION ≠ AQ → kernel_fault va s = Panic "trap".
Proof using. intros Hsel. rewrite kernel_fault_eq. unfold trap_unexpected, bind, gets, cprintf, modify. simpl. by rewrite decide_False. Qed.

(** [vload8] leaves out what [trap] does after the switch: nothing, for a
    fault of the kernel. *)
Lemma trap_kernel_pgflt s s1 :
  trap_exception kernel_pgflt s = Ok tt s1 → (∀ i, k_cur s1 = Some i → is_Some (k_procs s1 !! i)) → trap kernel_pgflt s = Ok TrapRet s1.
Proof using.
  intros E Hcur. assert (∀ rest r, rest s1 = r → exit_killed kernel_pgflt rest s1 = r) as Hx.
  { intros rest r <-. unfold exit_killed, bind, gets. simpl. destruct (k_cur s1) as [i|] eqn:Ec; [|done]. destruct (Hcur i eq_refl) as [q Hq].
    rewrite (getp_ok _ _ _ Hq). change (user_mode kernel_pgflt) with false. simpl. by rewrite andb_false_r. }
  unfold trap. cbn -[trap_exception trap_end]. rewrite (bind_ok _ _ _ _ _ E). apply Hx.
  unfold bind at 1, gets. simpl. destruct (k_cur s1) as [i|] eqn:Ec; [|by apply Hx]. destruct (Hcur i eq_refl) as [q Hq].
  rewrite (bind_ok _ _ s1 false s1); [by apply Hx|]. rewrite (bind_ok _ _ _ _ _ (getp_ok _ _ _ Hq)). change (tf_trapno kernel_pgflt =? T_IRQ0 + IRQ_TIMER) with false. by rewrite andb_false_r.
Qed.

Lemma vload8_ok pi p va b s :
  k_cur s = Some pi → k_procs s !! pi = Some p → vbyte (k_mem s) (p_pgdir p) va = Some b → vload8 va s = Ok b s.
Proof using.
  intros Hc Hp Hb. unfold vload8. cbn [loop]. rewrite (bind_ok _ _ _ (inr b) s); [done|]. rewrite (bind_ok _ _ _ _ _ (my_pgdir_ok _ _ _ Hc Hp)).
  unfold bind, gets. simpl. by rewrite Hb.
Qed.

Lemma vload8_fault pi p va s :
  SELECTION ≠ AQ → k_cur s = Some pi → k_procs s !! pi = Some p → vbyte (k_mem s) (p_pgdir p) va = None → vload8 va s = Panic "trap".
Proof using.
  intros Hsel Hc Hp Hb. unfold vload8. cbn [loop]. unfold bind at 1. rewrite (bind_ok _ _ _ _ _ (my_pgdir_ok _ _ _ Hc Hp)).
  unfold bind, gets. simpl. rewrite Hb. by rewrite kernel_fault_panics.
Qed.

(** The four bytes of a word, if their pages are present. *)
Definition vword (m : memory) (pgdir va : Z) : option Z :=
  b0 ← vbyte m pgdir va; b1 ← vbyte m pgdir (va + 1); b2 ← vbyte m pgdir (va + 2); b3 ← vbyte m pgdir (va + 3);
  Some (b0 + 2 ^ 8 * b1 + 2 ^ 16 * b2 + 2 ^ 24 * b3).

Lemma vload32_some pi p va v s :
  k_cur s = Some pi → k_procs s !! pi = Some p → vword (k_mem s) (p_pgdir p) va = Some v → vload32 va s = Ok v s.
Proof using.
  intros Hc Hp. unfold vload32, vword. intros (b0 & E0 & (b1 & E1 & (b2 & E2 & (b3 & E3 & [= <-])%bind_Some)%bind_Some)%bind_Some)%bind_Some.
  rewrite (bind_ok _ _ _ _ _ (vload8_ok _ _ _ _ _ Hc Hp E0)), (bind_ok _ _ _ _ _ (vload8_ok _ _ _ _ _ Hc Hp E1)).
  by rewrite (bind_ok _ _ _ _ _ (vload8_ok _ _ _ _ _ Hc Hp E2)), (bind_ok _ _ _ _ _ (vload8_ok _ _ _ _ _ Hc Hp E3)).
Qed.

Lemma vload32_ok pi p va s :
  SELECTION ≠ AQ → k_cur s = Some pi → k_procs s !! pi = Some p →
  vload32 va s = match vword (k_mem s) (p_pgdir p) va with Some v => Ok v s | None => Panic "trap" end.
Proof using.
  intros Hsel Hc Hp. destruct (vword (k_mem s) (p_pgdir p) va) as [v|] eqn:E; [by apply (vload32_some pi p)|]. revert E. unfold vload32, vword, bind.
  destruct (vbyte (k_mem s) (p_pgdir p) va) as [b0|] eqn:E0; simpl; [rewrite (vload8_ok _ _ _ _ _ Hc Hp E0)|by rewrite (vload8_fault _ _ _ _ Hsel Hc Hp E0)].
  destruct (vbyte (k_mem s) (p_pgdir p) (va + 1)) as [b1|] eqn:E1; simpl; [rewrite (vload8_ok _ _ _ _ _ Hc Hp E1)|by rewrite (vload8_fault _ _ _ _ Hsel Hc Hp E1)].
  destruct (vbyte (k_mem s) (p_pgdir p) (va + 2)) as [b2|] eqn:E2; simpl; [rewrite (vload8_ok _ _ _ _ _ Hc Hp E2)|by rewrite (vload8_fault _ _ _ _ Hsel Hc Hp E2)].
  destruct (vbyte (k_mem s) (p_pgdir p) (va + 3)) as [b3|] eqn:E3; simpl; [done|by rewrite (vload8_fault _ _ _ _ Hsel Hc Hp E3)].
Qed.

Lemma fetchint_spec pi p addr s :
  SELECTION ≠ AQ → k_cur s = Some pi → k_procs s !! pi = Some p → 0 ≤ p_sz p < KERNBASE → 0 ≤ addr < 2 ^ 32 →
  fetchint addr s =
    if p_sz p <? addr + 4 then Ok None s
    else match vword (k_mem s) (p_pgdir p) addr with Some v => Ok (Some (s32 v)) s | None => Panic "trap" end.
Proof using.
  intros Hsel Hc Hp Hsz Ha. unfold fetchint. rewrite (bind_ok _ _ _ _ _ (my_sz_ok _ _ _ Hc Hp)). unfold KERNBASE in *.
  destruct (Z.leb_spec (p_sz p) addr) as [Hle|Hlt]; simpl; [destruct (Z.ltb_spec (p_sz p) (addr + 4)); [done|lia]|].
  rewrite u32_id by lia. destruct (Z.ltb_spec (p_sz p) (addr + 4)); [done|]. unfold bind. rewrite (vload32_ok _ _ _ _ Hsel Hc Hp).
  by destruct (vword (k_mem s) (p_pgdir p) addr).
Qed.

(** The string at an address: its length, if a zero byte comes before [sz]. *)
Fixpoint vstrlen (fuel : nat) (m : memory) (pgdir sz va : Z) : option (option Z) :=
  match fuel with
  | O => Some None
  | S fuel =>
      if va <? sz then
        match vbyte m pgdir va with
        | Some c => if c =? 0 then Some (Some 0) else match vstrlen fuel m pgdir sz (va + 1) with Some (Some n) => Some (Some (n + 1)) | r => r end
        | None => None
        end
      else Some None
  end.

Lemma fetchstr_loop_spec fuel pi p addr va s :
  SELECTION ≠ AQ → k_cur s = Some pi → k_procs s !! pi = Some p → va ≤ p_sz p < va + Z.of_nat fuel →
  loop fuel (λ q, if q <? p_sz p then c <- vload8 q ;; if c =? 0 then ret (inr (Some (addr, q - addr))) else ret (inl (q + 1))
                  else ret (inr None)) va s =
  match vstrlen fuel (k_mem s) (p_pgdir p) (p_sz p) va with
  | Some (Some n) => Ok (Some (addr, va + n - addr)) s
  | Some None => Ok None s
  | None => Panic "trap"
  end.
Proof using.
  intros Hsel Hc Hp. set (body := λ q : Z, _). revert va. induction fuel as [|fuel IH]; intros va Hf; [lia|]. cbn [loop vstrlen].
  destruct (Z.ltb_spec va (p_sz p)) as [Hlt|Hge].
  2: { assert (body va s = Ok (inr None) s) as Eb by (unfold body; destruct (Z.ltb_spec va (p_sz p)); [lia|done]). by rewrite (bind_ok _ _ _ _ _ Eb). }
  destruct (vbyte (k_mem s) (p_pgdir p) va) as [c|] eqn:E.
  2: { assert (body va s = Panic "trap") as Eb by (unfold body, bind; destruct (Z.ltb_spec va (p_sz p)); [by rewrite (vload8_fault _ _ _ _ Hsel Hc Hp E)|lia]).
       unfold bind. by rewrite Eb. }
  assert (body va s = Ok (if c =? 0 then inr (Some (addr, va - addr)) else inl (va + 1)) s) as Eb.
  { unfold body. destruct (Z.ltb_spec va (p_sz p)); [|lia]. rewrite (bind_ok _ _ _ _ _ (vload8_ok _ _ _ _ _ Hc Hp E)). by destruct (c =? 0). }
  rewrite (bind_ok _ _ _ _ _ Eb). destruct (c =? 0); [by rewrite Z.add_0_r|]. rewrite IH by lia.
  destruct (vstrlen fuel _ _ _ _) as [[n|]|]; try done. do 3 f_equal. lia.
Qed.

Lemma vstrlen_bound fuel m pgdir sz va n : vstrlen fuel m pgdir sz va = Some (Some n) → 0 ≤ n ∧ va + n < sz ∧ vbyte m pgdir (va + n) = Some 0.
Proof using.
  revert va n. induction fuel as [|fuel IH]; intros va n; simpl; [done|]. destruct (Z.ltb_spec va sz); [|done]. destruct (vbyte m pgdir va) as [c|] eqn:E; [|done].
  destruct (Z.eqb_spec c 0) as [->|]; [intros [= <-]; rewrite Z.add_0_r; split_and!; [lia|lia|done]|].
  destruct (vstrlen fuel m pgdir sz (va + 1)) as [[k|]|] eqn:Ek; try done. intros [= <-]. destruct (IH _ _ Ek) as (? & ? & H3). replace (va + (k + 1)) with (va + 1 + k) by lia. split_and!; [lia|lia|done].
Qed.

Lemma fetchstr_spec pi p addr s :
  SELECTION ≠ AQ → k_cur s = Some pi → k_procs s !! pi = Some p →
  fetchstr addr s =
    if p_sz p <=? addr then Ok None s
    else match vstrlen (S (Z.to_nat (p_sz p - addr))) (k_mem s) (p_pgdir p) (p_sz p) addr with
         | Some (Some n) => Ok (Some (addr, n)) s
         | Some None => Ok None s
         | None => Panic "trap"
         end.
Proof using.
  intros Hsel Hc Hp. unfold fetchstr. rewrite (bind_ok _ _ _ _ _ (my_sz_ok _ _ _ Hc Hp)). destruct (Z.leb_spec (p_sz p) addr); [done|].
  rewrite (fetchstr_loop_spec _ pi p) by (try done; lia). destruct (vstrlen _ _ _ _ _) as [[n|]|]; try done. do 3 f_equal. lia.
Qed.

Lemma argint_spec pi p n s :
  k_cur s = Some pi → k_procs s !! pi = Some p → argint n s = fetchint (u32 (tf_esp (p_tf p) + 4 + 4 * n)) s.
Proof using. intros Hc Hp. unfold argint, myproc, getp, bind at 1 2, gets. simpl. rewrite Hc. simpl. unfold bind. simpl. by rewrite Hp. Qed.

Lemma argptr_bounds pi p n size v s s' :
  SELECTION ≠ AQ → k_cur s = Some pi → k_procs s !! pi = Some p → 0 ≤ p_sz p < KERNBASE → size < 2 ^ 31 →
  argptr n size s = Ok (Some v) s' → s' = s ∧ 0 ≤ v ∧ 0 ≤ size ∧ v + size ≤ p_sz p.
Proof using.
  intros Hsel Hc Hp Hsz Hsize. unfold argptr. rewrite (bind_ok _ _ _ _ _ (my_sz_ok _ _ _ Hc Hp)). unfold bind. rewrite (argint_spec pi p) by done.
  rewrite (fetchint_spec pi p) by (done || apply u32_range). destruct (_ <? _); [done|]. destruct (vword _ _ _) as [w|]; [|done]. simpl. pose proof (u32_range (s32 w)).
  destruct (Z.ltb_spec size 0); [done|]. destruct (Z.leb_spec (p_sz p) (u32 (s32 w))); [done|]. simpl. rewrite u32_id by (unfold KERNBASE in *; lia).
  destruct (Z.ltb_spec (p_sz p) (u32 (s32 w) + size)); [done|]. intros [= <- <-]. unfold KERNBASE in *. split_and!; [done|lia..].
Qed.

(** C39: The kernel reads the arguments of a system call inside the process or
    not at all.  An integer is fetched exactly if its four bytes lie below
    [sz]; a buffer that is accepted lies below [sz] as a whole; a string that
    is accepted ends with a zero byte below [sz].  Only a page that is not in
    memory is not provided for: the read panics.  (Under the policies other
    than AQ; AQ prints its queue before the panic.) *)
Theorem syscall_args_checked pi p s :
  SELECTION ≠ AQ → k_cur s = Some pi → k_procs s !! pi = Some p → 0 ≤ p_sz p < KERNBASE →
  (∀ addr, 0 ≤ addr < 2 ^ 32 →
    fetchint addr s = if p_sz p <? addr + 4 then Ok None s
                      else match vword (k_mem s) (p_pgdir p) addr with Some v => Ok (Some (s32 v)) s | None => Panic "trap" end) ∧
  (∀ n size v s', size < 2 ^ 31 → argptr n size s = Ok (Some v) s' → s' = s ∧ 0 ≤ v ∧ 0 ≤ size ∧ v + size ≤ p_sz p) ∧
  (∀ addr q n s', fetchstr addr s = Ok (Some (q, n)) s' →
    s' = s ∧ q = addr ∧ 0 ≤ n ∧ addr + n < p_sz p ∧ vbyte (k_mem s) (p_pgdir p) (addr + n) = Some 0).
Proof using.
  intros Hsel Hc Hp Hsz. split_and!.
  - intros addr Ha. by apply (fetchint_spec pi p).
  - intros n size v s' Hs. by apply (argptr_bounds pi p).
  - intros addr q n s'. rewrite (fetchstr_spec pi p) by done. destruct (p_sz p <=? addr); [done|].
    destruct (vstrlen _ _ _ _ _) as [[k|]|] eqn:E; try done. intros [= <- <- <-]. apply vstrlen_bound in E as (? & ? & ?). done.
Qed.

(** The argument word of a system call is not in memory. *)
Lemma argint_paged_out pi p n s :
  SELECTION ≠ AQ → k_cur s = Some pi → k_procs s !! pi = Some p → 0 ≤ p_sz p < KERNBASE →
  let a := tf_esp (p_tf p) + 4 + 4 * n in
  0 ≤ a → a + 4 ≤ p_sz p → vword (k_mem s) (p_pgdir p) a = None → argint n s = Panic "trap".
Proof using.
  intros Hsel Hc Hp Hsz a Ha Hin Hb. rewrite (argint_spec pi p) by done. fold a. rewrite u32_id, (fetchint_spec pi p) by (done || (unfold KERNBASE in *; lia)).
  destruct (Z.ltb_spec (p_sz p) (a + 4)); [lia|]. by rewrite Hb.
Qed.

(** C40: When the argument of [kill], [sbrk] or [sleep] lies, in whole or in
    part, in a page that was swapped out, the call stops the machine: the
    kernel's read of it faults in kernel mode, where [trap] panics before it
    gets to the page fault handler.  (Under the policies other than AQ; AQ
    prints its queue before the panic.) *)
Theorem paged_out_argument_panics pi p tf s :
  SELECTION ≠ AQ → k_cur s = Some pi → k_procs s !! pi = Some p → p_killed p = false → 0 ≤ p_sz p < KERNBASE →
  tf_trapno tf = T_SYSCALL → tf_eax tf ∈ [SYS_kill; SYS_sbrk; SYS_sleep] → 0 ≤ tf_esp tf → tf_esp tf + 8 ≤ p_sz p →
  vword (k_mem s) (p_pgdir p) (tf_esp tf + 4) = None →
  trap tf s = Panic "trap".
Proof using.
  intros Hsel Hc Hp Hk Hsz Ht He Hesp Hin Hb. unfold trap. rewrite Ht. cbn [Z.eqb T_SYSCALL Pos.eqb].
  assert (∀ A (k : nat → M (kst F) A), (pi <- myproc ;; k pi) s = k pi s) as Hmy by (intros A k; unfold myproc, bind, gets; simpl; by rewrite Hc).
  rewrite Hmy, (bind_ok _ _ _ _ _ (getp_ok _ _ _ Hp)), Hk, (bind_ok _ _ _ _ _ (modp_ok _ _ _ _ Hp)).
  set (p1 := p <| p_tf := tf |>). set (s1 := s <| k_procs ::= <[pi := p1]> |>).
  assert (k_procs s1 !! pi = Some p1) as Hp1 by (simpl; apply list_lookup_insert_eq; by eapply lookup_lt_Some).
  assert (argint 0 s1 = Panic "trap") as Harg.
  { apply (argint_paged_out pi p1); [done|done|done|done|simpl; lia|simpl; lia|]. simpl. by replace (tf_esp tf + 4 + 4 * 0) with (tf_esp tf + 4) by lia. }
  assert (syscall s1 = Panic "trap") as Hsys.
  { unfold syscall, myproc. unfold bind at 1 2. unfold gets. simpl. rewrite Hc. simpl. rewrite (bind_ok _ _ _ _ _ (getp_ok _ _ _ Hp1)). simpl.
    assert (s32 (tf_eax tf) = 6 ∨ s32 (tf_eax tf) = 12 ∨ s32 (tf_eax tf) = 13) as [-> | [-> | ->]].
    { rewrite !elem_of_cons, elem_of_nil in He. destruct He as [-> | [-> | [-> | []]]]; [by left|right; by left|by right; right]. }
    all: simpl; unfold sys_kill, sys_sbrk, sys_sleep, bind; by rewrite Harg. }
  unfold bind. by rewrite Hsys.
Qed.

(** A processor exception of a user program other than a page fault, a
    division by zero or an illegal instruction say, does not end the program:
    [trap] returns to the faulting instruction with nothing changed. *)
Theorem exception_retries pi p tf s :
  k_cur s = Some pi → k_procs s !! pi = Some p → p_killed p = false → user_mode tf = true →
  0 ≤ tf_trapno tf < T_IRQ0 → tf_trapno tf ≠ T_PGFLT →
  trap tf s = Ok TrapRet s.
Proof using.
  intros Hc Hp Hk Hu Hn Hpf. assert (exit_killed tf (ret TrapRet) s = Ok TrapRet s) as Hx.
  { unfold exit_killed, bind, gets. simpl. rewrite Hc. unfold getp, bind, gets. simpl. rewrite Hp. simpl. by rewrite Hk. }
  assert (trap_exception tf s = Ok tt s) as He.
  { unfold trap_exception, bind at 1, gets. simpl. rewrite Hc. unfold user_mode in Hu. apply Z.eqb_eq in Hu. rewrite Hu. cbn [Z.eqb DPL_USER].
    rewrite (proj2 (Z.eqb_neq _ _) Hpf). unfold getp, bind, gets. simpl. rewrite Hp. simpl. by rewrite Hk. }
  unfold T_IRQ0 in *. unfold trap. unfold T_SYSCALL, T_IRQ0, IRQ_TIMER, IRQ_IDE, IRQ_KBD, IRQ_COM1, IRQ_SPURIOUS.
  repeat match goal with |- context [tf_trapno tf =? ?c] => rewrite (proj2 (Z.eqb_neq (tf_trapno tf) c)) by lia end. cbn [orb].
  rewrite (bind_ok _ _ _ _ _ He). unfold trap_end, exit_killed. unfold bind at 1, gets. simpl. rewrite Hc, (bind_ok _ _ _ _ _ (getp_ok _ _ _ Hp)), Hk. cbn [andb].
  unfold bind at 1, gets. simpl. rewrite Hc. rewrite (bind_ok _ _ s (bool_decide (p_state p = RUNNING) && false) s); [by rewrite andb_false_r|].
  rewrite (bind_ok _ _ _ _ _ (getp_ok _ _ _ Hp)). unfold T_IRQ0, IRQ_TIMER. rewrite (proj2 (Z.eqb_neq _ _)) by lia. done.
Qed.
End trap.
End Trap.

(** ** Examples *)

Module TrapExamples.
Import PagingExamples.

(** A process of two pages, the second one on disk. *)
Definition ex_pgdir : Z := 0x80400000.
Definition ex_mem : memory :=
  store32 (store32 (store32 ∅ ex_pgdir 0x401007) 0x80401000 0x402007) 0x80401004 (Z.lor PTE_PG (Z.lor PTE_W PTE_U)).
Definition ex_proc : proc := proc0 <| p_sz := 0x2000 |> <| p_pgdir := ex_pgdir |> <| p_state := RUNNING |> <| p_pid := 1 |>.
Definition ex_kst : kst ifs :=
  (kst0 (Ifs 0 ∅ ∅)) <| k_mem := ex_mem |> <| k_cur := Some 0%nat |> <| k_procs ::= <[0%nat := ex_proc]> |>.
Definition ex_tf (n esp : Z) : trapframe := zero_trapframe <| tf_trapno := n |> <| tf_cs := 0x1b |> <| tf_eax := SYS_kill |> <| tf_esp := esp |>.
Definition ex_trap (tf : trapframe) : M (kst ifs) trap_next :=
  Trap.trap SCFIFO false 0x80100000 0x80108000 0 0 0x80110000 200 0x80120000 (λ _, None) skip skip skip tf.

Lemma syscall_args_checked_witness :
  Trap.fetchint SCFIFO 0x80100000 0x100 ex_kst = Ok (Some 0) ex_kst ∧ Trap.fetchint SCFIFO 0x80100000 0x1ffd ex_kst = Ok None ex_kst ∧
  (∀ n size v s', size < 2 ^ 31 → Trap.argptr SCFIFO 0x80100000 n size ex_kst = Ok (Some v) s' → s' = ex_kst ∧ 0 ≤ v ∧ 0 ≤ size ∧ v + size ≤ 0x2000).
Proof.
  pose proof (Trap.syscall_args_checked SCFIFO 0x80100000 0 ex_proc ex_kst ltac:(done) ltac:(done) ltac:(done) ltac:(by vm_compute)) as (H1 & H2 & _).
  split; [rewrite H1; [by vm_compute|lia]|]. split; [rewrite H1; [by vm_compute|lia]|exact H2].
Defined.

Lemma paged_out_argument_panics_witness : ex_trap (ex_tf T_SYSCALL 0x1800) ex_kst = Panic "trap".
Proof.
  apply (Trap.paged_out_argument_panics SCFIFO false 0x80100000 0x80108000 0 0 0x80110000 200 0x80120000 (λ _, None) skip skip skip 0 ex_proc); first [by vm_compute|by apply elem_of_cons; left].
Defined.

Lemma exception_retries_witness : ex_trap (ex_tf 0 0x1800) ex_kst = Ok TrapRet ex_kst.
Proof.
  apply (Trap.exception_retries SCFIFO false 0x80100000 0x80108000 0 0 0x80110000 200 0x80120000 (λ _, None) skip skip skip 0 ex_proc); by vm_compute.
Defined.
End TrapExamples.
