(* ===== verification/Sbrk.v ===== *)
(** What a program gets from [sbrk].

    [Umalloc] models the allocator of user programs over the answers of the
    kernel to [sbrk], and [Uheap] assumes of them what [alloc_law] says.  Here
    that is shown of the kernel: a trap for [sbrk] that returns to the program
    has done what [Umalloc.sbrk] does, for an [allocuvm] that obeys the law.
    [allocuvm] has a third answer, the old size, when the process has no room
    for another page; it kills the process, and [trap] ends in [exit]. *)

From S2P Require Import Prelude Memory Machine Kalloc Swap Vm Frame Proc Paging Umalloc Uheap Trap.
From stdpp Require Import options.
Import Swap Vm Proc Trap.

Lemma wlp_frame {St A} (R : relation St) (m : M St A) (Q : A → St → Prop) s : pres R m → (∀ a s', R s s' → Q a s') → wlp m Q s.
Proof. intros Hm HQ. eapply wlp_mono; [apply Hm|]. intros a s' H. by apply HQ. Qed.
Lemma wlp_any {St A} (m : M St A) (Q : A → St → Prop) s : (∀ a s', Q a s') → wlp m Q s.
Proof. intros HQ. unfold wlp. by destruct (m s). Qed.

Section sbrk.
Context (SELECTION : policy) (VERBOSE : bool) {F : Type} `{!FileSys F}.
Context (kend kdata forkret_addr trapret_addr ptable_proc sizeof_proc : Z).
Context (ticks_chan : Z).
Context (sysfile : Z → option (M (kst F) sys_next)).
Context (ideintr kbdintr uartintr : M (kst F) unit).
Implicit Types s : kst F.

(** The current process is [pi], as in [s], and may have been killed. *)
Record current (pi : nat) (p : proc) (killed : bool) s' : Prop := {
  cu_cur : k_cur s' = Some pi;
  cu_proc : ∃ p', k_procs s' !! pi = Some p' ∧ image p' = image p ∧ (killed = true → p_killed p' = true);
}.

Lemma current_same pi p b s s' : current pi p b s → same_image s s' → current pi p false s'.
Proof using.
  intros [Hc (q & Hq & Hi & _)] E. unfold same_image, images in E. injection E as E _ _ Ec _. split; [by rewrite Ec|].
  apply (f_equal (λ l, l !! pi)) in E. rewrite !list_lookup_fmap, Hq in E. simpl in E. destruct (k_procs s' !! pi) as [q'|]; [|done].
  exists q'. split_and!; [done|simpl in E; congruence|done].
Qed.

Lemma current_at pi p b s : current pi p b s → k_cur s = Some pi.
Proof using. by intros []. Qed.

Lemma wlp_current pi p b (Q : nat → kst F → Prop) s : current pi p b s → Q pi s → wlp myproc Q s.
Proof using. intros [Hc _] HQ. unfold wlp, myproc, bind, gets. simpl. by rewrite Hc. Qed.

(** What [allocuvm] answers, and when it answers the old size. *)
Definition answer pi p (old new r : Z) s' : Prop :=
  (r = 0 ∧ current pi p false s') ∨ (r = new ∧ new < KERNBASE ∧ current pi p false s') ∨ (r = old ∧ current pi p true s').

(** A step that keeps the images of the processes. *)
Ltac keep_step H :=
  apply wlp_bind; eapply (wlp_frame same_image); [pres_auto|];
  let x := fresh "x" in let s' := fresh "s" in let E := fresh "E" in
  intros x s' E; eapply current_same in E; [|exact H]; clear H; rename E into H.

Lemma alloc_page_answers pi p pgdir old new a s :
  current pi p false s → new < KERNBASE →
  wlp (alloc_page SELECTION kend pgdir old new a)
    (λ r s', match r with None => current pi p false s' | Some r => answer pi p old new r s' end) s.
Proof using.
  intros H Hnew. unfold alloc_page, kmemset. apply wlp_bind, (wlp_current pi p false); [done|]. do 3 keep_step H.
  destruct (_ =? 0); [do 2 keep_step H; apply wlp_ret; by left|]. do 2 keep_step H.
  destruct (_ <? 0); [do 3 keep_step H; apply wlp_ret; by left|]. keep_step H.
  destruct (decide (SELECTION = NONE)); [keep_step H; by apply wlp_ret|]. keep_step H.
  destruct (_ =? -1); [|do 3 keep_step H; apply wlp_panic]. keep_step H.
  destruct (_ =? 0); [|by apply wlp_ret]. keep_step H. destruct H as [Hc (q & Hq & Hi & _)].
  unfold wlp. rewrite (bind_ok _ _ _ _ _ (modp_ok _ _ _ _ Hq)). simpl. right. right. split; [done|]. split; [done|].
  exists (q <| p_killed := true |>). split_and!; [|by rewrite <-Hi|done]. simpl. apply list_lookup_insert_eq. by eapply lookup_lt_Some.
Qed.

Lemma allocuvm_answers pi p pgdir old new s :
  old ≤ new → current pi p false s → wlp (allocuvm SELECTION kend pgdir old new) (λ r s', answer pi p old new r s') s.
Proof using.
  intros Hle Hc. unfold allocuvm. destruct (Z.leb_spec KERNBASE new); [apply wlp_ret; by left|]. destruct (Z.ltb_spec new old); [lia|].
  apply (wlp_loop (λ _, current pi p false)); [done|]. intros a s1 Hc1. destruct (a <? new); [|apply wlp_ret; right; by left].
  apply wlp_bind. eapply wlp_mono; [by apply alloc_page_answers|]. intros [r|] s2 Hc2; by apply wlp_ret.
Qed.

(** The current process is [pi] with what [P] says of it. *)
Definition running (pi : nat) (P : proc → Prop) s' : Prop := k_cur s' = Some pi ∧ ∃ p', k_procs s' !! pi = Some p' ∧ P p'.

Lemma running_modp pi P f s : running pi (λ p, P (f p)) s → wlp (modp pi f) (λ _ s', running pi P s') s.
Proof using.
  intros (Hc & p & Hp & HP). unfold wlp. rewrite (modp_ok _ _ _ _ Hp). split; [done|]. exists (f p). split; [|done].
  simpl. apply list_lookup_insert_eq. by eapply lookup_lt_Some.
Qed.

Lemma running_switchuvm pi P s : running pi P s → wlp (switchuvm (Some pi)) (λ _ s', running pi P s') s.
Proof using.
  intros (Hc & p & Hp & HP). unfold switchuvm, wlp. rewrite (bind_ok _ _ _ _ _ (getp_ok _ _ _ Hp)). destruct (_ =? 0); [done|]. destruct (_ =? 0); [done|].
  unfold lcr3, modify. simpl. split; [done|]. by exists p.
Qed.

(** The answer to [sbrk n] for a heap [h]. *)
Definition grown (n : Z) h (v : Z) (p' : proc) : Prop :=
  ∃ al, alloc_law al ∧ (sbrk al n h).1 = v ∧ p_sz p' = u_brk (sbrk al n h).2.

Definition all0 (old new : Z) : Z := if new <? KERNBASE then new else 0.
Lemma all0_law : alloc_law all0.
Proof using. intros old new Hn. unfold all0. destruct (Z.ltb_spec new KERNBASE); [by right|by left]. Qed.
Lemma fail0_law : alloc_law (λ _ _, 0).
Proof using. by left. Qed.

(** [sz] in [growproc] before it is stored; [None] is [return -1]. *)
Definition new_size (n : Z) (p : proc) : M (kst F) (option Z) :=
  if 0 <? n then sz <- allocuvm SELECTION kend (p_pgdir p) (p_sz p) (u32 (p_sz p + n)) ;; ret (if sz =? 0 then None else Some sz)
  else if n <? 0 then sz <- deallocuvm SELECTION kend (p_pgdir p) (p_sz p) (u32 (p_sz p + n)) ;; ret (if sz =? 0 then None else Some sz)
  else ret (Some (p_sz p)).

Lemma new_size_answers pi p n h s :
  current pi p false s → u_brk h = p_sz p → 0 ≤ p_sz p < KERNBASE → - 2 ^ 31 ≤ n < 2 ^ 31 →
  wlp (new_size n p)
    (λ r s', running pi (λ p', p_killed p' = true ∨
      match r with None => grown n h (-1) p' | Some sz => grown n h (p_sz p) (p' <| p_sz := sz |>) end) s') s.
Proof using.
  intros Hc Hb Hsz Hn. unfold new_size. set (new := u32 (p_sz p + n)). unfold KERNBASE in *.
  assert (∀ b s' (P : proc → Prop), current pi p b s' → (∀ p', p_sz p' = p_sz p → (b = true → p_killed p' = true) → P p') → running pi P s') as Hrun.
  { intros b s' P [Hc' (p' & Hp' & Hi & Hk)] HP. split; [done|]. exists p'. split; [done|]. apply HP; [unfold image in Hi; congruence|done]. }
  destruct (Z.ltb_spec 0 n) as [Hpos|Hpos].
  - assert (new = p_sz p + n) as En by (unfold new; rewrite u32_id; lia).
    apply wlp_bind. eapply wlp_mono; [apply (allocuvm_answers pi p); [lia|done]|]. intros r s' Hr. apply wlp_ret.
    destruct Hr as [[-> Hc']|[(-> & Hlt & Hc')|[-> Hc']]]; (eapply Hrun; [exact Hc'|]); intros p' Hz Hk.
    + right. exists (λ _ _, 0). split; [apply fail0_law|]. unfold sbrk. rewrite Hb. destruct (Z.ltb_spec 0 n); [|lia]. destruct (Z.eqb_spec n 0); [lia|]. simpl. by rewrite Hb.
    + right. destruct (Z.eqb_spec new 0); [lia|]. exists all0. split; [apply all0_law|]. unfold sbrk. rewrite Hb. destruct (Z.ltb_spec 0 n); [|lia].
      fold new. unfold all0. rewrite (proj2 (Z.ltb_lt _ _) Hlt). destruct (Z.eqb_spec new 0); [lia|]. by rewrite andb_false_r.
    + left. by apply Hk.
  - destruct (Z.ltb_spec n 0) as [Hneg|Hneg].
    + apply wlp_bind. eapply wlp_mono.
      { apply (wlp_mono _ (λ r s', r = (if p_sz p <=? new then p_sz p else new) ∧ same_image s s')); [|intros r s' H; exact H].
        unfold deallocuvm. destruct (p_sz p <=? new); [by apply wlp_ret|]. apply wlp_bind. eapply (wlp_frame same_image); [unfold dealloc_loop, dealloc_page, forget_page, my_pgdir; pres_auto|].
        intros _ s' E. by apply wlp_ret. }
      intros r s' [-> E]. apply wlp_ret. eapply Hrun; [by eapply current_same|]. intros p' Hz _. right.
      set (r := if p_sz p <=? new then p_sz p else new).
      assert (∀ al, sbrk al n h = if r =? 0 then (-1, h) else (p_sz p, h <| u_brk := r |>)) as Es.
      { intros al. unfold sbrk. rewrite Hb. destruct (Z.ltb_spec 0 n); [lia|]. destruct (Z.ltb_spec n 0); [|lia]. destruct (Z.eqb_spec n 0); [lia|]. done. }
      destruct (r =? 0); exists all0; (split; [apply all0_law|]); rewrite Es; [|done]. simpl. by rewrite Hb.
    + apply wlp_ret. eapply Hrun; [exact Hc|]. intros p' Hz _. right. exists all0. split; [apply all0_law|]. assert (n = 0) as -> by lia. unfold sbrk. simpl. by rewrite Hb.
Qed.

Lemma growproc_answers pi p n h s :
  current pi p false s → u_brk h = p_sz p → 0 ≤ p_sz p < KERNBASE → - 2 ^ 31 ≤ n < 2 ^ 31 →
  wlp (growproc SELECTION kend n)
    (λ r s', running pi (λ p', p_killed p' = true ∨ grown n h (if r <? 0 then -1 else p_sz p) p') s') s.
Proof using.
  intros Hc Hb Hsz Hn. pose proof (new_size_answers pi p n h s Hc Hb Hsz Hn) as Hr. unfold growproc. apply wlp_bind, (wlp_current pi p false); [done|].
  apply wlp_bind. destruct Hc as [Hcur (q & Hq & Hi & _)]. assert (p_sz q = p_sz p ∧ p_pgdir q = p_pgdir p) as [Ez Ed] by (unfold image in Hi; split; congruence).
  unfold wlp at 1. rewrite (getp_ok _ _ _ Hq), Ez, Ed.
  apply wlp_bind. eapply wlp_mono; [exact Hr|]. intros [sz|] s1 H1; [|by apply wlp_ret].
  apply wlp_bind. eapply wlp_mono; [apply (running_modp pi (λ p', p_killed p' = true ∨ grown n h (p_sz p) p')); exact H1|]. intros u2 s2 H2.
  apply wlp_bind. eapply wlp_mono; [apply running_switchuvm; exact H2|]. intros u3 s3 H3. by apply wlp_ret.
Qed.

Lemma argint_present pi p n w s :
  k_cur s = Some pi → k_procs s !! pi = Some p → 0 ≤ p_sz p < KERNBASE →
  let a := tf_esp (p_tf p) + 4 + 4 * n in
  0 ≤ a → a + 4 ≤ p_sz p → vword (k_mem s) (p_pgdir p) a = Some w → argint SELECTION kend n s = Ok (Some (s32 w)) s.
Proof using.
  intros Hc Hp Hsz a Ha Hin Hw. unfold KERNBASE in *. rewrite (argint_spec _ _ pi p) by done. fold a. rewrite u32_id by lia.
  unfold fetchint. rewrite (bind_ok _ _ _ _ _ (my_sz_ok _ _ _ Hc Hp)). rewrite u32_id by lia.
  destruct (Z.leb_spec (p_sz p) a); [lia|]. destruct (Z.ltb_spec (p_sz p) (a + 4)); [lia|]. cbn [orb].
  rewrite (bind_ok _ _ _ _ _ (vload32_some _ _ _ _ _ _ _ Hc Hp Hw)). done.
Qed.

(** The end of [trap] for [sbrk]: a process that was killed does not return. *)
Lemma sbrk_end pi n h v s :
  running pi (λ p', p_killed p' = true ∨ grown n h v p') s →
  wlp (syscall_end VERBOSE ptable_proc sizeof_proc (SysRet v))
    (λ r s', r = TrapRet → running pi (λ p', grown n h v p' ∧ tf_eax (p_tf p') = u32 v) s') s.
Proof using.
  intros H. unfold syscall_end, set_eax. assert (∀ A (k : nat → M (kst F) A) s, k_cur s = Some pi → (pi <- myproc ;; k pi) s = k pi s) as Hmy.
  { intros A k s0 Hc0. unfold myproc, bind, gets. simpl. by rewrite Hc0. }
  apply wlp_bind. unfold wlp at 1. rewrite Hmy by apply H. destruct H as (Hc & p & Hp & HP). rewrite (modp_ok _ _ _ _ Hp). set (p1 := p <| p_tf ::= _ |>).
  set (s1 := s <| k_procs ::= <[pi := p1]> |>). assert (k_procs s1 !! pi = Some p1) as Hp1 by (simpl; apply list_lookup_insert_eq; by eapply lookup_lt_Some).
  unfold wlp. rewrite Hmy by done. rewrite (bind_ok _ _ _ _ _ (getp_ok _ _ _ Hp1)). destruct (p_killed p1) eqn:Ek.
  - apply wlp_bind, wlp_any. intros _ s2. by apply wlp_ret.
  - intros _. split; [done|]. exists p1. split; [done|]. split; [|done]. destruct HP as [HP|HP]; [by change (p_killed p) with (p_killed p1) in HP; rewrite Ek in HP|done].
Qed.

Lemma sys_sbrk_answers pi p n h s :
  k_cur s = Some pi → k_procs s !! pi = Some p → 0 ≤ p_sz p < KERNBASE → u_brk h = p_sz p → - 2 ^ 31 ≤ n < 2 ^ 31 →
  argint SELECTION kend 0 s = Ok (Some n) s →
  wlp (sys_sbrk SELECTION kend) (λ r s', ∃ v, r = SysRet v ∧ running pi (λ p', p_killed p' = true ∨ grown n h v p') s') s.
Proof using.
  intros Hc Hp Hsz Hb Hn Harg. unfold sys_sbrk, wlp. rewrite (bind_ok _ _ _ _ _ Harg), (bind_ok _ _ _ _ _ (my_sz_ok _ _ _ Hc Hp)).
  apply wlp_bind. eapply wlp_mono; [apply (growproc_answers pi p n h); [split; [done|by exists p]|done|done|done]|].
  intros r s' Hr. simpl in Hr. destruct (r <? 0); apply wlp_ret; [by exists (-1)|]. exists (p_sz p). split; [|done]. by rewrite s32_id by (unfold KERNBASE in *; lia).
Qed.

(** A trap for [sbrk] that returns to the program has done [Umalloc.sbrk], for
    some [allocuvm] that obeys [alloc_law]: the program's register has the
    result and the size of the process is the new break. *)
Theorem sbrk_answers pi p tf w h s :
  k_cur s = Some pi → k_procs s !! pi = Some p → 0 ≤ p_sz p < KERNBASE → u_brk h = p_sz p →
  tf_trapno tf = T_SYSCALL → tf_eax tf = SYS_sbrk → 0 ≤ tf_esp tf → tf_esp tf + 8 ≤ p_sz p →
  vword (k_mem s) (p_pgdir p) (tf_esp tf + 4) = Some w →
  wlp (trap SELECTION VERBOSE kend kdata forkret_addr trapret_addr ptable_proc sizeof_proc ticks_chan sysfile ideintr kbdintr uartintr tf)
    (λ r s', r = TrapRet → ∃ al, alloc_law al ∧
       running pi (λ p', tf_eax (p_tf p') = u32 (sbrk al (s32 w) h).1 ∧ p_sz p' = u_brk (sbrk al (s32 w) h).2) s') s.
Proof using.
  intros Hc Hp Hsz Hb Ht He Hesp Hin Hw. unfold trap. rewrite Ht. cbn [Z.eqb T_SYSCALL Pos.eqb].
  assert (∀ A (k : nat → M (kst F) A) s, k_cur s = Some pi → (pi <- myproc ;; k pi) s = k pi s) as Hmy.
  { intros A k s0 Hc0. unfold myproc, bind, gets. simpl. by rewrite Hc0. }
  unfold wlp. rewrite Hmy, (bind_ok _ _ _ _ _ (getp_ok _ _ _ Hp)) by done. destruct (p_killed p); [apply wlp_bind, wlp_any; intros _ s2; by apply wlp_ret|].
  rewrite (bind_ok _ _ _ _ _ (modp_ok _ _ _ _ Hp)). set (p1 := p <| p_tf := tf |>). set (s1 := s <| k_procs ::= <[pi := p1]> |>).
  assert (k_procs s1 !! pi = Some p1) as Hp1 by (simpl; apply list_lookup_insert_eq; by eapply lookup_lt_Some).
  assert (argint SELECTION kend 0 s1 = Ok (Some (s32 w)) s1) as Harg.
  { apply (argint_present pi p1); [done|done|done|simpl; lia|simpl; lia|]. simpl. by replace (tf_esp tf + 4 + 4 * 0) with (tf_esp tf + 4) by lia. }
  apply wlp_bind. unfold syscall. unfold wlp at 1. rewrite Hmy by done. rewrite (bind_ok _ _ _ _ _ (getp_ok _ _ _ Hp1)). simpl. rewrite He. change (s32 SYS_sbrk) with 12. simpl.
  eapply wlp_mono; [apply (sys_sbrk_answers pi p1 (s32 w) h); [done|done|done|done|apply s32_range|done]|].
  intros _ s2 (v & -> & H2). eapply wlp_mono; [by apply sbrk_end|]. intros r s3 H3 Hr. destruct (H3 Hr) as (Hc3 & p3 & Hp3 & (al & Hal & <- & Hz) & Hx).
  exists al. split; [done|]. split; [done|]. by exists p3.
Qed.
End sbrk.

(** ** Examples *)

(** The process of [TrapExamples] asks for 256 bytes more, of its last page:
    the word at the top of its stack is in its first page. *)
Module SbrkExamples.
Import PagingExamples TrapExamples.
Definition ex_sbrk : trapframe := (ex_tf T_SYSCALL 0x800) <| tf_eax := SYS_sbrk |>.
Definition ex_small : kst ifs :=
  ex_kst <| k_mem ::= λ m, store32 m (P2V 0x402804) 256 |> <| k_procs ::= <[0%nat := ex_proc <| p_sz := 0x1800 |> <| p_kstack := 0x80700000 |>]> |>.

Lemma ex_sbrk_grows :
  match ex_trap ex_sbrk ex_small with
  | Ok TrapRet s' => p_sz <$> k_procs s' !! 0%nat = Some 0x1900 ∧ (λ p, tf_eax (p_tf p)) <$> k_procs s' !! 0%nat = Some 0x1800
  | _ => False
  end.
Proof. by vm_compute. Qed.
End SbrkExamples.
