(* ===== verification/Exec.v ===== *)
(** Loading programs: [src/exec.c] and the formats of [src/elf.h].

    [path] and the entries of [argv] are addresses of strings of the calling
    process; they are read through its page table, which is the current one
    until the new image is committed.  [bad:] is the result [None] of the parts
    of [exec]. *)

From S2P Require Import Prelude Memory Machine Kalloc Swap Vm Proc Frame Sched Disk Fs Trap.
From stdpp Require Import options.
Import Swap Vm Proc Trap.

(** ** ELF files *)

Definition ELF_MAGIC := 0x464C457F.
Definition ELF_PROG_LOAD := 1.
Definition sizeof_elfhdr := 52.
Definition sizeof_proghdr := 32.

Record elfhdr := Elfhdr { elf_magic : Z; elf_entry : Z; elf_phoff : Z; elf_phnum : Z }.
Definition get_elfhdr (d : list Z) : elfhdr := Elfhdr (rd32 d 0) (rd32 d 24) (rd32 d 28) (rd16 d 44).

Record proghdr := Proghdr { ph_type : Z; ph_off : Z; ph_vaddr : Z; ph_filesz : Z; ph_memsz : Z }.
Definition get_proghdr (d : list Z) : proghdr := Proghdr (rd32 d 0) (rd32 d 4) (rd32 d 8) (rd32 d 16) (rd32 d 20).

(** [uint ustack[]] as bytes. *)
Definition le32 (v : Z) : list Z := [u8 v; u8 (v / 2 ^ 8); u8 (v / 2 ^ 16); u8 (v / 2 ^ 24)].

Module Exec.
Section exec.
Context (SELECTION : policy) {F : Type} `{!FileSys F}.
Context (kend kdata : Z).
Implicit Types s : kst F.

(** The string at an address of the process.  [fetchstr] has found its end
    below the size of the process. *)
Fixpoint vstr_from (fuel : nat) (va : Z) : M (kst F) (list Z) :=
  match fuel with
  | O => nofuel
  | S fuel =>
      c <- vload8 SELECTION kend va ;;
      if c =? 0 then ret [] else l <- vstr_from fuel (va + 1) ;; ret (c :: l)
  end.
Definition vstr (va : Z) : M (kst F) (list Z) := sz <- my_sz ;; vstr_from (Z.to_nat (sz - va)) va.

(** One turn of the loop over the program headers. *)
Definition load_segment (ip pgdir off sz : Z) : M (kst F) (option Z) :=
  r <- fs_call (fs_readi ip off sizeof_proghdr) ;;
  if negb (r.1 =? sizeof_proghdr) then ret None else
  let ph := get_proghdr r.2 in
  if negb (ph_type ph =? ELF_PROG_LOAD) then ret (Some sz) else
  if ph_memsz ph <? ph_filesz ph then ret None else
  if u32 (ph_vaddr ph + ph_memsz ph) <? ph_vaddr ph then ret None else
  sz <- allocuvm SELECTION kend pgdir sz (u32 (ph_vaddr ph + ph_memsz ph)) ;;
  if sz =? 0 then ret None else
  if negb (ph_vaddr ph mod PGSIZE =? 0) then ret None else
  r <- loaduvm pgdir (ph_vaddr ph) ip (ph_off ph) (ph_filesz ph) ;;
  if r <? 0 then ret None else ret (Some sz).

Fixpoint load_segments (n : nat) (ip pgdir off sz : Z) : M (kst F) (option Z) :=
  match n with
  | O => ret (Some sz)
  | S n =>
      r <- load_segment ip pgdir off sz ;;
      match r with
      | None => ret None
      | Some sz => load_segments n ip pgdir (u32 (off + sizeof_proghdr)) sz
      end
  end.

(** The loop that pushes the argument strings, with [argc] done: the stack
    pointer and the addresses of the copies. *)
Fixpoint push_args (pgdir argc sp : Z) (argv : list Z) : M (kst F) (option (Z * list Z)) :=
  match argv with
  | [] => ret (Some (sp, []))
  | a :: argv =>
      if MAXARG <=? argc then ret None else
      str <- vstr a ;;
      let sp := Z.land (u32 (sp - (Z.of_nat (length str) + 1))) (u32 (Z.lnot 3)) in
      r <- copyout pgdir sp (str ++ [0]) ;;
      if r <? 0 then ret None else
      r <- push_args pgdir (argc + 1) sp argv ;;
      match r with
      | None => ret None
      | Some (sp', ptrs) => ret (Some (sp', sp :: ptrs))
      end
  end.

(** [ustack]: a return address, [argc], [argv] and the array it points to. *)
Definition ustack (sp : Z) (ptrs : list Z) : list Z :=
  let argc := Z.of_nat (length ptrs) in
  [0xffffffff; argc; u32 (sp - (argc + 1) * 4)] ++ ptrs ++ [0].

Definition setup_stack (pgdir sz : Z) (argv : list Z) : M (kst F) (option Z) :=
  r <- push_args pgdir 0 sz argv ;;
  match r with
  | None => ret None
  | Some (sp, ptrs) =>
      let sp' := u32 (sp - (3 + Z.of_nat (length ptrs) + 1) * 4) in
      r <- copyout pgdir sp' (concat (le32 <$> ustack sp ptrs)) ;;
      if r <? 0 then ret None else ret (Some sp')
  end.

(** [for(last=s=path; *s; s++) if( *s == '/') last = s+1;] *)
Fixpoint last_elem (last path : list Z) : list Z :=
  match path with
  | [] => last
  | c :: path => last_elem (if c =? slash then path else last) path
  end.

(** The stack of the new image: two pages, the first inaccessible. *)
Definition exec_stack (pgdir sz : Z) (argv : list Z) : M (kst F) (option (Z * Z)) :=
  let sz := PGROUNDUP sz in
  sz <- allocuvm SELECTION kend pgdir sz (u32 (sz + 2 * PGSIZE)) ;;
  if sz =? 0 then ret None else
  clearpteu pgdir (u32 (sz - 2 * PGSIZE)) ;;
  r <- setup_stack pgdir sz argv ;;
  ret match r with None => None | Some sp => Some (sz, sp) end.

(** The paging metadata and the swap file of the new program. *)
Definition exec_swap (cur : nat) (path : Z) : M (kst F) unit :=
  on_proc cur (init_page_meta SELECTION) ;;
  p <- getp cur ;;
  match p_swapFile p with
  | Some _ => removeSwapFile cur ;; skip
  | None => skip
  end ;;
  str <- vstr path ;;
  let ignorePaging := bool_decide (SELECTION = NONE) || (lstrncmp 3 str (bytes_of "sh") =? 0) in
  (if ignorePaging then skip else
     f <- fs_call (fs_createSwapFile (p_pid p)) ;;
     modp cur (λ p, p <| p_swapFile := Some f |>)) ;;
  modp cur (λ p, p <| p_ignorePaging := ignorePaging |>).

(** "Commit to the user image." *)
Definition exec_commit (cur : nat) (path pgdir sz sp entry : Z) : M (kst F) Z :=
  str <- vstr path ;;
  modp cur (λ p, p <| p_name ::= λ n, name_copy 16 n (last_elem str str) |>) ;;
  p <- getp cur ;;
  let oldpgdir := p_pgdir p in
  modp cur (λ p, p <| p_pgdir := pgdir |> <| p_sz := sz |>
                   <| p_tf ::= λ tf, tf <| tf_eip := entry |> <| tf_esp := sp |> |>) ;;
  switchuvm (Some cur) ;;
  freevm SELECTION kend oldpgdir ;;
  ret 0.

(** [bad:], with [ip] still held or not. *)
Definition exec_bad (pgdir : Z) (ip : option Z) : M (kst F) Z :=
  (if pgdir =? 0 then skip else freevm SELECTION kend pgdir) ;;
  match ip with
  | Some ip => fs_call (fs_iunlockput ip) ;; fs_call fs_end_op
  | None => skip
  end ;;
  ret (-1).

Definition exec (path : Z) (argv : list Z) : M (kst F) Z :=
  cur <- myproc ;;
  fs_call fs_begin_op ;;
  p <- getp cur ;;
  str <- vstr path ;;
  r <- fs_call (fs_namei (p_cwd p) str) ;;
  match r with
  | None =>
      fs_call fs_end_op ;;
      cprintf "exec: fail\n" [] ;;
      ret (-1)
  | Some ip =>
      fs_call (fs_ilock ip) ;;
      r <- fs_call (fs_readi ip 0 sizeof_elfhdr) ;;
      if negb (r.1 =? sizeof_elfhdr) then exec_bad 0 (Some ip) else
      let elf := get_elfhdr r.2 in
      if negb (elf_magic elf =? ELF_MAGIC) then exec_bad 0 (Some ip) else
      pgdir <- setupkvm SELECTION kend kdata ;;
      if pgdir =? 0 then exec_bad 0 (Some ip) else
      exec_swap cur path ;;
      r <- load_segments (Z.to_nat (elf_phnum elf)) ip pgdir (elf_phoff elf) 0 ;;
      match r with
      | None => exec_bad pgdir (Some ip)
      | Some sz =>
          fs_call (fs_iunlockput ip) ;;
          fs_call fs_end_op ;;
          r <- exec_stack pgdir sz argv ;;
          match r with
          | None => exec_bad pgdir None
          | Some (sz, sp) => exec_commit cur path pgdir sz sp (elf_entry elf)
          end
      end
  end.

(** ** All or nothing *)

(** The program of a process: all but its paging metadata, its swap file and
    whether it was killed. *)
Definition program (p : proc) :=
  (p_sz p, p_pgdir p, p_kstack p, p_state p, p_pid p, p_parent p, p_chan p, p_tf p, p_context p, p_ofile p, p_cwd p, p_name p).
Definition programs s := (program <$> k_procs s, k_nextpid s, k_initproc s, k_cur s, k_ptable_lock s).
Definition same_programs s s' : Prop := programs s' = programs s.
#[local] Instance same_programs_pre : PreOrder same_programs.
Proof using. split; [done|]. unfold same_programs. intros x y z. congruence. Qed.

Lemma pres_image_programs {A} (m : M (kst F) A) : pres same_image m → pres same_programs m.
Proof using.
  intros Hm s. eapply wlp_mono; [apply Hm|]. intros a s'. unfold same_image, images, same_programs, programs. intros [= H -> -> -> ->].
  by rewrite (image_view program _ _ ltac:(unfold image, program; congruence) H).
Qed.
Lemma pres_modp_programs i f : (∀ p, program (f p) = program p) → pres same_programs (modp i f).
Proof using.
  intros Hf s. apply wlp_modp. intros p Hp. unfold same_programs, programs. simpl. rewrite list_fmap_insert, Hf, list_insert_id; [done|].
  by rewrite list_lookup_fmap, Hp.
Qed.
Lemma pres_modify_programs (f : kst F → kst F) : (∀ s, programs (f s) = programs s) → pres same_programs (modify f).
Proof using. intros Hf. by apply pres_modify; [apply _|]. Qed.
#[local] Hint Extern 2 (pres same_programs _) => apply pres_image_programs; solve [auto 2 with pres nocore] : pres.
#[local] Hint Extern 3 (pres same_programs (modp _ _)) => apply pres_modp_programs; reflexivity : pres.
#[local] Hint Extern 3 (pres same_programs (modify _)) => apply pres_modify_programs; reflexivity : pres.

Lemma pres_vload8 va : pres same_programs (vload8 SELECTION kend va).
Proof using.
  unfold vload8, my_pgdir. assert (pres same_programs (kernel_fault SELECTION kend va)); [|pres_auto].
  eapply pres_ext; [apply kernel_fault_eq|]. unfold trap_unexpected, printQueue. pres_auto.
Qed.
#[local] Hint Resolve pres_vload8 : pres.
Lemma pres_vstr va : pres same_programs (vstr va).
Proof using.
  assert (∀ n va, pres same_programs (vstr_from n va)) as H.
  { intros n. induction n as [|n IH]; intros va'; simpl; [by intros ?|]. pres_auto. }
  unfold vstr, my_sz. pres_auto.
Qed.
Lemma pres_walk pgdir va al : pres same_programs (walkpgdir pgdir va al).
Proof using. apply pres_image_programs. auto with pres. Qed.
#[local] Hint Resolve pres_vstr pres_walk : pres.
Lemma pres_load_segments n ip pgdir off sz : pres same_programs (load_segments n ip pgdir off sz).
Proof using.
  revert off sz. induction n as [|n IH]; intros off sz; simpl; pres_auto. unfold load_segment, loaduvm. pres_auto.
Qed.
Lemma pres_copyout pgdir va l : pres same_programs (copyout pgdir va l).
Proof using. unfold copyout, uva2ka. pres_auto. Qed.
#[local] Hint Resolve pres_load_segments pres_copyout : pres.
Lemma pres_push_args pgdir argc sp argv : pres same_programs (push_args pgdir argc sp argv).
Proof using. revert argc sp. induction argv as [|a argv IH]; intros argc sp; simpl; pres_auto. Qed.
#[local] Hint Resolve pres_push_args : pres.
Lemma pres_exec_stack pgdir sz argv : pres same_programs (exec_stack pgdir sz argv).
Proof using. unfold exec_stack, clearpteu, setup_stack. pres_auto. Qed.
Lemma pres_exec_swap cur path : pres same_programs (exec_swap cur path).
Proof using. unfold exec_swap, removeSwapFile. pres_auto. Qed.
#[local] Hint Resolve pres_exec_stack pres_exec_swap : pres.

(** A statement of [exec] before the commit. *)
Lemma wlp_keep {A} s0 s (m : M (kst F) A) (Q : A → kst F → Prop) :
  pres same_programs m → same_programs s0 s → (∀ a s', same_programs s0 s' → Q a s') → wlp m Q s.
Proof using. intros Hm H0 HQ. eapply wlp_mono; [apply Hm|]. intros a s' H. apply HQ. by etrans. Qed.

Lemma exec_bad_keeps s0 s pgdir ip : same_programs s0 s → wlp (exec_bad pgdir ip) (λ r s', r = -1 ∧ same_programs s0 s') s.
Proof using.
  intros H. unfold exec_bad. apply wlp_bind, (wlp_keep s0); [by pres_auto|done|]. intros _ s1 H1.
  apply wlp_bind, (wlp_keep s0); [by pres_auto|done|]. intros _ s2 H2. by apply wlp_ret.
Qed.

(** The process after [exec]. *)
Definition loaded (p : proc) (name : list Z) (pgdir sz sp entry : Z) : proc :=
  p <| p_name := name |> <| p_pgdir := pgdir |> <| p_sz := sz |> <| p_tf ::= λ tf, tf <| tf_eip := entry |> <| tf_esp := sp |> |>.

Lemma programs_lookup s0 s i p :
  same_programs s0 s → k_procs s !! i = Some p → ∃ p0, k_procs s0 !! i = Some p0 ∧ program p = program p0.
Proof using.
  unfold same_programs, programs. intros [= H _ _ _ _] Hp. apply (f_equal (.!! i)) in H. rewrite !list_lookup_fmap, Hp in H.
  destruct (k_procs s0 !! i) as [p0|]; [|done]. exists p0. simpl in H. split; [done|congruence].
Qed.

Definition committed s0 (cur : nat) s' : Prop := ∃ p name pgdir sz sp entry,
  k_procs s0 !! cur = Some p ∧
  programs s' = (<[cur := program (loaded p name pgdir sz sp entry)]> (program <$> k_procs s0), k_nextpid s0, k_initproc s0, k_cur s0, k_ptable_lock s0).

Lemma exec_commit_spec s0 s cur path pgdir sz sp entry :
  same_programs s0 s → wlp (exec_commit cur path pgdir sz sp entry) (λ r s', r = 0 ∧ committed s0 cur s') s.
Proof using.
  intros H. unfold exec_commit. apply wlp_bind, (wlp_keep s0); [by pres_auto|done|]. intros str s1 H1.
  apply wlp_bind, wlp_modp. intros p1 Hp1. apply wlp_bind, wlp_getp. intros p2 Hp2. apply wlp_bind, wlp_modp. intros p3 Hp3.
  destruct (programs_lookup s0 s1 cur p1 H1 Hp1) as (p0 & Hp0 & E0).
  simpl in Hp2, Hp3. rewrite list_lookup_insert_eq in Hp2, Hp3 by (by eapply lookup_lt_Some). injection Hp2 as <-. injection Hp3 as <-.
  match goal with |- wlp _ _ ?t => assert (programs t = (<[cur := program (loaded p0 (name_copy 16 (p_name p1) (last_elem str str)) pgdir sz sp entry)]> (program <$> k_procs s0),
    k_nextpid s0, k_initproc s0, k_cur s0, k_ptable_lock s0)) as Ht end.
  { unfold same_programs, programs in *. injection H1 as H1 E1 E2 E3 E4. simpl. rewrite list_insert_insert_eq, list_fmap_insert, H1, E1, E2, E3, E4.
    do 5 f_equal. unfold program, loaded in *. simpl. congruence. }
  revert Ht. generalize (name_copy 16 (p_name p1) (last_elem str str)). intros name. match goal with |- _ → wlp _ _ ?t => generalize t end. intros s2 H2.
  apply wlp_bind, (wlp_keep s2); [by pres_auto|done|]. intros _ s3 H3. apply wlp_bind, (wlp_keep s2); [by pres_auto|done|]. intros _ s4 H4.
  apply wlp_ret. split; [done|]. exists p0, name, pgdir, sz, sp, entry. split; [done|]. by rewrite <-H2.
Qed.

(** C16: [exec] replaces the program or leaves it alone. If it returns -1, the
    size, page table, registers, name, open files and directory of every
    process are as before, wherever the load failed; otherwise it returns 0
    and exactly the current process has a new page table, size and name, and
    new values of the instruction and stack pointers. The
    paging metadata and the swap file are not part of it: they are replaced as
    soon as the header is read. *)
Theorem exec_all_or_nothing path argv s cur :
  k_cur s = Some cur →
  wlp (exec path argv) (λ r s', (r = -1 ∧ programs s' = programs s) ∨ (r = 0 ∧ committed s cur s')) s.
Proof using.
  intros Hc. unfold exec. apply wlp_bind, wlp_myproc. intros c Hc'. rewrite Hc in Hc'. injection Hc' as <-. pose proof (reflexivity s : same_programs s s) as H0.
  assert (∀ s1 pgdir ip, same_programs s s1 → wlp (exec_bad pgdir ip) (λ r s', (r = -1 ∧ programs s' = programs s) ∨ (r = 0 ∧ committed s cur s')) s1) as Hbad.
  { intros s1 pgdir ip H1. eapply wlp_mono; [by apply exec_bad_keeps|]. by left. }
  do 4 (apply wlp_bind, (wlp_keep s); [by pres_auto|done|]; clear H0; intros ? ? H0). case_match.
  - do 2 (apply wlp_bind, (wlp_keep s); [by pres_auto|done|]; clear H0; intros ? ? H0). case_match; [by apply Hbad|]. case_match; [by apply Hbad|].
    apply wlp_bind, (wlp_keep s); [by pres_auto|done|]; clear H0; intros pgdir ? H0. case_match; [by apply Hbad|].
    do 2 (apply wlp_bind, (wlp_keep s); [by pres_auto|done|]; clear H0; intros ? ? H0). case_match; [|by apply Hbad].
    do 3 (apply wlp_bind, (wlp_keep s); [by pres_auto|done|]; clear H0; intros ? ? H0). case_match; [|by apply Hbad]. case_match.
    eapply wlp_mono; [by apply exec_commit_spec|]. by right.
  - do 2 (apply wlp_bind, (wlp_keep s); [by pres_auto|done|]; clear H0; intros ? ? H0). apply wlp_ret. by left.
Qed.
End exec.
End Exec.
