(* ===== verification/ExecStack.v ===== *)
(** The stack that [exec] gives to a program.

    The arguments of the new program are copied from the memory of the old one,
    through two page tables, into the frame [fr] of the page below [top].  The
    frame is fresh: neither page table and none of the strings is in it. *)

From S2P Require Import Prelude Memory Machine Kalloc Swap Vm Proc Paging Trap Exec.
From stdpp Require Import options.
Import Vm Trap Exec.

(** ** Memory behind page tables *)

(** [n] bytes at [a] that are not in the frame [fr]. *)
Definition away (fr a n : Z) : Prop := a + n ≤ fr ∨ fr + PGSIZE ≤ a.
(** Memories that differ in the frame [fr] only. *)
Definition same_but (fr : Z) (m m' : memory) : Prop := ∀ a, away fr a 1 → load8 m' a = load8 m a.

(** Where the processor finds the entries and the byte of [va]. *)
Definition pde_at (pgdir va : Z) : Z := pgdir + 4 * PDX va.
Definition pte_at (m : memory) (pgdir va : Z) : Z := P2V (PTE_ADDR (load32 m (pde_at pgdir va))) + 4 * PTX va.
Definition byte_at (m : memory) (pgdir va : Z) : Z := P2V (PTE_ADDR (load32 m (pte_at m pgdir va))) + Z.land va 0xFFF.
Definition outside (fr : Z) (m : memory) (pgdir va : Z) : Prop :=
  away fr (pde_at pgdir va) 4 ∧ away fr (pte_at m pgdir va) 4 ∧ away fr (byte_at m pgdir va) 1.

Lemma same_but_refl fr m : same_but fr m m.
Proof. done. Qed.
Lemma same_but_trans fr m1 m2 m3 : same_but fr m1 m2 → same_but fr m2 m3 → same_but fr m1 m3.
Proof. intros H1 H2 a Ha. by rewrite H2, H1. Qed.
Lemma same_but_load32 fr m m' a : same_but fr m m' → away fr a 4 → load32 m' a = load32 m a.
Proof. intros H Ha. apply load32_ext. intros i Hi. apply H. unfold away in *. lia. Qed.
Lemma same_but_pte fr m m' pgdir va : same_but fr m m' → away fr (pde_at pgdir va) 4 → pte_at m' pgdir va = pte_at m pgdir va.
Proof. intros H Ha. unfold pte_at. by rewrite (same_but_load32 fr m m'). Qed.
Lemma same_but_vbyte fr m m' pgdir va : same_but fr m m' → outside fr m pgdir va → vbyte m' pgdir va = vbyte m pgdir va.
Proof.
  intros H (O1 & O2 & O3). unfold vbyte. fold (pde_at pgdir va). rewrite (same_but_load32 fr m m' _ H O1).
  fold (pte_at m pgdir va). rewrite (same_but_load32 fr m m' _ H O2). fold (byte_at m pgdir va). by rewrite (H _ O3).
Qed.
Lemma same_but_outside fr m m' pgdir va : same_but fr m m' → outside fr m pgdir va → outside fr m' pgdir va.
Proof.
  intros H (O1 & O2 & O3). pose proof (same_but_pte fr m m' pgdir va H O1) as E. split; [done|]. unfold byte_at in *. rewrite E.
  by rewrite (same_but_load32 fr m m' _ H O2).
Qed.

(** The string [str] of a process, with its zero. *)
Record user_str (fr : Z) (m : memory) (pgdir a : Z) (str : list Z) : Prop := {
  us_chars : Forall (λ c, c ≠ 0) str;
  us_bytes (i : nat) c : (str ++ [0]) !! i = Some c → vbyte m pgdir (a + Z.of_nat i) = Some c ∧ outside fr m pgdir (a + Z.of_nat i);
}.

Lemma user_str_same fr m m' pgdir a str : same_but fr m m' → user_str fr m pgdir a str → user_str fr m' pgdir a str.
Proof.
  intros H [U1 U2]. split; [done|]. intros i c Hc. destruct (U2 i c Hc) as [E O].
  by rewrite (same_but_vbyte fr m m') by done; split; [|eapply same_but_outside].
Qed.
Lemma user_str_tail fr m pgdir a c str : user_str fr m pgdir a (c :: str) → user_str fr m pgdir (a + 1) str.
Proof.
  intros [U1 U2]. split; [by inversion U1|]. intros i x Hx. replace (a + 1 + Z.of_nat i) with (a + Z.of_nat (S i)) by lia. by apply U2.
Qed.

(** The page below [top], in the frame [fr]. *)
Record stack_page (m : memory) (pgdir top fr : Z) : Prop := {
  sp_top : top mod PGSIZE = 0 ∧ PGSIZE ≤ top ≤ KERNBASE;
  sp_pde : pte_has (load32 m (pde_at pgdir (top - PGSIZE))) PTE_P = true;
  sp_pte : pte_has (load32 m (pte_at m pgdir (top - PGSIZE))) PTE_P = true ∧ pte_has (load32 m (pte_at m pgdir (top - PGSIZE))) PTE_U = true;
  sp_frame : P2V (PTE_ADDR (load32 m (pte_at m pgdir (top - PGSIZE)))) = fr;
  sp_null : pte_at m pgdir (top - PGSIZE) ≠ 0 ∧ fr ≠ 0;
  sp_away : away fr (pde_at pgdir (top - PGSIZE)) 4 ∧ away fr (pte_at m pgdir (top - PGSIZE)) 4;
}.

Lemma stack_page_same m m' pgdir top fr : same_but fr m m' → stack_page m pgdir top fr → stack_page m' pgdir top fr.
Proof.
  intros H [S1 S2 S3 S4 S5 [S6 S7]]. pose proof (same_but_pte fr m m' _ _ H S6) as E.
  split; rewrite ?E, ?(same_but_load32 fr m m' _ H S6), ?(same_but_load32 fr m m' _ H S7); done.
Qed.

Lemma in_page top va : top mod PGSIZE = 0 → PGSIZE ≤ top ≤ KERNBASE → top - PGSIZE ≤ va < top →
  PGROUNDDOWN va = top - PGSIZE ∧ Z.land va 0xFFF = va - (top - PGSIZE) ∧ PDX va = PDX (top - PGSIZE) ∧ PTX va = PTX (top - PGSIZE).
Proof.
  intros Hm Ht Hv. unfold PGSIZE, KERNBASE in *. assert (va mod 4096 = va - (top - 4096)) as Hmod.
  { symmetry. apply (Z.mod_unique_pos _ _ (top / 4096 - 1)); [lia|]. pose proof (Z.div_mod top 4096). lia. }
  assert (Z.shiftr va 12 = Z.shiftr (top - 4096) 12) as Hs.
  { rewrite !Z.shiftr_div_pow2 by lia. change (2 ^ 12) with 4096. pose proof (Z.div_mod va 4096 ltac:(lia)).
    apply (Z.div_unique_pos _ _ _ 0); lia. }
  split_and!.
  - rewrite PGROUNDDOWN_eq by lia. unfold PGSIZE. lia.
  - change 0xFFF with (Z.ones 12). rewrite Z.land_ones by lia. change (2 ^ 12) with 4096. lia.
  - unfold PDX, PDXSHIFT. change 22 with (12 + 10). by rewrite <-!Z.shiftr_shiftr, Hs by lia.
  - unfold PTX, PTXSHIFT. by rewrite Hs.
Qed.

(** A byte of the stack is a byte of the frame. *)
Lemma stack_byte m pgdir top fr va : stack_page m pgdir top fr → top - PGSIZE ≤ va < top → vbyte m pgdir va = Some (load8 m (fr + (va - (top - PGSIZE)))).
Proof.
  intros [[S1 S1'] S2 [S3 _] S4 _ _] Hv. destruct (in_page top va S1 S1' Hv) as (_ & E1 & E2 & E3). unfold vbyte. rewrite E1, E2, E3.
  unfold pte_at, pde_at in *. rewrite S2, S3, S4. done.
Qed.

Section stack.
Context (SELECTION : policy) {F : Type} `{!FileSys F} (kend : Z).
Implicit Types s : kst F.

Lemma uva2ka_stack s pgdir top fr : stack_page (k_mem s) pgdir top fr → uva2ka pgdir (top - PGSIZE) s = Ok fr s.
Proof using.
  intros [_ S2 [S3 S3'] S4 [S5 _] _]. unfold uva2ka, walkpgdir, ld32, bind, gets. simpl. fold (pde_at pgdir (top - PGSIZE)). rewrite S2. simpl.
  fold (pte_at (k_mem s) pgdir (top - PGSIZE)). destruct (Z.eqb_spec (pte_at (k_mem s) pgdir (top - PGSIZE)) 0); [done|]. rewrite S3, S3'. simpl. by rewrite S4.
Qed.

(** Copying into the stack page. *)
Lemma copyout_stack s pgdir top fr va buf :
  stack_page (k_mem s) pgdir top fr → top - PGSIZE ≤ va → va + Z.of_nat (length buf) ≤ top → buf ≠ [] →
  copyout pgdir va buf s = Ok 0 (s <| k_mem ::= λ m, store_bytes m (fr + (va - (top - PGSIZE))) buf |>).
Proof using.
  intros Hs Hva Hlen Hne. pose proof (sp_top _ _ _ _ Hs) as [Hm Ht]. assert (0 < Z.of_nat (length buf)) as Hpos by (destruct buf; [done|simpl; lia]).
  destruct (in_page top va Hm Ht ltac:(lia)) as (E1 & _). assert (∃ n, length buf = S n) as [n En] by (exists (pred (length buf)); lia).
  unfold copyout. rewrite En. match goal with |- loop _ ?b _ _ = _ => set (body := b) end.
  assert (∀ v s', body (v, []) s' = Ok (inr 0) s') as B2 by done.
  assert (∃ v, body (va, buf) s = Ok (inl (v, [])) (s <| k_mem ::= λ m, store_bytes m (fr + (va - (top - PGSIZE))) buf |>)) as [v B1].
  { eexists. unfold body, bind. rewrite (proj2 (Z.ltb_lt _ _) Hpos), E1, (uva2ka_stack s pgdir top fr Hs). cbn [obind].
    destruct (Z.eqb_spec fr 0) as [|_]; [by destruct (sp_null _ _ _ _ Hs)|]. set (k := if _ <? _ then _ else _).
    assert (Z.to_nat k = length buf) as -> by (unfold k; destruct (Z.ltb_spec (Z.of_nat (length buf)) (PGSIZE - (va - (top - PGSIZE)))); lia).
    rewrite drop_all, (take_ge buf) by lia. reflexivity. }
  cbn [loop]. rewrite (bind_ok _ _ _ _ _ B1). by rewrite (bind_ok _ _ _ _ _ (B2 v _)).
Qed.

(** Reading an argument. *)
Lemma vstr_from_ok s cur p fr fuel a str :
  k_cur s = Some cur → k_procs s !! cur = Some p → user_str fr (k_mem s) (p_pgdir p) a str → (length str < fuel)%nat →
  vstr_from SELECTION kend fuel a s = Ok str s.
Proof using.
  intros Hc Hp. revert a fuel. induction str as [|c str IH]; intros a fuel U Hf; (destruct fuel as [|fuel]; [lia|]); cbn [vstr_from].
  - destruct (us_bytes _ _ _ _ _ U 0 0 eq_refl) as [E _]. rewrite Z.add_0_r in E. by rewrite (bind_ok _ _ _ _ _ (vload8_ok SELECTION kend cur p a 0 s Hc Hp E)).
  - destruct (us_bytes _ _ _ _ _ U 0 c eq_refl) as [E _]. rewrite Z.add_0_r in E. rewrite (bind_ok _ _ _ _ _ (vload8_ok SELECTION kend cur p a c s Hc Hp E)).
    pose proof (us_chars _ _ _ _ _ U) as Hch. inversion_clear Hch as [|? ? Hc0 _]. destruct (Z.eqb_spec c 0); [done|].
    rewrite (bind_ok _ _ _ _ _ (IH (a + 1) fuel (user_str_tail _ _ _ _ _ _ U) ltac:(simpl in Hf; lia))). done.
Qed.
Lemma vstr_ok s cur p fr a str :
  k_cur s = Some cur → k_procs s !! cur = Some p → user_str fr (k_mem s) (p_pgdir p) a str → a + Z.of_nat (length str) < p_sz p →
  vstr SELECTION kend a s = Ok str s.
Proof using.
  intros Hc Hp U Hsz. unfold vstr. rewrite (bind_ok _ _ _ _ _ (my_sz_ok cur p s Hc Hp)). apply (vstr_from_ok s cur p fr); try done. lia.
Qed.
(** ** Pushing the arguments *)

(** Where the strings go. *)
Definition arg_sp (sp : Z) (str : list Z) : Z := (sp - (Z.of_nat (length str) + 1)) / 4 * 4.
Definition args_sp (sp : Z) (strs : list (list Z)) : Z := foldl arg_sp sp strs.
Fixpoint arg_ptrs (sp : Z) (strs : list (list Z)) : list Z :=
  match strs with [] => [] | str :: strs => arg_sp sp str :: arg_ptrs (arg_sp sp str) strs end.

Lemma arg_sp_bound sp str : sp - (Z.of_nat (length str) + 1) - 3 ≤ arg_sp sp str ≤ sp - (Z.of_nat (length str) + 1).
Proof using. unfold arg_sp. set (x := sp - _). pose proof (Z.div_mod x 4). pose proof (Z.mod_pos_bound x 4). lia. Qed.
Lemma args_sp_le sp strs : args_sp sp strs ≤ sp.
Proof using.
  unfold args_sp. revert sp. induction strs as [|str strs IH]; intros sp; simpl; [done|]. pose proof (IH (arg_sp sp str)). pose proof (arg_sp_bound sp str). lia.
Qed.
Lemma land_not3 x : 0 ≤ x < 2 ^ 32 → Z.land x (u32 (Z.lnot 3)) = x / 4 * 4.
Proof using.
  intros Hx. change (u32 (Z.lnot 3)) with (Z.shiftl (Z.ones (32 - 2)) 2). by rewrite land_high by lia.
Qed.

Lemma vbyte_range m pgdir va c : vbyte m pgdir va = Some c → 0 ≤ c < 256.
Proof using. unfold vbyte. repeat case_match; intros [=]. subst. apply load8_range. Qed.

(** The bytes of the stack page, by address. *)
Definition stack_at (m : memory) (top fr va : Z) : Z := load8 m (fr + (va - (top - PGSIZE))).

Lemma store_stack fr top va buf m :
  top - PGSIZE ≤ va → va + Z.of_nat (length buf) ≤ top → Forall (λ c, 0 ≤ c < 256) buf →
  let m' := store_bytes m (fr + (va - (top - PGSIZE))) buf in
  same_but fr m m' ∧ (∀ o, o < va ∨ va + Z.of_nat (length buf) ≤ o → stack_at m' top fr o = stack_at m top fr o) ∧
  ∀ (j : nat) c, buf !! j = Some c → stack_at m' top fr (va + Z.of_nat j) = c.
Proof using.
  intros H1 H2 Hb m'. split_and!.
  - intros a Ha. apply load8_store_bytes_out. unfold away in Ha. lia.
  - intros o Ho. apply load8_store_bytes_out. lia.
  - intros j c Hc. unfold stack_at, m'. replace (fr + (va + Z.of_nat j - (top - PGSIZE))) with (fr + (va - (top - PGSIZE)) + Z.of_nat j) by lia.
    rewrite (load8_store_bytes_in _ _ _ _ c Hc). apply u8_id. exact (Forall_lookup_1 _ _ _ _ Hb Hc).
Qed.

(** Argument strings of the process [p]. *)
Definition args (fr : Z) (m : memory) (p : proc) (argv : list Z) (strs : list (list Z)) : Prop :=
  Forall2 (λ a str, user_str fr m (p_pgdir p) a str ∧ a + Z.of_nat (length str) < p_sz p) argv strs.

Lemma args_same fr m m' p argv strs : same_but fr m m' → args fr m p argv strs → args fr m' p argv strs.
Proof using. intros H Ha. eapply Forall2_impl; [exact Ha|]. intros a str [U ?]. by split; [eapply user_str_same|]. Qed.
Lemma user_str_range fr m pgdir a str : user_str fr m pgdir a str → Forall (λ c, 0 ≤ c < 256) (str ++ [0]).
Proof using. intros U. apply Forall_lookup. intros i c Hc. by eapply vbyte_range, (us_bytes _ _ _ _ _ U). Qed.

(** The strings are in place, none of them below [low]. *)
Definition placed (m : memory) (top fr low : Z) (ptrs : list Z) (strs : list (list Z)) : Prop :=
  ∀ (i : nat) ptr str, ptrs !! i = Some ptr → strs !! i = Some str →
    low ≤ ptr ∧ ptr + Z.of_nat (length str) < top ∧
    ∀ (j : nat) c, (str ++ [0]) !! j = Some c → stack_at m top fr (ptr + Z.of_nat j) = c.

Lemma push_args_ok s cur p pgdir top fr argc sp argv strs :
  k_cur s = Some cur → k_procs s !! cur = Some p → stack_page (k_mem s) pgdir top fr → args fr (k_mem s) p argv strs →
  argc + Z.of_nat (length argv) ≤ MAXARG → top - PGSIZE ≤ args_sp sp strs → sp ≤ top →
  ∃ m', push_args SELECTION kend pgdir argc sp argv s = Ok (Some (args_sp sp strs, arg_ptrs sp strs)) (s <| k_mem := m' |>) ∧
    same_but fr (k_mem s) m' ∧ (∀ o, o < args_sp sp strs ∨ sp ≤ o → stack_at m' top fr o = stack_at (k_mem s) top fr o) ∧
    placed m' top fr (args_sp sp strs) (arg_ptrs sp strs) strs.
Proof using.
  intros Hc Hp Hs Ha. revert s argc sp Hc Hp Hs Ha. revert strs. induction argv as [|a argv IH]; intros strs s argc sp Hc Hp Hs Ha Hargc Hlow Htop.
  - inversion Ha. subst. exists (k_mem s). split; [by destruct s|]. split; [done|]. by split.
  - inversion Ha as [|? str ? strs' [U Hsz] Ha']. subst. simpl in Hargc, Hlow. cbn [push_args arg_ptrs]. unfold MAXARG in *.
    destruct (Z.leb_spec 32 argc) as [|_]; [lia|]. rewrite (bind_ok _ _ _ _ _ (vstr_ok s cur p fr a str Hc Hp U Hsz)).
    pose proof (arg_sp_bound sp str) as Hb. pose proof (args_sp_le (arg_sp sp str) strs') as Hle. change (args_sp sp (str :: strs')) with (args_sp (arg_sp sp str) strs') in *.
    pose proof (sp_top _ _ _ _ Hs) as [_ Ht]. unfold KERNBASE in Ht.
    assert (Z.land (u32 (sp - (Z.of_nat (length str) + 1))) (u32 (Z.lnot 3)) = arg_sp sp str) as ->.
    { rewrite u32_id by (unfold PGSIZE in *; lia). apply land_not3. unfold PGSIZE in *; lia. }
    cbv zeta. set (va := arg_sp sp str) in *. assert (Z.of_nat (length (str ++ [0])) = Z.of_nat (length str) + 1) as Hl by (rewrite length_app; simpl; lia).
    rewrite (bind_ok _ _ _ _ _ (copyout_stack s pgdir top fr va (str ++ [0]) Hs ltac:(lia) ltac:(lia) ltac:(by destruct str))).
    change (0 <? 0) with false. cbv iota. destruct (store_stack fr top va (str ++ [0]) (k_mem s) ltac:(lia) ltac:(lia) (user_str_range _ _ _ _ _ U)) as (T1 & T2 & T3).
    set (s1 := s <| k_mem ::= _ |>). change (store_bytes (k_mem s) (fr + (va - (top - PGSIZE))) (str ++ [0])) with (k_mem s1) in *.
    destruct (IH strs' s1 (argc + 1) va Hc Hp (stack_page_same _ _ _ _ _ T1 Hs) (args_same _ _ _ _ _ _ T1 Ha') ltac:(simpl in Hargc; lia) ltac:(lia) ltac:(lia)) as (m' & E & R1 & R2 & R3).
    rewrite (bind_ok _ _ _ _ _ E). exists m'. split; [reflexivity|]. split; [by eapply same_but_trans|]. split.
    + intros o Ho. rewrite R2, T2; [done|..]; lia.
    + intros [|i] ptr str' Hi Hi'; [|by apply (R3 i)]. injection Hi as <-. injection Hi' as <-. split; [lia|]. split; [lia|].
      intros j c Hj. rewrite R2; [by apply T3|lia].
Qed.
(** ** The words on the stack *)

Lemma length_words (ws : list Z) : Z.of_nat (length (concat (le32 <$> ws))) = 4 * Z.of_nat (length ws).
Proof using. induction ws as [|w ws IH]; [done|]. cbn [fmap list_fmap concat length]. rewrite length_app, Nat2Z.inj_add, IH. simpl. lia. Qed.
Lemma words_lookup (ws : list Z) (i k : nat) w : ws !! i = Some w → (k < 4)%nat → concat (le32 <$> ws) !! (4 * i + k)%nat = le32 w !! k.
Proof using.
  revert i. induction ws as [|x ws IH]; intros [|i] Hw Hk; [done..| |].
  - injection Hw as ->. cbn [fmap list_fmap concat]. by rewrite lookup_app_l by (simpl; lia).
  - cbn [fmap list_fmap concat]. rewrite lookup_app_r by (simpl; lia). change (length (le32 x)) with 4%nat. replace (4 * S i + k - 4)%nat with (4 * i + k)%nat by lia. by apply IH.
Qed.
Lemma word_bytes_range (ws : list Z) : Forall (λ c, 0 ≤ c < 256) (concat (le32 <$> ws)).
Proof using. induction ws as [|w ws IH]; [constructor|]. cbn [fmap list_fmap concat]. apply Forall_app. split; [|done]. repeat (constructor; [apply u8_range|]). constructor. Qed.

Lemma vword_at m pgdir top fr va w :
  stack_page m pgdir top fr → top - PGSIZE ≤ va → va + 4 ≤ top → 0 ≤ w < 2 ^ 32 →
  (∀ (k : nat) c, le32 w !! k = Some c → stack_at m top fr (va + Z.of_nat k) = c) → vword m pgdir va = Some w.
Proof using.
  intros Hs H1 H2 Hw Hk. unfold vword. rewrite !(stack_byte m pgdir top fr) by (try done; lia).
  pose proof (Hk 0%nat _ eq_refl) as E0. pose proof (Hk 1%nat _ eq_refl) as E1. pose proof (Hk 2%nat _ eq_refl) as E2. pose proof (Hk 3%nat _ eq_refl) as E3.
  rewrite Z.add_0_r in E0. unfold stack_at in *. cbn [mbind option_bind]. change (Z.of_nat 1) with 1 in E1. change (Z.of_nat 2) with 2 in E2. change (Z.of_nat 3) with 3 in E3.
  rewrite E0, E1, E2, E3. f_equal. pose proof (u32_bytes w) as Hu. rewrite u32_id in Hu by done. lia.
Qed.

Lemma args_sp_mod sp strs : sp mod 4 = 0 → args_sp sp strs mod 4 = 0.
Proof using.
  unfold args_sp. revert sp. induction strs as [|str strs IH]; intros sp Hsp; [done|]. simpl. apply IH. unfold arg_sp. by apply Z.mod_mul.
Qed.
Lemma arg_ptrs_length sp strs : length (arg_ptrs sp strs) = length strs.
Proof using. revert sp. induction strs as [|str strs IH]; intros sp; simpl; by rewrite ?IH. Qed.

(** The words that [ustack] is made of, at their places. *)
Lemma ustack_lookup sp ptrs :
  let argc := Z.of_nat (length ptrs) in
  ustack sp ptrs !! 0%nat = Some 0xffffffff ∧ ustack sp ptrs !! 1%nat = Some argc ∧ ustack sp ptrs !! 2%nat = Some (u32 (sp - (argc + 1) * 4)) ∧
  (∀ i ptr, ptrs !! i = Some ptr → ustack sp ptrs !! (3 + i)%nat = Some ptr) ∧ ustack sp ptrs !! (3 + length ptrs)%nat = Some 0.
Proof using.
  split_and!; [done..| |].
  - intros i ptr Hi. simpl. rewrite lookup_app_l; [done|]. by eapply lookup_lt_Some.
  - simpl. rewrite lookup_app_r by lia. by rewrite Nat.sub_diag.
Qed.

(** An array of words in the stack page. *)
Lemma store_words fr top sp ws m pgdir :
  stack_page m pgdir top fr → top - PGSIZE ≤ sp → sp + 4 * Z.of_nat (length ws) ≤ top →
  let m' := store_bytes m (fr + (sp - (top - PGSIZE))) (concat (le32 <$> ws)) in
  same_but fr m m' ∧ (∀ o, sp + 4 * Z.of_nat (length ws) ≤ o → stack_at m' top fr o = stack_at m top fr o) ∧
  ∀ (i : nat) w, ws !! i = Some w → 0 ≤ w < 2 ^ 32 → vword m' pgdir (sp + 4 * Z.of_nat i) = Some w.
Proof using.
  intros Hs H1 H2 m'. pose proof (length_words ws) as Hl. destruct (store_stack fr top sp (concat (le32 <$> ws)) m H1 ltac:(rewrite Hl; exact H2) (word_bytes_range ws)) as (T1 & T2 & T3).
  split_and!; [done|intros o Ho; apply T2; rewrite Hl; by right|]. intros i w Hi Hw. pose proof (lookup_lt_Some _ _ _ Hi) as Hlt.
  apply (vword_at m' pgdir top fr); [by eapply stack_page_same|lia|lia|done|]. intros k c Hk. pose proof (lookup_lt_Some _ _ _ Hk) as Hk4. simpl in Hk4.
  replace (sp + 4 * Z.of_nat i + Z.of_nat k) with (sp + Z.of_nat (4 * i + k)) by lia. apply T3. by rewrite (words_lookup _ i k w).
Qed.

(** C14: The new program gets its arguments. [exec] copies the argument strings
    of the caller to the page below the top of the new image: if they fit,
    [setup_stack] returns a stack pointer at which the program finds, through
    its own page table, a return address, [argc] and [argv], which points to
    the array of the addresses of the strings, ended by 0; each address is that
    of the string with its zero byte. Nothing else in memory changes. *)
Theorem exec_args s cur p pgdir top fr argv strs :
  k_cur s = Some cur → k_procs s !! cur = Some p → stack_page (k_mem s) pgdir top fr → args fr (k_mem s) p argv strs →
  Z.of_nat (length argv) ≤ MAXARG → top - PGSIZE ≤ args_sp top strs - 4 * (4 + Z.of_nat (length argv)) →
  ∃ sp m', setup_stack SELECTION kend pgdir top argv s = Ok (Some sp) (s <| k_mem := m' |>) ∧ same_but fr (k_mem s) m' ∧ sp mod 4 = 0 ∧
    vword m' pgdir sp = Some 0xffffffff ∧ vword m' pgdir (sp + 4) = Some (Z.of_nat (length argv)) ∧ vword m' pgdir (sp + 8) = Some (sp + 12) ∧
    (∀ (i : nat) str, strs !! i = Some str → ∃ ptr, vword m' pgdir (sp + 12 + 4 * Z.of_nat i) = Some ptr ∧
       ∀ (j : nat) c, (str ++ [0]) !! j = Some c → vbyte m' pgdir (ptr + Z.of_nat j) = Some c) ∧
    vword m' pgdir (sp + 12 + 4 * Z.of_nat (length argv)) = Some 0.
Proof using.
  intros Hc Hp Hs Ha Hn Hfit. pose proof (Forall2_length _ _ _ Ha) as Hlen. pose proof (sp_top _ _ _ _ Hs) as [Hmod Ht].
  destruct (push_args_ok s cur p pgdir top fr 0 top argv strs Hc Hp Hs Ha ltac:(lia) ltac:(lia) ltac:(lia)) as (m1 & E1 & B1 & _ & P1).
  unfold setup_stack. rewrite (bind_ok _ _ _ _ _ E1). cbv iota beta. rewrite arg_ptrs_length, <-Hlen. set (n := Z.of_nat (length argv)) in *.
  pose proof (args_sp_mod top strs) as Hm4. pose proof (args_sp_le top strs) as Hsp1. set (sp1 := args_sp top strs) in *. set (ptrs := arg_ptrs top strs) in *.
  assert (u32 (sp1 - (3 + n + 1) * 4) = sp1 - 4 * (4 + n)) as -> by (rewrite u32_id; unfold PGSIZE, KERNBASE, MAXARG in *; lia).
  set (sp := sp1 - 4 * (4 + n)) in *. cbv zeta. set (s1 := s <| k_mem := m1 |>). pose proof (stack_page_same _ _ _ _ _ B1 Hs : stack_page (k_mem s1) pgdir top fr) as Hs1.
  assert (length ptrs = length argv) as Hpl by (unfold ptrs; by rewrite arg_ptrs_length).
  assert (Z.of_nat (length (ustack sp1 ptrs)) = 4 + n) as Hul by (unfold ustack; rewrite !length_app; simpl; lia). pose proof (length_words (ustack sp1 ptrs)) as Hbl.
  rewrite (bind_ok _ _ _ _ _ (copyout_stack s1 pgdir top fr sp (concat (le32 <$> ustack sp1 ptrs)) Hs1 ltac:(lia) ltac:(rewrite Hbl, Hul; lia) ltac:(by destruct ptrs))). change (0 <? 0) with false. cbv iota.
  destruct (store_words fr top sp (ustack sp1 ptrs) m1 pgdir Hs1 ltac:(lia) ltac:(lia)) as (T1 & T2 & W).
  destruct (ustack_lookup sp1 ptrs) as (U0 & U1 & U2 & U3 & U4). rewrite Hpl in U1, U2, U4. fold n in U1, U2.
  set (m2 := store_bytes m1 _ _) in *. exists sp, m2. pose proof (stack_page_same _ _ _ _ _ T1 Hs1) as Hs2. unfold PGSIZE, KERNBASE, MAXARG in *.
  split_and!; [reflexivity|by eapply same_but_trans| | | | | |].
  - unfold sp. rewrite Zminus_mod, Hm4, (Z.mul_comm 4), Z.mod_mul by (try done; by rewrite <-(Z.mod_mod_divide top 4096 4), Hmod by (by exists 1024)). done.
  - rewrite <-(W 0%nat _ U0) by lia. f_equal. lia.
  - rewrite <-(W 1%nat _ U1) by lia. f_equal.
  - assert (u32 (sp1 - (n + 1) * 4) = sp + 12) as Eq by (rewrite u32_id; lia). rewrite Eq in U2. rewrite <-(W 2%nat _ U2) by lia. f_equal.
  - intros i str Hi. destruct (lookup_lt_is_Some_2 ptrs i) as [ptr Hptr]; [rewrite Hpl, Hlen; by eapply lookup_lt_Some|].
    destruct (P1 i ptr str Hptr Hi) as (Q1 & Q2 & Q3). exists ptr. split.
    + replace (sp + 12 + 4 * Z.of_nat i) with (sp + 4 * Z.of_nat (3 + i)) by lia. apply W; [by apply U3|lia].
    + intros j c Hj. pose proof (lookup_lt_Some _ _ _ Hj) as Hjl. rewrite length_app in Hjl. simpl in Hjl.
      rewrite (stack_byte m2 pgdir top fr) by (try done; unfold PGSIZE; lia). f_equal. rewrite <-(Q3 j c Hj). apply (T2 (ptr + Z.of_nat j)). lia.
  - replace (sp + 12 + 4 * n) with (sp + 4 * Z.of_nat (3 + length argv)) by lia. by apply W; [|lia].
Qed.
End stack.

Module ExecExamples.
Import PagingExamples TrapExamples.

(** No such file. *)
Lemma exec_all_or_nothing_witness : ∃ s', exec SCFIFO 0x80100000 0x80108000 0x100 [] ex_kst = Ok (-1) s' ∧ programs s' = programs ex_kst.
Proof.
  pose proof (exec_all_or_nothing SCFIFO 0x80100000 0x80108000 0x100 [] ex_kst 0 eq_refl) as H.
  assert (∃ s', exec SCFIFO 0x80100000 0x80108000 0x100 [] ex_kst = Ok (-1) s') as [s' E] by (eexists; vm_compute; reflexivity).
  exists s'. split; [exact E|]. unfold wlp in H. rewrite E in H. destruct H as [[_ H]|[H _]]; [exact H|discriminate H].
Defined.

(** The arguments "ls" and "-l" at 0x100 and 0x110, for an image of three pages
    whose page tables are at 0x80403000 and 0x80404000. *)
Definition ex_strs : list (list Z) := [[108; 115]; [45; 108]].
Definition ex_argmem : memory :=
  store32 (store32 (store_bytes (store_bytes ex_mem 0x80402100 [108; 115; 0]) 0x80402110 [45; 108; 0]) 0x80403000 0x404007) 0x80404008 0x405007.
Definition ex_argkst : kst ifs := ex_kst <| k_mem := ex_argmem |>.

Lemma ex_stack_page : stack_page ex_argmem 0x80403000 0x3000 0x80405000.
Proof. split; [by vm_compute|by vm_compute|by vm_compute|by vm_compute|by vm_compute|]. unfold away. split; vm_compute; left; intros [=]. Qed.

Lemma ex_user_str a str : (a, str) = (0x100, [108; 115]) ∨ (a, str) = (0x110, [45; 108]) → user_str 0x80405000 ex_argmem ex_pgdir a str.
Proof.
  intros [[= -> ->]|[= -> ->]]; (split; [by repeat constructor|]); (intros i c Hi; destruct i as [|[|[|i]]]; [| | |done]);
    injection Hi as <-; (split; [by vm_compute|]); (split_and!; vm_compute; left; intros [=]).
Qed.

Lemma exec_args_witness : ∃ sp m', setup_stack SCFIFO 0x80100000 0x80403000 0x3000 [0x100; 0x110] ex_argkst = Ok (Some sp) (ex_argkst <| k_mem := m' |>) ∧
  vword m' 0x80403000 (sp + 4) = Some 2.
Proof.
  destruct (exec_args SCFIFO 0x80100000 ex_argkst 0 ex_proc 0x80403000 0x3000 0x80405000 [0x100; 0x110] ex_strs) as (sp & m' & E & _ & _ & _ & H & _).
  - reflexivity.
  - reflexivity.
  - exact ex_stack_page.
  - unfold args. constructor; [split; [apply ex_user_str; by left|by vm_compute]|]. constructor; [split; [apply ex_user_str; by right|by vm_compute]|]. constructor.
  - by vm_compute.
  - by vm_compute.
  - exists sp, m'. split; [exact E|exact H].
Defined.
End ExecExamples.
