(* ===== verification/Sysfile.v ===== *)
(** The file system calls, [src/sysfile.c].

    A call checks its arguments and works on the table of open files of the
    process and on the file system.  A user buffer is read and written through
    the page table of the process; a page that is not present, or a write to one
    that is read-only, traps in the kernel. *)

From S2P Require Import Prelude Memory Machine Kalloc Swap Vm Proc Trap Exec Disk Log Fs File.
From stdpp Require Import options.
Import Vm Proc Trap Exec.

Definition SYS_pipe := 4.
Definition SYS_read := 5.
Definition SYS_exec := 7.
Definition SYS_fstat := 8.
Definition SYS_chdir := 9.
Definition SYS_dup := 10.
Definition SYS_open := 15.
Definition SYS_write := 16.
Definition SYS_mknod := 17.
Definition SYS_unlink := 18.
Definition SYS_link := 19.
Definition SYS_mkdir := 20.
Definition SYS_close := 21.
Definition O_RDONLY := 0x000.
Definition O_WRONLY := 0x001.
Definition O_RDWR := 0x002.
Definition O_CREATE := 0x200.

(** The first empty entry of [ofile]. *)
Fixpoint find_fd {A} (l : list (option A)) (i : nat) : option nat :=
  match l with
  | [] => None
  | None :: _ => Some i
  | Some _ :: l => find_fd l (S i)
  end.

Module Sysfile.
Section sysfile.
Context (SELECTION : policy).
Context (devread : Z → option (nat → Z → M fsys (Z * list Z))).
Context (devwrite : Z → option (nat → list Z → M fsys Z)).
Context (kend kdata : Z).
#[local] Instance disk_FileSys : FileSys fsys := fsys_FileSys devread devwrite.
Implicit Types s : kst fsys.

(** ** User memory *)

(** Where the kernel's write to an address of the process goes. *)
Definition waddr (m : memory) (pgdir va : Z) : option Z :=
  let pde := load32 m (pgdir + 4 * PDX va) in
  if negb (pte_has pde PTE_P && pte_has pde PTE_W) then None else
  let pte := load32 m (P2V (PTE_ADDR pde) + 4 * PTX va) in
  if negb (pte_has pte PTE_P && pte_has pte PTE_W) then None else
  Some (P2V (PTE_ADDR pte) + Z.land va 0xFFF).

Definition vstore8 (va b : Z) : M (kst fsys) unit :=
  loop 2 (λ _,
    pgdir <- my_pgdir ;;
    a <- gets (λ s, waddr (k_mem s) pgdir va) ;;
    match a with
    | Some a => modify (λ s, s <| k_mem ::= λ m, store8 m a b |>) ;; ret (inr tt)
    | None => kernel_fault SELECTION kend va ;; ret (inl tt)
    end) tt.
Fixpoint vstore (va : Z) (bs : list Z) : M (kst fsys) unit :=
  match bs with [] => skip | b :: bs => vstore8 va b ;; vstore (va + 1) bs end.

Fixpoint vload (n : nat) (va : Z) : M (kst fsys) (list Z) :=
  match n with
  | O => ret []
  | S n => b <- vload8 SELECTION kend va ;; l <- vload n (va + 1) ;; ret (b :: l)
  end.
(** The bytes before the first one that is not present. *)
Fixpoint present (n : nat) (m : memory) (pgdir va : Z) : list Z :=
  match n with
  | O => []
  | S n => match vbyte m pgdir va with Some b => b :: present n m pgdir (va + 1) | None => [] end
  end.

(** [argstr], and the bytes of the string. *)
Definition argpath (n : Z) : M (kst fsys) (option (list Z)) :=
  r <- argstr SELECTION kend n ;;
  match r with
  | None => ret None
  | Some (a, len) => l <- vload (Z.to_nat len) a ;; ret (Some l)
  end.

(** ** File descriptors *)

(** The descriptor and the file. *)
Definition argfd (n : Z) : M (kst fsys) (option (Z * Z)) :=
  fd <- argint SELECTION kend n ;;
  match fd with
  | None => ret None
  | Some fd =>
      if (fd <? 0) || (NOFILE <=? fd) then ret None else
      pi <- myproc ;;
      p <- getp pi ;;
      f <- of_option "ofile[] index" (aget (p_ofile p) fd) ;;
      ret match f with None => None | Some f => Some (fd, f) end
  end.

Definition fdalloc (f : Z) : M (kst fsys) (option Z) :=
  pi <- myproc ;;
  p <- getp pi ;;
  match find_fd (p_ofile p) 0 with
  | None => ret None
  | Some fd =>
      modp pi (λ p, p <| p_ofile ::= <[fd := Some f]> |>) ;;
      ret (Some (Z.of_nat fd))
  end.

(** [fileclose], and what it gives back to the page allocator. *)
Fixpoint kfree_all (l : list Z) : M (kst fsys) unit :=
  match l with [] => skip | v :: l => Kalloc.kfree kend v ;; kfree_all l end.
Definition kfileclose (f : Z) : M (kst fsys) unit :=
  fs_call (fileclose (Z.to_nat f)) ;;
  l <- gets (λ s, d_kfreed (k_fs s)) ;;
  modify (λ s, s <| k_fs ::= λ d, d <| d_kfreed := [] |> |>) ;;
  kfree_all l.

Definition my_killed : M (kst fsys) bool := pi <- myproc ;; p <- getp pi ;; ret (p_killed p).
Definition my_cwd : M (kst fsys) (option nat) := pi <- myproc ;; p <- getp pi ;; ret (Z.to_nat <$> p_cwd p).

(** ** The calls *)

Definition sys_dup : M (kst fsys) Z :=
  r <- argfd 0 ;;
  match r with
  | None => ret (-1)
  | Some (_, f) =>
      fd <- fdalloc f ;;
      match fd with
      | None => ret (-1)
      | Some fd => fs_call (filedup (Z.to_nat f)) ;; ret fd
      end
  end.

(** The file, [n] and the buffer of [read] and [write]. *)
Definition rwargs : M (kst fsys) (option (Z * Z * Z)) :=
  r <- argfd 0 ;;
  match r with
  | None => ret None
  | Some (_, f) =>
      n <- argint SELECTION kend 2 ;;
      match n with
      | None => ret None
      | Some n =>
          p <- argptr SELECTION kend 1 n ;;
          ret match p with None => None | Some p => Some (f, n, p) end
      end
  end.

Definition sys_read : M (kst fsys) Z :=
  a <- rwargs ;;
  match a with
  | None => ret (-1)
  | Some (f, n, p) =>
      killed <- my_killed ;;
      r <- fs_call (fileread devread killed (Z.to_nat f) n) ;;
      vstore p r.2 ;;
      ret r.1
  end.

Definition sys_write : M (kst fsys) Z :=
  a <- rwargs ;;
  match a with
  | None => ret (-1)
  | Some (f, n, p) =>
      killed <- my_killed ;;
      pgdir <- my_pgdir ;;
      l <- gets (λ s, present (Z.to_nat n) (k_mem s) pgdir p) ;;
      r <- fs_call (filewrite devwrite killed (Z.to_nat f) l) ;;
      if (Z.of_nat (length l) <? n) && (0 <=? r) then
        kernel_fault SELECTION kend (p + Z.of_nat (length l)) ;;
        ret r
      else ret r
  end.

Definition sys_close : M (kst fsys) Z :=
  r <- argfd 0 ;;
  match r with
  | None => ret (-1)
  | Some (fd, f) =>
      pi <- myproc ;;
      modp pi (λ p, p <| p_ofile ::= λ l, aset l fd None |>) ;;
      kfileclose f ;;
      ret 0
  end.

Definition sizeof_stat := 20.
(** The fields of [struct stat], at their offsets. *)
Definition put_stat (st : Z) (x : stat) : M (kst fsys) unit :=
  vstore st (take 2 (le32 (st_type x))) ;;
  vstore (st + 4) (le32 (st_dev x)) ;;
  vstore (st + 8) (le32 (st_ino x)) ;;
  vstore (st + 12) (take 2 (le32 (st_nlink x))) ;;
  vstore (st + 16) (le32 (st_size x)).

Definition sys_fstat : M (kst fsys) Z :=
  r <- argfd 0 ;;
  match r with
  | None => ret (-1)
  | Some (_, f) =>
      st <- argptr SELECTION kend 1 sizeof_stat ;;
      match st with
      | None => ret (-1)
      | Some st =>
          x <- fs_call (filestat (Z.to_nat f)) ;;
          match x with
          | None => ret (-1)
          | Some x => put_stat st x ;; ret 0
          end
      end
  end.

(** [link(old, new)], after the arguments. *)
Definition link (cwd : option nat) (old new : list Z) : M fsys Z :=
  begin_op ;;
  r <- namei devread cwd old ;;
  match r with
  | None => end_op ;; ret (-1)
  | Some i =>
      ilock (Some i) ;;
      ip <- getino i ;;
      if i_type ip =? T_DIR then iunlockput i ;; end_op ;; ret (-1) else
      modino i (λ ip, ip <| i_nlink ::= λ n, s16 (n + 1) |>) ;;
      iupdate i ;;
      iunlock (Some i) ;;
      let bad :=
        ilock (Some i) ;;
        modino i (λ ip, ip <| i_nlink ::= λ n, s16 (n - 1) |>) ;;
        iupdate i ;;
        iunlockput i ;;
        end_op ;;
        ret (-1) in
      r <- nameiparent devread cwd new ;;
      match r with
      | None => bad
      | Some (dp, name) =>
          ilock (Some dp) ;;
          d <- getino dp ;;
          ip <- getino i ;;
          linked <- (if negb (i_dev d =? i_dev ip) then ret false
                     else r <- dirlink devread devwrite dp name (i_inum ip) ;; ret (negb (r <? 0))) ;;
          if negb linked then iunlockput dp ;; bad else
          iunlockput dp ;;
          iput i ;;
          end_op ;;
          ret 0
      end
  end.
Definition sys_link : M (kst fsys) Z :=
  old <- argpath 0 ;;
  match old with
  | None => ret (-1)
  | Some old =>
      new <- argpath 1 ;;
      match new with
      | None => ret (-1)
      | Some new => cwd <- my_cwd ;; fs_call (link cwd old new)
      end
  end.

Definition sys_unlink : M (kst fsys) Z :=
  path <- argpath 0 ;;
  match path with
  | None => ret (-1)
  | Some path => cwd <- my_cwd ;; fs_call (unlink devread devwrite cwd path)
  end.

(** The inode that [open] works on, locked. *)
Definition open_inode (cwd : option nat) (path : list Z) (omode : Z) : M fsys (option nat) :=
  if negb (Z.land omode O_CREATE =? 0) then create devread devwrite cwd path T_FILE 0 0
  else
    r <- namei devread cwd path ;;
    match r with
    | None => ret None
    | Some i =>
        ilock (Some i) ;;
        ip <- getino i ;;
        if (i_type ip =? T_DIR) && negb (omode =? O_RDONLY) then iunlockput i ;; ret None else ret (Some i)
    end.

Definition sys_open : M (kst fsys) Z :=
  path <- argpath 0 ;;
  match path with
  | None => ret (-1)
  | Some path =>
      omode <- argint SELECTION kend 1 ;;
      match omode with
      | None => ret (-1)
      | Some omode =>
          cwd <- my_cwd ;;
          fs_call begin_op ;;
          i <- fs_call (open_inode cwd path omode) ;;
          match i with
          | None => fs_call end_op ;; ret (-1)
          | Some i =>
              let fail := fs_call (iunlockput i) ;; fs_call end_op ;; ret (-1) in
              f <- fs_call filealloc ;;
              match f with
              | None => fail
              | Some f =>
                  fd <- fdalloc (to_ptr f) ;;
                  match fd with
                  | None => kfileclose (to_ptr f) ;; fail
                  | Some fd =>
                      fs_call (iunlock (Some i)) ;;
                      fs_call end_op ;;
                      fs_call (modfile f (λ x, x <| f_type := FD_INODE |> <| f_ip := Some i |> <| f_off := 0 |>
                        <| f_readable := if Z.land omode O_WRONLY =? 0 then 1 else 0 |>
                        <| f_writable := if negb (Z.land omode O_WRONLY =? 0) || negb (Z.land omode O_RDWR =? 0) then 1 else 0 |>)) ;;
                      ret fd
                  end
              end
          end
      end
  end.

(** The end of [mkdir] and [mknod]. *)
Definition created (i : option nat) : M fsys Z :=
  match i with
  | None => end_op ;; ret (-1)
  | Some i => iunlockput i ;; end_op ;; ret 0
  end.

Definition sys_mkdir : M (kst fsys) Z :=
  fs_call begin_op ;;
  path <- argpath 0 ;;
  cwd <- my_cwd ;;
  i <- match path with
       | None => ret None
       | Some path => fs_call (create devread devwrite cwd path T_DIR 0 0)
       end ;;
  fs_call (created i).

Definition sys_mknod : M (kst fsys) Z :=
  fs_call begin_op ;;
  path <- argpath 0 ;;
  match path with
  | None => fs_call (created None)
  | Some path =>
      major <- argint SELECTION kend 1 ;;
      match major with
      | None => fs_call (created None)
      | Some major =>
          minor <- argint SELECTION kend 2 ;;
          match minor with
          | None => fs_call (created None)
          | Some minor =>
              cwd <- my_cwd ;;
              i <- fs_call (create devread devwrite cwd path T_DEV (s16 major) (s16 minor)) ;;
              fs_call (created i)
          end
      end
  end.

Definition sys_chdir : M (kst fsys) Z :=
  pi <- myproc ;;
  fs_call begin_op ;;
  path <- argpath 0 ;;
  cwd <- my_cwd ;;
  i <- match path with None => ret None | Some path => fs_call (namei devread cwd path) end ;;
  match i with
  | None => fs_call end_op ;; ret (-1)
  | Some i =>
      fs_call (ilock (Some i)) ;;
      ip <- fs_call (getino i) ;;
      if negb (i_type ip =? T_DIR) then fs_call (iunlockput i) ;; fs_call end_op ;; ret (-1) else
      fs_call (iunlock (Some i)) ;;
      c <- of_option "iput of a null inode" cwd ;;
      fs_call (iput c) ;;
      fs_call end_op ;;
      modp pi (λ p, p <| p_cwd := Some (to_ptr i) |>) ;;
      ret 0
  end.

(** The loop of [sys_exec] that reads [argv]. *)
Fixpoint fetch_argv (n : nat) (uargv : Z) : M (kst fsys) (option (list Z)) :=
  match n with
  | O => ret None
  | S n =>
      a <- fetchint SELECTION kend uargv ;;
      match a with
      | None => ret None
      | Some a =>
          if a =? 0 then ret (Some []) else
          r <- fetchstr SELECTION kend (u32 a) ;;
          match r with
          | None => ret None
          | Some _ =>
              l <- fetch_argv n (u32 (uargv + 4)) ;;
              ret match l with None => None | Some l => Some (u32 a :: l) end
          end
      end
  end.
Definition sys_exec : M (kst fsys) Z :=
  path <- argstr SELECTION kend 0 ;;
  match path with
  | None => ret (-1)
  | Some (path, _) =>
      uargv <- argint SELECTION kend 1 ;;
      match uargv with
      | None => ret (-1)
      | Some uargv =>
          argv <- fetch_argv (Z.to_nat MAXARG) (u32 uargv) ;;
          match argv with
          | None => ret (-1)
          | Some argv => exec SELECTION kend kdata path argv
          end
      end
  end.

(** [pipealloc] calls [kalloc] when it has two files. *)
Definition free_files (l : list file) : nat := length (filter (λ x, f_ref x = 0) l).
Definition kpipealloc : M (kst fsys) (option (nat * nat)) :=
  l <- gets (λ s, d_files (k_fs s)) ;;
  page <- (if decide (2 ≤ free_files l)%nat then Kalloc.kalloc else ret 0) ;;
  fs_call (pipealloc page).

Definition sys_pipe : M (kst fsys) Z :=
  fd <- argptr SELECTION kend 0 8 ;;
  match fd with
  | None => ret (-1)
  | Some fd =>
      r <- kpipealloc ;;
      match r with
      | None => ret (-1)
      | Some (rf, wf) =>
          pi <- myproc ;;
          let fail := kfileclose (to_ptr rf) ;; kfileclose (to_ptr wf) ;; ret (-1) in
          fd0 <- fdalloc (to_ptr rf) ;;
          match fd0 with
          | None => fail
          | Some fd0 =>
              fd1 <- fdalloc (to_ptr wf) ;;
              match fd1 with
              | None => modp pi (λ p, p <| p_ofile ::= λ l, aset l fd0 None |>) ;; fail
              | Some fd1 =>
                  vstore fd (le32 fd0) ;;
                  vstore (fd + 4) (le32 fd1) ;;
                  ret 0
              end
          end
      end
  end.

(** The entries of [syscalls[]] that are in sysfile.c. *)
Definition sysfile (num : Z) : option (M (kst fsys) sys_next) :=
  let call m := Some (r <- m ;; ret (SysRet r)) in
  if num =? SYS_pipe then call sys_pipe
  else if num =? SYS_read then call sys_read
  else if num =? SYS_exec then call sys_exec
  else if num =? SYS_fstat then call sys_fstat
  else if num =? SYS_chdir then call sys_chdir
  else if num =? SYS_dup then call sys_dup
  else if num =? SYS_open then call sys_open
  else if num =? SYS_write then call sys_write
  else if num =? SYS_mknod then call sys_mknod
  else if num =? SYS_unlink then call sys_unlink
  else if num =? SYS_link then call sys_link
  else if num =? SYS_mkdir then call sys_mkdir
  else if num =? SYS_close then call sys_close
  else None.
End sysfile.
End Sysfile.
