(* ===== verification/FileRefs.v ===== *)
(** References to open files.

    [f_ref] of the entries of the file table changes in [filealloc], [filedup]
    and [fileclose] only; everything else of the file system leaves the counts
    alone ([same_refs]). *)

From S2P Require Import Prelude Memory Machine Disk Log Fs File Exec Sysfile.
From stdpp Require Import options.
Implicit Types s : fsys.

Definition frefs s : list Z := f_ref <$> d_files s.
Definition same_refs s s' : Prop := frefs s' = frefs s.
#[global] Instance same_refs_pre : PreOrder same_refs.
Proof. split; [done|]. unfold same_refs. intros x y z. congruence. Qed.

#[export] Hint Extern 3 (pres same_refs (modify _)) =>
  apply pres_modify; [apply _|intros; unfold same_refs; repeat case_match; reflexivity] : pres.

(** ** The layers below files *)

Ltac pres_locks := unfold acquire, release, sleep_on, wakeup_on; pres_auto.

Section layers.
Abbreviation P := (pres same_refs).

Lemma pres_modbuf i f : P (modbuf i f).
Proof. unfold modbuf, getbuf. pres_auto. Qed.
Lemma pres_modino i f : P (modino i f).
Proof. unfold modino, getino. pres_auto. Qed.
Lemma pres_getbuf i : P (getbuf i).
Proof. unfold getbuf. pres_auto. Qed.
Lemma pres_getino i : P (getino i).
Proof. unfold getino. pres_auto. Qed.
#[local] Hint Resolve pres_modbuf pres_modino pres_getbuf pres_getino : pres.
Lemma pres_bread dev b : P (bread dev b).
Proof. unfold bread, bget, acquire_buf, iderw, ide_wait, ideintr, idestart. pres_locks. Qed.
Lemma pres_bwrite i : P (bwrite i).
Proof. unfold bwrite, iderw, ide_wait, ideintr, idestart. pres_locks. Qed.
Lemma pres_brelse i : P (brelse i).
Proof. unfold brelse, release_buf. pres_locks. Qed.
Lemma pres_bdata i : P (bdata i).
Proof. unfold bdata. pres_auto. Qed.
Lemma pres_set_bdata i f : P (set_bdata i f).
Proof. unfold set_bdata. pres_auto. Qed.
#[local] Hint Resolve pres_bread pres_bwrite pres_brelse pres_bdata pres_set_bdata : pres.
Lemma pres_log_write i : P (log_write i).
Proof. unfold log_write, set_lh_block, lh_block_at, mod_log. pres_locks. Qed.
Lemma pres_begin_op : P begin_op.
Proof. unfold begin_op, mod_log. pres_locks. Qed.
Lemma pres_commit : P commit.
Proof. unfold commit, write_log, write_log_one, write_head, install_trans, install_one, lh_block_at, mod_log. pres_auto. Qed.
#[local] Hint Resolve pres_log_write pres_commit : pres.
Lemma pres_end_op : P end_op.
Proof. unfold end_op, mod_log. pres_locks. Qed.
#[local] Hint Resolve pres_begin_op pres_end_op : pres.

Lemma pres_balloc dev : P (balloc dev).
Proof. unfold balloc, bzero. pres_auto. Qed.
Lemma pres_bfree dev b : P (bfree dev b).
Proof. unfold bfree, readsb. pres_auto. Qed.
#[local] Hint Resolve pres_balloc pres_bfree : pres.
Lemma pres_iupdate i : P (iupdate i).
Proof. unfold iupdate. pres_auto. Qed.
Lemma pres_iget dev inum : P (iget dev inum).
Proof. unfold iget. pres_locks. Qed.
Lemma pres_idup i : P (idup i).
Proof. unfold idup. pres_locks. Qed.
Lemma pres_ilock i : P (ilock i).
Proof. unfold ilock, acquire_ino. pres_locks. Qed.
Lemma pres_iunlock i : P (iunlock i).
Proof. unfold iunlock, release_ino. pres_locks. Qed.
#[local] Hint Resolve pres_iupdate pres_iget pres_idup pres_ilock pres_iunlock : pres.
Lemma pres_bmap i bn : P (bmap i bn).
Proof. unfold bmap, addr_at, set_addr. pres_auto. Qed.
Lemma pres_itrunc i : P (itrunc i).
Proof. unfold itrunc, addr_at, set_addr. pres_auto. Qed.
#[local] Hint Resolve pres_bmap pres_itrunc : pres.
Lemma pres_iput i : P (iput i).
Proof. unfold iput, acquire_ino, release_ino. pres_locks. Qed.
#[local] Hint Resolve pres_iput : pres.
Lemma pres_iunlockput i : P (iunlockput i).
Proof. unfold iunlockput. pres_auto. Qed.
End layers.
#[export] Hint Resolve pres_modino pres_getino pres_begin_op pres_end_op pres_iupdate pres_iget pres_idup pres_ilock pres_iunlock pres_bmap
  pres_bread pres_brelse pres_bdata pres_set_bdata pres_log_write pres_iput pres_iunlockput : pres.

Lemma wlp_modfile f g (Q : unit → fsys → Prop) s :
  (∀ x, d_files s !! f = Some x → Q tt (s <| d_files ::= <[f := g x]> |>)) → wlp (modfile f g) Q s.
Proof. intros HQ. unfold modfile, getfile. wlp_steps. auto. Qed.
Lemma wlp_getfile f (Q : file → fsys → Prop) s : (∀ x, d_files s !! f = Some x → Q x s) → wlp (getfile f) Q s.
Proof. intros HQ. unfold getfile. wlp_steps. auto. Qed.

(** ** Directories and files *)

Section files.
Context (devread : Z → option (nat → Z → M fsys (Z * list Z))).
Context (devwrite : Z → option (nat → list Z → M fsys Z)).
Context (Hread : ∀ d f i n, devread d = Some f → pres same_refs (f i n)).
Context (Hwrite : ∀ d f i l, devwrite d = Some f → pres same_refs (f i l)).
Abbreviation P := (pres same_refs).

Lemma pres_readi i off n : P (readi devread i off n).
Proof using Hread.
  unfold readi. apply pres_bind; [apply _|auto with pres|]. intros ip. destruct (dev_entry devread (i_major ip)) eqn:E; pres_auto.
  unfold dev_entry in E. case_match; [done|]. by eapply Hread.
Qed.
Lemma pres_writei i l off : P (writei devwrite i l off).
Proof using Hwrite.
  unfold writei. apply pres_bind; [apply _|auto with pres|]. intros ip. destruct (dev_entry devwrite (i_major ip)) eqn:E; pres_auto.
  unfold dev_entry in E. case_match; [done|]. by eapply Hwrite.
Qed.
#[local] Hint Resolve pres_readi pres_writei : pres.
Lemma pres_dirlookup dp name : P (dirlookup devread dp name).
Proof using Hread. unfold dirlookup, read_dirent. pres_auto. Qed.
#[local] Hint Resolve pres_dirlookup : pres.
Lemma pres_dirlink dp name inum : P (dirlink devread devwrite dp name inum).
Proof using Hread Hwrite. unfold dirlink, read_dirent. pres_auto. Qed.
Lemma pres_namex cwd path b : P (namex devread cwd path b).
Proof using Hread. unfold namex. pres_auto. Qed.
#[local] Hint Resolve pres_dirlink pres_namex : pres.
Lemma pres_namei cwd path : P (namei devread cwd path).
Proof using Hread. unfold namei. pres_auto. Qed.
Lemma pres_nameiparent cwd path : P (nameiparent devread cwd path).
Proof using Hread. unfold nameiparent. pres_auto. Qed.
#[local] Hint Resolve pres_namei pres_nameiparent : pres.
Lemma pres_ialloc dev ty : P (ialloc dev ty).
Proof using. unfold ialloc. pres_auto. Qed.
#[local] Hint Resolve pres_ialloc : pres.
Lemma pres_create cwd path ty ma mi : P (create devread devwrite cwd path ty ma mi).
Proof using Hread Hwrite. unfold create. pres_auto. Qed.
Lemma pres_unlink cwd path : P (unlink devread devwrite cwd path).
Proof using Hread Hwrite. unfold unlink, isdirempty, read_dirent. pres_auto. Qed.
Lemma pres_link cwd old new : P (Sysfile.link devread devwrite cwd old new).
Proof using Hread Hwrite. unfold Sysfile.link. pres_auto. Qed.
#[local] Hint Resolve pres_create : pres.
Lemma pres_open_inode cwd path omode : P (Sysfile.open_inode devread devwrite cwd path omode).
Proof using Hread Hwrite. unfold Sysfile.open_inode. pres_auto. Qed.

(** Files keep their counts when their other fields change. *)
Lemma pres_modfile f g : (∀ x, f_ref (g x) = f_ref x) → P (modfile f g).
Proof using.
  intros Hg s. apply wlp_modfile. intros x Hx. unfold same_refs, frefs. simpl. rewrite list_fmap_insert, Hg, list_insert_id; [done|].
  by rewrite list_lookup_fmap, Hx.
Qed.
End files.

(** ** Pipes and files *)

Lemma pres_getfile f : pres same_refs (getfile f).
Proof. unfold getfile. pres_auto. Qed.
Lemma pres_getpipe p : pres same_refs (getpipe p).
Proof. unfold getpipe. pres_auto. Qed.
#[export] Hint Resolve pres_getfile pres_getpipe : pres.
Lemma pres_modpipe p f : pres same_refs (modpipe p f).
Proof. unfold modpipe. pres_auto. Qed.
#[export] Hint Resolve pres_modpipe : pres.
Lemma pres_acquire_pipe p : pres same_refs (acquire_pipe p).
Proof. unfold acquire_pipe. pres_auto. Qed.
Lemma pres_release_pipe p : pres same_refs (release_pipe p).
Proof. unfold release_pipe. pres_auto. Qed.
#[export] Hint Resolve pres_acquire_pipe pres_release_pipe : pres.
Lemma pres_pipeclose p w : pres same_refs (pipeclose p w).
Proof. unfold pipeclose. pres_locks. Qed.
Lemma pres_pipewrite p k l : pres same_refs (pipewrite p k l).
Proof.
  unfold pipewrite. assert (pres same_refs (pipewrite_loop p k l)) by (induction l as [|c l IH]; simpl; pres_locks). pres_locks.
Qed.
Lemma pres_piperead p k n : pres same_refs (piperead p k n).
Proof.
  unfold piperead. assert (∀ n, pres same_refs (piperead_loop n p)) by (intros n'; induction n' as [|n' IH]; simpl; pres_auto). pres_locks.
Qed.
#[export] Hint Resolve pres_pipeclose pres_pipewrite pres_piperead : pres.
#[export] Hint Extern 3 (pres same_refs (modfile _ _)) => apply pres_modfile; intros; reflexivity : pres.

Lemma pres_filestat f : pres same_refs (filestat f).
Proof. unfold filestat, stati. pres_auto. Qed.
#[export] Hint Resolve pres_filestat : pres.

Lemma wlp_pres {A} (R : relation fsys) (m : M fsys A) (Q : A → fsys → Prop) s : pres R m → (∀ a s', R s s' → Q a s') → wlp m Q s.
Proof. intros Hm HQ. eapply wlp_mono; [apply Hm|]. intros a s'. apply HQ. Qed.

Lemma find_file_free l i f : find_file l i = Some f → ∃ x, (i ≤ f)%nat ∧ l !! (f - i)%nat = Some x ∧ f_ref x = 0.
Proof.
  revert i. induction l as [|y l IH]; intros i; simpl; [done|]. destruct (Z.eqb_spec (f_ref y) 0) as [H0|_].
  - intros [= <-]. exists y. rewrite Nat.sub_diag. done.
  - intros (x & Hle & Hx & Hr)%IH. exists x. split; [lia|]. replace (f - i)%nat with (S (f - S i)) by lia. done.
Qed.

Lemma filealloc_refs s :
  wlp filealloc (λ r s', match r with
    | Some f => frefs s !! f = Some 0 ∧ frefs s' = <[f := 1]> (frefs s)
    | None => frefs s' = frefs s
    end) s.
Proof.
  unfold filealloc. apply wlp_bind, (wlp_pres same_refs); [by pres_locks|]. intros _ s1 H1. apply wlp_bind, wlp_gets.
  destruct (find_file (d_files s1) 0) as [f|] eqn:Ef.
  - apply find_file_free in Ef as (x & _ & Hx & Hr). rewrite Nat.sub_0_r in Hx. apply wlp_bind, wlp_modfile. intros y Hy. rewrite Hx in Hy. injection Hy as <-.
    apply wlp_bind, (wlp_pres same_refs); [by pres_locks|]. intros _ s2 H2. apply wlp_ret. rewrite H2, <-H1. unfold frefs. simpl. rewrite list_fmap_insert. split; [|done].
    by rewrite list_lookup_fmap, Hx; simpl; rewrite Hr.
  - apply wlp_bind, (wlp_pres same_refs); [by pres_locks|]. intros _ s2 H2. apply wlp_ret. by rewrite H2.
Qed.

Lemma filedup_refs f s : wlp (filedup f) (λ r s', ∃ n, frefs s !! f = Some n ∧ 1 ≤ n ∧ frefs s' = <[f := n + 1]> (frefs s)) s.
Proof.
  unfold filedup. apply wlp_bind, (wlp_pres same_refs); [by pres_locks|]. intros _ s1 H1. apply wlp_bind, wlp_getfile. intros x Hx.
  destruct (Z.ltb_spec (f_ref x) 1); [apply wlp_panic|]. apply wlp_bind, wlp_modfile. intros y Hy. rewrite Hx in Hy. injection Hy as <-.
  apply wlp_bind, (wlp_pres same_refs); [by pres_locks|]. intros _ s2 H2. apply wlp_ret. exists (f_ref x). rewrite H2, <-H1. unfold frefs. simpl.
  rewrite list_lookup_fmap, Hx, list_fmap_insert. done.
Qed.

Lemma fileclose_refs f s : wlp (fileclose f) (λ _ s', ∃ n, frefs s !! f = Some n ∧ 1 ≤ n ∧ frefs s' = <[f := n - 1]> (frefs s)) s.
Proof.
  unfold fileclose. apply wlp_bind, (wlp_pres same_refs); [by pres_locks|]. intros _ s1 H1. apply wlp_bind, wlp_getfile. intros x Hx.
  destruct (Z.ltb_spec (f_ref x) 1); [apply wlp_panic|]. apply wlp_bind, wlp_modfile. intros y Hy. rewrite Hx in Hy. injection Hy as <-.
  apply wlp_bind, wlp_getfile. intros ff Hff. simpl in Hff. rewrite list_lookup_insert_eq in Hff by (by eapply lookup_lt_Some). injection Hff as <-.
  assert (frefs s !! f = Some (f_ref x)) as Hr by (rewrite <-H1; unfold frefs; by rewrite list_lookup_fmap, Hx).
  assert (frefs (s1 <| d_files ::= <[f := x <| f_ref ::= λ n, n - 1 |>]> |>) = <[f := f_ref x - 1]> (frefs s)) as E1 by (rewrite <-H1; unfold frefs; simpl; by rewrite list_fmap_insert).
  destruct (Z.ltb_spec 0 (f_ref (x <| f_ref ::= λ n, n - 1 |>))) as [_|Hle]; simpl in *.
  - apply (wlp_pres same_refs); [by pres_locks|]. intros _ s2 H2. exists (f_ref x). by rewrite H2.
  - apply wlp_bind, wlp_modfile. intros y Hy. simpl in Hy. rewrite list_lookup_insert_eq in Hy by (by eapply lookup_lt_Some). injection Hy as <-.
    apply (wlp_pres same_refs); [by pres_locks|]. intros _ s2 H2. exists (f_ref x). split; [done|]. split; [done|]. rewrite H2, <-E1. unfold frefs. simpl.
    rewrite list_insert_insert_eq, !list_fmap_insert. simpl. do 2 f_equal. lia.
Qed.

(** The pipe's files: two new ones, or none. *)
Lemma pipealloc_refs page s :
  wlp (pipealloc page) (λ r s', match r with
    | Some (f0, f1) => frefs s !! f0 = Some 0 ∧ frefs s !! f1 = Some 0 ∧ f0 ≠ f1 ∧ frefs s' = <[f1 := 1]> (<[f0 := 1]> (frefs s))
    | None => frefs s' = frefs s
    end) s.
Proof.
  unfold pipealloc. apply wlp_bind. eapply wlp_mono; [apply filealloc_refs|]. intros [f0|] s1; [|intros H1; by apply wlp_ret].
  intros [F0 H1]. pose proof (lookup_lt_Some _ _ _ F0) as L0. apply wlp_bind. eapply wlp_mono; [apply filealloc_refs|]. intros [f1|] s2.
  - intros [F1 H2]. rewrite H1 in F1, H2. destruct (decide (f1 = f0)) as [->|Hne]; [by rewrite list_lookup_insert_eq in F1|]. rewrite list_lookup_insert_ne in F1 by done.
    case_match.
    + apply wlp_bind. eapply wlp_mono; [apply fileclose_refs|]. intros _ s3 (n & N1 & _ & H3). apply wlp_bind. eapply wlp_mono; [apply fileclose_refs|].
      intros _ s4 (k & K1 & _ & H4). apply wlp_ret. rewrite H4, H3, H2 in *. rewrite list_lookup_insert_ne, list_lookup_insert_eq in N1 by done. injection N1 as <-.
      rewrite list_lookup_insert_ne, list_lookup_insert_eq in K1 by (rewrite ?length_insert; try done; by eapply lookup_lt_Some). injection K1 as <-.
      rewrite (list_insert_insert_ne _ f0 f1), !list_insert_insert_eq by done.
      change (1 - 1) with 0. by rewrite (list_insert_id _ f0), (list_insert_id _ f1) by done.
    + do 3 (apply wlp_bind, (wlp_pres same_refs); [by pres_auto|]; intros ? ? ?). apply wlp_ret. split_and!; try done. congruence.
  - intros H2. apply wlp_bind. eapply wlp_mono; [apply fileclose_refs|]. intros _ s3 (n & N1 & _ & H3). apply wlp_ret.
    rewrite H3, H2, H1 in *. rewrite list_lookup_insert_eq in N1 by done. injection N1 as <-. rewrite list_insert_insert_eq. by apply list_insert_id.
Qed.
