(* ===== verification/SysfileProps.v ===== *)
(** File descriptors and open files.

    The reference count of an open file is the number of descriptors that name
    it, in the tables of all processes, and of the references that swap files
    are ([ex]).  Every call of sysfile.c but exec keeps it so. *)

From S2P Require Import Prelude Memory Machine Kalloc Swap Vm Proc Sched Paging Trap Exec Disk Log Fs File Boot Sysfile FileRefs.
From stdpp Require Import options.
Import Swap Vm Proc Trap Exec Sysfile.

(** ** Counting descriptors *)

Implicit Types T : list (list (option Z)).
Implicit Types R : list Z.

Definition is_fd (f : nat) (o : option Z) : Z := if decide (o = Some (to_ptr f)) then 1 else 0.
Definition fdcount T (f : nat) : Z := zsum (zsum (is_fd f)) T.

Lemma fdcount_insert T i t j o o' f :
  T !! i = Some t → t !! j = Some o → fdcount (<[i := <[j := o']> t]> T) f = fdcount T f - is_fd f o + is_fd f o'.
Proof. intros Hi Hj. unfold fdcount. rewrite (zsum_insert _ _ _ t), (zsum_insert _ _ _ o) by done. lia. Qed.
Lemma is_fd_other f g : f ≠ g → is_fd f (Some (to_ptr g)) = 0.
Proof. intros Hne. unfold is_fd. rewrite decide_False; [done|]. unfold to_ptr. intros [= H]. lia. Qed.
Lemma is_fd_self f : is_fd f (Some (to_ptr f)) = 1.
Proof. unfold is_fd. by rewrite decide_True. Qed.

(** The counts [R] are those of the tables [T] and of [ex]. *)
Record counted (ex : nat → Z) R T : Prop := {
  co_ref f n : R !! f = Some n → n = fdcount T f + ex f;
  co_valid t z : t ∈ T → Some z ∈ t → 0 ≤ z ∧ (Z.to_nat z < length R)%nat;
}.

Lemma counted_fd ex R T i t j z :
  counted ex R T → T !! i = Some t → t !! j = Some (Some z) → ∃ n, z = to_ptr (Z.to_nat z) ∧ R !! Z.to_nat z = Some n.
Proof.
  intros C Hi Hj. destruct (co_valid _ _ _ C t z) as [Hz Hl]; [by eapply list_elem_of_lookup_2..|]. destruct (lookup_lt_is_Some_2 _ _ Hl) as [n Hn].
  exists n. split; [unfold to_ptr; lia|done].
Qed.

Lemma valid_insert T i t j o (P : Z → Prop) :
  T !! i = Some t → (∀ t z, t ∈ T → Some z ∈ t → P z) → (∀ z, o = Some z → P z) → ∀ t' z, t' ∈ <[i := <[j := o]> t]> T → Some z ∈ t' → P z.
Proof.
  intros Hi HT Ho t' z [k Hk]%list_elem_of_lookup [l Hl]%list_elem_of_lookup. apply list_lookup_insert_Some in Hk as [(-> & <- & _)|[_ Hk]].
  - apply list_lookup_insert_Some in Hl as [(_ & -> & _)|[_ Hl]]; [by apply Ho|]. apply (HT t); by eapply list_elem_of_lookup_2.
  - apply (HT t'); by eapply list_elem_of_lookup_2.
Qed.

Lemma counted_open ex R T i t j f n :
  counted ex R T → T !! i = Some t → t !! j = Some None → R !! f = Some n → counted ex (<[f := n + 1]> R) (<[i := <[j := Some (to_ptr f)]> t]> T).
Proof.
  intros [C1 C2] Hi Hj Hf. split.
  - intros g k Hg. rewrite (fdcount_insert T i t j None) by done. change (is_fd g None) with 0.
    apply list_lookup_insert_Some in Hg as [(-> & <- & _)|[Hne Hg]]; [rewrite is_fd_self, (C1 g n Hf)|rewrite is_fd_other, (C1 g k Hg) by done]; lia.
  - rewrite length_insert. apply (valid_insert T i t j _ (λ z, 0 ≤ z ∧ (Z.to_nat z < length R)%nat) Hi C2). intros z [= <-]. unfold to_ptr.
    rewrite Nat2Z.id. split; [lia|]. by eapply lookup_lt_Some.
Qed.
Lemma counted_close ex R T i t j f n :
  counted ex R T → T !! i = Some t → t !! j = Some (Some (to_ptr f)) → R !! f = Some n → counted ex (<[f := n - 1]> R) (<[i := <[j := None]> t]> T).
Proof.
  intros [C1 C2] Hi Hj Hf. split.
  - intros g k Hg. rewrite (fdcount_insert T i t j (Some (to_ptr f))) by done. change (is_fd g None) with 0.
    apply list_lookup_insert_Some in Hg as [(-> & <- & _)|[Hne Hg]]; [rewrite is_fd_self, (C1 g n Hf)|rewrite is_fd_other, (C1 g k Hg) by done]; lia.
  - rewrite length_insert. by apply (valid_insert T i t j _ (λ z, 0 ≤ z ∧ (Z.to_nat z < length R)%nat) Hi C2).
Qed.

(** ** What the calls do to them *)

Definition tables (s : kst fsys) : list (list (option Z)) := p_ofile <$> k_procs s.
Definition fds (s : kst fsys) := (frefs (k_fs s), tables s, k_cur s).
Definition same_fds (s s' : kst fsys) : Prop := fds s' = fds s.
#[global] Instance same_fds_pre : PreOrder same_fds.
Proof. split; [done|]. unfold same_fds. intros x y z. congruence. Qed.

#[export] Hint Extern 3 (pres same_fds (modify _)) => apply pres_modify; [apply _|intros; unfold same_fds; repeat case_match; reflexivity] : pres.
Lemma pres_fs_call_fds {A} (m : M fsys A) : pres same_refs m → pres same_fds (fs_call m).
Proof. intros Hm s. specialize (Hm (k_fs s)). unfold wlp, fs_call in *. destruct (m (k_fs s)); try done. unfold same_fds, fds. simpl. by rewrite Hm. Qed.
Lemma pres_modp_fds i f : (∀ p, p_ofile (f p) = p_ofile p) → pres same_fds (modp i f).
Proof.
  intros Hf s. apply wlp_modp. intros p Hp. unfold same_fds, fds, tables. simpl. rewrite list_fmap_insert, Hf, list_insert_id; [done|]. by rewrite list_lookup_fmap, Hp.
Qed.
#[export] Hint Extern 3 (pres same_fds (fs_call _)) => apply pres_fs_call_fds; solve [auto 3 with pres] : pres.
#[export] Hint Extern 3 (pres same_fds (modp _ _)) => apply pres_modp_fds; intros; reflexivity : pres.

Section calls.
Context (SELECTION : policy).
Context (devread : Z → option (nat → Z → M fsys (Z * list Z))).
Context (devwrite : Z → option (nat → list Z → M fsys Z)).
Context (kend kdata : Z).
Context (Hread : ∀ d f i n, devread d = Some f → pres same_refs (f i n)).
Context (Hwrite : ∀ d f i l, devwrite d = Some f → pres same_refs (f i l)).
#[local] Instance dev_FileSys : FileSys fsys := fsys_FileSys devread devwrite.
Abbreviation P := (pres same_fds).

Lemma fds_myproc : P myproc.
Proof using. unfold myproc. pres_auto. Qed.
Lemma fds_getp i : P (getp i).
Proof using. unfold getp. pres_auto. Qed.
#[local] Hint Resolve fds_myproc fds_getp : pres.
Lemma fds_kernel_fault va : P (kernel_fault SELECTION kend va).
Proof using. eapply pres_ext; [apply kernel_fault_eq|]. unfold trap_unexpected, printQueue, cprintf. pres_auto. Qed.
#[local] Hint Resolve fds_kernel_fault : pres.
Lemma fds_vload8 va : P (vload8 SELECTION kend va).
Proof using. unfold vload8, my_pgdir. pres_auto. Qed.
#[local] Hint Resolve fds_vload8 : pres.
Lemma fds_fetchint a : P (fetchint SELECTION kend a).
Proof using. unfold fetchint, my_sz, vload32. pres_auto. Qed.
#[local] Hint Resolve fds_fetchint : pres.
Lemma fds_argint n : P (argint SELECTION kend n).
Proof using. unfold argint. pres_auto. Qed.
#[local] Hint Resolve fds_argint : pres.
Lemma fds_argptr n size : P (argptr SELECTION kend n size).
Proof using. unfold argptr, my_sz. pres_auto. Qed.
Lemma fds_argpath n : P (argpath SELECTION devread devwrite kend n).
Proof using.
  assert (∀ k va, P (vload SELECTION devread devwrite kend k va)) by (intros k; induction k as [|k IH]; intros va; simpl; pres_auto).
  unfold argpath, argstr, fetchstr, my_sz. pres_auto.
Qed.
Lemma fds_vstore va bs : P (vstore SELECTION devread devwrite kend va bs).
Proof using. revert va. induction bs as [|b bs IH]; intros va; simpl; pres_auto. unfold vstore8, my_pgdir. pres_auto. Qed.
Lemma fds_argfd n : P (argfd SELECTION devread devwrite kend n).
Proof using. unfold argfd. pres_auto. Qed.
#[local] Hint Resolve fds_argptr fds_argpath fds_vstore fds_argfd : pres.
Lemma fds_rwargs : P (rwargs SELECTION devread devwrite kend).
Proof using. unfold rwargs. pres_auto. Qed.
Lemma fds_my_killed : P my_killed.
Proof using. unfold my_killed. pres_auto. Qed.
Lemma fds_my_cwd : P my_cwd.
Proof using. unfold my_cwd. pres_auto. Qed.
#[local] Hint Resolve fds_rwargs fds_my_killed fds_my_cwd : pres.
#[local] Hint Resolve pres_readi pres_writei pres_namei pres_create pres_unlink pres_link pres_open_inode : pres.

Lemma pres_fileread k f n : pres same_refs (fileread devread k f n).
Proof using Hread. unfold fileread. pres_auto. Qed.
Lemma pres_filewrite k f l : pres same_refs (filewrite devwrite k f l).
Proof using Hwrite. unfold filewrite. pres_auto. Qed.
Lemma pres_created i : pres same_refs (created i).
Proof using. unfold created. pres_auto. Qed.
#[local] Hint Resolve pres_fileread pres_filewrite pres_created : pres.

(** The calls that do not open or close a file. *)
Lemma fds_read : P (sys_read SELECTION devread devwrite kend).
Proof using Hread. unfold sys_read. pres_auto. Qed.
Lemma fds_write : P (sys_write SELECTION devread devwrite kend).
Proof using Hwrite. unfold sys_write, my_pgdir. pres_auto. Qed.
Lemma fds_fstat : P (sys_fstat SELECTION devread devwrite kend).
Proof using. unfold sys_fstat, put_stat. pres_auto. Qed.
Lemma fds_link : P (sys_link SELECTION devread devwrite kend).
Proof using Hread Hwrite. unfold sys_link. pres_auto. Qed.
Lemma fds_unlink : P (sys_unlink SELECTION devread devwrite kend).
Proof using Hread Hwrite. unfold sys_unlink. pres_auto. Qed.
Lemma fds_mkdir : P (sys_mkdir SELECTION devread devwrite kend).
Proof using Hread Hwrite. unfold sys_mkdir. pres_auto. Qed.
Lemma fds_mknod : P (sys_mknod SELECTION devread devwrite kend).
Proof using Hread Hwrite. unfold sys_mknod. pres_auto. Qed.
Lemma fds_chdir : P (sys_chdir SELECTION devread devwrite kend).
Proof using Hread. unfold sys_chdir. pres_auto. Qed.

(** ** The calls that open and close files *)

(** What is kept, with the counts and tables as arguments. *)
Definition keeps (ex : nat → Z) (s : kst fsys) : Prop := counted ex (frefs (k_fs s)) (tables s).

Lemma keeps_same ex s s' : same_fds s s' → keeps ex s → keeps ex s'.
Proof using. unfold same_fds, fds, keeps. by intros [= -> -> _]. Qed.
Lemma wlp_same {A} (m : M (kst fsys) A) (Q : A → kst fsys → Prop) s :
  P m → (∀ a s', same_fds s s' → Q a s') → wlp m Q s.
Proof using. intros Hm HQ. eapply wlp_mono; [apply Hm|]. intros a s'. apply HQ. Qed.
Lemma wlp_fs_call {A} (m : M fsys A) (Q : A → kst fsys → Prop) s :
  wlp m (λ a d, Q a (s <| k_fs := d |>)) (k_fs s) → wlp (fs_call m) Q s.
Proof using. unfold wlp, fs_call. by destruct (m (k_fs s)). Qed.

(** The descriptor and the file that [argfd] gives are in the table. *)
Lemma argfd_spec n s :
  wlp (argfd SELECTION devread devwrite kend n) (λ r s', same_fds s s' ∧ match r with
    | Some (fd, f) => ∃ i t, 0 ≤ fd ∧ k_cur s = Some i ∧ tables s !! i = Some t ∧ t !! Z.to_nat fd = Some (Some f)
    | None => True
    end) s.
Proof using.
  unfold argfd. apply wlp_bind, wlp_same; [by auto with pres|]. intros [fd|] s1 H1; [|by apply wlp_ret]. case_match; [by apply wlp_ret|].
  apply wlp_bind, wlp_myproc. intros i Hi. apply wlp_bind, wlp_getp. intros p Hp. apply wlp_bind, wlp_of_option. intros o Ho. apply wlp_ret. split; [done|].
  destruct o as [f|]; [|done]. pose proof H1 as [= E1 E2 E3]. unfold aget in Ho. destruct (Z.ltb_spec fd 0); [done|]. exists i, (p_ofile p). rewrite <-E3, <-E2.
  split_and!; [done|done| |done]. unfold tables. by rewrite list_lookup_fmap, Hp.
Qed.

Lemma find_fd_none (l : list (option Z)) k fd : find_fd l k = Some fd → (k ≤ fd)%nat ∧ l !! (fd - k)%nat = Some None.
Proof using.
  revert k. induction l as [|[z|] l IH]; intros k; simpl; [done| |].
  - intros [Hle Hl]%IH. split; [lia|]. by replace (fd - k)%nat with (S (fd - S k)) by lia.
  - intros [= <-]. rewrite Nat.sub_diag. done.
Qed.

(** The tables after [ofile[fd] = o]. *)
Lemma set_fd_tables s i p fd o :
  k_procs s !! i = Some p → tables (s <| k_procs ::= <[i := p <| p_ofile ::= <[fd := o]> |>]> |>) = <[i := <[fd := o]> (p_ofile p)]> (tables s).
Proof using. intros Hp. unfold tables. simpl. by rewrite list_fmap_insert. Qed.

Lemma fdalloc_spec f s :
  wlp (fdalloc f) (λ r s', frefs (k_fs s') = frefs (k_fs s) ∧ k_cur s' = k_cur s ∧ match r with
    | Some fd => ∃ i t j, fd = Z.of_nat j ∧ k_cur s = Some i ∧ tables s !! i = Some t ∧ t !! j = Some None ∧ tables s' = <[i := <[j := Some f]> t]> (tables s)
    | None => tables s' = tables s
    end) s.
Proof using.
  unfold fdalloc. apply wlp_bind, wlp_myproc. intros i Hi. apply wlp_bind, wlp_getp. intros p Hp. destruct (find_fd (p_ofile p) 0) as [fd|] eqn:E; [|by apply wlp_ret].
  apply find_fd_none in E as [_ E]. rewrite Nat.sub_0_r in E. apply wlp_bind, wlp_modp. intros q Hq. rewrite Hp in Hq. injection Hq as <-. apply wlp_ret.
  split; [done|]. split; [done|]. exists i, (p_ofile p), fd. split_and!; [done|done| |done|by apply set_fd_tables]. unfold tables. by rewrite list_lookup_fmap, Hp.
Qed.

Lemma fds_kfree_all l : P (kfree_all kend l).
Proof using. induction l as [|v l IH]; simpl; pres_auto. unfold Kalloc.kfree, Kalloc.inc_free_pages, acquire, release, ld32, st32. pres_auto. Qed.
Lemma kfileclose_spec f s :
  wlp (kfileclose kend f) (λ _ s', tables s' = tables s ∧ k_cur s' = k_cur s ∧
    ∃ n, frefs (k_fs s) !! Z.to_nat f = Some n ∧ frefs (k_fs s') = <[Z.to_nat f := n - 1]> (frefs (k_fs s))) s.
Proof using.
  unfold kfileclose. apply wlp_bind, wlp_fs_call. eapply wlp_mono; [apply fileclose_refs|]. intros _ d (n & Hn & _ & Hd). apply wlp_bind, wlp_gets, wlp_bind, wlp_modify.
  apply wlp_same; [apply fds_kfree_all|]. intros _ s' [= E1 E2 E3]. rewrite E1, E2, E3. split; [done|]. split; [done|]. exists n. split; [done|exact Hd].
Qed.

(** A new file gets a descriptor: counts [R] with [f] free before. *)
Lemma counted_new ex R T i t j f :
  counted ex R T → T !! i = Some t → t !! j = Some None → R !! f = Some 0 → counted ex (<[f := 1]> R) (<[i := <[j := Some (to_ptr f)]> t]> T).
Proof using. apply (counted_open ex R T i t j f 0). Qed.

Lemma dup_keeps ex s : keeps ex s → wlp (sys_dup SELECTION devread devwrite kend) (λ _ s', keeps ex s') s.
Proof using.
  intros K. unfold sys_dup. apply wlp_bind. eapply wlp_mono; [apply argfd_spec|]. intros [[fd f]|] s1 [H1 Hf]; [|by apply wlp_ret, (keeps_same ex s)].
  pose proof (keeps_same ex s s1 H1 K) as K1. destruct Hf as (i & t & _ & Hc & Ht & Hfd). pose proof H1 as [= E1 E2 E3].
  destruct (counted_fd ex _ _ i t _ f K Ht Hfd) as (n & Hfp & Hn). rewrite <-E1 in Hn.
  apply wlp_bind. eapply wlp_mono; [apply fdalloc_spec|]. intros [k|] s2 (D1 & D2 & D3).
  - apply wlp_bind, wlp_fs_call. eapply wlp_mono; [apply filedup_refs|]. intros _ d (m & Hm & _ & Hd). apply wlp_ret. destruct D3 as (i' & t' & j & _ & _ & Ht' & Hj & HT).
    unfold keeps. change (tables (s2 <| k_fs := d |>)) with (tables s2). change (k_fs (s2 <| k_fs := d |>)) with d. rewrite HT, Hd. rewrite D1 in Hm |- *. rewrite Hfp at 2.
    by apply counted_open.
  - apply wlp_ret. unfold keeps. by rewrite D1, D3.
Qed.

Lemma close_keeps ex s : keeps ex s → wlp (sys_close SELECTION devread devwrite kend) (λ _ s', keeps ex s') s.
Proof using.
  intros K. unfold sys_close. apply wlp_bind. eapply wlp_mono; [apply argfd_spec|]. intros [[fd f]|] s1 [H1 Hf]; [|by apply wlp_ret, (keeps_same ex s)].
  destruct Hf as (i & t & Hpos & Hc & Ht & Hfd). destruct (counted_fd ex _ _ i t _ f K Ht Hfd) as (n & Hfp & Hn). pose proof H1 as [= E1 E2 E3].
  apply wlp_bind, wlp_myproc. intros i' Hi'. rewrite E3, Hc in Hi'. injection Hi' as <-. apply wlp_bind, wlp_modp. intros p Hp.
  assert (p_ofile p = t) as Hpt by (rewrite <-E2 in Ht; unfold tables in Ht; rewrite list_lookup_fmap, Hp in Ht; by injection Ht).
  apply wlp_bind. eapply wlp_mono; [apply kfileclose_spec|]. intros _ s3 (T3 & _ & m & Hm & R3). apply wlp_ret. unfold keeps. simpl in Hm, R3. rewrite E1 in Hm, R3. rewrite R3, T3.
  unfold aset. destruct (Z.ltb_spec fd 0); [lia|]. rewrite set_fd_tables, E2, Hpt by done. apply counted_close; [done|done| |done]. by rewrite <-Hfp.
Qed.

Lemma fail_keeps ex s i : keeps ex s → wlp (fs_call (iunlockput i) ;; fs_call end_op ;; ret (-1)) (λ _ s', keeps ex s') s.
Proof using.
  intros K. apply wlp_bind, wlp_same; [by auto with pres|]. intros _ s1 H1. apply wlp_bind, wlp_same; [by auto with pres|]. intros _ s2 H2.
  apply wlp_ret. by apply (keeps_same ex s1), (keeps_same ex s).
Qed.

Lemma open_keeps ex s : keeps ex s → wlp (sys_open SELECTION devread devwrite kend) (λ _ s', keeps ex s') s.
Proof using Hread Hwrite.
  intros K. unfold sys_open. apply wlp_bind, wlp_same; [by auto with pres|]. intros [path|] s1 H1; [|by apply wlp_ret, (keeps_same ex s)].
  apply (keeps_same ex s s1) in K; [|done]. clear H1. apply wlp_bind, wlp_same; [by auto with pres|]. intros [omode|] s2 H2; [|by apply wlp_ret, (keeps_same ex s1)].
  apply (keeps_same ex s1 s2) in K; [|done]. clear H2. apply wlp_bind, wlp_same; [by auto with pres|]. intros cwd s3 H3. apply (keeps_same ex s2 s3) in K; [|done]. clear H3.
  apply wlp_bind, wlp_same; [by auto with pres|]. intros _ s4 H4. apply (keeps_same ex s3 s4) in K; [|done]. clear H4.
  apply wlp_bind, wlp_same; [by auto with pres|]. intros [i|] s5 H5; apply (keeps_same ex s4 s5) in K; [|done| |done]; clear H5.
  2: { apply wlp_bind, wlp_same; [by auto with pres|]. intros _ s6 H6. by apply wlp_ret, (keeps_same ex s5). }
  apply wlp_bind, wlp_fs_call. eapply wlp_mono; [apply filealloc_refs|]. intros [f|] d.
  2: { intros Hd. apply fail_keeps. unfold keeps. change (k_fs (s5 <| k_fs := d |>)) with d. by rewrite Hd. }
  intros [Hf Hd]. apply wlp_bind. eapply wlp_mono; [apply fdalloc_spec|]. intros [fd|] s6 (D1 & D2 & D3);
    change (k_fs (s5 <| k_fs := d |>)) with d in D1; rewrite Hd in D1; change (tables (s5 <| k_fs := d |>)) with (tables s5) in D3.
  - destruct D3 as (c & t & j & _ & _ & Ht & Hj & HT).
    assert (keeps ex s6) as K6 by (unfold keeps; rewrite D1, HT; by apply counted_new).
    apply wlp_bind, wlp_same; [by auto with pres|]. intros _ s7 H7. apply wlp_bind, wlp_same; [by auto with pres|]. intros _ s8 H8.
    apply wlp_bind, wlp_same; [by auto with pres|]. intros _ s9 H9. apply wlp_ret. by apply (keeps_same ex s8), (keeps_same ex s7), (keeps_same ex s6).
  - apply wlp_bind. eapply wlp_mono; [apply kfileclose_spec|]. intros _ s7 (T7 & _ & n & Hn & R7). apply fail_keeps. unfold keeps. rewrite R7, T7, D3.
    unfold to_ptr in *. rewrite Nat2Z.id in *. rewrite D1 in *. rewrite list_lookup_insert_eq in Hn by (by eapply lookup_lt_Some). injection Hn as <-.
    rewrite list_insert_insert_eq. change (1 - 1) with 0. by rewrite list_insert_id.
Qed.

(** [fileclose] of two files that nothing names yet. *)
Lemma pipe_fail_keeps ex s R rf wf :
  frefs (k_fs s) = <[wf := 1]> (<[rf := 1]> R) → R !! rf = Some 0 → R !! wf = Some 0 → rf ≠ wf → counted ex R (tables s) →
  wlp (kfileclose kend (to_ptr rf) ;; kfileclose kend (to_ptr wf) ;; ret (-1)) (λ _ s', keeps ex s') s.
Proof using.
  intros HR Hrf Hwf Hne K. unfold to_ptr. apply wlp_bind. eapply wlp_mono; [apply kfileclose_spec|]. intros _ s1 (T1 & _ & n & Hn & R1). rewrite Nat2Z.id in Hn, R1.
  apply wlp_bind. eapply wlp_mono; [apply kfileclose_spec|]. intros _ s2 (T2 & _ & m & Hm & R2). rewrite Nat2Z.id in Hm, R2. apply wlp_ret.
  unfold keeps. rewrite R2, T2, T1, R1, HR in *. pose proof (lookup_lt_Some _ _ _ Hrf). pose proof (lookup_lt_Some _ _ _ Hwf).
  rewrite list_lookup_insert_ne, list_lookup_insert_eq in Hn by done. injection Hn as <-.
  rewrite list_lookup_insert_ne, list_lookup_insert_eq in Hm by (rewrite ?length_insert; done). injection Hm as <-.
  rewrite (list_insert_insert_ne _ rf wf), !list_insert_insert_eq by done. change (1 - 1) with 0. by rewrite (list_insert_id _ rf), (list_insert_id _ wf) by done.
Qed.

Lemma kpipealloc_spec s :
  wlp kpipealloc (λ r s', tables s' = tables s ∧ k_cur s' = k_cur s ∧ match r with
    | Some (f0, f1) => let R := frefs (k_fs s) in R !! f0 = Some 0 ∧ R !! f1 = Some 0 ∧ f0 ≠ f1 ∧ frefs (k_fs s') = <[f1 := 1]> (<[f0 := 1]> R)
    | None => frefs (k_fs s') = frefs (k_fs s)
    end) s.
Proof using.
  unfold kpipealloc. apply wlp_bind, wlp_gets, wlp_bind, wlp_same.
  { case_match; [|by pres_auto]. unfold Kalloc.kalloc, Kalloc.dec_free_pages, acquire, release, ld32. pres_auto. }
  intros page s1 [= E1 E2 E3]. apply wlp_fs_call. eapply wlp_mono; [apply pipealloc_refs|]. rewrite E1. intros r d H.
  change (tables (s1 <| k_fs := d |>)) with (tables s1). change (k_cur (s1 <| k_fs := d |>)) with (k_cur s1). rewrite E2, E3. by destruct r as [[f0 f1]|].
Qed.

Lemma pipe_keeps ex s : keeps ex s → wlp (sys_pipe SELECTION devread devwrite kend) (λ _ s', keeps ex s') s.
Proof using.
  intros K. unfold sys_pipe. apply wlp_bind, wlp_same; [by auto with pres|]. intros [va|] s1 H1; apply (keeps_same ex s s1) in K; [|done| |done]; clear H1; [|by apply wlp_ret].
  apply wlp_bind. eapply wlp_mono; [apply kpipealloc_spec|]. intros [[rf wf]|] s2 (T2 & C2 & H2); [|apply wlp_ret; unfold keeps; by rewrite H2, T2].
  destruct H2 as (Hrf & Hwf & Hne & R2). set (R := frefs (k_fs s1)) in *. apply wlp_bind, wlp_myproc. intros c Hc. apply wlp_bind. eapply wlp_mono; [apply fdalloc_spec|].
  intros [fd0|] s3 (R3 & C3 & T3).
  2: { apply (pipe_fail_keeps ex s3 R); [congruence|done|done|done|]. rewrite T3, T2. exact K. }
  destruct T3 as (c' & t & j & -> & Hc' & Ht & Hj & T3). rewrite Hc in Hc'. injection Hc' as <-. rewrite T2 in Ht, T3.
  apply wlp_bind. eapply wlp_mono; [apply fdalloc_spec|]. intros [fd1|] s4 (R4 & C4 & T4).
  - destruct T4 as (c'' & t' & j' & -> & _ & Ht' & Hj' & T4). apply wlp_bind, wlp_same; [by auto with pres|]. intros _ s5 H5.
    apply wlp_bind, wlp_same; [by auto with pres|]. intros _ s6 H6. apply wlp_ret. apply (keeps_same ex s5 s6 H6), (keeps_same ex s4 s5 H5).
    unfold keeps. rewrite T4, R4, R3, R2. rewrite T3 in Ht' |- *. apply counted_new; [by apply counted_new|done|done|]. by rewrite list_lookup_insert_ne.
  - apply wlp_bind, wlp_modp. intros p Hp. assert (p_ofile p = <[j := Some (to_ptr rf)]> t) as Hpt.
    { assert (tables s4 !! c = Some (p_ofile p)) as E by (unfold tables; by rewrite list_lookup_fmap, Hp). rewrite T4, T3, list_lookup_insert_eq in E by (by eapply lookup_lt_Some). by injection E. }
    apply (pipe_fail_keeps ex _ R); [simpl; congruence|done|done|done|]. unfold aset. destruct (Z.ltb_spec (Z.of_nat j) 0); [lia|]. rewrite Nat2Z.id.
    rewrite set_fd_tables, T4, T3, Hpt, !list_insert_insert_eq by done. rewrite (list_insert_id t), (list_insert_id (tables s1)) by done. exact K.
Qed.

(** C15: The file system calls keep the reference counts of open files. If the
    count of every open file is the number of descriptors of all processes
    that name it, and of the other references [ex] to it, and all descriptors
    name entries of the file table, then it is so after every call of sysfile.c
    but exec, on success and on every error path: no file that a descriptor
    names is ever free. *)
Theorem descriptors_counted ex s num call :
  num ≠ SYS_exec → sysfile SELECTION devread devwrite kend kdata num = Some call → keeps ex s → wlp call (λ _ s', keeps ex s') s.
Proof using Hread Hwrite.
  intros Hne Hcall K. assert (∀ m : M (kst fsys) Z, wlp m (λ _ s', keeps ex s') s → wlp (r <- m ;; ret (SysRet r)) (λ _ s', keeps ex s') s) as Hm.
  { intros m Hw. apply wlp_bind. eapply wlp_mono; [exact Hw|]. intros r s' K'. by apply wlp_ret. }
  assert (∀ m : M (kst fsys) Z, P m → wlp (r <- m ;; ret (SysRet r)) (λ _ s', keeps ex s') s) as Hs.
  { intros m Hp. apply Hm, wlp_same; [done|]. intros _ s' H. by apply (keeps_same ex s). }
  unfold sysfile in Hcall. repeat case_match; try discriminate Hcall; injection Hcall as <-.
  - by apply Hm, pipe_keeps.
  - by apply Hs, fds_read.
  - lia.
  - by apply Hs, fds_fstat.
  - by apply Hs, fds_chdir.
  - by apply Hm, dup_keeps.
  - by apply Hm, open_keeps.
  - by apply Hs, fds_write.
  - by apply Hs, fds_mknod.
  - by apply Hs, fds_unlink.
  - by apply Hs, fds_link.
  - by apply Hs, fds_mkdir.
  - by apply Hm, close_keeps.
Qed.
End calls.

Module SysfileExamples.
Import PagingExamples TrapExamples.

(** One process, with descriptor 0 open, that calls dup(0). *)
Definition ex_empty : list (list (option Z)) := replicate 64 (replicate 16 None).
Definition ex_disk : fsys := (power_on ∅) <| d_files ::= <[0%nat := file0 <| f_ref := 1 |>]> |>.
Definition ex_caller : proc := ex_proc <| p_ofile := <[0%nat := Some 0]> (replicate 16 None) |> <| p_tf := zero_trapframe <| tf_esp := 0x100 |> |>.
Definition ex_dup : kst fsys := (kst0 ex_disk) <| k_mem := ex_mem |> <| k_cur := Some 0%nat |> <| k_procs ::= <[0%nat := ex_caller]> |>.

Lemma zsum_replicate {A} (w : A → Z) n x : w x = 0 → zsum w (replicate n x) = 0.
Proof. intros H. induction n as [|n IH]; simpl; lia. Qed.

Lemma ex_keeps : keeps (λ _, 0) ex_dup.
Proof.
  assert (counted (λ _, 0) (replicate 100 0) ex_empty) as C.
  { split.
    - intros f n [-> _]%lookup_replicate. unfold fdcount, ex_empty. by rewrite !zsum_replicate.
    - intros t z [-> _]%elem_of_replicate [? _]%elem_of_replicate. done. }
  exact (counted_open _ _ _ 0 (replicate 16 None) 0 0 0 C eq_refl eq_refl eq_refl).
Qed.

Lemma descriptors_counted_witness :
  ∃ call s', sysfile SCFIFO (λ _, None) (λ _, None) 0x80100000 0x80108000 SYS_dup = Some call ∧ call ex_dup = Ok (SysRet 1) s' ∧ keeps (λ _, 0) s'.
Proof.
  eexists. assert (∃ s', (r <- sys_dup SCFIFO (λ _, None) (λ _, None) 0x80100000 ;; ret (SysRet r)) ex_dup = Ok (SysRet 1) s') as [s' E] by (eexists; vm_compute; reflexivity).
  exists s'. split; [reflexivity|]. split; [exact E|].
  pose proof (descriptors_counted SCFIFO (λ _, None) (λ _, None) 0x80100000 0x80108000 ltac:(done) ltac:(done) (λ _, 0) ex_dup SYS_dup _ ltac:(done) eq_refl ex_keeps) as H.
  unfold wlp in H. change (if SYS_dup =? SYS_pipe then _ else _) with (r <- sys_dup SCFIFO (λ _, None) (λ _, None) 0x80100000 ;; ret (SysRet r)) in H. rewrite E in H. exact H.
Defined.
End SysfileExamples.
