(* ===== verification/Mp.v ===== *)
(** Finding the processors: [src/mp.c] and the tables of [src/mp.h].

    The BIOS leaves a floating pointer structure and a configuration table in
    memory; [mpinit] reads the processors and the I/O interrupt controller from
    it.  The state is the memory and the variables that [mpinit] sets. *)

From S2P Require Import Prelude Memory Machine.
From stdpp Require Import options.

Definition NCPU := 8.
Definition MPPROC := 0.
Definition MPBUS := 1.
Definition MPIOAPIC := 2.
Definition MPIOINTR := 3.
Definition MPLINTR := 4.

Definition sizeof_mp := 16.
Definition sizeof_mpconf := 44.
Definition sizeof_mpproc := 20.
Definition sizeof_mpioapic := 8.

(** The fields of the structures. *)
Definition mp_physaddr (m : memory) (mp : Z) : Z := load32 m (mp + 4).
Definition mp_imcrp (m : memory) (mp : Z) : Z := load8 m (mp + 12).
Definition conf_length (m : memory) (conf : Z) : Z := load16 m (conf + 4).
Definition conf_version (m : memory) (conf : Z) : Z := load8 m (conf + 6).
Definition conf_lapicaddr (m : memory) (conf : Z) : Z := load32 m (conf + 36).

Definition mp_sum (m : memory) (addr : Z) (len : nat) : Z := u8 (zsum id (bytes_at m addr len)).

Definition sig_mp : list Z := [95; 77; 80; 95].      (* "_MP_" *)
Definition sig_pcmp : list Z := [80; 67; 77; 80].    (* "PCMP" *)

Definition is_mp (m : memory) (p : Z) : bool :=
  bool_decide (bytes_at m p 4 = sig_mp) && (mp_sum m p (Z.to_nat sizeof_mp) =? 0).

(** The loop of [mpsearch1], with [n] structures to look at. *)
Fixpoint mpscan (m : memory) (p : Z) (n : nat) : option Z :=
  match n with
  | O => None
  | S n => if is_mp m p then Some p else mpscan m (p + sizeof_mp) n
  end.
Definition mpsearch1 (m : memory) (a len : Z) : option Z := mpscan m (P2V a) (Z.to_nat ((len + sizeof_mp - 1) / sizeof_mp)).

Definition mpsearch (m : memory) : option Z :=
  let bda := P2V 0x400 in
  let p := Z.shiftl (Z.lor (Z.shiftl (load8 m (bda + 0x0F)) 8) (load8 m (bda + 0x0E))) 4 in
  let first :=
    if negb (p =? 0) then mpsearch1 m p 1024
    else let p := Z.lor (Z.shiftl (load8 m (bda + 0x14)) 8) (load8 m (bda + 0x13)) * 1024 in mpsearch1 m (u32 (p - 1024)) 1024 in
  match first with Some mp => Some mp | None => mpsearch1 m 0xF0000 0x10000 end.

(** The floating pointer and the table. *)
Definition mpconfig (m : memory) : option (Z * Z) :=
  mp ← mpsearch m;
  if mp_physaddr m mp =? 0 then None else
  let conf := P2V (mp_physaddr m mp) in
  if negb (bool_decide (bytes_at m conf 4 = sig_pcmp)) then None else
  if negb (conf_version m conf =? 1) && negb (conf_version m conf =? 4) then None else
  if negb (mp_sum m conf (Z.to_nat (conf_length m conf)) =? 0) then None else
  Some (mp, conf).

(** [lapic], the [apicid]s of [cpus], [ioapicid], and the ports written. *)
Record mpst := Mpst { mp_mem : memory; mp_lapic : Z; mp_cpus : list Z; mp_ioapicid : Z; mp_ports : list (Z * Z) }.
#[global] Instance eta_mpst : Eta mpst := λ s, Mpst (mp_mem s) (mp_lapic s) (mp_cpus s) (mp_ioapicid s) (mp_ports s).
Implicit Types s : mpst.

(** One turn of the loop at [p]: the next [p] and [ismp].  In the default case
    [break] leaves the [switch], and [p] stays. *)
Definition mpentry (p : Z) (ismp : bool) : M mpst (Z * bool) :=
  m <- gets mp_mem ;;
  let t := load8 m p in
  if t =? MPPROC then
    l <- gets mp_cpus ;;
    (if Z.of_nat (length l) <? NCPU then modify (λ s, s <| mp_cpus := l ++ [load8 m (p + 1)] |>) else skip) ;;
    ret (p + sizeof_mpproc, ismp)
  else if t =? MPIOAPIC then
    modify (λ s, s <| mp_ioapicid := load8 m (p + 1) |>) ;;
    ret (p + sizeof_mpioapic, ismp)
  else if (t =? MPBUS) || (t =? MPIOINTR) || (t =? MPLINTR) then ret (p + 8, ismp)
  else ret (p, false).

Definition mpbody (e : Z) : Z * bool → M mpst (Z * bool + bool) :=
  λ '(p, ismp), if p <? e then r <- mpentry p ismp ;; ret (inl r) else ret (inr ismp).
Definition mpentries (fuel : nat) (p e : Z) : M mpst bool :=
  loop fuel (mpbody e) (p, true).

(** [in23] is what port 0x23 gives. *)
Definition mpinit (fuel : nat) (in23 : Z) : M mpst unit :=
  m <- gets mp_mem ;;
  match mpconfig m with
  | None => panic "Expect to run on an SMP"
  | Some (mp, conf) =>
      modify (λ s, s <| mp_lapic := conf_lapicaddr m conf |>) ;;
      ismp <- mpentries fuel (conf + sizeof_mpconf) (conf + conf_length m conf) ;;
      if negb ismp then panic "Didn't find a suitable machine" else
      if negb (mp_imcrp m mp =? 0) then
        modify (λ s, s <| mp_ports ::= app [(0x23, Z.lor in23 1); (0x22, 0x70)] |>)
      else skip
  end.

(** ** The search *)

Lemma mpscan_first m p n :
  match mpscan m p n with
  | Some q => ∃ k : nat, (k < n)%nat ∧ q = p + sizeof_mp * Z.of_nat k ∧ is_mp m q = true ∧ ∀ j : nat, (j < k)%nat → is_mp m (p + sizeof_mp * Z.of_nat j) = false
  | None => ∀ j : nat, (j < n)%nat → is_mp m (p + sizeof_mp * Z.of_nat j) = false
  end.
Proof.
  unfold sizeof_mp. revert p. induction n as [|n IH]; intros p; simpl; [lia|]. destruct (is_mp m p) eqn:E.
  - exists 0%nat. rewrite Z.add_0_r. split_and!; try done; lia.
  - unfold sizeof_mp. specialize (IH (p + 16)). destruct (mpscan m (p + 16) n) as [q|].
    + destruct IH as (k & Hk & -> & Hq & Hj). exists (S k). split; [lia|]. split; [lia|]. split; [by replace (p + 16 * Z.of_nat (S k)) with (p + 16 + 16 * Z.of_nat k) by lia|].
      intros [|j] Hlt; [by rewrite Z.add_0_r|]. replace (p + 16 * Z.of_nat (S j)) with (p + 16 + 16 * Z.of_nat j) by lia. apply Hj. lia.
    + intros [|j] Hlt; [by rewrite Z.add_0_r|]. replace (p + 16 * Z.of_nat (S j)) with (p + 16 + 16 * Z.of_nat j) by lia. apply IH. lia.
Qed.

(** ** The table *)

(** The entries of a configuration table. *)
Inductive mpent := EProc (apicid : Z) | EIoapic (apicno : Z) | EOther (type : Z).
Definition ent_size (e : mpent) : Z := match e with EProc _ => sizeof_mpproc | _ => 8 end.
Definition ent_at (m : memory) (p : Z) (e : mpent) : Prop :=
  match e with
  | EProc a => load8 m p = MPPROC ∧ load8 m (p + 1) = a
  | EIoapic a => load8 m p = MPIOAPIC ∧ load8 m (p + 1) = a
  | EOther t => load8 m p = t ∧ (t = MPBUS ∨ t = MPIOINTR ∨ t = MPLINTR)
  end.
Fixpoint ents_at (m : memory) (p : Z) (l : list mpent) : Prop :=
  match l with [] => True | e :: l => ent_at m p e ∧ ents_at m (p + ent_size e) l end.

(** What the entries say. *)
Definition apicids (l : list mpent) : list Z := omap (λ e, match e with EProc a => Some a | _ => None end) l.
Definition last_ioapic (d : Z) (l : list mpent) : Z := foldl (λ d e, match e with EIoapic a => a | _ => d end) d l.

Definition read_ents s (l : list mpent) : mpst :=
  s <| mp_cpus ::= λ c, take (Z.to_nat NCPU) (c ++ apicids l) |> <| mp_ioapicid ::= λ d, last_ioapic d l |>.

#[local] Arguments take : simpl never.
#[local] Arguments Z.to_nat : simpl never.

Lemma mpentry_ok s p e b :
  ent_at (mp_mem s) p e → (length (mp_cpus s) ≤ Z.to_nat NCPU)%nat → mpentry p b s = Ok (p + ent_size e, b) (read_ents s [e]).
Proof.
  intros He Hl. destruct s as [m la cpus io po]. unfold mpentry, read_ents, bind, gets, modify, upd. simpl in *. destruct e as [a|a|t]; simpl in He |- *.
  - destruct He as [-> ->]. simpl. destruct (Z.ltb_spec (Z.of_nat (length cpus)) NCPU) as [Hlt|Hge]; unfold NCPU in *; simpl.
    + by rewrite take_ge by (rewrite length_app; simpl; lia).
    + by rewrite take_app_le, take_ge by lia.
  - destruct He as [-> ->]. simpl. rewrite app_nil_r. by rewrite take_ge by done.
  - destruct He as [-> [->|[->| ->]]]; simpl; by rewrite app_nil_r, take_ge.
Qed.

Lemma read_ents_cons s e l : read_ents (read_ents s [e]) l = read_ents s (e :: l).
Proof.
  destruct s as [m la cpus io po]. unfold read_ents, upd. simpl. f_equal. generalize (Z.to_nat NCPU). intros n.
  assert (∀ c k : list Z, take n (take n c ++ k) = take n (c ++ k)) as H.
  { intros c k. rewrite !take_app, take_take, length_take, Nat.min_id. f_equal. f_equal. destruct (decide (n ≤ length c)%nat); [by rewrite !Nat.min_l by lia; lia|lia]. }
  rewrite H, <-app_assoc. by destruct e.
Qed.

(** ** The loop over the table *)

Lemma ents_size_pos l : 0 ≤ zsum ent_size l.
Proof. induction l as [|e l IH]; simpl; [done|]. destruct e; simpl; unfold sizeof_mpproc; lia. Qed.
Lemma read_ents_cpus s l : (length (mp_cpus (read_ents s l)) ≤ Z.to_nat NCPU)%nat.
Proof. unfold read_ents. simpl. rewrite length_take. lia. Qed.

(** A known entry. *)
Lemma mpbody_step s p x e b fuel :
  ent_at (mp_mem s) p x → (length (mp_cpus s) ≤ Z.to_nat NCPU)%nat → p < e →
  loop (S fuel) (mpbody e) (p, b) s = loop fuel (mpbody e) (p + ent_size x, b) (read_ents s [x]).
Proof.
  intros Hx Hc Hp. assert (mpbody e (p, b) s = Ok (inl (p + ent_size x, b)) (read_ents s [x])) as E.
  { unfold mpbody. destruct (Z.ltb_spec p e); [|lia]. unfold bind. by rewrite (mpentry_ok s p x b). }
  cbn [loop]. by rewrite (bind_ok _ _ _ _ _ E).
Qed.

Lemma mpentries_ok s p l fuel :
  ents_at (mp_mem s) p l → (length (mp_cpus s) ≤ Z.to_nat NCPU)%nat → (length l < fuel)%nat →
  mpentries fuel p (p + zsum ent_size l) s = Ok true (read_ents s l).
Proof.
  unfold mpentries. revert s p fuel. induction l as [|x l IH]; intros s p fuel Hl Hc Hf; (destruct fuel as [|fuel]; [lia|]); cbn [zsum].
  - cbn [loop]. rewrite Z.add_0_r. unfold mpbody. rewrite Z.ltb_irrefl. unfold bind, read_ents, upd. destruct s as [m la cpus io po]. simpl in *. by rewrite app_nil_r, take_ge.
  - destruct Hl as [Hx Hl]. assert (0 < ent_size x) as Hpos by (destruct x; done). pose proof (ents_size_pos l).
    rewrite (mpbody_step s p x _ true fuel Hx Hc), Z.add_assoc by lia. rewrite <-(read_ents_cons s x l). apply IH; [done|apply read_ents_cpus|simpl in Hf; lia].
Qed.

(** An entry of another type: the loop stays at it. *)
Lemma mpbody_stuck s p e fuel b : MPLINTR < load8 (mp_mem s) p → p < e → loop fuel (mpbody e) (p, b) s = Fuel.
Proof.
  intros Ht Hp. assert (∀ b, mpbody e (p, b) s = Ok (inl (p, false)) s) as E.
  { intros b'. assert (∀ k, k ≤ MPLINTR → (load8 (mp_mem s) p =? k) = false) as Hk by (intros k Hk; apply Z.eqb_neq; lia).
    unfold mpbody. destruct (Z.ltb_spec p e); [|lia]. unfold mpentry, bind, gets. cbn [obind]. cbv beta zeta. rewrite !Hk by done. done. }
  revert b. induction fuel as [|fuel IH]; intros b; [done|]. cbn [loop]. by rewrite (bind_ok _ _ _ _ _ (E b)).
Qed.
Lemma mpentries_hang s p l e fuel :
  ents_at (mp_mem s) p l → (length (mp_cpus s) ≤ Z.to_nat NCPU)%nat → p + zsum ent_size l < e → MPLINTR < load8 (mp_mem s) (p + zsum ent_size l) →
  mpentries fuel p e s = Fuel.
Proof.
  unfold mpentries. revert s p fuel. induction l as [|x l IH]; intros s p fuel Hl Hc Hlt Ht; cbn [zsum] in *.
  - rewrite Z.add_0_r in *. by apply mpbody_stuck.
  - destruct fuel as [|fuel]; [done|]. destruct Hl as [Hx Hl]. pose proof (ents_size_pos l). assert (0 < ent_size x) as Hpos by (destruct x; done).
    rewrite (mpbody_step s p x e true fuel Hx Hc) by lia. apply IH; [done|apply read_ents_cpus|lia|]. change (mp_mem (read_ents s [x])) with (mp_mem s).
    by replace (p + ent_size x + zsum ent_size l) with (p + (ent_size x + zsum ent_size l)) by lia.
Qed.

(** [mpinit] reads the processors from the configuration table. If the
    search finds a table, and its entries are those of [l] and all of known
    types, [mpinit] returns with the local APIC's address, the identifiers of
    the first eight processors in the order of the table, and the last I/O
    APIC. *)
Theorem mpinit_reads m mp conf l fuel in23 :
  mpconfig m = Some (mp, conf) → ents_at m (conf + sizeof_mpconf) l → conf_length m conf = sizeof_mpconf + zsum ent_size l → (length l < fuel)%nat →
  ∃ s, mpinit fuel in23 (Mpst m 0 [] 0 []) = Ok tt s ∧ mp_lapic s = conf_lapicaddr m conf ∧ mp_cpus s = take (Z.to_nat NCPU) (apicids l) ∧ mp_ioapicid s = last_ioapic 0 l.
Proof.
  intros Hc Hl Hlen Hf. unfold mpinit. unfold bind at 1, gets at 1. simpl. rewrite Hc. unfold bind at 1, modify at 1. simpl.
  assert (mpentries fuel (conf + sizeof_mpconf) (conf + conf_length m conf) (Mpst m (conf_lapicaddr m conf) [] 0 []) = Ok true (read_ents (Mpst m (conf_lapicaddr m conf) [] 0 []) l)) as E.
  { rewrite Hlen, Z.add_assoc. apply mpentries_ok; [done|simpl; lia|done]. }
  rewrite (bind_ok _ _ _ _ _ E). simpl. case_match; (eexists; split; [reflexivity|done]).
Qed.

(** An entry of an unknown type hangs the kernel. The [break] of the
    default case leaves the [switch] and not the loop, which does not advance:
    [mpinit] does not come back, whatever the number of turns, and the panic
    that is meant for such a machine is not reached. *)
Theorem mpinit_hangs m mp conf l fuel in23 :
  mpconfig m = Some (mp, conf) → ents_at m (conf + sizeof_mpconf) l → sizeof_mpconf + zsum ent_size l < conf_length m conf →
  MPLINTR < load8 m (conf + sizeof_mpconf + zsum ent_size l) → mpinit fuel in23 (Mpst m 0 [] 0 []) = Fuel.
Proof.
  intros Hc Hl Hlen Ht. unfold mpinit. unfold bind at 1, gets at 1. simpl. rewrite Hc. unfold bind at 1, modify at 1. simpl. unfold bind.
  rewrite (mpentries_hang (Mpst m (conf_lapicaddr m conf) [] 0 []) _ l) by (simpl; try done; lia). done.
Qed.

Module MpExamples.
(** A floating pointer at 0xF0000 and a table at 0xF0100 with one processor,
    whose last entry is of type [t], with check sum [ck]. *)
Definition ex_table (t ck : Z) : memory :=
  store_bytes (store_bytes ∅ (P2V 0xF0000) [95; 77; 80; 95; 0; 1; 0xF; 0; 1; 4; 144; 0; 0; 0; 0; 0]) (P2V 0xF0100)
    ([80; 67; 77; 80; 72; 0; 4; ck] ++ replicate 26 0 ++ [2; 0] ++ [0; 0; 0xE0; 0xFE; 0; 0; 0; 0] ++ [0; 7] ++ replicate 18 0 ++ [t; 9] ++ replicate 6 0).

Lemma mpinit_reads_witness : ∃ s, mpinit 10 0 (Mpst (ex_table 2 146) 0 [] 0 []) = Ok tt s ∧ mp_cpus s = [7] ∧ mp_ioapicid s = 9.
Proof.
  destruct (mpinit_reads (ex_table 2 146) (P2V 0xF0000) (P2V 0xF0100) [EProc 7; EIoapic 9] 10 0) as (s & E & _ & H1 & H2).
  - vm_compute. reflexivity.
  - vm_compute. done.
  - vm_compute. reflexivity.
  - simpl. lia.
  - exists s. split; [exact E|]. split; [exact H1|exact H2].
Defined.

Lemma mpinit_hangs_witness : mpinit 1000 0 (Mpst (ex_table 5 143) 0 [] 0 []) = Fuel.
Proof.
  apply (mpinit_hangs (ex_table 5 143) (P2V 0xF0000) (P2V 0xF0100) [EProc 7]); vm_compute; done.
Defined.
End MpExamples.
