(* ===== verification/Ata.v ===== *)
(** A disk behind ports: the instructions of [src/x86.h] that access ports, and
    what the loops of [src/ide.c] and [src/bootmain.c] that drive an ATA disk
    rely on.

    The disk is not part of the sources.  [Ports] are the four kinds of access
    to a device of some type [D]; [AtaDisk] is what the ATA standard documents
    of a disk that is programmed by its task file, in terms of [ata], its
    registers and sectors.  [ata_out], [ata_inl] and [ata_outl] give the next
    state where the standard gives one: a register is written or a command
    issued when the disk is ready and idle, data is moved when a command has
    asked for it.  The disk reports no errors. *)

From S2P Require Import Prelude Memory Machine Disk.
From stdpp Require Import options.

(** ** Ports *)

(** A 32-bit access to a port moves four bytes, here in the order they have in
    memory. *)
Class Ports (D : Type) := {
  port_inb : Z → D → Z * D;
  port_outb : Z → Z → D → D;
  port_inl : Z → D → list Z * D;
  port_outl : Z → list Z → D → D;
}.

(** A program's state and the device. *)
Record hw (X D : Type) := Hw { hw_x : X; hw_dev : D }.
Arguments Hw {X D}.
Arguments hw_x {X D}.
Arguments hw_dev {X D}.

Section ports.
Context {X D : Type} `{!Ports D}.

(** A part of the program that does not touch the device. *)
Definition onx {A} (m : M X A) : M (hw X D) A := λ h,
  match m (hw_x h) with
  | Ok a x => Ok a (Hw x (hw_dev h)) | Panic msg => Panic msg | Blocked c x => Blocked c (Hw x (hw_dev h))
  | Spins => Spins | UB w => UB w | Fuel => Fuel
  end.

Definition inb (port : Z) : M (hw X D) Z := λ h,
  let r := port_inb port (hw_dev h) in Ok r.1 (Hw (hw_x h) r.2).
Definition outb (port data : Z) : M (hw X D) unit := λ h, Ok tt (Hw (hw_x h) (port_outb port (u8 data) (hw_dev h))).
(** The bytes [rep insl] reads, which the caller puts into memory. *)
Fixpoint insl (port : Z) (cnt : nat) : M (hw X D) (list Z) :=
  match cnt with
  | O => ret []
  | S cnt => λ h, let r := port_inl port (hw_dev h) in (l <- insl port cnt ;; ret (r.1 ++ l)) (Hw (hw_x h) r.2)
  end.
Fixpoint outsl (port : Z) (addr : list Z) (cnt : nat) : M (hw X D) unit :=
  match cnt with
  | O => skip
  | S cnt => modify (λ h, Hw (hw_x h) (port_outl port (take 4 addr) (hw_dev h))) ;; outsl port (drop 4 addr) cnt
  end.
End ports.

(** ** The disk *)

Definition SECTOR_SIZE := 512.
Definition IDE_BSY := 0x80.
Definition IDE_DRDY := 0x40.
Definition IDE_DF := 0x20.
Definition IDE_ERR := 0x01.
Definition IDE_CMD_READ := 0x20.
Definition IDE_CMD_WRITE := 0x30.

Inductive ata_phase := AIdle | ADataIn (l : list Z) | ADataOut (k : Z * Z) (l : list Z).
Record ata := Ata {
  a_ready : bool;                        (* the selected drive is *)
  a_count : Z; a_lba0 : Z; a_lba1 : Z; a_lba2 : Z; a_device : Z;
  a_phase : ata_phase;
  a_disks : gmap (Z * Z) (list Z);       (* sectors, by drive and number *)
  a_have1 : bool;                        (* there is a second drive *)
  a_nowait : bool;                       (* takes data right after a write command *)
}.
#[global] Instance eta_ata : Eta ata := λ a,
  Ata (a_ready a) (a_count a) (a_lba0 a) (a_lba1 a) (a_lba2 a) (a_device a) (a_phase a) (a_disks a) (a_have1 a) (a_nowait a).

(** The selected drive and sector, in the 28-bit addressing mode. *)
Definition a_drive (a : ata) : Z := Z.land (Z.shiftr (a_device a) 4) 1.
Definition a_lba (a : ata) : Z := a_lba0 a + 2 ^ 8 * a_lba1 a + 2 ^ 16 * a_lba2 a + 2 ^ 24 * Z.land (a_device a) 0xf.
Definition a_present (a : ata) : bool := (a_drive a =? 0) || a_have1 a.

Definition ata_command (v : Z) (a : ata) : option ata :=
  if negb ((a_count a =? 1) && Z.testbit (a_device a) 6 && a_present a) then None else
  let k := (a_drive a, a_lba a) in
  if v =? IDE_CMD_READ then Some (a <| a_ready := false |> <| a_phase := ADataIn (block_at (a_disks a) k) |>)
  else if v =? IDE_CMD_WRITE then Some (a <| a_ready := a_nowait a |> <| a_phase := ADataOut k [] |>)
  else None.

Definition ata_out (port v : Z) (a : ata) : option ata :=
  if port =? 0x3f6 then Some a else            (* interrupts on or off *)
  match a_ready a, a_phase a with
  | true, AIdle =>
      if port =? 0x1f2 then Some (a <| a_count := v |>)
      else if port =? 0x1f3 then Some (a <| a_lba0 := v |>)
      else if port =? 0x1f4 then Some (a <| a_lba1 := v |>)
      else if port =? 0x1f5 then Some (a <| a_lba2 := v |>)
      else if port =? 0x1f6 then Some (a <| a_device := v |>)
      else if port =? 0x1f7 then ata_command v a
      else None
  | _, _ => None
  end.
Definition ata_inl (a : ata) : option (list Z * ata) :=
  match a_ready a, a_phase a with
  | true, ADataIn l => Some (take 4 l, a <| a_phase := match drop 4 l with [] => AIdle | l' => ADataIn l' end |>)
  | _, _ => None
  end.
Definition ata_outl (bs : list Z) (a : ata) : option ata :=
  match a_ready a, a_phase a with
  | true, ADataOut k l =>
      let l := l ++ bs in
      Some (if Z.of_nat (length l) <? SECTOR_SIZE then a <| a_phase := ADataOut k l |>
            else a <| a_phase := AIdle |> <| a_disks ::= <[k := l]> |>)
  | _, _ => None
  end.

(** The value of the device register that selects a drive, and the upper bits
    of a sector number. *)
Lemma device_reg v drv hi :
  0 ≤ drv < 2 → 0 ≤ hi < 16 → v = 0xe0 + 16 * drv + hi → u8 v = v ∧ Z.land (Z.shiftr v 4) 1 = drv ∧ Z.land v 0xf = hi ∧ Z.testbit v 6 = true.
Proof.
  intros Hd Hh ->. destruct (Z_of_nat_complete hi) as [n ->]; [lia|]. assert (n < 16)%nat as Hn by lia. clear Hh.
  assert (drv = 0 ∨ drv = 1) as [->| ->] by lia; (do 16 (destruct n as [|n]; [by vm_compute|]); lia).
Qed.

Class AtaDisk (D : Type) `{!Ports D} := {
  ata_of : D → ata;
  (** the most often its status can be read before it is ready *)
  ata_polls : nat;
  (** reading the status register *)
  ata_status d :
    if a_present (ata_of d) then
      let r := port_inb 0x1f7 d in
      ∃ rdy, ata_of r.2 = (ata_of d) <| a_ready := rdy |> ∧ bool_decide (Z.land r.1 (Z.lor IDE_BSY IDE_DRDY) = IDE_DRDY) = rdy ∧
        (a_ready (ata_of d) = true → rdy = true) ∧ r.1 ≠ 0 ∧ Z.land r.1 (Z.lor IDE_DF IDE_ERR) = 0
    else port_inb 0x1f7 d = (0, d);
  ata_becomes_ready d : a_present (ata_of d) = true →
    ∃ k : nat, (k ≤ ata_polls)%nat ∧ Z.land (port_inb 0x1f7 (Nat.iter k (λ d, (port_inb 0x1f7 d).2) d)).1 (Z.lor IDE_BSY IDE_DRDY) = IDE_DRDY;
  ata_write d port v a : 0 ≤ v < 256 → ata_out port v (ata_of d) = Some a → ata_of (port_outb port v d) = a;
  ata_data_in d bs a : ata_inl (ata_of d) = Some (bs, a) → (port_inl 0x1f0 d).1 = bs ∧ ata_of (port_inl 0x1f0 d).2 = a;
  ata_data_out d bs a : ata_outl bs (ata_of d) = Some a → ata_of (port_outl 0x1f0 bs d) = a;
}.

(** ** Waiting, selecting and moving data *)

Section drive.
Context {X D : Type} `{!Ports D} `{!AtaDisk D}.
Implicit Types h : hw X D.

(** [while((inb(0x1f7) & (BSY|DRDY)) != DRDY);] with what to do with the last
    status. *)
Definition poll {A} (fuel : nat) (k : Z → A) : M (hw X D) A :=
  loop fuel (λ _ : unit,
    r <- inb 0x1f7 ;;
    ret (if negb (Z.land r (Z.lor IDE_BSY IDE_DRDY) =? IDE_DRDY) then inl tt else inr (k r))) tt.

Lemma status_present d :
  a_present (ata_of d) = true →
  let r := port_inb 0x1f7 d in
  ata_of r.2 = (ata_of d) <| a_ready := bool_decide (Z.land r.1 (Z.lor IDE_BSY IDE_DRDY) = IDE_DRDY) |> ∧ r.1 ≠ 0 ∧ Z.land r.1 (Z.lor IDE_DF IDE_ERR) = 0.
Proof using. intros Hp r. pose proof (ata_status d) as H. rewrite Hp in H. by destruct H as (rdy & E & <- & _ & ? & ?). Qed.

(** A disk that is ready stays so. *)
Lemma status_ready d : a_present (ata_of d) = true → a_ready (ata_of d) = true → ata_of (port_inb 0x1f7 d).2 = ata_of d ∧ (port_inb 0x1f7 d).1 ≠ 0.
Proof using.
  intros Hp Hr. pose proof (ata_status d) as H. rewrite Hp in H. destruct H as (rdy & E & _ & Hs & ? & _). split; [|done]. rewrite E, (Hs Hr), <-Hr. by destruct (ata_of d).
Qed.

Lemma poll_ok {A} fuel (k : Z → A) h :
  a_present (ata_of (hw_dev h)) = true → (ata_polls < fuel)%nat →
  ∃ r d, poll fuel k h = Ok (k r) (Hw (hw_x h) d) ∧ ata_of d = (ata_of (hw_dev h)) <| a_ready := true |> ∧ Z.land r (Z.lor IDE_DF IDE_ERR) = 0.
Proof using.
  intros Hp Hf. destruct (ata_becomes_ready (hw_dev h) Hp) as (n & Hn & Hr). assert (n < fuel)%nat as Hlt by lia. clear Hn Hf.
  unfold poll. destruct h as [x d]. simpl in *. revert d fuel Hp Hlt Hr. induction n as [|n IH]; intros d fuel Hp Hlt Hr; (destruct fuel as [|fuel]; [lia|]);
    destruct (status_present d Hp) as (E & _ & He); cbn [loop]; unfold bind at 1, bind at 1, inb at 1; simpl; destruct (Z.eqb_spec (Z.land (port_inb 0x1f7 d).1 (Z.lor IDE_BSY IDE_DRDY)) IDE_DRDY) as [Hz|Hz]; simpl.
  - exists (port_inb 0x1f7 d).1, (port_inb 0x1f7 d).2. split; [done|]. by rewrite E, bool_decide_true.
  - done.
  - exists (port_inb 0x1f7 d).1, (port_inb 0x1f7 d).2. split; [done|]. by rewrite E, bool_decide_true.
  - destruct (IH (port_inb 0x1f7 d).2 fuel) as (r & d' & E1 & E2 & E3).
    + by rewrite E.
    + lia.
    + by rewrite Nat.iter_succ_r in Hr.
    + exists r, d'. split; [exact E1|]. split; [|done]. rewrite E2, E. by destruct (ata_of d).
Qed.

Lemma outb_ok port v h a :
  ata_out port (u8 v) (ata_of (hw_dev h)) = Some a → ∃ d, outb port v h = Ok tt (Hw (hw_x h) d) ∧ ata_of d = a.
Proof using. intros H. eexists. split; [done|]. apply ata_write; [apply u8_range|done]. Qed.

(** The registers of a command. *)
Lemma select_ok {B} v2 v3 v4 v5 v6 (K : M (hw X D) B) h :
  a_ready (ata_of (hw_dev h)) = true → a_phase (ata_of (hw_dev h)) = AIdle →
  ∃ d, (outb 0x1f2 v2 ;; outb 0x1f3 v3 ;; outb 0x1f4 v4 ;; outb 0x1f5 v5 ;; outb 0x1f6 v6 ;; K) h = K (Hw (hw_x h) d) ∧
    ata_of d = (ata_of (hw_dev h)) <| a_count := u8 v2 |> <| a_lba0 := u8 v3 |> <| a_lba1 := u8 v4 |> <| a_lba2 := u8 v5 |> <| a_device := u8 v6 |>.
Proof using.
  intros Hr Hp. destruct h as [x d]. simpl in *.
  eexists. split; [reflexivity|]. simpl. destruct (ata_of d) as [rdy c l0 l1 l2 dv ph ds h1 nw] eqn:E0. simpl in Hr, Hp. subst rdy ph.
  pose proof (ata_write d 0x1f2 (u8 v2) _ (u8_range _) ltac:(rewrite E0; reflexivity)) as E1. unfold upd in *; simpl in E1.
  pose proof (ata_write _ 0x1f3 (u8 v3) _ (u8_range _) ltac:(rewrite E1; reflexivity)) as E2. unfold upd in E2; simpl in E2.
  pose proof (ata_write _ 0x1f4 (u8 v4) _ (u8_range _) ltac:(rewrite E2; reflexivity)) as E3. unfold upd in E3; simpl in E3.
  pose proof (ata_write _ 0x1f5 (u8 v5) _ (u8_range _) ltac:(rewrite E3; reflexivity)) as E4. unfold upd in E4; simpl in E4.
  apply ata_write; [apply u8_range|by rewrite E4].
Qed.

(** The disk is ready, with sector [lba] of drive [drv] selected. *)
Record selected (a : ata) (drv lba : Z) (a' : ata) : Prop := {
  se_ready : a_ready a' = true;
  se_phase : a_phase a' = AIdle;
  se_count : a_count a' = 1;
  se_drive : a_drive a' = drv;
  se_lba : a_lba a' = lba;
  se_mode : Z.testbit (a_device a') 6 = true;
  se_disks : a_disks a' = a_disks a;
  se_have1 : a_have1 a' = a_have1 a;
  se_nowait : a_nowait a' = a_nowait a;
}.

Lemma select_sector {B} drv lba v3 v4 v5 v6 (K : M (hw X D) B) h :
  a_ready (ata_of (hw_dev h)) = true → a_phase (ata_of (hw_dev h)) = AIdle → 0 ≤ drv < 2 → 0 ≤ lba < 2 ^ 28 →
  u8 v3 = u8 lba → u8 v4 = u8 (lba / 2 ^ 8) → u8 v5 = u8 (lba / 2 ^ 16) → v6 = 0xe0 + 16 * drv + lba / 2 ^ 24 →
  ∃ d, (outb 0x1f2 1 ;; outb 0x1f3 v3 ;; outb 0x1f4 v4 ;; outb 0x1f5 v5 ;; outb 0x1f6 v6 ;; K) h = K (Hw (hw_x h) d) ∧
    selected (ata_of (hw_dev h)) drv lba (ata_of d).
Proof using.
  intros Hr Hp Hd Hl E3 E4 E5 E6. destruct (select_ok 1 v3 v4 v5 v6 K h Hr Hp) as (d & E & A). exists d. split; [exact E|].
  assert (0 ≤ lba / 2 ^ 24 < 16) as Hhi by (split; [apply Z.div_pos; lia|apply Z.div_lt_upper_bound; lia]).
  destruct (device_reg v6 drv _ Hd Hhi E6) as (V1 & V2 & V3 & V4). rewrite V1, E3, E4, E5 in A.
  split; try (rewrite A; done). rewrite A. unfold a_lba, upd. simpl. rewrite V3. unfold u8.
  replace (lba / 2 ^ 24) with (lba / 2 ^ 8 / 2 ^ 8 / 2 ^ 8) by (rewrite !Z.div_div by lia; done). replace (lba / 2 ^ 16) with (lba / 2 ^ 8 / 2 ^ 8) by (rewrite Z.div_div by lia; done).
  pose proof (Z.div_mod lba (2 ^ 8)). pose proof (Z.div_mod (lba / 2 ^ 8) (2 ^ 8)). pose proof (Z.div_mod (lba / 2 ^ 8 / 2 ^ 8) (2 ^ 8)). lia.
Qed.

Lemma selected_command a drv lba a' v :
  selected a drv lba a' → drv = 0 ∨ a_have1 a = true →
  ata_out 0x1f7 v a' = if v =? IDE_CMD_READ then Some (a' <| a_ready := false |> <| a_phase := ADataIn (block_at (a_disks a) (drv, lba)) |>)
    else if v =? IDE_CMD_WRITE then Some (a' <| a_ready := a_nowait a |> <| a_phase := ADataOut (drv, lba) [] |>) else None.
Proof using.
  intros [] Hd. unfold ata_out. rewrite se_ready0, se_phase0. simpl. unfold ata_command, a_present. rewrite se_count0, se_mode0, se_drive0, se_lba0, se_disks0, se_have2, se_nowait0.
  assert ((drv =? 0) || a_have1 a = true) as -> by (destruct Hd as [->| ->]; [done|apply orb_true_r]). done.
Qed.

(** The bytes of a sector. *)
Lemma insl_ok cnt h l :
  a_ready (ata_of (hw_dev h)) = true → a_phase (ata_of (hw_dev h)) = ADataIn l → length l = (4 * S cnt)%nat →
  ∃ d, insl 0x1f0 (S cnt) h = Ok l (Hw (hw_x h) d) ∧ ata_of d = (ata_of (hw_dev h)) <| a_phase := AIdle |>.
Proof using.
  destruct h as [x d]. simpl. revert d l. induction cnt as [|cnt IH]; intros d l Hr Hp Hl;
    (assert (ata_inl (ata_of d) = Some (take 4 l, (ata_of d) <| a_phase := match drop 4 l with [] => AIdle | l' => ADataIn l' end |>)) as E by (unfold ata_inl; by rewrite Hr, Hp));
    destruct (ata_data_in d _ _ E) as [E1 E2].
  - exists (port_inl 0x1f0 d).2. cbn. rewrite E1, app_nil_r, take_ge by lia. split; [done|]. rewrite E2, drop_ge by lia. done.
  - assert (ata_of (port_inl 0x1f0 d).2 = (ata_of d) <| a_phase := ADataIn (drop 4 l) |>) as E3.
    { rewrite E2. destruct (drop 4 l) eqn:Ed; [|done]. apply (f_equal length) in Ed. rewrite length_drop in Ed. simpl in Ed. lia. }
    destruct (IH (port_inl 0x1f0 d).2 (drop 4 l)) as (d' & F1 & F2); [by rewrite E3|by rewrite E3|rewrite length_drop; lia|].
    exists d'. change (insl 0x1f0 (S (S cnt)) (Hw x d)) with ((l <- insl 0x1f0 (S cnt) ;; ret ((port_inl 0x1f0 d).1 ++ l)) (Hw x (port_inl 0x1f0 d).2)).
    rewrite (bind_ok (insl 0x1f0 (S cnt)) _ (Hw x (port_inl 0x1f0 d).2) _ _ F1), E1. unfold ret. rewrite take_drop. split; [done|]. rewrite F2, E3. by destruct (ata_of d).
Qed.

Lemma outsl_ok cnt h bs k l :
  a_ready (ata_of (hw_dev h)) = true → a_phase (ata_of (hw_dev h)) = ADataOut k l → length bs = (4 * S cnt)%nat → Z.of_nat (length (l ++ bs)) = SECTOR_SIZE →
  ∃ d, outsl 0x1f0 bs (S cnt) h = Ok tt (Hw (hw_x h) d) ∧ ata_of d = (ata_of (hw_dev h)) <| a_phase := AIdle |> <| a_disks ::= <[k := l ++ bs]> |>.
Proof using.
  destruct h as [x d]. simpl. revert d l bs. induction cnt as [|cnt IH]; intros d l bs Hr Hp Hb Hl.
  - exists (port_outl 0x1f0 (take 4 bs) d). split; [done|]. apply ata_data_out. unfold ata_outl. rewrite Hr, Hp, take_ge, Hl by lia. done.
  - assert (ata_of (port_outl 0x1f0 (take 4 bs) d) = (ata_of d) <| a_phase := ADataOut k (l ++ take 4 bs) |>) as E.
    { apply ata_data_out. unfold ata_outl. rewrite Hr, Hp. cbv zeta. destruct (Z.ltb_spec (Z.of_nat (length (l ++ take 4 bs))) SECTOR_SIZE) as [_|Hge]; [done|].
      rewrite length_app, length_take in *. lia. }
    destruct (IH (port_outl 0x1f0 (take 4 bs) d) (l ++ take 4 bs) (drop 4 bs)) as (d' & F1 & F2).
    { by rewrite E. } { by rewrite E. } { rewrite length_drop; lia. } { by rewrite <-app_assoc, take_drop. }
    exists d'. split; [exact F1|]. rewrite F2, E, <-app_assoc, take_drop. by destruct (ata_of d).
Qed.
End drive.

(** ** A disk

    A disk that is busy for one reading of its status after each command, to
    run the drivers on. *)
Module AtaExamples.
Record simdisk := Simdisk { sd_ata : ata; sd_busy : bool }.

Definition sim_inb (port : Z) (d : simdisk) : Z * simdisk :=
  if negb ((port =? 0x1f7) && a_present (sd_ata d)) then (0, d)
  else if sd_busy d && negb (a_ready (sd_ata d)) then (IDE_BSY, Simdisk ((sd_ata d) <| a_ready := false |>) false)
  else (IDE_DRDY, Simdisk ((sd_ata d) <| a_ready := true |>) false).
Definition sim_outb (port v : Z) (d : simdisk) : simdisk :=
  match ata_out port v (sd_ata d) with Some a => Simdisk a (port =? 0x1f7) | None => d end.
Definition sim_inl (_ : Z) (d : simdisk) : list Z * simdisk :=
  match ata_inl (sd_ata d) with Some (bs, a) => (bs, Simdisk a (sd_busy d)) | None => ([], d) end.
Definition sim_outl (_ : Z) (bs : list Z) (d : simdisk) : simdisk :=
  match ata_outl bs (sd_ata d) with Some a => Simdisk a (sd_busy d) | None => d end.
#[export] Instance sim_ports : Ports simdisk :=
  {| port_inb := sim_inb; port_outb := sim_outb; port_inl := sim_inl; port_outl := sim_outl |}.

Lemma sim_status d : a_present (sd_ata d) = true →
  sim_inb 0x1f7 d = if sd_busy d && negb (a_ready (sd_ata d)) then (IDE_BSY, Simdisk ((sd_ata d) <| a_ready := false |>) false) else (IDE_DRDY, Simdisk ((sd_ata d) <| a_ready := true |>) false).
Proof. intros E. unfold sim_inb. by rewrite E. Qed.

#[export] Instance sim_ata : AtaDisk simdisk.
Proof.
  refine {| ata_of := sd_ata; ata_polls := 1 |}; simpl.
  - intros d. destruct (a_present (sd_ata d)) eqn:E; simpl; unfold sim_inb; rewrite E; simpl; [|done]. destruct (sd_busy d), (a_ready (sd_ata d)); simpl; eauto 8.
  - intros d E. destruct (sd_busy d && negb (a_ready (sd_ata d))) eqn:Eb; [exists 1%nat|exists 0%nat]; (split; [lia|]).
    + change (Nat.iter 1 _ d) with (sim_inb 0x1f7 d).2. rewrite (sim_status d E), Eb. by rewrite sim_status.
    + change (Nat.iter 0 _ d) with d. by rewrite (sim_status d E), Eb.
  - intros d port v a _ E. unfold sim_outb. by rewrite E.
  - intros d bs a E. unfold sim_inl. by rewrite E.
  - intros d bs a E. unfold sim_outl. by rewrite E.
Defined.
End AtaExamples.
