(* ===== verification/Bootmain.v ===== *)
(** The boot loader, [src/bootmain.c].

    The boot sector's C code reads the kernel, an ELF file that starts at
    sector 1 of the first drive, through the ports of [Ata], and puts its
    segments at their physical addresses.  [bootmain_loads] shows that it does
    so and calls the entry point of the header, for any image whose segments
    do not run into each other. *)

From S2P Require Import Prelude Memory Machine Disk Exec Ata.
From stdpp Require Import options.
Import Kstring.

Definition SECTSIZE := 512.
(** [elf], the scratch space *)
Definition scratch := 0x10000.

#[local] Arguments insl : simpl never.

Section boot.
Context {D : Type} `{!Ports D} `{!AtaDisk D}.
Context (fuel : nat).

Definition waitdisk : M (hw memory D) unit := poll fuel (λ _, tt).

Definition readsect (dst offset : Z) : M (hw memory D) unit :=
  waitdisk ;;
  outb 0x1f2 1 ;;
  outb 0x1f3 offset ;;
  outb 0x1f4 (Z.shiftr offset 8) ;;
  outb 0x1f5 (Z.shiftr offset 16) ;;
  outb 0x1f6 (Z.lor (Z.shiftr offset 24) 0xe0) ;;
  outb 0x1f7 0x20 ;;
  waitdisk ;;
  l <- insl 0x1f0 (Z.to_nat (SECTSIZE / 4)) ;;
  onx (modify (λ m, store_bytes m dst l)).

(** The loop of [readseg], with enough fuel for its turns. *)
Definition readsects (pa epa offset : Z) : M (hw memory D) unit :=
  loop (S (Z.to_nat ((epa - pa + (SECTSIZE - 1)) / SECTSIZE))) (λ '(pa, offset),
    if pa <? epa then readsect pa offset ;; ret (inl (u32 (pa + SECTSIZE), u32 (offset + 1)))
    else ret (inr tt)) (pa, offset).
Definition readseg (pa count offset : Z) : M (hw memory D) unit :=
  let epa := u32 (pa + count) in
  let pa := u32 (pa - offset mod SECTSIZE) in
  let offset := u32 (offset / SECTSIZE + 1) in
  readsects pa epa offset.

(** The fields of a program header in memory. *)
Definition m_off (m : memory) (ph : Z) : Z := load32 m (ph + 4).
Definition m_paddr (m : memory) (ph : Z) : Z := load32 m (ph + 12).
Definition m_filesz (m : memory) (ph : Z) : Z := load32 m (ph + 16).
Definition m_memsz (m : memory) (ph : Z) : Z := load32 m (ph + 20).

Definition load_ph (ph : Z) : M (hw memory D) unit :=
  m <- onx get ;;
  let pa := m_paddr m ph in
  readseg pa (m_filesz m ph) (m_off m ph) ;;
  m <- onx get ;;
  if m_filesz m ph <? m_memsz m ph then
    onx (modify (λ m, stosb m (pa + m_filesz m ph) 0 (Z.to_nat (m_memsz m ph - m_filesz m ph))))
  else skip.

Definition load_phs (n : nat) (ph eph : Z) : M (hw memory D) unit :=
  loop n (λ ph,
    if ph <? eph then load_ph ph ;; ret (inl (u32 (ph + sizeof_proghdr))) else ret (inr tt)) ph.

(** The entry point it calls, or [None] if it returns. *)
Definition bootmain : M (hw memory D) (option Z) :=
  readseg scratch 4096 0 ;;
  m <- onx get ;;
  if negb (load32 m scratch =? ELF_MAGIC) then ret None else
  let ph := u32 (scratch + load32 m (scratch + 28)) in
  let phnum := load16 m (scratch + 44) in
  load_phs (S (Z.to_nat phnum)) ph (u32 (ph + phnum * sizeof_proghdr)) ;;
  m <- onx get ;;
  ret (Some (load32 m (scratch + 24))).

(** ** Sectors *)

Definition disk_wf (ds : gmap (Z * Z) (list Z)) : Prop :=
  ∀ k v, ds !! k = Some v → length v = Z.to_nat SECTSIZE ∧ Forall (λ b, 0 ≤ b < 256) v.
Definition idle (ds : gmap (Z * Z) (list Z)) (d : D) : Prop :=
  a_phase (ata_of d) = AIdle ∧ a_present (ata_of d) = true ∧ a_disks (ata_of d) = ds.

Lemma sector_wf ds k : disk_wf ds → length (block_at ds k) = Z.to_nat SECTSIZE ∧ Forall (λ b, 0 ≤ b < 256) (block_at ds k).
Proof using.
  intros H. unfold block_at. destruct (ds !! k) as [v|] eqn:E; [by apply (H k)|]. split; [done|]. by apply Forall_replicate.
Qed.

Lemma readsect_ok ds m d dst offset :
  disk_wf ds → idle ds d → (ata_polls < fuel)%nat → 0 ≤ offset < 2 ^ 28 →
  ∃ d', readsect dst offset (Hw m d) = Ok tt (Hw (store_bytes m dst (block_at ds (0, offset))) d') ∧ idle ds d'.
Proof using.
  intros Hwf (Hp & Hpr & Hds) Hf Ho. unfold readsect, waitdisk.
  destruct (poll_ok fuel (λ _, tt) (Hw m d) Hpr Hf) as (r & d1 & E1 & A1 & _). rewrite (bind_ok _ _ _ _ _ E1). simpl in A1.
  set (K := outb 0x1f7 0x20 ;; _). rewrite !Z.shiftr_div_pow2 by lia. set (hi := offset / 2 ^ 24).
  assert (Z.lor hi 0xe0 = 0xe0 + 16 * 0 + hi) as Ehi.
  { assert (0 ≤ hi < 16) as Hhi by (unfold hi; split; [apply Z.div_pos; lia|apply Z.div_lt_upper_bound; lia]).
    destruct (Z_of_nat_complete hi) as [n ->]; [lia|]. do 16 (destruct n as [|n]; [done|]). lia. }
  destruct (select_sector 0 offset offset (offset / 2 ^ 8) (offset / 2 ^ 16) (Z.lor hi 0xe0) K (Hw m d1)) as (d2 & E2 & S2); [by simpl; rewrite A1|by simpl; rewrite A1|lia|done|done|done|done|exact Ehi|].
  simpl hw_x in *. simpl hw_dev in S2. rewrite E2. unfold K. clear E1 E2 K. pose proof (selected_command _ _ _ _ (u8 0x20) S2 (or_introl eq_refl)) as Hcmd.
  assert (a_disks (ata_of d1) = ds) as Hds1 by (by rewrite A1). rewrite Hds1 in Hcmd. simpl in Hcmd.
  destruct (outb_ok 0x1f7 0x20 (Hw m d2) _ Hcmd) as (d3 & E3 & A3). rewrite (bind_ok _ _ _ _ _ E3). clear E3. simpl hw_x.
  assert (∀ a, a_device a = a_device (ata_of d2) → a_present a = true) as Hpr2.
  { intros a Ha. unfold a_present, a_drive. rewrite Ha. fold (a_drive (ata_of d2)). by rewrite (se_drive _ _ _ _ S2). }
  destruct (poll_ok fuel (λ _, tt) (Hw m d3)) as (r4 & d4 & E4 & A4 & _); [apply Hpr2; simpl; by rewrite A3|done|]. rewrite (bind_ok _ _ _ _ _ E4). clear E4. simpl hw_x. simpl in A4.
  destruct (sector_wf ds (0, offset) Hwf) as [Hlen _].
  destruct (insl_ok 127 (Hw m d4) (block_at ds (0, offset))) as (d5 & E5 & A5); [by simpl; rewrite A4|by simpl; rewrite A4, A3|by rewrite Hlen|].
  change (Z.to_nat (SECTSIZE / 4)) with 128%nat. rewrite (bind_ok (insl 0x1f0 128) _ _ _ _ E5). exists d5. split; [done|].
  simpl in A5. rewrite A4, A3 in A5. split; [by rewrite A5|]. split; [apply Hpr2; by rewrite A5|]. rewrite A5. unfold upd. simpl. by rewrite (se_disks _ _ _ _ S2).
Qed.

(** ** Segments *)

(** The bytes of the kernel's file on the first drive. *)
Definition image_byte (ds : gmap (Z * Z) (list Z)) (k : Z) : Z :=
  default 0 (block_at ds (0, k / SECTSIZE + 1) !! Z.to_nat (k mod SECTSIZE)).

Lemma image_sector ds pa sec a :
  pa ≤ a < pa + SECTSIZE → image_byte ds (a - pa + SECTSIZE * (sec - 1)) = default 0 (block_at ds (0, sec) !! Z.to_nat (a - pa)).
Proof using.
  intros Ha. unfold image_byte. rewrite (Z.mul_comm SECTSIZE), Z.div_add, Z.mod_add, Z.div_small, Z.mod_small by (unfold SECTSIZE in *; lia). by replace (0 + (sec - 1) + 1) with sec by lia.
Qed.

Lemma readsects_ok ds n : ∀ m d pa epa sec,
  disk_wf ds → idle ds d → (ata_polls < fuel)%nat → 0 ≤ pa → pa + SECTSIZE * Z.of_nat n < 2 ^ 32 → 1 ≤ sec → sec + Z.of_nat n < 2 ^ 28 →
  epa ≤ pa + SECTSIZE * Z.of_nat n → (n = 0%nat ∨ pa + SECTSIZE * Z.of_nat (n - 1) < epa) →
  ∃ m' d', loop (S n) (λ '(pa, offset), if pa <? epa then readsect pa offset ;; ret (inl (u32 (pa + SECTSIZE), u32 (offset + 1))) else ret (inr tt)) (pa, sec) (Hw m d) = Ok tt (Hw m' d') ∧
    idle ds d' ∧ ∀ a, load8 m' a = if decide (pa ≤ a < pa + SECTSIZE * Z.of_nat n) then image_byte ds (a - pa + SECTSIZE * (sec - 1)) else load8 m a.
Proof using.
  induction n as [|n IH]; intros m d pa epa sec Hwf Hi Hf Hpa Hhi Hs1 Hs2 He Hn; cbn [loop].
  - exists m, d. destruct (Z.ltb_spec pa epa); [lia|]. split; [done|]. split; [done|]. intros a. by rewrite decide_False by lia.
  - assert (pa < epa) as Hlt by (destruct Hn as [?|Hn]; [done|]; unfold SECTSIZE in *; lia). destruct (Z.ltb_spec pa epa); [|lia].
    destruct (readsect_ok ds m d pa sec Hwf Hi Hf ltac:(lia)) as (d1 & E1 & Hi1).
    destruct (sector_wf ds (0, sec) Hwf) as [Hlen Hbytes]. set (m1 := store_bytes m pa (block_at ds (0, sec))) in *.
    destruct (IH m1 d1 (pa + SECTSIZE) epa (sec + 1)) as (m' & d' & E & Hi' & Hm); try done; [unfold SECTSIZE in *; lia..|].
    exists m', d'. rewrite (bind_ok _ _ _ (inl (pa + SECTSIZE, sec + 1)) (Hw m1 d1)).
    2: { rewrite (bind_ok _ _ _ _ _ E1). unfold ret. rewrite !u32_id by (unfold SECTSIZE in *; lia). done. }
    split; [exact E|]. split; [done|]. intros a. rewrite Hm. case_decide as H1.
    + rewrite decide_True by (unfold SECTSIZE in *; lia). f_equal. unfold SECTSIZE. lia.
    + unfold m1. case_decide as H2; [|by rewrite load8_store_bytes_out by (rewrite Hlen; unfold SECTSIZE in *; lia)].
      rewrite image_sector by (unfold SECTSIZE in *; lia). assert (is_Some (block_at ds (0, sec) !! Z.to_nat (a - pa))) as [x Hx] by (apply lookup_lt_is_Some; rewrite Hlen; unfold SECTSIZE in *; lia).
      rewrite Hx. replace a with (pa + Z.of_nat (Z.to_nat (a - pa))) at 1 by lia. rewrite (load8_store_bytes_in _ _ _ _ x Hx). simpl. apply u8_id. by apply (Forall_lookup_1 _ _ _ _ Hbytes Hx).
Qed.

(** How many sectors [readseg] reads, and where the last of them ends. *)
Definition seg_start (pa off : Z) : Z := pa - off mod SECTSIZE.
Definition seg_sectors (count off : Z) : Z := (count + off mod SECTSIZE + (SECTSIZE - 1)) / SECTSIZE.
Definition seg_end (pa count off : Z) : Z := seg_start pa off + SECTSIZE * seg_sectors count off.

Lemma seg_sectors_bounds count off :
  0 ≤ count → 0 ≤ off → count + off mod SECTSIZE ≤ SECTSIZE * seg_sectors count off < count + off mod SECTSIZE + SECTSIZE.
Proof using.
  intros Hc Ho. unfold seg_sectors. pose proof (Z.mod_pos_bound off SECTSIZE eq_refl). set (x := count + off mod SECTSIZE + (SECTSIZE - 1)).
  pose proof (Z.div_mod x SECTSIZE). pose proof (Z.mod_pos_bound x SECTSIZE eq_refl). unfold SECTSIZE in *. lia.
Qed.

Lemma readseg_ok ds m d pa count off :
  disk_wf ds → idle ds d → (ata_polls < fuel)%nat → 0 ≤ count → 0 ≤ off < 2 ^ 32 → 0 ≤ seg_start pa off → seg_end pa count off < 2 ^ 32 →
  ∃ m' d', readseg pa count off (Hw m d) = Ok tt (Hw m' d') ∧ idle ds d' ∧
    ∀ a, load8 m' a = if decide (seg_start pa off ≤ a < seg_end pa count off) then image_byte ds (a - pa + off) else load8 m a.
Proof using.
  intros Hwf Hi Hf Hc Ho H0 H1. pose proof (seg_sectors_bounds count off Hc ltac:(lia)) as Hb. pose proof (Z.mod_pos_bound off SECTSIZE eq_refl) as Hmod.
  pose proof (Z.div_mod off SECTSIZE ltac:(done)) as Hdm. assert (0 ≤ off / SECTSIZE < 2 ^ 23) as Hdiv by (split; [apply Z.div_pos; [lia|done]|apply Z.div_lt_upper_bound; [done|unfold SECTSIZE; lia]]).
  unfold seg_end in *. set (n := seg_sectors count off) in *. set (pa0 := seg_start pa off) in *. assert (pa = pa0 + off mod SECTSIZE) as Hpa by (unfold pa0, seg_start; lia).
  assert (0 ≤ n) as Hn by (unfold n, seg_sectors; apply Z.div_pos; [unfold SECTSIZE in *; lia|done]).
  unfold readseg, readsects. cbv zeta. assert (u32 (pa - off mod SECTSIZE) = pa0) as -> by (rewrite u32_id; unfold pa0, seg_start, SECTSIZE in *; lia).
  rewrite !u32_id by (unfold SECTSIZE in *; lia). assert ((pa + count - pa0 + (SECTSIZE - 1)) / SECTSIZE = n) as -> by (unfold n, seg_sectors; f_equal; lia).
  destruct (readsects_ok ds (Z.to_nat n) m d pa0 (pa + count) (off / SECTSIZE + 1)) as (m' & d' & E & Hi' & Hm); try done; [unfold SECTSIZE in *; lia..|].
  exists m', d'. split; [exact E|]. split; [done|]. intros a. rewrite Hm, Z2Nat.id by done. case_decide; [|done]. f_equal. lia.
Qed.

(** ** The kernel *)

(** Numbers in the file, and its program headers. *)
Definition image_half ds (k : Z) : Z := image_byte ds k + 2 ^ 8 * image_byte ds (k + 1).
Definition image_word ds (k : Z) : Z :=
  image_byte ds k + 2 ^ 8 * image_byte ds (k + 1) + 2 ^ 16 * image_byte ds (k + 2) + 2 ^ 24 * image_byte ds (k + 3).
Record seg := Seg { g_off : Z; g_paddr : Z; g_filesz : Z; g_memsz : Z }.
Definition image_seg ds (k : Z) : seg :=
  Seg (image_word ds (k + 4)) (image_word ds (k + 12)) (image_word ds (k + 16)) (image_word ds (k + 20)).
Fixpoint image_segs ds (k : Z) (n : nat) : list seg :=
  match n with O => [] | S n => image_seg ds k :: image_segs ds (k + sizeof_proghdr) n end.
Definition kernel_segs ds : list seg := image_segs ds (image_word ds 28) (Z.to_nat (image_half ds 44)).

(** The memory that loading a segment may change. *)
Definition g_lo (g : seg) : Z := seg_start (g_paddr g) (g_off g).
Definition g_hi (g : seg) : Z := Z.max (seg_end (g_paddr g) (g_filesz g) (g_off g)) (g_paddr g + g_memsz g).
(** It lies in memory and outside the scratch space. *)
Definition seg_fits (g : seg) : Prop :=
  0 ≤ g_lo g ∧ g_hi g < 2 ^ 32 ∧ (g_hi g ≤ scratch ∨ scratch + 4096 ≤ g_lo g).
(** Loading [g'] leaves what [g] put there. *)
Definition seg_before (g g' : seg) : Prop :=
  g_paddr g + Z.max (g_filesz g) (g_memsz g) ≤ g_lo g' ∨ g_hi g' ≤ g_paddr g.

(** A segment is in memory: its bytes of the file, and zeros after them. *)
Definition seg_in ds (m : memory) (g : seg) : Prop := ∀ k, 0 ≤ k →
  (k < g_filesz g → load8 m (g_paddr g + k) = image_byte ds (g_off g + k)) ∧
  (g_filesz g ≤ k < g_memsz g → load8 m (g_paddr g + k) = 0).
Definition header_in ds (m : memory) : Prop := ∀ a, scratch ≤ a < scratch + 4096 → load8 m a = image_byte ds (a - scratch).

Lemma seg_in_ext ds m m' g g' :
  seg_in ds m g → seg_before g g' → (∀ a, a < g_lo g' ∨ g_hi g' ≤ a → load8 m' a = load8 m a) → seg_in ds m' g.
Proof using. intros Hg Hb Hm k Hk. destruct (Hg k Hk) as [H1 H2]. unfold seg_before in Hb. split; intros Hlt; rewrite Hm by lia; auto. Qed.
Lemma header_in_ext ds m m' g :
  header_in ds m → seg_fits g → (∀ a, a < g_lo g ∨ g_hi g ≤ a → load8 m' a = load8 m a) → header_in ds m'.
Proof using. intros Hh (_ & _ & Hg) Hm a Ha. rewrite Hm by lia. auto. Qed.

Lemma image_byte_range ds k : disk_wf ds → 0 ≤ image_byte ds k < 256.
Proof using.
  intros Hwf. unfold image_byte. destruct (_ !! Z.to_nat (k mod SECTSIZE)) as [x|] eqn:E; [|simpl; lia]. simpl.
  destruct (sector_wf ds (0, k / SECTSIZE + 1) Hwf) as [_ H]. by apply (Forall_lookup_1 _ _ _ _ H E).
Qed.
Lemma image_word_range ds k : disk_wf ds → 0 ≤ image_word ds k < 2 ^ 32.
Proof using.
  intros H. unfold image_word. pose proof (image_byte_range ds k H). pose proof (image_byte_range ds (k + 1) H). pose proof (image_byte_range ds (k + 2) H).
  pose proof (image_byte_range ds (k + 3) H). lia.
Qed.
Lemma image_half_range ds k : disk_wf ds → 0 ≤ image_half ds k < 2 ^ 16.
Proof using. intros H. unfold image_half. pose proof (image_byte_range ds k H). pose proof (image_byte_range ds (k + 1) H). lia. Qed.
Lemma header_word ds m k : header_in ds m → 0 ≤ k ≤ 4092 → load32 m (scratch + k) = image_word ds k.
Proof using.
  intros H Hk. unfold load32, image_word. rewrite !H by lia. repeat (f_equal; try lia).
Qed.
Lemma header_half ds m k : header_in ds m → 0 ≤ k ≤ 4094 → load16 m (scratch + k) = image_half ds k.
Proof using. intros H Hk. unfold load16, image_half. rewrite !H by lia. repeat (f_equal; try lia). Qed.

Lemma header_seg ds m ph k :
  header_in ds m → ph = scratch + k → 0 ≤ k → k + sizeof_proghdr ≤ 4096 → Seg (m_off m ph) (m_paddr m ph) (m_filesz m ph) (m_memsz m ph) = image_seg ds k.
Proof using.
  intros H -> Hk Hk'. unfold sizeof_proghdr in *. unfold m_off, m_paddr, m_filesz, m_memsz, image_seg. rewrite <-!Z.add_assoc. by rewrite !(header_word ds m) by (done || lia).
Qed.

Lemma load_ph_ok ds m d ph k :
  disk_wf ds → idle ds d → (ata_polls < fuel)%nat → header_in ds m → ph = scratch + k → 0 ≤ k → k + sizeof_proghdr ≤ 4096 →
  let g := image_seg ds k in seg_fits g →
  ∃ m' d', load_ph ph (Hw m d) = Ok tt (Hw m' d') ∧ idle ds d' ∧ seg_in ds m' g ∧ ∀ a, a < g_lo g ∨ g_hi g ≤ a → load8 m' a = load8 m a.
Proof using.
  intros Hwf Hi Hf Hh -> Hk Hk' g Hg. pose proof (header_seg ds m _ k Hh eq_refl Hk Hk') as Eg. fold g in Eg.
  assert (0 ≤ g_filesz g ∧ 0 ≤ g_off g < 2 ^ 32 ∧ 0 ≤ g_memsz g) as (G1 & G2 & G3) by (unfold g; simpl; pose proof (image_word_range ds (k + 16) Hwf); pose proof (image_word_range ds (k + 4) Hwf); pose proof (image_word_range ds (k + 20) Hwf); lia).
  destruct Hg as (Hlo & Hhi & Hsc). unfold load_ph. rewrite <-Eg in *. unfold g_lo, g_hi in *. simpl in *.
  destruct (readseg_ok ds m d _ (m_filesz m (scratch + k)) (m_off m (scratch + k)) Hwf Hi Hf G1 G2 Hlo ltac:(lia)) as (m1 & d1 & E1 & Hi1 & Hm1).
  assert (header_in ds m1) as Hh1 by (intros a Ha; rewrite Hm1, decide_False by lia; by apply Hh).
  pose proof (header_seg ds m1 _ k Hh1 eq_refl Hk Hk') as Eg1. fold g in Eg1. rewrite <-Eg in Eg1. injection Eg1 as F1 F2 F3 F4.
  unfold bind at 1, onx at 1, get at 1. simpl. rewrite (bind_ok _ _ _ _ _ E1). unfold bind at 1, onx at 1, get at 1. simpl. rewrite F3, F4.
  pose proof (seg_sectors_bounds (m_filesz m (scratch + k)) (m_off m (scratch + k)) G1 ltac:(lia)) as Hb. pose proof (Z.mod_pos_bound (m_off m (scratch + k)) SECTSIZE eq_refl) as Hmod.
  unfold seg_end, seg_start in *.
  destruct (Z.ltb_spec (m_filesz m (scratch + k)) (m_memsz m (scratch + k))) as [Hlt|Hge].
  - eexists _, d1. split; [reflexivity|]. split; [done|]. simpl hw_x. rewrite F3, F4. split.
    + intros j Hj. simpl. rewrite !load8_stosb. split; intros Hjk; [rewrite decide_False by lia|by rewrite decide_True by lia].
      rewrite Hm1, decide_True by lia. f_equal. lia.
    + intros a Ha. rewrite load8_stosb, decide_False by lia. rewrite Hm1, decide_False by lia. done.
  - exists m1, d1. split; [reflexivity|]. split; [done|]. split.
    + intros j Hj. simpl. split; intros Hjk; [|lia]. rewrite Hm1, decide_True by lia. f_equal. lia.
    + intros a Ha. rewrite Hm1, decide_False by lia. done.
Qed.

(** The loop over the headers, with the segments [done] in memory. *)
Lemma load_phs_ok ds n : ∀ m d k loaded eph,
  disk_wf ds → idle ds d → (ata_polls < fuel)%nat → header_in ds m → 0 ≤ k → k + sizeof_proghdr * Z.of_nat n ≤ 4096 → eph = scratch + k + sizeof_proghdr * Z.of_nat n →
  Forall seg_fits (image_segs ds k n) → Forall (seg_in ds m) loaded → (∀ g, g ∈ loaded → Forall (seg_before g) (image_segs ds k n)) →
  ForallOrdPairs seg_before (image_segs ds k n) →
  ∃ m' d', load_phs (S n) (scratch + k) eph (Hw m d) = Ok tt (Hw m' d') ∧ header_in ds m' ∧ Forall (seg_in ds m') (loaded ++ image_segs ds k n).
Proof using.
  unfold load_phs. induction n as [|n IH]; intros m d k loaded eph Hwf Hi Hf Hh Hk Hk' He Hfit Hin Hbef Hord; cbn [loop image_segs] in *.
  - exists m, d. destruct (Z.ltb_spec (scratch + k) eph); [lia|]. by rewrite app_nil_r.
  - destruct (Z.ltb_spec (scratch + k) eph) as [_|]; [|unfold sizeof_proghdr in *; lia]. apply Forall_cons in Hfit as [Hg Hfit]. inversion_clear Hord as [|? ? Hg2 Hord2].
    destruct (load_ph_ok ds m d _ k Hwf Hi Hf Hh eq_refl Hk ltac:(unfold sizeof_proghdr in *; lia) Hg) as (m1 & d1 & E1 & Hi1 & Hg1 & Hm1).
    rewrite (bind_ok _ _ _ (inl (scratch + (k + sizeof_proghdr))) (Hw m1 d1)).
    2: { rewrite (bind_ok _ _ _ _ _ E1). unfold ret. rewrite u32_id, Z.add_assoc by (unfold scratch, sizeof_proghdr in *; lia). done. }
    destruct (IH m1 d1 (k + sizeof_proghdr) (loaded ++ [image_seg ds k]) eph) as (m' & d' & E & H1 & H2); try done.
    { by apply (header_in_ext ds m m1 (image_seg ds k)). } { unfold sizeof_proghdr in *; lia. } { lia. } { lia. }
    { apply Forall_app. split; [|by constructor]. apply Forall_forall. intros g' Hg'. apply (seg_in_ext ds m m1 g' (image_seg ds k)); [by eapply Forall_forall|by apply (Forall_inv (Hbef g' Hg'))|done]. }
    { intros g' [Hg'|Hg'%list_elem_of_singleton]%elem_of_app; [by apply (Forall_inv_tail (Hbef g' Hg'))|by subst]. }
    exists m', d'. split; [exact E|]. split; [done|]. by rewrite <-app_assoc in H2.
Qed.

(** C17: The boot loader loads the kernel. If the first drive holds from its
    sector 1 an ELF file, whose program headers are in its first page, whose
    segments have room in memory outside the loader's scratch space, and none
    of which runs into one before it, then [bootmain] returns to no one: it
    calls the entry point of the header, with every byte of every segment at
    its physical address, and zeros in the part of a segment that the file does
    not have, however long the disk takes to be ready each time. *)
Theorem bootmain_loads ds m d :
  disk_wf ds → idle ds d → (ata_polls < fuel)%nat → image_word ds 0 = ELF_MAGIC → image_word ds 28 + sizeof_proghdr * image_half ds 44 ≤ 4096 →
  Forall seg_fits (kernel_segs ds) → ForallOrdPairs seg_before (kernel_segs ds) →
  ∃ m' d', bootmain (Hw m d) = Ok (Some (image_word ds 24)) (Hw m' d') ∧ Forall (seg_in ds m') (kernel_segs ds).
Proof using.
  intros Hwf Hi Hf Hmag Hph Hfit Hord. unfold bootmain.
  destruct (readseg_ok ds m d scratch 4096 0 Hwf Hi Hf) as (m1 & d1 & E1 & Hi1 & Hm1); try done.
  assert (header_in ds m1) as Hh1.
  { intros a Ha. rewrite Hm1, decide_True; [by rewrite Z.add_0_r|]. change (seg_start scratch 0) with scratch. by change (seg_end scratch 4096 0) with (scratch + 4096). }
  rewrite (bind_ok _ _ _ _ _ E1), (bind_ok (onx get) _ (Hw m1 d1) m1 (Hw m1 d1)) by done. pose proof (header_word ds m1 0 Hh1 ltac:(lia)) as Hm0. rewrite Z.add_0_r in Hm0.
  rewrite Hm0, !(header_word ds m1), (header_half ds m1), Hmag by (done || lia). cbv zeta. change (negb (ELF_MAGIC =? ELF_MAGIC)) with false. cbv iota.
  pose proof (image_word_range ds 28 Hwf) as Hw28. pose proof (image_half_range ds 44 Hwf) as Hn.
  rewrite !u32_id by (unfold scratch, sizeof_proghdr in *; lia).
  destruct (load_phs_ok ds (Z.to_nat (image_half ds 44)) m1 d1 (image_word ds 28) [] (scratch + image_word ds 28 + image_half ds 44 * sizeof_proghdr)) as (m' & d' & E & Hh' & Hseg); try done; [unfold sizeof_proghdr in *; lia..|by intros g ?%elem_of_nil|].
  rewrite (bind_ok _ _ _ _ _ E). exists m', d'. split; [|done]. rewrite (bind_ok (onx get) _ (Hw m' d') m' (Hw m' d')) by done. unfold ret. by rewrite (header_word ds m') by done.
Qed.
End boot.

(** ** A kernel of one segment *)
Module BootmainExamples.
Import AtaExamples.
(** A header with one program header at offset 52: ten bytes at offset 600 of
    the file go to 0x100000, followed by six zeros; the entry point is
    0x100004. *)
Definition ex_header : list Z :=
  [0x7f; 0x45; 0x4c; 0x46] ++ replicate 20 0 ++ [4; 0; 0x10; 0] ++ [52; 0; 0; 0] ++ replicate 12 0 ++ [1; 0] ++ replicate 6 0 ++
  [1; 0; 0; 0] ++ [0x58; 2; 0; 0] ++ replicate 4 0 ++ [0; 0; 0x10; 0] ++ [10; 0; 0; 0] ++ [16; 0; 0; 0] ++ replicate 8 0.
Definition ex_sector1 : list Z := ex_header ++ replicate (512 - length ex_header) 0.
Definition ex_sector2 : list Z := replicate 88 7 ++ [1; 2; 3; 4; 5; 6; 7; 8; 9; 10] ++ replicate 414 7.
Definition ex_disks : gmap (Z * Z) (list Z) := {[ (0, 1) := ex_sector1; (0, 2) := ex_sector2 ]}.
Definition ex_dev : simdisk := Simdisk (Ata false 0 0 0 0 0xe0 AIdle ex_disks false true) true.

Lemma ex_wf : disk_wf ex_disks.
Proof.
  intros k v Hk. unfold ex_disks in Hk. apply lookup_insert_Some in Hk as [[_ <-]|[_ [_ <-]%lookup_singleton_Some]];
    (split; [by vm_compute|]; apply (bool_decide_eq_true_1 _); by vm_compute).
Qed.

Lemma ex_segs : kernel_segs ex_disks = [Seg 600 0x100000 10 16].
Proof. by vm_compute. Qed.
Lemma ex_entry : image_word ex_disks 24 = 0x100004.
Proof. by vm_compute. Qed.
Lemma ex_byte : image_byte ex_disks (600 + 9) = 10.
Proof. by vm_compute. Qed.

Lemma bootmain_loads_witness : ∃ m' d', bootmain (D := simdisk) 2 (Hw ∅ ex_dev) = Ok (Some 0x100004) (Hw m' d') ∧ load8 m' (0x100000 + 9) = 10 ∧ load8 m' (0x100000 + 10) = 0.
Proof.
  destruct (bootmain_loads (D := simdisk) 2 ex_disks ∅ ex_dev) as (m' & d' & E & Hs).
  - exact ex_wf.
  - split; [reflexivity|]. split; reflexivity.
  - simpl. lia.
  - vm_compute. reflexivity.
  - vm_compute. done.
  - rewrite ex_segs. apply Forall_singleton. unfold seg_fits. vm_compute. split; [done|]. split; [done|]. by right.
  - rewrite ex_segs. constructor; constructor.
  - rewrite ex_segs in Hs. rewrite ex_entry in E. exists m', d'. split; [exact E|]. apply Forall_inv in Hs. rewrite <-ex_byte. split; [apply (Hs 9)|apply (Hs 10)]; simpl; lia.
Defined.
End BootmainExamples.
