(* ===== verification/Ide.v ===== *)
(** The disk driver on its ports, [src/ide.c].

    [Disk] models the driver as the rest of the file system sees it, with the
    blocks of the disks as a map: its [idestart] writes a block and its
    [ideintr] reads one.  Here the same functions program an ATA disk through
    its registers ([Ata]), one sector per block.  [iderw_refines] shows that
    they do what [Disk] says, on any disk that behaves as documented, as long
    as the drives of the buffers exist; for buffers that are written the disk
    must take the data right after the command ([a_nowait]), since the driver
    does not wait for it to ask. *)

From S2P Require Import Prelude Memory Machine Trap Disk Ata.
From stdpp Require Import options.
Implicit Types s : fsys.

#[local] Arguments insl : simpl never.
#[local] Arguments outsl : simpl never.

Definition IDE_CMD_RDMUL := 0xc4.
Definition IDE_CMD_WRMUL := 0xc5.

Module Ide.
Section ide.
Context {D : Type} `{!Ports D} (fuel : nat).

Definition idewait (checkerr : bool) : M (hw fsys D) Z :=
  poll fuel (λ r, if checkerr && negb (Z.land r (Z.lor IDE_DF IDE_ERR) =? 0) then -1 else 0).

(** The interrupt controller's part is an argument. *)
Definition ideinit (ioapicenable : Z → Z → M (hw fsys D) unit) (ncpu : Z) : M (hw fsys D) unit :=
  onx (modify (λ s, s <| d_idelock := false |>)) ;;
  ioapicenable IRQ_IDE (ncpu - 1) ;;
  idewait false ;;
  outb 0x1f6 (Z.lor 0xe0 (Z.shiftl 1 4)) ;;
  for_up 1000 0 (λ _,
    r <- inb 0x1f7 ;;
    if negb (r =? 0) then onx (modify (λ s, s <| d_havedisk1 := true |>)) ;; ret (Some tt) else ret None) ;;
  outb 0x1f6 (Z.lor 0xe0 (Z.shiftl 0 4)).

Definition idestart (bi : option nat) : M (hw fsys D) unit :=
  match bi with
  | None => panic "idestart"
  | Some i =>
      b <- onx (getbuf i) ;;
      if FSSIZE <=? b_blockno b then panic "incorrect blockno" else
      let sector_per_block := BSIZE / SECTOR_SIZE in
      let sector := b_blockno b * sector_per_block in
      let read_cmd := if sector_per_block =? 1 then IDE_CMD_READ else IDE_CMD_RDMUL in
      let write_cmd := if sector_per_block =? 1 then IDE_CMD_WRITE else IDE_CMD_WRMUL in
      if 7 <? sector_per_block then panic "idestart" else
      idewait false ;;
      outb 0x3f6 0 ;;
      outb 0x1f2 sector_per_block ;;
      outb 0x1f3 (Z.land sector 0xff) ;;
      outb 0x1f4 (Z.land (Z.shiftr sector 8) 0xff) ;;
      outb 0x1f5 (Z.land (Z.shiftr sector 16) 0xff) ;;
      outb 0x1f6 (Z.lor (Z.lor 0xe0 (Z.shiftl (Z.land (b_dev b) 1) 4)) (Z.land (Z.shiftr sector 24) 0x0f)) ;;
      if b_dirty b then
        outb 0x1f7 write_cmd ;;
        outsl 0x1f0 (b_data b) (Z.to_nat (BSIZE / 4))
      else outb 0x1f7 read_cmd
  end.

Definition ideintr : M (hw fsys D) unit :=
  onx (acquire d_idelock) ;;
  q <- onx (gets d_idequeue) ;;
  match q with
  | [] => onx (release d_idelock)
  | i :: q =>
      onx (modify (λ s, s <| d_idequeue := q |>)) ;;
      b <- onx (getbuf i) ;;
      (if b_dirty b then skip else
         r <- idewait true ;;
         if 0 <=? r then l <- insl 0x1f0 (Z.to_nat (BSIZE / 4)) ;; onx (modbuf i (λ b, b <| b_data := l |>)) else skip) ;;
      onx (modbuf i (λ b, b <| b_valid := true |> <| b_dirty := false |>)) ;;
      onx (wakeup_on (ChBufIO i)) ;;
      (match q with [] => skip | j :: _ => idestart (Some j) end) ;;
      onx (release d_idelock)
  end.

Definition ide_wait (n : nat) (i : nat) : M (hw fsys D) unit :=
  loop n (λ _ : unit,
    b <- onx (getbuf i) ;;
    if b_valid b && negb (b_dirty b) then ret (inr tt)
    else onx (release d_idelock) ;; ideintr ;; onx (acquire d_idelock) ;; ret (inl tt)) tt.

Definition iderw (i : nat) : M (hw fsys D) unit :=
  b <- onx (getbuf i) ;;
  if negb (b_locked b) then panic "iderw: buf not locked" else
  if b_valid b && negb (b_dirty b) then panic "iderw: nothing to do" else
  have <- onx (gets d_havedisk1) ;;
  if negb (b_dev b =? 0) && negb have then panic "iderw: ide disk 1 not present" else
  onx (acquire d_idelock) ;;
  q <- onx (gets d_idequeue) ;;
  onx (modify (λ s, s <| d_idequeue := q ++ [i] |>)) ;;
  (if bool_decide (head (q ++ [i]) = Some i) then idestart (Some i) else skip) ;;
  ide_wait (S (S (length q))) i ;;
  onx (release d_idelock).
End ide.
End Ide.

(** ** Simulation *)

(** The state of the driver without the model's disk. *)
Definition hide (bl : gmap (Z * Z) (list Z)) (wr : list (Z * Z * list Z)) s : fsys := s <| d_blocks := bl |> <| d_writes := wr |>.
(** What the driver can do for a buffer: it has the size of a block, its drive
    exists, and it is only to be written if the disk takes the data right after
    the command. *)
Record buf_ok (nowait have1 : bool) (b : buf) : Prop := {
  bo_length : length (b_data b) = Z.to_nat BSIZE;
  bo_blockno : 0 ≤ b_blockno b;
  bo_write : b_dirty b = true → nowait = true;
  bo_drive : Z.land (b_dev b) 1 = 1 → have1 = true;
}.
Record sized (nowait have1 : bool) s : Prop := {
  sz_bufs i b : d_bufs s !! i = Some b → buf_ok nowait have1 b;
  sz_blocks k v : d_blocks s !! k = Some v → length v = Z.to_nat BSIZE;
}.

(** What the disk has been told to do for the first request of the queue. *)
Definition phase_of (bs : list buf) (bl : gmap (Z * Z) (list Z)) (bi : option nat) : ata_phase :=
  match i ← bi; bs !! i with
  | Some b => if b_dirty b then AIdle else ADataIn (block_at bl (disk_key b))
  | None => AIdle
  end.

Section sim.
Context {D : Type} `{!Ports D} `{!AtaDisk D} (fuel : nat) (Hfuel : (ata_polls < fuel)%nat).
Implicit Types h : hw fsys D.

Section disk.
Context (nowait have1 : bool).       (* of the disk *)

Record agree (ph : ata_phase) h s : Prop := {
  ag_x : ∃ bl wr, hw_x h = hide bl wr s;
  ag_disks : a_disks (ata_of (hw_dev h)) = d_blocks s;
  ag_phase : a_phase (ata_of (hw_dev h)) = ph;
  ag_present : a_present (ata_of (hw_dev h)) = true;
  ag_have : a_have1 (ata_of (hw_dev h)) = have1;
  ag_nowait : a_nowait (ata_of (hw_dev h)) = nowait;
  ag_sized : sized nowait have1 s;
}.

(** Outcomes of the two drivers. *)
Definition same_out {A} (R : A → hw fsys D → fsys → Prop) (r1 : outcome (hw fsys D) A) (r2 : outcome fsys A) : Prop :=
  match r1, r2 with
  | Ok a h, Ok a' s => a = a' ∧ R a h s
  | Panic m, Panic m' => m = m'
  | UB m, UB m' => m = m'
  | Blocked c _, Blocked c' _ => c = c'
  | Spins, Spins | Fuel, Fuel => True
  | _, _ => False
  end.
Definition sim {A} (R1 : hw fsys D → fsys → Prop) (m1 : M (hw fsys D) A) (m2 : M fsys A) (R2 : A → hw fsys D → fsys → Prop) : Prop :=
  ∀ h s, R1 h s → same_out R2 (m1 h) (m2 s).

Lemma sim_bind {A B} R1 R2 R3 (m1 : M (hw fsys D) A) m2 (k1 : A → M (hw fsys D) B) k2 :
  sim R1 m1 m2 R2 → (∀ a, sim (R2 a) (k1 a) (k2 a) R3) → sim R1 (bind m1 k1) (bind m2 k2) R3.
Proof using.
  intros Hm Hk h s HR. specialize (Hm h s HR). unfold bind, obind. destruct (m1 h), (m2 s); simpl in *; try done. destruct Hm as [<- HR2]. by apply Hk.
Qed.
Lemma sim_ret {A} R (a : A) : sim (R a) (ret a) (ret a) R.
Proof using. by intros h s HR. Qed.
Lemma sim_panic {A} R msg (R2 : A → _) : sim R (panic msg) (panic msg) R2.
Proof using. by intros h s HR. Qed.
Lemma sim_pre {A} (R1 R1' : hw fsys D → fsys → Prop) (m1 : M (hw fsys D) A) m2 R2 : sim R1' m1 m2 R2 → (∀ h s, R1 h s → R1' h s) → sim R1 m1 m2 R2.
Proof using. intros H Hi h s HR. by apply H, Hi. Qed.

(** Steps that do not look at the disk. *)
Definition blind {A} (m : M fsys A) : Prop := ∀ bl wr s,
  m (hide bl wr s) = match m s with
    | Ok a s' => Ok a (hide bl wr s') | Panic msg => Panic msg | Blocked c s' => Blocked c (hide bl wr s') | Spins => Spins | UB w => UB w | Fuel => Fuel
    end.

Lemma hide_blocks bl wr s : d_blocks (hide bl wr s) = bl.
Proof using. done. Qed.
Lemma hide_id s : hide (d_blocks s) (d_writes s) s = s.
Proof using. by destruct s. Qed.

Lemma sim_onx {A} ph (P : fsys → Prop) (Q : A → fsys → Prop) m :
  blind m → (∀ s, sized nowait have1 s → P s → wlp m (λ a s', Q a s' ∧ ∀ i b, d_bufs s' !! i = Some b → buf_ok nowait have1 b) s) →
  sim (λ h s, agree ph h s ∧ P s) (onx m) m (λ a h s, agree ph h s ∧ Q a s).
Proof using.
  intros Hb Hw h s [[(bl & wr & Hx) Hd Hp Hpr Hh Hn Hs] HP]. specialize (Hw s Hs HP). unfold onx. rewrite Hx, Hb. unfold wlp in Hw. destruct (m s) as [a s'| | | | |] eqn:E; simpl; try done.
  destruct Hw as [HQ Hbufs]. split; [done|]. split; [|done]. assert (d_blocks s' = d_blocks s) as Hbl.
  { pose proof (Hb (d_blocks s) (d_writes s) s) as H. rewrite hide_id, E in H. injection H as H. by rewrite H. }
  split; simpl; try done; [by exists bl, wr|by rewrite Hbl|]. split; [done|]. rewrite Hbl. apply Hs.
Qed.

Lemma blind_getbuf i : blind (getbuf i).
Proof using. intros bl wr s. unfold getbuf, bind, gets, hide, upd. simpl. unfold of_option. by destruct (d_bufs s !! i). Qed.
Lemma blind_modbuf i f : blind (modbuf i f).
Proof using. intros bl wr s. unfold modbuf, getbuf, bind, gets, hide, upd, of_option. simpl. by destruct (d_bufs s !! i). Qed.
Lemma blind_acquire : blind (acquire d_idelock).
Proof using. intros bl wr s. unfold acquire, bind, gets, hide, upd. simpl. by destruct (d_idelock s). Qed.
Lemma blind_release : blind (release d_idelock).
Proof using. intros bl wr s. unfold release, bind, gets, hide, upd. simpl. by destruct (d_idelock s). Qed.
Lemma blind_wakeup c : blind (wakeup_on c).
Proof using. by intros bl wr s. Qed.

(** Facts about the buffers, the queue and the blocks. *)
Implicit Types P : list buf → list nat → gmap (Z * Z) (list Z) → Prop.
Definition with_p (ph : ata_phase) P h s : Prop := agree ph h s ∧ P (d_bufs s) (d_idequeue s) (d_blocks s).

Lemma sim_getbuf ph P i : sim (with_p ph P) (onx (getbuf i)) (getbuf i) (λ b, with_p ph (λ bs q bl, P bs q bl ∧ bs !! i = Some b)).
Proof using.
  apply (sim_onx ph (λ s, P (d_bufs s) (d_idequeue s) (d_blocks s)) (λ b s, P (d_bufs s) (d_idequeue s) (d_blocks s) ∧ d_bufs s !! i = Some b)); [apply blind_getbuf|]. intros s Hs HP.
  unfold getbuf. apply wlp_bind, wlp_gets, wlp_of_option. intros b Hb. split; [done|apply Hs].
Qed.
Lemma sim_gets {A} ph P (f : fsys → A) : (∀ bl wr s, f (hide bl wr s) = f s) →
  sim (with_p ph P) (onx (gets f)) (gets f) (λ _, with_p ph P).
Proof using.
  intros Hf. apply (sim_onx ph (λ s, P (d_bufs s) (d_idequeue s) (d_blocks s)) (λ _ s, P (d_bufs s) (d_idequeue s) (d_blocks s))); [intros bl wr s; unfold gets; by rewrite Hf|].
  intros s Hs HP. apply wlp_gets. split; [done|apply Hs].
Qed.
Lemma sim_queue ph P : sim (with_p ph P) (onx (gets d_idequeue)) (gets d_idequeue) (λ q, with_p ph (λ bs q' bl, P bs q' bl ∧ q' = q)).
Proof using.
  apply (sim_onx ph (λ s, P (d_bufs s) (d_idequeue s) (d_blocks s)) (λ q s, P (d_bufs s) (d_idequeue s) (d_blocks s) ∧ d_idequeue s = q)); [done|]. intros s Hs HP. apply wlp_gets. split; [done|apply Hs].
Qed.
Lemma sim_setqueue ph P q : sim (with_p ph (λ bs _ bl, P bs q bl)) (onx (modify (λ s, s <| d_idequeue := q |>))) (modify (λ s, s <| d_idequeue := q |>)) (λ _, with_p ph P).
Proof using.
  apply (sim_onx ph (λ s, P (d_bufs s) q (d_blocks s)) (λ _ s, P (d_bufs s) (d_idequeue s) (d_blocks s))); [done|]. intros s Hs HP. apply wlp_modify. split; [done|apply Hs].
Qed.
Lemma sim_acquire ph P : sim (with_p ph P) (onx (acquire d_idelock)) (acquire d_idelock) (λ _, with_p ph P).
Proof using.
  apply (sim_onx ph (λ s, P (d_bufs s) (d_idequeue s) (d_blocks s)) (λ _ s, P (d_bufs s) (d_idequeue s) (d_blocks s))); [apply blind_acquire|]. intros s Hs HP.
  unfold acquire. apply wlp_bind, wlp_gets. case_match; [done|]. apply wlp_modify. split; [done|apply Hs].
Qed.
Lemma sim_release ph P : sim (with_p ph P) (onx (release d_idelock)) (release d_idelock) (λ _, with_p ph P).
Proof using.
  apply (sim_onx ph (λ s, P (d_bufs s) (d_idequeue s) (d_blocks s)) (λ _ s, P (d_bufs s) (d_idequeue s) (d_blocks s))); [apply blind_release|]. intros s Hs HP.
  unfold release. apply wlp_bind, wlp_gets. case_match; [|done]. apply wlp_modify. split; [done|apply Hs].
Qed.
Lemma sim_wakeup ph P c : sim (with_p ph P) (onx (wakeup_on c)) (wakeup_on c) (λ _, with_p ph P).
Proof using.
  apply (sim_onx ph (λ s, P (d_bufs s) (d_idequeue s) (d_blocks s)) (λ _ s, P (d_bufs s) (d_idequeue s) (d_blocks s))); [apply blind_wakeup|]. intros s Hs HP. apply wlp_modify. split; [done|apply Hs].
Qed.

(** The command for a buffer. *)
Lemma idestart_command h b :
  0 ≤ b_blockno b < FSSIZE → a_phase (ata_of (hw_dev h)) = AIdle → a_present (ata_of (hw_dev h)) = true →
  buf_ok (a_nowait (ata_of (hw_dev h))) (a_have1 (ata_of (hw_dev h))) b → ∀ i, d_bufs (hw_x h) !! i = Some b →
  ∃ d, Ide.idestart fuel (Some i) h = Ok tt (Hw (hw_x h) d) ∧ 
    a_present (ata_of d) = true ∧ a_have1 (ata_of d) = a_have1 (ata_of (hw_dev h)) ∧ a_nowait (ata_of d) = a_nowait (ata_of (hw_dev h)) ∧
    a_phase (ata_of d) = (if b_dirty b then AIdle else ADataIn (block_at (a_disks (ata_of (hw_dev h))) (disk_key b))) ∧
    a_disks (ata_of d) = (if b_dirty b then <[disk_key b := b_data b]> (a_disks (ata_of (hw_dev h))) else a_disks (ata_of (hw_dev h))).
Proof using Hfuel.
  intros Hn Hp Hpr [Hl _ Hwr Hd] i Hi. unfold Ide.idestart. rewrite (bind_ok (onx (getbuf i)) _ h b h) by (destruct h; unfold onx, getbuf, bind, gets, of_option; simpl in *; by rewrite Hi).
  destruct (Z.leb_spec FSSIZE (b_blockno b)); [lia|]. change (BSIZE / SECTOR_SIZE) with 1. cbv zeta. rewrite Z.mul_1_r. change (7 <? 1) with false. change (1 =? 1) with true. cbv iota.
  destruct (poll_ok fuel (λ r, if false && negb (Z.land r (Z.lor IDE_DF IDE_ERR) =? 0) then -1 else 0) h) as (r & d1 & E1 & A1 & _); [done|done|].
  unfold Ide.idewait. rewrite (bind_ok _ _ _ _ _ E1). clear E1. destruct (outb_ok 0x3f6 0 (Hw (hw_x h) d1) (ata_of d1) eq_refl) as (d2 & E2 & A2). rewrite (bind_ok _ _ _ _ _ E2). clear E2. simpl hw_x.
  set (n := b_blockno b) in *. set (K := if b_dirty b then _ else _). assert (0 ≤ n < 2 ^ 10) as Hn' by (unfold FSSIZE in *; lia).
  assert (0 ≤ Z.land (b_dev b) 1 < 2) as Hdrv by (rewrite Z.land_ones with (n := 1) by lia; apply Z.mod_pos_bound; lia).
  assert (∀ z, u8 (Z.land z 0xff) = u8 z) as Hff by (intros z; rewrite Z.land_ones with (n := 8) by lia; apply Z.mod_mod; lia).
  destruct (select_sector (Z.land (b_dev b) 1) n (Z.land n 0xff) (Z.land (Z.shiftr n 8) 0xff) (Z.land (Z.shiftr n 16) 0xff)
    (Z.lor (Z.lor 0xe0 (Z.shiftl (Z.land (b_dev b) 1) 4)) (Z.land (Z.shiftr n 24) 0x0f)) K (Hw (hw_x h) d2)) as (d3 & E3 & S3); try done.
  { simpl. by rewrite A2, A1. } { simpl. by rewrite A2, A1. } { lia. } { by rewrite Hff, Z.shiftr_div_pow2. } { by rewrite Hff, Z.shiftr_div_pow2. }
  { rewrite Z.shiftr_div_pow2, Z.div_small by lia. assert (Z.land (b_dev b) 1 = 0 ∨ Z.land (b_dev b) 1 = 1) as [->| ->] by lia; done. }
  rewrite E3. clear E3. simpl hw_x. simpl hw_dev in S3. rewrite A2, A1 in S3. unfold K.
  assert (Z.land (b_dev b) 1 = 0 ∨ a_have1 (ata_of (hw_dev h)) = true) as Hh by (destruct (decide (Z.land (b_dev b) 1 = 1)) as [E|]; [right; by apply Hd|left; lia]).
  assert (a_present (ata_of d3) = true) as Hpr3.
  { unfold a_present. rewrite (se_drive _ _ _ _ S3), (se_have1 _ _ _ _ S3). simpl. destruct Hh as [-> | ->]; [done|apply orb_true_r]. }
  destruct (b_dirty b).
  - pose proof (selected_command _ _ _ _ (u8 IDE_CMD_WRITE) S3 Hh) as Hcmd. simpl in Hcmd.
    destruct (outb_ok 0x1f7 IDE_CMD_WRITE (Hw (hw_x h) d3) _ Hcmd) as (d4 & E4 & A4). rewrite (bind_ok _ _ _ _ _ E4). clear E4. simpl hw_x.
    destruct (outsl_ok 127 (Hw (hw_x h) d4) (b_data b) (Z.land (b_dev b) 1, n) []) as (d5 & E5 & A5); [simpl; rewrite A4; by apply Hwr|by simpl; rewrite A4|by rewrite Hl|change ([] ++ b_data b) with (b_data b); by rewrite Hl|].
    exists d5. change (Z.to_nat (BSIZE / 4)) with 128%nat. split; [exact E5|]. simpl in A5. split; [rewrite A5, A4; exact Hpr3|]. rewrite A5, A4. unfold upd. simpl. rewrite (se_have1 _ _ _ _ S3), (se_nowait _ _ _ _ S3), (se_disks _ _ _ _ S3). done.
  - pose proof (selected_command _ _ _ _ (u8 IDE_CMD_READ) S3 Hh) as Hcmd. simpl in Hcmd.
    destruct (outb_ok 0x1f7 IDE_CMD_READ (Hw (hw_x h) d3) _ Hcmd) as (d4 & E4 & A4). exists d4. split; [exact E4|]. split; [rewrite A4; exact Hpr3|]. rewrite A4. unfold upd. simpl.
    rewrite (se_have1 _ _ _ _ S3), (se_nowait _ _ _ _ S3), (se_disks _ _ _ _ S3). done.
Qed.

Lemma sim_ext {A} R1 (m1 m1' : M (hw fsys D) A) m2 m2' R2 : sim R1 m1' m2' R2 → (∀ h, m1 h = m1' h) → (∀ s, m2 s = m2' s) → sim R1 m1 m2 R2.
Proof using. intros H E1 E2 h s HR. rewrite E1, E2. by apply H. Qed.

(** The phase is that of the first request. *)
Definition pending (bi : list nat → option nat) P h s : Prop := with_p (phase_of (d_bufs s) (d_blocks s) (bi (d_idequeue s))) P h s.

Lemma pending_const ph bi P h s : with_p ph (λ bs q bl, P bs q bl ∧ phase_of bs bl (bi q) = ph) h s → pending bi P h s.
Proof using. intros (Ha & HP & <-). by split. Qed.

(** Steps that keep buffers, queue and blocks. *)
Lemma sim_pending {A} bi P (m : M fsys A) :
  (∀ ph P, sim (with_p ph P) (onx m) m (λ _, with_p ph P)) → sim (pending bi P) (onx m) m (λ _, pending bi P).
Proof using.
  intros Hm h s [Ha HP]. set (ph := phase_of (d_bufs s) (d_blocks s) (bi (d_idequeue s))) in *.
  specialize (Hm ph (λ bs q bl, P bs q bl ∧ phase_of bs bl (bi q) = ph) h s (conj Ha (conj HP eq_refl))). unfold same_out in *. destruct (onx m h), (m s); try done.
  destruct Hm as [-> Hm]. split; [done|]. by apply pending_const in Hm.
Qed.

Lemma idestart_sim i P : (∀ bs q bl bl', P bs q bl → P bs q bl') →
  sim (with_p AIdle P) (Ide.idestart fuel (Some i)) (idestart (Some i)) (λ _, pending (λ _, Some i) P).
Proof using Hfuel.
  intros HPb h s [[(bl & wr & Hx) Hd Hp Hpr Hh Hn Hs] HP]. destruct h as [x d]. simpl in Hx, Hd, Hp, Hpr, Hh, Hn. subst x. destruct (d_bufs s !! i) as [b|] eqn:Eb.
  2: { unfold Ide.idestart, idestart, onx, getbuf, bind, gets, of_option. simpl. by rewrite Eb. }
  pose proof (sz_bufs _ _ s Hs i b Eb) as Hbo. pose proof (bo_blockno _ _ _ Hbo) as Hb0. pose proof (bo_length _ _ _ Hbo) as Hl. assert (getbuf i s = Ok b s) as Eg by (unfold getbuf, bind, gets, of_option; simpl; by rewrite Eb).
  unfold idestart at 1. rewrite (bind_ok _ _ _ _ _ Eg). destruct (Z.leb_spec FSSIZE (b_blockno b)) as [Hge|Hlt].
  - unfold Ide.idestart. rewrite (bind_ok (onx (getbuf i)) _ _ b (Hw (hide bl wr s) d)) by (unfold onx; simpl; by rewrite (blind_getbuf i bl wr s), Eg).
    by destruct (Z.leb_spec FSSIZE (b_blockno b)); [|lia].
  - destruct (idestart_command (Hw (hide bl wr s) d) b (conj Hb0 Hlt) Hp Hpr ltac:(simpl; by rewrite Hn, Hh) i Eb) as (d' & E & A0 & A1 & A2 & A3 & A4). rewrite E. simpl in A1, A2, A3, A4 |- *. rewrite Hd in A3, A4. rewrite Hh in A1. rewrite Hn in A2.
    destruct (b_dirty b) eqn:Edi.
    + split; [done|]. split; [|by eapply HPb]. unfold upd. simpl. split; simpl; try done; [by exists bl, wr|by rewrite A3; unfold phase_of; simpl; rewrite Eb, Edi|].
      split; simpl; [apply Hs|]. intros k v [[_ <-]|[_ Hk]]%lookup_insert_Some; [done|by eapply sz_blocks].
    + split; [done|]. split; [|done]. split; simpl; try done; [by exists bl, wr|by rewrite A3; unfold phase_of; simpl; rewrite Eb, Edi].
Qed.

(** The end of a request: the data of a read goes to the buffer. *)
Definition finish1 (i : nat) (b : buf) : M (hw fsys D) unit :=
  (if b_dirty b then skip else
     r <- Ide.idewait fuel true ;;
     if 0 <=? r then l <- insl 0x1f0 (Z.to_nat (BSIZE / 4)) ;; onx (modbuf i (λ b, b <| b_data := l |>)) else skip) ;;
  onx (modbuf i (λ b, b <| b_valid := true |> <| b_dirty := false |>)).
Definition finish2 (i : nat) : M fsys unit :=
  disk <- gets d_blocks ;;
  modbuf i (λ b, (if b_dirty b then b else b <| b_data := block_at disk (disk_key b) |>) <| b_valid := true |> <| b_dirty := false |>).

Lemma modbuf_eq i b f s : d_bufs s !! i = Some b → modbuf i f s = Ok tt (s <| d_bufs ::= <[i := f b]> |>).
Proof using. intros Hb. unfold modbuf, getbuf, bind, gets, of_option, modify. simpl. by rewrite Hb. Qed.

(** The data of a finished read. *)
Lemma read_data h b s i :
  agree (ADataIn (block_at (d_blocks s) (disk_key b))) h s → d_bufs s !! i = Some b → ∃ d,
  (r <- Ide.idewait fuel true ;; if 0 <=? r then l <- insl 0x1f0 (Z.to_nat (BSIZE / 4)) ;; onx (modbuf i (λ b, b <| b_data := l |>)) else skip) h =
    Ok tt (Hw ((hw_x h) <| d_bufs ::= <[i := b <| b_data := block_at (d_blocks s) (disk_key b) |>]> |>) d) ∧
  ata_of d = (ata_of (hw_dev h)) <| a_ready := true |> <| a_phase := AIdle |>.
Proof using Hfuel.
  intros [(bl & wr & Hx) Hd Hp Hpr Hh Hn Hs] Hb. set (l := block_at (d_blocks s) (disk_key b)) in *. assert (length l = Z.to_nat BSIZE) as Hl.
  { unfold l, block_at. destruct (d_blocks s !! disk_key b) eqn:E; [by eapply sz_blocks|done]. }
  unfold Ide.idewait. destruct (poll_ok fuel (λ r, if true && negb (Z.land r (Z.lor IDE_DF IDE_ERR) =? 0) then -1 else 0) h) as (r & d1 & E1 & A1 & Hr); [done|done|].
  rewrite (bind_ok _ _ _ _ _ E1), Hr. change (0 <=? _) with true. cbv iota.
  destruct (insl_ok 127 (Hw (hw_x h) d1) l) as (d2 & E2 & A2); [by simpl; rewrite A1|by simpl; rewrite A1|by rewrite Hl|]. change (Z.to_nat (BSIZE / 4)) with 128%nat.
  rewrite (bind_ok (insl 0x1f0 128) _ _ _ _ E2). exists d2. simpl hw_x. unfold onx. simpl hw_x. rewrite (modbuf_eq i b) by (by rewrite Hx). split; [done|]. rewrite A2. simpl hw_dev. by rewrite A1.
Qed.

Lemma finish_sim i b P :
  (∀ bs q bl b', P bs q bl → P (<[i := b']> bs) q bl) →
  sim (λ h s, with_p (phase_of (d_bufs s) (d_blocks s) (Some i)) (λ bs q bl, P bs q bl ∧ bs !! i = Some b) h s) (finish1 i b) (finish2 i) (λ _, with_p AIdle P).
Proof using Hfuel.
  intros HPb h s (Ha & HP & Hb). pose proof (ag_sized _ _ _ Ha) as Hs. pose proof (sz_bufs _ _ s Hs i b Hb) as [Hl Hb0 _ Hb1]. unfold phase_of in Ha. simpl in Ha. rewrite Hb in Ha.
  assert (∀ b', length (b_data b') = Z.to_nat BSIZE → b_blockno b' = b_blockno b → b_dirty b' = false → b_dev b' = b_dev b → sized nowait have1 (s <| d_bufs ::= <[i := b']> |>)) as Hsz.
  { intros b' H1 H2 H3 H4. split; simpl; [|apply Hs]. intros j c [(_ & <- & _)|[_ Hc]]%list_lookup_insert_Some; [|by eapply sz_bufs].
    split; [done|by rewrite H2|by rewrite H3|by rewrite H4]. }
  unfold finish2, bind at 1, gets at 1. cbn [obind]. rewrite (modbuf_eq i b _ s Hb). unfold finish1. destruct (b_dirty b) eqn:Edi.
  - destruct Ha as [(bl & wr & Hx) Hd Hp Hpr Hh Hn _]. unfold bind at 1, skip, ret. simpl obind. unfold onx. rewrite (modbuf_eq i b) by (by rewrite Hx). simpl. split; [done|].
    split; [|by apply HPb]. split; simpl; try done; [exists bl, wr; by rewrite Hx|]. by apply Hsz.
  - destruct (read_data h b s i Ha Hb) as (d & E & A). rewrite (bind_ok _ _ _ _ _ E). destruct Ha as [(bl & wr & Hx) Hd Hp Hpr Hh Hn _]. set (l := block_at (d_blocks s) (disk_key b)) in *.
    unfold onx. simpl hw_x. rewrite (modbuf_eq i (b <| b_data := l |>)) by (rewrite Hx; unfold upd; simpl; apply list_lookup_insert_eq; by eapply lookup_lt_Some). simpl. split; [done|].
    split; [|by apply HPb]. split; simpl; try (rewrite A; done); [|by apply Hsz; [|done..]; simpl; unfold l, block_at; destruct (d_blocks s !! disk_key b) eqn:E'; [eapply sz_blocks|]].
    exists bl, wr. rewrite Hx. unfold hide, upd. simpl. f_equal. by rewrite list_insert_insert_eq.
Qed.

Lemma bind_assoc {St A B C} (m : M St A) (k1 : A → M St B) (k2 : B → M St C) (s : St) : bind m (λ a, bind (k1 a) k2) s = bind (bind m k1) k2 s.
Proof using. unfold bind, obind. by destruct (m s). Qed.

(** From one fixed phase to the phase of the first request. *)
Lemma sim_fix {A} bi P (m1 : M (hw fsys D) A) m2 R :
  (∀ ph, sim (with_p ph (λ bs q bl, P bs q bl ∧ phase_of bs bl (bi q) = ph)) m1 m2 R) → sim (pending bi P) m1 m2 R.
Proof using. intros H h s [Ha HP]. eapply H. split; [exact Ha|]. by split. Qed.
Lemma sim_post {A} R1 (m1 : M (hw fsys D) A) m2 (R2 R2' : A → hw fsys D → fsys → Prop) : sim R1 m1 m2 R2 → (∀ a h s, R2 a h s → R2' a h s) → sim R1 m1 m2 R2'.
Proof using. intros H Hi h s HR. specialize (H h s HR). unfold same_out in *. destruct (m1 h), (m2 s); try done. destruct H as [-> H]. split; [done|]. by apply Hi. Qed.

Lemma pending_getbuf bi P i : sim (pending bi P) (onx (getbuf i)) (getbuf i) (λ b, pending bi (λ bs q bl, P bs q bl ∧ bs !! i = Some b)).
Proof using. apply sim_fix. intros ph. eapply sim_post; [apply sim_getbuf|]. intros b h s (Ha & (HP & Hph) & Hb). apply (pending_const ph). split; [exact Ha|]. by split. Qed.
Lemma pending_queue bi P : sim (pending bi P) (onx (gets d_idequeue)) (gets d_idequeue) (λ q, pending bi (λ bs q' bl, P bs q' bl ∧ q' = q)).
Proof using. apply sim_fix. intros ph. eapply sim_post; [apply sim_queue|]. intros q h s (Ha & (HP & Hph) & Hq). apply (pending_const ph). split; [exact Ha|]. by split. Qed.
Lemma pending_setqueue bi bi' P q q' :
  (∀ bs bl, P bs q bl → phase_of bs bl (bi q) = phase_of bs bl (bi' q')) →
  sim (pending bi (λ bs p bl, P bs q bl ∧ p = q)) (onx (modify (λ s, s <| d_idequeue := q' |>))) (modify (λ s, s <| d_idequeue := q' |>)) (λ _, pending bi' (λ bs p bl, P bs q bl ∧ p = q')).
Proof using.
  intros Hphase. apply sim_fix. intros ph. eapply sim_post; [eapply sim_pre; [apply (sim_setqueue ph (λ bs p bl, (P bs q bl ∧ p = q') ∧ phase_of bs bl (bi' p) = ph))|]|].
  - intros h s (Ha & (HP & Hq) & Hph). split; [done|]. split; [done|]. rewrite <-Hph, Hq. symmetry. by apply Hphase.
  - intros _ h s (Ha & HP & Hph). by apply (pending_const ph).
Qed.

Abbreviation waiting := (pending head (λ _ _ _, True)).

Lemma release_waiting bi P : sim (pending bi P) (onx (release d_idelock)) (release d_idelock) (λ _, pending bi P).
Proof using. apply sim_pending. intros. apply sim_release. Qed.
Lemma acquire_waiting bi P : sim (pending bi P) (onx (acquire d_idelock)) (acquire d_idelock) (λ _, pending bi P).
Proof using. apply sim_pending. intros. apply sim_acquire. Qed.

Lemma ideintr_sim : sim waiting (Ide.ideintr fuel) ideintr (λ _, waiting).
Proof using Hfuel.
  unfold Ide.ideintr, ideintr. eapply sim_bind; [apply acquire_waiting|]. intros []. eapply sim_bind; [apply pending_queue|]. intros [|i q].
  - eapply sim_post; [apply release_waiting|]. intros [] h s [Ha _]. by split.
  - eapply sim_bind; [apply (pending_setqueue head (λ _, Some i) (λ _ _ _, True) (i :: q) q); done|]. intros []. eapply sim_bind; [apply pending_getbuf|]. intros b.
    eapply sim_ext; [|intros h; apply bind_assoc|intros s; apply bind_assoc].
    eapply sim_bind; [eapply sim_pre; [apply (finish_sim i b (λ _ p _, p = q)); done|]|].
    { intros h s (Ha & (_ & Hq) & Hb). split; [exact Ha|]. by split. }
    intros []. eapply sim_bind; [apply sim_wakeup|]. intros []. destruct q as [|j q].
    + eapply sim_bind; [apply (sim_ret (λ _, with_p AIdle (λ _ p _, p = [])))|]. intros []. eapply sim_post; [apply sim_release|]. intros [] h s [Ha Hq]. split; [|done]. by rewrite Hq.
    + eapply sim_bind; [apply (idestart_sim j (λ _ p _, p = j :: q)); done|]. intros []. eapply sim_post; [apply release_waiting|]. intros [] h s [Ha Hq]. split; [|done]. by rewrite Hq.
Qed.

Lemma ide_wait_sim n i : sim waiting (Ide.ide_wait fuel n i) (ide_wait n i) (λ _, waiting).
Proof using Hfuel.
  unfold Ide.ide_wait, ide_wait. induction n as [|n IH]; [by intros h s HR|]. cbn [loop]. eapply (sim_bind _ (λ _, waiting)); [|intros [[]|[]]; [exact IH|apply (sim_ret (λ _, waiting))]].
  eapply sim_bind; [apply pending_getbuf|]. intros b. destruct (b_valid b && negb (b_dirty b)).
  - eapply sim_pre; [apply (sim_ret (λ _, waiting))|]. intros h s [Ha _]. by split.
  - eapply sim_pre with (R1' := waiting); [|intros h s [Ha _]; by split]. eapply sim_bind; [apply release_waiting|]. intros []. eapply sim_bind; [apply ideintr_sim|]. intros [].
    eapply sim_bind; [apply acquire_waiting|]. intros []. apply (sim_ret (λ _, waiting)).
Qed.

Lemma iderw_sim i : sim (pending head (λ _ q _, i ∉ q)) (Ide.iderw fuel i) (iderw i) (λ _, waiting).
Proof using Hfuel.
  unfold Ide.iderw, iderw. eapply sim_bind; [apply pending_getbuf|]. intros b. case_match; [apply sim_panic|]. case_match; [apply sim_panic|].
  eapply sim_bind; [apply sim_pending; intros; by apply sim_gets|]. intros have. case_match; [apply sim_panic|].
  eapply sim_bind; [apply acquire_waiting|]. intros []. eapply sim_bind; [apply pending_queue|]. intros q.
  assert (∀ n, sim waiting (Ide.ide_wait fuel n i ;; onx (release d_idelock)) (ide_wait n i ;; release d_idelock) (λ _, waiting)) as Hend.
  { intros n. eapply sim_bind; [apply ide_wait_sim|]. intros []. apply release_waiting. }
  eapply sim_pre with (R1' := pending head (λ _ p _, (i ∉ q) ∧ p = q)); [|intros h s [Ha [[Hn _] Hq]]; split; [done|]; by rewrite <-Hq]. destruct q as [|j q].
  - eapply sim_bind; [apply (pending_setqueue head (λ _, None) (λ _ q _, i ∉ q) [] [i]); done|]. intros [].
    rewrite bool_decide_true by done. eapply sim_bind; [apply (idestart_sim i (λ _ p _, (i ∉ []) ∧ p = [i])); done|]. intros []. eapply sim_pre; [apply Hend|].
    intros h s [Ha [_ Hq]]. split; [|done]. by rewrite Hq.
  - eapply sim_bind; [apply (pending_setqueue head head (λ _ q _, i ∉ q) (j :: q) (j :: q ++ [i])); done|]. intros [].
    eapply sim_pre with (R1' := pending head (λ _ p _, i ∉ j :: q)); [|intros h s [Ha [Hn _]]; by split]. destruct (decide (i = j)) as [->|Hne].
    { intros h s [_ Hn]. by destruct Hn; left. }
    rewrite bool_decide_false by (simpl; congruence). eapply sim_bind; [apply (sim_ret (λ _, pending head (λ _ p _, i ∉ j :: q)))|]. intros []. eapply sim_pre; [apply Hend|]. intros h s [Ha _]. by split.
Qed.

End disk.

(** The driver's state and the disk's, and the model's. *)
Definition disk_rel h s : Prop := ∃ nowait have1, agree nowait have1 (phase_of (d_bufs s) (d_blocks s) (head (d_idequeue s))) h s.

(** C18: The disk driver implements the block device.  On a disk that holds the
    blocks of the model and has a drive for every buffer, with any queue of
    requests, of which the first has been given to the disk, [iderw] of a
    buffer that is not queued programs the registers of the disk and moves the
    data so that it returns, or panics, exactly when the model's [iderw] does:
    the buffers, the queue and the locks are the same, and the disk holds the
    model's blocks again.  The requests before it are finished first, in order.
    If one of the buffers is to be written, the disk has to be one that takes
    the data right after the command, without asking for it ([bo_write]). *)
Theorem iderw_refines h s i : disk_rel h s → i ∉ d_idequeue s → same_out (λ _, disk_rel) (Ide.iderw fuel i h) (iderw i s).
Proof using Hfuel.
  intros (nowait & have1 & HR) Hi. pose proof (iderw_sim nowait have1 i h s (conj HR Hi)) as H. unfold same_out in *.
  destruct (Ide.iderw fuel i h), (iderw i s); try done. destruct H as [-> [H _]]. split; [done|]. by exists nowait, have1.
Qed.

(** [ideinit] finds the second disk if there is one. *)
Lemma probe_absent n j h d :
  hw_dev h = d → port_inb 0x1f7 d = (0, d) →
  for_up n j (λ _, r <- inb 0x1f7 ;; if negb (r =? 0) then onx (modify (λ s, s <| d_havedisk1 := true |>)) ;; ret (Some tt) else ret None) h = Ok None h.
Proof using. intros Hd E. revert j. induction n as [|n IH]; intros j; [done|]. cbn [for_up]. destruct h as [x d']. simpl in Hd. subst d'. unfold bind at 1, bind at 1, inb at 1. simpl. rewrite E. simpl. apply IH. Qed.

Lemma probe_present n j x d :
  (port_inb 0x1f7 d).1 ≠ 0 →
  for_up (S n) j (λ _, r <- inb 0x1f7 ;; if negb (r =? 0) then onx (modify (λ s, s <| d_havedisk1 := true |>)) ;; ret (Some tt) else ret None) (Hw x d) =
    Ok (Some tt) (Hw (x <| d_havedisk1 := true |>) (port_inb 0x1f7 d).2).
Proof using. intros Hne. cbn [for_up]. unfold bind at 1, bind at 1, inb at 1. simpl. by destruct (Z.eqb_spec (port_inb 0x1f7 d).1 0). Qed.

Lemma ideinit_finds h enable ncpu :
  a_phase (ata_of (hw_dev h)) = AIdle → a_present (ata_of (hw_dev h)) = true → (∀ irq cpu h, enable irq cpu h = Ok tt h) →
  ∃ d, Ide.ideinit fuel enable ncpu h = Ok tt (Hw ((hw_x h) <| d_idelock := false |> <| d_havedisk1 ::= λ b, a_have1 (ata_of (hw_dev h)) || b |>) d) ∧
    a_phase (ata_of d) = AIdle ∧ a_drive (ata_of d) = 0 ∧ a_disks (ata_of d) = a_disks (ata_of (hw_dev h)) ∧ a_have1 (ata_of d) = a_have1 (ata_of (hw_dev h)).
Proof using Hfuel.
  intros Hp Hpr Hen. destruct h as [x d]. simpl in Hp, Hpr. unfold Ide.ideinit. rewrite (bind_ok (onx (modify _)) _ (Hw x d) tt (Hw (x <| d_idelock := false |>) d)) by done.
  rewrite (bind_ok _ _ _ _ _ (Hen _ _ _)). unfold Ide.idewait. set (x1 := x <| d_idelock := false |>).
  destruct (poll_ok fuel (λ r, if false && negb (Z.land r (Z.lor IDE_DF IDE_ERR) =? 0) then -1 else 0) (Hw x1 d) Hpr Hfuel) as (r & d1 & E1 & A1 & _). rewrite (bind_ok _ _ _ _ _ E1). clear E1. simpl in A1. simpl hw_x.
  assert (∀ v d, a_ready (ata_of d) = true → a_phase (ata_of d) = AIdle → ata_out 0x1f6 (u8 v) (ata_of d) = Some ((ata_of d) <| a_device := u8 v |>)) as Hsel.
  { intros v d' H1 H2. unfold ata_out. by rewrite H1, H2. }
  destruct (outb_ok 0x1f6 (Z.lor 0xe0 (Z.shiftl 1 4)) (Hw x1 d1) _ (Hsel _ d1 ltac:(by rewrite A1) ltac:(by rewrite A1))) as (d2 & E2 & A2). rewrite (bind_ok _ _ _ _ _ E2). clear E2. simpl hw_x.
  change (u8 (Z.lor 0xe0 (Z.shiftl 1 4))) with 0xf0 in A2. assert (a_present (ata_of d2) = a_have1 (ata_of d)) as Hpr2 by (by rewrite A2, A1).
  assert (∃ r d3, for_up 1000 0 (λ _, r <- inb 0x1f7 ;; if negb (r =? 0) then onx (modify (λ s, s <| d_havedisk1 := true |>)) ;; ret (Some tt) else ret None) (Hw x1 d2) =
    Ok r (Hw (x1 <| d_havedisk1 ::= λ b, a_have1 (ata_of d) || b |>) d3) ∧ ata_of d3 = ata_of d2) as (r3 & d3 & E3 & A3).
  { destruct (a_have1 (ata_of d)) eqn:Eh.
    - exists (Some tt), (port_inb 0x1f7 d2).2. destruct (status_ready d2 Hpr2 ltac:(by rewrite A2, A1)) as [H1 H2]. split; [|done].
      by apply (probe_present 999).
    - exists None, d2. split; [|done]. pose proof (ata_status d2) as H. rewrite Hpr2 in H. rewrite (probe_absent _ _ _ d2) by done. by destruct x. }
  rewrite (bind_ok _ _ _ _ _ E3). clear E3.
  destruct (outb_ok 0x1f6 (Z.lor 0xe0 (Z.shiftl 0 4)) (Hw (x1 <| d_havedisk1 ::= λ b, a_have1 (ata_of d) || b |>) d3) _ (Hsel _ d3 ltac:(by rewrite A3, A2, A1) ltac:(by rewrite A3, A2, A1))) as (d4 & E4 & A4).
  exists d4. split; [exact E4|]. rewrite A4, A3, A2, A1. by unfold upd.
Qed.
End sim.

Module IdeExamples.
Import AtaExamples.
(** Two buffers: the first is being read, the second is to be written. *)
Definition ex_bufs : list buf := [Buf false false 1 3 true 1 zero_block; Buf true true 1 4 true 1 (replicate (Z.to_nat BSIZE) 9)].
Definition ex_fs : fsys :=
  Fsys {[ (1, 3) := replicate (Z.to_nat BSIZE) 5 ]} [] true false [0%nat] false ex_bufs [] false (Log 0 0 0 false 0 0 []) (Superblock 0 0 0 0 0 0 0) false [] false [] ∅ [] [] [].
Definition ex_hw : hw fsys simdisk :=
  Hw ex_fs (Simdisk (Ata false 1 3 0 0 0xf0 (ADataIn (replicate (Z.to_nat BSIZE) 5)) {[ (1, 3) := replicate (Z.to_nat BSIZE) 5 ]} true true) true).

Lemma iderw_refines_witness : ∃ h, Ide.iderw 3 1 ex_hw = Ok tt h ∧ block_at (a_disks (sd_ata (hw_dev h))) (1, 4) = replicate (Z.to_nat BSIZE) 9.
Proof.
  assert (same_out (λ _, disk_rel) (Ide.iderw 3 1 ex_hw) (iderw 1 ex_fs)) as H.
  { apply (iderw_refines (D := simdisk) 3); [simpl; lia| |].
    - exists true, true. split; try done; [by exists {[ (1, 3) := replicate (Z.to_nat BSIZE) 5 ]}, []|]. split.
      + intros i b Hb. destruct i as [|[|i]]; [| |done]; injection Hb as <-; done.
      + intros k v Hk. unfold ex_fs in Hk. simpl in Hk. by apply lookup_singleton_Some in Hk as [_ <-].
    - apply not_elem_of_cons. split; [done|apply not_elem_of_nil]. }
  assert (∃ s, iderw 1 ex_fs = Ok tt s ∧ block_at (d_blocks s) (1, 4) = replicate (Z.to_nat BSIZE) 9) as (s & E & Hb) by (eexists; split; vm_compute; reflexivity).
  rewrite E in H. destruct (Ide.iderw 3 1 ex_hw) as [[] h| | | | |]; try done. destruct H as [_ H]. exists h. split; [done|]. rewrite <-Hb. f_equal. destruct H as (nw & h1 & H). apply (ag_disks _ _ _ _ _ H).
Defined.
End IdeExamples.
