(* ===== verification/Memide.v ===== *)
(** The disk in memory, [src/memide.c], which a kernel for machines without a
    disk links instead of [src/ide.c].

    [memide_agrees]: it gives the buffers what the disk driver gives them, and
    keeps the blocks in memory as the disk would. *)

From S2P Require Import Prelude Memory Machine Disk Bio Ata Ide.
From stdpp Require Import options.
Implicit Types s : fsys.

(** The image of the disk in the kernel's memory. *)
Record memdisk := Memdisk { md_mem : memory; md_memdisk : Z; md_disksize : Z }.

Module Memide.
Definition ideinit (fs_img_start fs_img_size : Z) : M (hw fsys memdisk) unit :=
  modify (λ h, Hw (hw_x h) (Memdisk (md_mem (hw_dev h)) fs_img_start (s32 (fs_img_size / BSIZE)))).
Definition ideintr : M (hw fsys memdisk) unit := skip.

Definition iderw (i : nat) : M (hw fsys memdisk) unit :=
  b <- onx (getbuf i) ;;
  if negb (b_locked b) then panic "iderw: buf not locked" else
  if b_valid b && negb (b_dirty b) then panic "iderw: nothing to do" else
  if negb (b_dev b =? 1) then panic "iderw: request not for disk 1" else
  d <- gets hw_dev ;;
  if u32 (md_disksize d) <=? b_blockno b then panic "iderw: block out of range" else
  let p := u32 (md_memdisk d + u32 (b_blockno b * BSIZE)) in
  (if b_dirty b then
     onx (modbuf i (λ b, b <| b_dirty := false |>)) ;;
     modify (λ h, Hw (hw_x h) (Memdisk (store_bytes (md_mem d) p (b_data b)) (md_memdisk d) (md_disksize d)))
   else onx (modbuf i (λ b, b <| b_data := bytes_at (md_mem d) p (Z.to_nat BSIZE) |>))) ;;
  onx (modbuf i (λ b, b <| b_valid := true |>)).
End Memide.

(** The image holds the blocks of disk 1, and the rest of the state is that of
    the model, but for the record of what was written and woken. *)
Record image_rel (h : hw fsys memdisk) s : Prop := {
  ir_x : ∃ bl wr wk, hw_x h = s <| d_blocks := bl |> <| d_writes := wr |> <| d_woken := wk |>;
  ir_size : 0 ≤ md_disksize (hw_dev h) < 2 ^ 22;
  ir_fits : 0 ≤ md_memdisk (hw_dev h) ∧ md_memdisk (hw_dev h) + BSIZE * md_disksize (hw_dev h) < 2 ^ 32;
  ir_blocks n : 0 ≤ n < md_disksize (hw_dev h) → bytes_at (md_mem (hw_dev h)) (md_memdisk (hw_dev h) + n * BSIZE) (Z.to_nat BSIZE) = block_at (d_blocks s) (1, n);
}.

#[local] Arguments bytes_at : simpl never.
#[local] Arguments store_bytes : simpl never.

Lemma memide_eq i b x m md sz :
  d_bufs x !! i = Some b → b_locked b = true → b_dev b = 1 → b_valid b && negb (b_dirty b) = false → 0 ≤ b_blockno b < sz → sz < 2 ^ 22 → 0 ≤ md → md + BSIZE * sz < 2 ^ 32 →
  let p := md + b_blockno b * BSIZE in
  Memide.iderw i (Hw x (Memdisk m md sz)) =
    Ok tt (Hw (x <| d_bufs ::= <[i := (if b_dirty b then b else b <| b_data := bytes_at m p (Z.to_nat BSIZE) |>) <| b_valid := true |> <| b_dirty := false |>]> |>)
              (Memdisk (if b_dirty b then store_bytes m p (b_data b) else m) md sz)).
Proof.
  intros Hb Hlk Hdev Hfl Hn Hsz Hmd Hfit p. unfold Memide.iderw.
  rewrite (bind_ok (onx (getbuf i)) _ _ b (Hw x (Memdisk m md sz))) by (unfold onx, getbuf, bind, gets, of_option; cbn [hw_x obind]; by rewrite Hb).
  rewrite Hlk, Hfl, Hdev. cbn [negb]. change (1 =? 1) with true. cbn [negb]. rewrite (bind_ok (gets hw_dev) _ _ (Memdisk m md sz) (Hw x (Memdisk m md sz))) by done. cbn [md_disksize md_memdisk md_mem].
  rewrite u32_id by lia. destruct (Z.leb_spec sz (b_blockno b)); [lia|]. rewrite (u32_id (b_blockno b * BSIZE)), u32_id by (unfold BSIZE in *; lia). fold p. cbv zeta.
  assert (∀ y, d_bufs (x <| d_bufs ::= <[i := y]> |>) !! i = Some y) as Hi by (intros y; unfold upd; simpl; by eapply lookup_insert_self).
  assert (∀ f y (d : memdisk) z, d_bufs y !! i = Some z → onx (modbuf i f) (Hw y d) = Ok tt (Hw (y <| d_bufs ::= <[i := f z]> |>) d)) as Hm by (intros f y d z Hz; unfold onx; cbn [hw_x hw_dev]; by rewrite (modbuf_eq i z f y Hz)).
  assert (∀ y z, x <| d_bufs ::= <[i := y]> |> <| d_bufs ::= <[i := z]> |> = x <| d_bufs ::= <[i := z]> |>) as Hii by (intros y z; unfold upd; simpl; by rewrite list_insert_insert_eq).
  destruct (b_dirty b) eqn:Edi.
  - rewrite (bind_ok _ _ _ tt (Hw (x <| d_bufs ::= <[i := b <| b_dirty := false |>]> |>) (Memdisk (store_bytes m p (b_data b)) md sz))) by (by rewrite (bind_ok _ _ _ _ _ (Hm _ _ _ b Hb))).
    rewrite (Hm _ _ _ _ (Hi _)), Hii. by destruct b.
  - rewrite (bind_ok _ _ _ _ _ (Hm _ _ _ b Hb)), (Hm _ _ _ _ (Hi _)), Hii. destruct b; simpl in *; by subst.
Qed.

(** Other blocks of the image. *)
Lemma bytes_at_other m p (bs : list Z) q n : (q + Z.of_nat n ≤ p ∨ p + Z.of_nat (length bs) ≤ q) → bytes_at (store_bytes m p bs) q n = bytes_at m q n.
Proof. intros H. apply bytes_at_ext. intros a Ha. apply load8_store_bytes_out. lia. Qed.

(** [memide.c] and [ide.c] do the same. For a locked buffer of
    a block of disk 1 that lies in the image and needs to be read or written,
    [iderw] of both returns; the buffer, the rest of the file system and the
    blocks agree before and after. *)
Theorem memide_agrees h s i b :
  image_rel h s → ide_idle s → d_bufs s !! i = Some b → b_locked b = true → b_dev b = 1 → 0 ≤ b_blockno b < FSSIZE → b_blockno b < md_disksize (hw_dev h) →
  b_valid b && negb (b_dirty b) = false → length (b_data b) = Z.to_nat BSIZE → Forall (λ x, 0 ≤ x < 256) (b_data b) →
  ∃ h' s', Memide.iderw i h = Ok tt h' ∧ iderw i s = Ok tt s' ∧ image_rel h' s'.
Proof.
  intros [(bl & wr & wk & Hx) Hsz Hfit Hbl] Hidle Hb Hlk Hdev Hn Hnd Hfl Hlen Hbytes. destruct h as [x [m md sz]]. cbn [hw_x hw_dev md_mem md_memdisk md_disksize] in *.
  eexists _, _. split; [apply (memide_eq i b x m md sz); try done; [by rewrite Hx|lia..]|]. split; [apply (iderw_eq i b s Hidle Hb Hlk Hdev (proj2 Hn) Hfl)|].
  rewrite (Hbl (b_blockno b)) by lia. split; cbn [hw_x hw_dev md_mem md_memdisk md_disksize]; try done.
  - exists bl, wr, (wk). rewrite Hx. done.
  - intros n Hn'. unfold upd. cbn [d_blocks]. destruct (b_dirty b); [|by apply Hbl]. destruct (decide (n = b_blockno b)) as [->|Hne].
    + unfold block_at. rewrite lookup_insert_eq. rewrite <-Hlen. cbn [default]. by apply bytes_at_store_bytes.
    + unfold block_at. rewrite lookup_insert_ne by congruence. rewrite bytes_at_other; [by apply Hbl|]. rewrite Hlen. unfold BSIZE. lia.
Qed.
