(* ===== verification/Unix.v ===== *)
(** User programs: the system calls they make, the input and output functions
    of [src/ulib.c] and [src/printf.c], and the programs [src/cat.c],
    [src/echo.c], [src/init.c], [src/kill.c], [src/ln.c], [src/ls.c],
    [src/mkdir.c], [src/rm.c], [src/zombie.c].

    A program is an interaction tree over the calls of [src/user.h]: it asks for
    a call and goes on with its result, possibly for ever.  What a call does is
    left to a handler.  A buffer is the list of bytes passed or returned; the
    result of a call with an output argument contains it. *)

From S2P Require Import Prelude Machine Proc Disk Fs Grep Console Sh.
From stdpp Require Import options.
From ITree Require Import ITree ITreeFacts Events.State Events.StateFacts.

Declare Scope usys_scope.
Delimit Scope usys_scope with U.
Notation "x <- m ;; k" := (ITree.bind m (λ x, k)) : usys_scope.
Notation "m ;; k" := (ITree.bind m (λ _, k)) : usys_scope.

(** ** System calls *)

Inductive sysE : Type → Type :=
  | Sfork : sysE Z
  | Sexit : sysE Empty_set
  | Swait : sysE Z
  | Spipe : sysE (option (Z * Z))
  | Sread (fd n : Z) : sysE (Z * list Z)
  | Skill (pid : Z) : sysE Z
  | Sexec (path : list Z) (argv : list (list Z)) : sysE Z
  | Sfstat (fd : Z) : sysE (option stat)
  | Schdir (path : list Z) : sysE Z
  | Sdup (fd : Z) : sysE Z
  | Sopen (path : list Z) (mode : Z) : sysE Z
  | Swrite (fd : Z) (buf : list Z) : sysE Z
  | Smknod (path : list Z) (major minor : Z) : sysE Z
  | Sunlink (path : list Z) : sysE Z
  | Slink (old new : list Z) : sysE Z
  | Smkdir (path : list Z) : sysE Z
  | Sclose (fd : Z) : sysE Z
  | Ssleep (n : Z) : sysE Z.

Definition sys {A} (e : sysE A) : itree sysE A := ITree.trigger e.
(** [exit()] does not return. *)
Definition exit {A} : itree sysE A := Vis Sexit (λ v : Empty_set, match v with end).
(** A program that does not return, where one that does could be. *)
Definition noret {E A} (t : itree E Empty_set) : itree E A := ITree.bind t (λ v, match v with end).

Local Open Scope usys_scope.

(** ** Output *)

Definition putc (fd c : Z) : itree sysE unit := sys (Swrite fd [c]) ;; Ret tt.
Fixpoint puts (fd : Z) (l : list Z) : itree sysE unit :=
  match l with [] => Ret tt | c :: l => putc fd c ;; puts fd l end.

(** An argument of [printf]. *)
Inductive uarg := Aint (x : Z) | Astr (l : list Z).

(** [printf(fd, fmt, ...)]; [pct] is [state == '%'].  The programs pass an
    argument of the right kind for each conversion. *)
Fixpoint printf_from (fd : Z) (pct : bool) (fmt : list Z) (ap : list uarg) : itree sysE unit :=
  match fmt with
  | [] => Ret tt
  | c :: fmt =>
      if negb pct then
        if c =? 37 then printf_from fd true fmt ap else putc fd c ;; printf_from fd false fmt ap
      else match ap with
      | Aint x :: ap' =>
          if c =? 100 then puts fd (printint digits_upper (s32 x) 10 true) ;; printf_from fd false fmt ap'
          else if (c =? 120) || (c =? 112) then puts fd (printint digits_upper (s32 x) 16 false) ;; printf_from fd false fmt ap'
          else if c =? 99 then putc fd (u8 x) ;; printf_from fd false fmt ap'
          else if c =? 37 then putc fd c ;; printf_from fd false fmt ap
          else putc fd 37 ;; putc fd c ;; printf_from fd false fmt ap
      | Astr l :: ap' =>
          if c =? 115 then puts fd l ;; printf_from fd false fmt ap'
          else if c =? 37 then putc fd c ;; printf_from fd false fmt ap
          else putc fd 37 ;; putc fd c ;; printf_from fd false fmt ap
      | [] =>
          if c =? 37 then putc fd c ;; printf_from fd false fmt ap
          else putc fd 37 ;; putc fd c ;; printf_from fd false fmt ap
      end
  end.
Definition printf (fd : Z) (fmt : list Z) (ap : list uarg) : itree sysE unit := printf_from fd false fmt ap.
(** The string literal [s\n]. *)
Definition line (s : string) : list Z := bytes_of s ++ [NL].

(** ** Input *)

(** [gets(buf, max)]: the string read into [buf]. *)
Definition gets (max : Z) : itree sysE (list Z) :=
  ITree.iter (λ l : list Z,
    if Z.of_nat (length l) + 1 <? max then
      r <- sys (Sread 0 1) ;;
      if r.1 <? 1 then Ret (inr l) else
      let c := default 0 (head r.2) in
      Ret (if (c =? 10) || (c =? 13) then inr (l ++ [c]) else inl (l ++ [c]))
    else Ret (inr l)) [].

Definition stat (n : list Z) : itree sysE (option stat) :=
  fd <- sys (Sopen n O_RDONLY) ;;
  if fd <? 0 then Ret None else
  r <- sys (Sfstat fd) ;;
  sys (Sclose fd) ;;
  Ret r.

(** ** Programs *)

(** A loop over arguments. *)
Fixpoint each (l : list (list Z)) (body : list Z → itree sysE unit) : itree sysE unit :=
  match l with [] => Ret tt | a :: l => body a ;; each l body end.

Definition cat (fd : Z) : itree sysE unit :=
  ITree.iter (λ _ : unit,
    r <- sys (Sread fd 512) ;;
    if 0 <? r.1 then
      w <- sys (Swrite 1 r.2) ;;
      if negb (w =? r.1) then printf 1 (line "cat: write error") [] ;; exit else Ret (inl tt)
    else if r.1 <? 0 then printf 1 (line "cat: read error") [] ;; exit
    else Ret (inr tt)) tt.
Definition cat_main (argv : list (list Z)) : itree sysE Empty_set :=
  match tail argv with
  | [] => cat 0 ;; exit
  | files =>
      each files (λ a,
        fd <- sys (Sopen a 0) ;;
        if fd <? 0 then printf 1 (line "cat: cannot open %s") [Astr a] ;; exit
        else cat fd ;; sys (Sclose fd) ;; Ret tt) ;;
      exit
  end.

Fixpoint echo_args (l : list (list Z)) : itree sysE unit :=
  match l with
  | [] => Ret tt
  | a :: l => printf 1 (bytes_of "%s%s") [Astr a; Astr (match l with [] => [NL] | _ => [32] end)] ;; echo_args l
  end.
Definition echo_main (argv : list (list Z)) : itree sysE Empty_set := echo_args (tail argv) ;; exit.

Definition kill_main (argv : list (list Z)) : itree sysE Empty_set :=
  if Z.of_nat (length argv) <? 2 then printf 2 (line "usage: kill pid...") [] ;; exit else
  each (tail argv) (λ a, sys (Skill (atoi a)) ;; Ret tt) ;;
  exit.

Definition ln_main (argv : list (list Z)) : itree sysE Empty_set :=
  match argv with
  | [_; old; new] =>
      r <- sys (Slink old new) ;;
      (if r <? 0 then printf 2 (line "link %s %s: failed") [Astr old; Astr new] else Ret tt) ;;
      exit
  | _ => printf 2 (line "Usage: ln old new") [] ;; exit
  end.

(** The loop of [rm] and [mkdir], which stops at the first failure. *)
Fixpoint until_fail (l : list (list Z)) (call : list Z → itree sysE Z) (msg : list Z) : itree sysE unit :=
  match l with
  | [] => Ret tt
  | a :: l => r <- call a ;; if r <? 0 then printf 2 msg [Astr a] else until_fail l call msg
  end.
Definition rm_main (argv : list (list Z)) : itree sysE Empty_set :=
  if Z.of_nat (length argv) <? 2 then printf 2 (line "Usage: rm files...") [] ;; exit else
  until_fail (tail argv) (λ a, sys (Sunlink a)) (line "rm: %s failed to delete") ;;
  exit.
Definition mkdir_main (argv : list (list Z)) : itree sysE Empty_set :=
  if Z.of_nat (length argv) <? 2 then printf 2 (line "Usage: mkdir files...") [] ;; exit else
  until_fail (tail argv) (λ a, sys (Smkdir a)) (line "mkdir: %s failed to create") ;;
  exit.

Definition zombie_main : itree sysE Empty_set :=
  pid <- sys Sfork ;;
  (if 0 <? pid then sys (Ssleep 5) ;; Ret tt else Ret tt) ;;
  exit.

(** [init] *)
Definition init_wait (pid : Z) : itree sysE unit :=
  ITree.iter (λ _ : unit,
    wpid <- sys Swait ;;
    if (0 <=? wpid) && negb (wpid =? pid) then printf 1 (line "zombie!") [] ;; Ret (inl tt) else Ret (inr tt)) tt.
Definition init_round : itree sysE unit :=
  printf 1 (line "init: starting sh") [] ;;
  pid <- sys Sfork ;;
  if pid <? 0 then printf 1 (line "init: fork failed") [] ;; exit else
  if pid =? 0 then
    sys (Sexec (bytes_of "sh") [bytes_of "sh"]) ;;
    printf 1 (line "init: exec sh failed") [] ;;
    exit
  else init_wait pid.
Definition init_main : itree sysE Empty_set :=
  fd <- sys (Sopen (bytes_of "console") O_RDWR) ;;
  (if fd <? 0 then
     sys (Smknod (bytes_of "console") 1 1) ;;
     sys (Sopen (bytes_of "console") O_RDWR) ;;
     Ret tt
   else Ret tt) ;;
  sys (Sdup 0) ;;
  sys (Sdup 0) ;;
  ITree.iter (λ _ : unit, init_round ;; Ret (inl tt)) tt.

(** [ls] *)
(** The part of a path after its last slash, found from its end. *)
Definition after_slash (path : list Z) : list Z := rev (take (span_len (λ c, negb (c =? 47)) (rev path)) (rev path)).
Definition fmtname (path : list Z) : list Z :=
  let p := after_slash path in
  if DIRSIZ <=? Z.of_nat (length p) then p else p ++ replicate (Z.to_nat (DIRSIZ - Z.of_nat (length p))) 32.
Definition ls_print (path : list Z) (st : Fs.stat) : itree sysE unit :=
  printf 1 (line "%s %d %d %d") [Astr (fmtname path); Aint (st_type st); Aint (st_ino st); Aint (st_size st)].
(** The loop over the entries of a directory; [p] is the path and a slash. *)
Definition ls_entries (fd : Z) (p : list Z) : itree sysE unit :=
  ITree.iter (λ _ : unit,
    r <- sys (Sread fd sizeof_dirent) ;;
    if negb (r.1 =? sizeof_dirent) then Ret (inr tt) else
    if rd16 r.2 0 =? 0 then Ret (inl tt) else
    let buf := p ++ cstring (drop 2 r.2) 0 in
    st <- stat buf ;;
    match st with
    | None => printf 1 (line "ls: cannot stat %s") [Astr buf] ;; Ret (inl tt)
    | Some st => ls_print buf st ;; Ret (inl tt)
    end) tt.
Definition ls (path : list Z) : itree sysE unit :=
  fd <- sys (Sopen path 0) ;;
  if fd <? 0 then printf 2 (line "ls: cannot open %s") [Astr path] else
  st <- sys (Sfstat fd) ;;
  match st with
  | None => printf 2 (line "ls: cannot stat %s") [Astr path] ;; sys (Sclose fd) ;; Ret tt
  | Some st =>
      (if st_type st =? T_FILE then ls_print path st
       else if st_type st =? T_DIR then
         if 512 <? Z.of_nat (length path) + 1 + DIRSIZ + 1 then printf 1 (line "ls: path too long") []
         else ls_entries fd (path ++ [47])
       else Ret tt) ;;
      sys (Sclose fd) ;;
      Ret tt
  end.
Definition ls_main (argv : list (list Z)) : itree sysE Empty_set :=
  (if Z.of_nat (length argv) <? 2 then ls (bytes_of ".") else each (tail argv) ls) ;; exit.

(** ** Programs on standard input and output

    [io] is what is left of the input of descriptor 0 and what has been written
    to descriptor 1; the [i]th read returns at most [avail i + 1] bytes. *)
Record io := Io { io_in : list Z; io_reads : nat; io_out : list Z }.

Section io.
Variable avail : nat → nat.

Definition ioh : ∀ A, sysE A → io → itree sysE (io * A) := λ A e,
  match e in sysE A return io → itree sysE (io * A) with
  | Sread fd n => λ s,
      if fd =? 0 then
        let l := take (Z.to_nat n `min` S (avail (io_reads s))) (io_in s) in
        Ret (Io (drop (length l) (io_in s)) (S (io_reads s)) (io_out s), (Z.of_nat (length l), l))
      else r <- sys (Sread fd n) ;; Ret (s, r)
  | Swrite fd buf => λ s,
      if fd =? 1 then Ret (Io (io_in s) (io_reads s) (io_out s ++ buf), Z.of_nat (length buf))
      else r <- sys (Swrite fd buf) ;; Ret (s, r)
  | e => λ s, r <- sys e ;; Ret (s, r)
  end.

Lemma io_sys {A B} (e : sysE A) (k : A → itree sysE B) s : interp_state ioh (ITree.bind (sys e) k) s ≈ ITree.bind (ioh A e s) (λ x, interp_state ioh (k x.2) x.1).
Proof using. rewrite interp_state_bind. unfold sys at 1. by rewrite interp_state_trigger. Qed.

Lemma cat_step l n out :
  let p := take (512 `min` S (avail n)) l in
  interp_state ioh (cat 0) (Io l n out) ≈
    if decide (p = []) then Ret (Io l (S n) out, tt) else interp_state ioh (cat 0) (Io (drop (length p) l) (S n) (out ++ p)).
Proof using.
  intros p. unfold cat at 1. rewrite unfold_iter, interp_state_bind, io_sys.
  assert (ioh _ (Sread 0 512) (Io l n out) = Ret (Io (drop (length p) l) (S n) out, (Z.of_nat (length p), p))) as -> by done. rewrite bind_ret_l. cbn [fst snd].
  case_decide as Hp.
  - rewrite Hp. cbn [length drop]. change (0 <? Z.of_nat 0) with false. cbv iota. change (Z.of_nat 0 <? 0) with false. cbv iota. rewrite interp_state_ret, bind_ret_l. cbn [fst snd]. by rewrite interp_state_ret.
  - assert (0 < length p)%nat as Hl by (destruct p; [done|simpl; lia]). destruct (Z.ltb_spec 0 (Z.of_nat (length p))); [|lia]. rewrite io_sys.
    assert (∀ s, ioh _ (Swrite 1 p) s = Ret (Io (io_in s) (io_reads s) (io_out s ++ p), Z.of_nat (length p))) as -> by done. rewrite bind_ret_l. cbn [fst snd io_in io_reads io_out]. rewrite Z.eqb_refl. cbn [negb].
    rewrite interp_state_ret, bind_ret_l. cbn [fst snd]. by rewrite interp_state_tau, tau_eutt.
Qed.

(** [cat] copies its input to its output and returns, however the input
    arrives. *)
Lemma cat_copies s : ∃ n, interp_state ioh (cat 0) s ≈ Ret (Io [] n (io_out s ++ io_in s), tt).
Proof using.
  destruct s as [l n out]. cbn [io_in io_out]. remember (length l) as m eqn:Em. revert l n out Em. induction m as [m IH] using lt_wf_ind. intros l n out Em.
  pose proof (cat_step l n out) as Hstep. cbv zeta in Hstep. set (p := take (512 `min` S (avail n)) l) in *. assert (l = p ++ drop (length p) l) as Hpd.
  { unfold p. rewrite length_take. destruct (Nat.min_spec (512 `min` S (avail n)) (length l)) as [[? ->]|[? ->]]; [by rewrite take_drop|]. rewrite drop_all, app_nil_r. by rewrite take_ge. }
  case_decide as Hp.
  - assert (l = []) as -> by (destruct l; [done|]; unfold p in Hp; by destruct (512 `min` S (avail n))%nat eqn:E; [lia|]). exists (S n). rewrite Hstep. by rewrite app_nil_r.
  - assert (0 < length p)%nat by (destruct p; [done|simpl; lia]). assert (length (drop (length p) l) < m)%nat as Hlt by (apply (f_equal length) in Hpd; rewrite length_app in Hpd; lia). destruct (IH _ Hlt (drop (length p) l) (S n) (out ++ p) eq_refl) as [k Hk].
    exists k. rewrite Hstep, Hk. by rewrite <-app_assoc, <-Hpd.
Qed.
End io.
