(* ===== verification/ShRun.v ===== *)
(** Running commands: the rest of the shell, [src/sh.c].

    [runcmd] and [main] are programs of [Unix].  [fdh] gives the calls that work
    on file descriptors their meaning: a process has a table of open files, a
    new descriptor is the lowest free one, as [fdalloc] of the kernel chooses
    it, and a child has a copy of its parent's table.  What is left is what the
    outside sees: processes, the programs they become with their tables, and
    files.  [runcmd_plumbs] shows that every program of a command line finds on
    its descriptors the files and pipes that the line asks for, and nothing
    else. *)

From S2P Require Import Prelude Grep Sh Disk Fs Sysfile Unix.
From stdpp Require Import options.
From ITree Require Import ITree ITreeFacts Events.State Events.StateFacts.
Import Sysfile.
Local Open Scope usys_scope.

(** ** The shell *)

Definition sh_panic {A} (s : list Z) : itree sysE A := printf 2 (line "%s") [Astr s] ;; exit.
Definition fork1 : itree sysE Z :=
  pid <- sys Sfork ;;
  if pid =? -1 then sh_panic (bytes_of "fork") else Ret pid.
(** [if(fork1() == 0) child;] *)
Definition fork_child (child : itree sysE Empty_set) : itree sysE unit :=
  pid <- fork1 ;; if pid =? 0 then noret child else Ret tt.

Fixpoint runcmd (c : cmd (list Z)) : itree sysE Empty_set :=
  match c with
  | EXEC argv =>
      match argv with
      | [] => exit
      | a :: _ =>
          sys (Sexec a argv) ;;
          printf 2 (line "exec %s failed") [Astr a] ;;
          exit
      end
  | REDIR c file mode fd =>
      sys (Sclose fd) ;;
      r <- sys (Sopen file mode) ;;
      if r <? 0 then printf 2 (line "open %s failed") [Astr file] ;; exit else
      runcmd c
  | LIST l r =>
      fork_child (runcmd l) ;;
      sys Swait ;;
      runcmd r
  | PIPE l r =>
      p <- sys Spipe ;;
      match p with
      | None => sh_panic (bytes_of "pipe")
      | Some (p0, p1) =>
          fork_child (sys (Sclose 1) ;; sys (Sdup p1) ;; sys (Sclose p0) ;; sys (Sclose p1) ;; runcmd l) ;;
          fork_child (sys (Sclose 0) ;; sys (Sdup p0) ;; sys (Sclose p0) ;; sys (Sclose p1) ;; runcmd r) ;;
          sys (Sclose p0) ;;
          sys (Sclose p1) ;;
          sys Swait ;;
          sys Swait ;;
          exit
      end
  | BACK c =>
      fork_child (runcmd c) ;;
      exit
  end.

(** [getcmd(buf, nbuf)]: the line, or [None] at the end of the input. *)
Definition getcmd (nbuf : Z) : itree sysE (option (list Z)) :=
  printf 2 (bytes_of "$ ") [] ;;
  l <- gets nbuf ;;
  Ret (match cstring l 0 with [] => None | l => Some l end).

(** "Ensure that three file descriptors are open." *)
Definition open_console : itree sysE unit :=
  ITree.iter (λ _ : unit,
    fd <- sys (Sopen (bytes_of "console") O_RDWR) ;;
    if 0 <=? fd then
      if 3 <=? fd then sys (Sclose fd) ;; Ret (inr tt) else Ret (inl tt)
    else Ret (inr tt)) tt.

(** What [parsecmd] prints when it stops before the end of the line. *)
Definition leftovers (l : list Z) : itree sysE unit :=
  match (parseline l (4 * S (es l)) ;; peek l [])%M O with
  | Ok _ p => printf 2 (line "leftovers: %s") [Astr (drop p l)]
  | _ => Ret tt
  end.
(** [runcmd(parsecmd(buf))] *)
Definition run_line (l : list Z) : itree sysE Empty_set :=
  match sh_parse l with
  | Some c => runcmd c
  | None => leftovers l ;; match parsecmd l O with Panic msg => sh_panic (bytes_of msg) | _ => exit end
  end.
Definition sh_round : itree sysE (unit + unit) :=
  l <- getcmd 100 ;;
  match l with
  | None => Ret (inr tt)
  | Some l =>
      (if bool_decide (take 3 l = bytes_of "cd ") then
         let dir := drop 3 (take (length l - 1) l) in
         r <- sys (Schdir dir) ;;
         if r <? 0 then printf 2 (line "cannot cd %s") [Astr dir] else Ret tt
       else fork_child (run_line l) ;; sys Swait ;; Ret tt) ;;
      Ret (inl tt)
  end.
Definition sh_main : itree sysE Empty_set :=
  open_console ;;
  ITree.iter (λ _ : unit, sh_round) tt ;;
  exit.

(** ** File descriptors *)

(** An open file. A pipe is named by the process that made it and a number. *)
Inductive ofile := OFile (path : list Z) (mode : Z) | OPipe (id : list nat * nat) (writable : bool).
#[global] Instance ofile_eq : EqDecision ofile.
Proof. solve_decision. Defined.

(** A process: its name, how many children and pipes it has made, its table. *)
Record uproc := Uproc { u_name : list nat; u_forks : nat; u_pipes : nat; u_fds : list (option ofile) }.
#[global] Instance eta_uproc : Eta uproc := λ u, Uproc (u_name u) (u_forks u) (u_pipes u) (u_fds u).

Definition uget (u : uproc) (fd : Z) : option ofile := mjoin (aget (u_fds u) fd).
Definition uclose (fd : Z) (u : uproc) : uproc := u <| u_fds ::= λ t, aset t fd None |>.
Definition ualloc (f : ofile) (u : uproc) : option (Z * uproc) :=
  match find_fd (u_fds u) 0 with
  | None => None
  | Some i => Some (Z.of_nat i, u <| u_fds ::= <[i := Some f]> |>)
  end.
Definition upipe (u : uproc) : option (Z * Z * uproc) :=
  let id := (u_name u, u_pipes u) in
  match ualloc (OPipe id false) u with
  | None => None
  | Some (p0, u1) =>
      match ualloc (OPipe id true) u1 with
      | None => None
      | Some (p1, u2) => Some (p0, p1, u2 <| u_pipes ::= S |>)
      end
  end.
Definition uchild (u : uproc) : uproc := Uproc (u_name u ++ [u_forks u]) 0 0 (u_fds u).
Definition uforked (u : uproc) : uproc := u <| u_forks ::= S |>.

(** What is left of a program when its descriptors are known. *)
Inductive jobE : Type → Type :=
  | Jfork : jobE Z
  | Jexit : jobE Empty_set
  | Jexec (path : list Z) (argv : list (list Z)) (fds : list (option ofile)) : jobE Z
  | Jopen (path : list Z) (mode : Z) : jobE bool
  | Jread (f : ofile) (n : Z) : jobE (Z * list Z)
  | Jwrite (f : ofile) (buf : list Z) : jobE Z
  | Jfstat (f : ofile) : jobE (option Fs.stat)
  | Jsys {A} (e : sysE A) : jobE A.

Definition job {A} (e : jobE A) : itree jobE A := ITree.trigger e.

Definition fdh : ∀ A, sysE A → uproc → itree jobE (uproc * A) := λ A e,
  match e in sysE A return uproc → itree jobE (uproc * A) with
  | Sfork => λ u, pid <- job Jfork ;; Ret (if pid =? 0 then uchild u else uforked u, pid)
  | Sexit => λ u, v <- job Jexit ;; Ret (u, v)
  | Spipe => λ u, Ret (match upipe u with None => (u, None) | Some (p0, p1, u') => (u', Some (p0, p1)) end)
  | Sread fd n => λ u,
      match uget u fd with None => Ret (u, (-1, [])) | Some f => r <- job (Jread f n) ;; Ret (u, r) end
  | Swrite fd buf => λ u,
      match uget u fd with None => Ret (u, -1) | Some f => r <- job (Jwrite f buf) ;; Ret (u, r) end
  | Sfstat fd => λ u,
      match uget u fd with None => Ret (u, None) | Some f => r <- job (Jfstat f) ;; Ret (u, r) end
  | Sexec path argv => λ u, r <- job (Jexec path argv (u_fds u)) ;; Ret (u, r)
  | Sdup fd => λ u,
      Ret (match uget u fd with
           | None => (u, -1)
           | Some f => match ualloc f u with None => (u, -1) | Some (fd', u') => (u', fd') end
           end)
  | Sopen path mode => λ u,
      match ualloc (OFile path mode) u with
      | None => Ret (u, -1)
      | Some (fd, u') => ok <- job (Jopen path mode) ;; Ret (if ok : bool then (u', fd) else (u, -1))
      end
  | Sclose fd => λ u, Ret (match uget u fd with None => (u, -1) | Some _ => (uclose fd u, 0) end)
  | e => λ u, r <- job (Jsys e) ;; Ret (u, r)
  end.

(** ** What a command line asks for *)

Abbreviation run := (interp_state fdh).

Definition jfork {A} (u : uproc) (child parent : uproc → itree jobE (uproc * A)) : itree jobE (uproc * A) :=
  pid <- job Jfork ;;
  if pid =? -1 then run (sh_panic (bytes_of "fork")) (uforked u) else
  if pid =? 0 then child (uchild u) else parent (uforked u).

Definition with_fd (u v : uproc) (fd : nat) (f : ofile) : uproc := u <| u_fds := <[fd := Some f]> (u_fds v) |>.

Fixpoint plumb (c : cmd (list Z)) (u : uproc) : itree jobE (uproc * Empty_set) :=
  match c with
  | EXEC argv =>
      match argv with
      | [] => run exit u
      | a :: _ => job (Jexec a argv (u_fds u)) ;; run (printf 2 (line "exec %s failed") [Astr a] ;; exit) u
      end
  | REDIR c file mode fd =>
      ok <- job (Jopen file mode) ;;
      if ok : bool then plumb c (with_fd u u (Z.to_nat fd) (OFile file mode))
      else run (printf 2 (line "open %s failed") [Astr file] ;; exit) (uclose fd u)
  | LIST l r => jfork u (plumb l) (λ u, job (Jsys Swait) ;; plumb r u)
  | PIPE l r =>
      match upipe u with
      | None => run (sh_panic (bytes_of "pipe")) u
      | Some (_, _, u1) =>
          let id := (u_name u, u_pipes u) in
          jfork u1 (λ v, plumb l (with_fd v u 1 (OPipe id true)))
            (λ u2, jfork u2 (λ v, plumb r (with_fd v u 0 (OPipe id false)))
              (λ u3, job (Jsys Swait) ;; job (Jsys Swait) ;; run exit (u3 <| u_fds := u_fds u |>)))
      end
  | BACK c => jfork u (plumb c) (run exit)
  end.

(** The descriptors 0, 1 and 2 are open, and there is room for a pipe. *)
Definition ready (l : list (option ofile)) : Prop :=
  (∀ i : nat, (i < 3)%nat → ∃ f, l !! i = Some (Some f)) ∧ ∃ p q : nat, (p < q)%nat ∧ l !! p = Some None ∧ l !! q = Some None.
(** Only descriptors 0 and 1 are redirected. *)
Fixpoint std_redirs (c : cmd (list Z)) : Prop :=
  match c with
  | EXEC _ => True
  | REDIR c _ _ fd => (fd = 0 ∨ fd = 1) ∧ std_redirs c
  | PIPE l r | LIST l r => std_redirs l ∧ std_redirs r
  | BACK c => std_redirs c
  end.

(** *** Tables *)

Lemma find_fd_first {A} (l : list (option A)) k i : find_fd l k = Some i ↔ (k ≤ i)%nat ∧ l !! (i - k)%nat = Some None ∧ ∀ j : nat, (j < i - k)%nat → ∃ f, l !! j = Some (Some f).
Proof.
  revert k. induction l as [|[f|] l IH]; intros k; simpl; [naive_solver| |].
  - rewrite IH. split.
    + intros (Hk & Hi & Hj). split; [lia|]. replace (i - k)%nat with (S (i - S k)) by lia. split; [done|]. intros [|j] Hlt; [by exists f|]. apply Hj. lia.
    + intros (Hk & Hi & Hj). destruct (i - k)%nat as [|n] eqn:En; [done|]. split; [lia|]. replace (i - S k)%nat with n by lia. split; [done|]. intros j Hlt. apply (Hj (S j)). lia.
  - split; [intros [= <-]|]; [rewrite Nat.sub_diag; split_and!; [lia|done|lia]|]. intros (Hk & Hi & Hj). destruct (i - k)%nat as [|n] eqn:En; [f_equal; lia|].
    destruct (Hj O) as [f Hf]; [lia|done].
Qed.
Lemma find_fd_some {A} (l : list (option A)) i : l !! i = Some None → ∃ j, find_fd l 0 = Some j ∧ (j ≤ i)%nat.
Proof.
  enough (∀ k, l !! i = Some None → ∃ j, find_fd l k = Some j ∧ (j ≤ k + i)%nat) as H by (intros; by apply (H O)).
  revert i. induction l as [|[f|] l IH]; intros i k Hi; [done| |]; simpl.
  - destruct i as [|i]; [done|]. destruct (IH i (S k) Hi) as (j & E & Hj). exists j. split; [done|lia].
  - exists k. split; [done|lia].
Qed.

(** The new descriptor after [close(fd)] is [fd], if those before it are open. *)
Lemma ualloc_at f u (fd : nat) :
  (∀ i : nat, (i < fd)%nat → ∃ g, u_fds u !! i = Some (Some g)) → u_fds u !! fd = Some None → ualloc f u = Some (Z.of_nat fd, u <| u_fds ::= <[fd := Some f]> |>).
Proof. intros Hb Hn. unfold ualloc. assert (find_fd (u_fds u) 0 = Some fd) as -> by (apply find_fd_first; rewrite Nat.sub_0_r; split_and!; [lia|done|done]). done. Qed.

Lemma upipe_ok u : ready (u_fds u) → ∃ p q : nat, (3 ≤ p < q)%nat ∧ u_fds u !! p = Some None ∧ u_fds u !! q = Some None ∧
  upipe u = Some (Z.of_nat p, Z.of_nat q, u <| u_pipes ::= S |> <| u_fds ::= λ t, <[q := Some (OPipe (u_name u, u_pipes u) true)]> (<[p := Some (OPipe (u_name u, u_pipes u) false)]> t) |>).
Proof.
  intros (Hstd & a & b & Hab & Ha & Hb). destruct (find_fd_some _ a Ha) as (p & Ep & Hpa). apply find_fd_first in Ep as (_ & Hp & Hpj). rewrite Nat.sub_0_r in *.
  assert (3 ≤ p)%nat as H3 by (destruct (decide (p < 3)%nat) as [Hlt|]; [destruct (Hstd p Hlt) as [f Hf]; congruence|lia]).
  set (id := (u_name u, u_pipes u)). assert (p < length (u_fds u))%nat as Hpl by (by eapply lookup_lt_Some). unfold upipe. rewrite (ualloc_at _ u p Hpj Hp). fold id.
  set (u1 := u <| u_fds ::= <[p := Some (OPipe id false)]> |>). assert (u_fds u1 !! b = Some None) as Hb1 by (unfold u1; simpl; by rewrite list_lookup_insert_ne by lia).
  destruct (find_fd_some _ b Hb1) as (q & Eq & Hqb). pose proof Eq as (_ & Hq & Hqj)%find_fd_first. rewrite Nat.sub_0_r in *.
  assert (q ≠ p) as Hne by (intros ->; unfold u1 in Hq; simpl in Hq; by rewrite list_lookup_insert_eq in Hq).
  assert (u_fds u !! q = Some None) as Hq0 by (unfold u1 in Hq; simpl in Hq; by rewrite list_lookup_insert_ne in Hq by done).
  assert (p < q)%nat as Hpq by (destruct (decide (q < p)%nat) as [Hlt|]; [destruct (Hpj q Hlt) as [f Hf]; congruence|lia]).
  exists p, q. split_and!; [lia|lia|done|done|]. by rewrite (ualloc_at _ u1 q Hqj Hq).
Qed.

(** *** Programs that do not return *)

Lemma exit_bind {A B} (k : A → itree sysE B) : ITree.bind exit k ≈ exit.
Proof. unfold exit. rewrite bind_vis. apply eqit_Vis. intros []. Qed.
Lemma sh_panic_bind {A B} s (k : A → itree sysE B) : ITree.bind (sh_panic s) k ≈ sh_panic s.
Proof. unfold sh_panic. rewrite bind_bind. eapply eutt_clo_bind; [reflexivity|]. intros ? ? _. apply exit_bind. Qed.
Lemma noret_bind {A} (t : itree sysE Empty_set) (k : A → itree sysE Empty_set) : ITree.bind (noret t) k ≈ t.
Proof. unfold noret. rewrite bind_bind. rewrite <-(bind_ret_r t) at 2. eapply eutt_clo_bind; [reflexivity|]. intros []. Qed.

(** *** Calls *)

Lemma run_sys {A B} (e : sysE A) (k : A → itree sysE B) u : run (ITree.bind (sys e) k) u ≈ ITree.bind (fdh A e u) (λ x, run (k x.2) x.1).
Proof. rewrite interp_state_bind. unfold sys. by rewrite interp_state_trigger. Qed.

Lemma run_close {B} fd (k : Z → itree sysE B) u f : uget u fd = Some f → run (ITree.bind (sys (Sclose fd)) k) u ≈ run (k 0) (uclose fd u).
Proof. intros Hf. rewrite run_sys. simpl. rewrite Hf. by rewrite bind_ret_l. Qed.
Lemma run_dup {B} fd (k : Z → itree sysE B) u f fd' u' :
  uget u fd = Some f → ualloc f u = Some (fd', u') → run (ITree.bind (sys (Sdup fd)) k) u ≈ run (k fd') u'.
Proof. intros Hf Ha. rewrite run_sys. simpl. rewrite Hf, Ha. by rewrite bind_ret_l. Qed.

Lemma run_fork_child (child : itree sysE Empty_set) (k : unit → itree sysE Empty_set) u :
  run (ITree.bind (fork_child child) k) u ≈ jfork u (run child) (run (k tt)).
Proof.
  unfold fork_child, fork1. rewrite !bind_bind, run_sys. simpl. rewrite bind_bind. unfold jfork. eapply eutt_clo_bind; [reflexivity|]. intros pid _ <-. rewrite bind_ret_l. simpl.
  destruct (Z.eqb_spec pid (-1)) as [->|Hne].
  - by rewrite sh_panic_bind.
  - rewrite bind_ret_l. destruct (Z.eqb_spec pid 0) as [->|H0]; [by rewrite noret_bind|by rewrite bind_ret_l].
Qed.

(** *** The children of a pipe *)

Lemma aset_nat {A} (l : list A) (i : nat) x : aset l (Z.of_nat i) x = <[i := x]> l.
Proof. unfold aset. destruct (Z.ltb_spec (Z.of_nat i) 0); [lia|]. by rewrite Nat2Z.id. Qed.
Lemma uget_nat u (i : nat) f : u_fds u !! i = Some (Some f) → uget u (Z.of_nat i) = Some f.
Proof. intros H. unfold uget. by rewrite aget_nat, H. Qed.

Lemma uclose_fds u (i : nat) : u_fds (uclose (Z.of_nat i) u) = <[i := None]> (u_fds u).
Proof. unfold uclose, upd. simpl. by rewrite aset_nat. Qed.

Lemma restore_table {A} (t : list (option A)) (p q : nat) a b : (p < q)%nat → t !! p = Some None → t !! q = Some None → <[q := None]> (<[p := None]> (<[q := a]> (<[p := b]> t))) = t.
Proof.
  intros Hlt Hp Hq. rewrite (list_insert_insert_ne _ p q) by lia. rewrite list_insert_insert_eq, list_insert_insert_eq. rewrite (list_insert_id _ p None Hp). by apply list_insert_id.
Qed.

Lemma pipe_table {A} (t : list (option A)) (fd p q : nat) f a b :
  (fd < p < q)%nat → t !! p = Some None → t !! q = Some None →
  <[q := None]> (<[p := None]> (<[fd := Some f]> (<[fd := None]> (<[q := a]> (<[p := b]> t))))) = <[fd := Some f]> t.
Proof.
  intros Hlt Hp Hq. rewrite list_insert_insert_eq. rewrite (list_insert_insert_ne _ p fd) by lia. rewrite (list_insert_insert_ne _ q fd) by lia. f_equal. by apply restore_table; [lia|..].
Qed.

(** [close(fd); dup(e); close(p0); close(p1);] in a process that has a pipe. *)
Lemma run_pipe_end {B} (k : itree sysE B) v t (fd p q e : nat) r w f :
  (fd < 3 ≤ p)%nat → (p < q)%nat → t !! p = Some None → t !! q = Some None → (∀ i : nat, (i < 3)%nat → ∃ g, t !! i = Some (Some g)) →
  u_fds v = <[q := Some w]> (<[p := Some r]> t) → (e = p ∧ f = r ∨ e = q ∧ f = w) →
  run (sys (Sclose (Z.of_nat fd)) ;; sys (Sdup (Z.of_nat e)) ;; sys (Sclose (Z.of_nat p)) ;; sys (Sclose (Z.of_nat q)) ;; k) v ≈ run k (v <| u_fds := <[fd := Some f]> t |>).
Proof.
  intros Hfd Hpq Hp Hq Hstd Hv He. pose proof (lookup_lt_Some _ _ _ Hp) as Hpl. pose proof (lookup_lt_Some _ _ _ Hq) as Hql.
  destruct (Hstd fd ltac:(lia)) as [g Hg]. assert (fd < length t)%nat as Hfl by (by eapply lookup_lt_Some).
  rewrite (run_close _ _ v g) by (apply uget_nat; rewrite Hv, !list_lookup_insert_ne by lia; done). set (v1 := uclose (Z.of_nat fd) v).
  assert (u_fds v1 = <[fd := None]> (<[q := Some w]> (<[p := Some r]> t))) as Hv1 by (unfold v1; by rewrite uclose_fds, Hv).
  assert (uget v1 (Z.of_nat e) = Some f) as Hge.
  { apply uget_nat. rewrite Hv1, list_lookup_insert_ne by lia. destruct He as [[-> ->]|[-> ->]]; [rewrite list_lookup_insert_ne by lia|]; apply list_lookup_insert_eq; rewrite ?length_insert; lia. }
  rewrite (run_dup _ _ v1 f _ _ Hge (ualloc_at f v1 fd ltac:(intros i Hi; rewrite Hv1, !list_lookup_insert_ne by lia; apply Hstd; lia) ltac:(rewrite Hv1; apply list_lookup_insert_eq; rewrite !length_insert; lia))).
  set (v2 := v1 <| u_fds ::= <[fd := Some f]> |>). assert (u_fds v2 = <[fd := Some f]> (<[fd := None]> (<[q := Some w]> (<[p := Some r]> t)))) as Hv2 by (change (u_fds v2) with (<[fd := Some f]> (u_fds v1)); by rewrite Hv1).
  rewrite (run_close _ _ v2 r) by (apply uget_nat; rewrite Hv2, !(list_lookup_insert_ne _ fd), list_lookup_insert_ne by lia; by apply list_lookup_insert_eq).
  rewrite (run_close _ _ _ w) by (apply uget_nat; rewrite uclose_fds, Hv2, !(list_lookup_insert_ne _ p), !(list_lookup_insert_ne _ fd) by lia; apply list_lookup_insert_eq; by rewrite length_insert).
  assert (uclose (Z.of_nat q) (uclose (Z.of_nat p) v2) = v <| u_fds := <[fd := Some f]> t |>) as ->; [|reflexivity].
  transitivity (v <| u_fds := u_fds (uclose (Z.of_nat q) (uclose (Z.of_nat p) v2)) |>); [by destruct v|]. by rewrite !uclose_fds, Hv2, pipe_table by (done || lia).
Qed.

Lemma ready_insert t (fd : nat) f : ready t → (fd < 3)%nat → ready (<[fd := Some f]> t).
Proof.
  intros (Hstd & p & q & Hpq & Hp & Hq) Hfd. assert (∀ i : nat, t !! i = Some None → i ≠ fd) as Hne by (intros i Hi ->; destruct (Hstd fd Hfd) as [g Hg]; congruence).
  split; [|exists p, q; rewrite !list_lookup_insert_ne by (by apply not_eq_sym, Hne); done].
  intros i Hi. destruct (decide (i = fd)) as [->|Hn]; [|rewrite list_lookup_insert_ne by done; by apply Hstd].
  exists f. apply list_lookup_insert_eq. destruct (Hstd fd Hfd) as [g Hg]. by eapply lookup_lt_Some.
Qed.

(** The shell connects the programs of a command as it asks. In a process with its standard descriptors open and room for a pipe,
    [runcmd] of any command that redirects standard input and output behaves
    like its description [plumb]: a redirected descriptor is the opened file;
    the left side of a pipe has its write end as descriptor 1 and the right
    side its read end as descriptor 0, and all other descriptors, those of the
    pipe included, are as before, in every program that is executed; a list
    waits for its left side; the shell of a pipe waits for both sides with no
    end of it open. *)
Lemma runcmd_plumbs c u : ready (u_fds u) → std_redirs c → run (runcmd c) u ≈ plumb c u.
Proof.
  revert u. induction c as [argv|c IH file mode fd|l IHl r IHr|l IHl r IHr|c IH]; intros u Hr Hs; cbn [runcmd plumb std_redirs] in *.
  - destruct argv as [|a argv]; [reflexivity|]. rewrite run_sys. simpl. rewrite bind_bind. eapply eutt_clo_bind; [reflexivity|]. intros x _ <-. by rewrite bind_ret_l.
  - destruct Hs as [Hfd Hs]. assert (∃ n : nat, fd = Z.of_nat n ∧ (n < 3)%nat) as (n & -> & Hn) by (exists (Z.to_nat fd); lia). rewrite Nat2Z.id.
    pose proof (proj1 Hr) as Hstd. destruct (Hstd n Hn) as [g Hg]. rewrite (run_close _ _ u g) by (by apply uget_nat). rewrite run_sys. set (u1 := uclose (Z.of_nat n) u).
    assert (u_fds u1 = <[n := None]> (u_fds u)) as Hu1 by (unfold u1; by rewrite uclose_fds).
    cbn [fdh]. rewrite (ualloc_at _ u1 n).
    2: { intros i Hi. rewrite Hu1, list_lookup_insert_ne by lia. apply Hstd. lia. }
    2: { rewrite Hu1. apply list_lookup_insert_eq. by eapply lookup_lt_Some. }
    rewrite bind_bind. eapply eutt_clo_bind; [reflexivity|]. intros ok _ <-. rewrite bind_ret_l. destruct ok; simpl.
    + destruct (Z.ltb_spec (Z.of_nat n) 0); [lia|]. assert (u1 <| u_fds ::= <[n := Some (OFile file mode)]> |> = with_fd u u n (OFile file mode)) as ->.
      { unfold u1, uclose, with_fd, upd. simpl. by rewrite aset_nat, list_insert_insert_eq. }
      apply IH; [|done]. by apply ready_insert.
    + reflexivity.
  - destruct Hs as [Hsl Hsr]. destruct (upipe_ok u Hr) as (p & q & Hpq & Hp & Hq & Eu). rewrite run_sys. cbn [fdh]. rewrite Eu, bind_ret_l. cbn [fst snd]. set (id := (u_name u, u_pipes u)).
    set (u1 := u <| u_pipes ::= S |> <| u_fds ::= _ |>). pose proof (proj1 Hr) as Hstd.
    assert (u_fds u1 = <[q := Some (OPipe id true)]> (<[p := Some (OPipe id false)]> (u_fds u))) as Hu1 by done. clearbody u1.
    rewrite run_fork_child. unfold jfork at 1 3. eapply eutt_clo_bind; [reflexivity|]. intros pid _ <-. case_match; [reflexivity|]. case_match.
    { etransitivity; [apply (run_pipe_end (runcmd l) (uchild u1) (u_fds u) 1 p q q (OPipe id false) (OPipe id true) (OPipe id true)); [lia..|done|done|done|exact Hu1|by right]|]. apply IHl; [|done]. apply (ready_insert (u_fds u)); [done|lia]. }
    rewrite run_fork_child. unfold jfork. eapply eutt_clo_bind; [reflexivity|]. intros pid2 _ <-. case_match; [reflexivity|]. case_match.
    { etransitivity; [apply (run_pipe_end (runcmd r) (uchild (uforked u1)) (u_fds u) 0 p q p (OPipe id false) (OPipe id true) (OPipe id false)); [lia..|done|done|done|exact Hu1|by left]|]. apply IHr; [|done]. apply (ready_insert (u_fds u)); [done|lia]. }
    pose proof (lookup_lt_Some _ _ _ Hp) as Hpl. pose proof (lookup_lt_Some _ _ _ Hq) as Hql. set (u3 := uforked (uforked u1)). assert (u_fds u3 = u_fds u1) as Hu3 by done. rewrite Hu1 in Hu3. clearbody u3.
    rewrite (run_close _ _ u3 (OPipe id false)) by (apply uget_nat; rewrite Hu3, list_lookup_insert_ne by lia; by apply list_lookup_insert_eq).
    rewrite (run_close _ _ _ (OPipe id true)) by (apply uget_nat; rewrite uclose_fds, Hu3, list_lookup_insert_ne by lia; apply list_lookup_insert_eq; by rewrite length_insert).
    assert (uclose (Z.of_nat q) (uclose (Z.of_nat p) u3) = u3 <| u_fds := u_fds u |>) as ->.
    { transitivity (u3 <| u_fds := u_fds (uclose (Z.of_nat q) (uclose (Z.of_nat p) u3)) |>); [by destruct u3|]. rewrite !uclose_fds, Hu3. by rewrite restore_table by (done || lia). }
    rewrite run_sys. simpl. rewrite bind_bind. eapply eutt_clo_bind; [reflexivity|]. intros x _ <-. rewrite bind_ret_l. simpl.
    rewrite run_sys. simpl. rewrite bind_bind. eapply eutt_clo_bind; [reflexivity|]. intros y _ <-. by rewrite bind_ret_l.
  - destruct Hs as [Hsl Hsr]. rewrite run_fork_child. unfold jfork. eapply eutt_clo_bind; [reflexivity|]. intros pid _ <-. case_match; [reflexivity|]. case_match; [by apply IHl|].
    rewrite run_sys. simpl. rewrite bind_bind. eapply eutt_clo_bind; [reflexivity|]. intros x _ <-. rewrite bind_ret_l. by apply IHr.
  - rewrite run_fork_child. unfold jfork. eapply eutt_clo_bind; [reflexivity|]. intros pid _ <-. case_match; [reflexivity|]. case_match; [by apply IH|reflexivity].
Qed.

(** ** Lines *)

Lemma std_redirs_wrap c rs : std_redirs c → Forall (λ r, r.2 = 0 ∨ r.2 = 1) rs → std_redirs (wrap c rs).
Proof. intros Hc Hrs. revert c Hc. induction Hrs as [|r rs Hr _ IH]; intros c Hc; [done|]. apply (IH (REDIR c r.1.1 r.1.2 r.2)). by split. Qed.
Lemma gredirs_std ts rs : gredirs ts rs → Forall (λ r, r.2 = 0 ∨ r.2 = 1) rs.
Proof. induction 1; constructor; simpl; auto. Qed.
Lemma gargs_std ts argv rs : gargs ts argv rs → Forall (λ r, r.2 = 0 ∨ r.2 = 1) rs.
Proof. induction 1; [done|]. apply Forall_app. split; [by eapply gredirs_std|done]. Qed.
Lemma std_redirs_backs k c : std_redirs (backs k c) ↔ std_redirs c.
Proof. by induction k. Qed.
Lemma grammar_std : (∀ t c, gline t c → std_redirs c) ∧ (∀ t c, gpipe t c → std_redirs c) ∧ (∀ t c, gexec t c → std_redirs c).
Proof.
  apply grammar_mind; intros; simpl; rewrite ?std_redirs_backs; try done; apply std_redirs_wrap; try done.
  - apply Forall_app. split; [by eapply gredirs_std|by eapply gargs_std].
  - by eapply gredirs_std.
Qed.

(** C20: The shell does what a command line says. In a process with its standard
    descriptors open and room for a pipe, for a line of the grammar that means
    the command [c], the child of the shell behaves like the description
    [plumb] of [c]: a redirected descriptor is the opened file; the left side
    of a pipe has its write end as descriptor 1, the right side its read end as
    descriptor 0, and all other descriptors of every program that is executed
    are as before, with no end of a pipe left open; a list waits for its left
    side; the shell of a pipe waits for both sides with no end of it open. *)
Theorem sh_runs_line l ts c u : 0 ∉ l → lexes l ts → gline ts c → ready (u_fds u) → run (run_line l) u ≈ plumb c u.
Proof.
  intros H0 Hl Hg Hr. unfold run_line. rewrite (proj2 (sh_parse_grammar l ts c H0 Hl) Hg). apply runcmd_plumbs; [done|]. by apply (proj1 grammar_std ts).
Qed.

Module ShRunExamples.
Definition tty : ofile := OFile (bytes_of "console") O_RDWR.
Definition ex_proc : uproc := Uproc [] 0 0 ([Some tty; Some tty; Some tty] ++ replicate 13 None).

Lemma sh_runs_line_witness : run (run_line ex_line) ex_proc ≈ plumb ex_cmd ex_proc.
Proof.
  assert (0 ∉ ex_line) as H0 by (unfold ex_line; set_solver).
  apply (sh_runs_line ex_line ex_toks ex_cmd ex_proc H0 ex_lexes).
  - apply (sh_parse_grammar ex_line ex_toks ex_cmd H0 ex_lexes). vm_compute. reflexivity.
  - split; [|by exists 3%nat, 4%nat; split; [lia|]]. intros i Hi. exists tty. do 3 (destruct i as [|i]; [done|]). lia.
Defined.
End ShRunExamples.
