(* ===== verification/Apic.v ===== *)
(** The interrupt controllers: the I/O APIC, [src/ioapic.c], the local APIC,
    [src/lapic.c], and the old ones, [src/picirq.c].

    A controller is a device whose registers are in memory ([Mmio]) or behind
    ports; the classes [IoApic] and [LocalApic] are what their manuals say of
    the registers that the code uses.  [ioapic_routes]: after [ioapicinit] and
    any calls of [ioapicenable] each interrupt is masked, or goes to the
    processor it was last enabled for with its own vector.  [lapicinit_ok]: the
    local APIC is enabled and its timer runs. *)

From S2P Require Import Prelude Memory Machine Trap Ata.
From stdpp Require Import options.

(** ** Registers in memory *)

Class Mmio (D : Type) := {
  mmio_read : Z → D → Z * D;
  mmio_write : Z → Z → D → D;
}.

Section mmio.
Context {X D : Type} `{!Mmio D}.
Definition rd (addr : Z) : M (hw X D) Z := λ h, let r := mmio_read addr (hw_dev h) in Ok r.1 (Hw (hw_x h) r.2).
Definition wr (addr v : Z) : M (hw X D) unit := λ h, Ok tt (Hw (hw_x h) (mmio_write addr (u32 v) (hw_dev h))).
End mmio.

(** ** The I/O APIC *)

Definition IOAPIC := 0xFEC00000.
Definition REG_ID := 0x00.
Definition REG_VER := 0x01.
Definition REG_TABLE := 0x10.
Definition INT_DISABLED := 0x00010000.

Section ioapic.
Context {D : Type} `{!Mmio D}.

(** The state of the program is what [cprintf] has printed. *)
Abbreviation P A := (M (hw (list string) D) A).

(** [struct ioapic]: [reg] at offset 0, [data] at offset 16. *)
Definition ioapicread (reg : Z) : P Z := wr IOAPIC reg ;; rd (IOAPIC + 16).
Definition ioapicwrite (reg data : Z) : P unit := wr IOAPIC reg ;; wr (IOAPIC + 16) data.

Definition ioapicinit (ioapicid : Z) : P unit :=
  v <- ioapicread REG_VER ;;
  let maxintr := Z.land (Z.shiftr v 16) 0xFF in
  v <- ioapicread REG_ID ;;
  let id := Z.shiftr v 24 in
  (if negb (id =? ioapicid) then onx (modify (cons "ioapicinit: id isn't equal to ioapicid; not a MP\n")) else skip) ;;
  for_all (Z.to_nat (maxintr + 1)) 0 (λ i,
    ioapicwrite (REG_TABLE + 2 * i) (Z.lor INT_DISABLED (T_IRQ0 + i)) ;;
    ioapicwrite (REG_TABLE + 2 * i + 1) 0).

Definition ioapicenable (irq cpunum : Z) : P unit :=
  ioapicwrite (REG_TABLE + 2 * irq) (T_IRQ0 + irq) ;;
  ioapicwrite (REG_TABLE + 2 * irq + 1) (Z.shiftl cpunum 24).
End ioapic.

(** What the data sheet says: a register is selected and then accessed; those
    of the table keep what is written to them. *)
Class IoApic (D : Type) `{!Mmio D} := {
  io_sel : D → Z;
  io_reg : D → Z → Z;
  io_select d v : io_sel (mmio_write IOAPIC v d) = v ∧ ∀ r, io_reg (mmio_write IOAPIC v d) r = io_reg d r;
  io_get d : mmio_read (IOAPIC + 16) d = (io_reg d (io_sel d), d);
  io_put d v : REG_TABLE ≤ io_sel d → ∀ r, io_reg (mmio_write (IOAPIC + 16) v d) r = if decide (r = io_sel d) then v else io_reg d r;
}.

Section ioapic_ok.
Context {D : Type} `{!Mmio D} `{!IoApic D}.
Implicit Types h : hw (list string) D.

Definition io_max (d : D) : Z := Z.land (Z.shiftr (io_reg d REG_VER) 16) 0xFF.
(** The entry of an interrupt: vector and flags, and destination. *)
Definition entry (d : D) (i : Z) : Z * Z := (io_reg d (REG_TABLE + 2 * i), io_reg d (REG_TABLE + 2 * i + 1)).

Lemma ioapicread_ok r h : ∃ d, ioapicread r h = Ok (io_reg (hw_dev h) (u32 r)) (Hw (hw_x h) d) ∧ ∀ k, io_reg d k = io_reg (hw_dev h) k.
Proof using.
  destruct h as [x d]. exists (mmio_write IOAPIC (u32 r) d). destruct (io_select d (u32 r)) as [H1 H2]. split; [|done].
  unfold ioapicread, bind, wr, rd. cbn [obind hw_x hw_dev]. by rewrite io_get, H1, H2.
Qed.
Lemma ioapicwrite_ok r v h : REG_TABLE ≤ r < 2 ^ 32 → 0 ≤ v < 2 ^ 32 →
  ∃ d, ioapicwrite r v h = Ok tt (Hw (hw_x h) d) ∧ ∀ k, io_reg d k = if decide (k = r) then v else io_reg (hw_dev h) k.
Proof using.
  intros Hr Hv. destruct h as [x d]. eexists. split; [reflexivity|]. intros k. cbn [hw_x hw_dev]. rewrite !u32_id by (unfold REG_TABLE in *; lia). destruct (io_select d r) as [H1 H2].
  rewrite io_put by (rewrite H1; apply Hr). by rewrite H1, H2.
Qed.

(** Both words of an entry. *)
Lemma set_entry i lo hi h : 0 ≤ i < 256 → 0 ≤ lo < 2 ^ 32 → 0 ≤ hi < 2 ^ 32 →
  ∃ d, (ioapicwrite (REG_TABLE + 2 * i) lo ;; ioapicwrite (REG_TABLE + 2 * i + 1) hi) h = Ok tt (Hw (hw_x h) d) ∧
    (∀ k, k < REG_TABLE → io_reg d k = io_reg (hw_dev h) k) ∧ ∀ j, entry d j = if decide (j = i) then (lo, hi) else entry (hw_dev h) j.
Proof using.
  intros Hi Hlo Hhi. unfold REG_TABLE. destruct (ioapicwrite_ok (0x10 + 2 * i) lo h) as (d1 & E1 & H1); [unfold REG_TABLE; lia|lia|]. rewrite (bind_ok _ _ _ _ _ E1).
  destruct (ioapicwrite_ok (0x10 + 2 * i + 1) hi (Hw (hw_x h) d1)) as (d2 & E2 & H2); [unfold REG_TABLE; lia|lia|]. exists d2. split; [exact E2|]. simpl in H2. split.
  - intros k Hk. rewrite H2, H1, !decide_False by lia. done.
  - intros j. unfold entry, REG_TABLE. rewrite !H2, !H1. repeat case_decide; try lia; done.
Qed.

Definition masked (i : Z) : Z * Z := (Z.lor INT_DISABLED (T_IRQ0 + i), 0).
Lemma masked_range i : 0 ≤ i < 256 → 0 ≤ (masked i).1 < 2 ^ 32.
Proof using.
  intros Hi. unfold masked, INT_DISABLED, T_IRQ0. simpl. split; [apply Z.lor_nonneg; lia|]. apply Z.log2_lt_cancel. rewrite Z.log2_lor by lia. change (Z.log2 (2 ^ 32)) with 32.
  apply Z.max_lub_lt; [done|]. apply Z.log2_lt_pow2; lia.
Qed.

Lemma ioapicinit_ok id h : ∃ h', ioapicinit id h = Ok tt h' ∧ io_max (hw_dev h') = io_max (hw_dev h) ∧ ∀ i, 0 ≤ i ≤ io_max (hw_dev h) → entry (hw_dev h') i = masked i.
Proof using.
  unfold ioapicinit. destruct (ioapicread_ok REG_VER h) as (d1 & E1 & H1). rewrite (bind_ok _ _ _ _ _ E1). change (u32 REG_VER) with REG_VER. fold (io_max (hw_dev h)). cbv zeta.
  set (mx := io_max (hw_dev h)). assert (0 ≤ mx < 256) as Hmx by (unfold mx, io_max; rewrite (Z.land_ones _ 8) by lia; apply Z.mod_pos_bound; lia).
  destruct (ioapicread_ok REG_ID (Hw (hw_x h) d1)) as (d2 & E2 & H2). rewrite (bind_ok _ _ _ _ _ E2). simpl in H2. simpl hw_x. simpl hw_dev.
  assert (∃ x, (if negb (Z.shiftr (io_reg d1 (u32 REG_ID)) 24 =? id) then onx (modify (cons "ioapicinit: id isn't equal to ioapicid; not a MP\n")) else skip) (Hw (hw_x h) d2) = Ok tt (Hw x d2)) as [x E3] by (case_match; eexists; reflexivity).
  rewrite (bind_ok _ _ _ _ _ E3).
  enough (wp (for_all (Z.to_nat (mx + 1)) 0 (λ i, ioapicwrite (REG_TABLE + 2 * i) (Z.lor INT_DISABLED (T_IRQ0 + i)) ;; ioapicwrite (REG_TABLE + 2 * i + 1) 0))
    (λ _ h', io_max (hw_dev h') = mx ∧ ∀ i, 0 ≤ i ≤ mx → entry (hw_dev h') i = masked i) (Hw x d2)) as Hloop by (destruct (proj1 (wp_ok _ _ _) Hloop) as ([] & h' & E & H); exists h'; split; [exact E|exact H]).
  apply (wp_mono _ (λ _ h', io_reg (hw_dev h') REG_VER = io_reg (hw_dev h) REG_VER ∧ ∀ i, 0 ≤ i < mx + 1 → entry (hw_dev h') i = masked i)).
  - eapply wp_mono; [apply (wp_for_all (λ n h', io_reg (hw_dev h') REG_VER = io_reg (hw_dev h) REG_VER ∧ ∀ i, 0 ≤ i < n → entry (hw_dev h') i = masked i))|].
    + split; [by rewrite H2, H1|lia].
    + intros n h' Hn [Hv He]. destruct (set_entry n (masked n).1 0 h') as (d & E & Hd1 & Hd2); [lia|apply masked_range; lia|lia|]. eapply wp_eq; [exact E|]. simpl. split; [by rewrite Hd1|].
      intros i Hi. rewrite Hd2. case_decide as Hin; [by subst|]. apply He. lia.
    + intros [] h' [Hv He]. split; [done|]. intros i Hi. apply He. lia.
  - intros _ h' [Hv He]. split; [unfold io_max; by rewrite Hv|]. intros i Hi. apply He. lia.
Qed.

(** The calls that enable interrupts, in order. *)
Definition enable_all (l : list (Z * Z)) : M (hw (list string) D) unit := foldr (λ p m, ioapicenable p.1 p.2 ;; m) skip l.
(** The processor each interrupt was last enabled for. *)
Definition targets (l : list (Z * Z)) : gmap Z Z := foldl (λ m p, <[p.1 := p.2]> m) ∅ l.

Lemma enable_all_ok mx l (m : gmap Z Z) h :
  mx < 256 → Forall (λ p, 0 ≤ p.1 ≤ mx ∧ 0 ≤ p.2 < 256) l → (∀ i, 0 ≤ i ≤ mx → entry (hw_dev h) i = match m !! i with Some c => (T_IRQ0 + i, Z.shiftl c 24) | None => masked i end) →
  ∃ h', enable_all l h = Ok tt h' ∧ ∀ i, 0 ≤ i ≤ mx → entry (hw_dev h') i = match foldl (λ m p, <[p.1 := p.2]> m) m l !! i with Some c => (T_IRQ0 + i, Z.shiftl c 24) | None => masked i end.
Proof using.
  intros Hmx. revert m h. induction l as [|[irq cpu] l IH]; intros m h Hl He; [by exists h|]. apply Forall_cons in Hl as [[H1 H2] Hl]. simpl in H1, H2.
  cbn [enable_all foldr foldl fst snd]. unfold ioapicenable. destruct (set_entry irq (T_IRQ0 + irq) (Z.shiftl cpu 24) h) as (d & E & _ & Hd); [lia|unfold T_IRQ0; lia|rewrite Z.shiftl_mul_pow2 by lia; lia|].
  rewrite (bind_ok _ _ _ _ _ E). apply IH; [done|]. intros i Hi. simpl. rewrite Hd. case_decide as Hii; [subst; by rewrite lookup_insert_eq|]. rewrite lookup_insert_ne by done. by apply He.
Qed.

(** C34: Interrupts go where they were enabled to go. After [ioapicinit] and any
    sequence of calls of [ioapicenable] for interrupts that the controller has,
    each of its interrupts has its own vector and is masked, or, if it was
    enabled, goes unmasked to the processor it was last enabled for. *)
Theorem ioapic_routes id l h :
  Forall (λ p, 0 ≤ p.1 ≤ io_max (hw_dev h) ∧ 0 ≤ p.2 < 256) l →
  ∃ h', (ioapicinit id ;; enable_all l) h = Ok tt h' ∧ ∀ i, 0 ≤ i ≤ io_max (hw_dev h) →
    entry (hw_dev h') i = match targets l !! i with Some cpu => (T_IRQ0 + i, Z.shiftl cpu 24) | None => (Z.lor INT_DISABLED (T_IRQ0 + i), 0) end.
Proof using.
  intros Hl. destruct (ioapicinit_ok id h) as (h1 & E1 & Hm & He). rewrite (bind_ok _ _ _ _ _ E1). rewrite <-Hm in *.
  apply (enable_all_ok (io_max (hw_dev h1)) l ∅ h1); [|done|]; [unfold io_max; rewrite (Z.land_ones _ 8) by lia; apply Z.mod_pos_bound; lia|].
  intros i Hi. rewrite lookup_empty. by apply He.
Qed.
End ioapic_ok.

(** ** The local APIC *)

(** Registers, by word index. *)
Definition LA_ID := 0x0020 / 4.
Definition LA_VER := 0x0030 / 4.
Definition LA_TPR := 0x0080 / 4.
Definition LA_EOI := 0x00B0 / 4.
Definition LA_SVR := 0x00F0 / 4.
Definition LA_ENABLE := 0x00000100.
Definition LA_ESR := 0x0280 / 4.
Definition LA_ICRLO := 0x0300 / 4.
Definition LA_INIT := 0x00000500.
Definition LA_STARTUP := 0x00000600.
Definition LA_DELIVS := 0x00001000.
Definition LA_ASSERT := 0x00004000.
Definition LA_LEVEL := 0x00008000.
Definition LA_BCAST := 0x00080000.
Definition LA_ICRHI := 0x0310 / 4.
Definition LA_TIMER := 0x0320 / 4.
Definition LA_X1 := 0x0000000B.
Definition LA_PERIODIC := 0x00020000.
Definition LA_PCINT := 0x0340 / 4.
Definition LA_LINT0 := 0x0350 / 4.
Definition LA_LINT1 := 0x0360 / 4.
Definition LA_ERROR := 0x0370 / 4.
Definition LA_MASKED := 0x00010000.
Definition LA_TICR := 0x0380 / 4.
Definition LA_TDCR := 0x03E0 / 4.
Definition IRQ_ERROR := 19.
Definition CMOS_PORT := 0x70.

Section lapic.
Context {X D : Type} `{!Mmio D} (lapic : Z).

Definition lapicr (index : Z) : M (hw X D) Z := rd (lapic + 4 * index).
Definition lapicw (index value : Z) : M (hw X D) unit := wr (lapic + 4 * index) value ;; lapicr LA_ID ;; skip.

(** [while(lapic[ICRLO] & DELIVS);] *)
Definition lapic_wait (fuel : nat) : M (hw X D) unit :=
  loop fuel (λ _ : unit, v <- lapicr LA_ICRLO ;; ret (if Z.land v LA_DELIVS =? 0 then inr tt else inl tt)) tt.

Definition lapicinit (fuel : nat) : M (hw X D) unit :=
  if lapic =? 0 then skip else
  lapicw LA_SVR (Z.lor LA_ENABLE (T_IRQ0 + IRQ_SPURIOUS)) ;;
  lapicw LA_TDCR LA_X1 ;;
  lapicw LA_TIMER (Z.lor LA_PERIODIC (T_IRQ0 + IRQ_TIMER)) ;;
  lapicw LA_TICR 10000000 ;;
  lapicw LA_LINT0 LA_MASKED ;;
  lapicw LA_LINT1 LA_MASKED ;;
  v <- lapicr LA_VER ;;
  (if 4 <=? Z.land (Z.shiftr v 16) 0xFF then lapicw LA_PCINT LA_MASKED else skip) ;;
  lapicw LA_ERROR (T_IRQ0 + IRQ_ERROR) ;;
  lapicw LA_ESR 0 ;;
  lapicw LA_ESR 0 ;;
  lapicw LA_EOI 0 ;;
  lapicw LA_ICRHI 0 ;;
  lapicw LA_ICRLO (Z.lor (Z.lor LA_BCAST LA_INIT) LA_LEVEL) ;;
  lapic_wait fuel ;;
  lapicw LA_TPR 0.

Definition lapicid : M (hw X D) Z := if lapic =? 0 then ret 0 else v <- lapicr LA_ID ;; ret (Z.shiftr v 24).
Definition lapiceoi : M (hw X D) unit := if lapic =? 0 then skip else lapicw LA_EOI 0.
End lapic.

(** [microdelay] does nothing. *)
Definition lapicstartap {D} `{!Mmio D} `{!Ports D} (lapic apicid addr : Z) : M (hw memory D) unit :=
  outb CMOS_PORT 0xF ;;
  outb (CMOS_PORT + 1) 0x0A ;;
  let wrv := P2V (Z.lor (Z.shiftl 0x40 4) 0x67) in
  onx (modify (λ m, store_bytes m wrv [0; 0])) ;;
  onx (modify (λ m, store_bytes m (wrv + 2) [u8 (Z.shiftr addr 4); u8 (Z.shiftr addr 4 / 2 ^ 8)])) ;;
  lapicw lapic LA_ICRHI (Z.shiftl apicid 24) ;;
  lapicw lapic LA_ICRLO (Z.lor (Z.lor LA_INIT LA_LEVEL) LA_ASSERT) ;;
  lapicw lapic LA_ICRLO (Z.lor LA_INIT LA_LEVEL) ;;
  for_all 2 0 (λ _,
    lapicw lapic LA_ICRHI (Z.shiftl apicid 24) ;;
    lapicw lapic LA_ICRLO (Z.lor LA_STARTUP (Z.shiftr addr 12))).

(** What the manual says: registers keep what is written; writing the low word
    of the command register sends an interrupt to the processor that the high
    word names, which is delivered in the end.  [la_sent] are those sent. *)
Class LocalApic (D : Type) `{!Mmio D} (lapic : Z) := {
  la_reg : D → Z → Z;
  la_sent : D → list (Z * Z);
  la_polls : nat;
  la_write d i v : 0 ≤ i < 256 →
    (∀ j, la_reg (mmio_write (lapic + 4 * i) v d) j = if decide (j = i) then v else la_reg d j) ∧
    la_sent (mmio_write (lapic + 4 * i) v d) = la_sent d ++ (if decide (i = LA_ICRLO) then [(la_reg d LA_ICRHI, v)] else []);
  la_read d i : 0 ≤ i < 256 →
    let r := mmio_read (lapic + 4 * i) d in
    (∀ j, la_reg r.2 j = la_reg d j) ∧ la_sent r.2 = la_sent d ∧ (i ≠ LA_ICRLO → r.1 = la_reg d i);
  la_delivered d : ∃ k : nat, (k ≤ la_polls)%nat ∧ Z.land (mmio_read (lapic + 4 * LA_ICRLO) (Nat.iter k (λ d, (mmio_read (lapic + 4 * LA_ICRLO) d).2) d)).1 LA_DELIVS = 0;
}.
Arguments la_reg {D _} lapic {_} d i.
Arguments la_sent {D _} lapic {_} d.
Arguments la_polls {D _} lapic {_}.

Section lapic_ok.
Context {X D : Type} `{!Mmio D} (lapic : Z) `{!LocalApic D lapic}.
Implicit Types h : hw X D.

(** The registers and the interrupts sent, after some steps from [d]. *)
Definition la_view (d : D) (regs : Z → Z) (sent : list (Z * Z)) : Prop := (∀ j, la_reg lapic d j = regs j) ∧ la_sent lapic d = sent.
Definition setr (regs : Z → Z) (i v : Z) : Z → Z := λ j, if decide (j = i) then v else regs j.

Lemma lapicr_ok i h regs sent : 0 ≤ i < 256 → i ≠ LA_ICRLO → la_view (hw_dev h) regs sent → ∃ d, lapicr lapic i h = Ok (regs i) (Hw (hw_x h) d) ∧ la_view d regs sent.
Proof using.
  intros Hi Hn [Hr Hs]. destruct (la_read (hw_dev h) i Hi) as (H1 & H2 & H3). eexists. split; [unfold lapicr, rd; by rewrite (H3 Hn), Hr|]. split; [intros j; by rewrite H1|by rewrite H2].
Qed.
Lemma lapicw_ok i v h regs sent : 0 ≤ i < 256 → 0 ≤ v < 2 ^ 32 → la_view (hw_dev h) regs sent →
  ∃ d, lapicw lapic i v h = Ok tt (Hw (hw_x h) d) ∧ la_view d (setr regs i v) (sent ++ if decide (i = LA_ICRLO) then [(regs LA_ICRHI, v)] else []).
Proof using.
  intros Hi Hv [Hr Hs]. unfold lapicw. rewrite (bind_ok _ _ _ tt (Hw (hw_x h) (mmio_write (lapic + 4 * i) v (hw_dev h)))) by (unfold wr; by rewrite u32_id).
  destruct (la_write (hw_dev h) i v Hi) as [H1 H2].
  destruct (lapicr_ok LA_ID (Hw (hw_x h) (mmio_write (lapic + 4 * i) v (hw_dev h))) (setr regs i v) (sent ++ if decide (i = LA_ICRLO) then [(regs LA_ICRHI, v)] else [])) as (d & E & Hd); try done.
  - split; simpl; [intros j; rewrite H1; unfold setr; by rewrite Hr|by rewrite H2, Hs, Hr].
  - exists d. by rewrite (bind_ok _ _ _ _ _ E).
Qed.
Lemma lapic_wait_ok fuel h regs sent : (la_polls lapic < fuel)%nat → la_view (hw_dev h) regs sent → ∃ d, lapic_wait lapic fuel h = Ok tt (Hw (hw_x h) d) ∧ la_view d regs sent.
Proof using.
  intros Hf Hv. destruct (la_delivered (hw_dev h)) as (n & Hn & Hz). assert (n < fuel)%nat as Hlt by lia. clear Hn Hf. unfold lapic_wait. destruct h as [x d]. simpl in *.
  revert d fuel Hv Hlt Hz. induction n as [|n IH]; intros d fuel [Hr Hs] Hlt Hz; (destruct fuel as [|fuel]; [lia|]); destruct (la_read d LA_ICRLO ltac:(done)) as (H1 & H2 & _); cbn [loop];
    unfold bind at 1, bind at 1, lapicr at 1, rd at 1; cbn [obind hw_x hw_dev ret]; destruct (Z.eqb_spec (Z.land (mmio_read (lapic + 4 * LA_ICRLO) d).1 LA_DELIVS) 0) as [E|E]; cbn [obind].
  - eexists. split; [reflexivity|]. split; [intros j; by rewrite H1|by rewrite H2].
  - done.
  - eexists. split; [reflexivity|]. split; [intros j; by rewrite H1|by rewrite H2].
  - apply IH; [split; [intros j; by rewrite H1|by rewrite H2]|lia|]. by rewrite Nat.iter_succ_r in Hz.
Qed.

(** One write, with what is known of the device in [V]. *)
Ltac lapic_step V :=
  match goal with
  | |- context [bind (lapicw lapic ?i ?v) _ (Hw ?x ?d)] =>
      let d' := fresh "d" in let E := fresh "E" in let W := fresh "W" in
      destruct (lapicw_ok i v (Hw x d) _ _ ltac:(done) ltac:(done) V) as (d' & E & W); rewrite (bind_ok _ _ _ _ _ E); cbn [hw_x]; clear E V; rename W into V
  end.

(** [lapicinit] returns; the timer interrupts periodically, the other local
    sources are masked, errors have their vector, and interrupts of any
    priority are accepted. *)
Lemma lapicinit_ok fuel x d :
  lapic ≠ 0 → (la_polls lapic < fuel)%nat →
  ∃ d', lapicinit lapic fuel (Hw (X := X) x d) = Ok tt (Hw x d') ∧
    la_reg lapic d' LA_SVR = 0x13F ∧ la_reg lapic d' LA_TDCR = LA_X1 ∧ la_reg lapic d' LA_TIMER = 0x20020 ∧ la_reg lapic d' LA_TICR = 10000000 ∧
    la_reg lapic d' LA_LINT0 = LA_MASKED ∧ la_reg lapic d' LA_LINT1 = LA_MASKED ∧ la_reg lapic d' LA_ERROR = 51 ∧ la_reg lapic d' LA_TPR = 0 ∧
    (4 ≤ Z.land (Z.shiftr (la_reg lapic d LA_VER) 16) 0xFF → la_reg lapic d' LA_PCINT = LA_MASKED) ∧ la_sent lapic d' = la_sent lapic d ++ [(0, 0x88500)].
Proof using.
  intros Hl Hf. unfold lapicinit. rewrite (proj2 (Z.eqb_neq _ _) Hl). assert (la_view d (la_reg lapic d) (la_sent lapic d)) as V by (by split).
  do 6 lapic_step V. destruct (lapicr_ok LA_VER (Hw x d5) _ _ ltac:(done) ltac:(done) V) as (d6 & E & V6). rewrite (bind_ok _ _ _ _ _ E). clear E V. cbn [hw_x].
  change (setr _ _ _ LA_VER) with (la_reg lapic d LA_VER). set (v := Z.land _ 0xFF).
  assert (∃ d7 p, (if 4 <=? v then lapicw lapic LA_PCINT LA_MASKED else skip) (Hw x d6) = Ok tt (Hw x d7) ∧ la_view d7 (setr (setr (setr (setr (setr (setr (setr (la_reg lapic d) LA_SVR 0x13F) LA_TDCR LA_X1) LA_TIMER 0x20020) LA_TICR 10000000) LA_LINT0 LA_MASKED) LA_LINT1 LA_MASKED) LA_PCINT p) (la_sent lapic d) ∧ (4 ≤ v → p = LA_MASKED)) as (d7 & p & E7 & V & Hp).
  { rewrite !app_nil_r in V6. destruct (Z.leb_spec 4 v) as [Hle|Hgt].
    - destruct (lapicw_ok LA_PCINT LA_MASKED (Hw x d6) _ _ ltac:(done) ltac:(done) V6) as (d7 & E & W). exists d7, LA_MASKED. split; [exact E|]. split; [|done]. rewrite app_nil_r in W. exact W.
    - exists d6, (la_reg lapic d LA_PCINT). split; [done|]. split; [|lia]. destruct V6 as [V6 V6s]. split; [|done]. intros j. rewrite V6. unfold setr at 7. case_decide as Hj; [by subst|]. done. }
  rewrite (bind_ok _ _ _ _ _ E7). clear E7 V6. do 6 lapic_step V.
  match type of V with la_view ?d _ _ => destruct (lapic_wait_ok fuel (Hw x d) _ _ Hf V) as (d14 & E & W) end. rewrite (bind_ok _ _ _ _ _ E). clear E V. cbn [hw_x].
  destruct (lapicw_ok LA_TPR 0 (Hw x d14) _ _ ltac:(done) ltac:(done) W) as (d15 & E & [V Vs]). exists d15. split; [exact E|]. rewrite !V. split_and!; try done. rewrite Vs. by rewrite !app_nil_r.
Qed.
End lapic_ok.

(** The two words of the warm reset vector. *)
Lemma warm_reset m v : 0 ≤ v < 2 ^ 16 →
  let m' := store_bytes (store_bytes m (P2V 0x467) [0; 0]) (P2V 0x469) [u8 v; u8 (v / 2 ^ 8)] in
  load16 m' (P2V 0x467) = 0 ∧ load16 m' (P2V 0x469) = v ∧ ∀ a, a < P2V 0x467 ∨ P2V 0x46b ≤ a → load8 m' a = load8 m a.
Proof.
  intros Hv. cbn [store_bytes]. change (P2V 0x467) with 0x80000467. change (P2V 0x469) with 0x80000469. change (P2V 0x46b) with 0x8000046b. cbv zeta. unfold load16. split_and!.
  - by rewrite !load8_store8.
  - rewrite !load8_store8. repeat (case_decide; try lia). unfold u8. rewrite !Z.mod_mod by lia.
    rewrite (Z.mod_small (v / 2 ^ 8)) by (split; [apply Z.div_pos; lia|apply Z.div_lt_upper_bound; lia]). pose proof (Z.div_mod v (2 ^ 8)). lia.
  - intros a Hlt. rewrite !load8_store8. by repeat (case_decide; try lia).
Qed.

Section startap.
Context {D : Type} `{!Mmio D} `{!Ports D} (lapic : Z) `{!LocalApic D lapic}.
(** The ports of the CMOS are not the local APIC's. *)
Context (Hports : ∀ port v (d : D) regs sent, la_view lapic d regs sent → la_view lapic (port_outb port v d) regs sent).

(** The other processor is reset and started at [addr], and the warm reset
    vector points there. *)
Lemma lapicstartap_ok apicid addr m d :
  0 ≤ apicid < 256 → 0 ≤ addr < 2 ^ 20 →
  ∃ m' d', lapicstartap lapic apicid addr (Hw m d) = Ok tt (Hw m' d') ∧
    la_sent lapic d' = la_sent lapic d ++ (pair (Z.shiftl apicid 24) <$> [0xC500; 0x8500; Z.lor LA_STARTUP (Z.shiftr addr 12); Z.lor LA_STARTUP (Z.shiftr addr 12)]) ∧
    load16 m' (P2V 0x467) = 0 ∧ load16 m' (P2V 0x469) = Z.shiftr addr 4 ∧ ∀ a, a < P2V 0x467 ∨ P2V 0x46b ≤ a → load8 m' a = load8 m a.
Proof using Hports.
  intros Hid Ha. assert (0 ≤ Z.shiftl apicid 24 < 2 ^ 32) as Hs by (rewrite Z.shiftl_mul_pow2 by lia; lia).
  assert (0 ≤ Z.shiftr addr 12 < 2 ^ 8) as Hpg by (rewrite Z.shiftr_div_pow2 by lia; split; [apply Z.div_pos; lia|apply Z.div_lt_upper_bound; lia]).
  assert (0 ≤ Z.lor LA_STARTUP (Z.shiftr addr 12) < 2 ^ 32) as Hst.
  { unfold LA_STARTUP. split; [apply Z.lor_nonneg; lia|]. apply Z.log2_lt_cancel. rewrite Z.log2_lor by lia. change (Z.log2 (2 ^ 32)) with 32. apply Z.max_lub_lt; [done|].
    destruct (decide (Z.shiftr addr 12 = 0)) as [->|]; [done|]. apply Z.log2_lt_pow2; lia. }
  set (m1 := store_bytes (store_bytes m (P2V 0x467) [0; 0]) (P2V 0x469) [u8 (Z.shiftr addr 4); u8 (Z.shiftr addr 4 / 2 ^ 8)]).
  set (d1 := port_outb 0x71 (u8 0x0A) (port_outb 0x70 (u8 0xF) d)). assert (la_view lapic d1 (la_reg lapic d) (la_sent lapic d)) as V by (by apply Hports, Hports).
  unfold lapicstartap. assert (∀ K : M (hw memory D) unit, (outb CMOS_PORT 0xF ;; outb (CMOS_PORT + 1) 0x0A ;; let wrv := P2V (Z.lor (Z.shiftl 0x40 4) 0x67) in onx (modify (λ m, store_bytes m wrv [0; 0])) ;;
    onx (modify (λ m, store_bytes m (wrv + 2) [u8 (Z.shiftr addr 4); u8 (Z.shiftr addr 4 / 2 ^ 8)])) ;; K) (Hw m d) = K (Hw m1 d1)) as -> by done. clearbody d1.
  set (id := Z.shiftl apicid 24) in *. set (st := Z.lor LA_STARTUP (Z.shiftr addr 12)) in *.
  assert (∀ i v d regs sent, 0 ≤ i < 256 → 0 ≤ v < 2 ^ 32 → la_view lapic d regs sent → ∃ d', lapicw lapic i v (Hw m1 d) = Ok tt (Hw m1 d') ∧ la_view lapic d' (setr regs i v) (sent ++ if decide (i = LA_ICRLO) then [(regs LA_ICRHI, v)] else [])) as Hw'.
  { intros i v d2 regs sent H1 H2 H3. by apply (lapicw_ok lapic i v (Hw m1 d2)). }
  destruct (Hw' LA_ICRHI id _ _ _ ltac:(done) Hs V) as (d2 & E2 & V2). rewrite (bind_ok _ _ _ _ _ E2).
  destruct (Hw' LA_ICRLO (Z.lor (Z.lor LA_INIT LA_LEVEL) LA_ASSERT) _ _ _ ltac:(done) ltac:(done) V2) as (d3 & E3 & V3). rewrite (bind_ok _ _ _ _ _ E3).
  destruct (Hw' LA_ICRLO (Z.lor LA_INIT LA_LEVEL) _ _ _ ltac:(done) ltac:(done) V3) as (d4 & E4 & V4). rewrite (bind_ok _ _ _ _ _ E4).
  destruct (Hw' LA_ICRHI id _ _ _ ltac:(done) Hs V4) as (d5 & E5 & V5). destruct (Hw' LA_ICRLO st _ _ _ ltac:(done) Hst V5) as (d6 & E6 & V6).
  destruct (Hw' LA_ICRHI id _ _ _ ltac:(done) Hs V6) as (d7 & E7 & V7). destruct (Hw' LA_ICRLO st _ _ _ ltac:(done) Hst V7) as (d8 & E8 & [_ V8]).
  exists m1, d8. split; [|split; [rewrite V8; simpl; by rewrite <-!app_assoc|]].
  - cbn [for_all]. unfold bind. rewrite E5. cbn [obind]. rewrite E6. cbn [obind]. rewrite E7. cbn [obind]. rewrite E8. done.
  - assert (0 ≤ Z.shiftr addr 4 < 2 ^ 16) as Hv by (rewrite Z.shiftr_div_pow2 by lia; split; [apply Z.div_pos; lia|apply Z.div_lt_upper_bound; lia]). set (v := Z.shiftr addr 4) in *. clearbody v.
    by apply warm_reset.
Qed.
End startap.

(** ** A controller with 24 interrupts *)
Module ApicExamples.
Record simio := Simio { si_sel : Z; si_regs : gmap Z Z }.
#[export] Instance sim_mmio : Mmio simio := {|
  mmio_read a d := (if a =? IOAPIC + 16 then default 0 (si_regs d !! si_sel d) else 0, d);
  mmio_write a v d := if a =? IOAPIC then Simio v (si_regs d) else if a =? IOAPIC + 16 then Simio (si_sel d) (<[si_sel d := v]> (si_regs d)) else d;
|}.
#[export] Instance sim_ioapic : IoApic simio.
Proof.
  refine {| io_sel := si_sel; io_reg d r := default 0 (si_regs d !! r) |}; try done.
  intros d v _ r. change (si_regs (mmio_write (IOAPIC + 16) v d)) with (<[si_sel d := v]> (si_regs d)). rewrite lookup_insert. by repeat case_decide; simplify_eq.
Defined.

Definition ex_io : hw (list string) simio := Hw [] (Simio 0 {[ REG_VER := 0x170011 ]}).

Lemma ioapic_routes_witness :
  ∃ h', (ioapicinit 0 ;; enable_all [(IRQ_KBD, 0); (IRQ_IDE, 1); (IRQ_KBD, 2)]) ex_io = Ok tt h' ∧ entry (hw_dev h') IRQ_KBD = (33, 0x2000000) ∧ entry (hw_dev h') 5 = (0x10025, 0).
Proof.
  destruct (ioapic_routes 0 [(IRQ_KBD, 0); (IRQ_IDE, 1); (IRQ_KBD, 2)] ex_io) as (h' & E & He).
  - repeat constructor; vm_compute; done.
  - exists h'. split; [exact E|]. rewrite !He by (vm_compute; done). split; vm_compute; reflexivity.
Defined.
End ApicExamples.
