(* ===== verification/Rtc.v ===== *)
(** The real-time clock: [cmostime] of [src/lapic.c].

    The clock is a device behind two ports that goes on while it is read.  Time
    is counted in readings: [rtc_time] is their number so far, [rtc_clock n] the
    registers at the [n]th.  [cmostime_reads] shows that [cmostime] returns the
    date of one moment, and returns at all, if the clock changes at most once
    while two dates are read and rests long enough at some time. *)

From S2P Require Import Prelude Machine Ata Apic.
From stdpp Require Import options.

Definition CMOS_RETURN := 0x71.
Definition CMOS_STATA := 0x0a.
Definition CMOS_STATB := 0x0b.
Definition CMOS_UIP := Z.shiftl 1 7.
Definition SECS := 0x00.
Definition MINS := 0x02.
Definition HOURS := 0x04.
Definition DAY := 0x07.
Definition MONTH := 0x08.
Definition YEAR := 0x09.

Record rtcdate := Rtcdate { r_second : Z; r_minute : Z; r_hour : Z; r_day : Z; r_month : Z; r_year : Z }.
#[global] Instance rtcdate_eq : EqDecision rtcdate.
Proof. solve_decision. Defined.

Section rtc.
Context {X D : Type} `{!Ports D}.

Definition cmos_read (reg : Z) : M (hw X D) Z := outb CMOS_PORT reg ;; inb CMOS_RETURN.

Definition fill_rtcdate : M (hw X D) rtcdate :=
  second <- cmos_read SECS ;;
  minute <- cmos_read MINS ;;
  hour <- cmos_read HOURS ;;
  day <- cmos_read DAY ;;
  month <- cmos_read MONTH ;;
  year <- cmos_read YEAR ;;
  ret (Rtcdate second minute hour day month year).

Definition CONV (x : Z) : Z := Z.shiftr x 4 * 10 + Z.land x 0xf.
Definition conv_date (r : rtcdate) : rtcdate :=
  Rtcdate (CONV (r_second r)) (CONV (r_minute r)) (CONV (r_hour r)) (CONV (r_day r)) (CONV (r_month r)) (CONV (r_year r)).

(** The loop that reads the date twice. *)
Definition stable_date (fuel : nat) : M (hw X D) rtcdate :=
  loop fuel (λ _ : unit,
    t1 <- fill_rtcdate ;;
    a <- cmos_read CMOS_STATA ;;
    if negb (Z.land a CMOS_UIP =? 0) then ret (inl tt) else
    t2 <- fill_rtcdate ;;
    ret (if bool_decide (t1 = t2) then inr t1 else inl tt)) tt.

Definition cmostime (fuel : nat) : M (hw X D) rtcdate :=
  sb <- cmos_read CMOS_STATB ;;
  let bcd := Z.land sb (Z.shiftl 1 2) =? 0 in
  t1 <- stable_date fuel ;;
  let t1 := if bcd then conv_date t1 else t1 in
  ret (Rtcdate (r_second t1) (r_minute t1) (r_hour t1) (r_day t1) (r_month t1) (r_year t1 + 2000)).
End rtc.

(** ** The clock *)

(** A register is selected by one port and read from the other, which gives
    its value at that time. *)
Class Rtc (D : Type) `{!Ports D} := {
  rtc_time : D → nat;
  rtc_clock : nat → Z → Z;
  rtc_read d reg : let r := port_inb CMOS_RETURN (port_outb CMOS_PORT (u8 reg) d) in r.1 = rtc_clock (rtc_time d) reg ∧ rtc_time r.2 = S (rtc_time d);
}.

Section rtc_ok.
Context {X D : Type} `{!Ports D} `{!Rtc D}.
Implicit Types h : hw X D.

(** The registers of the date at a moment. *)
Definition date_at (n : nat) : rtcdate :=
  Rtcdate (rtc_clock n SECS) (rtc_clock n MINS) (rtc_clock n HOURS) (rtc_clock n DAY) (rtc_clock n MONTH) (rtc_clock n YEAR).
(** What [fill_rtcdate] reads from time [n] on, one register at a time. *)
Definition seen (n : nat) : rtcdate :=
  Rtcdate (rtc_clock n SECS) (rtc_clock (n + 1) MINS) (rtc_clock (n + 2) HOURS) (rtc_clock (n + 3) DAY) (rtc_clock (n + 4) MONTH) (rtc_clock (n + 5) YEAR).

(** The clock changes at most once in [k] readings. *)
Definition slow (k : nat) : Prop := ∀ n, ∃ c, ∀ i, (n ≤ i < n + k)%nat → date_at i = if decide (i < c)%nat then date_at n else date_at (n + k - 1).
(** It rests for [k] readings from [q] on. *)
Definition rests (q k : nat) : Prop := ∀ i, (q ≤ i < q + k)%nat → date_at i = date_at q ∧ Z.land (rtc_clock i CMOS_STATA) CMOS_UIP = 0.

Lemma cmos_read_ok reg h : ∃ d, cmos_read reg h = Ok (rtc_clock (rtc_time (hw_dev h)) reg) (Hw (hw_x h) d) ∧ rtc_time d = S (rtc_time (hw_dev h)).
Proof using. destruct (rtc_read (hw_dev h) reg) as [H1 H2]. eexists. split; [|exact H2]. unfold cmos_read, bind, outb, inb. cbn [obind hw_x hw_dev]. by rewrite <-H1. Qed.

Lemma fill_ok h n : rtc_time (hw_dev h) = n → ∃ d, fill_rtcdate h = Ok (seen n) (Hw (hw_x h) d) ∧ rtc_time d = (n + 6)%nat.
Proof using.
  intros Hn. unfold fill_rtcdate.
  destruct (cmos_read_ok SECS h) as (d1 & E1 & T1). rewrite (bind_ok _ _ _ _ _ E1).
  destruct (cmos_read_ok MINS (Hw (hw_x h) d1)) as (d2 & E2 & T2). rewrite (bind_ok _ _ _ _ _ E2). cbn [hw_x hw_dev] in *.
  destruct (cmos_read_ok HOURS (Hw (hw_x h) d2)) as (d3 & E3 & T3). rewrite (bind_ok _ _ _ _ _ E3). cbn [hw_x hw_dev] in *.
  destruct (cmos_read_ok DAY (Hw (hw_x h) d3)) as (d4 & E4 & T4). rewrite (bind_ok _ _ _ _ _ E4). cbn [hw_x hw_dev] in *.
  destruct (cmos_read_ok MONTH (Hw (hw_x h) d4)) as (d5 & E5 & T5). rewrite (bind_ok _ _ _ _ _ E5). cbn [hw_x hw_dev] in *.
  destruct (cmos_read_ok YEAR (Hw (hw_x h) d5)) as (d6 & E6 & T6). rewrite (bind_ok _ _ _ _ _ E6). cbn [hw_x hw_dev] in *.
  exists d6. split; [|lia]. replace (rtc_time d5) with (n + 5)%nat by lia. replace (rtc_time d4) with (n + 4)%nat by lia. replace (rtc_time d3) with (n + 3)%nat by lia.
  replace (rtc_time d2) with (n + 2)%nat by lia. replace (rtc_time d1) with (n + 1)%nat by lia. by rewrite Hn.
Qed.

(** A date that does not change while it is read. *)
Lemma seen_still n m : (∀ j, (j < 6)%nat → date_at (n + j) = date_at m) → seen n = date_at m.
Proof using.
  intros H. unfold seen, date_at. rewrite <-(Nat.add_0_r n) at 1.
  f_equal; [apply (f_equal r_second (H 0%nat ltac:(lia)))|apply (f_equal r_minute (H 1%nat ltac:(lia)))|apply (f_equal r_hour (H 2%nat ltac:(lia)))|
    apply (f_equal r_day (H 3%nat ltac:(lia)))|apply (f_equal r_month (H 4%nat ltac:(lia)))|apply (f_equal r_year (H 5%nat ltac:(lia)))].
Qed.

(** Two equal readings give the date of a moment. *)
Lemma seen_twice n : slow 13 → seen n = seen (n + 7) → ∃ i, (n ≤ i < n + 13)%nat ∧ seen n = date_at i.
Proof using.
  intros Hslow Heq. destruct (Hslow n) as [c Hc]. destruct (decide (c ≤ n + 7)%nat) as [Hle|Hgt].
  - exists (n + 12)%nat. split; [lia|]. rewrite Heq. apply seen_still. intros j Hj. rewrite (Hc (n + 7 + j)%nat), decide_False by lia. f_equal. lia.
  - exists n. split; [lia|]. apply seen_still. intros j Hj. by rewrite (Hc (n + j)%nat), decide_True by lia.
Qed.

Lemma stable_date_ok fuel : ∀ h n q, rtc_time (hw_dev h) = n → slow 13 → rests q 26 → (n < q + 13)%nat → (q - n < fuel)%nat →
  ∃ i d, (n ≤ i)%nat ∧ stable_date fuel h = Ok (date_at i) (Hw (hw_x h) d).
Proof using.
  unfold stable_date. induction fuel as [|fuel IH]; intros h n q Hn Hslow Hrest Hq Hf; [lia|]. cbn [loop].
  destruct (fill_ok h n Hn) as (d1 & E1 & T1). destruct (cmos_read_ok CMOS_STATA (Hw (hw_x h) d1)) as (d2 & E2 & T2). cbn [hw_x hw_dev] in *.
  destruct (fill_ok (Hw (hw_x h) d2) (n + 7)) as (d3 & E3 & T3); [simpl; lia|]. cbn [hw_x hw_dev] in *. rewrite T1 in E2.
  assert (∀ k : unit + rtcdate → M (hw X D) rtcdate, bind (t1 <- fill_rtcdate ;; a <- cmos_read CMOS_STATA ;; if negb (Z.land a CMOS_UIP =? 0) then ret (inl tt) else
    t2 <- fill_rtcdate ;; ret (if bool_decide (t1 = t2) then inr t1 else inl tt)) k h =
    if negb (Z.land (rtc_clock (n + 6) CMOS_STATA) CMOS_UIP =? 0) then k (inl tt) (Hw (hw_x h) d2) else k (if bool_decide (seen n = seen (n + 7)) then inr (seen n) else inl tt) (Hw (hw_x h) d3)) as Hbody.
  { intros k. unfold bind at 1. rewrite (bind_ok _ _ _ _ _ E1), (bind_ok _ _ _ _ _ E2). case_match; [done|]. by rewrite (bind_ok _ _ _ _ _ E3). }
  rewrite Hbody. clear Hbody. destruct (Z.eqb_spec (Z.land (rtc_clock (n + 6) CMOS_STATA) CMOS_UIP) 0) as [Hu|Hu]; simpl negb; cbv iota.
  - case_bool_decide as Hs.
    + destruct (seen_twice n Hslow Hs) as (i & Hi & ->). exists i, d3. split; [lia|done].
    + assert (n < q)%nat as Hlt.
      { destruct (decide (n < q)%nat); [done|]. destruct Hs. rewrite (seen_still n q), (seen_still (n + 7) q); [done|intros j Hj; apply Hrest; lia..]. }
      destruct (IH (Hw (hw_x h) d3) (n + 13)%nat q) as (i & d & Hi & E); try done; [simpl; lia..|]. exists i, d. split; [lia|exact E].
  - assert (n < q)%nat as Hlt by (destruct (decide (n < q)%nat); [done|]; destruct Hu; apply Hrest; lia).
    destruct (IH (Hw (hw_x h) d2) (n + 7)%nat q) as (i & d & Hi & E); try done; [simpl; lia..|]. exists i, d. split; [lia|exact E].
Qed.

(** How the registers show a date, in binary or in packed decimal digits. *)
Definition BCD (v : Z) : Z := 16 * (v / 10) + v mod 10.
Definition map_date (f : Z → Z) (r : rtcdate) : rtcdate :=
  Rtcdate (f (r_second r)) (f (r_minute r)) (f (r_hour r)) (f (r_day r)) (f (r_month r)) (f (r_year r)).
Definition two_digits (r : rtcdate) : Prop :=
  0 ≤ r_second r < 100 ∧ 0 ≤ r_minute r < 100 ∧ 0 ≤ r_hour r < 100 ∧ 0 ≤ r_day r < 100 ∧ 0 ≤ r_month r < 100 ∧ 0 ≤ r_year r < 100.

Lemma CONV_BCD v : 0 ≤ v < 100 → CONV (BCD v) = v.
Proof using.
  intros Hv. unfold CONV, BCD. pose proof (Z.mod_pos_bound v 10). rewrite Z.shiftr_div_pow2, (Z.land_ones _ 4) by lia. change (2 ^ 4) with 16.
  rewrite (Z.add_comm (16 * _)), (Z.mul_comm 16), Z.div_add, Z.mod_add by lia. rewrite Z.div_small, Z.mod_small by lia. pose proof (Z.div_mod v 10). lia.
Qed.

(** C35: The date is not torn. The clock shows the dates [real], in binary or in
    decimal digits as its register B says; it changes at most once in thirteen
    readings and at some time rests for twenty-six. Then [cmostime] returns,
    with the date of one moment after it was called, in this century, though it
    reads the fields one at a time from a clock that goes on. *)
Theorem cmostime_reads real (bin : bool) fuel h q :
  slow 13 → rests q 26 → (rtc_time (hw_dev h) < q)%nat → (q < fuel)%nat → Z.land (rtc_clock (rtc_time (hw_dev h)) CMOS_STATB) 4 = (if bin then 4 else 0) →
  (∀ i, two_digits (real i) ∧ date_at i = if bin then real i else map_date BCD (real i)) →
  ∃ i d, (rtc_time (hw_dev h) ≤ i)%nat ∧ let r := real i in
    cmostime fuel h = Ok (Rtcdate (r_second r) (r_minute r) (r_hour r) (r_day r) (r_month r) (2000 + r_year r)) (Hw (hw_x h) d).
Proof using.
  intros Hslow Hrest Hq Hf Hmode Hreal. unfold cmostime. destruct (cmos_read_ok CMOS_STATB h) as (d1 & E1 & T1). rewrite (bind_ok _ _ _ _ _ E1).
  destruct (stable_date_ok fuel (Hw (hw_x h) d1) _ q eq_refl Hslow Hrest) as (i & d & Hi & E); [simpl; lia..|]. cbn [hw_x hw_dev] in *. rewrite T1 in Hi. cbv zeta. rewrite (bind_ok _ _ _ _ _ E).
  change (Z.shiftl 1 2) with 4. rewrite Hmode. destruct (Hreal i) as [Hd Hr]. exists i, d. split; [lia|]. unfold ret. f_equal. rewrite Hr. destruct bin; simpl; [f_equal; lia|].
  rewrite !CONV_BCD by apply Hd. f_equal. lia.
Qed.
End rtc_ok.

Module RtcExamples.
(** A clock that goes from 10:59:59 to 11:00:00 while the hour is read. *)
Definition ex_real (n : nat) : rtcdate := if (n <? 3)%nat then Rtcdate 59 59 10 31 12 18 else Rtcdate 0 0 11 31 12 18.
Definition ex_clock (n : nat) (reg : Z) : Z :=
  let r := ex_real n in
  if reg =? SECS then BCD (r_second r) else if reg =? MINS then BCD (r_minute r) else if reg =? HOURS then BCD (r_hour r)
  else if reg =? DAY then BCD (r_day r) else if reg =? MONTH then BCD (r_month r) else if reg =? YEAR then BCD (r_year r) else 0.
Record simrtc := Simrtc { sr_time : nat; sr_sel : Z }.
#[export] Instance sim_ports : Ports simrtc := {|
  port_inb _ d := (ex_clock (sr_time d) (sr_sel d), Simrtc (S (sr_time d)) (sr_sel d));
  port_outb _ v d := Simrtc (sr_time d) v;
  port_inl _ d := ([], d);
  port_outl _ _ d := d;
|}.
(** Registers are bytes. *)
#[export] Instance sim_rtc : Rtc simrtc.
Proof. by refine {| rtc_time := sr_time; rtc_clock n reg := ex_clock n (u8 reg) |}. Defined.

Lemma cmostime_reads_witness : ∃ i d, cmostime 40 (Hw tt (Simrtc 0 0)) = Ok (let r := ex_real i in Rtcdate (r_second r) (r_minute r) (r_hour r) (r_day r) (r_month r) (2000 + r_year r)) (Hw tt d).
Proof.
  assert (∀ n, date_at n = map_date BCD (ex_real n)) as Hdate by done.
  assert (∀ n m, (3 ≤ n)%nat → (3 ≤ m)%nat → ex_real n = ex_real m) as Hlate by (intros n m Hn Hm; unfold ex_real; by rewrite !(proj2 (Nat.ltb_ge _ _))).
  assert (∀ n m, (n < 3)%nat → (m < 3)%nat → ex_real n = ex_real m) as Hearly by (intros n m Hn Hm; unfold ex_real; by rewrite !(proj2 (Nat.ltb_lt _ _))).
  destruct (cmostime_reads ex_real false 40 (Hw tt (Simrtc 0 0)) 5) as (i & d & _ & E).
  - intros n. destruct (decide (n < 3)%nat) as [Hn|Hn]; [exists 3%nat|exists n]; intros i Hi; rewrite !Hdate; case_decide; f_equal; first [apply Hearly; lia|apply Hlate; lia].
  - intros i Hi. rewrite !Hdate. split; [f_equal; apply Hlate; lia|done].
  - simpl. lia.
  - lia.
  - done.
  - intros n. split; [unfold ex_real; destruct (n <? 3)%nat; repeat split; simpl; lia|done].
  - exists i, d. exact E.
Defined.
End RtcExamples.
