(* ===== verification/Uart.v ===== *)
(** The serial port, [src/uart.c], and the old interrupt controllers,
    [src/picirq.c].

    [Serial] is what the data sheet of the 8250 says of a port: bytes written
    to it are sent in order, bytes that arrive are read in order.  [uartputs_ok]:
    what the kernel prints is sent.  [uartintr_types]: an interrupt passes all
    bytes that have arrived to the console. *)

From S2P Require Import Prelude Machine Trap Ring Console Ata.
From stdpp Require Import options.

Definition COM1 := 0x3f8.
Definition IO_PIC1 := 0x20.
Definition IO_PIC2 := 0xA0.

Section uart.
Context {D : Type} `{!Ports D}.
(** The state of the program is [uart]: is there a serial port? *)
Abbreviation P A := (M (hw bool D) A).

Definition picinit : P unit :=
  outb (IO_PIC1 + 1) 0xFF ;;
  outb (IO_PIC2 + 1) 0xFF.

Definition uartputc (c : Z) : P unit :=
  uart <- gets hw_x ;;
  if negb uart then skip else
  for_up 128 0 (λ _, s <- inb (COM1 + 5) ;; ret (if Z.land s 0x20 =? 0 then None else Some tt)) ;;
  outb (COM1 + 0) c.
Fixpoint uartputs (l : list Z) : P unit := match l with [] => skip | c :: l => uartputc c ;; uartputs l end.

Definition uartinit (ioapicenable : Z → Z → P unit) : P unit :=
  outb (COM1 + 2) 0 ;;
  outb (COM1 + 3) 0x80 ;;
  outb (COM1 + 0) (115200 / 9600) ;;
  outb (COM1 + 1) 0 ;;
  outb (COM1 + 3) 0x03 ;;
  outb (COM1 + 4) 0 ;;
  outb (COM1 + 1) 0x01 ;;
  s <- inb (COM1 + 5) ;;
  if s =? 0xFF then skip else
  modify (λ h, Hw true (hw_dev h)) ;;
  inb (COM1 + 2) ;;
  inb (COM1 + 0) ;;
  ioapicenable IRQ_COM1 0 ;;
  uartputs (bytes_of "xv6..." ++ [10]).

Definition uartgetc : P Z :=
  uart <- gets hw_x ;;
  if negb uart then ret (-1) else
  s <- inb (COM1 + 5) ;;
  if Z.land s 0x01 =? 0 then ret (-1) else
  inb (COM1 + 0).

(** The bytes [uartgetc] gives to [consoleintr] until it has no more. *)
Definition uart_chars (fuel : nat) : P (list Z) :=
  loop fuel (λ l, c <- uartgetc ;; ret (if c <? 0 then inr l else inl (l ++ [c]))) [].
Definition uartintr (fuel : nat) (i : inputbuf) : P (inputbuf * list Z * bool) :=
  cs <- uart_chars fuel ;; ret (consoleintr cs i).
End uart.

(** ** The port *)

(** [ser_dlab]: the divisor is unlocked, and is what offsets 0 and 1 access. *)
Class Serial (D : Type) `{!Ports D} := {
  ser_sent : D → list Z;
  ser_arrived : D → list Z;
  ser_dlab : D → bool;
  (** reading the status changes nothing but how soon it can send again *)
  ser_status d : ser_dlab d = false →
    let r := port_inb (COM1 + 5) d in
    ser_sent r.2 = ser_sent d ∧ ser_arrived r.2 = ser_arrived d ∧ ser_dlab r.2 = false ∧ (Z.land r.1 0x01 = 0 ↔ ser_arrived d = []);
  (** after at most 127 readings of the status it can send *)
  ser_ready d : ser_dlab d = false → ∃ k : nat, (k < 128)%nat ∧ Z.land (port_inb (COM1 + 5) (Nat.iter k (λ d, (port_inb (COM1 + 5) d).2) d)).1 0x20 ≠ 0;
  ser_put d c : ser_dlab d = false → 0 ≤ c < 256 → (∃ d0, d = (port_inb (COM1 + 5) d0).2 ∧ Z.land (port_inb (COM1 + 5) d0).1 0x20 ≠ 0) →
    ser_sent (port_outb COM1 c d) = ser_sent d ++ [c] ∧ ser_arrived (port_outb COM1 c d) = ser_arrived d ∧ ser_dlab (port_outb COM1 c d) = false;
  ser_get d c l : ser_dlab d = false → ser_arrived d = c :: l →
    let r := port_inb COM1 d in r.1 = c ∧ ser_sent r.2 = ser_sent d ∧ ser_arrived r.2 = l ∧ ser_dlab r.2 = false;
  ser_bytes d : Forall (λ c, 0 ≤ c < 256) (ser_arrived d);
}.

Section uart_ok.
Context {D : Type} `{!Ports D} `{!Serial D}.

Lemma poll_ready n d j :
  ser_dlab d = false → (∃ k : nat, (k < n)%nat ∧ Z.land (port_inb (COM1 + 5) (Nat.iter k (λ d, (port_inb (COM1 + 5) d).2) d)).1 0x20 ≠ 0) →
  ∃ d0, let r := port_inb (COM1 + 5) d0 in
    for_up n j (λ _, s <- inb (COM1 + 5) ;; ret (if Z.land s 0x20 =? 0 then None else Some tt)) (Hw true d) = Ok (Some tt) (Hw true r.2) ∧
    Z.land r.1 0x20 ≠ 0 ∧ ser_sent r.2 = ser_sent d ∧ ser_arrived r.2 = ser_arrived d ∧ ser_dlab r.2 = false.
Proof using.
  revert d j. induction n as [|n IH]; intros d j Hd (k & Hk & Hz); [lia|]. destruct (ser_status d Hd) as (S1 & S2 & S3 & _). cbn [for_up]. unfold bind at 1, bind at 1, inb at 1. cbn [obind ret hw_x hw_dev].
  destruct (Z.eqb_spec (Z.land (port_inb (COM1 + 5) d).1 0x20) 0) as [E|E]; cbn [obind].
  - destruct k as [|k]; [done|]. destruct (IH (port_inb (COM1 + 5) d).2 (j + 1) S3) as (d0 & E0 & H1 & H2 & H3 & H4).
    { exists k. split; [lia|]. by rewrite Nat.iter_succ_r in Hz. }
    exists d0. split; [exact E0|]. split_and!; try done; congruence.
  - exists d. split; [done|]. by split_and!.
Qed.

Lemma uartputc_ok c d : 0 ≤ c < 256 → ser_dlab d = false →
  ∃ d', uartputc c (Hw true d) = Ok tt (Hw true d') ∧ ser_sent d' = ser_sent d ++ [c] ∧ ser_arrived d' = ser_arrived d ∧ ser_dlab d' = false.
Proof using.
  intros Hc Hd. unfold uartputc. rewrite (bind_ok (gets hw_x) _ _ true (Hw true d)) by done. cbn [negb].
  destruct (poll_ready 128 d 0 Hd (ser_ready d Hd)) as (d0 & E & H1 & H2 & H3 & H4). rewrite (bind_ok _ _ _ _ _ E).
  destruct (ser_put (port_inb (COM1 + 5) d0).2 c H4 Hc) as (P1 & P2 & P3); [by exists d0|]. eexists. split; [reflexivity|]. cbn [hw_dev]. rewrite Z.add_0_r, u8_id by done.
  split_and!; [by rewrite P1, H2|by rewrite P2, H3|done].
Qed.
Lemma uartputs_ok l d : Forall (λ c, 0 ≤ c < 256) l → ser_dlab d = false →
  ∃ d', uartputs l (Hw true d) = Ok tt (Hw true d') ∧ ser_sent d' = ser_sent d ++ l ∧ ser_arrived d' = ser_arrived d ∧ ser_dlab d' = false.
Proof using.
  intros Hl. revert d. induction Hl as [|c l Hc _ IH]; intros d Hd; cbn [uartputs].
  - exists d. by rewrite app_nil_r.
  - destruct (uartputc_ok c d Hc Hd) as (d1 & E1 & S1 & A1 & L1). rewrite (bind_ok _ _ _ _ _ E1). destruct (IH d1 L1) as (d2 & E2 & S2 & A2 & L2). exists d2. split; [done|].
    split_and!; [by rewrite S2, S1, <-app_assoc|congruence|done].
Qed.

Lemma uart_chars_ok fuel : ∀ d acc, ser_dlab d = false → (length (ser_arrived d) < fuel)%nat →
  ∃ d', loop fuel (λ l, c <- uartgetc ;; ret (if c <? 0 then inr l else inl (l ++ [c]))) acc (Hw true d) = Ok (acc ++ ser_arrived d) (Hw true d') ∧ ser_arrived d' = [] ∧ ser_sent d' = ser_sent d.
Proof using.
  induction fuel as [|fuel IH]; intros d acc Hd Hf; [lia|]. cbn [loop]. destruct (ser_status d Hd) as (S1 & S2 & S3 & S4). set (d1 := (port_inb (COM1 + 5) d).2) in *.
  assert (∀ k : Z → M (hw bool D) (list Z + list Z), bind uartgetc k (Hw true d) = if Z.land (port_inb (COM1 + 5) d).1 1 =? 0 then k (-1) (Hw true d1) else bind (inb (COM1 + 0)) k (Hw true d1)) as Hg.
  { intros k. unfold uartgetc, bind, gets, inb. cbn [obind hw_x hw_dev negb]. fold d1. by destruct (_ =? 0). }
  unfold bind at 1. rewrite Hg. clear Hg. destruct (Z.eqb_spec (Z.land (port_inb (COM1 + 5) d).1 1) 0) as [E|E].
  - apply S4 in E. exists d1. rewrite E, app_nil_r. by rewrite S2, E.
  - destruct (ser_arrived d) as [|c l] eqn:Ea; [by destruct E; apply S4|]. destruct (ser_get d1 c l S3 S2) as (G1 & G2 & G3 & G4). rewrite Z.add_0_r. unfold bind, inb. cbn [obind hw_x hw_dev ret]. rewrite G1.
    assert (0 ≤ c) as Hc by (pose proof (ser_bytes d) as Hb; rewrite Ea in Hb; apply Forall_cons in Hb; lia). destruct (Z.ltb_spec c 0); [lia|]. cbn [obind].
    destruct (IH (port_inb COM1 d1).2 (acc ++ [c]) G4) as (d' & E' & A' & T'); [rewrite G3; simpl in Hf; lia|]. exists d'. rewrite G3, <-app_assoc in E'. split; [exact E'|]. split; [done|congruence].
Qed.

(** An interrupt of the serial port types all bytes that have arrived into the
    console's line editor, in order. *)
Lemma uartintr_types fuel d i cq eq :
  ser_dlab d = false → (length (ser_arrived d) < fuel)%nat → holds i cq eq →
  ∃ i' out b d', uartintr fuel i (Hw true d) = Ok (i', out, b) (Hw true d') ∧ ser_arrived d' = [] ∧
    let '(cq', eq', out') := ed_chars (ser_arrived d) cq eq in holds i' cq' eq' ∧ out = out'.
Proof using.
  intros Hd Hf Hi. unfold uartintr, uart_chars. destruct (uart_chars_ok fuel d [] Hd Hf) as (d' & E & A & _). rewrite (bind_ok _ _ _ _ _ E). cbn [app].
  pose proof (consoleintr_spec (ser_arrived d) i cq eq Hi (ser_bytes d)) as Hc. destruct (consoleintr (ser_arrived d) i) as [[i' out] b]. by exists i', out, b, d'.
Qed.
End uart_ok.

Module UartExamples.
(** A port that is always ready. *)
Record simser := Simser { sim_sent : list Z; sim_in : list Z }.
#[global] Instance sim_serial_ports : Ports simser := {
  port_inb p d := if p =? COM1 + 5 then (if decide (sim_in d = []) then 0x20 else 0x21, d)
                  else match sim_in d with c :: l => (u8 c, Simser (sim_sent d) l) | [] => (0, d) end;
  port_outb p c d := if p =? COM1 then Simser (sim_sent d ++ [c]) (sim_in d) else d;
  port_inl _ d := ([], d);
  port_outl _ _ d := d;
}.
#[global] Instance sim_serial : Serial simser.
Proof.
  refine {| ser_sent := sim_sent; ser_arrived d := u8 <$> sim_in d; ser_dlab _ := false |}.
  - intros d _. simpl. split_and!; [done..|]. case_decide as E; [by rewrite E|]. by destruct (sim_in d).
  - intros d _. exists O. split; [lia|]. simpl. by case_decide.
  - intros d c _ Hc _. simpl. done.
  - intros d c l _ H. simpl. destruct (sim_in d); [done|]. by simplify_eq/=.
  - intros d. apply Forall_fmap, Forall_true. intros c. apply Z.mod_pos_bound. done.
Defined.

(** The port sends what is printed. *)
Example sends : ∃ d, uartputs (bytes_of "ok") (Hw true (Simser [] [])) = Ok tt (Hw true d) ∧ ser_sent d = [111; 107].
Proof. by eexists. Qed.
End UartExamples.
