(* ===== verification/Sleeplock.v ===== *)
(** Sleep locks, [src/sleeplock.c], with any number of processes.

    A process is at a point of [acquiresleep], [releasesleep] or
    [holdingsleep], or outside; the steps are the statements of the source, in
    any interleaving.  The spin lock [lk->lk] excludes ([Spinlock]); [sleep]
    releases it and suspends the process in one step, and [wakeup] makes every
    process that sleeps on the lock runnable ([Sched]).  [sleeplock_safe]: one
    process holds the lock, the one it records, and no wakeup is lost. *)

From S2P Require Import Prelude.
From stdpp Require Import options.

(** [struct sleeplock]; [sl_lk] is the process that holds [lk]. *)
Record sleeplock := Sleeplock { sl_locked : Z; sl_lk : option nat; sl_pid : Z }.
#[global] Instance eta_sleeplock : Eta sleeplock := λ l, Sleeplock (sl_locked l) (sl_lk l) (sl_pid l).

Definition initsleeplock : sleeplock := Sleeplock 0 None 0.

(** Where a process is. *)
Inductive point :=
  | Outside            (* does not use the lock *)
  | Testing            (* acquiresleep: at [while (lk->locked)], with [lk] *)
  | Sleeping           (* in [sleep] *)
  | Woken              (* runnable again, to acquire [lk] *)
  | Taking             (* after [lk->locked = 1] *)
  | Recorded           (* after [lk->pid = myproc()->pid] *)
  | Holding            (* acquiresleep has returned *)
  | Releasing          (* releasesleep: has [lk] *)
  | Cleared            (* after [lk->locked = 0] *)
  | Forgotten          (* after [lk->pid = 0] *)
  | Waking             (* after [wakeup(lk)] *)
  | Asking (p : point) (* holdingsleep, called at [p]: has [lk] *)
  | Answered (p : point) (r : Z).
#[global] Instance point_eq : EqDecision point.
Proof. solve_decision. Defined.

Record slstate := Slstate { ss_lock : sleeplock; ss_at : nat → point }.

Section steps.
(** The processes' pids. *)
Variable pid_of : nat → Z.

Definition goto (f : nat → point) (i : nat) (p : point) : nat → point := λ j, if decide (j = i) then p else f j.
(** [wakeup(lk)] *)
Definition wake_all (f : nat → point) : nat → point := λ j, if decide (f j = Sleeping) then Woken else f j.

Inductive sl_step : slstate → slstate → Prop :=
  (* acquiresleep *)
  | as_enter i l f : f i = Outside → sl_lk l = None → sl_step (Slstate l f) (Slstate (l <| sl_lk := Some i |>) (goto f i Testing))
  | as_sleep i l f : f i = Testing → sl_locked l ≠ 0 → sl_step (Slstate l f) (Slstate (l <| sl_lk := None |>) (goto f i Sleeping))
  | as_resume i l f : f i = Woken → sl_lk l = None → sl_step (Slstate l f) (Slstate (l <| sl_lk := Some i |>) (goto f i Testing))
  | as_take i l f : f i = Testing → sl_locked l = 0 → sl_step (Slstate l f) (Slstate (l <| sl_locked := 1 |>) (goto f i Taking))
  | as_record i l f : f i = Taking → sl_step (Slstate l f) (Slstate (l <| sl_pid := pid_of i |>) (goto f i Recorded))
  | as_leave i l f : f i = Recorded → sl_step (Slstate l f) (Slstate (l <| sl_lk := None |>) (goto f i Holding))
  (* releasesleep *)
  | rs_enter i l f : f i = Holding → sl_lk l = None → sl_step (Slstate l f) (Slstate (l <| sl_lk := Some i |>) (goto f i Releasing))
  | rs_clear i l f : f i = Releasing → sl_step (Slstate l f) (Slstate (l <| sl_locked := 0 |>) (goto f i Cleared))
  | rs_forget i l f : f i = Cleared → sl_step (Slstate l f) (Slstate (l <| sl_pid := 0 |>) (goto f i Forgotten))
  | rs_wake i l f : f i = Forgotten → sl_step (Slstate l f) (Slstate l (wake_all (goto f i Waking)))
  | rs_leave i l f : f i = Waking → sl_step (Slstate l f) (Slstate (l <| sl_lk := None |>) (goto f i Outside))
  (* holdingsleep *)
  | hs_enter i l f p : f i = p → p = Outside ∨ p = Holding → sl_lk l = None → sl_step (Slstate l f) (Slstate (l <| sl_lk := Some i |>) (goto f i (Asking p)))
  | hs_read i l f p : f i = Asking p → sl_step (Slstate l f) (Slstate l (goto f i (Answered p (sl_locked l))))
  | hs_leave i l f p r : f i = Answered p r → sl_step (Slstate l f) (Slstate (l <| sl_lk := None |>) (goto f i p)).

(** The points at which a process has [lk], and those between taking and
    releasing the sleep lock. *)
Definition has_lk (p : point) : bool :=
  match p with Testing | Taking | Recorded | Releasing | Cleared | Forgotten | Waking | Asking _ | Answered _ _ => true | _ => false end.
Definition owns (p : point) : bool :=
  match p with Taking | Recorded | Holding | Releasing | Asking Holding | Answered Holding _ => true | _ => false end.

(** [holdingsleep] is called outside or by the holder, whom it tells so. *)
Definition ask_ok (p : point) : Prop :=
  match p with Asking q => q = Outside ∨ q = Holding | Answered q r => q = Outside ∨ q = Holding ∧ r ≠ 0 | _ => True end.

(** One process has the spin lock, one the sleep lock; the lock is marked and
    its owner recorded. *)
Record sl_core (s : slstate) : Prop := {
  si_lk i : has_lk (ss_at s i) = true ↔ sl_lk (ss_lock s) = Some i;
  si_owner : (∃ i, owns (ss_at s i) = true) ↔ sl_locked (ss_lock s) ≠ 0;
  si_one i j : owns (ss_at s i) = true → owns (ss_at s j) = true → i = j;
  si_pid i : owns (ss_at s i) = true → ss_at s i = Taking ∨ sl_pid (ss_lock s) = pid_of i;
  si_ask i : ask_ok (ss_at s i);
  si_clear i : ss_at s i = Cleared → sl_locked (ss_lock s) = 0;
}.
(** Who sleeps will be woken: the lock is held, or its holder is between
    clearing it and [wakeup]. *)
Definition sl_wait (s : slstate) : Prop :=
  ∀ i, ss_at s i = Sleeping → sl_locked (ss_lock s) ≠ 0 ∨ ∃ j, ss_at s j = Cleared ∨ ss_at s j = Forgotten.
Definition sl_inv (s : slstate) : Prop := sl_core s ∧ sl_wait s.

Lemma goto_eq f i p : goto f i p i = p.
Proof using. unfold goto. by rewrite decide_True. Qed.
Lemma goto_ne f i p j : j ≠ i → goto f i p j = f j.
Proof using. intros. unfold goto. by rewrite decide_False. Qed.

Lemma sl_init f : (∀ i, f i = Outside) → sl_inv (Slstate initsleeplock f).
Proof using.
  intros Hf. split; [split|]; simpl; try (intros i *; simpl; rewrite !Hf; naive_solver). split; [|done]. intros [i Hi]. by rewrite Hf in Hi.
Qed.

(** The effect of a step of process [i] on the spin lock and on the sleep
    lock. *)
Definition lk_ok (l l' : sleeplock) (i : nat) (p q : point) : Prop :=
  (has_lk p = has_lk q ∧ sl_lk l' = sl_lk l) ∨ (has_lk q = true ∧ has_lk p = false ∧ sl_lk l = None ∧ sl_lk l' = Some i) ∨
  (has_lk p = true ∧ has_lk q = false ∧ sl_lk l' = None).
Definition own_ok (l l' : sleeplock) (i : nat) (p q : point) : Prop :=
  (owns p = owns q ∧ sl_locked l' = sl_locked l ∧ (owns q = false ∨ q ≠ Taking) ∧
    ((p ≠ Taking ∧ (sl_pid l' = sl_pid l ∨ sl_locked l = 0)) ∨ (owns p = true ∧ sl_pid l' = pid_of i))) ∨
  (q = Taking ∧ owns p = false ∧ has_lk p = true ∧ sl_locked l = 0 ∧ sl_locked l' ≠ 0) ∨
  (owns p = true ∧ owns q = false ∧ sl_locked l' = 0).

Lemma move_lk l l' f i q : sl_core (Slstate l f) → lk_ok l l' i (f i) q → ∀ k, has_lk (goto f i q k) = true ↔ sl_lk l' = Some k.
Proof using.
  intros [Hlk _ _ _ _ _] Hm k. simpl in Hlk. pose proof (Hlk k) as Hk. pose proof (Hlk i) as Hi. clear Hlk.
  destruct (decide (k = i)) as [->|]; [rewrite goto_eq|rewrite goto_ne by done];
    destruct Hm as [[E1 E2]|[(E1&E2&E3&E4)|(E1&E2&E3)]]; try rewrite E1 in *; try rewrite E2 in *; try rewrite E3 in *; try rewrite ?E4; naive_solver congruence.
Qed.

Lemma move_own l l' f i q : sl_core (Slstate l f) → own_ok l l' i (f i) q →
  ((∃ k, owns (goto f i q k) = true) ↔ sl_locked l' ≠ 0) ∧
  (∀ j k, owns (goto f i q j) = true → owns (goto f i q k) = true → j = k) ∧
  (∀ k, owns (goto f i q k) = true → goto f i q k = Taking ∨ sl_pid l' = pid_of k).
Proof using.
  intros [_ Ho H1 Hp _ _] Hm. simpl in *. destruct Hm as [(E1&E2&E3&E4)|[(->&E2&_&E3&E4)|(E1&E2&E3)]].
  - assert (∀ k, owns (goto f i q k) = owns (f k)) as Eo. { intros k. destruct (decide (k = i)) as [->|]; [by rewrite goto_eq|by rewrite goto_ne]. }
    split_and!; [setoid_rewrite Eo; by rewrite E2|intros j k; rewrite !Eo; apply H1|].
    intros k Hk. rewrite Eo in Hk. specialize (Hp k Hk). pose proof (H1 k i Hk) as Hki.
    assert (sl_locked l ≠ 0) as Hn by (apply Ho; eauto).
    destruct E4 as [[Ht [->|?]]|[Hi ->]]; [|done|].
    + destruct (decide (k = i)) as [->|]; [|by rewrite goto_ne]. right. by destruct Hp.
    + right. by rewrite Hki.
  - assert (∀ k, owns (f k) = false) as Ef. { intros k. destruct (owns (f k)) eqn:Hk; [|done]. exfalso. apply (proj1 Ho); eauto. }
    assert (∀ k, owns (goto f i Taking k) = true → k = i) as Hi.
    { intros k. destruct (decide (k = i)) as [->|]; [done|]. rewrite goto_ne by done. by rewrite Ef. }
    split_and!; [split; [done|]; intros _; exists i; by rewrite goto_eq|intros j k Hj Hk; by rewrite (Hi j), (Hi k)|].
    intros k Hk. left. rewrite (Hi k) by done. by rewrite goto_eq.
  - assert (∀ k, owns (goto f i q k) = false) as Ef.
    { intros k. destruct (decide (k = i)) as [->|]; [by rewrite goto_eq|]. rewrite goto_ne by done. destruct (owns (f k)) eqn:Hk; [|done]. by destruct (H1 k i Hk E1). }
    split_and!; [|intros j k; by rewrite Ef|intros k; by rewrite Ef]. rewrite E3. split; [|done]. intros [k Hk]. by rewrite Ef in Hk.
Qed.

Lemma move_clear l l' f i q : sl_core (Slstate l f) → own_ok l l' i (f i) q → (q = Cleared → sl_locked l' = 0) →
  ∀ k, goto f i q k = Cleared → sl_locked l' = 0.
Proof using.
  intros Hc Hm Hq k. destruct (decide (k = i)) as [->|Hne]; [by rewrite goto_eq|rewrite goto_ne by done]. intros Hk.
  pose proof (si_clear _ Hc k Hk) as Hz. pose proof (proj1 (si_lk _ Hc k)) as Hlk. pose proof (proj1 (si_lk _ Hc i)) as Hli. simpl in *.
  rewrite Hk in Hlk. specialize (Hlk eq_refl). destruct Hm as [(_&->&_)|[(_&_&Hi&_)|(_&_&?)]]; [done| |done].
  specialize (Hli Hi). congruence.
Qed.

Lemma move_core l l' f i q : sl_core (Slstate l f) → lk_ok l l' i (f i) q → own_ok l l' i (f i) q → ask_ok q → (q = Cleared → sl_locked l' = 0) →
  sl_core (Slstate l' (goto f i q)).
Proof using.
  intros Hc Hl Ho Ha Hq. destruct (move_own _ _ _ _ _ Hc Ho) as (H1&H2&H3). split; simpl; [by eapply move_lk|done..| |by eapply move_clear].
  intros k. destruct (decide (k = i)) as [->|]; [by rewrite goto_eq|rewrite goto_ne by done; apply (si_ask _ Hc)].
Qed.

(** The sleepers are still to be woken if the step neither is the wakeup nor
    clears the lock without going to it. *)
Definition wait_ok (l l' : sleeplock) (p q : point) : Prop :=
  (sl_locked l ≠ 0 → sl_locked l' ≠ 0 ∨ q = Cleared) ∧ (p = Cleared ∨ p = Forgotten → q = Forgotten) ∧ (q = Sleeping → sl_locked l' ≠ 0).
Lemma move_wait l l' f i q : sl_wait (Slstate l f) → wait_ok l l' (f i) q → sl_wait (Slstate l' (goto f i q)).
Proof using.
  intros Hw (H1&H2&H3) k. unfold sl_wait in Hw. simpl in *. destruct (decide (k = i)) as [->|]; [rewrite goto_eq; auto|rewrite goto_ne by done].
  intros Hk. destruct (Hw _ Hk) as [[?|?]%H1|[j Hj]]; [by left|right; exists i; rewrite goto_eq; auto|].
  right. destruct (decide (j = i)) as [->|]; [exists i; rewrite goto_eq; auto|exists j; by rewrite goto_ne].
Qed.

(** [wakeup] changes neither who has the locks nor where the others are. *)
Lemma wake_inv l f : sl_core (Slstate l f) → sl_inv (Slstate l (wake_all f)).
Proof using.
  assert (∀ k, has_lk (wake_all f k) = has_lk (f k)) as E1. { intros k. unfold wake_all. case_decide as E; [by rewrite E|done]. }
  assert (∀ k, owns (wake_all f k) = owns (f k)) as E2. { intros k. unfold wake_all. case_decide as E; [by rewrite E|done]. }
  intros [H1 H2 H3 H4 H5 H6]. simpl in *. split; [split|]; simpl.
  - intros k. by rewrite E1.
  - by setoid_rewrite E2.
  - intros j k. rewrite !E2. apply H3.
  - intros k Hk. rewrite E2 in Hk. unfold wake_all. case_decide as E; [by rewrite E in Hk|auto].
  - intros k. unfold wake_all. by case_decide.
  - intros k. unfold wake_all. case_decide; [done|apply H6].
  - intros k Hk. simpl in Hk. unfold wake_all in Hk. by case_decide.
Qed.

Lemma move_inv l l' f i p q : f i = p → sl_inv (Slstate l f) → lk_ok l l' i p q → own_ok l l' i p q → wait_ok l l' p q → ask_ok q →
  (q = Cleared → sl_locked l' = 0) → sl_inv (Slstate l' (goto f i q)).
Proof using. intros <- [Hc Hw] ?????. split; [by apply move_core with l|by apply move_wait with l]. Qed.

(** One step of process [i], by the cases of [move_inv]. *)
Ltac sl_move Hi Hv :=
  apply (move_inv _ _ _ _ _ _ Hi Hv); clear Hv Hi; unfold lk_ok, own_ok, wait_ok; simpl; try destruct_or?; try destruct_and?; simplify_eq; simpl; intuition (try done).

Lemma sl_step_inv s s' : sl_step s s' → sl_inv s → sl_inv s'.
Proof using.
  intros Hs Hv. pose proof Hv as [[Hlk Ho _ _ Hask Hcl] _].
  destruct Hs as [i l f Hi Hn|i l f Hi Hn|i l f Hi Hn|i l f Hi Hn|i l f Hi|i l f Hi|i l f Hi Hn|i l f Hi|i l f Hi|i l f Hi|i l f Hi|i l f p Hi Hp Hn|i l f p Hi|i l f p r Hi];
    pose proof (Hask i) as Ha; pose proof (Hcl i) as Hz; simpl in *; rewrite Hi in Ha, Hz; simpl in Ha; clear Hask Hcl Hlk;
    try (clear Ho; sl_move Hi Hv; fail).
  - apply wake_inv, (move_core l); [apply Hv|rewrite Hi; unfold lk_ok; simpl; auto|rewrite Hi; unfold own_ok; simpl; auto 10|done..].
  - assert (owns (Asking p) = true → sl_locked l ≠ 0) as Hr. { rewrite <-Hi. intros ?. apply Ho. eauto. } clear Ho. sl_move Hi Hv.
Qed.

(** The states that any number of steps of the processes reach. *)
Definition sl_reach (s : slstate) : Prop := ∃ f, (∀ i, f i = Outside) ∧ rtc sl_step (Slstate initsleeplock f) s.

Lemma reach_inv s : sl_reach s → sl_inv s.
Proof using.
  intros (f&Hf&Hs). pose proof (sl_init f Hf) as Hv. revert Hv. induction Hs as [|s s1 s2 H1 _ IH]; [done|]. eauto using sl_step_inv.
Qed.

(** The process that has [lk] can go on. *)
Lemma lk_moves l f i : has_lk (f i) = true → ∃ s', sl_step (Slstate l f) s' ∧ ss_at s' i ≠ f i.
Proof using.
  intros Hi. destruct (f i) eqn:E; try done.
  1: destruct (decide (sl_locked l = 0)); eexists; (split; [by eauto using as_sleep, as_take|]).
  3-10: eexists; (split; [by eauto using as_record, as_leave, rs_clear, rs_forget, rs_wake, rs_leave, hs_read, hs_leave|]).
  all: simpl; unfold wake_all; rewrite ?goto_eq; try done. clear. revert r. induction p; intros ? [=]; naive_solver.
Qed.

(** The holder is the process [lk->pid] names, from where [acquiresleep]
    records it. *)
Definition exclusive (s : slstate) : Prop :=
  ∀ i, owns (ss_at s i) = true → (∀ j, owns (ss_at s j) = true → j = i) ∧ sl_locked (ss_lock s) ≠ 0 ∧ (ss_at s i = Taking ∨ sl_pid (ss_lock s) = pid_of i).
(** A process that waits in [acquiresleep] does not wait for ever on a lock
    that is free: someone holds the lock, or a process inside a call can go on. *)
Definition no_lost_wakeup (s : slstate) : Prop :=
  ∀ i, ss_at s i ≠ Outside → (∃ j, ss_at s j = Holding) ∨ ∃ s' j, sl_step s s' ∧ ss_at s j ≠ Outside ∧ ss_at s' j ≠ ss_at s j.
(** What [holdingsleep] tells the holder. *)
Definition told (s : slstate) : Prop := ∀ i r, ss_at s i = Answered Holding r → r ≠ 0.

Lemma inv_progress s : sl_inv s → no_lost_wakeup s.
Proof using.
  intros [Hc Hw] i Hi. destruct s as [l f]. pose proof (si_lk _ Hc) as Hlk. pose proof (si_owner _ Hc) as Ho. unfold sl_wait in Hw. simpl in *.
  destruct (sl_lk l) as [j|] eqn:El.
  { assert (has_lk (f j) = true) as Hj by by apply Hlk. destruct (lk_moves l f j Hj) as (s'&?&?). right. exists s', j. split_and!; [done| |done]. by destruct (f j). }
  assert (∀ k, has_lk (f k) = false) as Hn. { intros k. specialize (Hlk k). destruct (has_lk (f k)); [|done]. by discriminate (proj1 Hlk eq_refl). }
  assert (∀ k, owns (f k) = true → f k = Holding) as Hown. { intros k. specialize (Hn k). by destruct (f k) as [| | | | | | | | | | |[]|[]]. }
  destruct (f i) eqn:Ei; try (specialize (Hn i); by rewrite Ei in Hn); [| |left; eauto].
  - left. destruct (Hw _ Ei) as [[k Hk]%Ho|(k&Hk)]; [eauto|]. specialize (Hn k). destruct Hk as [Hk|Hk]; by rewrite Hk in Hn.
  - right. eexists _, i. split; [by apply (as_resume i)|]. simpl. rewrite goto_eq, Ei. done.
Qed.

(** C32: However many processes use a sleep lock, in whatever order their
    steps interleave: at most one holds it, the lock is then marked and names
    that process; [holdingsleep] tells the holder that the lock is held; and
    whenever a process is inside a call, either some process holds the lock or
    a process inside a call can take a step: no process sleeps on a free lock. *)
Theorem sleeplock_safe s : sl_reach s → exclusive s ∧ told s ∧ no_lost_wakeup s.
Proof using.
  intros Hv%reach_inv. pose proof Hv as [Hc _]. split_and!; [| |by apply inv_progress].
  - intros i Hi. split_and!; [intros j Hj; by apply (si_one _ Hc)|apply (si_owner _ Hc); eauto|by apply (si_pid _ Hc)].
  - intros i r Hi. pose proof (si_ask _ Hc i) as Ha. rewrite Hi in Ha. by destruct Ha as [?|[_ ?]].
Qed.
End steps.

Module SleepExamples.
(** Process 1 holds the lock and process 2 sleeps. *)
Definition start : nat → point := λ _, Outside.
Definition contended : slstate :=
  Slstate (Sleeplock 1 None 11)
    (goto (goto (goto (goto (goto (goto start 1 Testing) 1 Taking) 1 Recorded) 1 Holding) 2 Testing) 2 Sleeping).

Lemma contended_reach : sl_reach (λ i, Z.of_nat i + 10) contended.
Proof.
  exists start. split; [done|].
  eapply rtc_l; [by apply (as_enter _ 1)|]. eapply rtc_l; [by apply (as_take _ 1)|]. eapply rtc_l; [by apply (as_record _ 1)|].
  eapply rtc_l; [by apply (as_leave _ 1)|]. eapply rtc_l; [by apply (as_enter _ 2)|]. eapply rtc_l; [by apply (as_sleep _ 2)|]. reflexivity.
Qed.

Lemma sleeplock_safe_witness : exclusive (λ i, Z.of_nat i + 10) contended ∧ ss_at contended 2 = Sleeping.
Proof. split; [apply (sleeplock_safe _ contended contended_reach)|reflexivity]. Defined.
End SleepExamples.
