(* ===== verification/Segments.v ===== *)
(** Segments and gates: the descriptors of [src/mmu.h], [seginit] and the task
    state of [switchuvm] in [src/vm.c], [tvinit] and [idtinit] of [src/trap.c],
    and the instructions of [src/x86.h] that load them.

    The tables are bytes in memory, where the processor reads them when a trap
    occurs; [trap_entry] is what its manual says it does then.
    [traps_enter_kernel]: a trap of a user program enters the kernel at its
    vector, with the kernel's segments, on the kernel stack of the process; of
    the software interrupts a program can raise only the system call; and it
    can use no port. *)

From S2P Require Import Prelude Memory Machine Proc Trap.
From stdpp Require Import options.
Import Proc.

(** ** Descriptors *)

Definition SEG_TSS := 5.
Definition NSEGS := 6.
Definition STA_X := 0x8.
Definition STA_W := 0x2.
Definition STA_R := 0x2.
Definition STS_T32A := 0x9.
Definition STS_IG32 := 0xE.
Definition STS_TG32 := 0xF.

Record segdesc := Segdesc {
  sd_lim_15_0 : Z; sd_base_15_0 : Z; sd_base_23_16 : Z; sd_type : Z; sd_s : Z; sd_dpl : Z; sd_p : Z;
  sd_lim_19_16 : Z; sd_avl : Z; sd_rsv1 : Z; sd_db : Z; sd_g : Z; sd_base_31_24 : Z }.
#[global] Instance eta_segdesc : Eta segdesc := λ d, Segdesc (sd_lim_15_0 d) (sd_base_15_0 d) (sd_base_23_16 d) (sd_type d) (sd_s d) (sd_dpl d) (sd_p d)
  (sd_lim_19_16 d) (sd_avl d) (sd_rsv1 d) (sd_db d) (sd_g d) (sd_base_31_24 d).

Definition SEG (type base lim dpl : Z) : segdesc :=
  Segdesc (Z.land (Z.shiftr lim 12) 0xffff) (Z.land base 0xffff) (Z.land (Z.shiftr base 16) 0xff) type 1 dpl 1
    (Z.shiftr lim 28) 0 0 1 1 (Z.shiftr base 24).
Definition SEG16 (type base lim dpl : Z) : segdesc :=
  Segdesc (Z.land lim 0xffff) (Z.land base 0xffff) (Z.land (Z.shiftr base 16) 0xff) type 1 dpl 1
    (Z.shiftr lim 16) 0 0 1 0 (Z.shiftr base 24).

Record gatedesc := Gatedesc {
  gd_off_15_0 : Z; gd_cs : Z; gd_args : Z; gd_rsv1 : Z; gd_type : Z; gd_s : Z; gd_dpl : Z; gd_p : Z; gd_off_31_16 : Z }.
Definition SETGATE (istrap : bool) (sel off d : Z) : gatedesc :=
  Gatedesc (Z.land off 0xffff) sel 0 0 (if istrap then STS_TG32 else STS_IG32) 0 d 1 (Z.shiftr off 16).

(** Bit fields, the first in the low bits of a word: (width, value). *)
Definition pack : list (Z * Z) → Z := foldr (λ '(w, v) r, v mod 2 ^ w + 2 ^ w * r) 0.
Definition seg_words (d : segdesc) : Z * Z :=
  (pack [(16, sd_lim_15_0 d); (16, sd_base_15_0 d)],
   pack [(8, sd_base_23_16 d); (4, sd_type d); (1, sd_s d); (2, sd_dpl d); (1, sd_p d); (4, sd_lim_19_16 d); (1, sd_avl d); (1, sd_rsv1 d); (1, sd_db d); (1, sd_g d); (8, sd_base_31_24 d)]).
Definition gate_words (d : gatedesc) : Z * Z :=
  (pack [(16, gd_off_15_0 d); (16, gd_cs d)],
   pack [(5, gd_args d); (3, gd_rsv1 d); (4, gd_type d); (1, gd_s d); (2, gd_dpl d); (1, gd_p d); (16, gd_off_31_16 d)]).
Definition store64 (m : memory) (a : Z) (w : Z * Z) : memory := store32 (store32 m a w.1) (a + 4) w.2.
Definition store16 (m : memory) (a v : Z) : memory := store8 (store8 m a v) (a + 1) (Z.shiftr v 8).

(** ** The tables *)

(** The registers of a processor that hold the places of its tables. *)
Record sregs := Sregs { s_gdtr : Z * Z; s_idtr : Z * Z; s_tr : Z }.
#[global] Instance eta_sregs : Eta sregs := λ r, Sregs (s_gdtr r) (s_idtr r) (s_tr r).
Definition sstate : Type := memory * sregs.

(** [lgdt] and [lidt] give the processor three half words, from which it takes
    the address and the limit. *)
Definition dtr_words (p size : Z) : Z * Z * Z := (u16 (size - 1), u16 p, u16 (Z.shiftr p 16)).
Definition load_dtr (pd : Z * Z * Z) : Z * Z := (pd.1.2 + 2 ^ 16 * pd.2, pd.1.1).
Definition lgdt (p size : Z) (s : sstate) : sstate := (s.1, s.2 <| s_gdtr := load_dtr (dtr_words p size) |>).
Definition lidt (p size : Z) (s : sstate) : sstate := (s.1, s.2 <| s_idtr := load_dtr (dtr_words p size) |>).
Definition ltr (sel : Z) (s : sstate) : sstate := (s.1, s.2 <| s_tr := sel |>).
Definition onmem (f : memory → memory) (s : sstate) : sstate := (f s.1, s.2).

(** [struct cpu], in which [ts] and [gdt] lie, and [struct taskstate]. *)
Definition c_ts (c : Z) : Z := c + 8.
Definition c_gdt (c : Z) : Z := c + 112.
Definition sizeof_cpu := 176.
Definition sizeof_ts := 104.
Definition ts_esp0 (ts : Z) : Z := ts + 4.
Definition ts_ss0 (ts : Z) : Z := ts + 8.
Definition ts_iomb (ts : Z) : Z := ts + 102.

(** [seginit], on the processor whose [struct cpu] is at [c] *)
Definition set_gdt (c i : Z) (d : segdesc) (m : memory) : memory := store64 m (c_gdt c + 8 * i) (seg_words d).
Definition seginit (c : Z) (s : sstate) : sstate :=
  let s := onmem (set_gdt c SEG_KCODE (SEG (Z.lor STA_X STA_R) 0 0xffffffff 0)) s in
  let s := onmem (set_gdt c SEG_KDATA (SEG STA_W 0 0xffffffff 0)) s in
  let s := onmem (set_gdt c SEG_UCODE (SEG (Z.lor STA_X STA_R) 0 0xffffffff DPL_USER)) s in
  let s := onmem (set_gdt c SEG_UDATA (SEG STA_W 0 0xffffffff DPL_USER)) s in
  lgdt (c_gdt c) (8 * NSEGS) s.

(** [tvinit]: [idt] is the address of the table, [vectors] the addresses of
    the trap handlers of vectors.S. *)
Definition set_gate (idt i : Z) (d : gatedesc) (m : memory) : memory := store64 m (idt + 8 * i) (gate_words d).
Definition tvinit (idt : Z) (vectors : Z → Z) (m : memory) : memory :=
  let m := foldl (λ m i, set_gate idt i (SETGATE false (Z.shiftl SEG_KCODE 3) (vectors i) 0) m) m (seqZ 0 256) in
  set_gate idt T_SYSCALL (SETGATE true (Z.shiftl SEG_KCODE 3) (vectors T_SYSCALL) DPL_USER) m.
Definition idtinit (idt : Z) (s : sstate) : sstate := lidt idt (8 * 256) s.

(** The part of [switchuvm] that sets the task state. *)
Definition switch_ts (c kstack : Z) (s : sstate) : sstate :=
  let s := onmem (set_gdt c SEG_TSS ((SEG16 STS_T32A (c_ts c) (sizeof_ts - 1) 0) <| sd_s := 0 |>)) s in
  let s := onmem (λ m, store16 m (ts_ss0 (c_ts c)) (Z.shiftl SEG_KDATA 3)) s in
  let s := onmem (λ m, store32 m (ts_esp0 (c_ts c)) (u32 (kstack + KSTACKSIZE))) s in
  let s := onmem (λ m, store16 m (ts_iomb (c_ts c)) 0xFFFF) s in
  ltr (Z.shiftl SEG_TSS 3) s.

(** ** What the processor does with them *)

Definition bits (w k n : Z) : Z := (w / 2 ^ k) mod 2 ^ n.

(** Descriptor [i] of a table. *)
Definition desc_at (m : memory) (dtr : Z * Z) (i : Z) : option (Z * Z) :=
  if 8 * i + 7 <=? dtr.2 then Some (load32 m (dtr.1 + 8 * i), load32 m (dtr.1 + 8 * i + 4)) else None.

Definition d_base (d : Z * Z) : Z := bits d.1 16 16 + 2 ^ 16 * bits d.2 0 8 + 2 ^ 24 * bits d.2 24 8.
Definition d_limit (d : Z * Z) : Z :=
  let l := bits d.1 0 16 + 2 ^ 16 * bits d.2 16 4 in if bits d.2 23 1 =? 1 then 4096 * l + 4095 else l.
Definition d_type (d : Z * Z) : Z := bits d.2 8 4.
Definition d_s (d : Z * Z) : Z := bits d.2 12 1.
Definition d_dpl (d : Z * Z) : Z := bits d.2 13 2.
Definition d_p (d : Z * Z) : Z := bits d.2 15 1.
Definition g_sel (d : Z * Z) : Z := bits d.1 16 16.
Definition g_off (d : Z * Z) : Z := bits d.1 0 16 + 2 ^ 16 * bits d.2 16 16.

(** A segment selector of the global table other than the null one. *)
Definition sel_index (sel : Z) : option Z := if (bits sel 2 1 =? 0) && negb (sel / 8 =? 0) then Some (sel / 8) else None.
Definition seg_of (m : memory) (r : sregs) (sel : Z) : option (Z * Z) :=
  i ← sel_index sel; d ← desc_at m (s_gdtr r) i; if d_p d =? 1 then Some d else None.

(** The task state segment, and its stack for privilege level [l]. *)
Definition tss_of (m : memory) (r : sregs) : option (Z * Z) :=
  d ← seg_of m r (s_tr r); if (d_s d =? 0) && (d_type d =? STS_T32A) then Some d else None.
Definition tss_stack (m : memory) (r : sregs) (l : Z) : option (Z * Z) :=
  d ← tss_of m r;
  if d_limit d <? 8 * l + 9 then None else
  let ss := load16 m (d_base d + 8 * l + 8) in
  sd ← seg_of m r ss;
  if (d_s sd =? 1) && (bits (d_type sd) 3 1 =? 0) && (bits (d_type sd) 1 1 =? 1) && (d_dpl sd =? l) && (bits ss 0 2 =? l)
  then Some (ss, load32 m (d_base d + 8 * l + 4)) else None.

(** The code segment, the instruction and, if the privilege changes, the stack
    at which trap [n] at privilege level [cpl] enters the kernel, and whether
    interrupts stay enabled; [None] if the trap is refused.  [soft] is whether
    the trap is raised by the instruction [int]. *)
Record entry := Entry { e_cs : Z; e_eip : Z; e_stack : option (Z * Z); e_if : bool }.
Definition trap_entry (m : memory) (r : sregs) (cpl : Z) (soft : bool) (n : Z) : option entry :=
  g ← desc_at m (s_idtr r) n;
  if negb ((d_s g =? 0) && ((d_type g =? STS_IG32) || (d_type g =? STS_TG32))) then None else
  if soft && (d_dpl g <? cpl) then None else
  if negb (d_p g =? 1) then None else
  cd ← seg_of m r (g_sel g);
  if negb ((d_s cd =? 1) && (bits (d_type cd) 3 1 =? 1) && (bits (d_type cd) 2 1 =? 0) && (d_dpl cd <=? cpl) && (g_off g <=? d_limit cd)) then None else
  let l := d_dpl cd in
  stk ← (if l =? cpl then Some None else s ← tss_stack m r l; Some (Some s));
  Some (Entry (g_sel g / 8 * 8 + l) (g_off g) stk (d_type g =? STS_TG32)).

(** May a program at privilege level 3, with I/O privilege level 0, use the
    port?  The bit map is in the task state segment. *)
Definition port_allowed (m : memory) (r : sregs) (port : Z) : bool :=
  match tss_of m r with
  | None => false
  | Some d =>
      let a := load16 m (d_base d + 102) + port / 8 in
      if d_limit d <? a + 1 then false else bits (load16 m (d_base d + a)) (port mod 8) 1 =? 0
  end.

(** ** Fields and words *)

Lemma bits_take w v r : 0 ≤ w → bits (v mod 2 ^ w + 2 ^ w * r) 0 w = v mod 2 ^ w.
Proof.
  intros. unfold bits. by rewrite Z.pow_0_r, Z.div_1_r, (Z.mul_comm (2 ^ w)), Z_mod_plus_full, Zmod_mod.
Qed.
Lemma bits_skip w v r k n : 0 ≤ w ≤ k → bits (v mod 2 ^ w + 2 ^ w * r) k n = bits r (k - w) n.
Proof.
  intros. unfold bits. replace (2 ^ k) with (2 ^ w * 2 ^ (k - w)) by (rewrite <-Z.pow_add_r by lia; f_equal; lia).
  pose proof (Z.mod_pos_bound v (2 ^ w)). rewrite <-Z.div_div, (Z.mul_comm (2 ^ w) r), Z.div_add, (Z.div_small (v mod 2 ^ w)) by lia. done.
Qed.
Definition width (l : list (Z * Z)) : Z := foldr (λ p n, p.1 + n) 0 l.
Lemma width_nonneg l : Forall (λ p, 0 ≤ p.1) l → 0 ≤ width l.
Proof. induction 1; simpl; lia. Qed.
Lemma pack_range l : Forall (λ p, 0 ≤ p.1) l → 0 ≤ pack l < 2 ^ width l.
Proof.
  induction 1 as [|[w v] l Hw Hl IH]; [done|]. cbn [pack foldr width fst] in *. fold (pack l) (width l) in *. apply width_nonneg in Hl.
  rewrite Z.pow_add_r by lia. pose proof (Z.mod_pos_bound v (2 ^ w)). nia.
Qed.

(** Takes the field of a word of bit fields. *)
Ltac field := unfold pack; simpl foldr; repeat (rewrite bits_skip by lia; match goal with |- context [bits _ (?a - ?b) _] => let x := eval compute in (a - b) in change (a - b) with x end); rewrite bits_take by lia.

Definition holds64 (m : memory) (a : Z) (w : Z * Z) : Prop := load32 m a = w.1 ∧ load32 m (a + 4) = w.2.
Definition word64 (w : Z * Z) : Prop := 0 ≤ w.1 < 2 ^ 32 ∧ 0 ≤ w.2 < 2 ^ 32.
Lemma seg_word64 d : word64 (seg_words d).
Proof. split; apply pack_range; repeat constructor; simpl; lia. Qed.
Lemma gate_word64 d : word64 (gate_words d).
Proof. split; apply pack_range; repeat constructor; simpl; lia. Qed.

Lemma store64_eq m a w : word64 w → holds64 (store64 m a w) a w.
Proof.
  intros [H1 H2]. unfold holds64, store64. rewrite load32_store32_ne, !load32_store32_eq, !u32_id by lia. done.
Qed.
Lemma load8_store64_out m a w b : b < a ∨ a + 8 ≤ b → load8 (store64 m a w) b = load8 m b.
Proof. intros. unfold store64. rewrite !load8_store32_out by lia. done. Qed.
Lemma load8_store16_out m a v b : b < a ∨ a + 2 ≤ b → load8 (store16 m a v) b = load8 m b.
Proof. intros. unfold store16. rewrite !load8_store8_ne by lia. done. Qed.
Lemma load16_store16 m a v : load16 (store16 m a v) a = u16 v.
Proof.
  unfold load16, store16. rewrite load8_store8_ne, !load8_store8_eq, Z.shiftr_div_pow2 by lia. unfold u8, u16.
  pose proof (Z.div_mod v (2 ^ 8)). pose proof (Z.mod_pos_bound v (2 ^ 8)). Z.div_mod_to_equations. lia.
Qed.
(** A part of memory that a store leaves alone. *)
Definition same_at (m m' : memory) (a n : Z) : Prop := ∀ b, a ≤ b < a + n → load8 m' b = load8 m b.
Lemma same_load32 m m' a n b : same_at m m' a n → a ≤ b → b + 4 ≤ a + n → load32 m' b = load32 m b.
Proof. intros H ??. apply load32_ext. intros i ?. apply H. lia. Qed.
Lemma same_load16 m m' a n b : same_at m m' a n → a ≤ b → b + 2 ≤ a + n → load16 m' b = load16 m b.
Proof. intros H ??. unfold load16. by rewrite !H by lia. Qed.
Lemma same_holds m m' a n b w : same_at m m' a n → a ≤ b → b + 8 ≤ a + n → holds64 m b w → holds64 m' b w.
Proof. intros H ?? [H1 H2]. split; [rewrite <-H1|rewrite <-H2]; eapply same_load32; try done; lia. Qed.

(** ** The tables in memory *)

Definition gate_for (vectors : Z → Z) (i : Z) : gatedesc :=
  if i =? T_SYSCALL then SETGATE true (Z.shiftl SEG_KCODE 3) (vectors i) DPL_USER else SETGATE false (Z.shiftl SEG_KCODE 3) (vectors i) 0.

Lemma gates_fold idt (f : Z → gatedesc) l m i :
  i ∈ l ∨ holds64 m (idt + 8 * i) (gate_words (f i)) → holds64 (foldl (λ m i, set_gate idt i (f i) m) m l) (idt + 8 * i) (gate_words (f i)).
Proof.
  revert m. induction l as [|j l IH]; intros m H; simpl; [destruct H as [?%elem_of_nil|?]; done|].
  apply IH. destruct (decide (i = j)) as [->|Hne]; [right; apply store64_eq, gate_word64|].
  destruct H as [[?|?]%elem_of_cons|H]; [done|by left|right]. refine (same_holds m _ (idt + 8 * i) 8 _ _ _ _ _ H); [|lia..].
  intros b ?. apply load8_store64_out. lia.
Qed.
Lemma gates_out idt (f : Z → gatedesc) l m b :
  Forall (λ i, 0 ≤ i < 256) l → b < idt ∨ idt + 2048 ≤ b → load8 (foldl (λ m i, set_gate idt i (f i) m) m l) b = load8 m b.
Proof.
  intros Hl Hb. revert m. induction Hl as [|j l Hj _ IH]; intros m; [done|]. simpl. rewrite IH. apply load8_store64_out. lia.
Qed.

Lemma tvinit_gates idt vectors m i : 0 ≤ i < 256 → holds64 (tvinit idt vectors m) (idt + 8 * i) (gate_words (gate_for vectors i)).
Proof.
  intros Hi. unfold tvinit, gate_for. destruct (Z.eqb_spec i T_SYSCALL) as [->|Hne]; [apply store64_eq, gate_word64|].
  eapply (same_holds _ _ (idt + 8 * i) 8); [|lia..|].
  { intros b ?. apply load8_store64_out. lia. }
  apply (gates_fold idt (λ i, SETGATE false (Z.shiftl SEG_KCODE 3) (vectors i) 0)). left. apply elem_of_seqZ. lia.
Qed.
Lemma tvinit_out idt vectors m b : b < idt ∨ idt + 2048 ≤ b → load8 (tvinit idt vectors m) b = load8 m b.
Proof.
  intros Hb. unfold tvinit, set_gate at 1. rewrite load8_store64_out by (unfold T_SYSCALL; lia).
  apply (gates_out idt (λ i, SETGATE false (Z.shiftl SEG_KCODE 3) (vectors i) 0)); [|done]. apply Forall_forall. intros i ?%elem_of_seqZ. lia.
Qed.

Lemma dtr_ok p size : 0 ≤ p < 2 ^ 32 → 0 < size ≤ 2 ^ 16 → load_dtr (dtr_words p size) = (p, size - 1).
Proof.
  intros. unfold load_dtr, dtr_words, u16. simpl. rewrite Z.shiftr_div_pow2 by lia. f_equal; [|rewrite Z.mod_small; lia].
  rewrite (Z.mod_small (p / 2 ^ 16)) by (split; [apply Z.div_pos; lia|apply Z.div_lt_upper_bound; lia]). pose proof (Z.div_mod p (2 ^ 16)). lia.
Qed.

Lemma base_parts v : v = v mod 2 ^ 16 + 2 ^ 16 * ((v / 2 ^ 16) mod 2 ^ 8) + 2 ^ 24 * (v / 2 ^ 24).
Proof. change (2 ^ 24) with (2 ^ 16 * 2 ^ 8). rewrite <-Z.div_div by lia. pose proof (Z.div_mod v (2 ^ 16)). pose proof (Z.div_mod (v / 2 ^ 16) (2 ^ 8)). lia. Qed.

Section tables.
(** The processor's [struct cpu], the interrupt table and the handlers. *)
Context (c idt : Z) (vectors : Z → Z).

Record placed : Prop := {
  pl_c : 0 ≤ c ∧ c + sizeof_cpu ≤ 2 ^ 32;
  pl_idt : 0 ≤ idt ∧ idt + 2048 ≤ 2 ^ 32;
  pl_apart : c + sizeof_cpu ≤ idt ∨ idt + 2048 ≤ c;
  pl_vectors i : 0 ≤ i < 256 → 0 ≤ vectors i < 2 ^ 32;
}.

(** What a processor finds when the kernel has set up its tables. *)
Record tables (s : sstate) : Prop := {
  t_gdtr : s_gdtr s.2 = (c_gdt c, 47);
  t_idtr : s_idtr s.2 = (idt, 2047);
  t_kcode : holds64 s.1 (c_gdt c + 8) (seg_words (SEG 10 0 0xffffffff 0));
  t_kdata : holds64 s.1 (c_gdt c + 16) (seg_words (SEG 2 0 0xffffffff 0));
  t_ucode : holds64 s.1 (c_gdt c + 24) (seg_words (SEG 10 0 0xffffffff 3));
  t_udata : holds64 s.1 (c_gdt c + 32) (seg_words (SEG 2 0 0xffffffff 3));
  t_gates i : 0 ≤ i < 256 → holds64 s.1 (idt + 8 * i) (gate_words (gate_for vectors i));
}.
(** And when it has switched to a process. *)
Record task (kstack : Z) (s : sstate) : Prop := {
  t_tr : s_tr s.2 = 40;
  t_tss : holds64 s.1 (c_gdt c + 40) (seg_words ((SEG16 STS_T32A (c_ts c) 103 0) <| sd_s := 0 |>));
  t_ss0 : load16 s.1 (c_ts c + 8) = 16;
  t_esp0 : load32 s.1 (c_ts c + 4) = u32 (kstack + KSTACKSIZE);
  t_iomb : load16 s.1 (c_ts c + 102) = 0xFFFF;
}.

Lemma set_gdt_eq m i d : holds64 (set_gdt c i d m) (c_gdt c + 8 * i) (seg_words d).
Proof using. apply store64_eq, seg_word64. Qed.
Lemma set_gdt_ne m i d j w : i ≠ j → holds64 m (c_gdt c + 8 * j) w → holds64 (set_gdt c i d m) (c_gdt c + 8 * j) w.
Proof using.
  intros ?. apply (same_holds _ _ (c_gdt c + 8 * j) 8); [|lia..]. intros b ?. apply load8_store64_out. lia.
Qed.
Lemma set_gdt_out m i d b : 0 ≤ i < NSEGS → b < c ∨ c + sizeof_cpu ≤ b → load8 (set_gdt c i d m) b = load8 m b.
Proof using. unfold NSEGS, sizeof_cpu. intros. apply load8_store64_out. unfold c_gdt. lia. Qed.

Lemma setup_tables s : placed → tables (idtinit idt (onmem (tvinit idt vectors) (seginit c s))).
Proof using.
  intros [Hc Hi Ha _]. unfold sizeof_cpu in *. set (m := (seginit c s).1).
  assert (∀ j w, 1 ≤ j < NSEGS → holds64 m (c_gdt c + 8 * j) w → holds64 (tvinit idt vectors m) (c_gdt c + 8 * j) w) as Hm.
  { intros j w Hj. unfold NSEGS, c_gdt in *. apply (same_holds _ _ (c + 112 + 8 * j) 8); [|lia..]. intros b ?. apply tvinit_out. lia. }
  split; simpl.
  - unfold idtinit, lidt, onmem, seginit, lgdt. unfold upd; simpl. rewrite dtr_ok; [done|unfold c_gdt; lia|done].
  - unfold upd; simpl. rewrite dtr_ok; [done|lia|done].
  - apply (Hm 1); [done|]. do 3 (apply set_gdt_ne; [done|]). apply set_gdt_eq.
  - apply (Hm 2); [done|]. do 2 (apply set_gdt_ne; [done|]). apply set_gdt_eq.
  - apply (Hm 3); [done|]. apply set_gdt_ne; [done|]. apply set_gdt_eq.
  - apply (Hm 4); [done|]. apply set_gdt_eq.
  - intros i ?. by apply tvinit_gates.
Qed.

(** [switch_ts] writes the task state and its descriptor only. *)
Definition ts_writes (k : Z) (m : memory) : memory :=
  store16 (store32 (store16 m (ts_ss0 (c_ts c)) (Z.shiftl SEG_KDATA 3)) (ts_esp0 (c_ts c)) (u32 (k + KSTACKSIZE))) (ts_iomb (c_ts c)) 0xFFFF.
Lemma ts_writes_out k m b : b < c + 8 ∨ c + 112 ≤ b → load8 (ts_writes k m) b = load8 m b.
Proof using.
  intros. unfold ts_writes, ts_ss0, ts_esp0, ts_iomb, c_ts. by rewrite load8_store16_out, load8_store32_out, load8_store16_out by lia.
Qed.
Lemma switch_mem k s : (switch_ts c k s).1 = ts_writes k (set_gdt c SEG_TSS ((SEG16 STS_T32A (c_ts c) 103 0) <| sd_s := 0 |>) s.1).
Proof using. done. Qed.
Lemma switch_holds k s a w : (c_gdt c + 8 ≤ a ∧ a + 8 ≤ c_gdt c + 40) ∨ a + 8 ≤ c ∨ c + sizeof_cpu ≤ a → holds64 s.1 a w → holds64 (switch_ts c k s).1 a w.
Proof using.
  intros Ha. unfold sizeof_cpu, c_gdt in *. apply (same_holds _ _ a 8); [|lia..]. intros b ?. rewrite switch_mem, ts_writes_out by lia.
  apply load8_store64_out. unfold c_gdt, SEG_TSS. lia.
Qed.
Lemma switch_tables k s : placed → tables s → tables (switch_ts c k s).
Proof using.
  intros [Hc Hi Ha _] [G I H1 H2 H3 H4 H5]. split; [done|done|..]; try (apply switch_holds; [unfold c_gdt; lia|done]).
  intros i ?. apply switch_holds; [unfold sizeof_cpu in *; lia|auto].
Qed.
Lemma switch_task k s : task k (switch_ts c k s).
Proof using.
  assert (∀ m b, c + 112 ≤ b → load8 (ts_writes k m) b = load8 m b) as Ho by (intros; apply ts_writes_out; lia).
  split; [done|..]; rewrite switch_mem; try (unfold ts_writes, ts_ss0, ts_esp0, ts_iomb).
  - apply (same_holds (set_gdt c SEG_TSS ((SEG16 STS_T32A (c_ts c) 103 0) <| sd_s := 0 |>) s.1) _ (c_gdt c + 40) 8); [|lia..|apply set_gdt_eq].
    intros b ?. apply Ho. unfold c_gdt in *. lia.
  - etransitivity; [|apply (load16_store16 (set_gdt c SEG_TSS ((SEG16 STS_T32A (c_ts c) 103 0) <| sd_s := 0 |>) s.1) (c_ts c + 8) 16)].
    apply (same_load16 _ _ (c_ts c + 8) 2); [|lia..]. intros b ?. rewrite load8_store16_out by lia. apply load8_store32_out. lia.
  - set (m := store16 _ (c_ts c + 8) _). transitivity (load32 (store32 m (c_ts c + 4) (u32 (k + KSTACKSIZE))) (c_ts c + 4)); [|by rewrite load32_store32_eq, u32_u32].
    apply (same_load32 _ _ (c_ts c + 4) 4); [|lia..]. intros b ?. apply load8_store16_out. lia.
  - by rewrite load16_store16.
Qed.

(** ** Decoding *)

Lemma desc_ok m base limit i w : holds64 m (base + 8 * i) w → 8 * i + 7 ≤ limit → desc_at m (base, limit) i = Some w.
Proof using. intros [H1 H2] ?. unfold desc_at. simpl. rewrite (proj2 (Z.leb_le _ _)), H1, H2 by lia. by destruct w. Qed.

Lemma halves v : 0 ≤ v < 2 ^ 32 → Z.land v 0xffff = v mod 2 ^ 16 ∧ Z.shiftr v 16 = v / 2 ^ 16 ∧ (v / 2 ^ 16) mod 2 ^ 16 = v / 2 ^ 16.
Proof using.
  intros. split_and!; [apply (Z.land_ones v 16); lia|by rewrite Z.shiftr_div_pow2|].
  rewrite Z.mod_small; [done|]. split; [apply Z.div_pos; lia|apply Z.div_lt_upper_bound; lia].
Qed.

Lemma gate_decode istrap sel off d : 0 ≤ off < 2 ^ 32 → 0 ≤ sel < 2 ^ 16 → 0 ≤ d < 4 →
  let g := gate_words (SETGATE istrap sel off d) in
  d_s g = 0 ∧ d_type g = (if istrap then STS_TG32 else STS_IG32) ∧ d_dpl g = d ∧ d_p g = 1 ∧ g_sel g = sel ∧ g_off g = off.
Proof using.
  intros Ho Hs Hd g. destruct (halves off Ho) as (E1&E2&E3). split_and!.
  - unfold d_s, g. simpl snd. by field.
  - unfold d_type, g. simpl snd. field. by destruct istrap.
  - unfold d_dpl, g. simpl snd. field. by rewrite Z.mod_small.
  - unfold d_p, g. simpl snd. by field.
  - unfold g_sel, g. simpl fst. field. by rewrite Z.mod_small.
  - unfold g_off. assert (bits g.1 0 16 = off mod 2 ^ 16) as ->. { unfold g. simpl fst. field. by rewrite E1, Zmod_mod. }
    assert (bits g.2 16 16 = off / 2 ^ 16) as ->. { unfold g. simpl snd. field. by rewrite E2. } pose proof (Z.div_mod off (2 ^ 16)). lia.
Qed.

Lemma tss_decode base : 0 ≤ base < 2 ^ 32 →
  let d := seg_words ((SEG16 STS_T32A base 103 0) <| sd_s := 0 |>) in d_base d = base ∧ d_limit d = 103 ∧ d_type d = STS_T32A ∧ d_s d = 0 ∧ d_p d = 1.
Proof using.
  intros Hb d. split_and!.
  - unfold d_base. assert (bits d.1 16 16 = base mod 2 ^ 16) as ->. { unfold d. simpl fst. field. simpl. change 65535 with (Z.ones 16). rewrite Z.land_ones, Zmod_mod by lia. done. }
    assert (bits d.2 0 8 = (base / 2 ^ 16) mod 2 ^ 8) as ->.
    { unfold d. simpl snd. field. simpl. change 255 with (Z.ones 8). rewrite Z.land_ones, Zmod_mod, Z.shiftr_div_pow2 by lia. done. }
    assert (bits d.2 24 8 = base / 2 ^ 24) as ->.
    { unfold d. simpl snd. field. simpl. rewrite Z.shiftr_div_pow2 by lia. rewrite Z.mod_small; [done|]. split; [apply Z.div_pos; lia|apply Z.div_lt_upper_bound; lia]. }
    clear d. by rewrite <-(base_parts base).
  - unfold d_limit. assert (bits d.1 0 16 = 103) as -> by (unfold d; simpl fst; by field). assert (bits d.2 16 4 = 0) as -> by (unfold d; simpl snd; by field).
    assert (bits d.2 23 1 = 0) as -> by (unfold d; simpl snd; by field). done.
  - unfold d_type, d. simpl snd. by field.
  - unfold d_s, d. simpl snd. by field.
  - unfold d_p, d. simpl snd. by field.
Qed.

Lemma seg_ok m r sel w : s_gdtr r = (c_gdt c, 47) → holds64 m (c_gdt c + 8 * (sel / 8)) w → bits sel 2 1 = 0 → 0 < sel / 8 < NSEGS → d_p w = 1 → seg_of m r sel = Some w.
Proof using.
  unfold NSEGS. intros Hr Hw Hb Hs Hp. unfold seg_of, sel_index. rewrite Hb, Hr. simpl. rewrite (proj2 (Z.eqb_neq _ _)) by lia. simpl.
  rewrite (desc_ok _ _ _ _ w) by (done || lia). simpl. by rewrite Hp.
Qed.

Lemma tss_ok s k : placed → tables s → task k s →
  ∃ d, tss_of s.1 s.2 = Some d ∧ d_base d = c_ts c ∧ d_limit d = 103.
Proof using.
  intros Hp Ht Hk. pose proof (pl_c Hp) as Hc. unfold sizeof_cpu in Hc. destruct (tss_decode (c_ts c)) as (Eb&El&Et&Es&Ep); [unfold c_ts; lia|].
  pose proof (t_tss _ _ Hk) as Hw. set (w := seg_words _) in *. clearbody w. exists w. split; [|done].
  unfold tss_of. rewrite (t_tr _ _ Hk), (seg_ok _ _ 40 w (t_gdtr _ Ht) Hw) by done. simpl. by rewrite Es, Et.
Qed.

Lemma stack_ok s k : placed → tables s → task k s → tss_stack s.1 s.2 0 = Some (16, u32 (k + KSTACKSIZE)).
Proof using.
  intros Hp Ht Hk. destruct (tss_ok s k Hp Ht Hk) as (d&Ed&Eb&El). unfold tss_stack. rewrite Ed. simpl. rewrite El, Eb, Z.add_0_r, (t_ss0 _ _ Hk), (t_esp0 _ _ Hk).
  rewrite (seg_ok _ _ 16 _ (t_gdtr _ Ht) (t_kdata _ Ht)); done.
Qed.

Lemma no_port s k port : placed → tables s → task k s → 0 ≤ port < 2 ^ 16 → port_allowed s.1 s.2 port = false.
Proof using.
  intros Hp Ht Hk Hport. destruct (tss_ok s k Hp Ht Hk) as (d&Ed&Eb&El). unfold port_allowed. rewrite Ed, El, Eb, (t_iomb _ _ Hk).
  pose proof (Z.div_pos port 8). rewrite (proj2 (Z.ltb_lt _ _)) by lia. done.
Qed.

(** The entry for trap [n] from privilege level [cpl]. *)
Definition entry_for (k cpl n : Z) : entry :=
  Entry (8 * SEG_KCODE) (vectors n) (if cpl =? 0 then None else Some (8 * SEG_KDATA, u32 (k + KSTACKSIZE))) (n =? T_SYSCALL).

Lemma entry_ok s k cpl soft n : placed → tables s → task k s → 0 ≤ n < 256 → 0 ≤ cpl ≤ 3 →
  trap_entry s.1 s.2 cpl soft n = if soft && negb (n =? T_SYSCALL) && negb (cpl =? 0) then None else Some (entry_for k cpl n).
Proof using.
  intros Hp Ht Hk Hn Hcpl. unfold trap_entry. rewrite (t_idtr _ Ht), (desc_ok _ _ _ _ _ (t_gates _ Ht n Hn)) by lia. cbn [mbind option_bind].
  set (dpl := if n =? T_SYSCALL then 3 else 0).
  assert (gate_for vectors n = SETGATE (n =? T_SYSCALL) 8 (vectors n) dpl) as -> by (unfold gate_for, dpl; by destruct (n =? T_SYSCALL)).
  destruct (gate_decode (n =? T_SYSCALL) 8 (vectors n) dpl) as (Es&Et&Ed&Ep&El&Eo); [by apply pl_vectors|done|unfold dpl; by destruct (n =? T_SYSCALL)|].
  rewrite Es, Et, Ed, Ep, El, Eo, (seg_ok _ _ 8 _ (t_gdtr _ Ht) (t_kcode _ Ht)) by done.
  assert ((vectors n <=? 4294967295) = true) as Hv by (pose proof (pl_vectors Hp n Hn); apply Z.leb_le; lia).
  set (w := seg_words (SEG 10 0 4294967295 0)).
  assert (d_s w = 1 ∧ d_type w = 10 ∧ d_dpl w = 0 ∧ d_limit w = 4294967295) as (Ws&Wt&Wd&Wl) by done. clearbody w. cbn [mbind option_bind].
  rewrite Ws, Wt, Wd, Wl, Hv, (stack_ok s k Hp Ht Hk), (proj2 (Z.leb_le 0 cpl)) by lia. unfold entry_for, dpl.
  rewrite (Z.eqb_sym 0 cpl). destruct (n =? T_SYSCALL), soft; destruct (Z.eqb_spec cpl 0) as [->|]; try done.
  all: rewrite ?(proj2 (Z.ltb_ge 3 cpl)), ?(proj2 (Z.ltb_lt 0 cpl)) by lia; done.
Qed.

(** The kernel's set-up and the switches to the processes whose kernel stacks
    are at [ks]. *)
Definition setup (ks : list Z) (s : sstate) : sstate :=
  foldl (λ s k, switch_ts c k s) (idtinit idt (onmem (tvinit idt vectors) (seginit c s))) ks.
Lemma setup_ok ks k s : placed → tables (setup (ks ++ [k]) s) ∧ task k (setup (ks ++ [k]) s).
Proof using.
  intros Hp. unfold setup. rewrite foldl_app. split; [|apply switch_task]. apply switch_tables; [done|].
  pose proof (setup_tables s Hp) as Ht. revert Ht. generalize (idtinit idt (onmem (tvinit idt vectors) (seginit c s))).
  induction ks as [|j ks IH]; intros t Ht; [done|]. simpl. apply IH, switch_tables; done.
Qed.

(** C11: When the kernel has set up segments and gates and has switched from
    process to process, the last with its kernel stack at [k], whatever was in
    memory before: a trap [n] of user code, or an interrupt during it, enters
    the kernel at vector [n] with the kernel's segments, at the top of that
    stack, and with interrupts disabled but for system calls; a trap in the
    kernel stays on its stack; user code can raise no trap but the system call
    by an [int] instruction, and can use no port. *)
Theorem traps_enter_kernel ks k s n : placed → 0 ≤ n < 256 → let s' := setup (ks ++ [k]) s in
  trap_entry s'.1 s'.2 3 false n = Some (Entry 8 (vectors n) (Some (16, u32 (k + KSTACKSIZE))) (n =? T_SYSCALL)) ∧
  trap_entry s'.1 s'.2 0 false n = Some (Entry 8 (vectors n) None (n =? T_SYSCALL)) ∧
  trap_entry s'.1 s'.2 3 true n = (if n =? T_SYSCALL then Some (Entry 8 (vectors n) (Some (16, u32 (k + KSTACKSIZE))) true) else None) ∧
  ∀ port, 0 ≤ port < 2 ^ 16 → port_allowed s'.1 s'.2 port = false.
Proof using.
  intros Hp Hn s'. destruct (setup_ok ks k s Hp) as [Ht Hk]. fold s' in Ht, Hk.
  split_and!; [by rewrite (entry_ok s' k)|by rewrite (entry_ok s' k)| |intros; by apply (no_port s' k)].
  rewrite (entry_ok s' k) by done. unfold entry_for. by destruct (n =? T_SYSCALL).
Qed.
End tables.

Module SegmentExamples.
(** Two switches, and the timer. *)
Definition ex_vectors (i : Z) : Z := 0x80106000 + 9 * i.
Lemma ex_placed : placed 0x80112780 0x80115000 ex_vectors.
Proof. split; unfold sizeof_cpu, ex_vectors; lia. Qed.

Lemma traps_enter_kernel_witness :
  let s' := setup 0x80112780 0x80115000 ex_vectors ([0x8dff0000] ++ [0x8dfee000]) (∅, Sregs (0, 0) (0, 0) 0) in
  trap_entry s'.1 s'.2 3 false 32 = Some (Entry 8 0x80106120 (Some (16, 0x8dfef000)) false).
Proof.
  intros s'. destruct (traps_enter_kernel 0x80112780 0x80115000 ex_vectors [0x8dff0000] 0x8dfee000 (∅, Sregs (0, 0) (0, 0) 0) 32 ex_placed) as [H _]; [done|].
  etransitivity; [exact H|reflexivity].
Defined.
End SegmentExamples.
