(* ===== verification/Consdev.v ===== *)
(** The console as a device, [src/console.c]: characters go to the serial port
    ([Uart]) and to the screen ([Console]).

    [consolewrite_prints]: a write to the console returns its length, and all
    bytes are sent over the serial port and appear on the screen.
    [panic_freezes]: a panic prints its message, even while the console is
    locked, and then no processor can print. *)

From S2P Require Import Prelude Machine Trap Console Ata Uart.
From stdpp Require Import options.

Record consdev := Consdev { cd_lock : bool; cd_locking : bool; cd_panicked : bool; cd_uart : bool; cd_cga : cga }.
#[global] Instance eta_consdev : Eta consdev := λ d, Consdev (cd_lock d) (cd_locking d) (cd_panicked d) (cd_uart d) (cd_cga d).

Section console.
Context {D : Type} `{!Ports D}.
Abbreviation P A := (M (hw consdev D) A).

(** The serial driver's part of the state, and the screen's. *)
Definition on_uart {A} (m : M (hw bool D) A) : P A := λ h,
  match m (Hw (cd_uart (hw_x h)) (hw_dev h)) with
  | Ok a h' => Ok a (Hw ((hw_x h) <| cd_uart := hw_x h' |>) (hw_dev h'))
  | Panic msg => Panic msg | Blocked c h' => Blocked c (Hw ((hw_x h) <| cd_uart := hw_x h' |>) (hw_dev h'))
  | Spins => Spins | UB w => UB w | Fuel => Fuel
  end.
Definition on_cga {A} (m : M cga A) : P A := λ h,
  match m (cd_cga (hw_x h)) with
  | Ok a g => Ok a (Hw ((hw_x h) <| cd_cga := g |>) (hw_dev h))
  | Panic msg => Panic msg | Blocked c g => Blocked c (Hw ((hw_x h) <| cd_cga := g |>) (hw_dev h))
  | Spins => Spins | UB w => UB w | Fuel => Fuel
  end.

Definition consputc (c : Z) : P unit :=
  p <- onx (gets cd_panicked) ;;
  if p then spin else
  (if c =? BACKSPACE then on_uart (uartputc 8) ;; on_uart (uartputc 32) ;; on_uart (uartputc 8)
   else on_uart (uartputc c)) ;;
  on_cga (cgaputc c).
Fixpoint consputs (l : list Z) : P unit := match l with [] => skip | c :: l => consputc c ;; consputs l end.

(** [str_at] is the string at an address. *)
Definition cprintf (str_at : Z → list Z) (fmt args : list Z) : P unit :=
  locking <- onx (gets cd_locking) ;;
  (if locking then onx (acquire cd_lock) else skip) ;;
  l <- of_option "cprintf" (cprintf_out str_at fmt args) ;;
  consputs l ;;
  (if locking then onx (release cd_lock) else skip).

(** [panic(s)] up to its loop; [pcs] are the ten return addresses. *)
Definition kpanic (str_at : Z → list Z) (lapicid : Z) (s pcs : list Z) : P unit :=
  onx (modify (λ d, d <| cd_locking := false |>)) ;;
  cprintf str_at (bytes_of "lapicid %d: panic: ") [lapicid] ;;
  cprintf str_at s [] ;;
  cprintf str_at [10] [] ;;
  for_all 10 0 (λ i, pc <- of_option "pcs[]" (aget pcs i) ;; cprintf str_at (bytes_of " %p") [pc]) ;;
  onx (modify (λ d, d <| cd_panicked := true |>)).

(** The locks of the device's inode are arguments. *)
Definition consolewrite (iunlock ilock : P unit) (buf : list Z) (n : Z) : P Z :=
  iunlock ;;
  onx (acquire cd_lock) ;;
  for_all (Z.to_nat n) 0 (λ i, c <- of_option "buf[]" (aget buf i) ;; consputc (Z.land c 0xff)) ;;
  onx (release cd_lock) ;;
  ilock ;;
  ret n.

(** [consoleinit], but for the table of devices. *)
Definition consoleinit (ioapicenable : Z → Z → P unit) : P unit :=
  onx (modify (λ d, d <| cd_lock := false |>)) ;;
  onx (modify (λ d, d <| cd_locking := true |>)) ;;
  ioapicenable IRQ_KBD 0.
End console.

(** ** Output *)

(** The screen after printing [l]: each character has the effect that
    [cgaputc_shows] says. *)
Inductive shows : list Z → cga → cga → Prop :=
  | shows_nil g : shows [] g g
  | shows_cons c l g g1 g2 :
      cga_ok g1 → shown g1 = scroll (typed c g) → aget (cg_crt g1) (cg_pos g1) = Some blank → shows l g1 g2 → shows (c :: l) g g2.
(** The bytes that are sent for [c]. *)
Definition serial_of (c : Z) : list Z := if c =? BACKSPACE then [8; 32; 8] else [c].

Section prints.
Context {D : Type} `{!Ports D} `{!Serial D}.

(** The console works. *)
Record cons_ok (h : hw consdev D) : Prop := {
  co_panicked : cd_panicked (hw_x h) = false;
  co_uart : cd_uart (hw_x h) = true;
  co_dlab : ser_dlab (hw_dev h) = false;
  co_cga : cga_ok (cd_cga (hw_x h));
}.
(** From [h] to [h'], with the same locks, [l] was printed. *)
Definition printed (l : list Z) (h h' : hw consdev D) : Prop :=
  cons_ok h' ∧ ser_sent (hw_dev h') = ser_sent (hw_dev h) ++ (l ≫= serial_of) ∧ shows l (cd_cga (hw_x h)) (cd_cga (hw_x h')) ∧
  cd_lock (hw_x h') = cd_lock (hw_x h) ∧ cd_locking (hw_x h') = cd_locking (hw_x h).
Definition chars (l : list Z) : Prop := Forall (λ c, 0 ≤ c < 256 ∨ c = BACKSPACE) l.

Lemma on_uart_ok c h : cons_ok h → 0 ≤ c < 256 →
  ∃ d', on_uart (uartputc c) h = Ok tt (Hw (hw_x h) d') ∧ ser_sent d' = ser_sent (hw_dev h) ++ [c] ∧ ser_dlab d' = false.
Proof using.
  intros [_ Hu Hd _] Hc. destruct (uartputc_ok c (hw_dev h) Hc Hd) as (d'&E&S&_&L). exists d'. split; [|done].
  unfold on_uart. rewrite Hu, E. destruct h as [x d]. cbn [hw_x hw_dev] in *. f_equal. f_equal. destruct x. unfold upd; simpl in *. by rewrite Hu.
Qed.

Lemma wp_onx {A} (m : M consdev A) (Q : A → hw consdev D → Prop) h : wp m (λ a x, Q a (Hw x (hw_dev h))) (hw_x h) → wp (onx m) Q h.
Proof using. unfold wp, onx. by destruct (m (hw_x h)). Qed.
Lemma wp_onx_gets {A} (f : consdev → A) (Q : A → hw consdev D → Prop) h : Q (f (hw_x h)) h → wp (onx (gets f)) Q h.
Proof using. by destruct h. Qed.

Lemma on_uart_wp c h : cons_ok h → 0 ≤ c < 256 →
  wp (on_uart (uartputc c)) (λ _ h', hw_x h' = hw_x h ∧ ser_sent (hw_dev h') = ser_sent (hw_dev h) ++ [c] ∧ cons_ok h') h.
Proof using.
  intros Hok Hc. destruct (on_uart_ok c h Hok Hc) as (d'&E&S&L). unfold wp. rewrite E. split_and!; [done..|]. destruct Hok. by split.
Qed.
Lemma on_cga_wp c h : cons_ok h →
  wp (on_cga (cgaputc c)) (λ _ h', hw_dev h' = hw_dev h ∧ ∃ g, hw_x h' = (hw_x h) <| cd_cga := g |> ∧
    cga_ok g ∧ shown g = scroll (typed c (cd_cga (hw_x h))) ∧ aget (cg_crt g) (cg_pos g) = Some blank) h.
Proof using.
  intros Hok. pose proof (cgaputc_shows c _ (co_cga _ Hok)) as Hg. unfold wp, on_cga in *. destruct (cgaputc c _) as [[] g| | | | |]; try done. eauto.
Qed.

Lemma consputc_wp c h : cons_ok h → 0 ≤ c < 256 ∨ c = BACKSPACE → wp (consputc c) (λ _, printed [c] h) h.
Proof using.
  intros Hok Hc. unfold consputc. apply wp_bind, wp_onx_gets. rewrite (co_panicked _ Hok). apply wp_bind.
  apply (wp_mono _ (λ _ h1, hw_x h1 = hw_x h ∧ ser_sent (hw_dev h1) = ser_sent (hw_dev h) ++ serial_of c ∧ cons_ok h1)).
  - unfold serial_of. destruct (Z.eqb_spec c BACKSPACE) as [->|]; [|by apply on_uart_wp; [|destruct Hc]].
    apply wp_bind. eapply wp_mono; [by apply on_uart_wp|]. intros _ h1 (X1&S1&O1). apply wp_bind. eapply wp_mono; [by apply on_uart_wp|]. intros _ h2 (X2&S2&O2).
    eapply wp_mono; [by apply on_uart_wp|]. intros _ h3 (X3&S3&O3). split_and!; [congruence| |done]. by rewrite S3, S2, S1, <-!app_assoc.
  - intros _ h1 (X1&S1&O1). eapply wp_mono; [by apply on_cga_wp|]. intros _ h2 (D2&g&X2&G1&G2&G3). rewrite X1 in *. unfold printed. rewrite X2, D2. unfold upd; simpl.
    destruct O1 as [P1 U1 L1 C1]. rewrite X1 in *. split_and!; try done; [split; rewrite ?X2, ?D2; done|by rewrite app_nil_r|econstructor; [done..|constructor]].
Qed.

Lemma shows_app l1 l2 g1 g2 g3 : shows l1 g1 g2 → shows l2 g2 g3 → shows (l1 ++ l2) g1 g3.
Proof using. induction 1; [done|]. simpl. econstructor; eauto. Qed.
Lemma printed_app l1 l2 h1 h2 h3 : printed l1 h1 h2 → printed l2 h2 h3 → printed (l1 ++ l2) h1 h3.
Proof using.
  intros (_&S1&G1&K1&I1) (O2&S2&G2&K2&I2). split_and!; [done| |by eapply shows_app|congruence..]. by rewrite S2, S1, bind_app, app_assoc.
Qed.
Lemma printed_nil h : cons_ok h → printed [] h h.
Proof using. intros. split_and!; [done| |constructor|done..]. by rewrite app_nil_r. Qed.

Lemma consputs_wp l h : cons_ok h → chars l → wp (consputs l) (λ _, printed l h) h.
Proof using.
  intros Hok Hl. revert h Hok. induction Hl as [|c l Hc _ IH]; intros h Hok; cbn [consputs]; [by apply wp_ret, printed_nil|].
  apply wp_bind. eapply wp_mono; [by apply consputc_wp|]. intros [] h1 P1. eapply wp_mono; [apply IH, P1|]. intros [] h2 P2. by apply (printed_app [c] l h h1).
Qed.

(** What is printed between taking and giving back the lock. *)
Lemma locked_wp (m : M (hw consdev D) unit) l h :
  cons_ok h → cd_lock (hw_x h) = false → (∀ h1, cons_ok h1 → wp m (λ _, printed l h1) h1) →
  wp (onx (acquire cd_lock) ;; m ;; onx (release cd_lock)) (λ _, printed l h) h.
Proof using.
  intros [P U L C] Hf Hm. apply wp_bind, wp_onx, wp_acquire; [done|]. apply wp_bind.
  eapply wp_mono; [by apply Hm; split|]. intros [] h1 ([P1 U1 L1 C1]&S1&G1&K1&I1). unfold upd in *. simpl in *.
  apply wp_onx, wp_release; [done|]. unfold upd; simpl. by split_and!.
Qed.

Lemma cprintf_wp str_at fmt args l h :
  cons_ok h → (cd_locking (hw_x h) = true → cd_lock (hw_x h) = false) → cprintf_out str_at fmt args = Some l → chars l →
  wp (cprintf str_at fmt args) (λ _, printed l h) h.
Proof using.
  intros Hok Hlk Ho Hl. unfold cprintf. apply wp_bind, wp_onx_gets. rewrite Ho. destruct (cd_locking (hw_x h)).
  - apply (locked_wp (consputs l)); [done|by apply Hlk|]. intros. by apply consputs_wp.
  - apply wp_bind, wp_ret, wp_bind, (wp_of_option _ _ l); [done|]. apply wp_bind. eapply wp_mono; [by apply consputs_wp|]. intros [] h1 H1. by apply wp_ret.
Qed.

(** The loop of [consolewrite]. *)
Lemma write_loop_wp buf n h : cons_ok h → Forall (λ c, 0 ≤ c < 256) buf → 0 ≤ n ≤ Z.of_nat (length buf) →
  wp (for_all (Z.to_nat n) 0 (λ i, c <- of_option "buf[]" (aget buf i) ;; consputc (Z.land c 0xff))) (λ _, printed (take (Z.to_nat n) buf) h) h.
Proof using.
  intros Hok Hb Hn. eapply wp_mono; [apply (wp_for_all (λ i, printed (take (Z.to_nat i) buf) h))|]; [by apply printed_nil| |].
  - intros j h1 Hj H1. destruct (aget_is_Some buf j) as [c Hc]; [lia|]. apply wp_bind, (wp_of_option _ _ c); [done|].
    assert (buf !! Z.to_nat j = Some c) as Hl by (rewrite <-Hc; unfold aget; destruct (Z.ltb_spec j 0); [lia|done]).
    assert (0 ≤ c < 256) as Hr by (exact (Forall_lookup_1 _ _ _ _ Hb Hl)). change 255 with (Z.ones 8). rewrite Z.land_ones, Z.mod_small by lia.
    eapply wp_mono; [apply consputc_wp; [apply H1|by left]|]. intros [] h2 H2.
    replace (Z.to_nat (j + 1)) with (S (Z.to_nat j)) by lia. rewrite (take_S_r _ _ c Hl). by eapply printed_app.
  - intros []. by rewrite Z.add_0_l, Z2Nat.id by lia.
Qed.

(** A write to the console returns its length; its bytes are sent over the
    serial port, in order, and appear on the screen one after the other; the
    lock is free again. *)
Lemma consolewrite_prints (iunlock ilock : M (hw consdev D) unit) buf n h :
  (∀ h, iunlock h = Ok tt h) → (∀ h, ilock h = Ok tt h) → cons_ok h → cd_lock (hw_x h) = false →
  Forall (λ c, 0 ≤ c < 256) buf → 0 ≤ n ≤ Z.of_nat (length buf) →
  wp (consolewrite iunlock ilock buf n) (λ r h', r = n ∧ printed (take (Z.to_nat n) buf) h h') h.
Proof using.
  intros Hu Hl Hok Hf Hb Hn. unfold consolewrite. apply wp_bind. eapply wp_eq; [apply Hu|].
  set (loop_ := for_all _ _ _).
  assert (wp (onx (acquire cd_lock) ;; loop_ ;; onx (release cd_lock)) (λ _, printed (take (Z.to_nat n) buf) h) h) as Hw by (apply locked_wp; [done..|]; intros; by apply write_loop_wp).
  apply wp_bind_inv in Hw. apply wp_bind. eapply wp_mono; [exact Hw|]. intros [] h1 H1. apply wp_bind_inv in H1. apply wp_bind. eapply wp_mono; [exact H1|]. intros [] h2 H2.
  apply wp_bind. eapply wp_mono; [exact H2|]. intros [] h3 H3. apply wp_bind. eapply wp_eq; [apply Hl|]. by apply wp_ret.
Qed.

(** What a panic prints. *)
Definition panic_text (id : Z) (msg pcs : list Z) : list Z :=
  (bytes_of "lapicid " ++ printint digits_lower (s32 id) 10 true ++ bytes_of ": panic: ") ++ msg ++ [10] ++
  (pcs ≫= λ pc, 32 :: printint digits_lower (s32 pc) 16 false).

Lemma printint_chars xx base sign : chars (printint digits_lower xx base sign).
Proof using.
  assert (∀ fuel x, Forall (λ c, 0 ≤ c < 256) (digit_loop fuel digits_lower x base)) as Hd.
  { induction fuel as [|fuel IH]; intros x; cbn [digit_loop]; [constructor|]. constructor; [|destruct (x / base =? 0); [constructor|apply IH]].
    destruct (aget digits_lower (x mod base)) as [c|] eqn:E; [|done]. unfold aget in E. destruct (_ <? 0); [done|]. revert c E. apply Forall_lookup. by repeat constructor. }
  unfold chars, printint. apply Forall_rev, Forall_app. split; [eapply Forall_impl; [apply Hd|]; auto|]. destruct (_ && _); [constructor; [by left|]|]; constructor.
Qed.
Lemma bytes_chars l : Forall (λ c, 0 ≤ c < 256) l → chars l.
Proof using. intros. eapply Forall_impl; [done|]. auto. Qed.

(** [cprintf] when the console does not lock. *)
Lemma cprintf_unlocked str_at fmt args l h :
  cons_ok h → cd_locking (hw_x h) = false → cprintf_out str_at fmt args = Some l → chars l → wp (cprintf str_at fmt args) (λ _ h', printed l h h' ∧ cons_ok h' ∧ cd_locking (hw_x h') = false) h.
Proof using.
  intros Hok Hl Ho Hc. eapply wp_mono; [apply (cprintf_wp _ _ _ l); [done| |done..]|]; [by rewrite Hl|].
  intros [] h' P. pose proof P as (O&_&_&_&I). split_and!; [done..|congruence].
Qed.
Lemma panic_pcs str_at pcs h : cons_ok h → cd_locking (hw_x h) = false → length pcs = 10%nat →
  wp (for_all 10 0 (λ i, pc <- of_option "pcs[]" (aget pcs i) ;; cprintf str_at (bytes_of " %p") [pc])) (λ _, printed (pcs ≫= λ pc, 32 :: printint digits_lower (s32 pc) 16 false) h) h.
Proof using.
  intros Hok Hl Hp. eapply wp_mono; [apply (wp_for_all (λ i h', printed (take (Z.to_nat i) pcs ≫= λ pc, 32 :: printint digits_lower (s32 pc) 16 false) h h'))|].
  - by apply printed_nil.
  - intros j h4 Hj H4. destruct (aget_is_Some pcs j) as [pc Epc]; [lia|]. apply wp_bind, (wp_of_option _ _ pc); [done|]. pose proof H4 as (O4&_&_&_&I4).
    eapply wp_mono; [apply (cprintf_unlocked _ _ _ (32 :: printint digits_lower (s32 pc) 16 false) h4 O4); [congruence| |]|].
    + transitivity (Some (32 :: (printint digits_lower (s32 pc) 16 false ++ []))); [reflexivity|by rewrite app_nil_r].
    + constructor; [by left|apply printint_chars].
    + intros [] h5 [P5 _]. assert (pcs !! Z.to_nat j = Some pc) as Hj' by (rewrite <-Epc; unfold aget; destruct (Z.ltb_spec j 0); [lia|done]).
      replace (Z.to_nat (j + 1)) with (S (Z.to_nat j)) by lia. rewrite (take_S_r _ _ pc Hj'), bind_app. eapply printed_app; [done|]. cbn [mbind list_bind]. by rewrite app_nil_r.
  - intros [] h4 P4. by rewrite take_ge in P4 by (rewrite Hp; lia).
Qed.

(** A panic prints its message whoever holds the lock; after it the console
    prints nothing more, on any processor. *)
Lemma panic_freezes str_at id s msg pcs h :
  cons_ok h → cprintf_out str_at s [] = Some msg → chars msg → length pcs = 10%nat →
  wp (kpanic str_at id s pcs) (λ _ h',
    (∃ h1, printed (panic_text id msg pcs) (Hw ((hw_x h) <| cd_locking := false |>) (hw_dev h)) h1 ∧ hw_dev h' = hw_dev h1 ∧ cd_cga (hw_x h') = cd_cga (hw_x h1)) ∧
    ∀ c, consputc c h' = Spins) h.
Proof using.
  intros [P U L C] Hs Hm Hp. unfold kpanic. apply wp_bind, wp_onx, wp_modify. set (h0 := Hw _ (hw_dev h)).
  apply wp_bind. eapply wp_mono; [apply (cprintf_unlocked _ _ _ (bytes_of "lapicid " ++ printint digits_lower (s32 id) 10 true ++ bytes_of ": panic: ")); [by split|done..|]|].
  { apply Forall_app. split; [apply bytes_chars; by repeat constructor|]. apply Forall_app. split; [apply printint_chars|apply bytes_chars; by repeat constructor]. }
  intros [] h1 (P1&O1&I1). apply wp_bind. eapply wp_mono; [by apply (cprintf_unlocked _ _ _ msg)|]. intros [] h2 (P2&O2&I2).
  apply wp_bind. eapply wp_mono; [apply (cprintf_unlocked _ _ _ [10]); [done..|]; constructor; [by left|constructor]|]. intros [] h3 (P3&O3&I3).
  apply wp_bind. eapply wp_mono; [by apply (panic_pcs _ pcs)|]. intros [] h4 P4. apply wp_onx, wp_modify. split; [|done].
  exists h4. split; [|done]. eapply printed_app; [done|]. eapply printed_app; [done|]. by eapply printed_app.
Qed.
End prints.
