(* ===== verification/Startup.v ===== *)
(** Starting the processors: [startothers], [mpenter] and [mpmain] of
    [src/main.c], and [mycpu] of [src/proc.c].

    The boot processor writes where the next processor is to enter the kernel
    into the three words below the code of entryother.S, which all of them
    share, and wakes it through its interrupt controller; the processors then
    run at their own speed.  [startothers_safe]: each finds its own stack there,
    no matter how the steps interleave, and when [startothers] has returned all
    of them are running the scheduler. *)

From S2P Require Import Prelude Memory Machine.
From stdpp Require Import options.

(** [mycpu]: the index of the processor with this APIC identifier. *)
Fixpoint mycpu_from (i : nat) (apicids : list Z) (apicid : Z) : option nat :=
  match apicids with [] => None | a :: l => if a =? apicid then Some i else mycpu_from (S i) l apicid end.
Definition mycpu {St} (fl_if : bool) (apicids : list Z) (apicid : Z) : M St nat :=
  if fl_if then panic "mycpu called with interrupts enabled\n" else
  match mycpu_from 0 apicids apicid with Some i => ret i | None => panic "unknown apicid\n" end.

(** The page directory on which a processor enables paging. *)
Definition PTE_PS := 0x080.
Definition entrypgdir (i : Z) : Z :=
  if (i =? 0) || (i =? Z.shiftr KERNBASE 22) then Z.lor (Z.lor (Z.lor 0 PTE_P) PTE_W) PTE_PS else 0.

(** Where a processor is: waiting to be started, at the start of entryother.S,
    at the entry point in C with the words it read there, or in [scheduler]. *)
Inductive apoint := Halted | Started | Entered (esp eip cr3 : Z) | Scheduling (esp : Z).
Record cpu := Cpu { c_apicid : Z; c_started : Z; c_at : apoint }.
#[global] Instance eta_cpu : Eta cpu := λ c, Cpu (c_apicid c) (c_started c) (c_at c).

(** [so_c] is the loop's [c], [so_wait] whether it is at the inner loop;
    [so_pages] are the pages that [kalloc] will give. *)
Record sostate := Sostate { so_c : nat; so_wait : bool; so_mem : memory; so_pages : list Z; so_cpus : list cpu }.
#[global] Instance eta_sostate : Eta sostate := λ s, Sostate (so_c s) (so_wait s) (so_mem s) (so_pages s) (so_cpus s).

Definition code : Z := P2V 0x7000.

Section start.
(** The addresses of [mpenter] and of the page directory, the processor that runs
    [startothers], and the code of entryother.S. *)
Context (mpenter pgdir : Z) (boot : nat) (entryother : list Z).

Definition write_args (stack : Z) (m : memory) : memory :=
  let m := store32 m (code - 4) (stack + KSTACKSIZE) in
  let m := store32 m (code - 8) mpenter in
  store32 m (code - 12) (V2P pgdir).

(** The interrupt controllers start the processor with this identifier
    ([Apic.lapicstartap_ok]). *)
Definition startap (apicid : Z) (cs : list cpu) : list cpu :=
  (λ c, if c_apicid c =? apicid then c <| c_at := Started |> else c) <$> cs.

Inductive so_step : sostate → sostate → Prop :=
  (* startothers *)
  | so_skip s : so_wait s = false → so_c s = boot → (so_c s < length (so_cpus s))%nat → so_step s (s <| so_c ::= S |>)
  | so_start s c stack l :
      so_wait s = false → so_c s ≠ boot → so_cpus s !! so_c s = Some c → so_pages s = stack :: l →
      so_step s (Sostate (so_c s) true (write_args stack (so_mem s)) l (startap (c_apicid c) (so_cpus s)))
  | so_next s c :
      so_wait s = true → so_cpus s !! so_c s = Some c → c_started c ≠ 0 → so_step s (s <| so_wait := false |> <| so_c ::= S |>)
  (* entryother.S, mpenter and mpmain *)
  | ap_enter s j c :
      so_cpus s !! j = Some c → c_at c = Started →
      so_step s (s <| so_cpus ::= <[j := c <| c_at := Entered (load32 (so_mem s) (code - 4)) (load32 (so_mem s) (code - 8)) (load32 (so_mem s) (code - 12)) |>]> |>)
  | ap_main s j c esp eip cr3 :
      so_cpus s !! j = Some c → c_at c = Entered esp eip cr3 → eip = mpenter →
      so_step s (s <| so_cpus ::= <[j := c <| c_started := 1 |> <| c_at := Scheduling esp |>]> |>).

(** [startothers] has just copied the code. *)
Definition so_init (apicids : list Z) (pages : list Z) (m : memory) : sostate :=
  Sostate 0 false (store_bytes m code entryother) pages ((λ a, Cpu a 0 Halted) <$> apicids).

(** ** The invariant *)

(** The stack of processor [j]: the pages are given in order. *)
Definition rank (j : nat) : nat := if decide (j ≤ boot)%nat then j else (j - 1)%nat.
Definition stack_of (pages : list Z) (j : nat) (esp : Z) : Prop := ∃ p, pages !! rank j = Some p ∧ esp = u32 (p + KSTACKSIZE).
Definition args_for (pages : list Z) (j : nat) (m : memory) : Prop :=
  stack_of pages j (load32 m (code - 4)) ∧ load32 m (code - 8) = mpenter ∧ load32 m (code - 12) = V2P pgdir.

(** What processor [j] may be doing. *)
Definition asleep (c : cpu) : Prop := c_at c = Halted ∧ c_started c = 0.
Definition running (pages : list Z) (j : nat) (c : cpu) : Prop := ∃ esp, c_at c = Scheduling esp ∧ c_started c = 1 ∧ stack_of pages j esp.
Definition starting (pages : list Z) (j : nat) (c : cpu) : Prop :=
  c_started c = 0 ∧ (c_at c = Started ∨ ∃ esp, c_at c = Entered esp mpenter (V2P pgdir) ∧ stack_of pages j esp).
Definition cpu_ok (s : sostate) (pages : list Z) (j : nat) (c : cpu) : Prop :=
  if decide (j = boot) then asleep c else
  if decide (j < so_c s)%nat then running pages j c else
  if decide (j = so_c s ∧ so_wait s = true) then starting pages j c ∨ running pages j c else asleep c.

Record so_inv (apicids pages : list Z) (s : sostate) : Prop := {
  so_ids : c_apicid <$> so_cpus s = apicids;
  so_left : so_pages s = drop (rank (so_c s) + if so_wait s then 1 else 0) pages;
  so_args : so_wait s = true → so_c s ≠ boot ∧ args_for pages (so_c s) (so_mem s);
  so_each j c : so_cpus s !! j = Some c → cpu_ok s pages j c;
}.

Section invariant.
Context (apicids pages : list Z) (Hids : NoDup apicids) (Hmp : 0 ≤ mpenter < 2 ^ 32).

Lemma so_init_inv m : so_inv apicids pages (so_init apicids pages m).
Proof using.
  split; [|done|done|].
  - unfold so_init; simpl. rewrite <-list_fmap_compose. by apply list_fmap_id.
  - intros j c Hj. unfold so_init in Hj; simpl in Hj. apply list_lookup_fmap_Some in Hj as (a&->&_). unfold cpu_ok. simpl.
    destruct (decide (j = boot)); [done|]. destruct (decide (j < 0)%nat); [lia|]. destruct (decide _) as [[_ ?]|]; done.
Qed.

Lemma args_written m p j : pages !! rank j = Some p → args_for pages j (write_args p m).
Proof using Hmp.
  intros Hp. unfold args_for, write_args. split_and!.
  - exists p. split; [done|]. by rewrite !load32_store32_ne, load32_store32_eq by lia.
  - by rewrite load32_store32_ne, load32_store32_eq, u32_id by lia.
  - rewrite load32_store32_eq. apply u32_u32.
Qed.

(** A step of processor [j] that takes it from one allowed place to another. *)
Lemma so_update s j c c' : so_inv apicids pages s → so_cpus s !! j = Some c → c_apicid c' = c_apicid c →
  (cpu_ok s pages j c → cpu_ok s pages j c') → so_inv apicids pages (s <| so_cpus ::= <[j := c']> |>).
Proof using.
  intros [H1 H2 H3 H4] Hj Hid Hc. split; unfold upd; simpl; [|done..|].
  - rewrite list_fmap_insert, Hid, H1. apply list_insert_id. rewrite <-H1, list_lookup_fmap, Hj. done.
  - intros k ck Hk. destruct (decide (k = j)) as [->|]; [|rewrite list_lookup_insert_ne in Hk by done; by apply H4].
    rewrite list_lookup_insert_eq in Hk by (by eapply lookup_lt_Some). injection Hk as <-. apply Hc, H4, Hj.
Qed.

(** Processors other than [boot] that are not halted. *)
Lemma ok_starting s j c : cpu_ok s pages j c → c_at c ≠ Halted → (∀ esp, c_at c ≠ Scheduling esp) →
  j ≠ boot ∧ j = so_c s ∧ so_wait s = true ∧ starting pages j c.
Proof using.
  unfold cpu_ok. intros H Hh Hs. case_decide; [by destruct H|]. case_decide; [destruct H as (e&He&_); by destruct (Hs e)|].
  case_decide as E; [|by destruct H]. destruct E as [E1 E2]. destruct H as [H|(e&He&_)]; [done|by destruct (Hs e)].
Qed.
Lemma ok_waiting s j c : j ≠ boot → j = so_c s → so_wait s = true → starting pages j c ∨ running pages j c → cpu_ok s pages j c.
Proof using. intros Hb -> Hw H. unfold cpu_ok. rewrite decide_False by done. rewrite decide_False by lia. by rewrite decide_True. Qed.

(** The loop goes on to the next processor. *)
Lemma rank_next j : j ≠ boot → rank (S j) = S (rank j).
Proof using. unfold rank. intros. repeat case_decide; lia. Qed.
Lemma rank_boot : rank (S boot) = rank boot.
Proof using. unfold rank. repeat case_decide; lia. Qed.

Lemma started_lookup id (cs : list cpu) j c : startap id cs !! j = Some c →
  ∃ c0, cs !! j = Some c0 ∧ c = if c_apicid c0 =? id then c0 <| c_at := Started |> else c0.
Proof using. intros (c0&->&H)%list_lookup_fmap_Some. eauto. Qed.
Lemma started_ids id (cs : list cpu) : c_apicid <$> startap id cs = c_apicid <$> cs.
Proof using. unfold startap. rewrite <-list_fmap_compose. apply list_fmap_ext. intros i c _. simpl. by destruct (_ =? _). Qed.

Lemma so_skip_inv s : so_wait s = false → so_c s = boot → so_inv apicids pages s → so_inv apicids pages (s <| so_c ::= S |>).
Proof using Hids Hmp.
  intros Hw Hb [H1 H2 H3 H4]. split; unfold upd; simpl; [done| |by rewrite Hw|].
  - rewrite H2, Hw, Hb, rank_boot. done.
  - intros j c Hj. specialize (H4 j c Hj). unfold cpu_ok in *. simpl. destruct (decide (j = boot)); [done|].
    destruct (decide (j < so_c s)%nat); [rewrite decide_True by lia; done|]. rewrite decide_False by lia.
    rewrite decide_False in H4 by (rewrite Hw; naive_solver). by rewrite decide_False by (rewrite Hw; naive_solver).
Qed.

Lemma so_start_inv s c stack l :
  so_wait s = false → so_c s ≠ boot → so_cpus s !! so_c s = Some c → so_pages s = stack :: l → so_inv apicids pages s →
  so_inv apicids pages (Sostate (so_c s) true (write_args stack (so_mem s)) l (startap (c_apicid c) (so_cpus s))).
Proof using Hids Hmp.
  intros Hw Hb Hc Hp [H1 H2 H3 H4]. rewrite Hw, Nat.add_0_r, Hp in H2.
  assert (pages !! rank (so_c s) = Some stack) as Hpg by (rewrite <-(Nat.add_0_r (rank _)), <-lookup_drop, <-H2; done).
  rewrite (drop_S _ _ _ Hpg) in H2. injection H2 as H2.
  split; simpl; [by rewrite started_ids|by rewrite Nat.add_1_r|intros _; split; [done|by apply args_written]|].
  intros j cj (c0&Hj&->)%started_lookup. pose proof (H4 j c0 Hj) as Hok. destruct (decide (j = so_c s)) as [->|Hne].
  - rewrite Hc in Hj. injection Hj as <-. rewrite Z.eqb_refl. apply ok_waiting; [done..|]. left. unfold cpu_ok in Hok.
    rewrite decide_False in Hok by done. rewrite decide_False in Hok by lia. rewrite decide_False in Hok by (rewrite Hw; naive_solver). destruct Hok. split; [done|by left].
  - destruct (Z.eqb_spec (c_apicid c0) (c_apicid c)) as [E|_].
    + destruct Hne. apply (NoDup_lookup apicids _ _ (c_apicid c)); [done|..]; rewrite <-H1, list_lookup_fmap; [by rewrite Hj; simpl; rewrite E|by rewrite Hc].
    + unfold cpu_ok in *. simpl. destruct (decide (j = boot)); [done|]. destruct (decide (j < so_c s)%nat); [done|].
      rewrite decide_False in Hok by (rewrite Hw; naive_solver). by rewrite decide_False by naive_solver.
Qed.

Lemma so_next_inv s c : so_wait s = true → so_cpus s !! so_c s = Some c → c_started c ≠ 0 → so_inv apicids pages s →
  so_inv apicids pages (s <| so_wait := false |> <| so_c ::= S |>).
Proof using Hids Hmp.
  intros Hw Hc Hst [H1 H2 H3 H4]. destruct (H3 Hw) as [Hb _]. split; unfold upd; simpl; [done| |done|].
  - by rewrite H2, Hw, rank_next, Nat.add_0_r, Nat.add_1_r.
  - intros j cj Hj. specialize (H4 j cj Hj). unfold cpu_ok in *. simpl. destruct (decide (j = boot)); [done|].
    destruct (decide (j < so_c s)%nat); [rewrite decide_True by lia; done|]. destruct (decide (j = so_c s)) as [->|].
    + rewrite decide_True by lia. rewrite decide_True in H4 by done. rewrite Hc in Hj. injection Hj as <-. by destruct H4 as [[? _]|?].
    + rewrite decide_False by lia. rewrite decide_False in H4 by naive_solver. by rewrite decide_False by naive_solver.
Qed.

Lemma so_step_inv s s' : so_step s s' → so_inv apicids pages s → so_inv apicids pages s'.
Proof using Hids Hmp.
  intros Hs Hv. destruct Hs as [s Hw Hb Hlt|s c stack l Hw Hb Hc Hp|s c Hw Hc Hst|s j c Hj Hat|s j c esp eip cr3 Hj Hat ->].
  - by apply so_skip_inv.
  - by apply so_start_inv.
  - by eapply so_next_inv.
  - apply (so_update s j c); [done..|]. intros Hok. apply ok_starting in Hok as (Hb&->&Hw&[H0 _]); [|by rewrite Hat..].
    apply ok_waiting; [done..|]. left. split; [done|]. right. destruct (so_args _ _ _ Hv Hw) as (_&Ha&E1&E2). eexists. rewrite E1, E2. done.
  - apply (so_update s j c); [done..|]. intros Hok. apply ok_starting in Hok as (Hb&->&Hw&[H0 H5]); [|by rewrite Hat..].
    apply ok_waiting; [done..|]. right. destruct H5 as [H5|(e&He&Hs)]; rewrite Hat in *; [done|]. injection He as <- _. by exists esp.
Qed.

Definition so_reach (s : sostate) : Prop := ∃ m, rtc so_step (so_init apicids pages m) s.
Lemma so_reach_inv s : so_reach s → so_inv apicids pages s.
Proof using Hids Hmp.
  intros [m Hs]. pose proof (so_init_inv m) as Hv. revert Hv. induction Hs as [|s s1 s2 H1 _ IH]; [done|]. eauto using so_step_inv.
Qed.

(** The stack pointer of a processor that has read it. *)
Definition esp_of (c : cpu) : option Z := match c_at c with Entered esp _ _ | Scheduling esp => Some esp | _ => None end.

Lemma inv_esp s j c esp : so_inv apicids pages s → so_cpus s !! j = Some c → esp_of c = Some esp →
  j ≠ boot ∧ stack_of pages j esp ∧ ∀ e eip cr3, c_at c = Entered e eip cr3 → eip = mpenter ∧ cr3 = V2P pgdir.
Proof using.
  intros Hv Hj He. pose proof (so_each _ _ _ Hv j c Hj) as Hok. unfold cpu_ok, esp_of in *.
  destruct (decide (j = boot)); [destruct Hok as [E _]; by rewrite E in He|]. split; [done|].
  assert (starting pages j c ∨ running pages j c) as [[_ [E|(e&E&Hs)]]|(e&E&_&Hs)].
  { destruct (decide _); [by right|]. destruct (decide _); [done|]. destruct Hok as [E _]. by rewrite E in He. }
  - by rewrite E in He.
  - rewrite E in He. injection He as <-. split; [done|]. rewrite E. by intros ??? [= _ <- <-].
  - rewrite E in He. injection He as <-. split; [done|]. by rewrite E.
Qed.

Lemma stack_inj j k esp : NoDup pages → Forall (λ p, 0 ≤ p < 2 ^ 32 - KSTACKSIZE) pages → j ≠ boot → k ≠ boot →
  stack_of pages j esp → stack_of pages k esp → j = k.
Proof using Hids Hmp.
  intros Hn Hr Hj Hk (p&Hp&->) (q&Hq&E). pose proof (Forall_lookup_1 _ _ _ _ Hr Hp). pose proof (Forall_lookup_1 _ _ _ _ Hr Hq).
  unfold KSTACKSIZE in *. simpl in *. rewrite !u32_id in E by lia. assert (p = q) as -> by lia.
  pose proof (NoDup_lookup _ _ _ _ Hn Hp Hq) as Er. unfold rank in Er. repeat case_decide; lia.
Qed.

Lemma rank_lt j n : (j < n)%nat → (boot < n)%nat → j ≠ boot → (rank j < n - 1)%nat.
Proof using Hids Hmp. unfold rank. case_decide; lia. Qed.

(** [startothers] does not get stuck. *)
Lemma inv_moves s : so_inv apicids pages s → (boot < length apicids)%nat → (length apicids - 1 ≤ length pages)%nat →
  (so_c s < length apicids)%nat → ∃ s', so_step s s'.
Proof using Hids Hmp.
  intros Hv Hb Hp Hc. pose proof Hv as [H1 H2 H3 H4]. assert (length (so_cpus s) = length apicids) as Hl by (rewrite <-H1; by rewrite length_fmap).
  destruct (lookup_lt_is_Some_2 (so_cpus s) (so_c s)) as [c Ec]; [lia|]. destruct (so_wait s) eqn:Hw.
  - destruct (H3 eq_refl) as [Hne _]. pose proof (H4 _ _ Ec) as Hok. unfold cpu_ok in Hok. rewrite decide_False in Hok by done. rewrite decide_False in Hok by lia.
    rewrite decide_True in Hok by done. destruct Hok as [[_ [E|(e&E&_)]]|(e&_&E&_)]; eexists; [by eapply ap_enter|by eapply ap_main|by eapply so_next; [..|rewrite E]].
  - destruct (decide (so_c s = boot)) as [E|Hne]; [eexists; by apply so_skip; [..|lia]|].
    pose proof (rank_lt _ _ Hc Hb Hne). destruct (so_pages s) as [|p l] eqn:El; [|eexists; by eapply so_start].
    assert (length (drop (rank (so_c s) + 0) pages) = 0%nat) as Hz by by rewrite <-H2. rewrite length_drop in Hz. lia.
Qed.
End invariant.

(** C33: Starting the processors. Given different pages for stacks, and
    processors with different identifiers, in every interleaving of
    [startothers] with the processors it starts: a processor that has entered
    the kernel did so at [mpenter] with the kernel's first page directory and on
    a stack of its own, though all find them at the same address; as long as
    [startothers] has not returned something can go on; and when it has
    returned every other processor is running the scheduler and has said so. *)
Theorem startothers_safe apicids pages s :
  NoDup apicids → NoDup pages → Forall (λ p, 0 ≤ p < 2 ^ 32 - KSTACKSIZE) pages → 0 ≤ mpenter < 2 ^ 32 → (boot < length apicids)%nat → (length apicids - 1 ≤ length pages)%nat →
  so_reach apicids pages s →
  (∀ j c e eip cr3, so_cpus s !! j = Some c → c_at c = Entered e eip cr3 → eip = mpenter ∧ cr3 = V2P pgdir) ∧
  (∀ j k c c' esp, so_cpus s !! j = Some c → so_cpus s !! k = Some c' → esp_of c = Some esp → esp_of c' = Some esp → j = k) ∧
  ((so_c s < length apicids)%nat → ∃ s', so_step s s') ∧
  ((length apicids ≤ so_c s)%nat → ∀ j c, so_cpus s !! j = Some c → j ≠ boot → c_started c = 1 ∧ ∃ p, p ∈ pages ∧ c_at c = Scheduling (u32 (p + KSTACKSIZE))).
Proof using.
  intros Hids Hpg Hr Hmp Hb Hn Hs%so_reach_inv; [|done..]. split_and!.
  - intros j c e eip cr3 Hj Hat. destruct (inv_esp _ _ s j c e Hs Hj) as (_&_&H); [unfold esp_of; by rewrite Hat|]. by eapply H.
  - intros j k c c' esp Hj Hk Ej Ek. destruct (inv_esp _ _ s j c esp Hs Hj Ej) as (?&?&_). destruct (inv_esp _ _ s k c' esp Hs Hk Ek) as (?&?&_). by eapply stack_inj.
  - by eapply inv_moves.
  - intros Hc j c Hj Hne. pose proof (so_each _ _ _ Hs j c Hj) as Hok. unfold cpu_ok in Hok. rewrite decide_False in Hok by done.
    assert (j < length apicids)%nat by (rewrite <-(so_ids _ _ _ Hs), length_fmap; by eapply lookup_lt_Some). rewrite decide_True in Hok by lia.
    destruct Hok as (e&He&H1&(p&Hp&->)). split; [done|]. exists p. split; [by eapply list_elem_of_lookup_2|done].
Qed.
End start.

(** The first page directory maps the first four megabytes twice, at 0 and at
    [KERNBASE], and nothing else. *)
Definition entry_lookup (va : Z) : option Z :=
  let e := entrypgdir (PDX va) in
  if (Z.land e PTE_P =? 0) || (Z.land e PTE_PS =? 0) then None else Some (Z.land e (- 2 ^ 22) + va mod 2 ^ 22).

Lemma entrypgdir_maps va pa : 0 ≤ va < 2 ^ 32 → entry_lookup va = Some pa ↔ 0 ≤ pa < 2 ^ 22 ∧ (va = pa ∨ va = KERNBASE + pa).
Proof.
  intros Hva. unfold entry_lookup, entrypgdir. assert (PDX va = va / 2 ^ 22) as ->.
  { unfold PDX, PDXSHIFT. change 0x3FF with (Z.ones 10). rewrite Z.land_ones, Z.shiftr_div_pow2, Z.mod_small; [done| |lia..]. split; [apply Z.div_pos; lia|apply Z.div_lt_upper_bound; lia]. }
  pose proof (Z.div_mod va (2 ^ 22)). pose proof (Z.mod_pos_bound va (2 ^ 22)). change (Z.shiftr KERNBASE 22) with 512. unfold KERNBASE.
  assert (∀ d, va / 2 ^ 22 = d → (Some (0 + va mod 2 ^ 22) = Some pa ↔ 0 ≤ pa < 2 ^ 22 ∧ va = 2 ^ 22 * d + pa)) as Hd.
  { intros d E. split; [intros [= <-]; lia|]. intros [? Ev]. f_equal. lia. }
  destruct (Z.eqb_spec (va / 2 ^ 22) 0) as [E|E]; [|destruct (Z.eqb_spec (va / 2 ^ 22) 512) as [E2|E2]].
  - etransitivity; [exact (Hd 0 E)|]. lia.
  - etransitivity; [exact (Hd 512 E2)|]. lia.
  - split; [done|]. intros [? [->| ->]]; exfalso; [apply E; apply Z.div_small; lia|]. apply E2. symmetry. apply (Z.div_unique_pos _ _ _ pa); lia.
Qed.

Module StartupExamples.
Definition ex_pages : list Z := [0x803ff000; 0x803fe000].
Definition ex_mpenter : Z := 0x80102f40.
Definition ex_pgdir : Z := 0x80109000.
Definition ex_mem : memory := write_args ex_mpenter ex_pgdir 0x803ff000 ∅.
(** Processor 1 has been started by processor 0 and has read its stack. *)
Definition ex_state : sostate :=
  Sostate 1 true ex_mem [0x803fe000] [Cpu 0 0 Halted; Cpu 4 0 (Entered 0x80400000 ex_mpenter 0x109000); Cpu 6 0 Halted].

Lemma ex_started : so_reach ex_mpenter ex_pgdir 0 [] [0; 4; 6] ex_pages ex_state.
Proof.
  exists ∅. eapply rtc_l; [apply so_skip; [done|done|simpl; lia]|].
  eapply rtc_l; [by eapply (so_start ex_mpenter ex_pgdir 0 _ (Cpu 4 0 Halted))|].
  eapply rtc_l; [by eapply (ap_enter ex_mpenter ex_pgdir 0 _ 1)|]. reflexivity.
Qed.

Lemma startothers_safe_witness : ∃ s', so_step ex_mpenter ex_pgdir 0 ex_state s'.
Proof.
  apply (startothers_safe ex_mpenter ex_pgdir 0 [] [0; 4; 6] ex_pages ex_state).
  - apply (bool_decide_unpack _). by vm_compute.
  - apply (bool_decide_unpack _). by vm_compute.
  - apply (bool_decide_unpack _). by vm_compute.
  - split; by vm_compute.
  - simpl. lia.
  - simpl. lia.
  - exact ex_started.
  - simpl. lia.
Defined.
End StartupExamples.
