(* ===== verification/UnixText.v ===== *)
(** The programs [grep] and [wc] as processes: [src/grep.c], [src/wc.c].

    [Grep] says what the two programs compute from their input; here they are
    the system calls they make.  [grep_process], [wc_process]: as a process that
    reads its standard input, in whatever pieces it arrives, each has the result
    that [Grep] gives. *)

From S2P Require Import Prelude Grep Unix.
From stdpp Require Import options.
From ITree Require Import ITree ITreeFacts Events.State Events.StateFacts.
Local Open Scope usys_scope.

(** The inner loop of [grep]; the result is the final [p]. *)
Fixpoint ugrep_lines (fuel : nat) (re p : list Z) : itree sysE (list Z) :=
  match fuel with
  | O => Ret p
  | S fuel =>
      match strchr p NL with
      | None => Ret p
      | Some i =>
          let line := take i p in
          (if gmatch re line then sys (Swrite 1 (line ++ [NL])) ;; Ret tt else Ret tt) ;;
          ugrep_lines fuel re (drop (S i) p)
      end
  end.
Definition ugrep_turn (re : list Z) (fd : Z) (b : list Z) : itree sysE (list Z + unit) :=
  r <- sys (Sread fd (GREPBUF - Z.of_nat (length b) - 1)) ;;
  if 0 <? r.1 then
    let b := b ++ r.2 in
    p <- ugrep_lines (S (length b)) re b ;;
    Ret (inl (if (length p =? length b)%nat then [] else p))
  else Ret (inr tt).
Definition ugrep (re : list Z) (fd : Z) : itree sysE unit := ITree.iter (ugrep_turn re fd) [].
Definition grep_main (argv : list (list Z)) : itree sysE Empty_set :=
  match tail argv with
  | [] => printf 2 (line "usage: grep pattern [file ...]") [] ;; exit
  | [pattern] => ugrep pattern 0 ;; exit
  | pattern :: files =>
      each files (λ a,
        fd <- sys (Sopen a 0) ;;
        if fd <? 0 then printf 1 (line "grep: cannot open %s") [Astr a] ;; exit
        else ugrep pattern fd ;; sys (Sclose fd) ;; Ret tt) ;;
      exit
  end.

(** The loop of [wc], with the result of the last [read]. *)
Definition uwc_turn (fd : Z) (st : wc_counts) : itree sysE (wc_counts + Z * wc_counts) :=
  r <- sys (Sread fd 512) ;;
  if 0 <? r.1 then Ret (inl (foldl wc_char st r.2)) else Ret (inr (r.1, st)).
Definition uwc_loop (fd : Z) (st : wc_counts) : itree sysE (Z * wc_counts) := ITree.iter (uwc_turn fd) st.
Definition uwc (fd : Z) (name : list Z) : itree sysE unit :=
  r <- uwc_loop fd (Wc 0 0 0 false) ;;
  if r.1 <? 0 then printf 1 (line "wc: read error") [] ;; exit else
  printf 1 (line "%d %d %d %s") [Aint (wc_l r.2); Aint (wc_w r.2); Aint (wc_c r.2); Astr name].
Definition wc_main (argv : list (list Z)) : itree sysE Empty_set :=
  match tail argv with
  | [] => uwc 0 [] ;; exit
  | files =>
      each files (λ a,
        fd <- sys (Sopen a 0) ;;
        if fd <? 0 then printf 1 (line "wc: cannot open %s") [Astr a] ;; exit
        else uwc fd a ;; sys (Sclose fd) ;; Ret tt) ;;
      exit
  end.

(** ** As processes *)

Section run.
Variable avail : nat → nat.
Abbreviation run := (interp_state (ioh avail)).

Lemma run_read n s : ioh avail _ (Sread 0 n) s =
  let l := read_some n (avail (io_reads s)) (io_in s) in
  Ret (Io (drop (length l) (io_in s)) (S (io_reads s)) (io_out s), (Z.of_nat (length l), l)).
Proof using. done. Qed.
Lemma run_write l s : ioh avail _ (Swrite 1 l) s = Ret (Io (io_in s) (io_reads s) (io_out s ++ l), Z.of_nat (length l)).
Proof using. done. Qed.

Lemma lines_run fuel re p s :
  run (ugrep_lines fuel re p) s ≈ let r := grep_lines fuel re p in Ret (Io (io_in s) (io_reads s) (io_out s ++ r.1), r.2).
Proof using.
  revert p s. induction fuel as [|fuel IH]; intros p s; cbn [ugrep_lines grep_lines].
  { rewrite interp_state_ret. destruct s. cbn. by rewrite app_nil_r. }
  destruct (strchr p NL) as [i|]; [|rewrite interp_state_ret; destruct s; cbn; by rewrite app_nil_r].
  cbv zeta. rewrite interp_state_bind. destruct (gmatch re (take i p)).
  - rewrite io_sys, run_write, bind_ret_l. cbn [fst snd]. rewrite interp_state_ret, bind_ret_l. cbn [fst snd]. rewrite IH. cbn. by rewrite !app_assoc.
  - rewrite interp_state_ret, bind_ret_l. cbn [fst snd]. by rewrite IH.
Qed.

(** One turn of a loop that reads. *)
Lemma iter_run {I R} (body : I → itree sysE (I + R)) i s :
  run (ITree.iter body i) s ≈ ITree.bind (run (body i) s) (λ x, match x.2 with inl i => run (ITree.iter body i) x.1 | inr r => Ret (x.1, r) end).
Proof using.
  rewrite unfold_iter, interp_state_bind. eapply eutt_clo_bind; [reflexivity|]. intros [s1 [j|r]] ? <-; cbn [fst snd].
  - by rewrite interp_state_tau, tau_eutt.
  - by rewrite interp_state_ret.
Qed.

(** The loop of [grep] does what [grep_loop] says. *)
Lemma grep_run fuel re b l i out res : grep_loop fuel re avail i l b = Some res →
  ∃ rest n, run (ITree.iter (ugrep_turn re 0) b) (Io l i out) ≈ Ret (Io rest n (out ++ res), tt).
Proof using.
  revert b l i out res. induction fuel as [|fuel IH]; intros b l i out res; [done|]. cbn [grep_loop]. intros H.
  set (r := read_some _ _ l) in H.
  assert (run (ugrep_turn re 0 b) (Io l i out) ≈ run (if 0 <? Z.of_nat (length r) then let b := b ++ r in p <- ugrep_lines (S (length b)) re b ;; Ret (inl (if (length p =? length b)%nat then [] else p)) else Ret (inr tt)) (Io (drop (length r) l) (S i) out)) as Et.
  { unfold ugrep_turn. rewrite io_sys, run_read. cbv zeta. cbn [io_in io_reads io_out]. fold r. rewrite bind_ret_l. reflexivity. }
  destruct r as [|x r'] eqn:Er.
  - injection H as <-. exists l, (S i). rewrite iter_run, Et. change (0 <? Z.of_nat (length (@nil Z))) with false. cbv iota.
    rewrite interp_state_ret, bind_ret_l. cbn [fst snd length drop]. by rewrite app_nil_r.
  - rewrite <-Er in *. set (b1 := b ++ r) in *. destruct (grep_lines (S (length b1)) re b1) as [o p] eqn:Eg.
    destruct (grep_loop fuel re avail (S i) (drop (length r) l) _) as [res'|] eqn:El; [|done]. injection H as <-.
    destruct (IH _ _ _ (out ++ o) _ El) as (rest&n&Hn). exists rest, n. rewrite iter_run, Et.
    replace (0 <? Z.of_nat (length r)) with true by (rewrite Er; done). cbv zeta. rewrite interp_state_bind, lines_run. cbv zeta. fold b1. rewrite Eg.
    rewrite bind_ret_l. cbn [fst snd io_in io_reads io_out]. rewrite interp_state_ret, bind_ret_l. cbn [fst snd]. rewrite Hn. by rewrite <-app_assoc.
Qed.

Lemma read_shorter req k l x r : read_some req k l = x :: r → (length (drop (length (x :: r)) l) < length l)%nat.
Proof using.
  unfold read_some. intros E. assert (0 < length l)%nat by (destruct l; [by rewrite take_nil in E|simpl; lia]). rewrite length_drop. simpl. lia.
Qed.

(** Every turn of the loop reads something, so that it ends. *)
Lemma grep_loop_total fuel re i l b : (length l < fuel)%nat → is_Some (grep_loop fuel re avail i l b).
Proof using.
  revert i l b. induction fuel as [|fuel IH]; intros i l b Hl; [lia|]. cbn [grep_loop].
  destruct (read_some _ _ l) as [|x r] eqn:Er; [done|]. apply read_shorter in Er. destruct (grep_lines _ _ _) as [o p].
  apply fmap_is_Some, IH. lia.
Qed.

(** [grep] as a process returns, and has written to its output what [Grep]
    says. *)
Lemma grep_process re l out : ∃ res rest n, grep re avail l = Some res ∧ run (ugrep re 0) (Io l 0 out) ≈ Ret (Io rest n (out ++ res), tt).
Proof using.
  destruct (grep_loop_total (S (length l)) re 0 l []) as [res Hr]; [lia|]. destruct (grep_run _ _ _ _ _ out _ Hr) as (rest&n&H). by exists res, rest, n.
Qed.

Lemma wc_run fuel l i out st res : wc_loop fuel avail i l st = Some res →
  ∃ rest n, run (uwc_loop 0 st) (Io l i out) ≈ Ret (Io rest n out, (0, res)).
Proof using.
  revert l i st. induction fuel as [|fuel IH]; intros l i st; [done|]. cbn [wc_loop]. intros H. unfold uwc_loop. set (r := read_some _ _ l) in H.
  assert (run (uwc_turn 0 st) (Io l i out) ≈ run (if 0 <? Z.of_nat (length r) then Ret (inl (foldl wc_char st r)) else Ret (inr (Z.of_nat (length r), st))) (Io (drop (length r) l) (S i) out)) as Et.
  { unfold uwc_turn. rewrite io_sys, run_read. cbv zeta. cbn [io_in io_reads io_out]. fold r. rewrite bind_ret_l. reflexivity. }
  destruct r as [|x r'] eqn:Er.
  - injection H as <-. exists l, (S i). rewrite iter_run, Et. change (0 <? Z.of_nat (length (@nil Z))) with false. cbv iota.
    rewrite interp_state_ret, bind_ret_l. reflexivity.
  - rewrite <-Er in *. destruct (IH _ _ _ H) as (rest&n&Hn). exists rest, n. rewrite iter_run, Et.
    replace (0 <? Z.of_nat (length r)) with true by (rewrite Er; done). rewrite interp_state_ret, bind_ret_l. exact Hn.
Qed.
(** [wc] as a process reads its input without error, and has counted all of
    it. *)
Lemma wc_process l out : ∃ rest n, run (uwc_loop 0 (Wc 0 0 0 false)) (Io l 0 out) ≈ Ret (Io rest n out, (0, foldl wc_char (Wc 0 0 0 false) l)).
Proof using. apply (wc_run (S (length l))), wc_loop_fold. lia. Qed.
End run.
